(* ===== verification/_CoqProject ===== *)
-Q . S2P
Prelude.v
Layout.v
GoStd.v
Helpers.v
RefKernel.v
FileopPaths.v
Fileop.v
FileopSpec.v
FileopProps.v
FileopTheorems.v
FileopConc.v
FileopConcTheorems.v
FileopSerial.v
Tracing.v
TracingTheorems.v
Macros.v
Tls.v
TlsTheorems.v
Postgres.v
PostgresTheorems.v
CoreRead.v
CoreReadTheorems.v
Stdio.v
StdioTheorems.v
Tcpconn.v
TcpconnTheorems.v
Exec.v
Wire.v
WireTheorems.v
Collector.v
CollectorTheorems.v
Endian.v
Protocol.v
ProtocolTheorems.v
SslStore.v
SslStoreTheorems.v
RefWeb.v
Policy.v
PolicyTheorems.v
ExecTheorems.v
Attach.v
AttachTheorems.v
Mapped.v
Resolver.v
ResolverTheorems.v
Export.v
ExportTheorems.v
Pairs.v
Dashboard.v
DashboardTheorems.v
Json.v
JsonTheorems.v
JsonText.v
JsonMap.v
JsonCompact.v
PolicyFile.v
Agent.v
Format.v
FormatTheorems.v
Message.v
AgentTheorems.v
Lifecycle.v
LifecycleTheorems.v
Shutdown.v
