(* ===== verification/Prelude.v ===== *)
(** * WatchU: a verification development of the collector

    WatchU records what the processes of a machine do: the files they open,
    write, map, rename and delete, the plaintext of their TLS connections, the
    PostgreSQL messages they send, the JSON they exchange over standard input and
    output, the TCP connections they make and the programs they execute.  Each of
    these is a probe: a BPF program object ([*.bpf.c]) that the kernel runs at
    system calls, library calls or kernel functions, with BPF maps for its state
    and a ring buffer towards a Go program.  The Go program decodes the samples,
    keeps the file operations a policy asks for, parses HTTP and PostgreSQL out of
    the TLS plaintext, and hands the records to an exporter, which sends them away
    or writes them to a file; a terminal interface shows that file while it grows.
    Agents may also send their own telemetry to a receiver, which makes records of it.
    This library models the probe objects, the headers they are built from, the user
    side from the samples and the telemetry to the screen, and the command that starts
    and ends it all; it proves what the records say about the calls that were traced.

    ** How code is modelled

    A BPF program is a function [S -> A * S] ([prog], a state monad) on the record
    of the maps and ring buffers of its object; its C names are kept.  Integers are
    [Z] with the conversions of their types written out ([u8] ... [s64]), byte
    arrays are lists of bytes, C strings end at the first NUL ([cstr]), structures
    are records, and what a [goto cleanup] or an early return skips is skipped.
    Probes run on traces: lists of (task context, call) pairs, so that other
    tasks may run between the entry and the exit of a call.

    The kernel is not part of the repository.  [Helpers] has one structure per
    kernel object ([bpf_map], [bpf_ringbuf], [bpf_output_ringbuf], [num_iter]) and
    one record for the helpers that read the current task and foreign memory
    ([kenv]); they are parameters of every probe.  What the probes rely on are
    classes that state what [headers/bpf_helper_defs.h] documents: [HashOk] (an
    update succeeds or changes nothing), [LruOk] (an update may evict), [ArrayOk],
    [RingbufOk] (a reservation may fail; samples are read in submission order),
    [OutputRingbufOk], [NumIterOk], [UserMem], [resident], [no_fault].  [RefKernel]
    has executable instances of all of them, with bounded maps and ring buffers
    whose reservations fail on request; the witnesses run on these.  The offsets
    that CO-RE relocations put into a program when it is loaded are parameters
    too ([sock_relo], [task_relo], [field_info]).

    On the Go side a slice or string is a list of bytes, an [int] or [uint64] is
    kept at its width where sums can overflow, and an index or slice out of range
    is a value: [None], [Panic] or the [Crash] of the [outcome] monad, in which the
    parsers are written.  Third-party packages and the parts of the standard
    library that are programs of their own are classes of operations with named
    laws: the readers of [net/http] ([NetHttp]), the decompressors ([Codec],
    [CodecOk]), the framer and header decoder of HTTP/2 ([Http2Lib],
    [Http2LibOk]), the caches of [otter] ([Cache], [CacheOk], [Expiring]), the
    rounding of numbers ([Floats], [FloatLaws]), the texts of times and the parser of
    URLs ([Texts], [TextLaws], [PlainURLs]), the numbers of the telemetry ([Doubles]),
    the [Viewport] of the terminal library.  Where the code asks
    the system (files, ELF, the eBPF library: [os], [system]; the network of the gateway) the
    answers are given, and may differ from one question to the next.  [RefWeb] and the
    ends of the other files have instances that run.  Session keys are a given
    sequence; the iterations of a Go map are lists of its keys in any order; a
    method that holds a lock is one step, except in [Resolver], where the lock itself
    is modelled.  What is opened is a handle of the [world], and the goroutines of
    [Shutdown] interleave step by step.

    ** Files

    - [Prelude]: machine integers, byte arrays, little-endian integers, the state
      monad, fields of a state, tactics and hint databases.
    - [Layout]: layout of C structures and of the Go structures that mirror them,
      and the round trip through [encoding/binary].
    - [GoStd]: strings, numbers, base64, addresses, searching and trimming of the
      Go standard library.
    - [Helpers]: the BPF runtime above, and the loops of [headers/bpf_helpers.h]
      ([bpf_for_each], [bpf_for], [bpf_repeat]) with their equivalence to plain
      recursion.
    - [RefKernel]: executable instances of the runtime.
    - [FileopPaths], [Fileop], [FileopSpec], [FileopProps], [FileopTheorems]:
      [fileop/fileop.bpf.c].  The path filters and the path join; the maps
      inflight_open, inflight_write and fd_paths and all programs; a functional
      specification of every program; trace lemmas; the theorems, on invocations that
      each run at once: bytes written are added up and reported when the file is
      closed, an open makes its descriptor tracked under the resolved path, a
      mapping is reported once per descriptor and kind, events on paths are sound
      and complete, processes do not disturb each other.
    - [FileopConc], [FileopConcTheorems], [FileopSerial]: the programs of
      [fileop/fileop.bpf.c] that update a tracked path, load by load and store by
      store, on several CPUs.  Alone the steps are the program; together they never
      count a byte twice, but can lose the bytes of a write and even its report.  As
      long as the updates of one entry do not overlap, the bytes written are added up
      exactly and the close reports them.
    - [Tracing], [TracingTheorems]: [headers/bpf_tracing.h] and the register
      structures of [headers/common.h].  Register tables of all targets, argument
      lists of [BPF_PROG], [BPF_PROG2], [BPF_KPROBE], [BPF_KSYSCALL].
    - [Macros]: the macros of [headers/bpf_helpers.h] that compute; the printing
      macros reach their helper with all arguments in order.
    - [Endian]: [headers/bpf_endian.h]; memory holds converted numbers in network
      order on targets of either byte order.
    - [Tls], [TlsTheorems]: [tls/ssl_common.h], [tls/ssl.bpf.c] (Module [Ssl]),
      [tls/boring.bpf.c] (Module [Boring]).  The events of a call hold the
      plaintext it read or wrote; the BoringSSL object refines the OpenSSL one.
    - [Postgres], [PostgresTheorems]: [postgres/pg.bpf.c].  Startup packets are
      classified, the messages of a send are reported in order; two ways in which
      messages are lost.
    - [CoreRead], [CoreReadTheorems]: [headers/bpf_core_read.h].  Pointer chasing
      is the C expression it stands for; bit fields are read and written exactly.
    - [Stdio], [StdioTheorems]: [stdio/stdio.bpf.c].  Exactly the data that starts
      a JSON object is reported.
    - [Tcpconn], [TcpconnTheorems]: [tcpconn/tcpconn.bpf.c].  A connection is
      attributed to the task that started it and reported at most once.
    - [Exec], [ExecTheorems]: [execve/exec.bpf.c] and the record decoder of
      [execve/probe.go] (Module [Decoder]).  Exec records decode to what the
      kernel holds whatever the reused per-CPU buffer held; a libssl that a task
      maps is reported once.
    - [Attach], [AttachTheorems]: [internal/proc] (Module [Detect]), [tls/openssl.go],
      [tls/boring.go] and the attaching part of [tls/probe.go].  Each file is attached
      to once and all handles are accounted for, those included that failed attempts
      lose; which programs are bun bundles and which lines of a maps file name libssl.
    - [Mapped]: from the system calls that map a libssl to the probe on it.
    - [Resolver], [ResolverTheorems]: [internal/container].  Walks of the cgroup
      directory are read exactly; calls that interleave at every load and store pace
      the walks, give sound answers and all come to an end.
    - [Export], [ExportTheorems]: [export/exporter.go], the sinks ([export/sink.go],
      [export/sink_gateway.go], [export/sink_discard.go]), file targets, and the HTTP
      and MCP records.  What reaches the gateway, attempt by attempt, from loops that
      share a sink without a lock.
    - [Wire], [WireTheorems]: the structures of the ring buffers, as the probes
      declare them and as the generated [*_bpfel.go] do.  They agree, and the
      samples of every probe are decoded to its events.
    - [Collector], [CollectorTheorems]: the loops of [tcpconn/probe.go],
      [postgres/probe.go], [stdio/probe.go] and [execve/probe.go], the records of
      [export/records.go] and the channels of [export/exporter.go].  What becomes
      of every event of a trace, the identifiers of parent and child, the order of
      export.
    - [Policy], [PolicyTheorems]: [fileop/probe.go] and [fileop/policy.go].  The
      events that are collected are those the policy matches, and the filters in
      the kernel hide no path the default policy asks for by prefix.
    - [Protocol], [ProtocolTheorems]: [tls/http1.go], [tls/http2.go],
      [tls/postgres.go], [tls/compress.go].  HTTP/2 messages are put together from
      interleaved frames, chunked bodies are read back, encodings are undone,
      credentials are masked; the inputs that crash a parser.
    - [SslStore], [SslStoreTheorems]: [tls/protocol.go] and the loop of
      [tls/probe.go].  The events of the probes fill the streams, a tick of the
      parser ends, statements and responses are delivered in order, a request and
      its response share a key that no other exchange has.
    - [RefWeb]: executable instances of the Go libraries.
    - [Pairs]: [tui/pairs.go].  Requests are paired with their responses and drawn
      in as few columns as possible.
    - [Dashboard], [DashboardTheorems]: [export/sink_jsonl.go], [tui/stream.go] and
      [tui/model.go].  Each record written to the file is shown once and in order,
      whatever the reader sees of the growing file, for any JSON that puts an object on
      a line ([OneLine]); no index is out of range, and the selected record is on the
      screen.
    - [Json], [JsonTheorems], [JsonText], [JsonMap], [JsonCompact]: [encoding/json] and
      the decoding of base64 of the Go standard library, as texts and trees.  What is
      written is read back; compacting undoes indenting and keeps the value of any text;
      a map that was read is read again unchanged.
    - [PolicyFile]: [LoadPolicy] of [fileop/policy.go] and [fileop/default-policy.json].
      Which files are refused and why; all others are loaded as they are written.
    - [Agent], [AgentTheorems]: [otelrecv/receiver.go] (Module [Receiver]).  Which log
      records become events, what they say, and that they reach the screen.
    - [Format], [FormatTheorems]: the JSON of [export/records.go], [tui/format.go] and
      [tui/endpoints.go].  The events that are exported are shown with their endpoint,
      time, session key and summary, exchanges are paired, bodies decoded, and the
      provider and model of a request named.
    - [Message]: [json.Unmarshal] of the messages in [export/records.go].  Which are
      recorded, and that they are shown with the values they were sent with.
    - [Lifecycle], [LifecycleTheorems]: the constructors and [Close] of the probes
      (Module [Probes]), and [run] and the paths of [cmd/main.go] (Module [Command]).
      Whatever fails, everything that was opened is closed, apart from what is counted,
      with the TLS probe attaching to libraries before, between and after the closes;
      the interface follows the file that the sink writes.
    - [Shutdown]: the goroutines of all parts while [run] ends, in every schedule: which
      channels can be sent on after they are closed, and which cannot.

    ** How the parts use each other

    In the kernel, [Tls] takes its arguments through [Tracing]'s register accessors,
    [Tcpconn] through [BPF_PROG]; [Tcpconn] and [Exec] read kernel structures
    through [CoreRead]; every probe uses [Helpers].  Between kernel and user, the
    class [Wire] ties the events of a probe's model to the bytes of its samples, and
    the theorems named [..._collected] start from a trace of programs in the kernel
    and end at the records of the user side.  The events of the TLS probes become
    streams ([SslStore]), streams become messages ([Protocol]).  A libssl that
    [Exec] reports is attached to by [Attach] ([Mapped]), which is where the events
    of [Tls] come from.  Records go through the channels of [Collector] and the
    loops of [Export] to a sink; [Dashboard] goes on from the sink of a file to the
    screen, with the lines and the parser of [Format], and [Pairs] connects requests
    and responses there by the session keys of [SslStore].  The texts that [Message]
    and [Agent] put into records as they are stay what they were by [JsonCompact].
    [Lifecycle] puts the constructors of the other probes around the TLS probe of
    [Attach], whose ledger of handles it takes over, and [PolicyFile] gives [run]
    the policy that [Policy] matches with.  Lemmas of a lower file are what the
    upper one is proved with ([core_read_field], [user_read_at], [read_str_string],
    [run_invariant], [wire_read], [draw_pairs_spec]).

    ** Bounds and fuel

    Loops of the probes with a fixed bound are recursions on that bound: the path loops
    run over [MAX_PATH_SIZE] or [MAX_FILENAME_LEN] bytes and are shown to end at the
    NUL before it; [bpf_repeat] runs [MAX_LOOP] times (64 chunks of TLS data, 64
    PostgreSQL messages), and the theorems say what is left out beyond it.  The
    draws of [for_each] are bounded by the length of the range plus one, which
    [for_each_yields] shows to be enough.  The parse loops of [SslStore] have fuel,
    and running out of it is an outcome of its own: [tick_returns] shows that more
    fuel than the longest stream is enough as long as the bytes announce no length
    of 2^62 or more and no short startup message, and [huge_length_hangs] that no
    fuel is enough for a length near 2^63.  The frames of HTTP/2 data are at most
    its length, those of a drained channel at most its queue; [Search] halves its
    range, which [Search_spec] shows to end.  A call of the resolver takes at most
    fifteen steps, a batch of the gateway sink three attempts.  A schedule of
    [Shutdown] may have any length.  The fuel of the JSON reader is the length of
    the text plus one, which [json_roundtrip] shows to be enough for what is
    written; a text nested deeper than 10000 levels is refused, as [encoding/json]
    does.

    ** What is not modelled

    Outside [FileopConc] a program invocation is atomic, so what [FileopTheorems] says
    of traces holds of calls that do not update one entry at the same time.  In
    [FileopConc] the exit of a write, an mmap and a close run in steps, the other
    programs at once; and an entry that is deleted while another CPU holds its
    address takes no more updates; that the kernel may have reused its memory is not
    described.  Bit fields are modelled for little-endian targets, which are the
    ones the project builds for.  The type and enum relocations of [bpf_core_read.h]
    and the attribute macros of [bpf_helpers.h] only reach the compiler;
    [bpf_helper_defs.h] and [bpf.h] declare code of the kernel and of libbpf.
    Whether the eBPF library loads, attaches or opens something is given.  The
    container of a cgroup is a parameter of the records, for [Resolver] to fill.
    The rendering of text is left out.  [Shutdown] keeps of a goroutine what others
    can notice of it; one goroutine stands for the handlers of the TLS libraries and
    one for the requests of the receiver, which all run the same code.  The flags of
    the command, its signals and logging are input and output.  Plain constants,
    accessors of a map in a state, sizes and decoders that only name the fields of a
    structure stand beside the definitions that use them.

    ** This file

    Shared vocabulary of the development: machine integers at their C width,
    byte arrays and the C strings stored in them, the state monad in which the
    probe handlers are written, and the automation of the library. *)

From stdpp Require Export prelude gmap strings.
From Stdlib Require Export ZArith Lia.

#[global] Open Scope Z_scope.

Declare Scope watchu_scope.
Delimit Scope watchu_scope with watchu.

(** ** Machine integers

    A C integer is a [Z]; the conversions below are the wrap-around of the
    unsigned and of the two's complement types of [headers/common.h]. *)

Definition u8 (z : Z) : Z := z mod 2 ^ 8.
Definition u16 (z : Z) : Z := z mod 2 ^ 16.
Definition u32 (z : Z) : Z := z mod 2 ^ 32.
Definition u64 (z : Z) : Z := z mod 2 ^ 64.
Definition s16 (z : Z) : Z := (z + 2 ^ 15) mod 2 ^ 16 - 2 ^ 15.
Definition s32 (z : Z) : Z := (z + 2 ^ 31) mod 2 ^ 32 - 2 ^ 31.
Definition s64 (z : Z) : Z := (z + 2 ^ 63) mod 2 ^ 64 - 2 ^ 63.

(** The truth value of a C condition, as the [int] an operator yields. *)
Definition b2z (b : bool) : Z := if b then 1 else 0.

Lemma u8_range z : 0 <= u8 z < 256.
Proof. apply Z.mod_pos_bound. lia. Qed.

Lemma u16_range z : 0 <= u16 z < 65536.
Proof. apply Z.mod_pos_bound. lia. Qed.

Lemma u32_range z : 0 <= u32 z < 4294967296.
Proof. apply Z.mod_pos_bound. lia. Qed.

Lemma u64_range z : 0 <= u64 z < 18446744073709551616.
Proof. apply Z.mod_pos_bound. lia. Qed.

Lemma s32_range z : -2147483648 <= s32 z < 2147483648.
Proof. unfold s32. pose proof (Z.mod_pos_bound (z + 2 ^ 31) (2 ^ 32)). lia. Qed.

Lemma u8_small z : 0 <= z < 256 -> u8 z = z.
Proof. intros. apply Z.mod_small. lia. Qed.

Lemma u16_small z : 0 <= z < 65536 -> u16 z = z.
Proof. intros. apply Z.mod_small. lia. Qed.

Lemma u32_small z : 0 <= z < 4294967296 -> u32 z = z.
Proof. intros. apply Z.mod_small. lia. Qed.

Lemma u64_small z : 0 <= z < 18446744073709551616 -> u64 z = z.
Proof. intros. apply Z.mod_small. lia. Qed.

Lemma s32_small z : -2147483648 <= z < 2147483648 -> s32 z = z.
Proof. intros. unfold s32. rewrite Z.mod_small; lia. Qed.

Lemma s64_small z :
  -9223372036854775808 <= z < 9223372036854775808 -> s64 z = z.
Proof. intros. unfold s64. rewrite Z.mod_small; lia. Qed.

Lemma u64_add_u64_l a b : u64 (u64 a + b) = u64 (a + b).
Proof. apply Z.add_mod_idemp_l. lia. Qed.

Lemma u64_add_u64_r a b : u64 (a + u64 b) = u64 (a + b).
Proof. apply Z.add_mod_idemp_r. lia. Qed.

Lemma b2z_true b : b2z b = 1 <-> b = true.
Proof. destruct b; simpl; split; congruence. Qed.

Lemma b2z_eqb_0 b : (b2z b =? 0) = negb b.
Proof. destruct b; done. Qed.

(** ** Byte arrays

    A [char] or [u8] array is the list of its bytes, each in [0, 256). *)

Definition byte (z : Z) : Prop := 0 <= z < 256.

(** [l[i]]: the programs only read inside their arrays (the in-range lemmas of
    each loop say so); outside it reads 0. *)
Definition rd (l : list Z) (i : nat) : Z := nth i l 0.

(** Bytes written from the start of a buffer; what lies behind them stays. *)
Definition overlay (dst bs : list Z) : list Z := bs ++ drop (length bs) dst.

(** The bytes of a string literal, without its terminating NUL. *)
Definition str (s : string) : list Z :=
  map (fun c => Z.of_N (Ascii.N_of_ascii c)) (String.list_ascii_of_string s).

Definition zeros (n : nat) : list Z := replicate n 0.

Arguments zeros : simpl never.

(** The C string stored at the start of a buffer: the bytes before the first
    NUL. *)
Fixpoint cstr (l : list Z) : list Z :=
  match l with
  | [] => []
  | c :: l' => if c =? 0 then [] else c :: cstr l'
  end.

Lemma rd_lookup l i c : l !! i = Some c -> rd l i = c.
Proof. intros H. unfold rd. by apply nth_lookup_Some. Qed.

Lemma lookup_rd l i : (i < length l)%nat -> l !! i = Some (rd l i).
Proof. intros [c H]%lookup_lt_is_Some. by rewrite (rd_lookup _ _ _ H). Qed.

Lemma length_elem {A} (l : list A) n : length l = S n -> exists x, x ∈ l.
Proof. destruct l as [|x l]; [done|]. exists x. set_solver. Qed.

Lemma drop_rd l i : (i < length l)%nat -> drop i l = rd l i :: drop (S i) l.
Proof. intros. by apply drop_S, lookup_rd. Qed.

Lemma rd_overflow l i : (length l <= i)%nat -> rd l i = 0.
Proof. apply nth_overflow. Qed.

Lemma rd_cons_0 c l : rd (c :: l) 0 = c.
Proof. done. Qed.

Lemma rd_cons_S c l i : rd (c :: l) (S i) = rd l i.
Proof. done. Qed.

Lemma rd_drop l n i : rd (drop n l) i = rd l (n + i).
Proof. revert l. induction n; intros [|c l]; simpl; try done. by destruct i. Qed.

Lemma rd_app_l l k i : (i < length l)%nat -> rd (l ++ k) i = rd l i.
Proof. intros. by apply app_nth1. Qed.

Lemma rd_app_r l k i : (length l <= i)%nat -> rd (l ++ k) i = rd k (i - length l).
Proof. intros. by apply app_nth2. Qed.

Lemma rd_middle l c k : rd (l ++ c :: k) (length l) = c.
Proof. rewrite rd_app_r by lia. by rewrite Nat.sub_diag. Qed.

Lemma length_overlay dst bs :
  (length bs <= length dst)%nat -> length (overlay dst bs) = length dst.
Proof. intros. unfold overlay. rewrite length_app, length_drop. lia. Qed.

Lemma take_overlay dst bs : take (length bs) (overlay dst bs) = bs.
Proof. apply take_app_length. Qed.

Lemma overlay_nil dst : overlay dst [] = dst.
Proof. done. Qed.

Lemma overlay_snoc dst bs c :
  (length bs < length dst)%nat ->
  <[length bs := c]> (overlay dst bs) = overlay dst (bs ++ [c]).
Proof.
  intros H. unfold overlay. rewrite insert_app_r_alt, Nat.sub_diag by lia.
  rewrite (drop_rd dst) by done. simpl. rewrite length_app, <- app_assoc. simpl.
  by rewrite Nat.add_1_r.
Qed.

Lemma overlay_full dst bs :
  (length dst <= length bs)%nat -> overlay dst bs = bs.
Proof. intros. unfold overlay. rewrite drop_ge by lia. apply app_nil_r. Qed.

Lemma length_zeros n : length (zeros n) = n.
Proof. apply length_replicate. Qed.

Lemma drop_zeros n k : drop k (zeros n) = zeros (n - k).
Proof. apply drop_replicate. Qed.

Lemma cstr_no_nul l : 0 ∉ cstr l.
Proof.
  induction l as [|c l IH]; simpl; [set_solver|].
  destruct (Z.eqb_spec c 0); set_solver.
Qed.

Lemma cstr_app_nul s t : 0 ∉ s -> cstr (s ++ 0 :: t) = s.
Proof.
  induction s as [|c s IH]; simpl; intros H; [done|].
  destruct (Z.eqb_spec c 0); [set_solver|]. f_equal. set_solver.
Qed.

Lemma cstr_id s : 0 ∉ s -> cstr s = s.
Proof.
  induction s as [|c s IH]; simpl; intros H; [done|].
  destruct (Z.eqb_spec c 0); [set_solver|]. f_equal. set_solver.
Qed.

(** A buffer with a NUL in it splits at the end of its C string. *)
Lemma cstr_split l : 0 ∈ l -> exists t, l = cstr l ++ 0 :: t.
Proof.
  induction l as [|c l IH]; simpl; intros H; [set_solver|].
  destruct (Z.eqb_spec c 0) as [->|Hc]; [by exists l|].
  destruct IH as [t Ht]; [set_solver|]. exists t. simpl. by f_equal.
Qed.

Lemma length_cstr l : (length (cstr l) <= length l)%nat.
Proof. induction l; simpl; [lia|]. case_match; simpl; lia. Qed.

Lemma cstr_take l : take (length (cstr l)) l = cstr l.
Proof.
  induction l as [|c l IH]; simpl; [done|].
  destruct (c =? 0); simpl; [done|]. by rewrite IH.
Qed.

Lemma rd_cstr l i : (i < length (cstr l))%nat -> rd (cstr l) i = rd l i.
Proof.
  intros. rewrite <- (cstr_take l) at 1. unfold rd. rewrite nth_firstn.
  by rewrite (proj2 (Nat.ltb_lt _ _)).
Qed.

Lemma rd_cstr_end l : rd l (length (cstr l)) = 0.
Proof.
  induction l as [|c l IH]; simpl; [done|].
  destruct (Z.eqb_spec c 0); simpl; done.
Qed.

Lemma rd_cstr_ne l i : (i < length (cstr l))%nat -> rd l i <> 0.
Proof.
  revert i. induction l as [|c l IH]; simpl; intros i Hi; [lia|].
  destruct (Z.eqb_spec c 0); simpl in *; [lia|].
  destruct i; simpl; [done|]. apply IH. lia.
Qed.

Lemma cstr_lt l : 0 ∈ l -> (length (cstr l) < length l)%nat.
Proof.
  intros [t Ht]%cstr_split. rewrite Ht at 2. rewrite length_app. simpl. lia.
Qed.

(** Inside the C string, the next byte is inside it too or is its NUL. *)
Lemma cstr_next l i :
  (i < length (cstr l))%nat -> rd l (S i) <> 0 -> (S i < length (cstr l))%nat.
Proof.
  intros Hi Hn. destruct (decide (S i = length (cstr l))) as [E|]; [|lia].
  by rewrite E, rd_cstr_end in Hn.
Qed.

Lemma cstr_nil_iff l : cstr l = [] <-> rd l 0 = 0.
Proof.
  destruct l as [|c l]; simpl; [done|]. rewrite rd_cons_0.
  destruct (Z.eqb_spec c 0); split; congruence.
Qed.

(** Little-endian integers in memory. *)
Fixpoint le_decode (l : list Z) : Z :=
  match l with
  | [] => 0
  | b :: l' => b + 256 * le_decode l'
  end.

Fixpoint le_encode (n : nat) (z : Z) : list Z :=
  match n with
  | O => []
  | S n' => z mod 256 :: le_encode n' (z / 256)
  end.

Lemma length_le_encode n z : length (le_encode n z) = n.
Proof. revert z. induction n; intros z; simpl; auto. Qed.

Lemma le_encode_bytes n z : Forall byte (le_encode n z).
Proof.
  revert z. induction n as [|n IH]; intros z; simpl; constructor; [|done].
  apply Z.mod_pos_bound. lia.
Qed.

Lemma le_decode_encode n z : le_decode (le_encode n z) = z mod 2 ^ (8 * Z.of_nat n).
Proof.
  revert z. induction n as [|n IH]; intros z; simpl le_encode; simpl le_decode.
  { by rewrite Z.mod_1_r. }
  rewrite IH. replace (8 * Z.of_nat (S n)) with (8 + 8 * Z.of_nat n) by lia.
  rewrite Z.pow_add_r by lia. change (2 ^ 8) with 256.
  rewrite Z.rem_mul_r by lia. lia.
Qed.

Lemma le_encode_decode l : Forall byte l -> le_encode (length l) (le_decode l) = l.
Proof.
  induction 1 as [|b l Hb Hl IH]; simpl; [done|]. unfold byte in Hb.
  replace (b + 256 * le_decode l) with (le_decode l * 256 + b) by lia.
  rewrite Z.div_add_l, (Z.div_small b), Z.add_0_r, IH by lia.
  rewrite Z.add_comm, Z.mod_add, Z.mod_small by lia. done.
Qed.

Lemma le_decode_range l : Forall byte l -> 0 <= le_decode l < 2 ^ (8 * Z.of_nat (length l)).
Proof.
  induction 1 as [|b l Hb Hl IH]; [simpl; lia|]. unfold byte in Hb. cbn [le_decode length].
  replace (8 * Z.of_nat (S (length l))) with (8 + 8 * Z.of_nat (length l)) by lia.
  rewrite Z.pow_add_r by lia. change (2 ^ 8) with 256. lia.
Qed.

(** Bits below a shift are added. *)
Lemma lor_shiftl a b n :
  0 <= n -> 0 <= b < 2 ^ n -> Z.lor (Z.shiftl a n) b = Z.shiftl a n + b.
Proof.
  intros Hn Hb. rewrite <- Z.add_lor_land.
  replace (Z.land (Z.shiftl a n) b) with 0; [lia|]. symmetry. apply Z.bits_inj'.
  intros i Hi. rewrite Z.land_spec, Z.bits_0, Z.shiftl_spec by done.
  destruct (Z.ltb_spec i n).
  - by rewrite Z.testbit_neg_r by lia.
  - replace (Z.testbit b i) with false; [apply andb_false_r|]. symmetry.
    destruct (Z.eq_dec b 0) as [->|]; [apply Z.bits_0|].
    apply Z.bits_above_log2; [lia|]. assert (Z.log2 b < n) by (apply Z.log2_lt_pow2; lia). lia.
Qed.

(** [l] starts with [p]. *)
Definition starts_with (p l : list Z) : bool := bool_decide (p `prefix_of` l).

(** A prefix without NUL is a prefix of the buffer exactly when it is one of
    the C string in it. *)
Lemma prefix_cstr p l :
  0 ∉ p -> p `prefix_of` l <-> p `prefix_of` cstr l.
Proof.
  revert l. induction p as [|a p IH]; intros l Hp; [split; intros; apply prefix_nil|].
  apply not_elem_of_cons in Hp as [Ha Hp].
  destruct l as [|c l]; simpl; [done|].
  destruct (Z.eqb_spec c 0) as [->|Hc].
  - split; intros H.
    + apply prefix_cons_inv_1 in H. congruence.
    + by apply prefix_nil_not in H.
  - split; intros H; pose proof (prefix_cons_inv_1 _ _ _ _ H); subst;
      apply prefix_cons; apply prefix_cons_inv_2 in H; by apply (IH l Hp).
Qed.

(** ** Programs

    A probe program runs on the state its BPF maps and ring buffers form; [S]
    is that state, and the helpers of [Helpers] change it. *)

Definition prog (S A : Type) : Type := S -> A * S.

#[export] Instance prog_ret S : MRet (prog S) := fun _ a s => (a, s).
#[export] Instance prog_bind S : MBind (prog S) :=
  fun _ _ f m s => let '(a, s') := m s in f a s'.

Definition gets {S A} (f : S -> A) : prog S A := fun s => (f s, s).
Definition modify {S} (f : S -> S) : prog S unit := fun s => (tt, f s).

(** The state a program leaves. *)
Definition exec {S A} (m : prog S A) (s : S) : S := (m s).2.

(** Run a sequence of programs, one invocation after the other. *)
Definition run {S A} (ms : list (prog S A)) (s : S) : S :=
  fold_left (fun s m => exec m s) ms s.

Lemma run_nil {S A} (s : S) : run (A := A) [] s = s.
Proof. done. Qed.

Lemma run_cons {S A} (m : prog S A) ms s : run (m :: ms) s = run ms (exec m s).
Proof. done. Qed.

Lemma run_app {S A} (ms ms' : list (prog S A)) s :
  run (ms ++ ms') s = run ms' (run ms s).
Proof. apply fold_left_app. Qed.

(** An invariant that every program of a sequence keeps holds at its end. *)
Lemma run_invariant {S A} (I : S -> Prop) (ms : list (prog S A)) s :
  Forall (fun m => forall s, I s -> I (exec m s)) ms -> I s -> I (run ms s).
Proof.
  intros H. revert s. induction H as [|m ms Hm _ IH]; intros s Hs; [done|].
  rewrite run_cons. auto.
Qed.

(** A field of the state that holds a map or a ring buffer. *)
Record field (S M : Type) := Field { fget : S -> M; fset : M -> S -> S }.
Arguments Field {S M} _ _.
Arguments fget {S M} _ _.
Arguments fset {S M} _ _ _.

Class FieldOk {S M} (f : field S M) : Prop := {
  fget_fset : forall m s, fget f (fset f m s) = m;
  fset_fset : forall m m' s, fset f m (fset f m' s) = fset f m s;
  fset_fget : forall s, fset f (fget f s) s = s;
}.

(** Fields of a state record satisfy the laws by computation. *)
Ltac field_ok := split; [done|done|first [done|by intros []]].

(** ** Automation *)

Create HintDb watchu.
#[export] Hint Resolve u8_range u16_range u32_range u64_range : watchu.
#[export] Hint Resolve cstr_no_nul length_cstr : watchu.

Create Rewrite HintDb watchu_len.
#[export] Hint Rewrite length_zeros @length_app @length_drop @length_take
  @length_replicate @length_insert : watchu_len.

(** Unfold the state monad. *)
Ltac prog_unfold :=
  unfold exec, gets, modify, mret, mbind, prog_ret, prog_bind in *.

(** Split on the next condition, option or pair a program branches on. *)
Ltac prog_case :=
  match goal with
  | |- context [match ?x with _ => _ end] =>
      lazymatch x with
      | context [match _ with _ => _ end] => fail
      | _ => destruct x eqn:?
      end
  end.

Ltac zbool :=
  repeat match goal with
  | H : (_ =? _) = true |- _ => apply Z.eqb_eq in H
  | H : (_ =? _) = false |- _ => apply Z.eqb_neq in H
  | H : (_ <? _) = true |- _ => apply Z.ltb_lt in H
  | H : (_ <? _) = false |- _ => apply Z.ltb_ge in H
  | H : (_ <=? _) = true |- _ => apply Z.leb_le in H
  | H : (_ <=? _) = false |- _ => apply Z.leb_gt in H
  | H : negb _ = true |- _ => apply negb_true_iff in H
  | H : negb _ = false |- _ => apply negb_false_iff in H
  | H : (_ && _)%bool = true |- _ => apply andb_true_iff in H; destruct H
  | H : (_ || _)%bool = false |- _ => apply orb_false_iff in H; destruct H
  end.
