(* ===== verification/Layout.v ===== *)
(** Layout of C structures and of the Go structures that mirror them.

    The probes write their events as C structures into ring buffers, and the
    user side reads the bytes back with [encoding/binary.Read] into Go
    structures, most of them generated ([*_bpfel.go]).  This file has the layout
    rules of both sides: natural alignment with padding for C, consecutive
    little-endian fields for [binary.Read].  Both are described by the same list
    of leaves (name, offset, integer type, count), and [binary_Read_image] is the
    round trip: when the leaves agree, reading back the image of a C structure
    yields its field values, whatever the padding bytes hold.  [Wire] applies it
    to the structures of the program. *)

From Stdlib Require Import Ascii.
From S2P Require Import Prelude.

(** ** Integer types *)

Record ityp := Int { signed : bool; width : nat }.

Definition U8 : ityp := Int false 1.
Definition U16 : ityp := Int false 2.
Definition U32 : ityp := Int false 4.
Definition U64 : ityp := Int false 8.
Definition S8 : ityp := Int true 1.
Definition S32 : ityp := Int true 4.
Definition S64 : ityp := Int true 8.

#[export] Instance ityp_eq_dec : EqDecision ityp.
Proof. solve_decision. Defined.

(** The value of the type congruent to [z]. *)
Definition wrap (t : ityp) (z : Z) : Z :=
  let m := 2 ^ (8 * Z.of_nat (width t)) in
  if signed t then (z + m / 2) mod m - m / 2 else z mod m.

(** ** Leaves

    An integer or an array of integers inside a structure, at its offset in
    bytes. *)

Record leaf := Leaf { lf_name : string; lf_off : Z; lf_typ : ityp; lf_count : Z }.

#[export] Instance leaf_eq_dec : EqDecision leaf.
Proof. solve_decision. Defined.

Definition leaf_size (l : leaf) : Z := Z.of_nat (width (lf_typ l)) * lf_count l.

(** The leaves are in order, without overlap, between [pos] and [fin]. *)
Fixpoint packed (pos : Z) (ls : list leaf) (fin : Z) : Prop :=
  match ls with
  | [] => pos <= fin
  | l :: ls' => pos <= lf_off l /\ 0 <= lf_count l /\ packed (lf_off l + leaf_size l) ls' fin
  end.

(** The member [x] of the member [p]. *)
Definition qualify (p x : string) : string :=
  if String.eqb p EmptyString then x else String.append p (String.append "." x).

(** ** C types *)

Inductive ctype :=
| CInt (t : ityp)
| CArray (t : ityp) (n : Z)
| CStruct (fs : list (string * ctype)).

Fixpoint alignof (t : ctype) : Z :=
  match t with
  | CInt i | CArray i _ => Z.of_nat (width i)
  | CStruct fs => foldr (fun f a => Z.max (alignof f.2) a) 1 fs
  end.

Definition align_up (p a : Z) : Z := (p + (a - 1)) / a * a.

(** The leaves of a type placed at [pos], a multiple of its alignment, and the
    position behind it. *)
Fixpoint c_layout (name : string -> string) (p : string) (t : ctype) (pos : Z) : list leaf * Z :=
  match t with
  | CInt i => ([Leaf p pos i 1], pos + Z.of_nat (width i))
  | CArray i n => ([Leaf p pos i n], pos + Z.of_nat (width i) * n)
  | CStruct fs =>
      let fix members (fs : list (string * ctype)) (pos : Z) : list leaf * Z :=
        match fs with
        | [] => ([], pos)
        | (x, t') :: fs' =>
            let '(l1, p1) := c_layout name (qualify p (name x)) t' (align_up pos (alignof t')) in
            let '(l2, p2) := members fs' p1 in
            (l1 ++ l2, p2)
        end in
      let '(ls, p1) := members fs pos in
      (ls, align_up p1 (alignof t))
  end.

Definition sizeof (t : ctype) : Z := (c_layout id EmptyString t 0).2.

(** The name of a member on the Go side: the words between underscores,
    capitalised and put together. *)
Definition upper (c : Ascii.ascii) : Ascii.ascii :=
  let n := Ascii.N_of_ascii c in
  if ((97 <=? n) && (n <=? 122))%N then Ascii.ascii_of_N (n - 32) else c.

Fixpoint camel (start : bool) (s : string) : string :=
  match s with
  | EmptyString => EmptyString
  | String c s' =>
      if Ascii.eqb c "_"%char then camel true s'
      else String (if start then upper c else c) (camel false s')
  end.

Definition identifier : string -> string := camel true.

Definition c_leaves (t : ctype) : list leaf := (c_layout identifier EmptyString t 0).1.

(** ** Go types, as [encoding/binary] sees them

    Fields follow one another without padding; a field named [_] takes its room
    and is skipped. *)

Inductive gotype :=
| GInt (t : ityp)
| GArray (t : ityp) (n : Z)
| GStruct (fs : list (string * gotype)).

(** [structs.HostLayout], a marker without size. *)
Definition HostLayout : gotype := GStruct [].

Fixpoint go_layout (p : string) (t : gotype) (pos : Z) : list leaf * Z :=
  match t with
  | GInt i => ([Leaf p pos i 1], pos + Z.of_nat (width i))
  | GArray i n => ([Leaf p pos i n], pos + Z.of_nat (width i) * n)
  | GStruct fs =>
      let fix members (fs : list (string * gotype)) (pos : Z) : list leaf * Z :=
        match fs with
        | [] => ([], pos)
        | (x, t') :: fs' =>
            let '(l1, p1) := go_layout (qualify p x) t' pos in
            let '(l2, p2) := members fs' p1 in
            (if String.eqb x "_"%string then l2 else l1 ++ l2, p2)
        end in
      members fs pos
  end.

Definition go_leaves (t : gotype) : list leaf := (go_layout EmptyString t 0).1.
Definition binary_Size (t : gotype) : Z := (go_layout EmptyString t 0).2.

(** ** Images and reading *)

(** [n] integers of type [t], from the start of [bs]. *)
Fixpoint read_ints (t : ityp) (n : nat) (bs : list Z) : list Z :=
  match n with
  | O => []
  | S n' => wrap t (le_decode (take (width t) bs)) :: read_ints t n' (drop (width t) bs)
  end.

Definition read_leaf (raw : list Z) (l : leaf) : list Z :=
  read_ints (lf_typ l) (Z.to_nat (lf_count l)) (drop (Z.to_nat (lf_off l)) raw).

(** [binary.Read] of a structure, little-endian: the values of the fields, or an
    error when the input is too short.  What follows is not read. *)
Definition binary_Read (t : gotype) (raw : list Z) : option (list (list Z)) :=
  if Z.of_nat (length raw) <? binary_Size t then None
  else Some (read_leaf raw <$> go_leaves t).

(** The bytes of a C structure with the field values [vs]; [fill] is what the
    padding holds. *)
Definition padding (fill : Z -> Z) (a b : Z) : list Z := fill <$> seqZ a (b - a).

Definition leaf_bytes (l : leaf) (v : list Z) : list Z := v ≫= le_encode (width (lf_typ l)).

Fixpoint image_from (fill : Z -> Z) (ls : list leaf) (vs : list (list Z)) (pos fin : Z) : list Z :=
  match ls, vs with
  | l :: ls', v :: vs' =>
      padding fill pos (lf_off l) ++ leaf_bytes l v ++
      image_from fill ls' vs' (lf_off l + leaf_size l) fin
  | _, _ => padding fill pos fin
  end.

Definition image (fill : Z -> Z) (t : ctype) (vs : list (list Z)) : list Z :=
  image_from fill (c_leaves t) vs 0 (sizeof t).

(** The values have the shape of the leaves. *)
Definition shaped (ls : list leaf) (vs : list (list Z)) : Prop :=
  Forall2 (fun l v => Z.of_nat (length v) = lf_count l) ls vs.

(** Sizes and counts of a type are as in C. *)
Fixpoint c_wf (t : ctype) : bool :=
  match t with
  | CInt i => (0 <? width i)%nat
  | CArray i n => (0 <? width i)%nat && (0 <=? n)
  | CStruct fs => forallb (fun f => c_wf f.2) fs
  end.

(** A Go structure that reads a C structure: the same leaves, under the
    corresponding names, and no more bytes. *)
Definition mirrors (t : ctype) (g : gotype) : bool :=
  c_wf t && bool_decide (c_leaves t = go_leaves g) && (binary_Size g <=? sizeof t).

(** ** Lemmas *)

Lemma wrap_u64 z : wrap U64 z = u64 z.
Proof. done. Qed.

Lemma wrap_u8 z : wrap U8 z = u8 z.
Proof. done. Qed.

Lemma le_decode_wrap t z : (0 < width t)%nat ->
  wrap t (le_decode (le_encode (width t) z)) = wrap t z.
Proof.
  intros Hw. rewrite le_decode_encode. unfold wrap. set (m := 2 ^ _).
  assert (0 < m) by (apply Z.pow_pos_nonneg; lia).
  destruct (signed t); [|by rewrite Z.mod_mod by lia].
  by rewrite Z.add_mod_idemp_l by lia.
Qed.

Lemma length_leaf_bytes l v :
  Z.of_nat (length v) = lf_count l -> Z.of_nat (length (leaf_bytes l v)) = leaf_size l.
Proof.
  unfold leaf_size, leaf_bytes. intros <-. induction v as [|z v IH]; [simpl; lia|].
  rewrite bind_cons, length_app, length_le_encode. cbn [length]. lia.
Qed.

Lemma length_padding fill a b : a <= b -> Z.of_nat (length (padding fill a b)) = b - a.
Proof. intros. unfold padding. rewrite length_fmap, length_seqZ. lia. Qed.

Lemma read_ints_bytes t v rest : (0 < width t)%nat ->
  read_ints t (length v) ((v ≫= le_encode (width t)) ++ rest) = wrap t <$> v.
Proof.
  intros Hw. induction v as [|z v IH]; [done|].
  rewrite bind_cons, fmap_cons, <- app_assoc. cbn [length read_ints].
  rewrite take_app_length', drop_app_length' by (by rewrite length_le_encode).
  rewrite le_decode_wrap by done. f_equal. apply IH.
Qed.

Lemma length_image_from fill ls vs pos fin :
  packed pos ls fin -> shaped ls vs ->
  Z.of_nat (length (image_from fill ls vs pos fin)) = fin - pos.
Proof.
  intros Hp Hs. revert pos Hp. induction Hs as [|l v ls vs Hl Hs IH]; simpl; intros pos Hp.
  { by apply length_padding. }
  destruct Hp as (H1 & H2 & H3). rewrite !length_app, !Nat2Z.inj_add, IH by done.
  rewrite length_padding, length_leaf_bytes by done. lia.
Qed.

(** Reading the leaves of an image that starts behind [pre]. *)
Lemma read_image_from fill ls vs pos fin pre :
  packed pos ls fin -> shaped ls vs -> Forall (fun l => 0 < width (lf_typ l))%nat ls ->
  Z.of_nat (length pre) = pos ->
  read_leaf (pre ++ image_from fill ls vs pos fin) <$> ls =
  zip_with (fun l v => wrap (lf_typ l) <$> v) ls vs.
Proof.
  intros Hp Hs Hw. revert pos pre Hp.
  induction Hs as [|l v ls vs Hl Hs IH]; intros pos pre Hp Hpos; [done|].
  destruct Hp as (H1 & H2 & H3). apply Forall_cons in Hw as [Hw Hws].
  cbn [image_from fmap list_fmap zip_with]. f_equal.
  - unfold read_leaf. rewrite app_assoc, drop_app_length'.
    + rewrite <- Hl, Nat2Z.id. by apply read_ints_bytes.
    + rewrite length_app. pose proof (length_padding fill pos (lf_off l)). lia.
  - rewrite (app_assoc pre), (app_assoc (pre ++ _)). apply IH; [done..|].
    rewrite !length_app. pose proof (length_padding fill pos (lf_off l)).
    pose proof (length_leaf_bytes l v). lia.
Qed.

Lemma packed_app pos l1 mid l2 fin :
  packed pos l1 mid -> packed mid l2 fin -> packed pos (l1 ++ l2) fin.
Proof.
  revert pos. induction l1 as [|l l1 IH]; simpl; intros pos H1 H2.
  - destruct l2; simpl in *; [lia|]. destruct H2 as (? & ? & ?). split_and!; [lia|done..].
  - destruct H1 as (? & ? & ?). split_and!; [done..|]. by apply IH.
Qed.

Lemma packed_weaken pos ls fin pos' fin' :
  pos' <= pos -> fin <= fin' -> packed pos ls fin -> packed pos' ls fin'.
Proof.
  intros H1 H2. revert pos pos' H1. induction ls as [|l ls IH]; simpl; intros pos pos' H1.
  - lia.
  - intros (? & ? & ?). split_and!; [lia|done|]. by eapply IH.
Qed.

Lemma align_up_le p a : 0 < a -> p <= align_up p a.
Proof.
  intros. unfold align_up. pose proof (Z.mod_pos_bound (p + (a - 1)) a).
  pose proof (Z.div_mod (p + (a - 1)) a). lia.
Qed.

(** Induction on a type and on the members of its structures. *)
Lemma ctype_ind' (P : ctype -> Prop) :
  (forall i, P (CInt i)) -> (forall i n, P (CArray i n)) ->
  (forall fs, Forall (fun f => P f.2) fs -> P (CStruct fs)) -> forall t, P t.
Proof.
  intros H1 H2 H3. fix IH 1. intros [i|i n|fs]; [apply H1|apply H2|apply H3].
  induction fs as [|[x t] fs IHfs]; constructor; [apply IH|done].
Qed.

Lemma alignof_pos t : c_wf t = true -> 0 < alignof t.
Proof.
  destruct t as [i|i n|fs]; simpl; intros Hw.
  - apply Nat.ltb_lt in Hw. lia.
  - apply andb_prop in Hw as [Hw%Nat.ltb_lt _]. lia.
  - clear Hw. induction fs as [|f fs IH]; simpl; lia.
Qed.

(** A C layout is in order and without overlap, and its integers are as wide as
    the type says. *)
Lemma c_layout_packed name t : c_wf t = true -> forall p pos,
  let '(ls, fin) := c_layout name p t pos in
  packed pos ls fin /\ Forall (fun l => 0 < width (lf_typ l))%nat ls.
Proof.
  induction t as [i|i n|fs IH] using ctype_ind'; intros Hw p pos.
  - simpl in *. apply Nat.ltb_lt in Hw. unfold leaf_size. simpl.
    split; [lia|]. by constructor.
  - simpl in *. apply andb_prop in Hw as [Hw%Nat.ltb_lt Hn%Z.leb_le]. unfold leaf_size. simpl.
    split; [lia|]. by constructor.
  - cbn [c_layout].
    match goal with |- context [(fix members fs pos {struct fs} := _) fs pos] =>
      set (members := fix members (fs : list (string * ctype)) (pos : Z) : list leaf * Z := _) in * end.
    assert (Hm : let '(ls, fin) := members fs pos in
      packed pos ls fin /\ Forall (fun l => 0 < width (lf_typ l))%nat ls).
    { cbn [c_wf] in Hw. revert pos Hw. induction IH as [|[x t] fs Ht Hfs IHfs]; intros pos Hw.
      { split; [simpl; lia|constructor]. }
      cbn [forallb] in Hw. apply andb_prop in Hw as [Hw1 Hw2].
      cbn [members]. specialize (Ht Hw1 (qualify p (name x)) (align_up pos (alignof t))).
      cbn [snd] in *. destruct (c_layout _ _ _ _) as [l1 p1].
      specialize (IHfs p1 Hw2). destruct (members fs p1) as [l2 p2].
      destruct Ht as [Hp1 Hf1], IHfs as [Hp2 Hf2]. split.
      - eapply packed_app; [|done]. eapply packed_weaken; [|done|done].
        by apply align_up_le, alignof_pos.
      - by apply Forall_app. }
    destruct (members fs pos) as [ls p1]. destruct Hm as [Hp Hf]. split; [|done].
    eapply packed_weaken; [done| |done]. by apply align_up_le, alignof_pos.
Qed.

(** The names given to the members do not matter for the size. *)
Lemma c_layout_size n1 n2 t : forall p1 p2 pos,
  (c_layout n1 p1 t pos).2 = (c_layout n2 p2 t pos).2.
Proof.
  induction t as [i|i n|fs IH] using ctype_ind'; intros p1 p2 pos; [done..|].
  cbn [c_layout].
  match goal with |- (let '(_, _) := ?a in _).2 = (let '(_, _) := ?b in _).2 =>
    assert (H : a.2 = b.2) end.
  { revert pos. induction IH as [|[x t] fs Ht Hfs IHfs]; intros pos; [done|].
    cbn [snd] in Ht. specialize (Ht (qualify p1 (n1 x)) (qualify p2 (n2 x))
      (align_up pos (alignof t))).
    destruct (c_layout n1 _ _ _) as [l1 q1], (c_layout n2 _ _ _) as [l2 q2]. cbn [snd] in Ht.
    subst q2. specialize (IHfs q1).
    match type of IHfs with (?a).2 = (?b).2 => destruct a, b end. by cbn in *. }
  match type of H with (?a).2 = (?b).2 => destruct a, b end. cbn in *. by subst.
Qed.

(** A structure reads back as it was written: each field has its value, reduced
    to the field's type, whatever is in the padding. *)
Theorem binary_Read_image fill t g vs :
  mirrors t g = true -> shaped (c_leaves t) vs ->
  binary_Read g (image fill t vs) =
  Some (zip_with (fun l v => wrap (lf_typ l) <$> v) (c_leaves t) vs).
Proof.
  unfold mirrors. intros Hm Hs. apply andb_prop in Hm as [Hm Hsz%Z.leb_le].
  apply andb_prop in Hm as [Hw Hl%bool_decide_eq_true].
  pose proof (c_layout_packed identifier t Hw EmptyString 0) as Hp.
  pose proof (c_layout_size id identifier t EmptyString EmptyString 0) as Hf.
  unfold image, c_leaves, sizeof in *. destruct (c_layout identifier EmptyString t 0) as [ls fin].
  cbn [fst snd] in *. destruct Hp as [Hp Hwd]. unfold binary_Read. rewrite Hf in *.
  rewrite (proj2 (Z.ltb_ge _ _)) by (rewrite length_image_from by done; lia).
  f_equal. rewrite <- Hl.
  by apply (read_image_from fill ls vs 0 fin []).
Qed.

Lemma length_image fill t vs : c_wf t = true -> shaped (c_leaves t) vs ->
  Z.of_nat (length (image fill t vs)) = sizeof t.
Proof.
  intros Hw Hs. pose proof (c_layout_packed identifier t Hw EmptyString 0) as Hp.
  pose proof (c_layout_size id identifier t EmptyString EmptyString 0) as Hf.
  unfold image, c_leaves, sizeof in *. destruct (c_layout identifier EmptyString t 0) as [ls fin].
  destruct Hp. cbn [fst snd] in *. rewrite Hf, length_image_from by done. lia.
Qed.
