(* ===== verification/GoStd.v ===== *)
(** The parts of the Go standard library the user side uses.

    Go strings and byte slices are lists of bytes.  Prefixes, suffixes, cuts and
    searches of [strings] and [bytes]; decimal and hexadecimal numbers of
    [strconv]; [base64.StdEncoding]; the text of [netip] addresses; slices with
    their bounds checks.  The lemmas are the facts the components need: searches
    find the first occurrence, numbers and encodings are read back. *)

From S2P Require Import Prelude.

(** ** Slices *)

(** [l[lo:hi]] of a slice whose capacity is its length: [None] is the panic. *)
Definition slice (l : list Z) (lo hi : Z) : option (list Z) :=
  if (0 <=? lo) && (lo <=? hi) && (hi <=? Z.of_nat (length l))
  then Some (take (Z.to_nat (hi - lo)) (drop (Z.to_nat lo) l)) else None.

Lemma slice_some l lo hi :
  0 <= lo <= hi -> hi <= Z.of_nat (length l) ->
  slice l lo hi = Some (take (Z.to_nat (hi - lo)) (drop (Z.to_nat lo) l)).
Proof.
  intros H1 H2. unfold slice.
  rewrite (proj2 (Z.leb_le _ _)), (proj2 (Z.leb_le lo hi)), (proj2 (Z.leb_le hi _)) by lia. done.
Qed.

Lemma slice_none l lo hi : hi < lo -> slice l lo hi = None.
Proof.
  intros H. unfold slice. rewrite (proj2 (Z.leb_gt lo hi)) by done. by rewrite andb_false_r.
Qed.

(** ** Strings *)

Definition HasPrefix (s p : list Z) : bool := bool_decide (p `prefix_of` s).
Definition HasSuffix (s p : list Z) : bool := bool_decide (p `suffix_of` s).

Definition CutPrefix (s p : list Z) : option (list Z) :=
  if HasPrefix s p then Some (drop (length p) s) else None.
Definition TrimPrefix (s p : list Z) : list Z := default s (CutPrefix s p).

(** [bytes.Index]: where [p] first occurs in [s]. *)
Fixpoint Index (s p : list Z) : option nat :=
  if HasPrefix s p then Some O
  else match s with
  | [] => None
  | _ :: s' => S <$> Index s' p
  end.

(** [strings.Cut]. *)
Definition Cut (s sep : list Z) : option (list Z * list Z) :=
  i ← Index s sep; Some (take i s, drop (i + length sep) s).

Lemma HasPrefix_true s p : HasPrefix s p = true <-> exists t, s = p ++ t.
Proof. unfold HasPrefix. rewrite bool_decide_eq_true. done. Qed.

Lemma HasSuffix_true s p : HasSuffix s p = true <-> exists t, s = t ++ p.
Proof. unfold HasSuffix. rewrite bool_decide_eq_true. done. Qed.

Lemma HasPrefix_app p t : HasPrefix (p ++ t) p = true.
Proof. apply HasPrefix_true. by exists t. Qed.

Lemma CutPrefix_Some s p t : CutPrefix s p = Some t <-> s = p ++ t.
Proof.
  unfold CutPrefix. split.
  - destruct (HasPrefix s p) eqn:E; [|done]. apply HasPrefix_true in E as [t' ->].
    rewrite drop_app_length. intros. by simplify_eq.
  - intros ->. by rewrite HasPrefix_app, drop_app_length.
Qed.

Lemma CutPrefix_None s p : CutPrefix s p = None <-> ~ p `prefix_of` s.
Proof.
  unfold CutPrefix, HasPrefix. destruct (bool_decide_reflect (p `prefix_of` s)); split; done.
Qed.

(** The first occurrence. *)
Lemma Index_Some s p i :
  Index s p = Some i <->
  (exists t, s = take i s ++ p ++ t) /\ (i <= length s)%nat /\
  forall j, (j < i)%nat -> HasPrefix (drop j s) p = false.
Proof.
  revert i. induction s as [|c s IH]; intros i.
  - simpl. destruct (HasPrefix [] p) eqn:E.
    + split.
      * intros. simplify_eq. apply HasPrefix_true in E as [t Ht]. split_and!; [by exists t|done|lia].
      * intros (_ & Hi & _). f_equal. simpl in Hi. lia.
    + split; [done|]. intros ([t Ht] & Hi & _). simpl in Hi.
      rewrite take_nil in Ht. simpl in Ht.
      assert (HasPrefix [] p = true) by (apply HasPrefix_true; by exists t). congruence.
  - cbn [Index]. destruct (HasPrefix (c :: s) p) eqn:E.
    + split.
      * intros. simplify_eq. apply HasPrefix_true in E as [t Ht]. split_and!; [by exists t|lia|lia].
      * intros (_ & _ & Hj). destruct i; [done|]. specialize (Hj O ltac:(lia)). by rewrite drop_0, E in Hj.
    + destruct i as [|i].
      * split; [by destruct (Index s p)|]. intros ([t Ht] & _). simpl in Ht.
        assert (HasPrefix (c :: s) p = true) by (apply HasPrefix_true; by exists t). congruence.
      * transitivity (Index s p = Some i).
        { destruct (Index s p); simpl; split; congruence. }
        rewrite IH. split.
        -- intros ([t Ht] & Hi & Hj). split_and!.
           ++ exists t. simpl. by rewrite <- Ht.
           ++ simpl. lia.
           ++ intros [|j] ?; [done|]. simpl. apply Hj. lia.
        -- intros ([t Ht] & Hi & Hj). split_and!.
           ++ exists t. simpl in Ht. by simplify_eq.
           ++ simpl in Hi. lia.
           ++ intros j ?. apply (Hj (S j)). lia.
Qed.

(** A separator that starts with a byte foreign to what precedes it. *)
Lemma Index_app_sep a c p t : c ∉ a -> Index (a ++ c :: p ++ t) (c :: p) = Some (length a).
Proof.
  induction a as [|b a IH]; intros Hc.
  - simpl. change (c :: p ++ t) with ((c :: p) ++ t). by rewrite HasPrefix_app.
  - apply not_elem_of_cons in Hc as [Hb Hc]. cbn [app Index length].
    replace (HasPrefix _ _) with false; [by rewrite IH|]. symmetry.
    apply not_true_is_false. intros [t' Ht']%HasPrefix_true. simpl in Ht'. by simplify_eq.
Qed.

Lemma Index_nil_iff s c p : c ∉ s -> Index s (c :: p) = None.
Proof.
  induction s as [|b s IH]; intros Hc.
  - done.
  - apply not_elem_of_cons in Hc as [Hb Hc]. cbn [Index].
    replace (HasPrefix _ _) with false; [by rewrite IH|]. symmetry.
    apply not_true_is_false. intros [t' Ht']%HasPrefix_true. simpl in Ht'. by simplify_eq.
Qed.

Lemma Cut_Some s c a b : Cut s [c] = Some (a, b) <-> s = a ++ c :: b /\ c ∉ a.
Proof.
  unfold Cut. split.
  - destruct (Index s [c]) as [i|] eqn:E; [|done]. simpl. intros. simplify_eq.
    apply Index_Some in E as ([t Ht] & Hi & Hj).
    assert (Hd : drop i s = c :: t) by (rewrite Ht; rewrite drop_app_length'; [done|rewrite length_take; lia]).
    split.
    + rewrite <- (take_drop i s) at 1. rewrite Hd. f_equal. f_equal.
      change (i + length [c])%nat with (i + 1)%nat. rewrite <- drop_drop, Hd. done.
    + intros Hin. apply list_elem_of_lookup in Hin as [j Hlk].
      assert (j < i)%nat by (apply lookup_lt_Some in Hlk; rewrite length_take in Hlk; lia).
      specialize (Hj j ltac:(lia)). rewrite lookup_take_lt in Hlk by lia.
      rewrite (drop_S _ _ _ Hlk) in Hj.
      assert (HasPrefix (c :: drop (S j) s) [c] = true)
        by (apply HasPrefix_true; by exists (drop (S j) s)). congruence.
  - intros [-> Hc]. change (c :: b) with (c :: [] ++ b). rewrite Index_app_sep by done. simpl.
    rewrite take_app_length, Nat.add_1_r. do 2 f_equal.
    rewrite <- Nat.add_1_r, <- drop_drop, drop_app_length. done.
Qed.

(** A list that has [c] splits at the first one. *)
Lemma first_split (c : Z) s : c ∈ s -> exists a b, s = a ++ c :: b /\ c ∉ a.
Proof.
  induction s as [|x s IH]; intros Hin; [set_solver|].
  destruct (decide (x = c)) as [->|Hx]; [exists [], s; split; [done|set_solver]|].
  destruct IH as (a & b & -> & Ha); [set_solver|]. exists (x :: a), b.
  split; [done|]. set_solver.
Qed.

Lemma Cut_None s c : Cut s [c] = None <-> c ∉ s.
Proof.
  split.
  - intros H (a & b & E)%first_split. apply Cut_Some in E. congruence.
  - intros Hc. unfold Cut. by rewrite Index_nil_iff.
Qed.

(** ** Numbers *)

Definition digit (d : Z) : Z := if d <? 10 then 48 + d else 87 + d.

Definition digit_val (c : Z) : option Z :=
  if (48 <=? c) && (c <=? 57) then Some (c - 48)
  else if (97 <=? c) && (c <=? 122) then Some (c - 87)
  else if (65 <=? c) && (c <=? 90) then Some (c - 55)
  else None.

Fixpoint digits (base : Z) (fuel : nat) (n : Z) : list Z :=
  match fuel with
  | O => []
  | S f => if n <? base then [digit n] else digits base f (n / base) ++ [digit (n mod base)]
  end.

(** [strconv.FormatUint]; [%d] and [%x] of a number that is not negative.  A
    number has at most as many digits as it has bits. *)
Definition FormatUint (base n : Z) : list Z := digits base (S (Z.to_nat (Z.log2 n))) n.

(** [%d] of a signed number. *)
Definition FormatInt (n : Z) : list Z :=
  if n <? 0 then 45 :: FormatUint 10 (- n) else FormatUint 10 n.

Fixpoint digits_val (base acc : Z) (s : list Z) : option Z :=
  match s with
  | [] => Some acc
  | c :: s' =>
      d ← digit_val c;
      if d <? base then digits_val base (acc * base + d) s' else None
  end.

(** [strconv.ParseUint] with 64 bits: [None] is the error, of syntax or range. *)
Definition ParseUint (base : Z) (s : list Z) : option Z :=
  match s with
  | [] => None
  | _ => n ← digits_val base 0 s; if n <? 2 ^ 64 then Some n else None
  end.

Lemma digit_val_digit d : 0 <= d < 36 -> digit_val (digit d) = Some d.
Proof.
  intros Hd. unfold digit, digit_val. destruct (Z.ltb_spec d 10).
  - rewrite (proj2 (Z.leb_le _ _)), (proj2 (Z.leb_le _ _)) by lia. simpl. f_equal. lia.
  - rewrite (proj2 (Z.leb_gt (87 + d) 57)), andb_false_r by lia.
    rewrite (proj2 (Z.leb_le _ _)), (proj2 (Z.leb_le _ _)) by lia. simpl. f_equal. lia.
Qed.

Lemma digits_val_app base acc s c :
  digits_val base acc (s ++ [c]) =
  (n ← digits_val base acc s; d ← digit_val c; if d <? base then Some (n * base + d) else None).
Proof.
  revert acc. induction s as [|x s IH]; intros acc; [done|].
  simpl. destruct (digit_val x); simpl; [|done]. destruct (_ <? base); [|done]. apply IH.
Qed.

Lemma digits_val_digits base fuel n :
  2 <= base <= 36 -> 0 <= n < 2 ^ Z.of_nat fuel -> digits_val base 0 (digits base fuel n) = Some n.
Proof.
  intros Hb. revert n. induction fuel as [|f IH]; intros n Hn.
  { simpl in *. f_equal. lia. }
  cbn [digits]. destruct (Z.ltb_spec n base) as [H|H].
  - simpl. rewrite digit_val_digit by lia. simpl. by rewrite (proj2 (Z.ltb_lt _ _)).
  - rewrite Nat2Z.inj_succ, Z.pow_succ_r in Hn by lia.
    assert (0 <= n / base < 2 ^ Z.of_nat f).
    { split; [apply Z.div_pos; lia|]. apply Z.div_lt_upper_bound; nia. }
    rewrite digits_val_app, IH by done. simpl.
    pose proof (Z.mod_pos_bound n base). rewrite digit_val_digit by lia. simpl.
    rewrite (proj2 (Z.ltb_lt _ _)) by lia. f_equal. pose proof (Z.div_mod n base). lia.
Qed.

Lemma digits_nonnil base fuel n : digits base (S fuel) n <> [].
Proof. cbn [digits]. case_match; [done|]. by destruct (digits _ _ _). Qed.

Lemma FormatUint_nonnil base n : FormatUint base n <> [].
Proof. apply digits_nonnil. Qed.

Lemma digits_val_Format base n :
  2 <= base <= 36 -> 0 <= n -> digits_val base 0 (FormatUint base n) = Some n.
Proof.
  intros Hb Hn. apply digits_val_digits; [done|]. split; [done|].
  rewrite Nat2Z.inj_succ, Z2Nat.id by apply Z.log2_nonneg.
  destruct (decide (n = 0)) as [->|]; [done|]. apply Z.log2_spec. lia.
Qed.

(** Numbers are read back. *)
Lemma ParseUint_FormatUint base n :
  2 <= base <= 36 -> 0 <= n < 2 ^ 64 -> ParseUint base (FormatUint base n) = Some n.
Proof.
  intros Hb Hn. unfold ParseUint. pose proof (FormatUint_nonnil base n).
  destruct (FormatUint base n) eqn:E; [done|]. rewrite <- E, digits_val_Format by lia. simpl.
  by rewrite (proj2 (Z.ltb_lt _ _)) by lia.
Qed.

Lemma digits_val_nonneg base acc s n :
  0 <= base -> 0 <= acc -> digits_val base acc s = Some n -> 0 <= n.
Proof.
  intros Hb. revert acc. induction s as [|c s IH]; intros acc Ha; simpl; [congruence|].
  destruct (digit_val c) as [d|] eqn:Ed; simpl; [|done]. destruct (d <? base); [|done].
  apply IH. enough (0 <= d) by nia. unfold digit_val in Ed. repeat case_match; zbool; simplify_eq; lia.
Qed.

Lemma ParseUint_range base s n : 0 <= base -> ParseUint base s = Some n -> 0 <= n < 2 ^ 64.
Proof.
  intros Hb. unfold ParseUint. destruct s as [|c s]; [done|].
  destruct (digits_val base 0 (c :: s)) as [m|] eqn:E; cbn [mbind option_bind]; [|done].
  destruct (Z.ltb_spec m (2 ^ 64)); [|done]. intros [= <-]. split; [|done].
  by eapply digits_val_nonneg in E.
Qed.

Lemma FormatUint_inj base m n :
  2 <= base <= 36 -> 0 <= m -> 0 <= n -> FormatUint base m = FormatUint base n -> m = n.
Proof.
  intros Hb Hm Hn E. pose proof (digits_val_Format base m Hb Hm) as H1.
  rewrite E, digits_val_Format in H1 by done. by simplify_eq.
Qed.

(** What a digit string is made of. *)
Lemma digits_chars (P : Z -> Prop) base fuel n :
  1 <= base -> 0 <= n -> (forall d, 0 <= d < base -> P (digit d)) ->
  Forall P (digits base fuel n).
Proof.
  intros Hb Hn HP. revert n Hn. induction fuel as [|f IH]; intros n Hn; [constructor|].
  cbn [digits]. destruct (Z.ltb_spec n base).
  - constructor; [apply HP; lia|constructor].
  - apply Forall_app. split; [apply IH, Z.div_pos; lia|].
    constructor; [apply HP, Z.mod_pos_bound; lia|constructor].
Qed.

Lemma FormatUint_avoids base n c :
  1 <= base <= 36 -> 0 <= n -> (c < 48 \/ 57 < c < 97) -> c ∉ FormatUint base n.
Proof.
  intros Hb Hn Hc Hin.
  pose proof (digits_chars (fun x => x <> c) base (S (Z.to_nat (Z.log2 n))) n) as H.
  rewrite Forall_forall in H. refine (H _ _ _ c Hin eq_refl); [lia|lia|].
  intros d Hd. unfold digit. destruct (Z.ltb_spec d 10); lia.
Qed.

Lemma FormatInt_inj m n : FormatInt m = FormatInt n -> m = n.
Proof.
  unfold FormatInt. pose proof (fun n H => FormatUint_avoids 10 n 45 ltac:(lia) H ltac:(lia)) as Ha.
  destruct (Z.ltb_spec m 0), (Z.ltb_spec n 0); intros E.
  - injection E as E. apply FormatUint_inj in E; lia.
  - specialize (Ha n ltac:(lia)). rewrite <- E in Ha. set_solver.
  - specialize (Ha m ltac:(lia)). rewrite E in Ha. set_solver.
  - apply FormatUint_inj in E; lia.
Qed.

Lemma FormatInt_avoids n c : c <> 45 -> (c < 48 \/ 57 < c < 97) -> c ∉ FormatInt n.
Proof.
  intros H1 H2. unfold FormatInt. destruct (Z.ltb_spec n 0).
  - intros [->|Hin]%elem_of_cons; [done|]. revert Hin. apply FormatUint_avoids; lia.
  - apply FormatUint_avoids; lia.
Qed.

(** ** Separated texts *)

(** Parts with [c] between them, and the parts of a text. *)
Fixpoint join_with (c : Z) (parts : list (list Z)) : list Z :=
  match parts with
  | [] => []
  | [p] => p
  | p :: parts' => p ++ c :: join_with c parts'
  end.

Fixpoint split_on (c : Z) (s : list Z) : list (list Z) :=
  match s with
  | [] => [[]]
  | x :: s' =>
      if x =? c then [] :: split_on c s'
      else match split_on c s' with
      | [] => [[x]]
      | p :: ps => (x :: p) :: ps
      end
  end.

Lemma split_on_app c p s : c ∉ p -> split_on c (p ++ c :: s) = p :: split_on c s.
Proof.
  induction p as [|x p IH]; intros Hc; simpl; [by rewrite Z.eqb_refl|].
  apply not_elem_of_cons in Hc as [Hx Hc]. rewrite (proj2 (Z.eqb_neq _ _)) by done.
  by rewrite IH.
Qed.

Lemma split_on_single c p : c ∉ p -> split_on c p = [p].
Proof.
  induction p as [|x p IH]; intros Hc; simpl; [done|].
  apply not_elem_of_cons in Hc as [Hx Hc]. rewrite (proj2 (Z.eqb_neq _ _)) by done.
  by rewrite IH.
Qed.

Lemma split_join c parts :
  parts <> [] -> Forall (fun p => c ∉ p) parts -> split_on c (join_with c parts) = parts.
Proof.
  induction parts as [|p [|q parts] IH]; intros Hn Hp; [done| |];
    apply Forall_cons in Hp as [Hp Hps].
  - simpl. by apply split_on_single.
  - change (join_with c (p :: q :: parts)) with (p ++ c :: join_with c (q :: parts)).
    rewrite split_on_app by done. f_equal. by apply IH.
Qed.

Lemma join_with_inj c ps qs :
  ps <> [] -> qs <> [] -> Forall (fun p => c ∉ p) ps -> Forall (fun p => c ∉ p) qs ->
  join_with c ps = join_with c qs -> ps = qs.
Proof.
  intros H1 H2 H3 H4 E. rewrite <- (split_join c ps), <- (split_join c qs) by done. by rewrite E.
Qed.

(** ** [base64.StdEncoding] *)

Definition b64_alphabet : list Z :=
  str "ABCDEFGHIJKLMNOPQRSTUVWXYZabcdefghijklmnopqrstuvwxyz0123456789+/".

Definition b64_char (i : Z) : Z := rd b64_alphabet (Z.to_nat i).

(** The four 6-bit parts of 24 bits. *)
Definition sextet (v : Z) (i : Z) : Z := v / 2 ^ (18 - 6 * i) mod 64.

Fixpoint EncodeToString (l : list Z) : list Z :=
  match l with
  | [] => []
  | [a] => let v := a * 65536 in [b64_char (sextet v 0); b64_char (sextet v 1); 61; 61]
  | [a; b] =>
      let v := a * 65536 + b * 256 in
      [b64_char (sextet v 0); b64_char (sextet v 1); b64_char (sextet v 2); 61]
  | a :: b :: c :: l' =>
      let v := a * 65536 + b * 256 + c in
      b64_char (sextet v 0) :: b64_char (sextet v 1) :: b64_char (sextet v 2) ::
      b64_char (sextet v 3) :: EncodeToString l'
  end.

Lemma b64_char_lookup i : 0 <= i < 64 -> b64_alphabet !! Z.to_nat i = Some (b64_char i).
Proof. intros. apply lookup_rd. change (length b64_alphabet) with 64%nat. lia. Qed.

Lemma b64_char_inj i j : 0 <= i < 64 -> 0 <= j < 64 -> b64_char i = b64_char j -> i = j.
Proof.
  intros Hi Hj E. assert (NoDup b64_alphabet) as Hn by (by apply (bool_decide_unpack _)).
  pose proof (b64_char_lookup i Hi) as H1. pose proof (b64_char_lookup j Hj) as H2.
  rewrite <- E in H2. pose proof (NoDup_lookup _ _ _ _ Hn H1 H2). lia.
Qed.

Lemma b64_char_ne i : 0 <= i < 64 -> b64_char i <> 61.
Proof.
  intros Hi E. pose proof (b64_char_lookup i Hi) as H. rewrite E in H.
  apply list_elem_of_lookup_2 in H. revert H.
  by apply (bool_decide_eq_false_1 (61 ∈ b64_alphabet)).
Qed.

Lemma sextet_range v i : 0 <= sextet v i < 64.
Proof. apply Z.mod_pos_bound. lia. Qed.

Lemma sextets v : 0 <= v < 16777216 ->
  v = 262144 * sextet v 0 + 4096 * sextet v 1 + 64 * sextet v 2 + sextet v 3.
Proof.
  intros Hv. unfold sextet. change (2 ^ (18 - 6 * 0)) with 262144.
  change (2 ^ (18 - 6 * 1)) with 4096. change (2 ^ (18 - 6 * 2)) with 64.
  change (2 ^ (18 - 6 * 3)) with 1.
  rewrite Z.div_1_r. replace (v / 262144) with (v / 64 / 64 / 64) by (by rewrite !Z.div_div).
  replace (v / 4096) with (v / 64 / 64) by (by rewrite !Z.div_div).
  assert (0 <= v / 64 / 64 / 64 < 64) as H3 by (rewrite !Z.div_div by lia; split;
    [apply Z.div_pos|apply Z.div_lt_upper_bound]; lia).
  rewrite (Z.mod_small (v / 64 / 64 / 64)) by done.
  pose proof (Z.div_mod v 64). pose proof (Z.div_mod (v / 64) 64).
  pose proof (Z.div_mod (v / 64 / 64) 64).
  generalize dependent (v / 64 / 64 / 64). generalize dependent (v / 64 / 64 mod 64).
  generalize dependent (v / 64 / 64). generalize dependent (v / 64 mod 64).
  generalize dependent (v / 64). generalize dependent (v mod 64). intros. lia.
Qed.

(** The bytes of a list, one by one. *)
Ltac bytes_inv :=
  repeat match goal with
  | H : Forall byte (_ :: _) |- _ => apply Forall_cons in H as [? H]
  | H : byte _ |- _ => unfold byte in H
  end.

Ltac b64_cases :=
  repeat match goal with
  | E : b64_char (sextet ?v ?i) = 61 |- _ => by destruct (b64_char_ne (sextet v i)); [apply sextet_range|]
  | E : 61 = b64_char (sextet ?v ?i) |- _ => by destruct (b64_char_ne (sextet v i)); [apply sextet_range|]
  | E : b64_char (sextet ?v ?i) = b64_char (sextet ?w ?j) |- _ =>
      apply b64_char_inj in E; [|apply sextet_range..]
  end.

(** The low bits the encoding of a short group leaves out are 0. *)
Lemma sextet_low_1 a : sextet (a * 65536) 2 = 0 /\ sextet (a * 65536) 3 = 0.
Proof.
  unfold sextet. change (2 ^ (18 - 6 * 2)) with 64. change (2 ^ (18 - 6 * 3)) with 1.
  rewrite Z.div_1_r. replace (a * 65536) with (a * 16 * 64 * 64) by lia.
  by rewrite Z.div_mul, !Z.mod_mul by lia.
Qed.

Lemma sextet_low_2 a b : sextet (a * 65536 + b * 256) 3 = 0.
Proof.
  unfold sextet. change (2 ^ (18 - 6 * 3)) with 1. rewrite Z.div_1_r.
  replace (a * 65536 + b * 256) with ((a * 1024 + b * 4) * 64) by lia. by apply Z.mod_mul.
Qed.

(** Equal sextets make equal words. *)
Lemma sextets_inj v w : 0 <= v < 16777216 -> 0 <= w < 16777216 ->
  sextet v 0 = sextet w 0 -> sextet v 1 = sextet w 1 -> sextet v 2 = sextet w 2 ->
  sextet v 3 = sextet w 3 -> v = w.
Proof. intros Hv Hw E0 E1 E2 E3. rewrite (sextets v Hv), (sextets w Hw). congruence. Qed.

Lemma EncodeToString_inj l : Forall byte l -> forall k, Forall byte k ->
  EncodeToString l = EncodeToString k -> l = k.
Proof.
  revert l. fix IH 1. intros [|a [|b [|c l]]] Hl k Hk E;
    bytes_inv.
  - destruct k as [|? [|? [|? ?]]]; done.
  - destruct k as [|x [|y [|z k]]]; cbn [EncodeToString] in E; try done;
      bytes_inv; injection E as E; b64_cases; subst.
    assert (a * 65536 = x * 65536); [|f_equal; lia].
    destruct (sextet_low_1 a) as [? ?].
    destruct (sextet_low_1 x) as [? ?].
    apply sextets_inj; [lia|lia|congruence..].
  - destruct k as [|x [|y [|z k]]]; cbn [EncodeToString] in E; try done;
      bytes_inv; injection E as E; b64_cases; subst.
    assert (a * 65536 + b * 256 = x * 65536 + y * 256).
    { pose proof (sextet_low_2 a b).
      pose proof (sextet_low_2 x y).
      apply sextets_inj; [lia|lia|congruence..]. }
    assert (a = x /\ b = y) as [-> ->] by lia. done.
  - destruct k as [|x [|y [|z k]]]; cbn [EncodeToString] in E; try done;
      bytes_inv; injection E as E; b64_cases; subst.
    assert (a * 65536 + b * 256 + c = x * 65536 + y * 256 + z).
    { apply sextets_inj; [lia|lia|congruence..]. }
    assert (a = x /\ b = y /\ c = z) as (-> & -> & ->) by lia.
    do 3 f_equal. by apply IH.
Qed.

(** ** [net/netip] *)

Definition string4 (addr : list Z) : list Z := join_with 46 (FormatUint 10 <$> addr).

(** The 16-bit groups of an IPv6 address, big-endian. *)
Fixpoint groups (addr : list Z) : list Z :=
  match addr with
  | a :: b :: addr' => a * 256 + b :: groups addr'
  | _ => []
  end.

(** How many groups are zero from [i] on. *)
Fixpoint zero_run (gs : list Z) : nat :=
  match gs with
  | g :: gs' => if g =? 0 then S (zero_run gs') else O
  | [] => O
  end.

(** The first of the longest runs of two or more zero groups, as the loop of
    [appendTo6] finds it: start and end, both 255 when there is none. *)
Definition zeros_of (gs : list Z) : nat * nat :=
  fold_left (fun '(zs, ze) i =>
    let j := (i + zero_run (drop i gs))%nat in
    if (2 <=? j - i)%nat && (ze - zs <? j - i)%nat then (i, j) else (zs, ze))
    (seq 0 8) (255, 255)%nat.

Fixpoint append_groups (fuel i zs ze : nat) (gs : list Z) : list Z :=
  match fuel with
  | O => []
  | S f =>
      if (8 <=? i)%nat then []
      else if (i =? zs)%nat then
        58 :: 58 :: (if (8 <=? ze)%nat then []
                     else FormatUint 16 (rd gs ze) ++ append_groups f (S ze) zs ze gs)
      else (if (0 <? i)%nat then [58] else []) ++ FormatUint 16 (rd gs i) ++
           append_groups f (S i) zs ze gs
  end.

Definition string6 (addr : list Z) : list Z :=
  let gs := groups addr in
  let '(zs, ze) := zeros_of gs in append_groups 8 0 zs ze gs.

Definition Is4In6 (addr : list Z) : bool := HasPrefix addr (zeros 10 ++ [255; 255]).

(** [netip.AddrFrom4(a).String()] and [netip.AddrFrom16(a).String()]. *)
Definition AddrFrom4_String (addr : list Z) : list Z := string4 addr.
Definition AddrFrom16_String (addr : list Z) : list Z :=
  if Is4In6 addr then str "::ffff:" ++ string4 (drop 12 addr) else string6 addr.

Lemma string4_inj a b :
  Forall byte a -> Forall byte b -> length a = length b -> string4 a = string4 b -> a = b.
Proof.
  intros Ha Hb Hl E. assert (forall l, Forall byte l -> Forall (fun p => 46 ∉ p) (FormatUint 10 <$> l)) as Hp.
  { intros l H. apply Forall_fmap. eapply Forall_impl; [done|]. intros z Hz. unfold byte in Hz.
    apply FormatUint_avoids; lia. }
  destruct a as [|x a], b as [|y b]; try done.
  apply join_with_inj in E; [|done|done|by apply Hp..].
  revert Hb Hl E. generalize (y :: b). clear y b Hp. induction Ha as [|z l Hz Hl' IH]; intros [|w k] Hb Hl E; try done.
  cbn [fmap list_fmap] in E. injection E as E1 E2. apply Forall_cons in Hb as [Hw Hb].
  unfold byte in *. apply FormatUint_inj in E1; [|lia..]. subst. f_equal.
  apply IH; [done|by injection Hl|done].
Qed.

(** ** Texts of headers *)

Definition Contains (s p : list Z) : bool := bool_decide (is_Some (Index s p)).

(** [hex.EncodeToString]. *)
Definition hex_EncodeToString (l : list Z) : list Z :=
  b ← l; [digit (b / 16); digit (b mod 16)].

(** [strings.ToLower] and [strings.TrimSpace] of ASCII text. *)
Definition to_lower (c : Z) : Z := if (65 <=? c) && (c <=? 90) then c + 32 else c.
Definition to_upper (c : Z) : Z := if (97 <=? c) && (c <=? 122) then c - 32 else c.
Definition ToLower (s : list Z) : list Z := to_lower <$> s.

Definition is_space (c : Z) : bool := ((9 <=? c) && (c <=? 13)) || (c =? 32).

Fixpoint trim_left (s : list Z) : list Z :=
  match s with
  | [] => []
  | c :: s' => if is_space c then trim_left s' else s
  end.

Definition TrimSpace (s : list Z) : list Z := reverse (trim_left (reverse (trim_left s))).

(** The bytes of a header field name: the token characters. *)
Definition validHeaderFieldByte (c : Z) : bool :=
  ((48 <=? c) && (c <=? 57)) || ((65 <=? c) && (c <=? 90)) || ((97 <=? c) && (c <=? 122)) ||
  bool_decide (c ∈ str "!#$%&'*+-.^_`|~").

Fixpoint canonical (upper : bool) (s : list Z) : list Z :=
  match s with
  | [] => []
  | c :: s' =>
      let c := if upper then to_upper c else to_lower c in
      c :: canonical (c =? 45) s'
  end.

(** [textproto.CanonicalMIMEHeaderKey]: a name that is not a token stays. *)
Definition CanonicalMIMEHeaderKey (s : list Z) : list Z :=
  if forallb validHeaderFieldByte s then canonical true s else s.

(** [strconv.Atoi]. *)
Definition Atoi (s : list Z) : option Z :=
  match s with
  | 45 :: t => n ← ParseUint 10 t; if n <=? 2 ^ 63 then Some (- n) else None
  | 43 :: t => n ← ParseUint 10 t; if n <? 2 ^ 63 then Some n else None
  | _ => n ← ParseUint 10 s; if n <? 2 ^ 63 then Some n else None
  end.

Lemma Contains_true s p : Contains s p = true <-> exists a b, s = a ++ p ++ b.
Proof.
  unfold Contains. rewrite bool_decide_eq_true. split.
  - intros [i ([t Ht] & _)%Index_Some]. eauto.
  - intros (a & b & ->). induction a as [|x a IH].
    + assert (Index (p ++ b) p = Some O) as E; [|simpl; rewrite E; eauto].
      apply Index_Some. split_and!; [by exists b|lia|lia].
    + cbn [app Index]. case_match; [eauto|]. destruct IH as [i ->]. eauto.
Qed.

(** The canonical name does not depend on the case of the name. *)
Lemma valid_to_lower c : validHeaderFieldByte (to_lower c) = validHeaderFieldByte c.
Proof.
  unfold to_lower. destruct ((65 <=? c) && (c <=? 90)) eqn:E; [|done]. zbool.
  unfold validHeaderFieldByte. replace ((65 <=? c) && (c <=? 90)) with true by (symmetry; apply andb_true_iff; split; apply Z.leb_le; lia).
  replace ((97 <=? c + 32) && (c + 32 <=? 122)) with true by (symmetry; apply andb_true_iff; split; apply Z.leb_le; lia).
  by rewrite !orb_true_r.
Qed.

Lemma canonical_ToLower b s : canonical b (ToLower s) = canonical b s.
Proof.
  revert b. induction s as [|c s IH]; intros b; [done|]. cbn [ToLower fmap list_fmap canonical].
  assert ((if b then to_upper (to_lower c) else to_lower (to_lower c)) =
          if b then to_upper c else to_lower c) as ->.
  { unfold to_upper, to_lower. destruct b; repeat case_match; zbool; lia. }
  f_equal. apply IH.
Qed.

Lemma Canonical_ToLower s t :
  ToLower s = t -> forallb validHeaderFieldByte t = true ->
  CanonicalMIMEHeaderKey s = canonical true t.
Proof.
  intros <- Hv. unfold CanonicalMIMEHeaderKey. rewrite canonical_ToLower.
  replace (forallb _ s) with true; [done|]. rewrite <- Hv. clear Hv.
  induction s as [|c s IH]; [done|]. cbn [ToLower fmap list_fmap forallb].
  by rewrite valid_to_lower, <- IH.
Qed.

(** ** [sort.Search] and [slices.Insert] *)

(** Binary search between [i] and [j]; each step halves the distance. *)
Fixpoint search (f : nat -> bool) (fuel i j : nat) : nat :=
  match fuel with
  | O => i
  | S fuel =>
      if decide (i < j)%nat then
        let h := ((i + j) / 2)%nat in
        if f h then search f fuel i h else search f fuel (S h) j
      else i
  end.

Definition Search (n : nat) (f : nat -> bool) : nat := search f n 0 n.

Definition Insert {A} (l : list A) (i : nat) (x : A) : list A := take i l ++ x :: drop i l.

(** The fuel is enough: the search ends at the place where [f] turns true. *)
Lemma search_spec f n fuel : forall i j,
  (i <= j <= n)%nat -> (j - i <= fuel)%nat ->
  (forall a b, (a <= b < n)%nat -> f a = true -> f b = true) ->
  (forall a, (a < i)%nat -> f a = false) -> (forall a, (j <= a < n)%nat -> f a = true) ->
  let r := search f fuel i j in
  (r <= n)%nat /\ (forall a, (a < r)%nat -> f a = false) /\ (forall a, (r <= a < n)%nat -> f a = true).
Proof.
  induction fuel as [|fuel IH]; intros i j Hij Hf Hmono Hlo Hhi; cbn [search].
  - replace j with i in Hhi by lia. split_and!; [lia|done..].
  - case_decide as Hlt; [|replace j with i in Hhi by lia; split_and!; [lia|done..]].
    set (h := ((i + j) / 2)%nat). assert (i <= h < j)%nat as Hh.
    { unfold h. pose proof (Nat.div_mod_eq (i + j) 2). pose proof (Nat.mod_upper_bound (i + j) 2). lia. }
    destruct (f h) eqn:E.
    + apply IH; [lia|lia|done|done|]. intros a Ha. destruct (decide (h = a)) as [<-|]; [done|].
      apply (Hmono h); [lia|done].
    + apply IH; [lia|lia|done| |done]. intros a Ha. destruct (f a) eqn:Ea; [|done].
      rewrite (Hmono a h) in E; [done|lia|done].
Qed.

Lemma Search_spec n f :
  (forall a b, (a <= b < n)%nat -> f a = true -> f b = true) ->
  (Search n f <= n)%nat /\ (forall a, (a < Search n f)%nat -> f a = false) /\
  (forall a, (Search n f <= a < n)%nat -> f a = true).
Proof. intros H. apply search_spec; [lia|lia|done|lia|lia]. Qed.

(** ** [bytes.TrimSpace] of UTF-8 text *)

(** The encodings of the characters [unicode.IsSpace] holds of: the ASCII ones,
    then U+0085, U+00A0, U+1680, U+2000 to U+200A, U+2028, U+2029, U+202F, U+205F
    and U+3000. *)
Definition unicode_spaces : list (list Z) :=
  ((fun c => [c]) <$> [9; 10; 11; 12; 13; 32]) ++ [[194; 133]; [194; 160]; [225; 154; 128]] ++
  ((fun c => [226; 128; c]) <$> (seqZ 128 11 ++ [168; 169; 175])) ++ [[226; 129; 159]; [227; 128; 128]].

(** The first of [seps] that [s] starts with is taken off. *)
Definition strip (seps : list (list Z)) (s : list Z) : option (list Z) := head (omap (CutPrefix s) seps).

Fixpoint trim_seps (seps : list (list Z)) (fuel : nat) (s : list Z) : list Z :=
  match fuel with
  | O => s
  | S fuel => match strip seps s with Some t => trim_seps seps fuel t | None => s end
  end.

(** From the right, the text and the encodings are read backwards. *)
Definition utf8_TrimSpace (s : list Z) : list Z :=
  let s := trim_seps unicode_spaces (length s) s in
  reverse (trim_seps (reverse <$> unicode_spaces) (length s) (reverse s)).

Lemma trim_seps_fixed seps fuel s : strip seps s = None -> trim_seps seps fuel s = s.
Proof. destruct fuel; cbn [trim_seps]; [done|]. by intros ->. Qed.

(** Text between braces is not trimmed. *)
Lemma utf8_TrimSpace_braces m : utf8_TrimSpace (123 :: m ++ [125]) = 123 :: m ++ [125].
Proof.
  unfold utf8_TrimSpace. rewrite (trim_seps_fixed unicode_spaces) by reflexivity.
  rewrite trim_seps_fixed; [by rewrite reverse_involutive|].
  change (123 :: m ++ [125]) with ((123 :: m) ++ [125]). rewrite reverse_app. reflexivity.
Qed.

(** ** [bytes.Fields] *)

(** The parts between runs of spaces; [cur] is the part being read, backwards. *)
Fixpoint fields_from (fuel : nat) (cur s : list Z) : list (list Z) :=
  let done := if decide (cur = []) then [] else [reverse cur] in
  match fuel with
  | O => done
  | S fuel =>
      match s with
      | [] => done
      | c :: s' =>
          match strip unicode_spaces s with
          | Some t => done ++ fields_from fuel [] t
          | None => fields_from fuel (c :: cur) s'
          end
      end
  end.

Definition Fields (s : list Z) : list (list Z) := fields_from (length s) [] s.
