(* ===== verification/Helpers.v ===== *)
(** * The BPF runtime

    What the probes get from the kernel: BPF maps, ring buffers, the task
    context and the memory-reading helpers.  The kernel's code is not part of
    the repository, so each of these is a parameter: a structure of operations
    ([bpf_map], [bpf_ringbuf], [kenv]) and, as classes, the laws
    [headers/bpf_helper_defs.h] documents for them.  The probe theorems are
    proved against these classes; [RefKernel] discharges them with concrete
    instances.  The loop macros of [headers/bpf_helpers.h] are modelled here
    too. *)

From S2P Require Import Prelude.

(** ** Constants of [headers/common.h] *)

Inductive bpf_map_type : Type :=
  | BPF_MAP_TYPE_UNSPEC
  | BPF_MAP_TYPE_HASH
  | BPF_MAP_TYPE_ARRAY
  | BPF_MAP_TYPE_PROG_ARRAY
  | BPF_MAP_TYPE_PERF_EVENT_ARRAY
  | BPF_MAP_TYPE_PERCPU_HASH
  | BPF_MAP_TYPE_PERCPU_ARRAY
  | BPF_MAP_TYPE_STACK_TRACE
  | BPF_MAP_TYPE_CGROUP_ARRAY
  | BPF_MAP_TYPE_LRU_HASH
  | BPF_MAP_TYPE_LRU_PERCPU_HASH
  | BPF_MAP_TYPE_LPM_TRIE
  | BPF_MAP_TYPE_ARRAY_OF_MAPS
  | BPF_MAP_TYPE_HASH_OF_MAPS
  | BPF_MAP_TYPE_DEVMAP
  | BPF_MAP_TYPE_SOCKMAP
  | BPF_MAP_TYPE_CPUMAP
  | BPF_MAP_TYPE_XSKMAP
  | BPF_MAP_TYPE_SOCKHASH
  | BPF_MAP_TYPE_CGROUP_STORAGE
  | BPF_MAP_TYPE_REUSEPORT_SOCKARRAY
  | BPF_MAP_TYPE_PERCPU_CGROUP_STORAGE
  | BPF_MAP_TYPE_QUEUE
  | BPF_MAP_TYPE_STACK
  | BPF_MAP_TYPE_SK_STORAGE
  | BPF_MAP_TYPE_DEVMAP_HASH
  | BPF_MAP_TYPE_STRUCT_OPS
  | BPF_MAP_TYPE_RINGBUF
  | BPF_MAP_TYPE_INODE_STORAGE.

#[export] Instance bpf_map_type_eq_dec : EqDecision bpf_map_type.
Proof. solve_decision. Defined.

Definition BPF_ANY : Z := 0.
Definition BPF_NOEXIST : Z := 1.
Definition BPF_EXIST : Z := 2.
Definition BPF_F_LOCK : Z := 4.

(** A map declaration: the [__uint]/[__type] members of a [SEC(".maps")]
    structure, with the sizes of the key and value types in bytes. *)
Record map_def := MapDef {
  md_type : bpf_map_type;
  md_max_entries : Z;
  md_key_size : Z;
  md_value_size : Z;
}.

(** ** Maps *)

Structure bpf_map (K V : Type) `{Countable K} := BpfMap {
  mcar :> Type;
  contents : mcar -> gmap K V;
  lookup_elem : mcar -> K -> option V;
  update_elem : mcar -> K -> V -> Z -> Z * mcar;
  delete_elem : mcar -> K -> Z * mcar;
  store_elem : mcar -> K -> V -> mcar;
}.
Arguments BpfMap {K V _ _} _ _ _ _ _ _.
Arguments mcar {K V _ _} _.
Arguments contents {K V _ _ _} _.
Arguments lookup_elem {K V _ _ _} _ _.
Arguments update_elem {K V _ _ _} _ _ _ _.
Arguments delete_elem {K V _ _ _} _ _.
Arguments store_elem {K V _ _ _} _ _ _.

(** [bpf_map_lookup_elem] yields the entry of the key or NULL; a write through
    the pointer it yields ([store_elem]) changes that entry in place. *)
Class MapOk {K V} `{Countable K} (M : bpf_map K V) : Prop := {
  lookup_elem_contents : forall (m : M) k, lookup_elem m k = contents m !! k;
  store_elem_contents : forall (m : M) k v,
    is_Some (contents m !! k) -> contents (store_elem m k v) = <[k := v]> (contents m);
}.

(** Hash maps that evict: an update makes the entry of its key and may drop
    others; a failed one adds nothing. *)
Class LruOk {K V} `{Countable K} (M : bpf_map K V) : Prop := {
  lru_map_ok :: MapOk M;
  lru_update_sub : forall (m : M) k v,
    (update_elem m k v BPF_ANY).1 = 0 ->
    contents (update_elem m k v BPF_ANY).2 ⊆ <[k := v]> (contents m);
  lru_update_some : forall (m : M) k v,
    (update_elem m k v BPF_ANY).1 = 0 ->
    contents (update_elem m k v BPF_ANY).2 !! k = Some v;
  lru_update_fail : forall (m : M) k v,
    (update_elem m k v BPF_ANY).1 <> 0 ->
    contents (update_elem m k v BPF_ANY).2 ⊆ contents m;
  lru_delete_contents : forall (m : M) k,
    contents (delete_elem m k).2 = delete k (contents m);
}.

(** Plain hash maps: an update changes the entry of its key and nothing else,
    or fails (the map is full) and changes nothing. *)
Class HashOk {K V} `{Countable K} (M : bpf_map K V) : Prop := {
  hash_map_ok :: MapOk M;
  hash_update_ok : forall (m : M) k v,
    (update_elem m k v BPF_ANY).1 = 0 ->
    contents (update_elem m k v BPF_ANY).2 = <[k := v]> (contents m);
  hash_update_fail : forall (m : M) k v,
    (update_elem m k v BPF_ANY).1 <> 0 ->
    contents (update_elem m k v BPF_ANY).2 = contents m;
  hash_delete_contents : forall (m : M) k,
    contents (delete_elem m k).2 = delete k (contents m);
}.

(** Arrays (per-CPU ones as the running CPU sees them): every index below
    [max_entries] exists. *)
Class ArrayOk {V} (n : Z) (M : bpf_map Z V) : Prop := {
  array_map_ok :: MapOk M;
  array_total : forall (m : M) i, 0 <= i < n -> is_Some (contents m !! i);
}.

(** Updates never fail: the map stays below its [max_entries]. *)
Definition never_full {K V} `{Countable K} (M : bpf_map K V) : Prop :=
  forall (m : M) k v, (update_elem m k v BPF_ANY).1 = 0.

Section MapLemmas.
Context {K V : Type} `{Countable K} {M : bpf_map K V}.

#[export] Instance hash_lru `{!HashOk M} : LruOk M.
Proof.
  split; [apply _| | | |]; intros.
  - by rewrite hash_update_ok.
  - rewrite hash_update_ok by done. apply lookup_insert_eq.
  - by rewrite hash_update_fail.
  - apply hash_delete_contents.
Qed.

(** Whatever an update does, an entry of another key is either kept or
    dropped, never changed. *)
Lemma update_other `{!LruOk M} (m : M) k v k' w :
  k <> k' -> contents (update_elem m k v BPF_ANY).2 !! k' = Some w ->
  contents m !! k' = Some w.
Proof.
  intros Hne Hw. destruct (decide ((update_elem m k v BPF_ANY).1 = 0)) as [E|E].
  - eapply lookup_weaken in Hw; [|by apply lru_update_sub].
    by rewrite lookup_insert_ne in Hw.
  - eapply lookup_weaken in Hw; [done|by apply lru_update_fail].
Qed.

Lemma update_other_hash `{!HashOk M} (m : M) k v k' :
  k <> k' -> contents (update_elem m k v BPF_ANY).2 !! k' = contents m !! k'.
Proof.
  intros Hne. destruct (decide ((update_elem m k v BPF_ANY).1 = 0)) as [E|E].
  - rewrite hash_update_ok by done. by apply lookup_insert_ne.
  - by rewrite hash_update_fail.
Qed.

(** Every entry after an update is the new one or an old one. *)
Lemma update_elem_inv `{!LruOk M} (m : M) k v k' w :
  contents (update_elem m k v BPF_ANY).2 !! k' = Some w ->
  (k' = k /\ w = v) \/ contents m !! k' = Some w.
Proof.
  intros Hw. destruct (decide (k = k')) as [->|Hne]; [|right; by eapply update_other].
  destruct (decide ((update_elem m k' v BPF_ANY).1 = 0)) as [E|E].
  - rewrite lru_update_some in Hw by done. left. by simplify_eq.
  - right. eapply lookup_weaken; [done|by apply lru_update_fail].
Qed.

(** A property of all entries is kept by updates with a value that has it,
    by deletions and by stores. *)
Lemma map_Forall_update `{!LruOk M} (P : K -> V -> Prop) (m : M) k v :
  P k v -> map_Forall P (contents m) ->
  map_Forall P (contents (update_elem m k v BPF_ANY).2).
Proof.
  intros HP Hall k' w Hw. apply update_elem_inv in Hw as [[-> ->]|Hw]; [done|].
  by apply Hall.
Qed.

Lemma map_Forall_delete_elem `{!LruOk M} (P : K -> V -> Prop) (m : M) k :
  map_Forall P (contents m) -> map_Forall P (contents (delete_elem m k).2).
Proof. intros. rewrite lru_delete_contents. by apply map_Forall_delete. Qed.

Lemma map_Forall_store `{!MapOk M} (P : K -> V -> Prop) (m : M) k v :
  is_Some (contents m !! k) -> P k v -> map_Forall P (contents m) ->
  map_Forall P (contents (store_elem m k v)).
Proof. intros. rewrite store_elem_contents by done. by apply map_Forall_insert_2. Qed.
End MapLemmas.

(** ** Ring buffers

    [samples] is what the consumer reads, in order.  A reservation yields a
    sample with whatever its memory holds, or NULL; it only becomes visible
    when it is submitted. *)

Structure bpf_ringbuf (E : Type) := BpfRingbuf {
  rcar :> Type;
  samples : rcar -> list E;
  ringbuf_reserve : rcar -> Z -> Z -> option E * rcar;
  ringbuf_submit : rcar -> E -> Z -> rcar;
  ringbuf_discard : rcar -> E -> Z -> rcar;
}.
Arguments BpfRingbuf {E} _ _ _ _ _.
Arguments rcar {E} _.
Arguments samples {E _} _.
Arguments ringbuf_reserve {E _} _ _ _.
Arguments ringbuf_submit {E _} _ _ _.
Arguments ringbuf_discard {E _} _ _ _.

Class RingbufOk {E} (R : bpf_ringbuf E) : Prop := {
  reserve_samples : forall (r : R) n fl, samples (ringbuf_reserve r n fl).2 = samples r;
  submit_samples : forall (r : R) e fl, samples (ringbuf_submit r e fl) = samples r ++ [e];
  discard_samples : forall (r : R) e fl, samples (ringbuf_discard r e fl) = samples r;
}.

(** What a reservation yields is memory of the sample's type: [Q] holds of it. *)
Definition reserves {E} (R : bpf_ringbuf E) (Q : E -> Prop) : Prop :=
  forall (r : R) n fl e, (ringbuf_reserve r n fl).1 = Some e -> Q e.

(** The next [n] reservations of [size] bytes succeed, whatever is submitted in
    between. *)
Fixpoint has_room {E} {R : bpf_ringbuf E} (size : Z) (n : nat) (r : R) : Prop :=
  match n with
  | O => True
  | S n' =>
      exists e r', ringbuf_reserve r size 0 = (Some e, r') /\
      forall e', has_room size n' (ringbuf_submit r' e' 0)
  end.

(** The ring buffer of [bpf_ringbuf_output]: records are byte strings. *)
Structure bpf_output_ringbuf := BpfOutputRingbuf {
  ocar :> Type;
  records : ocar -> list (list Z);
  ringbuf_output : ocar -> list Z -> Z -> Z -> Z * ocar;
}.
Arguments records {_} _.
Arguments ringbuf_output {_} _ _ _ _.

(** [bpf_ringbuf_output] copies [size] bytes of [data] into the buffer, or
    fails and copies nothing. *)
Class OutputRingbufOk (R : bpf_output_ringbuf) : Prop := {
  output_ok : forall (r : R) data n fl,
    (ringbuf_output r data n fl).1 = 0 ->
    records (ringbuf_output r data n fl).2 = records r ++ [take (Z.to_nat n) data];
  output_fail : forall (r : R) data n fl,
    (ringbuf_output r data n fl).1 <> 0 ->
    records (ringbuf_output r data n fl).2 = records r;
}.

(** ** Task context and memory reads

    The helpers that read the current task and foreign memory, as one program
    invocation sees them.  A fixed-size read yields its return code and the
    [size] bytes of the destination afterwards; a string read yields its return
    code and the bytes it wrote. *)

Record kenv := KEnv {
  bpf_ktime_get_ns : Z;
  bpf_get_current_pid_tgid : Z;
  bpf_get_current_uid_gid : Z;
  bpf_get_current_cgroup_id : Z;
  bpf_get_current_task_btf : Z;
  bpf_get_current_comm : Z -> list Z;
  bpf_probe_read : Z -> Z -> Z * list Z;
  bpf_probe_read_str : Z -> Z -> Z * list Z;
  bpf_probe_read_user : Z -> Z -> Z * list Z;
  bpf_probe_read_user_str : Z -> Z -> Z * list Z;
  bpf_probe_read_kernel : Z -> Z -> Z * list Z;
  bpf_probe_read_kernel_str : Z -> Z -> Z * list Z;
}.

(** An address space: the byte at an address, if it is mapped. *)
Definition mem : Type := Z -> option Z.

Fixpoint mem_read (m : mem) (addr : Z) (n : nat) : option (list Z) :=
  match n with
  | O => Some []
  | S n' =>
      match m addr, mem_read m (addr + 1) n' with
      | Some b, Some bs => Some (b :: bs)
      | _, _ => None
      end
  end.

(** [bpf_probe_read], [bpf_probe_read_user], [bpf_probe_read_kernel]: 0 and the
    bytes of memory, or a negative error. *)
Definition probe_read_spec (m : mem) (f : Z -> Z -> Z * list Z) : Prop :=
  forall size addr, 0 <= size ->
    let '(ret, bs) := f size addr in
    length bs = Z.to_nat size /\
    (ret < 0 \/ ret = 0 /\ mem_read m addr (Z.to_nat size) = Some bs).

(** [bpf_probe_read_user_str] and its kin: a negative error, or the number of
    bytes written, which are a string and its terminating NUL.  The string is
    the one in memory, cut to [size - 1] bytes when it is longer. *)
Definition probe_read_str_spec (m : mem) (f : Z -> Z -> Z * list Z) : Prop :=
  forall size addr, 0 < size ->
    let '(ret, bs) := f size addr in
    (length bs <= Z.to_nat size)%nat /\
    (ret < 0 \/
     0 < ret /\ exists s, bs = s ++ [0] /\ ret = Z.of_nat (length bs) /\ 0 ∉ s /\
       mem_read m addr (length s) = Some s /\
       (m (addr + Z.of_nat (length s)) = Some 0 \/ ret = size)).

(** [bpf_get_current_comm] fills the whole buffer, NUL-terminated or zeroed. *)
Definition comm_spec (f : Z -> list Z) : Prop :=
  forall size, 0 < size -> length (f size) = Z.to_nat size /\ 0 ∈ f size.

(** The user memory a program invocation sees. *)
Class UserMem (k : kenv) (m : mem) : Prop := {
  user_read : probe_read_spec m (bpf_probe_read_user k);
  user_read_str : probe_read_str_spec m (bpf_probe_read_user_str k);
}.

(** Reads of mapped memory succeed. *)
Definition resident (m : mem) (f : Z -> Z -> Z * list Z) : Prop :=
  forall size addr bs, mem_read m addr (Z.to_nat size) = Some bs -> f size addr = (0, bs).

(** Addresses have 64 bits. *)
Definition addressable (m : mem) : Prop := forall a b, m a = Some b -> 0 <= a < 2 ^ 64.

Lemma length_mem_read m a n bs : mem_read m a n = Some bs -> length bs = n.
Proof.
  revert a bs. induction n as [|n IH]; simpl; intros a bs Hbs; simplify_eq; [done|].
  destruct (m a); [|done]. destruct (mem_read m (a + 1) n) eqn:E; [|done].
  simplify_eq. simpl. f_equal. by eapply IH.
Qed.

Lemma mem_read_app m a n1 n2 bs1 bs2 :
  mem_read m a n1 = Some bs1 -> mem_read m (a + Z.of_nat n1) n2 = Some bs2 ->
  mem_read m a (n1 + n2) = Some (bs1 ++ bs2).
Proof.
  revert a bs1. induction n1 as [|n1 IH]; simpl; intros a bs1 H1 H2; simplify_eq.
  { by rewrite Z.add_0_r in H2. }
  destruct (m a) as [b|]; [|done].
  destruct (mem_read m (a + 1) n1) as [bs|] eqn:E; [|done]. simplify_eq.
  rewrite (IH (a + 1) bs); [done|done|].
  by replace (a + 1 + Z.of_nat n1) with (a + Z.pos (Pos.of_succ_nat n1)) by lia.
Qed.

(** A read of a part of a readable range. *)
Lemma mem_read_sub m a n bs i j :
  mem_read m a n = Some bs -> (i + j <= n)%nat ->
  mem_read m (a + Z.of_nat i) j = Some (take j (drop i bs)).
Proof.
  revert a bs i j. induction n as [|n IH]; simpl; intros a bs i j Hbs Hij; simplify_eq.
  { assert (i = 0%nat) as -> by lia. assert (j = 0%nat) as -> by lia. done. }
  destruct (m a) as [b|] eqn:Ha; [|done].
  destruct (mem_read m (a + 1) n) as [bs'|] eqn:E; [|done]. simplify_eq.
  destruct i as [|i].
  - rewrite Z.add_0_r. simpl. destruct j as [|j]; [done|]. simpl. rewrite Ha.
    specialize (IH (a + 1) bs' 0%nat j E). rewrite Z.add_0_r in IH.
    rewrite IH by lia. done.
  - simpl. rewrite <- (IH (a + 1) bs' i j E) by lia. f_equal. lia.
Qed.

Lemma resident_read m f a n bs i j :
  resident m f -> mem_read m a (Z.to_nat n) = Some bs -> 0 <= i -> 0 <= j -> i + j <= n ->
  f j (a + i) = (0, take (Z.to_nat j) (drop (Z.to_nat i) bs)).
Proof.
  intros Hf Hbs Hi Hj Hij. apply Hf. rewrite <- (Z2Nat.id i) at 1 by lia.
  apply (mem_read_sub m a (Z.to_nat n)); [done|lia].
Qed.

(** No user read of the program faults in [n] bytes from [a]. *)
Definition no_fault (k : kenv) (a n : Z) : Prop :=
  forall i size, a <= i -> 0 <= size -> i + size <= a + n -> (bpf_probe_read_user k size i).1 = 0.

Lemma no_fault_sub k a n b n' :
  no_fault k a n -> a <= b -> b + n' <= a + n -> no_fault k b n'.
Proof. intros H Hb Hn i size Hi Hs His. apply H; lia. Qed.

(** A read inside a readable range yields its bytes. *)
Lemma user_read_at k m a n bs i j :
  UserMem k m -> mem_read m a (Z.to_nat n) = Some bs -> no_fault k a n ->
  0 <= i -> 0 <= j -> i + j <= n ->
  bpf_probe_read_user k j (a + i) = (0, take (Z.to_nat j) (drop (Z.to_nat i) bs)).
Proof.
  intros Hm Hbs Hnf Hi Hj Hij. pose proof (user_read (k := k) j (a + i) Hj) as Hr.
  pose proof (Hnf (a + i) j) as H0.
  pose proof (mem_read_sub m a _ bs (Z.to_nat i) (Z.to_nat j) Hbs) as Hsub.
  rewrite Z2Nat.id in Hsub by lia.
  destruct (bpf_probe_read_user k j (a + i)) as [ret b]. simpl in *.
  destruct Hr as [_ [Hr|[-> Hr]]]; [lia|]. rewrite Hsub in Hr by lia. by simplify_eq.
Qed.

(** A string read of a NUL-terminated string yields it, cut to the size. *)
Lemma read_str_string m f size addr s :
  probe_read_str_spec m f -> 0 < size -> 0 ∉ s -> mem_read m addr (S (length s)) = Some (s ++ [0]) ->
  0 < (f size addr).1 -> (f size addr).2 = take (Z.to_nat size - 1) s ++ [0].
Proof.
  intros Hf Hsize Hs Hm Hret. specialize (Hf size addr Hsize).
  destruct (f size addr) as [ret bs]. cbn [fst snd] in *.
  destruct Hf as [Hl [?|(_ & t & -> & Hr & Ht & Hmt & Hend)]]; [lia|]. f_equal.
  rewrite length_app in Hr, Hl. cbn [length] in Hr, Hl.
  assert (length t <= length s)%nat as Hle.
  { destruct (Nat.le_gt_cases (length t) (length s)) as [|Hgt]; [done|]. destruct Ht.
    pose proof (mem_read_sub m addr _ t 0 (S (length s)) Hmt) as H. rewrite Z.add_0_r, drop_0 in H.
    rewrite H in Hm by lia. simplify_eq.
    rewrite <- (take_drop (S (length s)) t). apply elem_of_app. left.
    rewrite Hm. apply elem_of_app. right. by apply list_elem_of_singleton. }
  pose proof (mem_read_sub m addr _ _ 0 (length t) Hm ltac:(lia)) as H.
  rewrite Z.add_0_r, drop_0, Hmt, take_app_le in H by lia. apply (inj Some) in H.
  rewrite H. destruct Hend as [Hend|Hend]; [|f_equal; lia].
  destruct (decide (length t = length s)) as [E|E]; [by rewrite E, !take_ge by lia|].
  pose proof (mem_read_sub m addr _ _ (length t) 1 Hm ltac:(lia)) as H1.
  cbn [mem_read] in H1. rewrite Hend, drop_app_le, (drop_rd s) in H1 by lia. cbn [app take] in H1.
  simplify_eq. destruct Hs. apply list_elem_of_lookup. exists (length t).
  rewrite lookup_rd by lia. congruence.
Qed.

(** ** Helper calls on a program's state *)

Section Calls.
Context {S K V : Type} `{Countable K} {M : bpf_map K V} (f : field S M).

Definition bpf_map_lookup_elem (key : K) : prog S (option V) :=
  fun s => (lookup_elem (fget f s) key, s).

Definition bpf_map_update_elem (key : K) (value : V) (flags : Z) : prog S Z :=
  fun s => let '(r, m) := update_elem (fget f s) key value flags in (r, fset f m s).

Definition bpf_map_delete_elem (key : K) : prog S Z :=
  fun s => let '(r, m) := delete_elem (fget f s) key in (r, fset f m s).

(** A write through the pointer a lookup of [key] yielded. *)
Definition map_store (key : K) (value : V) : prog S unit :=
  fun s => (tt, fset f (store_elem (fget f s) key value) s).
End Calls.

Section RingCalls.
Context {S E : Type} {R : bpf_ringbuf E} (f : field S R).

Definition bpf_ringbuf_reserve (size flags : Z) : prog S (option E) :=
  fun s => let '(e, r) := ringbuf_reserve (fget f s) size flags in (e, fset f r s).

Definition bpf_ringbuf_submit (e : E) (flags : Z) : prog S unit :=
  fun s => (tt, fset f (ringbuf_submit (fget f s) e flags) s).

Definition bpf_ringbuf_discard (e : E) (flags : Z) : prog S unit :=
  fun s => (tt, fset f (ringbuf_discard (fget f s) e flags) s).
End RingCalls.

Definition bpf_ringbuf_output {S} {R : bpf_output_ringbuf} (f : field S R)
    (data : list Z) (size flags : Z) : prog S Z :=
  fun s => let '(r, b) := ringbuf_output (fget f s) data size flags in (r, fset f b s).

(** ** Loops of [headers/bpf_helpers.h] *)

(** What an iteration of a loop body does: go on with the loop variables [A],
    leave the loop, or return [R] from the function. *)
Inductive loop_ctl (A R : Type) :=
  | Next (a : A)
  | Break (a : A)
  | Return (r : R).
Arguments Next {A R} _.
Arguments Break {A R} _.
Arguments Return {A R} _.

(** The numbers iterator behind the macros ([bpf_iter_num_new],
    [bpf_iter_num_next]); its code is the kernel's. *)
Structure num_iter := NumIter {
  iter_car :> Type;
  bpf_iter_num_new : Z -> Z -> iter_car;
  bpf_iter_num_next : iter_car -> option Z * iter_car;
}.
Arguments bpf_iter_num_new {_} _ _.
Arguments bpf_iter_num_next {_} _.

(** The values drawn from an iterator: [start], [start + 1], ..., and NULL from
    [end] on. *)
Inductive yields {N : num_iter} : N -> Z -> Z -> Prop :=
  | yields_next it i e it' :
      i < e -> bpf_iter_num_next it = (Some i, it') -> yields it' (i + 1) e ->
      yields it i e
  | yields_end it i e it' :
      e <= i -> bpf_iter_num_next it = (None, it') -> yields it i e.

Class NumIterOk (N : num_iter) : Prop :=
  num_iter_yields : forall i e, yields (bpf_iter_num_new (n := N) i e) i e.

Section Loops.
Context {S A R : Type}.

(** The [for] statement of the macros: [next] until NULL.  [fuel] bounds the
    draws. *)
Fixpoint for_each {N : num_iter} (fuel : nat) (it : N)
    (body : Z -> A -> prog S (loop_ctl A R)) (a : A) : prog S (A + R) :=
  match fuel with
  | O => mret (inl a)
  | Datatypes.S fuel' =>
      match bpf_iter_num_next it with
      | (None, _) => mret (inl a)
      | (Some i, it') =>
          c ← body i a;
          match c with
          | Next a' => for_each fuel' it' body a'
          | Break a' => mret (inl a')
          | Return r => mret (inr r)
          end
      end
  end.

(** [bpf_for(i, start, end)]: [for_each] with the range check of the macro. *)
Definition bpf_for {N : num_iter} (start end_ : Z)
    (body : Z -> A -> prog S (loop_ctl A R)) (a : A) : prog S (A + R) :=
  for_each (N := N) (Datatypes.S (Z.to_nat (end_ - start)))
    (bpf_iter_num_new start end_)
    (fun i a => if (start <=? i) && (i <? end_) then body i a else mret (Break a)) a.

Definition bpf_repeat_iter {N : num_iter} (n : nat)
    (body : A -> prog S (loop_ctl A R)) (a : A) : prog S (A + R) :=
  for_each (N := N) (Datatypes.S n) (bpf_iter_num_new 0 (Z.of_nat n)) (fun _ => body) a.

(** [bpf_repeat(n)] as the probes use it: [n] runs of the body. *)
Fixpoint bpf_repeat (n : nat) (body : A -> prog S (loop_ctl A R)) (a : A)
    : prog S (A + R) :=
  match n with
  | O => mret (inl a)
  | Datatypes.S n' =>
      c ← body a;
      match c with
      | Next a' => bpf_repeat n' body a'
      | Break a' => mret (inl a')
      | Return r => mret (inr r)
      end
  end.
End Loops.

(** The reference loop: the body on [i], [i + 1], ..., [i + n - 1]. *)
Fixpoint for_range {S A R : Type} (n : nat) (i : Z)
    (body : Z -> A -> prog S (loop_ctl A R)) (a : A) : prog S (A + R) :=
  match n with
  | O => mret (inl a)
  | Datatypes.S n' =>
      c ← body i a;
      match c with
      | Next a' => for_range n' (i + 1) body a'
      | Break a' => mret (inl a')
      | Return r => mret (inr r)
      end
  end.

Section LoopLemmas.
Context {S A R : Type}.
Implicit Types (s : S) (a : A).

Lemma for_each_yields {N : num_iter} (it : N) i e fuel
    (body : Z -> A -> prog S (loop_ctl A R)) a s :
  yields it i e -> e - i < Z.of_nat fuel ->
  for_each fuel it body a s = for_range (Z.to_nat (e - i)) i body a s.
Proof.
  intros Hy. revert fuel a s.
  induction Hy as [it i e it' Hlt Hn Hy IH|it i e it' Hle Hn]; intros fuel a s Hf.
  - destruct fuel as [|fuel]; [lia|].
    replace (Z.to_nat (e - i)) with (Datatypes.S (Z.to_nat (e - (i + 1)))) by lia.
    simpl. rewrite Hn. unfold mbind, prog_bind.
    destruct (body i a s) as [c s']. destruct c; [|done..]. apply IH. lia.
  - replace (Z.to_nat (e - i)) with 0%nat by lia.
    destruct fuel as [|fuel]; [done|]. simpl. by rewrite Hn.
Qed.

Lemma for_range_ext n i (body body' : Z -> A -> prog S (loop_ctl A R)) a s :
  (forall j a s, i <= j < i + Z.of_nat n -> body j a s = body' j a s) ->
  for_range n i body a s = for_range n i body' a s.
Proof.
  revert i a s. induction n as [|n IH]; intros i a s Hb; [done|]. simpl.
  unfold mbind, prog_bind. rewrite <- Hb by lia.
  destruct (body i a s) as [c s']. destruct c; [|done..].
  apply IH. intros j a' s'' Hj. apply Hb. lia.
Qed.

Lemma for_range_repeat n i (body : A -> prog S (loop_ctl A R)) a s :
  for_range n i (fun _ => body) a s = bpf_repeat n body a s.
Proof.
  revert i a s. induction n as [|n IH]; intros i a s; [done|]. simpl.
  unfold mbind, prog_bind. destruct (body a s) as [c s']. by destruct c.
Qed.

(** The macro [bpf_repeat] runs its body as the recursion [bpf_repeat] does. *)
Lemma bpf_repeat_iter_repeat {N : num_iter} `{!NumIterOk N} n
    (body : A -> prog S (loop_ctl A R)) a s :
  bpf_repeat_iter (N := N) n body a s = bpf_repeat n body a s.
Proof.
  unfold bpf_repeat_iter.
  rewrite (for_each_yields _ 0 (Z.of_nat n)); [|apply num_iter_yields|lia].
  rewrite for_range_repeat. do 2 f_equal. lia.
Qed.

(** The macro [bpf_for] visits exactly [start .. end), in order. *)
Lemma bpf_for_range {N : num_iter} `{!NumIterOk N} start end_
    (body : Z -> A -> prog S (loop_ctl A R)) a s :
  bpf_for (N := N) start end_ body a s =
  for_range (Z.to_nat (end_ - start)) start body a s.
Proof.
  unfold bpf_for. rewrite (for_each_yields _ start end_);
    [|apply num_iter_yields|lia].
  apply for_range_ext. intros j a' s' Hj.
  rewrite (proj2 (Z.leb_le _ _)), (proj2 (Z.ltb_lt _ _)) by lia. done.
Qed.

(** Loop rule: an invariant of the loop variables and the state that each
    iteration keeps holds when the loop is left. *)
Lemma bpf_repeat_invariant (I : A -> S -> Prop) (Q : R -> S -> Prop) n
    (body : A -> prog S (loop_ctl A R)) a s :
  (forall a s, I a s ->
    match body a s with
    | (Next a', s') | (Break a', s') => I a' s'
    | (Return r, s') => Q r s'
    end) ->
  I a s ->
  match bpf_repeat n body a s with
  | (inl a', s') => I a' s'
  | (inr r, s') => Q r s'
  end.
Proof.
  intros Hb. revert a s. induction n as [|n IH]; intros a s HI; [done|].
  simpl. unfold mbind, prog_bind. specialize (Hb a s HI).
  destruct (body a s) as [[a'|a'|r] s']; [by apply IH|done..].
Qed.
End LoopLemmas.
