(* ===== verification/RefKernel.v ===== *)
(** * Concrete instances of the BPF runtime

    Executable maps, ring buffers and task contexts that satisfy the laws of
    [Helpers].  They show that the laws can hold together, and the witnesses of
    the probe theorems run the programs on them. *)

From S2P Require Import Prelude Helpers.

(** ** Maps *)

Section HashMap.
Context (K V : Type) `{Countable K} (max : nat).

Definition ref_hash_update (m : gmap K V) (k : K) (v : V) (flags : Z) : Z * gmap K V :=
  match m !! k with
  | Some _ => if flags =? BPF_NOEXIST then (-17, m) else (0, <[k := v]> m)
  | None =>
      if flags =? BPF_EXIST then (-2, m)
      else if bool_decide (size m < max)%nat then (0, <[k := v]> m) else (-7, m)
  end.

Definition ref_hash_delete (m : gmap K V) (k : K) : Z * gmap K V :=
  match m !! k with
  | Some _ => (0, delete k m)
  | None => (-2, m)
  end.

Definition ref_hash : bpf_map K V :=
  BpfMap (gmap K V) (fun m => m) (fun m k => m !! k) ref_hash_update
    ref_hash_delete (fun m k v => <[k := v]> m).

Lemma ref_hash_delete_eq m k : (ref_hash_delete m k).2 = delete k m.
Proof.
  unfold ref_hash_delete. destruct (m !! k) eqn:E; simpl; [done|].
  by rewrite delete_id.
Qed.

#[export] Instance ref_hash_ok : HashOk ref_hash.
Proof.
  split; [split; done| | |intros; apply ref_hash_delete_eq].
  all: intros m k v; simpl; unfold ref_hash_update; repeat case_match; done.
Qed.

(** When full, make room by dropping some other entry. *)
Definition ref_lru_update (m : gmap K V) (k : K) (v : V) (flags : Z) : Z * gmap K V :=
  let '(r, m') := ref_hash_update m k v flags in
  if r =? -7 then
    match map_to_list m with
    | (k', _) :: _ => (0, <[k := v]> (delete k' m))
    | [] => (-7, m)
    end
  else (r, m').

Definition ref_lru : bpf_map K V :=
  BpfMap (gmap K V) (fun m => m) (fun m k => m !! k) ref_lru_update
    ref_hash_delete (fun m k v => <[k := v]> m).

#[export] Instance ref_lru_ok : LruOk ref_lru.
Proof.
  split; [split; done| | | |intros; apply ref_hash_delete_eq].
  all: intros m k v; simpl; unfold ref_lru_update, ref_hash_update; simpl;
    repeat case_match; simplify_eq; simpl; intros Hr; try done;
    try apply lookup_insert_eq.
  by apply insert_mono, delete_subseteq.
Qed.
End HashMap.

(** Without a bound no update fails. *)
Section Unbounded.
Context (K V : Type) `{Countable K}.

Definition ref_map : bpf_map K V :=
  BpfMap (gmap K V) (fun m => m) (fun m k => m !! k)
    (fun m k v _ => (0, <[k := v]> m)) (ref_hash_delete K V)
    (fun m k v => <[k := v]> m).

#[export] Instance ref_map_ok : HashOk ref_map.
Proof. split; [split; done|done|done|intros; apply ref_hash_delete_eq]. Qed.

Lemma ref_map_never_full : never_full ref_map.
Proof. done. Qed.
End Unbounded.

Section Array.
Context (V : Type) (n : Z) (v0 : V).

Definition ref_array_contents (m : gmap Z V) : gmap Z V :=
  list_to_map ((fun i => (i, default v0 (m !! i))) <$> seqZ 0 n).

Definition ref_array : bpf_map Z V :=
  BpfMap (gmap Z V) ref_array_contents (fun m k => ref_array_contents m !! k)
    (fun m k v _ => if (0 <=? k) && (k <? n) then (0, <[k := v]> m) else (-7, m))
    (fun m _ => (-22, m)) (fun m k v => <[k := v]> m).

Lemma ref_array_lookup m k :
  ref_array_contents m !! k =
  if decide (0 <= k < n) then Some (default v0 (m !! k)) else None.
Proof.
  unfold ref_array_contents. case_decide as Hk.
  - apply elem_of_list_to_map_1.
    + rewrite <- list_fmap_compose. simpl. rewrite list_fmap_id. apply NoDup_seqZ.
    + apply list_elem_of_fmap. exists k. split; [done|]. by apply elem_of_seqZ.
  - apply not_elem_of_list_to_map_1. rewrite <- list_fmap_compose. simpl.
    rewrite list_fmap_id. rewrite elem_of_seqZ. lia.
Qed.

#[export] Instance ref_array_ok : ArrayOk n ref_array.
Proof.
  split; [split; [done|]|].
  - simpl. intros m k v [w Hw]. apply map_eq. intros i.
    rewrite lookup_insert, !ref_array_lookup in *.
    case_decide; [|done]. rewrite lookup_insert.
    repeat case_decide; simplify_eq; done.
  - simpl. intros m i Hi. rewrite ref_array_lookup.
    destruct (decide (0 <= i < n)); [done|lia].
Qed.
End Array.

(** ** Ring buffers

    A ring buffer whose reservations succeed or fail as a given sequence of
    outcomes says (and succeed when it is used up). *)

Section Ring.
Context (E : Type) (uninit : E).

Definition ref_reserve (r : list bool * list E) (size flags : Z)
    : option E * (list bool * list E) :=
  match r with
  | (false :: ok, l) => (None, (ok, l))
  | (true :: ok, l) => (Some uninit, (ok, l))
  | ([], l) => (Some uninit, ([], l))
  end.

Definition ref_ringbuf : bpf_ringbuf E :=
  BpfRingbuf (list bool * list E) snd ref_reserve
    (fun r e _ => (r.1, r.2 ++ [e])) (fun r _ _ => r).

#[export] Instance ref_ringbuf_ok : RingbufOk ref_ringbuf.
Proof. split; [|done..]. intros [[|[] ok] l] n fl; done. Qed.
End Ring.

Definition ref_output (r : list bool * list (list Z)) (data : list Z) (size flags : Z)
    : Z * (list bool * list (list Z)) :=
  match r with
  | (false :: ok, l) => (-11, (ok, l))
  | (_ :: ok, l) => (0, (ok, l ++ [take (Z.to_nat size) data]))
  | ([], l) => (0, ([], l ++ [take (Z.to_nat size) data]))
  end.

Definition ref_output_ringbuf : bpf_output_ringbuf :=
  BpfOutputRingbuf (list bool * list (list Z)) snd ref_output.

#[export] Instance ref_output_ringbuf_ok : OutputRingbufOk ref_output_ringbuf.
Proof. split; intros [[|[] ok] l] data n fl; done. Qed.

(** ** Iterators *)

Definition ref_iter : num_iter :=
  NumIter (Z * Z) pair
    (fun it => if it.1 <? it.2 then (Some it.1, (it.1 + 1, it.2)) else (None, it)).

#[export] Instance ref_iter_ok : NumIterOk ref_iter.
Proof.
  intros i e. simpl.
  assert (exists n, Z.to_nat (e - i) = n) as [n Hn] by eauto.
  revert i Hn. induction n as [|n IH]; intros i Hn.
  - eapply yields_end; [lia|]. simpl. by rewrite (proj2 (Z.ltb_ge _ _)) by lia.
  - eapply yields_next; [lia| |apply IH; lia]. simpl.
    by rewrite (proj2 (Z.ltb_lt _ _)) by lia.
Qed.

(** ** Memory and task context *)

(** Bytes laid out from an address. *)
Definition mem_at (base : Z) (bs : list Z) : mem :=
  fun a => if base <=? a then bs !! Z.to_nat (a - base) else None.

Definition mem_union (m1 m2 : mem) : mem :=
  fun a => match m1 a with Some b => Some b | None => m2 a end.

Lemma mem_read_at base bs : mem_read (mem_at base bs) base (length bs) = Some bs.
Proof.
  assert (forall pre bs', bs = pre ++ bs' ->
    mem_read (mem_at base bs) (base + Z.of_nat (length pre)) (length bs') = Some bs') as H.
  { intros pre bs'. revert pre. induction bs' as [|b bs' IH]; intros pre E; [done|]. cbn [length mem_read].
    assert (mem_at base bs (base + Z.of_nat (length pre)) = Some b) as ->.
    { unfold mem_at. rewrite (proj2 (Z.leb_le _ _)) by lia.
      replace (Z.to_nat (base + Z.of_nat (length pre) - base)) with (length pre) by lia.
      rewrite E. by apply list_lookup_middle. }
    replace (base + Z.of_nat (length pre) + 1) with (base + Z.of_nat (length (pre ++ [b])))
      by (rewrite length_app; simpl; lia).
    rewrite (IH (pre ++ [b])); [done|]. by rewrite <- app_assoc. }
  specialize (H [] bs eq_refl). by rewrite Z.add_0_r in H.
Qed.

Lemma addressable_at base bs :
  0 <= base -> base + Z.of_nat (length bs) <= 2 ^ 64 -> addressable (mem_at base bs).
Proof.
  intros H1 H2 a b. unfold mem_at. destruct (Z.leb_spec base a); [|done].
  intros E%lookup_lt_Some. lia.
Qed.

Lemma addressable_union m1 m2 :
  addressable m1 -> addressable m2 -> addressable (mem_union m1 m2).
Proof.
  intros H1 H2 a b. unfold mem_union. destruct (m1 a) eqn:E; [|by apply H2].
  intros _. by apply (H1 a _ E).
Qed.

Definition ref_read (m : mem) (size addr : Z) : Z * list Z :=
  match mem_read m addr (Z.to_nat size) with
  | Some bs => (0, bs)
  | None => (-14, zeros (Z.to_nat size))
  end.

(** At most [n] bytes of the string at [addr]. *)
Fixpoint str_read (m : mem) (addr : Z) (n : nat) : option (list Z) :=
  match n with
  | O => Some []
  | S n' =>
      match m addr with
      | None => None
      | Some b => if b =? 0 then Some [] else cons b <$> str_read m (addr + 1) n'
      end
  end.

Definition ref_read_str (m : mem) (size addr : Z) : Z * list Z :=
  match str_read m addr (Z.to_nat size - 1) with
  | Some s => (Z.of_nat (length s) + 1, s ++ [0])
  | None => (-14, [])
  end.

Lemma ref_read_spec m : probe_read_spec m (ref_read m).
Proof.
  intros size addr Hs. unfold ref_read.
  destruct (mem_read m addr (Z.to_nat size)) as [bs|] eqn:E.
  - split; [by eapply length_mem_read|]. by right.
  - rewrite length_zeros. split; [done|]. left. lia.
Qed.

Lemma str_read_spec m addr n s :
  str_read m addr n = Some s ->
  (length s <= n)%nat /\ 0 ∉ s /\ mem_read m addr (length s) = Some s /\
  (m (addr + Z.of_nat (length s)) = Some 0 \/ length s = n).
Proof.
  revert addr s. induction n as [|n IH]; simpl; intros addr s Hs; simplify_eq.
  { repeat split; [simpl; lia|set_solver|by right]. }
  destruct (m addr) as [b|] eqn:Hb; [|done]. destruct (Z.eqb_spec b 0) as [->|Hb0].
  { simplify_eq. rewrite Z.add_0_r. repeat split; [simpl; lia|set_solver|by left]. }
  destruct (str_read m (addr + 1) n) as [s'|] eqn:E; simplify_eq/=.
  destruct (IH _ _ E) as (H1 & H2 & H3 & H4). rewrite Hb, H3.
  split; [lia|]. split; [set_solver|]. split; [done|].
  destruct H4 as [H4|H4]; [left|right; lia].
  rewrite <- H4. f_equal. lia.
Qed.

Lemma ref_read_str_spec m : probe_read_str_spec m (ref_read_str m).
Proof.
  intros size addr Hs. unfold ref_read_str.
  destruct (str_read m addr (Z.to_nat size - 1)) as [s|] eqn:E; [|split; simpl; lia].
  destruct (str_read_spec _ _ _ _ E) as (H1 & H2 & H3 & H4).
  rewrite length_app. simpl. split; [lia|]. right. split; [lia|].
  exists s. repeat split; try done; [lia|].
  destruct H4; [by left|right; lia].
Qed.

Definition ref_kenv (m : mem) (now pid_tgid uid_gid cgroup task : Z) (name : string)
    : kenv := {|
  bpf_ktime_get_ns := now;
  bpf_get_current_pid_tgid := pid_tgid;
  bpf_get_current_uid_gid := uid_gid;
  bpf_get_current_cgroup_id := cgroup;
  bpf_get_current_task_btf := task;
  bpf_get_current_comm size :=
    overlay (zeros (Z.to_nat size)) (take (Z.to_nat size - 1) (str name));
  bpf_probe_read := ref_read m;
  bpf_probe_read_str := ref_read_str m;
  bpf_probe_read_user := ref_read m;
  bpf_probe_read_user_str := ref_read_str m;
  bpf_probe_read_kernel := ref_read m;
  bpf_probe_read_kernel_str := ref_read_str m;
|}.

#[export] Instance ref_kenv_user m now pid uid cg task name :
  UserMem (ref_kenv m now pid uid cg task name) m.
Proof. split; [apply ref_read_spec|apply ref_read_str_spec]. Qed.

Lemma ref_kenv_comm m now pid uid cg task name :
  comm_spec (bpf_get_current_comm (ref_kenv m now pid uid cg task name)).
Proof.
  intros size Hs. simpl. assert (length (take (Z.to_nat size - 1) (str name)) <
    Z.to_nat size)%nat by (rewrite length_take; lia).
  rewrite length_overlay by (rewrite length_zeros; lia). rewrite length_zeros.
  split; [done|]. unfold overlay. rewrite drop_zeros.
  apply elem_of_app. right. apply elem_of_replicate. split; [done|lia].
Qed.

(** Reads of resident memory do not fault. *)
Lemma ref_no_fault m now pid uid cg task name a n bs :
  0 <= n -> mem_read m a (Z.to_nat n) = Some bs ->
  no_fault (ref_kenv m now pid uid cg task name) a n.
Proof.
  intros Hn Hbs i size Hi Hs His. simpl. unfold ref_read.
  assert (mem_read m i (Z.to_nat size)
    = Some (take (Z.to_nat size) (drop (Z.to_nat (i - a)) bs))) as ->; [|done].
  replace i with (a + Z.of_nat (Z.to_nat (i - a))) at 1 by lia.
  apply (mem_read_sub m a (Z.to_nat n)); [done|lia].
Qed.

(** The ring buffer without scheduled failures always has room. *)
Lemma ref_has_room {E} (uninit : E) size n l :
  has_room (R := ref_ringbuf E uninit) size n ([], l).
Proof.
  revert l. induction n as [|n IH]; intros l; [done|].
  exists uninit, ([], l). split; [done|]. intros e. apply IH.
Qed.

Lemma ref_resident m : resident m (ref_read m).
Proof. intros size addr bs H. unfold ref_read. by rewrite H. Qed.
