(* ===== verification/FileopPaths.v ===== *)
(** * File-operation probe: path routines

    The string functions of [fileop/fileop.bpf.c]: prefix tests, the noise
    filters, and the join of a directory path with a relative one.  A C
    predicate (an [int] that is 0 or 1) is a [bool]; a [char *] the code tests
    against NULL is an [option]. *)

From S2P Require Import Prelude Helpers.

Definition TASK_COMM_LEN : Z := 16.
Definition MAX_PATH_SIZE : nat := 256.
Definition MAX_PREFIX_LEN : nat := 36.
Definition AT_FDCWD : Z := -100.
Arguments MAX_PATH_SIZE : simpl never.
Arguments MAX_PREFIX_LEN : simpl never.

(** A [static const char] array: the literal and its NUL. *)
Definition lit (s : string) : list Z := str s ++ [0].
(** [sizeof(lit) - 1]. *)
Definition lit_len (s : string) : Z := Z.of_nat (length (lit s)) - 1.

(** ** Prefix test *)

Fixpoint str_has_prefix_loop (fuel i : nat) (s prefix : list Z) (prefix_len : Z) : bool :=
  match fuel with
  | O => false
  | S fuel' =>
      if prefix_len <=? Z.of_nat i then true
      else if negb (rd s i =? rd prefix i) then false
      else str_has_prefix_loop fuel' (S i) s prefix prefix_len
  end.

Definition str_has_prefix (s prefix : list Z) (prefix_len : Z) : bool :=
  str_has_prefix_loop MAX_PREFIX_LEN 0 s prefix prefix_len.

(** ** Shared objects *)

Fixpoint shared_object_loop (fuel i : nat) (path : list Z) : bool :=
  match fuel with
  | O => false
  | S fuel' =>
      if rd path i =? 0 then false
      else if (rd path i =? 46 (* '.' *)) && (rd path (i + 1) =? 115 (* 's' *))
              && (rd path (i + 2) =? 111 (* 'o' *))
              && ((rd path (i + 3) =? 0) || (rd path (i + 3) =? 46))
      then true
      else shared_object_loop fuel' (S i) path
  end.

Definition path_looks_like_shared_object (path : list Z) : bool :=
  shared_object_loop (MAX_PATH_SIZE - 3) 0 path.

(** ** Noise filters *)

Definition is_noise_path (path : option (list Z)) : bool :=
  match path with
  | None => true
  | Some path =>
      if str_has_prefix path (lit "/proc/") (lit_len "/proc/") then true
      else if str_has_prefix path (lit "/sys/") (lit_len "/sys/") then true
      else if str_has_prefix path (lit "/dev/pts/") (lit_len "/dev/pts/") then true
      else if str_has_prefix path (lit "/dev/shm/") (lit_len "/dev/shm/") then true
      else if str_has_prefix path (lit "/run/") (lit_len "/run/") then true
      else false
  end.

Definition path_is_runtime_overlay_noise (path : option (list Z)) : bool :=
  match path with
  | None => false
  | Some path =>
      if negb (str_has_prefix path (lit "/var/lib/") (lit_len "/var/lib/")) then false
      else
        let subpath := drop (Z.to_nat (lit_len "/var/lib/")) path in
        if str_has_prefix subpath (lit "buildkit/runc-overlayfs/")
             (lit_len "buildkit/runc-overlayfs/") then true
        else if str_has_prefix subpath (lit "docker/overlay2/")
             (lit_len "docker/overlay2/") then true
        else if str_has_prefix subpath (lit "containers/storage/overlay/")
             (lit_len "containers/storage/overlay/") then true
        else if str_has_prefix subpath (lit "containerd/io.containerd.snapshotter")
             (lit_len "containerd/io.containerd.snapshotter") then true
        else false
  end.

Definition path_is_systemd_private_tmp_noise (path : option (list Z)) : bool :=
  match path with
  | None => false
  | Some path =>
      if str_has_prefix path (lit "/tmp/systemd-private-")
           (lit_len "/tmp/systemd-private-") then true
      else if str_has_prefix path (lit "/var/tmp/systemd-private-")
           (lit_len "/var/tmp/systemd-private-") then true
      else false
  end.

Definition is_absolute_path (path : option (list Z)) : bool :=
  match path with
  | None => false
  | Some path => rd path 0 =? 47 (* '/' *)
  end.

(** ** Copy and join *)

(** Yields the return code and the destination afterwards. *)
Definition copy_user_path (k : kenv) (dst : list Z) (size src : Z) : Z * list Z :=
  if src =? 0 then (-1, dst)
  else
    let '(copied, bs) := bpf_probe_read_user_str k size src in
    (if copied <=? 1 then -1 else 0, overlay dst bs).

(** First loop of [join_paths]: [inr dst] is its early [return 0]. *)
Fixpoint join_base (fuel i off : nat) (size : Z) (base dst : list Z)
    : nat * list Z + list Z :=
  match fuel with
  | O => inl (off, dst)
  | S fuel' =>
      if s32 size - 1 <=? Z.of_nat off then inr (<[off := 0]> dst)
      else if rd base i =? 0 then inl (off, dst)
      else join_base fuel' (S i) (S off) size base (<[off := rd base i]> dst)
  end.

(** Second loop of [join_paths]. *)
Fixpoint join_relative (fuel i off : nat) (size : Z) (relative dst : list Z)
    : nat * list Z :=
  match fuel with
  | O => (off, dst)
  | S fuel' =>
      if s32 size - 1 <=? Z.of_nat off then (off, dst)
      else if rd relative i =? 0 then (off, dst)
      else join_relative fuel' (S i) (S off) size relative (<[off := rd relative i]> dst)
  end.

Definition join_paths (dst : option (list Z)) (size : Z) (base relative : option (list Z))
    : Z * option (list Z) :=
  match dst, base, relative with
  | Some dst, Some base, Some relative =>
      if size =? 0 then (-1, Some dst)
      else
        match join_base MAX_PATH_SIZE 0 0 size base dst with
        | inr dst => (0, Some dst)
        | inl (off, dst) =>
            if (off =? 0)%nat then (-1, Some dst)
            else
              let '(off, dst) :=
                if negb (rd dst (off - 1) =? 47) && (Z.of_nat off <? s32 size - 1)
                then (S off, <[off := 47]> dst) else (off, dst) in
              let '(off, dst) := join_relative MAX_PATH_SIZE 0 off size relative dst in
              (0, Some (<[off := 0]> dst))
        end
  | dst, _, _ => (-1, dst)
  end.

Arguments str_has_prefix : simpl never.
Arguments path_looks_like_shared_object : simpl never.
Arguments is_noise_path : simpl never.
Arguments path_is_runtime_overlay_noise : simpl never.
Arguments path_is_systemd_private_tmp_noise : simpl never.
Arguments copy_user_path : simpl never.
Arguments join_paths : simpl never.

(** ** Behaviour of the prefix test *)

Lemma str_has_prefix_loop_spec fuel i s p q :
  0 ∉ p -> (i <= length p)%nat ->
  str_has_prefix_loop fuel i s (p ++ q) (Z.of_nat (length p)) = true <->
  (length p - i < fuel)%nat /\ drop i p `prefix_of` drop i s.
Proof.
  intros Hp. revert i. induction fuel as [|fuel IH]; intros i Hi; simpl.
  { split; [done|]. lia. }
  destruct (Z.leb_spec (Z.of_nat (length p)) (Z.of_nat i)) as [Hle|Hlt].
  { split; [|done]. intros _. split; [lia|]. rewrite drop_ge by lia. apply prefix_nil. }
  rewrite rd_app_l by lia.
  assert (p !! i = Some (rd p i)) as Hpi by (apply lookup_rd; lia).
  rewrite (drop_S p _ i Hpi).
  destruct (Z.eqb_spec (rd s i) (rd p i)) as [Heq|Hne]; simpl.
  - assert (rd p i <> 0) by (intros E; apply Hp; rewrite <- E; by eapply list_elem_of_lookup_2).
    assert (i < length s)%nat by (destruct (decide (i < length s)%nat); [done|];
      rewrite rd_overflow in Heq by lia; congruence).
    rewrite (drop_S s (rd s i) i) by (by apply lookup_rd).
    rewrite IH by lia. rewrite Heq. split; intros [H1 H2]; (split; [lia|]).
    + by apply prefix_cons.
    + by apply prefix_cons_inv_2 in H2.
  - split; [done|]. intros [_ H].
    destruct (decide (i < length s)%nat).
    + rewrite (drop_S s (rd s i) i) in H by (by apply lookup_rd).
      apply prefix_cons_inv_1 in H. congruence.
    + rewrite (drop_ge s) in H by lia. by apply prefix_nil_not in H.
Qed.

(** [str_has_prefix] on a literal: the literal is shorter than [MAX_PREFIX_LEN]
    and the buffer starts with it. *)
Lemma str_has_prefix_spec s p :
  0 ∉ p ->
  str_has_prefix s (p ++ [0]) (Z.of_nat (length p)) =
  bool_decide (length p < MAX_PREFIX_LEN)%nat && starts_with p (cstr s).
Proof.
  intros Hp. apply eq_true_iff_eq. unfold str_has_prefix, starts_with.
  rewrite str_has_prefix_loop_spec by (done || lia).
  rewrite andb_true_iff, !bool_decide_eq_true, <- prefix_cstr by done.
  by rewrite Nat.sub_0_r, !drop_0.
Qed.

(** Literals have no NUL inside; decided by evaluation. *)
Ltac no_nul := apply (bool_decide_unpack _); vm_compute; exact I.

Lemma str_has_prefix_lit path (s : string) :
  0 ∉ str s ->
  str_has_prefix path (lit s) (lit_len s) =
  bool_decide (length (str s) < MAX_PREFIX_LEN)%nat && starts_with (str s) (cstr path).
Proof.
  intros Hs. rewrite <- str_has_prefix_spec by done. unfold lit_len, lit.
  f_equal. rewrite length_app. simpl. lia.
Qed.

(** A literal shorter than [MAX_PREFIX_LEN] is matched as a plain prefix. *)
Lemma str_has_prefix_short path (s : string) :
  0 ∉ str s -> (length (str s) < MAX_PREFIX_LEN)%nat ->
  str_has_prefix path (lit s) (lit_len s) = starts_with (str s) (cstr path).
Proof. intros. by rewrite str_has_prefix_lit, bool_decide_eq_true_2. Qed.

(** One of [MAX_PREFIX_LEN] bytes or more is never matched. *)
Lemma str_has_prefix_long path (s : string) :
  0 ∉ str s -> (MAX_PREFIX_LEN <= length (str s))%nat ->
  str_has_prefix path (lit s) (lit_len s) = false.
Proof. intros. rewrite str_has_prefix_lit, bool_decide_eq_false_2; [done|lia|done]. Qed.

Lemma if_true_orb (a b : bool) : (if a then true else b) = a || b.
Proof. by destruct a. Qed.

Ltac short_prefix :=
  repeat (rewrite str_has_prefix_short; [|no_nul|vm_compute; lia]).

(** The directories whose files the probe ignores. *)
Definition noise_prefixes : list string :=
  ["/proc/"; "/sys/"; "/dev/pts/"; "/dev/shm/"; "/run/"]%string.

Definition starts_with_one_of (ps : list string) (s : list Z) : bool :=
  existsb (fun p => starts_with (str p) s) ps.

Lemma is_noise_path_eq path :
  is_noise_path (Some path) = starts_with_one_of noise_prefixes (cstr path).
Proof.
  unfold is_noise_path, starts_with_one_of, noise_prefixes. short_prefix.
  rewrite !if_true_orb. simpl. by rewrite orb_false_r.
Qed.

Lemma path_is_systemd_private_tmp_noise_eq path :
  path_is_systemd_private_tmp_noise (Some path) =
  starts_with_one_of ["/tmp/systemd-private-"; "/var/tmp/systemd-private-"]%string
    (cstr path).
Proof.
  unfold path_is_systemd_private_tmp_noise, starts_with_one_of. short_prefix.
  rewrite !if_true_orb. simpl. by rewrite orb_false_r.
Qed.

(** Prefixes through a pointer moved past a first prefix. *)
Lemma starts_with_spec p s : starts_with p s = true <-> exists t, s = p ++ t.
Proof. unfold starts_with. apply bool_decide_eq_true. Qed.

Lemma cstr_app p t : 0 ∉ p -> cstr (p ++ t) = p ++ cstr t.
Proof.
  induction p as [|c p IH]; simpl; intros Hp; [done|].
  apply not_elem_of_cons in Hp as [Hc Hp].
  destruct (Z.eqb_spec c 0); [congruence|]. by rewrite IH.
Qed.

Lemma starts_with_drop p q path :
  0 ∉ p -> starts_with p (cstr path) = true ->
  starts_with q (cstr (drop (length p) path)) = starts_with (p ++ q) (cstr path).
Proof.
  intros Hp Hs. unfold starts_with in Hs. apply bool_decide_eq_true in Hs.
  apply prefix_cstr in Hs; [|done]. destruct Hs as [t ->].
  rewrite drop_app_length, cstr_app by done. unfold starts_with.
  apply bool_decide_ext. split; [apply prefix_app|apply prefix_app_inv].
Qed.

(** The container-runtime directories the probe filters. *)
Definition overlay_prefixes : list string :=
  ["/var/lib/buildkit/runc-overlayfs/"; "/var/lib/docker/overlay2/";
   "/var/lib/containers/storage/overlay/"]%string.

Lemma starts_with_app_false p q s :
  starts_with p s = false -> starts_with (p ++ q) s = false.
Proof.
  unfold starts_with. rewrite !bool_decide_eq_false. intros Hn [t ->]. apply Hn.
  rewrite <- app_assoc. by exists (q ++ t).
Qed.

Lemma path_is_runtime_overlay_noise_eq path :
  path_is_runtime_overlay_noise (Some path) =
  starts_with_one_of overlay_prefixes (cstr path).
Proof.
  unfold path_is_runtime_overlay_noise, starts_with_one_of, overlay_prefixes.
  rewrite (str_has_prefix_long _ "containerd/io.containerd.snapshotter"%string)
    by (first [no_nul|vm_compute; lia]).
  short_prefix. rewrite !if_true_orb. simpl existsb. rewrite !orb_false_r.
  change (Z.to_nat (lit_len "/var/lib/")) with (length (str "/var/lib/")).
  change (str "/var/lib/buildkit/runc-overlayfs/")
    with (str "/var/lib/" ++ str "buildkit/runc-overlayfs/").
  change (str "/var/lib/docker/overlay2/") with (str "/var/lib/" ++ str "docker/overlay2/").
  change (str "/var/lib/containers/storage/overlay/")
    with (str "/var/lib/" ++ str "containers/storage/overlay/").
  destruct (starts_with (str "/var/lib/") (cstr path)) eqn:E; simpl negb; cbv iota.
  - rewrite !starts_with_drop by (done || no_nul). done.
  - by rewrite !(starts_with_app_false (str "/var/lib/")).
Qed.

(** ** Behaviour of the shared-object test *)

Lemma shared_object_loop_spec fuel i path :
  (i <= length (cstr path))%nat ->
  shared_object_loop fuel i path = true <->
  exists j, (i <= j < i + fuel)%nat /\ (j < length (cstr path))%nat /\
    rd path j = 46 /\ rd path (j + 1) = 115 /\ rd path (j + 2) = 111 /\
    (rd path (j + 3) = 0 \/ rd path (j + 3) = 46).
Proof.
  revert i. induction fuel as [|fuel IH]; intros i Hi; simpl.
  { split; [done|]. intros (j & ? & _). lia. }
  destruct (Z.eqb_spec (rd path i) 0) as [H0|H0].
  { split; [done|]. intros (j & Hj & Hlt & _).
    destruct (decide (i < length (cstr path))%nat) as [Hl|Hl]; [|lia].
    by apply rd_cstr_ne in Hl. }
  assert (i < length (cstr path))%nat as Hlt.
  { destruct (decide (i = length (cstr path))) as [->|]; [|lia].
    by rewrite rd_cstr_end in H0. }
  match goal with |- (if ?b then _ else _) = true <-> _ => destruct b eqn:Eb end.
  - split; [|done]. intros _. exists i. rewrite !andb_true_iff, orb_true_iff, !Z.eqb_eq in Eb.
    split; [lia|]. tauto.
  - rewrite IH by lia. split; intros (j & Hj & Hrest).
    + exists j. split; [lia|done].
    + destruct (decide (j = i)) as [->|]; [|exists j; split; [lia|done]].
      exfalso. destruct Hrest as (_ & H1 & H2 & H3 & H4).
      rewrite H1, H2, H3 in Eb. simpl in Eb.
      destruct H4 as [H4|H4]; rewrite H4 in Eb; discriminate.
Qed.

(** In terms of the C string: it has a component [.so] that ends it or is
    followed by a dot. *)
Lemma path_looks_like_shared_object_spec path :
  length path = MAX_PATH_SIZE -> 0 ∈ path ->
  path_looks_like_shared_object path = true <->
  exists a b, cstr path = a ++ str ".so" ++ b /\ (b = [] \/ rd b 0 = 46).
Proof.
  intros Hlen Hnul. unfold path_looks_like_shared_object.
  rewrite shared_object_loop_spec by lia.
  pose proof (cstr_lt path Hnul) as Hlt. rewrite Hlen in Hlt.
  split.
  - intros (j & _ & Hj & H0 & H1 & H2 & H3).
    rewrite Nat.add_1_r in H1. rewrite (Nat.add_succ_r j 1), Nat.add_1_r in H2.
    assert (S j < length (cstr path))%nat as Hj1 by (apply cstr_next; [done|lia]).
    assert (S (S j) < length (cstr path))%nat as Hj2 by (apply cstr_next; [done|lia]).
    exists (take j (cstr path)), (drop (S (S (S j))) (cstr path)). split.
    + rewrite <- (take_drop j (cstr path)) at 1. f_equal.
      rewrite !drop_rd by done. rewrite !rd_cstr, H0, H1, H2 by done. done.
    + destruct (decide (S (S (S j)) < length (cstr path))%nat) as [Hj3|Hj3].
      * right. rewrite rd_drop, Nat.add_0_r, rd_cstr by done.
        replace (j + 3)%nat with (S (S (S j))) in H3 by lia.
        destruct H3 as [H3|H3]; [|done]. by apply rd_cstr_ne in Hj3.
      * left. apply drop_ge. lia.
  - intros (a & b & Hab & Hb). exists (length a).
    assert (length (cstr path) = length a + (3 + length b))%nat as Hl
      by (rewrite Hab, !length_app; done).
    assert (forall i, (i < 3 + length b)%nat ->
      rd path (length a + i) = rd (str ".so" ++ b) i) as Hrd.
    { intros i Hi. rewrite <- rd_cstr by lia. rewrite Hab, rd_app_r by lia. f_equal. lia. }
    unfold MAX_PATH_SIZE in *.
    split; [lia|]. split; [lia|].
    rewrite <- (Nat.add_0_r (length a)) at 1. rewrite !Hrd by lia.
    repeat (split; [done|]).
    destruct Hb as [->|Hb]; [left|].
    + rewrite <- (rd_cstr_end path). f_equal. rewrite Hl. simpl. lia.
    + right. destruct b as [|c b]; [done|]. by rewrite Hrd by (simpl; lia).
Qed.

(** ** Behaviour of the join *)

(** The reference: base, a slash unless the base ends with one, relative; cut
    to the bytes a buffer of [n + 1] has room for. *)
Definition join_ref (n : nat) (base relative : list Z) : list Z :=
  take n (base ++ (if bool_decide (last base = Some 47) then [] else [47]) ++ relative).

Section Join.
Context (size : Z) (dst : list Z).
Hypothesis size_range : 1 < size <= Z.of_nat MAX_PATH_SIZE.
Hypothesis dst_room : size <= Z.of_nat (length dst).
Let n : nat := Z.to_nat (size - 1).

Lemma size_s32 : s32 size = size.
Proof. unfold MAX_PATH_SIZE in *. apply s32_small. lia. Qed.

Lemma join_base_spec fuel i p base :
  (n < fuel + length p)%nat -> (length p <= n)%nat ->
  join_base fuel i (length p) size base (overlay dst p) =
  let t := cstr (drop i base) in
  if decide (length p + length t < n)%nat
  then inl ((length p + length t)%nat, overlay dst (p ++ t))
  else inr (overlay dst (take n (p ++ t) ++ [0])).
Proof.
  revert i p. induction fuel as [|fuel IH]; intros i p Hf Hp; [lia|].
  simpl. rewrite size_s32. destruct (Z.leb_spec (size - 1) (Z.of_nat (length p))).
  { rewrite decide_False by lia. rewrite overlay_snoc by lia.
    by rewrite take_app_length' by lia. }
  destruct (decide (i < length base)%nat) as [Hi|Hi].
  - rewrite (drop_rd base i Hi). simpl.
    destruct (Z.eqb_spec (rd base i) 0) as [E|E]; simpl.
    { rewrite decide_True by lia. by rewrite Nat.add_0_r, app_nil_r. }
    rewrite overlay_snoc by lia.
    replace (S (length p)) with (length (p ++ [rd base i])) by (rewrite length_app; simpl; lia).
    rewrite IH by (rewrite length_app; simpl; lia). simpl.
    rewrite length_app, <- !app_assoc. simpl.
    replace (length p + 1 + length (cstr (drop (S i) base)))%nat
      with (length p + S (length (cstr (drop (S i) base))))%nat by lia. done.
  - rewrite rd_overflow, drop_ge by lia. simpl.
    rewrite decide_True by lia. by rewrite Nat.add_0_r, app_nil_r.
Qed.

Lemma join_relative_spec fuel i p relative :
  (n < fuel + length p)%nat -> (length p <= n)%nat ->
  join_relative fuel i (length p) size relative (overlay dst p) =
  let t := take n (p ++ cstr (drop i relative)) in (length t, overlay dst t).
Proof.
  revert i p. induction fuel as [|fuel IH]; intros i p Hf Hp; [lia|].
  simpl. rewrite size_s32. destruct (Z.leb_spec (size - 1) (Z.of_nat (length p))).
  { by rewrite take_app_length' by lia. }
  destruct (decide (i < length relative)%nat) as [Hi|Hi].
  - rewrite (drop_rd relative i Hi). simpl.
    destruct (Z.eqb_spec (rd relative i) 0) as [E|E]; simpl.
    { by rewrite app_nil_r, take_ge by lia. }
    rewrite overlay_snoc by lia.
    replace (S (length p)) with (length (p ++ [rd relative i]))
      by (rewrite length_app; simpl; lia).
    rewrite IH by (rewrite length_app; simpl; lia). by rewrite <- app_assoc.
  - rewrite rd_overflow, (drop_ge relative) by lia. simpl.
    by rewrite app_nil_r, take_ge by lia.
Qed.

Lemma join_paths_eq base relative :
  join_paths (Some dst) size (Some base) (Some relative) =
  if decide (cstr base = []) then (-1, Some dst)
  else (0, Some (overlay dst (join_ref n (cstr base) (cstr relative) ++ [0]))).
Proof.
  unfold join_paths. rewrite (proj2 (Z.eqb_neq size 0)) by lia.
  rewrite (join_base_spec MAX_PATH_SIZE 0 []) by (cbn [length]; lia).
  cbn [length app Nat.add]. rewrite drop_0.
  unfold join_ref. set (b := cstr base). set (r := cstr relative).
  cbv zeta.
  case_decide as Hb.
  2:{ rewrite decide_False by (intros E; rewrite E in Hb; cbn [length] in Hb; lia).
      do 3 f_equal. rewrite take_app_le by lia. done. }
  destruct (decide (b = [])) as [Eb|Eb]; [by rewrite Eb|].
  assert (length b <> 0)%nat as Hb0 by (by destruct b).
  rewrite (proj2 (Nat.eqb_neq (length b) 0)) by done.
  assert (rd (overlay dst b) (length b - 1) = rd b (length b - 1)) as Hlast
    by (unfold overlay; apply rd_app_l; lia).
  assert (last b = Some (rd b (length b - 1))) as Hl.
  { rewrite last_lookup, <- Nat.sub_1_r. apply lookup_rd. lia. }
  rewrite Hlast, Hl, size_s32. rewrite (proj2 (Z.ltb_lt _ _)) by lia.
  rewrite andb_true_r.
  destruct (Z.eqb_spec (rd b (length b - 1)) 47) as [E|E]; simpl negb; cbv iota.
  - rewrite bool_decide_eq_true_2 by congruence.
    rewrite join_relative_spec by lia. rewrite drop_0. fold r. cbv beta iota zeta.
    rewrite overlay_snoc by (rewrite length_take; lia). done.
  - rewrite bool_decide_eq_false_2 by congruence. rewrite overlay_snoc by lia.
    replace (S (length b)) with (length (b ++ [47])) by (rewrite length_app; simpl; lia).
    rewrite join_relative_spec by (rewrite length_app; cbn [length]; lia).
    rewrite drop_0. fold r. cbv beta iota zeta.
    rewrite overlay_snoc by (rewrite length_take; lia). by rewrite <- app_assoc.
Qed.
End Join.

(** ** Theorems *)

(** The prefix test decides whether the C string starts with the prefix,
    for every prefix shorter than [MAX_PREFIX_LEN]; a prefix of 36 bytes or
    more it never finds. *)
Theorem str_has_prefix_correct path p :
  0 ∉ p ->
  let r := str_has_prefix path (p ++ [0]) (Z.of_nat (length p)) in
  if decide (length p < MAX_PREFIX_LEN)%nat
  then r = true <-> exists t, cstr path = p ++ t else r = false.
Proof.
  intros Hp. cbv zeta. rewrite str_has_prefix_spec by done. case_decide as E.
  - rewrite bool_decide_eq_true_2 by done. apply starts_with_spec.
  - by rewrite bool_decide_eq_false_2.
Qed.

(** The path filters, as the sets of directories they exclude: /proc, /sys,
    /dev/pts, /dev/shm and /run for every event; the private temporary
    directories of systemd for path events; the overlay directories of buildkit,
    docker and podman for descriptor events.  The snapshot directories of
    containerd, which the last filter lists too, pass it. *)
Theorem path_filters_exact path :
  is_noise_path (Some path) =
    starts_with_one_of ["/proc/"; "/sys/"; "/dev/pts/"; "/dev/shm/"; "/run/"]%string
      (cstr path) /\
  path_is_systemd_private_tmp_noise (Some path) =
    starts_with_one_of ["/tmp/systemd-private-"; "/var/tmp/systemd-private-"]%string
      (cstr path) /\
  path_is_runtime_overlay_noise (Some path) =
    starts_with_one_of ["/var/lib/buildkit/runc-overlayfs/"; "/var/lib/docker/overlay2/";
      "/var/lib/containers/storage/overlay/"]%string (cstr path).
Proof.
  split; [apply is_noise_path_eq|]. split; [apply path_is_systemd_private_tmp_noise_eq|].
  apply path_is_runtime_overlay_noise_eq.
Qed.

(** No path below the snapshot directories of containerd is recognised as
    overlay noise, although the filter compares with their prefix: the prefix
    has [MAX_PREFIX_LEN] bytes and the loop of [str_has_prefix] ends before it
    can succeed. *)
Theorem containerd_overlay_not_filtered rest :
  path_is_runtime_overlay_noise
    (Some (str "/var/lib/containerd/io.containerd.snapshotter" ++ rest)) = false.
Proof.
  rewrite path_is_runtime_overlay_noise_eq, cstr_app by no_nul.
  unfold starts_with_one_of, overlay_prefixes, starts_with. cbn [existsb].
  rewrite !bool_decide_eq_false_2; [done|..]; intros [t Ht]; vm_compute in Ht; congruence.
Qed.

(** A path counts as a shared object iff its C string contains ".so"
    followed by its end or by another dot. *)
Theorem shared_object_correct path :
  length path = MAX_PATH_SIZE -> 0 ∈ path ->
  path_looks_like_shared_object path = true <->
  exists a b, cstr path = a ++ str ".so" ++ b /\ (b = [] \/ rd b 0 = 46).
Proof. apply path_looks_like_shared_object_spec. Qed.

Lemma shared_object_correct_witness :
  exists a b, str "/usr/lib/libc.so.6" = a ++ str ".so" ++ b /\ (b = [] \/ rd b 0 = 46).
Proof.
  destruct (shared_object_correct (str "/usr/lib/libc.so.6" ++ zeros 238))
    as [H _]; [reflexivity|apply (bool_decide_unpack _); vm_compute; exact I|].
  apply H. vm_compute. reflexivity.
Defined.

Lemma str_has_prefix_correct_witness :
  str_has_prefix (str "/proc/self") (str "/proc/" ++ [0]) 6 = true <->
  exists t, str "/proc/self" = str "/proc/" ++ t.
Proof.
  exact (str_has_prefix_correct (str "/proc/self") (str "/proc/")
    ltac:(apply (bool_decide_unpack _); vm_compute; exact I)).
Defined.

(** Joining a directory and a relative path puts the directory, a slash
    unless it ends with one, and the relative path into the buffer, cut to what
    the buffer holds and terminated inside it; an empty directory is refused
    and leaves the buffer alone. *)
Theorem join_paths_correct size dst base relative :
  1 < size <= Z.of_nat MAX_PATH_SIZE -> size <= Z.of_nat (length dst) ->
  join_paths (Some dst) size (Some base) (Some relative) =
    (if decide (cstr base = []) then (-1, Some dst)
     else (0, Some (overlay dst
       (join_ref (Z.to_nat (size - 1)) (cstr base) (cstr relative) ++ [0])))) /\
  Z.of_nat (length (join_ref (Z.to_nat (size - 1)) (cstr base) (cstr relative) ++ [0]))
    <= size.
Proof.
  intros Hs Hd. split; [by apply join_paths_eq|].
  unfold join_ref. rewrite length_app, length_take. simpl. lia.
Qed.

Lemma join_paths_correct_witness :
  join_paths (Some (zeros 16)) 16 (Some (str "/etc" ++ [0])) (Some (str "ssl/certs.pem" ++ [0]))
  = (0, Some (str "/etc/ssl/certs." ++ [0])).
Proof.
  destruct (join_paths_correct 16 (zeros 16) (str "/etc" ++ [0]) (str "ssl/certs.pem" ++ [0]))
    as [H _]; [vm_compute; split; congruence|vm_compute; congruence|].
  exact H.
Defined.
