(* ===== verification/Fileop.v ===== *)
(** * File-operation probe: data, maps and handlers

    [fileop/fileop.bpf.c]: the structures, the BPF maps and the tracepoint
    handlers.  A handler is a program on the state the probe's maps form; a
    write through a pointer into a map is [map_store] on that entry. *)

From S2P Require Import Prelude Helpers FileopPaths.

(** ** Constants *)

Definition MAX_ENTRIES : Z := 16384.
Definition RING_BUFFER_SIZE : Z := 8 * 1024 * 1024.
Definition PROT_WRITE : Z := 2.

Inductive file_op_type :=
  | FILE_OP_OPEN
  | FILE_OP_WRITE
  | FILE_OP_DELETE
  | FILE_OP_RENAME
  | FILE_OP_MMAP_READ
  | FILE_OP_MMAP_WRITE
  | FILE_OP_HARDLINK
  | FILE_OP_SYMLINK.

Definition file_op_code (op : file_op_type) : Z :=
  match op with
  | FILE_OP_OPEN => 1
  | FILE_OP_WRITE => 2
  | FILE_OP_DELETE => 3
  | FILE_OP_RENAME => 4
  | FILE_OP_MMAP_READ => 5
  | FILE_OP_MMAP_WRITE => 6
  | FILE_OP_HARDLINK => 7
  | FILE_OP_SYMLINK => 8
  end.

Inductive fd_seen_flag := FD_SEEN_WRITE | FD_SEEN_MMAP_READ | FD_SEEN_MMAP_WRITE.

Definition fd_seen_code (f : fd_seen_flag) : Z :=
  match f with
  | FD_SEEN_WRITE => Z.shiftl 1 0
  | FD_SEEN_MMAP_READ => Z.shiftl 1 1
  | FD_SEEN_MMAP_WRITE => Z.shiftl 1 2
  end.

(** ** Tracepoint contexts

    Pointers are user addresses. *)

Record enter_open_ctx := EnterOpenCtx {
  eo_common : Z; eo_syscall_nr : Z;
  eo_filename : Z; eo_flags : Z; eo_mode : Z }.

Record enter_openat_ctx := EnterOpenatCtx {
  eoa_common : Z; eoa_syscall_nr : Z;
  eoa_dfd : Z; eoa_filename : Z; eoa_flags : Z; eoa_mode : Z }.

Record enter_openat2_ctx := EnterOpenat2Ctx {
  eo2_common : Z; eo2_syscall_nr : Z;
  eo2_dfd : Z; eo2_filename : Z; eo2_how : Z; eo2_usize : Z }.

Record open_how := OpenHow { how_flags : Z; how_mode : Z; how_resolve : Z }.

Record exit_ctx := ExitCtx { ex_common : Z; ex_syscall_nr : Z; ex_ret : Z }.

Record enter_rw_ctx := EnterRwCtx {
  erw_common : Z; erw_syscall_nr : Z;
  erw_fd : Z; erw_buf : Z; erw_count : Z }.

Record enter_mmap_ctx := EnterMmapCtx {
  emm_common : Z; emm_syscall_nr : Z;
  emm_addr : Z; emm_len : Z; emm_prot : Z; emm_flags : Z; emm_fd : Z; emm_off : Z }.

Record enter_close_ctx := EnterCloseCtx {
  ecl_common : Z; ecl_syscall_nr : Z; ecl_fd : Z }.

Record enter_unlinkat_ctx := EnterUnlinkatCtx {
  eul_common : Z; eul_syscall_nr : Z;
  eul_dfd : Z; eul_pathname : Z; eul_flag : Z }.

Record enter_rename_ctx := EnterRenameCtx {
  ern_common : Z; ern_syscall_nr : Z; ern_oldname : Z; ern_newname : Z }.

Record enter_renameat_ctx := EnterRenameatCtx {
  era_common : Z; era_syscall_nr : Z;
  era_olddfd : Z; era_oldname : Z; era_newdfd : Z; era_newname : Z }.

Record enter_renameat2_ctx := EnterRenameat2Ctx {
  er2_common : Z; er2_syscall_nr : Z;
  er2_olddfd : Z; er2_oldname : Z; er2_newdfd : Z; er2_newname : Z; er2_flags : Z }.

Record enter_link_ctx := EnterLinkCtx {
  eln_common : Z; eln_syscall_nr : Z; eln_oldname : Z; eln_newname : Z }.

Record enter_linkat_ctx := EnterLinkatCtx {
  ela_common : Z; ela_syscall_nr : Z;
  ela_olddfd : Z; ela_oldname : Z; ela_newdfd : Z; ela_newname : Z; ela_flags : Z }.

Record enter_symlink_ctx := EnterSymlinkCtx {
  esl_common : Z; esl_syscall_nr : Z; esl_oldname : Z; esl_newname : Z }.

Record enter_symlinkat_ctx := EnterSymlinkatCtx {
  esa_common : Z; esa_syscall_nr : Z;
  esa_oldname : Z; esa_newdfd : Z; esa_newname : Z }.

(** ** Map keys and values, events *)

Record fd_key := FdKey { fk_tgid : Z; fk_fd : Z }.

#[export] Instance fd_key_eq_dec : EqDecision fd_key.
Proof. solve_decision. Defined.

#[export] Instance fd_key_countable : Countable fd_key.
Proof.
  apply (inj_countable' (fun k => (fk_tgid k, fk_fd k)) (fun p => FdKey p.1 p.2)).
  by intros [].
Defined.

Record path_value := PathValue {
  pv_path : list Z;
  pv_write_bytes : Z;
  pv_open_flags : Z;
  pv_seen_flags : Z;
}.

Record event := Event {
  ev_timestamp_ns : Z;
  ev_pid_tgid : Z;
  ev_uid_gid : Z;
  ev_cgroup_id : Z;
  ev_bytes : Z;
  ev_flags : Z;
  ev_op : Z;
  ev_comm : list Z;
  ev_path : list Z;
  ev_new_path : list Z;
}.

Definition sizeof_path_value : Z := 280.
Definition sizeof_event : Z := 584.

(** [__builtin_memset(_, 0, sizeof)] of a [struct path_value]. *)
Definition path_value_zero : path_value := PathValue (zeros MAX_PATH_SIZE) 0 0 0.

Definition set_path (p : list Z) (v : path_value) : path_value :=
  PathValue p (pv_write_bytes v) (pv_open_flags v) (pv_seen_flags v).
Definition set_open_flags (f : Z) (v : path_value) : path_value :=
  PathValue (pv_path v) (pv_write_bytes v) f (pv_seen_flags v).
Definition set_write_bytes (n : Z) (v : path_value) : path_value :=
  PathValue (pv_path v) n (pv_open_flags v) (pv_seen_flags v).

Definition inflight_open_def : map_def :=
  MapDef BPF_MAP_TYPE_HASH MAX_ENTRIES 8 sizeof_path_value.
Definition inflight_write_def : map_def := MapDef BPF_MAP_TYPE_HASH MAX_ENTRIES 8 4.
Definition path_heap_def : map_def := MapDef BPF_MAP_TYPE_PERCPU_ARRAY 2 4 sizeof_path_value.
Definition fd_paths_def : map_def :=
  MapDef BPF_MAP_TYPE_LRU_HASH MAX_ENTRIES 8 sizeof_path_value.
Definition events_def : map_def := MapDef BPF_MAP_TYPE_RINGBUF RING_BUFFER_SIZE 0 0.
Definition fake_event_map_def : map_def := MapDef BPF_MAP_TYPE_ARRAY 1 4 sizeof_event.

(** ** Event filter and seen flags *)

Definition is_op (op : Z) (o : file_op_type) : bool := op =? file_op_code o.

Definition should_drop_fd_event (path : option path_value) (op : Z) : bool :=
  match path with
  | None => true
  | Some path =>
      if (is_op op FILE_OP_MMAP_READ || is_op op FILE_OP_MMAP_WRITE)
         && path_looks_like_shared_object (pv_path path) then true
      else if path_is_runtime_overlay_noise (Some (pv_path path)) then true
      else false
  end.

Definition has_seen_flag (path : option path_value) (flag : fd_seen_flag) : bool :=
  match path with
  | None => false
  | Some path => negb (Z.land (pv_seen_flags path) (fd_seen_code flag) =? 0)
  end.

Definition set_seen_flag (path : path_value) (flag : fd_seen_flag) : path_value :=
  PathValue (pv_path path) (pv_write_bytes path) (pv_open_flags path)
    (u8 (Z.lor (pv_seen_flags path) (fd_seen_code flag))).

Arguments should_drop_fd_event : simpl never.
Arguments has_seen_flag : simpl never.
Arguments set_seen_flag : simpl never.
Arguments file_op_code : simpl never.
Arguments fd_seen_code : simpl never.

(** ** The probe *)

Section Probe.
Context {MO : bpf_map Z path_value} {MW : bpf_map Z Z} {MH : bpf_map Z path_value}.
Context {MF : bpf_map fd_key path_value} {RB : bpf_ringbuf event}.

Record state := State {
  st_inflight_open : MO;
  st_inflight_write : MW;
  st_path_heap : MH;
  st_fd_paths : MF;
  st_events : RB;
}.

Definition inflight_open : field state MO :=
  Field st_inflight_open (fun m s => State m (st_inflight_write s) (st_path_heap s)
    (st_fd_paths s) (st_events s)).
Definition inflight_write : field state MW :=
  Field st_inflight_write (fun m s => State (st_inflight_open s) m (st_path_heap s)
    (st_fd_paths s) (st_events s)).
Definition path_heap : field state MH :=
  Field st_path_heap (fun m s => State (st_inflight_open s) (st_inflight_write s) m
    (st_fd_paths s) (st_events s)).
Definition fd_paths : field state MF :=
  Field st_fd_paths (fun m s => State (st_inflight_open s) (st_inflight_write s)
    (st_path_heap s) m (st_events s)).
Definition events : field state RB :=
  Field st_events (fun r s => State (st_inflight_open s) (st_inflight_write s)
    (st_path_heap s) (st_fd_paths s) r).

Implicit Types k : kenv.

(** The tgid half of [bpf_get_current_pid_tgid()]. *)
Definition tgid_of (pid_tgid : Z) : Z := u32 (Z.shiftr pid_tgid 32).

(** Yields the return code and the destination afterwards. *)
Definition resolve_dirfd_path k (dst : list Z) (size tgid dirfd src : Z)
    : prog state (Z * list Z) :=
  if src =? 0 then mret (-1, dst)
  else
    let '(r, dst) := copy_user_path k dst size src in
    if negb (r =? 0) then mret (-1, dst)
    else if is_absolute_path (Some dst) || (dirfd =? AT_FDCWD) || (dirfd <? 0)
    then mret (0, dst)
    else
      relative ← bpf_map_lookup_elem path_heap 1;
      match relative with
      | None => mret (0, dst)
      | Some relative =>
          let relative := set_path dst relative in
          map_store path_heap 1 relative;;
          base ← bpf_map_lookup_elem fd_paths (FdKey tgid (u32 dirfd));
          match base with
          | None => mret (0, pv_path relative)
          | Some base =>
              let '(r, dst) :=
                join_paths (Some dst) size (Some (pv_path base)) (Some (pv_path relative)) in
              mret (r, default [] dst)
          end
      end.

Definition submit_fd_event k (path : option path_value) (op bytes : Z) : prog state Z :=
  if should_drop_fd_event path op then mret 0
  else
    evt ← bpf_ringbuf_reserve events sizeof_event 0;
    match evt, path with
    | Some _, Some path =>
        bpf_ringbuf_submit events {|
          ev_timestamp_ns := bpf_ktime_get_ns k;
          ev_pid_tgid := bpf_get_current_pid_tgid k;
          ev_uid_gid := bpf_get_current_uid_gid k;
          ev_cgroup_id := bpf_get_current_cgroup_id k;
          ev_bytes := bytes;
          ev_flags := pv_open_flags path;
          ev_op := op;
          ev_comm := bpf_get_current_comm k TASK_COMM_LEN;
          ev_path := pv_path path;
          ev_new_path := zeros MAX_PATH_SIZE |} 0;;
        mret 0
    | _, _ => mret 0
    end.

Definition submit_open_event k (path : option path_value) : prog state Z :=
  submit_fd_event k path (file_op_code FILE_OP_OPEN) 0.

(** The sample after the [memset] and the header assignments of the path
    events, with its two path buffers. *)
Definition path_event k (op : file_op_type) (path new_path : list Z) : event := {|
  ev_timestamp_ns := bpf_ktime_get_ns k;
  ev_pid_tgid := bpf_get_current_pid_tgid k;
  ev_uid_gid := bpf_get_current_uid_gid k;
  ev_cgroup_id := bpf_get_current_cgroup_id k;
  ev_bytes := 0;
  ev_flags := 0;
  ev_op := file_op_code op;
  ev_comm := bpf_get_current_comm k TASK_COMM_LEN;
  ev_path := path;
  ev_new_path := new_path |}.

Definition zero_path : list Z := zeros MAX_PATH_SIZE.
Definition sizeof_path : Z := Z.of_nat MAX_PATH_SIZE.

Definition submit_delete_path k (path dirfd : Z) : prog state Z :=
  let tgid := tgid_of (bpf_get_current_pid_tgid k) in
  evt ← bpf_ringbuf_reserve events sizeof_event 0;
  match evt with
  | None => mret 0
  | Some _ =>
      '(r, p) ← resolve_dirfd_path k zero_path sizeof_path tgid dirfd path;
      let evt := path_event k FILE_OP_DELETE p zero_path in
      if negb (r =? 0) || is_noise_path (Some p) || path_is_systemd_private_tmp_noise (Some p)
      then bpf_ringbuf_discard events evt 0;; mret 0
      else bpf_ringbuf_submit events evt 0;; mret 0
  end.

Definition submit_rename_paths k (old_path old_dirfd new_path : Z) : prog state Z :=
  let tgid := tgid_of (bpf_get_current_pid_tgid k) in
  evt ← bpf_ringbuf_reserve events sizeof_event 0;
  match evt with
  | None => mret 0
  | Some _ =>
      '(r, p) ← resolve_dirfd_path k zero_path sizeof_path tgid old_dirfd old_path;
      if negb (r =? 0) || is_noise_path (Some p) || path_is_systemd_private_tmp_noise (Some p)
      then bpf_ringbuf_discard events (path_event k FILE_OP_RENAME p zero_path) 0;; mret 0
      else
        let '(r, np) :=
          if negb (new_path =? 0) then copy_user_path k zero_path sizeof_path new_path
          else (0, zero_path) in
        let evt := path_event k FILE_OP_RENAME p np in
        if negb (r =? 0) then bpf_ringbuf_discard events evt 0;; mret 0
        else bpf_ringbuf_submit events evt 0;; mret 0
  end.

Definition submit_hardlink_paths k (old_path old_dirfd new_path : Z) : prog state Z :=
  let tgid := tgid_of (bpf_get_current_pid_tgid k) in
  evt ← bpf_ringbuf_reserve events sizeof_event 0;
  match evt with
  | None => mret 0
  | Some _ =>
      '(r, p) ← resolve_dirfd_path k zero_path sizeof_path tgid old_dirfd old_path;
      if negb (r =? 0) || is_noise_path (Some p) || path_is_systemd_private_tmp_noise (Some p)
      then bpf_ringbuf_discard events (path_event k FILE_OP_HARDLINK p zero_path) 0;; mret 0
      else
        let '(r, np) :=
          if negb (new_path =? 0) then copy_user_path k zero_path sizeof_path new_path
          else (0, zero_path) in
        let evt := path_event k FILE_OP_HARDLINK p np in
        if negb (r =? 0) then bpf_ringbuf_discard events evt 0;; mret 0
        else bpf_ringbuf_submit events evt 0;; mret 0
  end.

Definition submit_symlink_paths k (old_path new_path new_dirfd : Z) : prog state Z :=
  let tgid := tgid_of (bpf_get_current_pid_tgid k) in
  evt ← bpf_ringbuf_reserve events sizeof_event 0;
  match evt with
  | None => mret 0
  | Some _ =>
      let '(r, p) := copy_user_path k zero_path sizeof_path old_path in
      if negb (r =? 0)
      then bpf_ringbuf_discard events (path_event k FILE_OP_SYMLINK p zero_path) 0;; mret 0
      else
        '(r, np) ← resolve_dirfd_path k zero_path sizeof_path tgid new_dirfd new_path;
        let evt := path_event k FILE_OP_SYMLINK p np in
        if negb (r =? 0) || is_noise_path (Some np)
           || path_is_systemd_private_tmp_noise (Some np)
        then bpf_ringbuf_discard events evt 0;; mret 0
        else bpf_ringbuf_submit events evt 0;; mret 0
  end.

Definition remember_open_path k (filename dirfd flags : Z) : prog state Z :=
  let pid_tgid := bpf_get_current_pid_tgid k in
  let tgid := tgid_of pid_tgid in
  path ← bpf_map_lookup_elem path_heap 0;
  match path with
  | None => mret 0
  | Some _ =>
      let path := path_value_zero in
      map_store path_heap 0 path;;
      '(r, p) ← resolve_dirfd_path k (pv_path path) sizeof_path tgid dirfd filename;
      let path := set_path p path in
      map_store path_heap 0 path;;
      if negb (r =? 0) then mret 0
      else if is_noise_path (Some (pv_path path)) then mret 0
      else
        let path := set_open_flags flags path in
        map_store path_heap 0 path;;
        bpf_map_update_elem inflight_open pid_tgid path BPF_ANY;;
        mret 0
  end.

(** [struct open_how] as it lies in memory. *)
Definition decode_open_how (bs : list Z) : open_how :=
  OpenHow (le_decode (take 8 bs)) (le_decode (take 8 (drop 8 bs)))
    (le_decode (take 8 (drop 16 bs))).

Definition read_openat2_flags k (ctx : enter_openat2_ctx) : Z :=
  if eo2_how ctx =? 0 then 0
  else
    let '(r, bs) := bpf_probe_read_user k 24 (eo2_how ctx) in
    if negb (r =? 0) then 0 else how_flags (decode_open_how bs).

Definition finalize_open_fd k (ctx : exit_ctx) : prog state Z :=
  let pid_tgid := bpf_get_current_pid_tgid k in
  path ← bpf_map_lookup_elem inflight_open pid_tgid;
  match path with
  | None => mret 0
  | Some path =>
      (if 0 <=? ex_ret ctx then
         let key := FdKey (tgid_of pid_tgid) (u32 (ex_ret ctx)) in
         bpf_map_update_elem fd_paths key path BPF_ANY;;
         submit_open_event k (Some path)
       else mret 0);;
      bpf_map_delete_elem inflight_open pid_tgid;;
      mret 0
  end.

(** ** Tracepoint handlers *)

Definition trace_enter_open k (ctx : enter_open_ctx) : prog state Z :=
  remember_open_path k (eo_filename ctx) AT_FDCWD (u64 (eo_flags ctx)).
Definition trace_enter_openat k (ctx : enter_openat_ctx) : prog state Z :=
  remember_open_path k (eoa_filename ctx) (eoa_dfd ctx) (u64 (eoa_flags ctx)).
Definition trace_enter_openat2 k (ctx : enter_openat2_ctx) : prog state Z :=
  remember_open_path k (eo2_filename ctx) (eo2_dfd ctx) (read_openat2_flags k ctx).
Definition trace_exit_open k (ctx : exit_ctx) : prog state Z := finalize_open_fd k ctx.
Definition trace_exit_openat k (ctx : exit_ctx) : prog state Z := finalize_open_fd k ctx.
Definition trace_exit_openat2 k (ctx : exit_ctx) : prog state Z := finalize_open_fd k ctx.

Definition trace_write k (ctx : enter_rw_ctx) : prog state Z :=
  let pid_tgid := bpf_get_current_pid_tgid k in
  let fd := u32 (erw_fd ctx) in
  if erw_count ctx =? 0 then mret 0
  else bpf_map_update_elem inflight_write pid_tgid fd BPF_ANY;; mret 0.

Definition trace_exit_write k (ctx : exit_ctx) : prog state Z :=
  let pid_tgid := bpf_get_current_pid_tgid k in
  fd ← bpf_map_lookup_elem inflight_write pid_tgid;
  match fd with
  | None => mret 0
  | Some fd =>
      (if 0 <? ex_ret ctx then
         let key := FdKey (tgid_of pid_tgid) fd in
         path ← bpf_map_lookup_elem fd_paths key;
         match path with
         | None => mret tt
         | Some path =>
             let path := set_write_bytes
               (u64 (pv_write_bytes path + u64 (ex_ret ctx))) path in
             map_store fd_paths key (set_seen_flag path FD_SEEN_WRITE)
         end
       else mret tt);;
      bpf_map_delete_elem inflight_write pid_tgid;;
      mret 0
  end.

Definition trace_mmap k (ctx : enter_mmap_ctx) : prog state Z :=
  let key := FdKey (tgid_of (bpf_get_current_pid_tgid k)) (u32 (emm_fd ctx)) in
  if s64 (emm_fd ctx) <? 0 then mret 0
  else
    path ← bpf_map_lookup_elem fd_paths key;
    match path with
    | None => mret 0
    | Some path =>
        path ← (if (Z.land (emm_prot ctx) PROT_WRITE =? 0)
                   && negb (has_seen_flag (Some path) FD_SEEN_MMAP_READ) then
                  let path := set_seen_flag path FD_SEEN_MMAP_READ in
                  map_store fd_paths key path;;
                  submit_fd_event k (Some path) (file_op_code FILE_OP_MMAP_READ) 0;;
                  mret path
                else mret path);
        (if negb (Z.land (emm_prot ctx) PROT_WRITE =? 0)
            && negb (has_seen_flag (Some path) FD_SEEN_MMAP_WRITE) then
           let path := set_seen_flag path FD_SEEN_MMAP_WRITE in
           map_store fd_paths key path;;
           submit_fd_event k (Some path) (file_op_code FILE_OP_MMAP_WRITE) 0
         else mret 0);;
        mret 0
    end.

Definition trace_close k (ctx : enter_close_ctx) : prog state Z :=
  let key := FdKey (tgid_of (bpf_get_current_pid_tgid k)) (ecl_fd ctx) in
  path ← bpf_map_lookup_elem fd_paths key;
  match path with
  | None => mret 0
  | Some path =>
      (if has_seen_flag (Some path) FD_SEEN_WRITE
       then submit_fd_event k (Some path) (file_op_code FILE_OP_WRITE) (pv_write_bytes path)
       else mret 0);;
      bpf_map_delete_elem fd_paths key;;
      mret 0
  end.

Definition trace_delete k (ctx : enter_unlinkat_ctx) : prog state Z :=
  submit_delete_path k (eul_pathname ctx) (eul_dfd ctx).
Definition trace_rename k (ctx : enter_rename_ctx) : prog state Z :=
  submit_rename_paths k (ern_oldname ctx) AT_FDCWD (ern_newname ctx).
Definition trace_renameat k (ctx : enter_renameat_ctx) : prog state Z :=
  submit_rename_paths k (era_oldname ctx) (era_olddfd ctx) (era_newname ctx).
Definition trace_renameat2 k (ctx : enter_renameat2_ctx) : prog state Z :=
  submit_rename_paths k (er2_oldname ctx) (er2_olddfd ctx) (er2_newname ctx).
Definition trace_link k (ctx : enter_link_ctx) : prog state Z :=
  submit_hardlink_paths k (eln_oldname ctx) AT_FDCWD (eln_newname ctx).
Definition trace_linkat k (ctx : enter_linkat_ctx) : prog state Z :=
  submit_hardlink_paths k (ela_oldname ctx) (ela_olddfd ctx) (ela_newname ctx).
Definition trace_symlink k (ctx : enter_symlink_ctx) : prog state Z :=
  submit_symlink_paths k (esl_oldname ctx) (esl_newname ctx) AT_FDCWD.
Definition trace_symlinkat k (ctx : enter_symlinkat_ctx) : prog state Z :=
  submit_symlink_paths k (esa_oldname ctx) (esa_newname ctx) (esa_newdfd ctx).

(** ** Calls: an invocation of one of the attached programs *)

Inductive call :=
  | SysEnterOpen (ctx : enter_open_ctx)
  | SysEnterOpenat (ctx : enter_openat_ctx)
  | SysEnterOpenat2 (ctx : enter_openat2_ctx)
  | SysExitOpen (ctx : exit_ctx)
  | SysExitOpenat (ctx : exit_ctx)
  | SysExitOpenat2 (ctx : exit_ctx)
  | SysEnterWrite (ctx : enter_rw_ctx)
  | SysExitWrite (ctx : exit_ctx)
  | SysEnterMmap (ctx : enter_mmap_ctx)
  | SysEnterClose (ctx : enter_close_ctx)
  | SysEnterUnlinkat (ctx : enter_unlinkat_ctx)
  | SysEnterRename (ctx : enter_rename_ctx)
  | SysEnterRenameat (ctx : enter_renameat_ctx)
  | SysEnterRenameat2 (ctx : enter_renameat2_ctx)
  | SysEnterLink (ctx : enter_link_ctx)
  | SysEnterLinkat (ctx : enter_linkat_ctx)
  | SysEnterSymlink (ctx : enter_symlink_ctx)
  | SysEnterSymlinkat (ctx : enter_symlinkat_ctx).

Definition handle k (c : call) : prog state Z :=
  match c with
  | SysEnterOpen ctx => trace_enter_open k ctx
  | SysEnterOpenat ctx => trace_enter_openat k ctx
  | SysEnterOpenat2 ctx => trace_enter_openat2 k ctx
  | SysExitOpen ctx => trace_exit_open k ctx
  | SysExitOpenat ctx => trace_exit_openat k ctx
  | SysExitOpenat2 ctx => trace_exit_openat2 k ctx
  | SysEnterWrite ctx => trace_write k ctx
  | SysExitWrite ctx => trace_exit_write k ctx
  | SysEnterMmap ctx => trace_mmap k ctx
  | SysEnterClose ctx => trace_close k ctx
  | SysEnterUnlinkat ctx => trace_delete k ctx
  | SysEnterRename ctx => trace_rename k ctx
  | SysEnterRenameat ctx => trace_renameat k ctx
  | SysEnterRenameat2 ctx => trace_renameat2 k ctx
  | SysEnterLink ctx => trace_link k ctx
  | SysEnterLinkat ctx => trace_linkat k ctx
  | SysEnterSymlink ctx => trace_symlink k ctx
  | SysEnterSymlinkat ctx => trace_symlinkat k ctx
  end.
End Probe.

Arguments state : clear implicits.
