(* ===== verification/FileopSpec.v ===== *)
(** * File-operation probe: behaviour of its operations

    What each function of [Fileop] does to the contents of the maps and to the
    samples of the ring buffer, on every branch. *)

From S2P Require Import Prelude Helpers FileopPaths Fileop.

(** ** Stored paths

    A path buffer as the probe stores it: a non-empty string of at most 255
    bytes, padded with zeros. *)

Definition pad (s : list Z) : list Z := s ++ zeros (MAX_PATH_SIZE - length s).

Definition path_string (s : list Z) : Prop :=
  s <> [] /\ 0 ∉ s /\ (length s < MAX_PATH_SIZE)%nat.

Definition path_ok (p : list Z) : Prop := exists s, path_string s /\ p = pad s.

Lemma length_pad s : (length s <= MAX_PATH_SIZE)%nat -> length (pad s) = MAX_PATH_SIZE.
Proof. intros. unfold pad. rewrite length_app, length_zeros. lia. Qed.

Lemma pad_split s :
  (length s < MAX_PATH_SIZE)%nat ->
  pad s = s ++ 0 :: zeros (MAX_PATH_SIZE - S (length s)).
Proof.
  intros. unfold pad. f_equal.
  replace (MAX_PATH_SIZE - length s)%nat with (S (MAX_PATH_SIZE - S (length s))) by lia.
  done.
Qed.

Lemma cstr_pad s : path_string s -> cstr (pad s) = s.
Proof. intros (_ & H0 & Hl). rewrite pad_split by done. by apply cstr_app_nul. Qed.

Lemma pad_overlay_zeros s :
  (length s < MAX_PATH_SIZE)%nat -> overlay (zeros MAX_PATH_SIZE) (s ++ [0]) = pad s.
Proof.
  intros. rewrite pad_split by done. unfold overlay.
  rewrite drop_zeros, length_app, <- app_assoc. cbn [length app].
  do 3 f_equal. lia.
Qed.

Lemma pad_overlay_pad s j :
  (length s <= length j)%nat -> (length j < MAX_PATH_SIZE)%nat ->
  overlay (pad s) (j ++ [0]) = pad j.
Proof.
  intros. rewrite (pad_split j) by done. unfold overlay, pad.
  rewrite drop_app_ge by (rewrite length_app; cbn [length]; lia).
  rewrite drop_zeros, length_app, <- app_assoc. cbn [length app].
  do 3 f_equal. lia.
Qed.

Lemma length_join_ref n b r :
  b <> [] -> (length r <= n)%nat -> (length r <= length (join_ref n b r))%nat.
Proof.
  intros Hb Hr. unfold join_ref. rewrite length_take, !length_app.
  destruct b as [|c b]; [done|]. simpl. lia.
Qed.

Lemma join_ref_path_string b r :
  path_string b -> path_string r -> path_string (join_ref (MAX_PATH_SIZE - 1) b r).
Proof.
  intros (Hb & Hb0 & Hbl) (Hr & Hr0 & Hrl). split; [|split].
  - unfold join_ref. destruct b as [|c b]; [done|].
    by replace (MAX_PATH_SIZE - 1)%nat with 255%nat by done.
  - unfold join_ref. intros (i & Hi & _)%elem_of_take.
    apply list_elem_of_lookup_2 in Hi. rewrite !elem_of_app in Hi.
    destruct Hi as [Hi|[Hi|Hi]]; [done| |done].
    case_bool_decide; set_solver.
  - unfold join_ref. rewrite length_take. unfold MAX_PATH_SIZE. lia.
Qed.

(** The string at a user address, as a path buffer can hold it. *)
Definition user_string (m : mem) (src : Z) (s : list Z) : Prop :=
  path_string s /\ mem_read m src (length s) = Some s /\
  (m (src + Z.of_nat (length s)) = Some 0 \/ length s = (MAX_PATH_SIZE - 1)%nat).

(** [copy_user_path] into a zeroed buffer: -1, or 0 and the padded string. *)
Lemma copy_user_path_spec k m src :
  UserMem k m ->
  let '(r, p) := copy_user_path k zero_path sizeof_path src in
  r = -1 \/ r = 0 /\ src <> 0 /\ exists s, user_string m src s /\ p = pad s.
Proof.
  intros Hk. unfold copy_user_path. destruct (Z.eqb_spec src 0); [by left|].
  pose proof (user_read_str (k := k) sizeof_path src) as Hr.
  destruct (bpf_probe_read_user_str k sizeof_path src) as [ret bs].
  destruct Hr as [Hl Hr]; [done|].
  destruct (Z.leb_spec ret 1); [by left|]. right. split; [done|]. split; [done|].
  destruct Hr as [?|(_ & s & -> & Hret & Hs0 & Hm & Hend)]; [lia|].
  rewrite length_app in *. cbn [length] in *. unfold sizeof_path in *.
  assert (length s < MAX_PATH_SIZE)%nat by lia.
  exists s. split.
  - split; [split; [|split]; try done|].
    + intros ->. simpl in *. lia.
    + split; [done|]. destruct Hend as [Hend|Hend]; [by left|right; lia].
  - by apply pad_overlay_zeros.
Qed.

(** The outcome of [resolve_dirfd_path], from the contents of [fd_paths]. *)
Definition resolve_ref (k : kenv) (fds : gmap fd_key path_value) (tgid dirfd src : Z)
    : Z * list Z :=
  let '(r, dst) := copy_user_path k zero_path sizeof_path src in
  if negb (r =? 0) then (-1, dst)
  else if is_absolute_path (Some dst) || (dirfd =? AT_FDCWD) || (dirfd <? 0) then (0, dst)
  else
    match fds !! FdKey tgid (u32 dirfd) with
    | None => (0, dst)
    | Some base =>
        let '(r, dst') :=
          join_paths (Some dst) sizeof_path (Some (pv_path base)) (Some dst) in
        (r, default [] dst')
    end.

(** What a successful resolution yields: the string itself, or its join with
    the path of an open directory. *)
Definition resolved (m : mem) (fds : gmap fd_key path_value) (tgid dirfd src : Z)
    (p : list Z) : Prop :=
  exists s, user_string m src s /\
    if (rd s 0 =? 47) || (dirfd <? 0) then p = s
    else
      match fds !! FdKey tgid (u32 dirfd) with
      | None => p = s
      | Some base => p = join_ref (MAX_PATH_SIZE - 1) (cstr (pv_path base)) s
      end.

Lemma rd_pad_0 s : path_string s -> rd (pad s) 0 = rd s 0.
Proof. intros (Hs & _). unfold pad. destruct s; [done|]. done. Qed.

Lemma resolve_ref_spec k m fds tgid dirfd src :
  UserMem k m -> (forall key v, fds !! key = Some v -> path_ok (pv_path v)) ->
  let '(r, p) := resolve_ref k fds tgid dirfd src in
  r = -1 \/
  r = 0 /\ src <> 0 /\ exists s, path_string s /\ p = pad s /\ resolved m fds tgid dirfd src s.
Proof.
  intros Hk Hfds. unfold resolve_ref.
  pose proof (copy_user_path_spec k m src Hk) as Hc.
  destruct (copy_user_path k zero_path sizeof_path src) as [r dst].
  destruct Hc as [->|(-> & Hsrc & s & Hs & ->)]; [by left|]. simpl negb. cbv iota.
  pose proof Hs as (Hps & _). simpl is_absolute_path. rewrite rd_pad_0 by done.
  replace ((rd s 0 =? 47) || (dirfd =? AT_FDCWD) || (dirfd <? 0))
    with ((rd s 0 =? 47) || (dirfd <? 0)).
  2:{ destruct (Z.eqb_spec dirfd AT_FDCWD) as [->|]; by rewrite ?orb_true_r, ?orb_false_r. }
  destruct ((rd s 0 =? 47) || (dirfd <? 0)) eqn:Eabs.
  { right. split; [done|]. split; [done|]. exists s. split; [done|]. split; [done|].
    exists s. split; [done|]. by rewrite Eabs. }
  destruct (fds !! FdKey tgid (u32 dirfd)) as [base|] eqn:Eb.
  2:{ right. split; [done|]. split; [done|]. exists s. split; [done|]. split; [done|].
      exists s. split; [done|]. by rewrite Eabs, Eb. }
  destruct (Hfds _ _ Eb) as (b & Hb & Hbp).
  pose proof Hps as (Hs1 & Hs2 & Hs3).
  rewrite join_paths_eq; [|unfold sizeof_path, MAX_PATH_SIZE; lia|].
  2:{ rewrite length_pad by lia. done. }
  rewrite Hbp, !cstr_pad by done. rewrite decide_False by apply Hb.
  right. split; [done|]. split; [done|].
  exists (join_ref (MAX_PATH_SIZE - 1) b s).
  split; [by apply join_ref_path_string|]. split.
  - cbn [from_option id]. replace (Z.to_nat (sizeof_path - 1)) with (MAX_PATH_SIZE - 1)%nat by done.
    apply pad_overlay_pad; [apply length_join_ref; [apply Hb|lia]|].
    by apply join_ref_path_string.
  - exists s. split; [done|]. rewrite Eabs, Eb, Hbp. by rewrite cstr_pad.
Qed.

(** ** Programs *)

Section Specs.
Context {MO : bpf_map Z path_value} {MW : bpf_map Z Z} {MH : bpf_map Z path_value}.
Context {MF : bpf_map fd_key path_value} {RB : bpf_ringbuf event}.
Context `{!HashOk MO, !HashOk MW, !ArrayOk 2 MH, !LruOk MF, !RingbufOk RB}.
Local Abbreviation st := (state MO MW MH MF RB).
Implicit Types (s : st) (k : kenv).

Definition opens (s : st) : gmap Z path_value := contents (st_inflight_open s).
Definition writes (s : st) : gmap Z Z := contents (st_inflight_write s).
Definition fds (s : st) : gmap fd_key path_value := contents (st_fd_paths s).
Definition evs (s : st) : list event := samples (st_events s).

(** Whether the ring buffer has room for the next sample. *)
Definition can_reserve (s : st) : bool :=
  match (ringbuf_reserve (st_events s) sizeof_event 0).1 with
  | Some _ => true
  | None => false
  end.

(** The steps that only emit: they touch the ring buffer and the scratch
    buffers, and the consumer sees [oe] if there is room for it. *)
Definition emits (s s' : st) (oe : option event) : Prop :=
  st_inflight_open s' = st_inflight_open s /\
  st_inflight_write s' = st_inflight_write s /\
  st_fd_paths s' = st_fd_paths s /\
  evs s' = evs s ++ (if can_reserve s then option_list oe else []).

Lemma resolve_dirfd_path_spec k tgid dirfd src s :
  exists h, resolve_dirfd_path k zero_path sizeof_path tgid dirfd src s =
    (resolve_ref k (fds s) tgid dirfd src, fset path_heap h s).
Proof.
  assert (s = fset path_heap (st_path_heap s) s) as Hs by (by destruct s).
  unfold resolve_dirfd_path, resolve_ref. destruct (Z.eqb_spec src 0) as [->|Hsrc].
  { exists (st_path_heap s). rewrite <- Hs. done. }
  destruct (copy_user_path k zero_path sizeof_path src) as [r dst].
  destruct (negb (r =? 0)); [exists (st_path_heap s); by rewrite <- Hs|].
  destruct (is_absolute_path _ || _ || _); [exists (st_path_heap s); by rewrite <- Hs|].
  prog_unfold. unfold bpf_map_lookup_elem at 1. rewrite lookup_elem_contents.
  destruct (array_total (n := 2) (fget path_heap s) 1) as [v Hv]; [done|].
  rewrite Hv. unfold map_store. eexists. simpl.
  unfold bpf_map_lookup_elem. simpl. rewrite lookup_elem_contents.
  unfold fds. destruct (contents (st_fd_paths s) !! _) as [base|]; [|done].
  by destruct (join_paths _ _ _ _).
Qed.

(** The event of an operation on a tracked descriptor. *)
Definition fd_event k (v : path_value) (op bytes : Z) : event := {|
  ev_timestamp_ns := bpf_ktime_get_ns k;
  ev_pid_tgid := bpf_get_current_pid_tgid k;
  ev_uid_gid := bpf_get_current_uid_gid k;
  ev_cgroup_id := bpf_get_current_cgroup_id k;
  ev_bytes := bytes;
  ev_flags := pv_open_flags v;
  ev_op := op;
  ev_comm := bpf_get_current_comm k TASK_COMM_LEN;
  ev_path := pv_path v;
  ev_new_path := zero_path |}.

Definition fd_event_opt k (v : path_value) (op bytes : Z) : option event :=
  if should_drop_fd_event (Some v) op then None else Some (fd_event k v op bytes).

Lemma reserve_cases s :
  (exists e r, ringbuf_reserve (st_events s) sizeof_event 0 = (Some e, r) /\
     can_reserve s = true /\ samples r = evs s) \/
  (exists r, ringbuf_reserve (st_events s) sizeof_event 0 = (None, r) /\
     can_reserve s = false /\ samples r = evs s).
Proof.
  unfold can_reserve, evs.
  pose proof (reserve_samples (st_events s) sizeof_event 0) as Hr.
  destruct (ringbuf_reserve (st_events s) sizeof_event 0) as [[e|] r]; simpl in *;
    [left; exists e, r|right; exists r]; done.
Qed.

Lemma emits_refl s : emits s s None.
Proof.
  unfold emits. destruct (can_reserve s); simpl; by rewrite app_nil_r.
Qed.

Lemma submit_fd_event_spec k v op bytes s :
  (submit_fd_event k (Some v) op bytes s).1 = 0 /\
  emits s (exec (submit_fd_event k (Some v) op bytes) s) (fd_event_opt k v op bytes).
Proof.
  unfold submit_fd_event, fd_event_opt.
  destruct (should_drop_fd_event (Some v) op); [split; [done|]; apply emits_refl|].
  prog_unfold. unfold bpf_ringbuf_reserve, emits. simpl.
  destruct (reserve_cases s) as [(e & r & -> & -> & Hr)|(r & -> & -> & Hr)]; simpl.
  - unfold evs. simpl. rewrite submit_samples, Hr. done.
  - unfold evs. simpl. by rewrite Hr, app_nil_r.
Qed.

(** ** Path events *)

Definition noisy (p : list Z) : bool :=
  is_noise_path (Some p) || path_is_systemd_private_tmp_noise (Some p).

Definition delete_ref k (m : gmap fd_key path_value) (path dirfd : Z) : option event :=
  let '(r, p) := resolve_ref k m (tgid_of (bpf_get_current_pid_tgid k)) dirfd path in
  if negb (r =? 0) || noisy p then None else Some (path_event k FILE_OP_DELETE p zero_path).

(** Rename and hard link: the source is resolved and filtered, the target is
    copied as it is. *)
Definition two_path_ref k (op : file_op_type) (m : gmap fd_key path_value)
    (old_path old_dirfd new_path : Z) : option event :=
  let '(r, p) := resolve_ref k m (tgid_of (bpf_get_current_pid_tgid k)) old_dirfd old_path in
  if negb (r =? 0) || noisy p then None
  else
    let '(r, np) :=
      if negb (new_path =? 0) then copy_user_path k zero_path sizeof_path new_path
      else (0, zero_path) in
    if negb (r =? 0) then None else Some (path_event k op p np).

(** Symbolic link: the target is copied as it is, the link is resolved and
    filtered. *)
Definition symlink_ref k (m : gmap fd_key path_value) (old_path new_path new_dirfd : Z)
    : option event :=
  let '(r, p) := copy_user_path k zero_path sizeof_path old_path in
  if negb (r =? 0) then None
  else
    let '(r, np) :=
      resolve_ref k m (tgid_of (bpf_get_current_pid_tgid k)) new_dirfd new_path in
    if negb (r =? 0) || noisy np then None
    else Some (path_event k FILE_OP_SYMLINK p np).

(** Run a reservation, then [resolve_dirfd_path] on the state it leaves. *)
Ltac path_submit s :=
  prog_unfold; unfold bpf_ringbuf_reserve, emits; simpl;
  let Hr := fresh "Hr" in
  destruct (reserve_cases s) as [(e & r & -> & -> & Hr)|(r & -> & -> & Hr)];
  [simpl|unfold evs; simpl; by rewrite Hr, app_nil_r].

Ltac resolve_step s :=
  match goal with |- context [resolve_dirfd_path ?k _ _ ?t ?fd ?src ?s1] =>
    destruct (resolve_dirfd_path_spec k t fd src s1) as [h Hres];
    rewrite Hres; clear Hres; change (fds s1) with (fds s); simpl;
    destruct (resolve_ref _ _ _ _ _) as [ret p]
  end.

Ltac path_emit Hr :=
  unfold evs; simpl; rewrite ?submit_samples, ?discard_samples, Hr, ?app_nil_r; done.

Lemma submit_delete_path_spec k path dirfd s :
  (submit_delete_path k path dirfd s).1 = 0 /\
  emits s (exec (submit_delete_path k path dirfd) s) (delete_ref k (fds s) path dirfd).
Proof.
  unfold submit_delete_path, delete_ref. path_submit s.
  resolve_step s. rewrite <- orb_assoc. fold (noisy p).
  destruct (negb (ret =? 0) || noisy p); path_emit Hr.
Qed.

Lemma submit_rename_paths_spec k old_path old_dirfd new_path s :
  (submit_rename_paths k old_path old_dirfd new_path s).1 = 0 /\
  emits s (exec (submit_rename_paths k old_path old_dirfd new_path) s)
    (two_path_ref k FILE_OP_RENAME (fds s) old_path old_dirfd new_path).
Proof.
  unfold submit_rename_paths, two_path_ref. path_submit s.
  resolve_step s. rewrite <- orb_assoc. fold (noisy p).
  destruct (negb (ret =? 0) || noisy p); [path_emit Hr|].
  destruct (if negb (new_path =? 0) then _ else _) as [ret2 np].
  destruct (negb (ret2 =? 0)); path_emit Hr.
Qed.

Lemma submit_hardlink_paths_spec k old_path old_dirfd new_path s :
  (submit_hardlink_paths k old_path old_dirfd new_path s).1 = 0 /\
  emits s (exec (submit_hardlink_paths k old_path old_dirfd new_path) s)
    (two_path_ref k FILE_OP_HARDLINK (fds s) old_path old_dirfd new_path).
Proof.
  unfold submit_hardlink_paths, two_path_ref. path_submit s.
  resolve_step s. rewrite <- orb_assoc. fold (noisy p).
  destruct (negb (ret =? 0) || noisy p); [path_emit Hr|].
  destruct (if negb (new_path =? 0) then _ else _) as [ret2 np].
  destruct (negb (ret2 =? 0)); path_emit Hr.
Qed.

Lemma submit_symlink_paths_spec k old_path new_path new_dirfd s :
  (submit_symlink_paths k old_path new_path new_dirfd s).1 = 0 /\
  emits s (exec (submit_symlink_paths k old_path new_path new_dirfd) s)
    (symlink_ref k (fds s) old_path new_path new_dirfd).
Proof.
  unfold submit_symlink_paths, symlink_ref. path_submit s.
  destruct (copy_user_path k zero_path sizeof_path old_path) as [ret0 p0].
  destruct (negb (ret0 =? 0)); [path_emit Hr|]. simpl.
  resolve_step s. rewrite <- orb_assoc. fold (noisy p).
  destruct (negb (ret =? 0) || noisy p); path_emit Hr.
Qed.

(** ** Open *)

(** What an open leaves in flight. *)
Definition remember_ref k (m : gmap fd_key path_value) (filename dirfd flags : Z)
    : option path_value :=
  let '(r, p) := resolve_ref k m (tgid_of (bpf_get_current_pid_tgid k)) dirfd filename in
  if negb (r =? 0) || is_noise_path (Some p) then None
  else Some (PathValue p 0 flags 0).

Lemma remember_open_path_spec k filename dirfd flags s :
  let s' := exec (remember_open_path k filename dirfd flags) s in
  (remember_open_path k filename dirfd flags s).1 = 0 /\
  st_inflight_open s' =
    match remember_ref k (fds s) filename dirfd flags with
    | Some v =>
        (update_elem (st_inflight_open s) (bpf_get_current_pid_tgid k) v BPF_ANY).2
    | None => st_inflight_open s
    end /\
  st_inflight_write s' = st_inflight_write s /\
  st_fd_paths s' = st_fd_paths s /\ st_events s' = st_events s.
Proof.
  unfold remember_open_path, remember_ref. prog_unfold.
  unfold bpf_map_lookup_elem. simpl. rewrite lookup_elem_contents.
  destruct (array_total (n := 2) (st_path_heap s) 0) as [v ->]; [done|].
  unfold map_store. simpl.
  change (zeros MAX_PATH_SIZE) with zero_path. resolve_step s.
  destruct (ret =? 0); simpl; [|done]. destruct (is_noise_path (Some p)); simpl; [done|].
  unfold bpf_map_update_elem. simpl. unfold set_open_flags, set_path. simpl.
  by destruct (update_elem _ _ _ _).
Qed.

(** The key of a descriptor of the current process. *)
Definition key_of k (fd : Z) : fd_key := FdKey (tgid_of (bpf_get_current_pid_tgid k)) fd.

Lemma finalize_open_fd_spec k ctx s :
  let s' := exec (finalize_open_fd k ctx) s in
  (finalize_open_fd k ctx s).1 = 0 /\
  opens s' = delete (bpf_get_current_pid_tgid k) (opens s) /\
  st_inflight_write s' = st_inflight_write s /\
  match opens s !! bpf_get_current_pid_tgid k with
  | Some v =>
      if 0 <=? ex_ret ctx then
        st_fd_paths s' =
          (update_elem (st_fd_paths s) (key_of k (u32 (ex_ret ctx))) v BPF_ANY).2 /\
        evs s' = evs s ++ (if can_reserve s
          then option_list (fd_event_opt k v (file_op_code FILE_OP_OPEN) 0) else [])
      else st_fd_paths s' = st_fd_paths s /\ evs s' = evs s
  | None => st_fd_paths s' = st_fd_paths s /\ evs s' = evs s
  end.
Proof.
  unfold finalize_open_fd, opens. prog_unfold. unfold bpf_map_lookup_elem. simpl.
  rewrite lookup_elem_contents.
  destruct (contents (st_inflight_open s) !! bpf_get_current_pid_tgid k) as [v|] eqn:E.
  2:{ simpl. by rewrite delete_id. }
  destruct (0 <=? ex_ret ctx).
  - unfold bpf_map_update_elem. simpl. fold (key_of k (u32 (ex_ret ctx))).
    destruct (update_elem _ _ _ _) as [r m]. unfold submit_open_event.
    set (s1 := {| st_inflight_open := _ |}).
    destruct (submit_fd_event_spec k v (file_op_code FILE_OP_OPEN) 0 s1)
      as (_ & H1 & H2 & H3 & H4). unfold exec in *.
    destruct (submit_fd_event k (Some v) (file_op_code FILE_OP_OPEN) 0 s1) as [r2 s2].
    unfold bpf_map_delete_elem. simpl in *.
    pose proof (hash_delete_contents (st_inflight_open s2) (bpf_get_current_pid_tgid k)) as Hd.
    destruct (delete_elem _ _) as [r3 m3]. simpl in *. rewrite Hd, H1, H2, H3. done.
  - unfold bpf_map_delete_elem. simpl.
    pose proof (hash_delete_contents (st_inflight_open s) (bpf_get_current_pid_tgid k)) as Hd.
    by destruct (delete_elem _ _) as [r3 m3].
Qed.

(** ** Write *)

Lemma trace_write_spec k ctx s :
  let s' := exec (trace_write k ctx) s in
  (trace_write k ctx s).1 = 0 /\
  st_inflight_open s' = st_inflight_open s /\
  st_inflight_write s' =
    (if erw_count ctx =? 0 then st_inflight_write s
     else (update_elem (st_inflight_write s) (bpf_get_current_pid_tgid k)
             (u32 (erw_fd ctx)) BPF_ANY).2) /\
  st_fd_paths s' = st_fd_paths s /\ st_events s' = st_events s.
Proof.
  unfold trace_write. prog_unfold. destruct (erw_count ctx =? 0); [done|].
  unfold bpf_map_update_elem. simpl. by destruct (update_elem _ _ _ _).
Qed.

(** The entry of a descriptor after a write of [n] bytes. *)
Definition written (n : Z) (v : path_value) : path_value :=
  set_seen_flag (set_write_bytes (u64 (pv_write_bytes v + u64 n)) v) FD_SEEN_WRITE.

Lemma trace_exit_write_spec k ctx s :
  let s' := exec (trace_exit_write k ctx) s in
  (trace_exit_write k ctx s).1 = 0 /\
  st_inflight_open s' = st_inflight_open s /\
  writes s' = delete (bpf_get_current_pid_tgid k) (writes s) /\
  st_events s' = st_events s /\
  fds s' =
    match writes s !! bpf_get_current_pid_tgid k with
    | Some fd => if 0 <? ex_ret ctx then alter (written (ex_ret ctx)) (key_of k fd) (fds s)
                 else fds s
    | None => fds s
    end.
Proof.
  unfold trace_exit_write, writes, fds. prog_unfold.
  unfold bpf_map_lookup_elem. simpl. rewrite lookup_elem_contents.
  destruct (contents (st_inflight_write s) !! bpf_get_current_pid_tgid k) as [fd|] eqn:E.
  2:{ simpl. by rewrite delete_id. }
  unfold bpf_map_delete_elem.
  pose proof (hash_delete_contents (st_inflight_write s) (bpf_get_current_pid_tgid k)) as Hd.
  destruct (0 <? ex_ret ctx).
  - simpl. rewrite lookup_elem_contents. fold (key_of k fd).
    destruct (contents (st_fd_paths s) !! key_of k fd) as [v|] eqn:Ev; simpl;
      destruct (delete_elem _ _) as [r3 m3]; simpl; repeat (split; [done|]).
    + rewrite store_elem_contents by eauto. by rewrite alter_alt, Ev.
    + by rewrite alter_alt, Ev.
  - simpl. by destruct (delete_elem _ _) as [r3 m3].
Qed.

(** ** Mmap and close *)

(** The first mapping of each kind marks the entry and is reported. *)
Definition mmap_ref (prot : Z) (v : path_value) : option (path_value * file_op_type) :=
  if Z.land prot PROT_WRITE =? 0 then
    if has_seen_flag (Some v) FD_SEEN_MMAP_READ then None
    else Some (set_seen_flag v FD_SEEN_MMAP_READ, FILE_OP_MMAP_READ)
  else
    if has_seen_flag (Some v) FD_SEEN_MMAP_WRITE then None
    else Some (set_seen_flag v FD_SEEN_MMAP_WRITE, FILE_OP_MMAP_WRITE).

(** The entry a call of [trace_mmap] marks, with the operation it reports. *)
Definition mmap_hit k (m : gmap fd_key path_value) (ctx : enter_mmap_ctx)
    : option (path_value * file_op_type) :=
  if s64 (emm_fd ctx) <? 0 then None
  else
    match m !! key_of k (u32 (emm_fd ctx)) with
    | Some v => mmap_ref (emm_prot ctx) v
    | None => None
    end.

Lemma store_and_submit k key v op s :
  is_Some (fds s !! key) ->
  let s' := exec (submit_fd_event k (Some v) op 0) (exec (map_store fd_paths key v) s) in
  st_inflight_open s' = st_inflight_open s /\
  st_inflight_write s' = st_inflight_write s /\
  fds s' = <[key := v]> (fds s) /\
  evs s' = evs s ++ (if can_reserve s then option_list (fd_event_opt k v op 0) else []).
Proof.
  intros Hkey. set (s1 := exec (map_store fd_paths key v) s).
  destruct (submit_fd_event_spec k v op 0 s1) as (_ & H1 & H2 & H3 & H4).
  cbv zeta. split; [by rewrite H1|]. split; [by rewrite H2|]. split; [|by rewrite H4].
  unfold fds. rewrite H3. unfold s1, map_store, exec. simpl.
  by rewrite store_elem_contents.
Qed.

Lemma trace_mmap_spec k ctx s :
  let s' := exec (trace_mmap k ctx) s in
  (trace_mmap k ctx s).1 = 0 /\
  st_inflight_open s' = st_inflight_open s /\
  st_inflight_write s' = st_inflight_write s /\
  match mmap_hit k (fds s) ctx with
  | None => s' = s
  | Some (v, op) =>
      fds s' = <[key_of k (u32 (emm_fd ctx)) := v]> (fds s) /\
      evs s' = evs s ++ (if can_reserve s
        then option_list (fd_event_opt k v (file_op_code op) 0) else [])
  end.
Proof.
  unfold trace_mmap, mmap_hit, mmap_ref. fold (key_of k (u32 (emm_fd ctx))).
  set (key := key_of k (u32 (emm_fd ctx))).
  destruct (s64 (emm_fd ctx) <? 0); [done|].
  prog_unfold. unfold bpf_map_lookup_elem. simpl. rewrite lookup_elem_contents.
  fold (fds s). destruct (fds s !! key) as [v|] eqn:Ev; [|done].
  destruct (Z.land (emm_prot ctx) PROT_WRITE =? 0); simpl;
    [destruct (has_seen_flag (Some v) FD_SEEN_MMAP_READ)|
     destruct (has_seen_flag (Some v) FD_SEEN_MMAP_WRITE)]; simpl; try done.
  - destruct (store_and_submit k key (set_seen_flag v FD_SEEN_MMAP_READ)
      (file_op_code FILE_OP_MMAP_READ) s) as (H1 & H2 & H3 & H4); [eauto|].
    unfold exec in *. unfold map_store in *. simpl in *.
    destruct (submit_fd_event k _ _ _ _) as [r2 s2]. simpl in *. done.
  - destruct (store_and_submit k key (set_seen_flag v FD_SEEN_MMAP_WRITE)
      (file_op_code FILE_OP_MMAP_WRITE) s) as (H1 & H2 & H3 & H4); [eauto|].
    unfold exec in *. unfold map_store in *. simpl in *.
    destruct (submit_fd_event k _ _ _ _) as [r2 s2]. simpl in *. done.
Qed.

(** The write summary a close reports. *)
Definition close_event k (v : path_value) : option event :=
  if has_seen_flag (Some v) FD_SEEN_WRITE
  then fd_event_opt k v (file_op_code FILE_OP_WRITE) (pv_write_bytes v) else None.

Lemma trace_close_spec k ctx s :
  let s' := exec (trace_close k ctx) s in
  (trace_close k ctx s).1 = 0 /\
  st_inflight_open s' = st_inflight_open s /\
  st_inflight_write s' = st_inflight_write s /\
  fds s' = delete (key_of k (ecl_fd ctx)) (fds s) /\
  evs s' = evs s ++
    match fds s !! key_of k (ecl_fd ctx) with
    | Some v => if can_reserve s then option_list (close_event k v) else []
    | None => []
    end.
Proof.
  unfold trace_close, close_event. fold (key_of k (ecl_fd ctx)).
  set (key := key_of k (ecl_fd ctx)). prog_unfold.
  unfold bpf_map_lookup_elem. simpl. rewrite lookup_elem_contents. fold (fds s).
  destruct (fds s !! key) as [v|] eqn:Ev.
  2:{ simpl. by rewrite delete_id, app_nil_r. }
  unfold bpf_map_delete_elem. destruct (has_seen_flag (Some v) FD_SEEN_WRITE).
  - destruct (submit_fd_event_spec k v (file_op_code FILE_OP_WRITE) (pv_write_bytes v) s)
      as (_ & H1 & H2 & H3 & H4). unfold exec in *.
    destruct (submit_fd_event k _ _ _ s) as [r2 s2]. simpl in *.
    pose proof (lru_delete_contents (st_fd_paths s2) key) as Hd.
    destruct (delete_elem _ _) as [r3 m3]. unfold fds in *. simpl in *.
    rewrite Hd, H1, H2, H3. done.
  - simpl. pose proof (lru_delete_contents (st_fd_paths s) key) as Hd.
    destruct (delete_elem _ _) as [r3 m3]. unfold fds in *. simpl in *.
    split; [done|]. split; [done|]. split; [done|]. split; [done|].
    unfold evs. simpl. by destruct (can_reserve s); rewrite app_nil_r.
Qed.
End Specs.
