(* ===== verification/FileopProps.v ===== *)
(** * File-operation probe: correctness

    The invariant of the probe's maps and events, the accounting of written
    bytes over interleaved traces, and the behaviour of the open, mmap and path
    handlers. *)

From S2P Require Import Prelude Helpers RefKernel FileopPaths Fileop FileopSpec.

(** ** Well-formed entries and events *)

(** An entry of [inflight_open]. *)
Definition open_entry_ok (v : path_value) : Prop :=
  path_ok (pv_path v) /\ is_noise_path (Some (pv_path v)) = false /\
  pv_write_bytes v = 0 /\ pv_seen_flags v = 0.

(** An entry of [fd_paths]. *)
Definition fd_entry_ok (v : path_value) : Prop :=
  path_ok (pv_path v) /\ is_noise_path (Some (pv_path v)) = false /\
  0 <= pv_write_bytes v < 2 ^ 64 /\ 0 <= pv_seen_flags v < 8 /\
  (has_seen_flag (Some v) FD_SEEN_WRITE = false -> pv_write_bytes v = 0).

(** An event the consumer can see. *)
Definition event_ok (e : event) : Prop :=
  exists op, ev_op e = file_op_code op /\
  path_ok (ev_path e) /\
  match op with
  | FILE_OP_OPEN | FILE_OP_WRITE =>
      is_noise_path (Some (ev_path e)) = false /\
      path_is_runtime_overlay_noise (Some (ev_path e)) = false /\
      ev_new_path e = zero_path
  | FILE_OP_MMAP_READ | FILE_OP_MMAP_WRITE =>
      is_noise_path (Some (ev_path e)) = false /\
      path_is_runtime_overlay_noise (Some (ev_path e)) = false /\
      path_looks_like_shared_object (ev_path e) = false /\
      ev_new_path e = zero_path
  | FILE_OP_DELETE => noisy (ev_path e) = false /\ ev_new_path e = zero_path
  | FILE_OP_RENAME | FILE_OP_HARDLINK =>
      noisy (ev_path e) = false /\ (ev_new_path e = zero_path \/ path_ok (ev_new_path e))
  | FILE_OP_SYMLINK => path_ok (ev_new_path e) /\ noisy (ev_new_path e) = false
  end.

(** The seen flags are three bits. *)
Lemma seen_flag_cases z : 0 <= z < 8 ->
  z = 0 \/ z = 1 \/ z = 2 \/ z = 3 \/ z = 4 \/ z = 5 \/ z = 6 \/ z = 7.
Proof. lia. Qed.

Lemma set_seen_flag_range v f :
  0 <= pv_seen_flags v < 8 -> 0 <= pv_seen_flags (set_seen_flag v f) < 8.
Proof.
  intros H. unfold set_seen_flag. simpl.
  destruct (seen_flag_cases _ H) as [E|[E|[E|[E|[E|[E|[E|E]]]]]]]; rewrite E;
    destruct f; vm_compute; split; congruence.
Qed.

Lemma has_set_seen_flag v f :
  0 <= pv_seen_flags v < 8 -> has_seen_flag (Some (set_seen_flag v f)) f = true.
Proof.
  intros H. unfold has_seen_flag, set_seen_flag. simpl.
  destruct (seen_flag_cases _ H) as [E|[E|[E|[E|[E|[E|[E|E]]]]]]]; rewrite E;
    destruct f; done.
Qed.

(** Setting a flag keeps the others. *)
Lemma set_seen_flag_mono v f g :
  0 <= pv_seen_flags v < 8 -> has_seen_flag (Some v) g = true ->
  has_seen_flag (Some (set_seen_flag v f)) g = true.
Proof.
  intros H. unfold has_seen_flag, set_seen_flag. simpl.
  destruct (seen_flag_cases _ H) as [E|[E|[E|[E|[E|[E|[E|E]]]]]]]; rewrite E;
    destruct f, g; done.
Qed.

Lemma set_seen_flag_other v f g :
  0 <= pv_seen_flags v < 8 -> f <> g ->
  has_seen_flag (Some (set_seen_flag v f)) g = has_seen_flag (Some v) g.
Proof.
  intros H. unfold has_seen_flag, set_seen_flag. simpl.
  destruct (seen_flag_cases _ H) as [E|[E|[E|[E|[E|[E|[E|E]]]]]]]; rewrite E;
    destruct f, g; done.
Qed.

Lemma fd_entry_of_open v : open_entry_ok v -> fd_entry_ok v.
Proof. intros (H1 & H2 & H3 & H4). unfold fd_entry_ok. rewrite H3, H4. done. Qed.

Lemma fd_entry_written n v : fd_entry_ok v -> fd_entry_ok (written n v).
Proof.
  intros (H1 & H2 & H3 & H4 & H5). unfold written. split; [done|]. split; [done|].
  split; [|split; [by apply set_seen_flag_range|]].
  - apply Z.mod_pos_bound. lia.
  - by rewrite has_set_seen_flag.
Qed.

Lemma fd_entry_mmap f v :
  f <> FD_SEEN_WRITE -> fd_entry_ok v -> fd_entry_ok (set_seen_flag v f).
Proof.
  intros Hf (H1 & H2 & H3 & H4 & H5). split; [done|]. split; [done|].
  split; [done|]. split; [by apply set_seen_flag_range|].
  by rewrite set_seen_flag_other.
Qed.

(** ** The reference results are well formed *)

Section RefOk.
Context (k : kenv) (m : mem) (HK : UserMem k m).
Context (M : gmap fd_key path_value).
Hypothesis M_ok : map_Forall (fun _ v => fd_entry_ok v) M.

Lemma resolve_ref_ok tgid dirfd src r p :
  resolve_ref k M tgid dirfd src = (r, p) -> r <> 0 \/ path_ok p.
Proof.
  intros E. pose proof (resolve_ref_spec k m M tgid dirfd src HK) as H.
  rewrite E in H. destruct H as [->|(_ & _ & s & Hs & -> & _)]; [|by left|by right; exists s].
  intros key v Hv. by apply (M_ok _ _ Hv).
Qed.

Lemma copy_user_path_ok src r p :
  copy_user_path k zero_path sizeof_path src = (r, p) -> r <> 0 \/ path_ok p.
Proof.
  intros E. pose proof (copy_user_path_spec k m src HK) as H. rewrite E in H.
  destruct H as [->|(_ & _ & s & (Hs & _) & ->)]; [by left|by right; exists s].
Qed.

Ltac ref_case H :=
  repeat match type of H with
  | context [let '(_, _) := ?x in _] => destruct x as [? ?] eqn:?
  | context [if ?b then _ else _] => destruct b eqn:?
  end; simplify_eq; zbool.

Lemma delete_ref_ok path dirfd e : delete_ref k M path dirfd = Some e -> event_ok e.
Proof.
  unfold delete_ref. intros H. ref_case H.
  exists FILE_OP_DELETE. split; [done|].
  edestruct resolve_ref_ok as [?|Hp]; [eassumption|done|]. done.
Qed.

Lemma two_path_ref_ok op old_path old_dirfd new_path e :
  op = FILE_OP_RENAME \/ op = FILE_OP_HARDLINK ->
  two_path_ref k op M old_path old_dirfd new_path = Some e -> event_ok e.
Proof.
  unfold two_path_ref. intros Hop H.
  destruct (resolve_ref k M _ _ _) as [r p] eqn:Er.
  destruct (negb (r =? 0) || noisy p) eqn:Eb; [done|]. zbool.
  edestruct resolve_ref_ok as [?|Hp]; [eassumption|done|].
  assert (exists np, e = path_event k op p np /\ (np = zero_path \/ path_ok np))
    as (np & -> & Hnp).
  { destruct (new_path =? 0); simpl in H; simplify_eq; [eauto|].
    destruct (copy_user_path _ _ _ _) as [r2 np] eqn:Ec.
    destruct (r2 =? 0) eqn:E2; simpl in H; simplify_eq. zbool.
    edestruct copy_user_path_ok as [?|Hnp]; [eassumption|done|]. eauto. }
  exists op. split; [done|]. split; [done|]. by destruct Hop as [->| ->].
Qed.

Lemma symlink_ref_ok old_path new_path new_dirfd e :
  symlink_ref k M old_path new_path new_dirfd = Some e -> event_ok e.
Proof.
  unfold symlink_ref. intros H. ref_case H.
  edestruct copy_user_path_ok as [?|Hp]; [eassumption|done|].
  edestruct resolve_ref_ok as [?|Hnp]; [eassumption|done|].
  by exists FILE_OP_SYMLINK.
Qed.

Lemma remember_ref_ok filename dirfd flags v :
  remember_ref k M filename dirfd flags = Some v -> open_entry_ok v.
Proof.
  unfold remember_ref. intros H. ref_case H.
  edestruct resolve_ref_ok as [?|Hp]; [eassumption|done|]. done.
Qed.

Lemma fd_event_opt_ok v op bytes e :
  op = FILE_OP_OPEN \/ op = FILE_OP_WRITE \/ op = FILE_OP_MMAP_READ \/
    op = FILE_OP_MMAP_WRITE ->
  fd_entry_ok v -> fd_event_opt k v (file_op_code op) bytes = Some e -> event_ok e.
Proof.
  intros Hop (H1 & H2 & _). unfold fd_event_opt, should_drop_fd_event.
  destruct (path_is_runtime_overlay_noise (Some (pv_path v))) eqn:Eo.
  { by destruct (_ && path_looks_like_shared_object _). }
  intros H. exists op.
  destruct Hop as [->|[->|[->| ->]]]; simpl in H;
    destruct (path_looks_like_shared_object (pv_path v)) eqn:Es; simplify_eq/=; done.
Qed.
End RefOk.

(** ** Traces *)

Section Props.
Context {MO : bpf_map Z path_value} {MW : bpf_map Z Z} {MH : bpf_map Z path_value}.
Context {MF : bpf_map fd_key path_value} {RB : bpf_ringbuf event}.
Context `{!HashOk MO, !HashOk MW, !ArrayOk 2 MH, !LruOk MF, !RingbufOk RB}.
Local Abbreviation st := (state MO MW MH MF RB).
Implicit Types (s : st) (k : kenv).

(** A sequence of invocations, each with the kernel context it runs in. *)
Definition run_trace (tr : list (kenv * call)) (s : st) : st :=
  run ((fun kc => handle kc.1 kc.2) <$> tr) s.

Lemma run_trace_cons kc tr s :
  run_trace (kc :: tr) s = run_trace tr (exec (handle kc.1 kc.2) s).
Proof. done. Qed.

(** The user memory reads of an invocation are lawful. *)
Definition lawful k : Prop := exists m, UserMem k m.

Definition fileop_inv (s : st) : Prop :=
  map_Forall (fun _ v => open_entry_ok v) (opens s) /\
  map_Forall (fun _ v => fd_entry_ok v) (fds s) /\
  Forall event_ok (evs s).

Lemma emits_inv s s' oe :
  emits s s' oe -> (forall e, oe = Some e -> event_ok e) -> fileop_inv s -> fileop_inv s'.
Proof.
  intros (H1 & _ & H3 & H4) He (I1 & I2 & I3). unfold fileop_inv, opens, fds in *.
  rewrite H1, H3. split; [done|]. split; [done|]. rewrite H4.
  apply Forall_app_2; [done|].
  destruct (can_reserve s), oe; simpl; constructor; [by apply He|constructor].
Qed.

Lemma append_event_ok s (b : bool) oe :
  Forall event_ok (evs s) -> (forall e, oe = Some e -> event_ok e) ->
  Forall event_ok (evs s ++ (if b then option_list oe else [])).
Proof.
  intros I He. apply Forall_app_2; [done|].
  destruct b, oe; simpl; constructor; [by apply He|constructor].
Qed.

Lemma remember_inv k filename dirfd flags s :
  lawful k -> fileop_inv s ->
  fileop_inv (exec (remember_open_path k filename dirfd flags) s).
Proof.
  intros [m Hm] (I1 & I2 & I3).
  destruct (remember_open_path_spec k filename dirfd flags s) as (_ & H1 & _ & H3 & H4).
  cbv zeta in *. unfold fileop_inv, opens, fds, evs in *. rewrite H1, H3, H4.
  split; [|done]. destruct (remember_ref _ _ _ _ _) as [v|] eqn:E; [|done].
  apply (map_Forall_update (fun _ v => open_entry_ok v)); [|done].
  by eapply remember_ref_ok.
Qed.

Lemma finalize_inv k ctx s :
  fileop_inv s -> fileop_inv (exec (finalize_open_fd k ctx) s).
Proof.
  intros (I1 & I2 & I3). destruct (finalize_open_fd_spec k ctx s) as (_ & H1 & _ & H2).
  cbv zeta in *. unfold fileop_inv. rewrite H1.
  split; [by apply map_Forall_delete|]. unfold fds in *.
  destruct (opens s !! _) as [v|] eqn:E; [|by destruct H2 as [-> ->]].
  apply I1 in E. apply fd_entry_of_open in E.
  destruct (0 <=? ex_ret ctx); destruct H2 as [-> ->]; [|done].
  split; [by apply (map_Forall_update (fun _ v => fd_entry_ok v))|].
  apply append_event_ok; [done|]. intros e. apply fd_event_opt_ok; tauto.
Qed.

Lemma exit_write_inv k ctx s :
  fileop_inv s -> fileop_inv (exec (trace_exit_write k ctx) s).
Proof.
  intros (I1 & I2 & I3).
  destruct (trace_exit_write_spec k ctx s) as (_ & H1 & _ & H3 & H4).
  cbv zeta in *. unfold fileop_inv, opens, evs. rewrite H1, H3, H4.
  split; [done|]. split; [|done].
  destruct (writes s !! _) as [fd|]; [|done]. destruct (0 <? ex_ret ctx); [|done].
  rewrite alter_alt. destruct (fds s !! key_of k fd) as [v|] eqn:E; [|done].
  apply map_Forall_insert_2; [|done]. apply fd_entry_written. by eapply I2.
Qed.

Lemma mmap_ref_ok prot v v' op :
  mmap_ref prot v = Some (v', op) -> fd_entry_ok v ->
  fd_entry_ok v' /\ (op = FILE_OP_MMAP_READ \/ op = FILE_OP_MMAP_WRITE).
Proof.
  unfold mmap_ref. intros H Hv. repeat case_match; simplify_eq;
    (split; [by apply fd_entry_mmap|tauto]).
Qed.

Lemma mmap_inv k ctx s : fileop_inv s -> fileop_inv (exec (trace_mmap k ctx) s).
Proof.
  intros (I1 & I2 & I3). destruct (trace_mmap_spec k ctx s) as (_ & H1 & _ & H3).
  cbv zeta in *. destruct (mmap_hit k (fds s) ctx) as [[v' op]|] eqn:E; [|by rewrite H3].
  destruct H3 as [H3 H4]. unfold fileop_inv, opens. rewrite H1, H3, H4.
  unfold mmap_hit in E. destruct (s64 _ <? 0); [done|].
  destruct (fds s !! _) as [v|] eqn:Ev; [|done].
  destruct (mmap_ref_ok _ _ _ _ E (I2 _ _ Ev)) as [Hv' Hop].
  split; [done|]. split; [by apply map_Forall_insert_2|].
  apply append_event_ok; [done|]. intros e. apply fd_event_opt_ok; tauto.
Qed.

Lemma close_inv k ctx s : fileop_inv s -> fileop_inv (exec (trace_close k ctx) s).
Proof.
  intros (I1 & I2 & I3). destruct (trace_close_spec k ctx s) as (_ & H1 & _ & H3 & H4).
  cbv zeta in *. unfold fileop_inv, opens. rewrite H1, H3, H4.
  split; [done|]. split; [by apply map_Forall_delete|].
  destruct (fds s !! _) as [v|] eqn:Ev; [|by rewrite app_nil_r].
  apply append_event_ok; [done|]. intros e. unfold close_event.
  destruct (has_seen_flag _ _); [|done].
  apply fd_event_opt_ok; [tauto|]. by eapply I2.
Qed.

(** Every handler keeps the invariant. *)
Lemma handle_inv k c s : lawful k -> fileop_inv s -> fileop_inv (exec (handle k c) s).
Proof.
  intros Hk HI. pose proof Hk as [m Hm]. pose proof HI as (I1 & I2 & I3).
  destruct c; simpl; try (by apply remember_inv); try (by apply finalize_inv);
    try (by apply exit_write_inv); try (by apply mmap_inv); try (by apply close_inv).
  - (* write *)
    destruct (trace_write_spec k ctx s) as (_ & H1 & _ & H3 & H4). cbv zeta in *.
    unfold fileop_inv, opens, fds, evs. by rewrite H1, H3, H4.
  - (* unlinkat *)
    eapply emits_inv; [apply submit_delete_path_spec| |done].
    intros e. by eapply delete_ref_ok.
  - eapply emits_inv; [apply submit_rename_paths_spec| |done].
    intros e. eapply two_path_ref_ok; eauto.
  - eapply emits_inv; [apply submit_rename_paths_spec| |done].
    intros e. eapply two_path_ref_ok; eauto.
  - eapply emits_inv; [apply submit_rename_paths_spec| |done].
    intros e. eapply two_path_ref_ok; eauto.
  - eapply emits_inv; [apply submit_hardlink_paths_spec| |done].
    intros e. eapply two_path_ref_ok; eauto.
  - eapply emits_inv; [apply submit_hardlink_paths_spec| |done].
    intros e. eapply two_path_ref_ok; eauto.
  - eapply emits_inv; [apply submit_symlink_paths_spec| |done].
    intros e. by eapply symlink_ref_ok.
  - eapply emits_inv; [apply submit_symlink_paths_spec| |done].
    intros e. by eapply symlink_ref_ok.
Qed.

Lemma run_trace_inv tr s :
  Forall (fun kc => lawful kc.1) tr -> fileop_inv s -> fileop_inv (run_trace tr s).
Proof.
  intros Htr. revert s. induction Htr as [|kc tr Hk _ IH]; intros s HI; [done|].
  rewrite run_trace_cons. apply IH. by apply handle_inv.
Qed.

(** ** Accounting of written bytes *)

(** The descriptor each task is writing to, as the trace alone determines it. *)
Definition writing (w : gmap Z Z) (kc : kenv * call) : gmap Z Z :=
  let pid := bpf_get_current_pid_tgid kc.1 in
  match kc.2 with
  | SysEnterWrite ctx =>
      if erw_count ctx =? 0 then w else <[pid := u32 (erw_fd ctx)]> w
  | SysExitWrite _ => delete pid w
  | _ => w
  end.

(** The bytes an invocation adds to descriptor [key]. *)
Definition bytes_of (key : fd_key) (w : gmap Z Z) (kc : kenv * call) : Z :=
  match kc.2 with
  | SysExitWrite ctx =>
      match w !! bpf_get_current_pid_tgid kc.1 with
      | Some fd =>
          if (0 <? ex_ret ctx) && bool_decide (key_of kc.1 fd = key) then ex_ret ctx else 0
      | None => 0
      end
  | _ => 0
  end.

Fixpoint bytes_to (key : fd_key) (w : gmap Z Z) (tr : list (kenv * call)) : Z :=
  match tr with
  | [] => 0
  | kc :: tr' => bytes_of key w kc + bytes_to key (writing w kc) tr'
  end.

(** The invocation neither closes [key] nor opens it anew. *)
Definition untouched (key : fd_key) (kc : kenv * call) : Prop :=
  match kc.2 with
  | SysEnterClose ctx => key_of kc.1 (ecl_fd ctx) <> key
  | SysExitOpen ctx | SysExitOpenat ctx | SysExitOpenat2 ctx =>
      0 <= ex_ret ctx -> key_of kc.1 (u32 (ex_ret ctx)) <> key
  | _ => True
  end.

Lemma finalize_writes k ctx s : writes (exec (finalize_open_fd k ctx) s) = writes s.
Proof.
  destruct (finalize_open_fd_spec k ctx s) as (_ & _ & H & _). cbv zeta in H.
  unfold writes. by rewrite H.
Qed.

(** The entry of a starting write finds room in [inflight_write]. *)
Definition fits (s : st) (kc : kenv * call) : Prop :=
  match kc.2 with
  | SysEnterWrite ctx =>
      erw_count ctx <> 0 ->
      (update_elem (st_inflight_write s) (bpf_get_current_pid_tgid kc.1)
         (u32 (erw_fd ctx)) BPF_ANY).1 = 0
  | _ => True
  end.

Fixpoint all_fit (s : st) (tr : list (kenv * call)) : Prop :=
  match tr with
  | [] => True
  | kc :: tr' => fits s kc /\ all_fit (exec (handle kc.1 kc.2) s) tr'
  end.

Lemma handle_writes k c s :
  fits s (k, c) -> writes (exec (handle k c) s) = writing (writes s) (k, c).
Proof.
  intros Hnf. unfold writing.
  destruct c; simpl; unfold trace_enter_open, trace_enter_openat, trace_enter_openat2,
    trace_exit_open, trace_exit_openat, trace_exit_openat2, trace_delete, trace_rename,
    trace_renameat, trace_renameat2, trace_link, trace_linkat, trace_symlink,
    trace_symlinkat; try apply finalize_writes;
    match goal with
    | |- context [remember_open_path ?k ?a ?b ?c] =>
        pose proof (remember_open_path_spec k a b c s) as (_ & _ & H & _)
    | |- context [submit_delete_path ?k ?a ?b] =>
        pose proof (submit_delete_path_spec k a b s) as (_ & _ & H & _)
    | |- context [submit_rename_paths ?k ?a ?b ?c] =>
        pose proof (submit_rename_paths_spec k a b c s) as (_ & _ & H & _)
    | |- context [submit_hardlink_paths ?k ?a ?b ?c] =>
        pose proof (submit_hardlink_paths_spec k a b c s) as (_ & _ & H & _)
    | |- context [submit_symlink_paths ?k ?a ?b ?c] =>
        pose proof (submit_symlink_paths_spec k a b c s) as (_ & _ & H & _)
    | |- context [trace_mmap ?k ?c] => pose proof (trace_mmap_spec k c s) as (_ & _ & H & _)
    | |- context [trace_close ?k ?c] => pose proof (trace_close_spec k c s) as (_ & _ & H & _)
    | |- context [trace_exit_write ?k ?c] =>
        pose proof (trace_exit_write_spec k c s) as (_ & _ & H & _)
    | |- context [trace_write ?k ?c] => pose proof (trace_write_spec k c s) as (_ & _ & H & _)
    end; cbv zeta in H; try done; unfold writes in *; rewrite H; try done.
  destruct (Z.eqb_spec (erw_count ctx) 0); [done|]. apply hash_update_ok. by apply Hnf.
Qed.

(** How an entry develops while [n] bytes are written to it. *)
Record entry_rel (n : Z) (v0 v1 : path_value) : Prop := {
  er_path : pv_path v1 = pv_path v0;
  er_flags : pv_open_flags v1 = pv_open_flags v0;
  er_bytes : pv_write_bytes v1 = u64 (pv_write_bytes v0 + n);
  er_seen : forall f, has_seen_flag (Some v0) f = true -> has_seen_flag (Some v1) f = true;
  er_wrote : has_seen_flag (Some v1) FD_SEEN_WRITE =
             has_seen_flag (Some v0) FD_SEEN_WRITE || (0 <? n);
}.

Lemma entry_rel_refl v : fd_entry_ok v -> entry_rel 0 v v.
Proof.
  intros (_ & _ & H & _). split; try done; [|by rewrite orb_false_r].
  rewrite Z.add_0_r, u64_small; done.
Qed.

Lemma entry_rel_trans n1 n2 v0 v1 v2 :
  0 <= n1 -> 0 <= n2 -> entry_rel n1 v0 v1 -> entry_rel n2 v1 v2 ->
  entry_rel (n1 + n2) v0 v2.
Proof.
  intros Hn1 Hn2 [A1 A2 A3 A4 A5] [B1 B2 B3 B4 B5]. split; [congruence..| | |].
  - rewrite B3, A3, u64_add_u64_l. f_equal. lia.
  - auto.
  - rewrite B5, A5, <- orb_assoc. f_equal.
    destruct (Z.ltb_spec 0 n1), (Z.ltb_spec 0 n2), (Z.ltb_spec 0 (n1 + n2)); simpl; lia.
Qed.

Lemma entry_rel_written n v :
  0 < n -> fd_entry_ok v -> entry_rel n v (written n v).
Proof.
  intros Hn (_ & _ & _ & H & _). unfold written. split; try done.
  - simpl. apply u64_add_u64_r.
  - intros f Hf. by apply set_seen_flag_mono.
  - rewrite has_set_seen_flag, (proj2 (Z.ltb_lt 0 n)), orb_true_r by done. done.
Qed.

Lemma entry_rel_mmap prot v v' op :
  mmap_ref prot v = Some (v', op) -> fd_entry_ok v -> entry_rel 0 v v'.
Proof.
  unfold mmap_ref. intros H (_ & _ & H1 & H2 & _).
  repeat case_match; simplify_eq; (split; try done;
    [simpl; rewrite Z.add_0_r, u64_small; done|intros f Hf; by apply set_seen_flag_mono|
     rewrite orb_false_r; by apply set_seen_flag_other]).
Qed.

Lemma bytes_of_nonneg key w kc : 0 <= bytes_of key w kc.
Proof. unfold bytes_of. repeat case_match; zbool; lia. Qed.

Lemma bytes_to_nonneg key w tr : 0 <= bytes_to key w tr.
Proof.
  revert w. induction tr as [|kc tr IH]; intros w; simpl; [lia|].
  pose proof (bytes_of_nonneg key w kc). pose proof (IH (writing w kc)). lia.
Qed.

(** Handlers that leave [fd_paths] alone. *)
Lemma handle_fds_same k c s :
  match c with
  | SysExitOpen _ | SysExitOpenat _ | SysExitOpenat2 _ | SysExitWrite _
  | SysEnterMmap _ | SysEnterClose _ => True
  | _ => fds (exec (handle k c) s) = fds s
  end.
Proof.
  destruct c; try done; simpl; unfold trace_enter_open, trace_enter_openat,
    trace_enter_openat2, trace_delete, trace_rename, trace_renameat, trace_renameat2,
    trace_link, trace_linkat, trace_symlink, trace_symlinkat;
    match goal with
    | |- context [remember_open_path ?k ?a ?b ?c] =>
        pose proof (remember_open_path_spec k a b c s) as (_ & _ & _ & H & _)
    | |- context [submit_delete_path ?k ?a ?b] =>
        pose proof (submit_delete_path_spec k a b s) as (_ & _ & _ & H & _)
    | |- context [submit_rename_paths ?k ?a ?b ?c] =>
        pose proof (submit_rename_paths_spec k a b c s) as (_ & _ & _ & H & _)
    | |- context [submit_hardlink_paths ?k ?a ?b ?c] =>
        pose proof (submit_hardlink_paths_spec k a b c s) as (_ & _ & _ & H & _)
    | |- context [submit_symlink_paths ?k ?a ?b ?c] =>
        pose proof (submit_symlink_paths_spec k a b c s) as (_ & _ & _ & H & _)
    | |- context [trace_write ?k ?c] =>
        pose proof (trace_write_spec k c s) as (_ & _ & _ & H & _)
    end; cbv zeta in H; unfold fds; by rewrite H.
Qed.

Lemma finalize_entry k ctx key s v1 :
  (0 <= ex_ret ctx -> key_of k (u32 (ex_ret ctx)) <> key) ->
  fds (exec (finalize_open_fd k ctx) s) !! key = Some v1 -> fds s !! key = Some v1.
Proof.
  intros Hu Hv. destruct (finalize_open_fd_spec k ctx s) as (_ & _ & _ & H).
  cbv zeta in H. unfold fds in *.
  destruct (opens s !! _) as [v|]; [|destruct H as [H _]; by rewrite H in Hv].
  destruct (0 <=? ex_ret ctx) eqn:E; destruct H as [H _]; rewrite H in Hv; [|done].
  zbool. eapply update_other; [by apply Hu|done].
Qed.

(** One invocation that leaves the descriptor open: if its entry is still
    there, it developed by the bytes the invocation wrote. *)
Lemma handle_entry k c key s v1 :
  fileop_inv s -> untouched key (k, c) ->
  fds (exec (handle k c) s) !! key = Some v1 ->
  exists v0, fds s !! key = Some v0 /\ entry_rel (bytes_of key (writes s) (k, c)) v0 v1.
Proof.
  intros (_ & HI & _) Hu Hv. pose proof (handle_fds_same k c s) as Hsame.
  assert (forall v, fds s !! key = Some v -> entry_rel 0 v v) as Hrefl
    by (intros v E; by eapply entry_rel_refl, HI).
  destruct c; simpl in Hu; try (rewrite Hsame in Hv; eauto);
    try (apply finalize_entry in Hv; [by eauto|done]).
  - (* exit write *)
    simpl in Hv. destruct (trace_exit_write_spec k ctx s) as (_ & _ & _ & _ & H).
    cbv zeta in H. rewrite H in Hv. unfold bytes_of. simpl.
    destruct (writes s !! _) as [fd|]; [|by eauto].
    destruct (0 <? ex_ret ctx) eqn:E; [|by eauto]. zbool. simpl.
    rewrite lookup_alter in Hv. case_decide as Hk.
    + rewrite bool_decide_eq_true_2 by done. subst key.
      destruct (fds s !! key_of k fd) as [v0|] eqn:E0; simplify_eq/=.
      exists v0. split; [done|]. apply entry_rel_written; [done|]. by eapply HI.
    + rewrite bool_decide_eq_false_2 by done. eauto.
  - (* mmap *)
    simpl in Hv. destruct (trace_mmap_spec k ctx s) as (_ & _ & _ & H). cbv zeta in H.
    destruct (mmap_hit k (fds s) ctx) as [[v' op]|] eqn:E; [|rewrite H in Hv; by eauto].
    destruct H as [H _]. rewrite H in Hv. unfold mmap_hit in E.
    destruct (s64 _ <? 0); [done|]. destruct (fds s !! key_of k _) as [v|] eqn:Ev; [|done].
    rewrite lookup_insert in Hv. case_decide as Hk; simplify_eq; [|by eauto].
    exists v. split; [done|]. eapply entry_rel_mmap; [done|]. by eapply HI.
  - (* close *)
    simpl in Hv. destruct (trace_close_spec k ctx s) as (_ & _ & _ & H & _).
    cbv zeta in H. rewrite H, lookup_delete_ne in Hv by done. eauto.
Qed.

Lemma trace_entry tr key s v1 :
  Forall (fun kc => lawful kc.1) tr -> Forall (untouched key) tr -> all_fit s tr ->
  fileop_inv s -> fds (run_trace tr s) !! key = Some v1 ->
  exists v0, fds s !! key = Some v0 /\ entry_rel (bytes_to key (writes s) tr) v0 v1.
Proof.
  intros Hk Hu. revert s. induction Hk as [|[k c] tr Hk _ IH]; intros s Hf HI Hv.
  { exists v1. split; [done|]. apply entry_rel_refl. destruct HI as (_ & HI & _).
    by eapply HI. }
  inversion Hu as [|? ? Hu1 Hu2]; subst. rewrite run_trace_cons in Hv. simpl in Hv.
  destruct Hf as [Hf1 Hf2].
  apply (IH Hu2) in Hv as (v & Hv & Hrel); [|done|by apply handle_inv].
  apply handle_entry in Hv as (v0 & Hv0 & Hrel0); [|done..].
  exists v0. split; [done|]. simpl. rewrite handle_writes in Hrel by done.
  eapply entry_rel_trans; [apply bytes_of_nonneg|apply bytes_to_nonneg|done..].
Qed.

(** ** Isolation of tasks and processes *)

Lemma finalize_other_opens k ctx pid s :
  pid <> bpf_get_current_pid_tgid k ->
  opens (exec (finalize_open_fd k ctx) s) !! pid = opens s !! pid.
Proof.
  intros Hpid. destruct (finalize_open_fd_spec k ctx s) as (_ & H & _).
  cbv zeta in H. rewrite H. by apply lookup_delete_ne.
Qed.

Lemma remember_other_opens k filename dirfd flags pid s :
  pid <> bpf_get_current_pid_tgid k ->
  opens (exec (remember_open_path k filename dirfd flags) s) !! pid = opens s !! pid.
Proof.
  intros Hpid.
  destruct (remember_open_path_spec k filename dirfd flags s) as (_ & H & _).
  cbv zeta in H. unfold opens. rewrite H.
  destruct (remember_ref _ _ _ _ _); [|done]. by apply update_other_hash.
Qed.

(** A handler touches no pending open but that of its own task. *)
Lemma handle_other_opens k c pid s :
  pid <> bpf_get_current_pid_tgid k ->
  opens (exec (handle k c) s) !! pid = opens s !! pid.
Proof.
  intros Hpid. destruct c; simpl; try (by apply remember_other_opens);
    try (by apply finalize_other_opens);
    unfold trace_delete, trace_rename, trace_renameat, trace_renameat2, trace_link,
      trace_linkat, trace_symlink, trace_symlinkat;
    match goal with
    | |- context [submit_delete_path ?k ?a ?b] =>
        pose proof (submit_delete_path_spec k a b s) as (_ & H & _)
    | |- context [submit_rename_paths ?k ?a ?b ?c] =>
        pose proof (submit_rename_paths_spec k a b c s) as (_ & H & _)
    | |- context [submit_hardlink_paths ?k ?a ?b ?c] =>
        pose proof (submit_hardlink_paths_spec k a b c s) as (_ & H & _)
    | |- context [submit_symlink_paths ?k ?a ?b ?c] =>
        pose proof (submit_symlink_paths_spec k a b c s) as (_ & H & _)
    | |- context [trace_mmap ?k ?c] => pose proof (trace_mmap_spec k c s) as (_ & H & _)
    | |- context [trace_close ?k ?c] => pose proof (trace_close_spec k c s) as (_ & H & _)
    | |- context [trace_exit_write ?k ?c] =>
        pose proof (trace_exit_write_spec k c s) as (_ & H & _)
    | |- context [trace_write ?k ?c] => pose proof (trace_write_spec k c s) as (_ & H & _)
    end; cbv zeta in H; unfold opens; by rewrite H.
Qed.

Lemma run_trace_other_opens tr pid s :
  Forall (fun kc => bpf_get_current_pid_tgid kc.1 <> pid) tr ->
  opens (run_trace tr s) !! pid = opens s !! pid.
Proof.
  intros Htr. revert s. induction Htr as [|[k c] tr Hk _ IH]; intros s; [done|].
  rewrite run_trace_cons, IH. simpl in *. by apply handle_other_opens.
Qed.

(** A handler keeps or drops the descriptors of other processes; it never
    changes or adds one. *)
Lemma handle_other_fds k c key s :
  fk_tgid key <> tgid_of (bpf_get_current_pid_tgid k) ->
  fds (exec (handle k c) s) !! key = fds s !! key \/
  fds (exec (handle k c) s) !! key = None.
Proof.
  intros Hkey. assert (forall fd, key_of k fd <> key) as Hne
    by (intros fd <-; by apply Hkey).
  destruct (fds (exec (handle k c) s) !! key) as [v|] eqn:Ev; [left|by right].
  pose proof (handle_fds_same k c s) as Hsame.
  destruct c; simpl in *; try (by rewrite <- Hsame, Ev);
    try (by apply finalize_entry in Ev).
  - destruct (trace_exit_write_spec k ctx s) as (_ & _ & _ & _ & H).
    cbv zeta in H. rewrite H in Ev. repeat case_match; try (by rewrite Ev).
    by rewrite lookup_alter_ne in Ev.
  - destruct (trace_mmap_spec k ctx s) as (_ & _ & _ & H). cbv zeta in H.
    destruct (mmap_hit _ _ _) as [[v' op]|]; [|by rewrite H in Ev].
    destruct H as [H _]. by rewrite H, lookup_insert_ne in Ev.
  - destruct (trace_close_spec k ctx s) as (_ & _ & _ & H & _). cbv zeta in H.
    by rewrite H, lookup_delete_ne in Ev.
Qed.
End Props.
