(* ===== verification/FileopTheorems.v ===== *)
(** * File-operation probe: theorems

    The properties of [fileop/fileop.bpf.c] over traces: an invocation is a
    handler with the kernel context it runs in; each runs at once, and invocations of
    all tasks follow each other in any order.  Invocations that overlap on several CPUs
    are in [FileopConc].  A witness runs the probe on the maps of [RefKernel]. *)

From S2P Require Import Prelude Helpers RefKernel FileopPaths Fileop FileopSpec FileopProps.

(** ** A concrete run *)

Module Demo.
Definition uninit : event := Event 0 0 0 0 0 0 0 [] [] [].

Definition opens_map := ref_hash Z path_value (Z.to_nat MAX_ENTRIES).
Definition writes_map := ref_hash Z Z (Z.to_nat MAX_ENTRIES).
Definition heap_map := ref_array path_value 2 path_value_zero.
Definition fds_map := ref_lru fd_key path_value (Z.to_nat MAX_ENTRIES).
Definition ring := ref_ringbuf event uninit.

Definition init : state opens_map writes_map heap_map fds_map ring :=
  State (MO := opens_map) (MW := writes_map) (MH := heap_map) (MF := fds_map) (RB := ring)
    ∅ ∅ ∅ ∅ ([], []).

#[export] Instance opens_map_ok : HashOk opens_map := _.
#[export] Instance writes_map_ok : HashOk writes_map := _.
#[export] Instance heap_map_ok : ArrayOk 2 heap_map := _.
#[export] Instance fds_map_ok : LruOk fds_map := _.
#[export] Instance ring_ok : RingbufOk ring := _.

(** User memory with two path strings. *)
Definition user : mem :=
  mem_union (mem_at 4096 (str "/home/u/notes.txt" ++ [0]))
    (mem_union (mem_at 8192 (str "/home/u" ++ [0])) (mem_at 12288 (str "todo" ++ [0]))).

(** Threads 1001 and 1002 of process 1000, and a thread of process 2000. *)
Definition k1 : kenv := ref_kenv user 10 (1000 * 2 ^ 32 + 1001) 0 1 0 "editor".
Definition k2 : kenv := ref_kenv user 20 (1000 * 2 ^ 32 + 1002) 0 1 0 "editor".
Definition k3 : kenv := ref_kenv user 30 (2000 * 2 ^ 32 + 2000) 0 1 0 "other".

Definition open_notes : list (kenv * call) :=
  [(k1, SysEnterOpenat (EnterOpenatCtx 0 257 AT_FDCWD 4096 577 420));
   (k3, SysEnterWrite (EnterRwCtx 0 1 5 0 7))].

Definition opened : list (kenv * call) :=
  open_notes ++ [(k1, SysExitOpenat (ExitCtx 0 257 5))].

(** Two threads write to the descriptor while another process writes to its
    own descriptor of that number. *)
Definition use_notes : list (kenv * call) :=
  [(k1, SysEnterWrite (EnterRwCtx 0 1 5 0 100));
   (k2, SysEnterWrite (EnterRwCtx 0 1 5 0 50));
   (k3, SysExitWrite (ExitCtx 0 1 7));
   (k1, SysExitWrite (ExitCtx 0 1 60));
   (k2, SysExitWrite (ExitCtx 0 1 50));
   (k1, SysEnterWrite (EnterRwCtx 0 1 5 0 10));
   (k1, SysExitWrite (ExitCtx 0 1 (-4)))].

Definition close_notes : enter_close_ctx := EnterCloseCtx 0 3 5.
Definition key : fd_key := FdKey 1000 5.
End Demo.

Lemma ref_lawful m now pid uid cg task name : lawful (ref_kenv m now pid uid cg task name).
Proof. exists m. apply _. Qed.
#[export] Hint Resolve ref_lawful : watchu.

(** Discharges that every context of a concrete trace is lawful, or that a
    concrete trace leaves a descriptor alone. *)
Ltac demo_trace :=
  repeat (apply Forall_cons; split; [first [apply ref_lawful|done]|]); apply Forall_nil; done.

Section Theorems.
Context {MO : bpf_map Z path_value} {MW : bpf_map Z Z} {MH : bpf_map Z path_value}.
Context {MF : bpf_map fd_key path_value} {RB : bpf_ringbuf event}.
Context `{!HashOk MO, !HashOk MW, !ArrayOk 2 MH, !LruOk MF, !RingbufOk RB}.
Local Abbreviation st := (state MO MW MH MF RB).
Implicit Types (s : st) (k : kenv).

Lemma empty_inv s : opens s = ∅ -> fds s = ∅ -> evs s = [] -> fileop_inv s.
Proof.
  intros H1 H2 H3. unfold fileop_inv. rewrite H1, H2, H3.
  split; [apply map_Forall_empty|]. split; [apply map_Forall_empty|constructor].
Qed.

(** C37. From empty maps, after any interleaving of invocations of the 18
    handlers by any tasks: every tracked path is a non-empty, NUL-terminated,
    zero-padded string outside the noise directories, the seen flags and byte
    counters are in range, and every event the consumer can see carries a
    valid operation code and passed the filters of its operation. *)
Theorem fileop_invariant tr s :
  opens s = ∅ -> fds s = ∅ -> evs s = [] ->
  Forall (fun kc => lawful kc.1) tr ->
  fileop_inv (run_trace tr s).
Proof.
  intros H1 H2 H3 Htr. apply run_trace_inv; [done|]. by apply empty_inv.
Qed.

(** Write accounting of whole invocations.  Over any sequence of them that neither
    closes nor reopens a descriptor, a tracked entry that is not evicted keeps its path
    and open flags, and its byte counter grows by exactly the bytes the
    completed writes of all threads of the process put through that
    descriptor (modulo 2^64); it is marked written iff it was before or some
    byte was written. *)
Theorem write_accounting tr key s v1 :
  Forall (fun kc => lawful kc.1) tr -> Forall (untouched key) tr -> all_fit s tr ->
  fileop_inv s -> fds (run_trace tr s) !! key = Some v1 ->
  exists v0, fds s !! key = Some v0 /\
    pv_path v1 = pv_path v0 /\ pv_open_flags v1 = pv_open_flags v0 /\
    pv_write_bytes v1 = u64 (pv_write_bytes v0 + bytes_to key (writes s) tr) /\
    has_seen_flag (Some v1) FD_SEEN_WRITE =
      has_seen_flag (Some v0) FD_SEEN_WRITE || (0 <? bytes_to key (writes s) tr).
Proof.
  intros H1 H2 H3 H4 Hv. apply trace_entry in Hv as (v0 & Hv0 & [E1 E2 E3 _ E5]); [|done..].
  eauto 10.
Qed.

Lemma finalize_tracked k ctx s v :
  opens s !! bpf_get_current_pid_tgid k = Some v -> 0 <= ex_ret ctx ->
  (update_elem (st_fd_paths s) (key_of k (u32 (ex_ret ctx))) v BPF_ANY).1 = 0 ->
  let s' := exec (finalize_open_fd k ctx) s in
  fds s' !! key_of k (u32 (ex_ret ctx)) = Some v /\
  opens s' = delete (bpf_get_current_pid_tgid k) (opens s) /\
  evs s' = evs s ++ (if can_reserve s
    then option_list (fd_event_opt k v (file_op_code FILE_OP_OPEN) 0) else []).
Proof.
  intros Hv Hret Hup. destruct (finalize_open_fd_spec k ctx s) as (_ & H1 & _ & H2).
  cbv zeta in *. rewrite Hv, (proj2 (Z.leb_le _ _) Hret) in H2. destruct H2 as [H2 H3].
  unfold fds. rewrite H2. split; [by apply lru_update_some|done].
Qed.

(** The write summary of whole invocations.  A descriptor is opened, used by any
    sequence of them that neither closes nor reopens it, and closed.  Unless
    its entry was evicted or its path is filtered, the close reports one
    WRITE event with the path and flags of the open and the exact number of
    bytes written in between (modulo 2^64) when that is positive, reports
    nothing when nothing was written, and forgets the descriptor. *)
Theorem write_summary_at_close ko octx tr kc cctx s v :
  let key := key_of ko (u32 (ex_ret octx)) in
  let s1 := exec (handle ko (SysExitOpenat octx)) s in
  let s2 := run_trace tr s1 in
  let total := bytes_to key (writes s) tr in
  lawful ko -> Forall (fun kc => lawful kc.1) tr ->
  fileop_inv s -> opens s !! bpf_get_current_pid_tgid ko = Some v -> 0 <= ex_ret octx ->
  (update_elem (st_fd_paths s) key v BPF_ANY).1 = 0 ->
  Forall (untouched key) tr -> all_fit s1 tr -> is_Some (fds s2 !! key) ->
  key_of kc (ecl_fd cctx) = key -> can_reserve s2 = true ->
  should_drop_fd_event (Some v) (file_op_code FILE_OP_WRITE) = false ->
  let s3 := exec (handle kc (SysEnterClose cctx)) s2 in
  fds s3 !! key = None /\
  exists e, evs s3 = evs s2 ++ (if 0 <? total then [e] else []) /\
    ev_op e = file_op_code FILE_OP_WRITE /\ ev_bytes e = u64 total /\
    ev_path e = pv_path v /\ ev_flags e = pv_open_flags v.
Proof.
  cbv zeta. intros Hko Hk HI Hv Hret Hup Hu Hf [v1 Hv1] Hkey Hroom Hdrop.
  set (s1 := exec (handle ko (SysExitOpenat octx)) s) in *.
  destruct (trace_close_spec kc cctx (run_trace tr s1)) as (_ & _ & _ & Hc1 & Hc2).
  cbv zeta in Hc1, Hc2. rewrite Hkey in *.
  change (handle kc (SysEnterClose cctx)) with (@trace_close MO MW MH MF RB kc cctx).
  rewrite Hc1, Hc2, lookup_delete_eq, Hv1, Hroom. split; [done|].
  assert (fileop_inv s1) as HI1 by by apply handle_inv.
  apply trace_entry in Hv1 as (v0 & Hv0 & [E1 E2 E3 _ E5]); [|done..].
  destruct (finalize_tracked ko octx s v Hv Hret Hup) as (Ht & _).
  simpl in s1. unfold trace_exit_openat in s1. fold s1 in Ht.
  assert (v0 = v) as -> by congruence.
  replace (writes s1) with (writes s) in * by (symmetry; apply finalize_writes).
  pose proof HI as (HO & _). destruct (HO _ _ Hv) as (_ & _ & Hb & Hs).
  assert (has_seen_flag (Some v) FD_SEEN_WRITE = false) as Hns
    by (unfold has_seen_flag; by rewrite Hs).
  rewrite Hns in E5. rewrite Hb, Z.add_0_l in E3. simpl in E5.
  exists (fd_event kc v1 (file_op_code FILE_OP_WRITE) (pv_write_bytes v1)).
  unfold close_event, fd_event_opt. rewrite E5.
  replace (should_drop_fd_event (Some v1) (file_op_code FILE_OP_WRITE)) with false
    by (rewrite <- Hdrop; unfold should_drop_fd_event; by rewrite E1).
  simpl. rewrite E1, E2, E3. by destruct (0 <? _).
Qed.

(** An entry after the first mapping of its kind. *)
Lemma mmap_marks k ctx s v :
  fileop_inv s -> 0 <= s64 (emm_fd ctx) ->
  fds (exec (trace_mmap k ctx) s) !! key_of k (u32 (emm_fd ctx)) = Some v ->
  mmap_ref (emm_prot ctx) v = None.
Proof.
  intros (_ & HI & _) Hfd Hv. destruct (trace_mmap_spec k ctx s) as (_ & _ & _ & H).
  cbv zeta in H. unfold mmap_hit in H. rewrite (proj2 (Z.ltb_ge _ _) Hfd) in H.
  destruct (fds s !! _) as [v0|] eqn:E0; [|rewrite H in Hv; by simplify_eq].
  destruct (mmap_ref (emm_prot ctx) v0) as [[v' op]|] eqn:E.
  2:{ rewrite H in Hv. by simplify_eq. }
  destruct H as [H _]. rewrite H, lookup_insert_eq in Hv. simplify_eq.
  destruct (HI _ _ E0) as (_ & _ & _ & Hs & _).
  unfold mmap_ref in *. repeat case_match; simplify_eq; try done;
    by rewrite has_set_seen_flag in *.
Qed.

(** C25. Mappings are reported once.  After a mapping of a descriptor, whatever
    invocations of any tasks follow, each of them at once, as long as the descriptor is
    neither closed nor reopened, a further mapping of the same kind (writable or not) of
    that descriptor by any thread of the process reports nothing and changes
    nothing. *)
Theorem mmap_reported_once k1 ctx1 tr k2 ctx2 s :
  let key := key_of k1 (u32 (emm_fd ctx1)) in
  let s1 := exec (handle k1 (SysEnterMmap ctx1)) s in
  let s2 := run_trace tr s1 in
  lawful k1 -> Forall (fun kc => lawful kc.1) tr -> fileop_inv s ->
  0 <= s64 (emm_fd ctx1) -> Forall (untouched key) tr -> all_fit s1 tr ->
  key_of k2 (u32 (emm_fd ctx2)) = key ->
  (Z.land (emm_prot ctx2) PROT_WRITE =? 0) = (Z.land (emm_prot ctx1) PROT_WRITE =? 0) ->
  exec (handle k2 (SysEnterMmap ctx2)) s2 = s2.
Proof.
  cbv zeta. intros Hk1 Hk HI Hfd Hu Hf Hkey Hprot.
  set (s1 := exec (handle k1 (SysEnterMmap ctx1)) s) in *.
  assert (fileop_inv s1) as HI1 by by apply handle_inv.
  destruct (trace_mmap_spec k2 ctx2 (run_trace tr s1)) as (_ & _ & _ & H). cbv zeta in H.
  replace (mmap_hit k2 (fds (run_trace tr s1)) ctx2) with (@None (path_value * file_op_type))
    in H; [done|].
  unfold mmap_hit. rewrite Hkey. destruct (s64 (emm_fd ctx2) <? 0); [done|].
  destruct (fds (run_trace tr s1) !! _) as [v|] eqn:Ev; [|done].
  apply trace_entry in Ev as (v1 & Hv1 & [_ _ _ E4 _]); [|done..].
  apply mmap_marks in Hv1; [|done..]. unfold mmap_ref in *. rewrite Hprot.
  destruct (Z.land (emm_prot ctx1) PROT_WRITE =? 0).
  - destruct (has_seen_flag (Some v1) FD_SEEN_MMAP_READ) eqn:E1; [|done]. by rewrite E4.
  - destruct (has_seen_flag (Some v1) FD_SEEN_MMAP_WRITE) eqn:E1; [|done]. by rewrite E4.
Qed.

(** The entry a readable, unfiltered open leaves. *)
Lemma remember_ref_resolved k m M filename dirfd flags v :
  UserMem k m -> map_Forall (fun _ v => fd_entry_ok v) M ->
  remember_ref k M filename dirfd flags = Some v ->
  exists p, path_string p /\
    resolved m M (tgid_of (bpf_get_current_pid_tgid k)) dirfd filename p /\
    v = PathValue (pad p) 0 flags 0.
Proof.
  intros Hm HM. unfold remember_ref.
  pose proof (resolve_ref_spec k m M (tgid_of (bpf_get_current_pid_tgid k)) dirfd filename
    Hm) as H. destruct (resolve_ref _ _ _ _ _) as [r p].
  destruct H as [->|(-> & _ & q & Hq & -> & Hres)]; [|done|].
  { intros key w Hw. by apply (HM _ _ Hw). }
  simpl. destruct (is_noise_path _); [done|]. intros [= <-]. eauto.
Qed.

(** A successful open.  The entry of openat, any interleaving of other
    tasks, and the exit of the same task with a descriptor: if the path could
    be read and is not filtered, the descriptor is tracked under the path the
    process named (joined with the tracked path of the directory descriptor
    when it is relative) with the flags of the call, no byte counted yet and
    nothing pending for the task, and one OPEN event with that path is
    reported, unless it is dropped as overlay noise. *)
Theorem open_tracks_path k1 m ctx tr k2 ectx s :
  let pid := bpf_get_current_pid_tgid k1 in
  let s1 := exec (handle k1 (SysEnterOpenat ctx)) s in
  let s2 := run_trace tr s1 in
  let s3 := exec (handle k2 (SysExitOpenat ectx)) s2 in
  let key := key_of k2 (u32 (ex_ret ectx)) in
  UserMem k1 m -> fileop_inv s ->
  Forall (fun kc => bpf_get_current_pid_tgid kc.1 <> pid) tr ->
  bpf_get_current_pid_tgid k2 = pid -> 0 <= ex_ret ectx ->
  is_Some (remember_ref k1 (fds s) (eoa_filename ctx) (eoa_dfd ctx) (u64 (eoa_flags ctx))) ->
  (forall v, (update_elem (st_inflight_open s) pid v BPF_ANY).1 = 0) ->
  (forall v, (update_elem (st_fd_paths s2) key v BPF_ANY).1 = 0) ->
  can_reserve s2 = true ->
  exists p e, resolved m (fds s) (tgid_of pid) (eoa_dfd ctx) (eoa_filename ctx) p /\
    fds s3 !! key = Some (PathValue (pad p) 0 (u64 (eoa_flags ctx)) 0) /\
    opens s3 !! pid = None /\
    evs s3 = evs s2 ++ (if path_is_runtime_overlay_noise (Some (pad p)) then [] else [e]) /\
    ev_op e = file_op_code FILE_OP_OPEN /\ ev_path e = pad p /\ ev_pid_tgid e = pid.
Proof.
  cbv zeta. intros Hm HI Htr Hpid Hret [v Hv] Hup1 Hup2 Hroom.
  set (s1 := exec (handle k1 (SysEnterOpenat ctx)) s) in *. pose proof HI as (_ & HM & _).
  destruct (remember_ref_resolved _ _ _ _ _ _ _ Hm HM Hv) as (p & Hp & Hres & ->).
  set (v := PathValue (pad p) 0 (u64 (eoa_flags ctx)) 0) in *.
  assert (opens s1 !! bpf_get_current_pid_tgid k1 = Some v) as Ho1.
  { destruct (remember_open_path_spec k1 (eoa_filename ctx) (eoa_dfd ctx)
      (u64 (eoa_flags ctx)) s) as (_ & H & _). cbv zeta in H. rewrite Hv in H.
    unfold opens, s1. simpl. unfold trace_enter_openat. rewrite H.
    by apply lru_update_some. }
  rewrite <- (run_trace_other_opens tr _ s1 Htr), <- Hpid in Ho1.
  destruct (finalize_tracked k2 ectx _ v Ho1 Hret (Hup2 v)) as (H1 & H2 & H3).
  exists p, (fd_event k2 v (file_op_code FILE_OP_OPEN) 0). split; [done|].
  split; [done|]. split; [simpl; unfold trace_exit_openat; by rewrite H2, <- Hpid, lookup_delete_eq|].
  split; [|done]. simpl. unfold trace_exit_openat. rewrite H3, Hroom.
  unfold fd_event_opt, should_drop_fd_event. simpl.
  by destruct (path_is_runtime_overlay_noise _).
Qed.

(** A failed open leaves no trace: when the exit of the task reports an
    error, nothing is tracked or reported and nothing stays pending. *)
Theorem failed_open_forgotten k ctx s :
  ex_ret ctx < 0 ->
  let s' := exec (handle k (SysExitOpenat ctx)) s in
  opens s' = delete (bpf_get_current_pid_tgid k) (opens s) /\
  fds s' = fds s /\ writes s' = writes s /\ evs s' = evs s.
Proof.
  intros Hret. destruct (finalize_open_fd_spec k ctx s) as (_ & H1 & H2 & H3).
  cbv zeta in *. rewrite (proj2 (Z.leb_gt _ _) Hret) in H3.
  simpl. unfold trace_exit_openat, fds, writes. rewrite H2.
  split; [done|]. destruct (opens s !! _); destruct H3 as [-> ->]; done.
Qed.

(** Isolation.  Whatever program runs for a task, a descriptor of another
    process keeps its entry unchanged (or loses it to eviction), and the
    pending open of another task is untouched. *)
Theorem fileop_isolation k c s :
  (forall key, fk_tgid key <> tgid_of (bpf_get_current_pid_tgid k) ->
     fds (exec (handle k c) s) !! key = fds s !! key \/
     fds (exec (handle k c) s) !! key = None) /\
  (forall pid, pid <> bpf_get_current_pid_tgid k ->
     opens (exec (handle k c) s) !! pid = opens s !! pid).
Proof. split; intros; [by apply handle_other_fds|by apply handle_other_opens]. Qed.

(** The path a path event is about: the one that is resolved against its
    directory descriptor and filtered. *)
Definition subject (c : call) : option (file_op_type * Z * Z) :=
  match c with
  | SysEnterUnlinkat ctx => Some (FILE_OP_DELETE, eul_dfd ctx, eul_pathname ctx)
  | SysEnterRename ctx => Some (FILE_OP_RENAME, AT_FDCWD, ern_oldname ctx)
  | SysEnterRenameat ctx => Some (FILE_OP_RENAME, era_olddfd ctx, era_oldname ctx)
  | SysEnterRenameat2 ctx => Some (FILE_OP_RENAME, er2_olddfd ctx, er2_oldname ctx)
  | SysEnterLink ctx => Some (FILE_OP_HARDLINK, AT_FDCWD, eln_oldname ctx)
  | SysEnterLinkat ctx => Some (FILE_OP_HARDLINK, ela_olddfd ctx, ela_oldname ctx)
  | SysEnterSymlink ctx => Some (FILE_OP_SYMLINK, AT_FDCWD, esl_newname ctx)
  | SysEnterSymlinkat ctx => Some (FILE_OP_SYMLINK, esa_newdfd ctx, esa_newname ctx)
  | _ => None
  end.

(** The other path argument, copied as it is. *)
Definition object (c : call) : Z :=
  match c with
  | SysEnterRename ctx => ern_newname ctx
  | SysEnterRenameat ctx => era_newname ctx
  | SysEnterRenameat2 ctx => er2_newname ctx
  | SysEnterLink ctx => eln_newname ctx
  | SysEnterLinkat ctx => ela_newname ctx
  | SysEnterSymlink ctx => esl_oldname ctx
  | SysEnterSymlinkat ctx => esa_oldname ctx
  | _ => 0
  end.

Definition subject_path (op : file_op_type) (e : event) : list Z :=
  match op with FILE_OP_SYMLINK => ev_new_path e | _ => ev_path e end.
Definition object_path (op : file_op_type) (e : event) : list Z :=
  match op with FILE_OP_SYMLINK => ev_path e | _ => ev_new_path e end.

(** The event of a path operation, from the contents of [fd_paths]. *)
Definition path_ref k (M : gmap fd_key path_value) (op : file_op_type)
    (dirfd subj obj : Z) : option event :=
  match op with
  | FILE_OP_DELETE => delete_ref k M subj dirfd
  | FILE_OP_SYMLINK => symlink_ref k M obj subj dirfd
  | _ => two_path_ref k op M subj dirfd obj
  end.

Lemma handle_path_spec k c s op dirfd subj :
  subject c = Some (op, dirfd, subj) ->
  emits s (exec (handle k c) s) (path_ref k (fds s) op dirfd subj (object c)).
Proof.
  destruct c; simpl; intros [= <- <- <-];
    [apply submit_delete_path_spec|apply submit_rename_paths_spec..|
     apply submit_hardlink_paths_spec|apply submit_hardlink_paths_spec|
     apply submit_symlink_paths_spec|apply submit_symlink_paths_spec].
Qed.

Lemma copy_user_path_string k m src p :
  UserMem k m -> copy_user_path k zero_path sizeof_path src = (0, p) ->
  exists q, user_string m src q /\ p = pad q.
Proof.
  intros Hm E. pose proof (copy_user_path_spec k m src Hm) as H. rewrite E in H.
  destruct H as [?|(_ & _ & H)]; [done|done].
Qed.

Lemma resolve_ref_string k m M tgid dirfd src p :
  UserMem k m -> map_Forall (fun _ v => fd_entry_ok v) M ->
  resolve_ref k M tgid dirfd src = (0, p) ->
  exists q, resolved m M tgid dirfd src q /\ p = pad q.
Proof.
  intros Hm HM E. pose proof (resolve_ref_spec k m M tgid dirfd src Hm) as H.
  rewrite E in H. destruct H as [?|(_ & _ & q & _ & -> & ?)]; [|done|eauto].
  intros key w Hw. by apply (HM _ _ Hw).
Qed.

Lemma path_ref_sound k m M op dirfd subj obj e :
  UserMem k m -> map_Forall (fun _ v => fd_entry_ok v) M ->
  op <> FILE_OP_DELETE \/ obj = 0 ->
  path_ref k M op dirfd subj obj = Some e ->
  ev_op e = file_op_code op /\ ev_pid_tgid e = bpf_get_current_pid_tgid k /\
  (exists p, resolved m M (tgid_of (bpf_get_current_pid_tgid k)) dirfd subj p /\
     subject_path op e = pad p /\ noisy (pad p) = false) /\
  (obj = 0 /\ object_path op e = zero_path \/
   exists q, user_string m obj q /\ object_path op e = pad q).
Proof.
  intros Hm HM Hop H. unfold path_ref, two_path_ref, delete_ref, symlink_ref in H.
  destruct (resolve_ref k M _ dirfd subj) as [r p] eqn:Er.
  destruct op; destruct (copy_user_path k zero_path sizeof_path obj) as [r2 q] eqn:Ec;
    destruct (Z.eqb_spec r 0) as [->|]; simpl in H; try done;
    try (destruct (noisy p) eqn:En; [by simpl in H; destruct (r2 =? 0)|]; simpl in H);
    try (destruct (Z.eqb_spec obj 0) as [->|Hobj]; simpl in H);
    destruct (Z.eqb_spec r2 0) as [->|]; simpl in H; simplify_eq/=;
    apply (resolve_ref_string k m) in Er as (p' & Hp' & ->); try done;
    try (apply (copy_user_path_string k m) in Ec as (q' & Hq' & ->); [|done]);
    (split; [done|]; split; [done|]; split; [by eauto|]); try (by left); try (by right; eauto).
  all: destruct Hop; by simplify_eq.
Qed.

(** C35. Path events are sound.  An unlinkat, rename, link or symlink probe
    reports at most one event and changes no map the other probes use.  The
    event carries the operation of the call and the calling task; the path it
    is about is the one the process named, resolved against the tracked
    directory descriptor, and is not a noise path; the other path is the
    string the process passed. *)
Theorem path_events_sound k m c s op dirfd subj :
  subject c = Some (op, dirfd, subj) -> UserMem k m -> fileop_inv s ->
  let s' := exec (handle k c) s in
  opens s' = opens s /\ writes s' = writes s /\ fds s' = fds s /\
  (evs s' = evs s \/
   exists e, evs s' = evs s ++ [e] /\
     ev_op e = file_op_code op /\ ev_pid_tgid e = bpf_get_current_pid_tgid k /\
     (exists p, resolved m (fds s) (tgid_of (bpf_get_current_pid_tgid k)) dirfd subj p /\
        subject_path op e = pad p /\ noisy (pad p) = false) /\
     (object c = 0 /\ object_path op e = zero_path \/
      exists q, user_string m (object c) q /\ object_path op e = pad q)).
Proof.
  intros Hc Hm (_ & HM & _). cbv zeta.
  destruct (handle_path_spec k c s op dirfd subj Hc) as (H1 & H2 & H3 & H4).
  unfold opens, writes, fds. rewrite H1, H2, H3, H4.
  repeat (split; [done|]). fold (fds s).
  destruct (can_reserve s); [|by left; rewrite app_nil_r].
  destruct (path_ref _ _ _ _ _ _) as [e|] eqn:E; [|by left; rewrite app_nil_r].
  right. exists e. split; [done|]. eapply path_ref_sound in E; try done.
  destruct c; simpl in Hc; simplify_eq; simpl; (by right) || (left; discriminate).
Qed.

(** C36. Path events are complete.  When the ring buffer has room, the path
    the operation is about resolves to one that is not noise, and the other
    path is NULL or readable (a symlink has it readable), the event is
    reported. *)
Theorem path_events_complete k c s op dirfd subj p :
  subject c = Some (op, dirfd, subj) -> can_reserve s = true ->
  resolve_ref k (fds s) (tgid_of (bpf_get_current_pid_tgid k)) dirfd subj = (0, p) ->
  noisy p = false ->
  (object c = 0 /\ op <> FILE_OP_SYMLINK \/
   (copy_user_path k zero_path sizeof_path (object c)).1 = 0) ->
  exists e, evs (exec (handle k c) s) = evs s ++ [e] /\
    ev_op e = file_op_code op /\ subject_path op e = p.
Proof.
  intros Hc Hroom Hres Hn Hobj.
  destruct (handle_path_spec k c s op dirfd subj Hc) as (_ & _ & _ & H4).
  rewrite Hroom in H4.
  assert (exists e, path_ref k (fds s) op dirfd subj (object c) = Some e /\
    ev_op e = file_op_code op /\ subject_path op e = p) as (e & E & He).
  { unfold path_ref, delete_ref, two_path_ref, symlink_ref. rewrite Hres, Hn. simpl.
    destruct (copy_user_path k zero_path sizeof_path (object c)) as [r q].
    destruct op; destruct Hobj as [[E0 Hs]|E0]; simpl in E0; try rewrite E0; simpl;
      try (destruct (object c =? 0); simpl); eauto; done. }
  rewrite E in H4. eauto.
Qed.
End Theorems.

(** ** Witnesses *)

Lemma demo_inv tr : Forall (fun kc => lawful kc.1) tr -> fileop_inv (run_trace tr Demo.init).
Proof.
  intros Htr. apply run_trace_inv; [done|]. by apply empty_inv.
Qed.

Lemma demo_opened_lawful : Forall (fun kc => lawful kc.1) Demo.opened.
Proof. demo_trace. Qed.
Lemma demo_use_lawful : Forall (fun kc => lawful kc.1) Demo.use_notes.
Proof. demo_trace. Qed.
Lemma demo_use_untouched : Forall (untouched Demo.key) Demo.use_notes.
Proof. demo_trace. Qed.

Lemma fileop_invariant_witness :
  fileop_inv (run_trace (Demo.opened ++ Demo.use_notes) Demo.init).
Proof.
  apply fileop_invariant; [reflexivity..|].
  apply Forall_app_2; [exact demo_opened_lawful|exact demo_use_lawful].
Defined.

Lemma write_accounting_witness :
  bytes_to Demo.key ∅ Demo.use_notes = 110 /\
  exists v0, fds (run_trace Demo.opened Demo.init) !! Demo.key = Some v0.
Proof.
  split; [vm_compute; reflexivity|].
  destruct (write_accounting Demo.use_notes Demo.key (run_trace Demo.opened Demo.init)
    (PathValue (pad (str "/home/u/notes.txt")) 110 577 1)) as (v0 & H & _).
  - exact demo_use_lawful.
  - exact demo_use_untouched.
  - vm_compute; repeat split; intros; congruence.
  - exact (demo_inv _ demo_opened_lawful).
  - vm_compute; reflexivity.
  - exists v0. exact H.
Defined.

Lemma write_summary_at_close_witness :
  let s1 := exec (handle Demo.k1 (SysExitOpenat (ExitCtx 0 257 5)))
    (run_trace Demo.open_notes Demo.init) in
  let s2 := run_trace Demo.use_notes s1 in
  exists e, evs (exec (handle Demo.k2 (SysEnterClose Demo.close_notes)) s2) =
    evs s2 ++ [e] /\ ev_bytes e = 110.
Proof.
  destruct (write_summary_at_close Demo.k1 (ExitCtx 0 257 5) Demo.use_notes Demo.k2
    Demo.close_notes (run_trace Demo.open_notes Demo.init)
    (PathValue (pad (str "/home/u/notes.txt")) 0 577 0)) as (_ & e & H & _ & Hb & _).
  - apply ref_lawful.
  - exact demo_use_lawful.
  - apply demo_inv. demo_trace.
  - vm_compute; reflexivity.
  - vm_compute; discriminate.
  - vm_compute; reflexivity.
  - exact demo_use_untouched.
  - vm_compute; repeat split; intros; congruence.
  - eexists. vm_compute; reflexivity.
  - vm_compute; reflexivity.
  - vm_compute; reflexivity.
  - vm_compute; reflexivity.
  - match type of Hb with _ = u64 ?t =>
      assert (t = 110) as Ht by (vm_compute; reflexivity); rewrite Ht in H, Hb end.
    exists e. split; [exact H|exact Hb].
Defined.

Lemma mmap_reported_once_witness :
  let m := EnterMmapCtx 0 9 0 4096 3 1 5 0 in
  let s2 := run_trace Demo.use_notes (exec (handle Demo.k1 (SysEnterMmap m))
    (run_trace Demo.opened Demo.init)) in
  exec (handle Demo.k2 (SysEnterMmap m)) s2 = s2.
Proof.
  apply (mmap_reported_once Demo.k1 (EnterMmapCtx 0 9 0 4096 3 1 5 0) Demo.use_notes
    Demo.k2 (EnterMmapCtx 0 9 0 4096 3 1 5 0)).
  - apply ref_lawful.
  - exact demo_use_lawful.
  - exact (demo_inv _ demo_opened_lawful).
  - vm_compute; discriminate.
  - exact demo_use_untouched.
  - vm_compute; repeat split; intros; congruence.
  - reflexivity.
  - reflexivity.
Defined.

(** [openat(dirfd, "todo")] after [open("/home/u")] gave descriptor 3. *)
Lemma open_tracks_path_witness :
  let s := run_trace [(Demo.k1, SysEnterOpenat (EnterOpenatCtx 0 257 AT_FDCWD 8192 0 0));
    (Demo.k1, SysExitOpenat (ExitCtx 0 257 3))] Demo.init in
  exists p, resolved Demo.user (fds s) 1000 3 12288 p.
Proof.
  set (s := run_trace [(Demo.k1, SysEnterOpenat (EnterOpenatCtx 0 257 AT_FDCWD 8192 0 0));
    (Demo.k1, SysExitOpenat (ExitCtx 0 257 3))] Demo.init).
  destruct (open_tracks_path Demo.k1 Demo.user (EnterOpenatCtx 0 257 3 12288 577 420)
    [(Demo.k2, SysExitOpenat (ExitCtx 0 257 9))] Demo.k1 (ExitCtx 0 257 5) s)
    as (p & e & H & _).
  - apply _.
  - apply demo_inv. demo_trace.
  - demo_trace.
  - reflexivity.
  - discriminate.
  - eexists. vm_compute; reflexivity.
  - intros v. vm_compute; reflexivity.
  - intros v. vm_compute; reflexivity.
  - reflexivity.
  - exists p. exact H.
Defined.

Lemma failed_open_forgotten_witness :
  opens (exec (handle Demo.k1 (SysExitOpenat (ExitCtx 0 257 (-2))))
    (run_trace Demo.open_notes Demo.init)) =
  delete (1000 * 2 ^ 32 + 1001) (opens (run_trace Demo.open_notes Demo.init)).
Proof.
  apply (failed_open_forgotten Demo.k1 (ExitCtx 0 257 (-2))). reflexivity.
Defined.

(** [unlinkat(AT_FDCWD, "/home/u/notes.txt")]. *)
Lemma path_events_sound_witness :
  let c := SysEnterUnlinkat (EnterUnlinkatCtx 0 263 AT_FDCWD 4096 0) in
  let s := run_trace Demo.opened Demo.init in
  fds (exec (handle Demo.k3 c) s) = fds s.
Proof.
  apply (path_events_sound Demo.k3 Demo.user
    (SysEnterUnlinkat (EnterUnlinkatCtx 0 263 AT_FDCWD 4096 0))
    (run_trace Demo.opened Demo.init) FILE_OP_DELETE AT_FDCWD 4096); [reflexivity|apply _|].
  exact (demo_inv _ demo_opened_lawful).
Defined.

(** [rename("/home/u/notes.txt", "todo")]. *)
Lemma path_events_complete_witness :
  exists e, evs (exec (handle Demo.k3 (SysEnterRename (EnterRenameCtx 0 82 4096 12288)))
      Demo.init) = [e] /\ ev_path e = pad (str "/home/u/notes.txt").
Proof.
  destruct (path_events_complete Demo.k3 (SysEnterRename (EnterRenameCtx 0 82 4096 12288))
    Demo.init FILE_OP_RENAME AT_FDCWD 4096 (pad (str "/home/u/notes.txt"))) as (e & H & _ & Hp).
  - reflexivity.
  - reflexivity.
  - vm_compute; reflexivity.
  - vm_compute; reflexivity.
  - right. vm_compute; reflexivity.
  - exists e. split; [exact H|exact Hp].
Defined.

Lemma fileop_isolation_witness :
  let s := run_trace Demo.opened Demo.init in
  fds (exec (handle Demo.k3 (SysEnterClose Demo.close_notes)) s) !! Demo.key = fds s !! Demo.key \/
  fds (exec (handle Demo.k3 (SysEnterClose Demo.close_notes)) s) !! Demo.key = None.
Proof.
  destruct (fileop_isolation Demo.k3 (SysEnterClose Demo.close_notes)
    (run_trace Demo.opened Demo.init)) as [H _].
  apply H. discriminate.
Defined.
