(* ===== verification/FileopConc.v ===== *)
(** * File-operation probe: programs on several CPUs

    Threads of one process share the entries of fd_paths, and their programs run
    at the same time on different CPUs.  Here the programs of
    [fileop/fileop.bpf.c] that write through a pointer into an entry (exit of
    write, mmap, close) are cut into the steps that happen at once: a helper call,
    a load or a store of a member.  A program that runs alone does what its
    definition in [Fileop] does; the steps of several programs interleave in any
    order, and so do the calls that begin them.

    The theorems: when the updates of an entry do not overlap, its counter is exact,
    and so is what the close reports ([FileopSerial]).  When they do, the counter never
    says more than was written, but an addition that another CPU interrupts is lost, and
    so can be the mark that makes the close report anything ([FileopConcTheorems]). *)

From S2P Require Import Prelude Helpers RefKernel FileopPaths Fileop FileopSpec FileopProps FileopTheorems.

(** ** Steps *)

(** Where a program is, with the values its registers hold. *)
Inductive pc :=
  | WFind (ret : Z)
  | WPath (ret fd : Z)
  | WLoad (ret : Z) (key : fd_key)
  | WStore (ret : Z) (key : fd_key) (write_bytes : Z)
  | WFlags (key : fd_key)
  | WMark (key : fd_key) (seen_flags : Z)
  | WForget
  | MPath (ctx : enter_mmap_ctx)
  | MTest (key : fd_key) (flag : fd_seen_flag)
  | MFlags (key : fd_key) (flag : fd_seen_flag)
  | MMark (key : fd_key) (flag : fd_seen_flag) (seen_flags : Z)
  | MReport (key : fd_key) (flag : fd_seen_flag)
  | CPath (ctx : enter_close_ctx)
  | CTest (key : fd_key)
  | CReport (key : fd_key)
  | CForget (key : fd_key)
  | Finished.

Definition set_flags (f : Z) (v : path_value) : path_value :=
  PathValue (pv_path v) (pv_write_bytes v) (pv_open_flags v) f.

(** The flag an mmap sets, and the operation it reports. *)
Definition mmap_flag (ctx : enter_mmap_ctx) : fd_seen_flag :=
  if Z.land (emm_prot ctx) PROT_WRITE =? 0 then FD_SEEN_MMAP_READ else FD_SEEN_MMAP_WRITE.
Definition mmap_op (flag : fd_seen_flag) : file_op_type :=
  match flag with FD_SEEN_MMAP_READ => FILE_OP_MMAP_READ | _ => FILE_OP_MMAP_WRITE end.

Section Steps.
Context {MO : bpf_map Z path_value} {MW : bpf_map Z Z} {MH : bpf_map Z path_value}.
Context {MF : bpf_map fd_key path_value} {RB : bpf_ringbuf event}.
Local Abbreviation st := (state MO MW MH MF RB).

(** A load of a member and a store to it through the pointer of an entry.  Once the
    entry is deleted its memory is no longer part of the map. *)
Definition load {A} (key : fd_key) (d : A) (f : path_value -> A) : prog st A :=
  p ← bpf_map_lookup_elem fd_paths key; mret (from_option f d p).
Definition store (key : fd_key) (f : path_value -> path_value) : prog st unit :=
  p ← bpf_map_lookup_elem fd_paths key;
  match p with Some p => map_store fd_paths key (f p) | None => mret tt end.

Definition step (k : kenv) (p : pc) : prog st pc :=
  let pid_tgid := bpf_get_current_pid_tgid k in
  match p return prog st pc with
  | WFind ret =>
      fd ← bpf_map_lookup_elem inflight_write pid_tgid;
      mret match fd with
      | None => Finished
      | Some fd => if 0 <? ret then WPath ret fd else WForget
      end
  | WPath ret fd =>
      let key := FdKey (tgid_of pid_tgid) fd in
      path ← bpf_map_lookup_elem fd_paths key;
      mret match path with None => WForget | Some _ => WLoad ret key end
  | WLoad ret key => n ← load key 0 pv_write_bytes; mret (WStore ret key n)
  | WStore ret key n => store key (set_write_bytes (u64 (n + u64 ret)));; mret (WFlags key)
  | WFlags key => f ← load key 0 pv_seen_flags; mret (WMark key f)
  | WMark key f => store key (set_flags (u8 (Z.lor f (fd_seen_code FD_SEEN_WRITE))));; mret WForget
  | WForget => bpf_map_delete_elem inflight_write pid_tgid;; mret Finished
  | MPath ctx =>
      let key := FdKey (tgid_of pid_tgid) (u32 (emm_fd ctx)) in
      if s64 (emm_fd ctx) <? 0 then mret Finished
      else
        path ← bpf_map_lookup_elem fd_paths key;
        mret match path with None => Finished | Some _ => MTest key (mmap_flag ctx) end
  | MTest key flag =>
      seen ← load key false (fun p => has_seen_flag (Some p) flag);
      mret (if (seen : bool) then Finished else MFlags key flag)
  | MFlags key flag => f ← load key 0 pv_seen_flags; mret (MMark key flag f)
  | MMark key flag f => store key (set_flags (u8 (Z.lor f (fd_seen_code flag))));; mret (MReport key flag)
  | MReport key flag =>
      path ← bpf_map_lookup_elem fd_paths key;
      submit_fd_event k path (file_op_code (mmap_op flag)) 0;; mret Finished
  | CPath ctx =>
      let key := FdKey (tgid_of pid_tgid) (ecl_fd ctx) in
      path ← bpf_map_lookup_elem fd_paths key;
      mret match path with None => Finished | Some _ => CTest key end
  | CTest key =>
      seen ← load key false (fun p => has_seen_flag (Some p) FD_SEEN_WRITE);
      mret (if (seen : bool) then CReport key else CForget key)
  | CReport key =>
      path ← bpf_map_lookup_elem fd_paths key;
      submit_fd_event k path (file_op_code FILE_OP_WRITE) (from_option pv_write_bytes 0 path);;
      mret (CForget key)
  | CForget key => bpf_map_delete_elem fd_paths key;; mret Finished
  | Finished => mret Finished
  end.

(** A program on its own, for at most [n] steps. *)
Fixpoint alone (k : kenv) (n : nat) (p : pc) : prog st pc :=
  match n with
  | O => mret p
  | S n => p ← step k p; alone k n p
  end.

(** ** Interleaving *)

(** The programs on their CPUs, and the step of the [i]-th. *)
Notation threads := (list (kenv * pc)).

Definition pool_step (ps : threads * st) (i : nat) : threads * st :=
  match ps.1 !! i with
  | Some (k, p) => let '(p', s) := step k p ps.2 in (<[i := (k, p')]> ps.1, s)
  | None => ps
  end.

Definition run_pool (sched : list nat) (ps : threads * st) : threads * st := foldl pool_step ps sched.

(** A task begins a program on a CPU of its own, or the [i]-th program goes on.  The
    other programs change fd_paths with one helper call at most and in inflight_write
    only the entry of their task; they run at once. *)
Inductive move := Begin (k : kenv) (c : call) | Continue (i : nat).

Definition program (c : call) : option pc :=
  match c with
  | SysExitWrite ctx => Some (WFind (ex_ret ctx))
  | SysEnterMmap ctx => Some (MPath ctx)
  | SysEnterClose ctx => Some (CPath ctx)
  | _ => None
  end.

Definition move_step (ps : threads * st) (m : move) : threads * st :=
  match m with
  | Begin k c =>
      match program c with
      | Some p => (ps.1 ++ [(k, p)], ps.2)
      | None => (ps.1, exec (handle k c) ps.2)
      end
  | Continue i => pool_step ps i
  end.

Definition run_moves (ms : list move) (ps : threads * st) : threads * st := foldl move_step ps ms.

(** The calls that are begun, in order. *)
Definition begun (ms : list move) : list (kenv * call) :=
  omap (fun m => match m with Begin k c => Some (k, c) | Continue _ => None end) ms.

(** The programs that store to the counter of [key], in the order they do. *)
Fixpoint storing (key : fd_key) (sched : list nat) (ps : threads * st) : list nat :=
  match sched with
  | [] => []
  | i :: sched' =>
      match ps.1 !! i with
      | Some (_, WStore _ key' _) => if decide (key' = key) then [i] else []
      | _ => []
      end ++ storing key sched' (pool_step ps i)
  end.
End Steps.
