(* ===== verification/FileopConcTheorems.v ===== *)
(** * File-operation probe on several CPUs: theorems

    Steps alone add up to the programs of [Fileop]; what an interleaving of steps
    can make of a counter and of the flags of an entry. *)

From S2P Require Import Prelude Helpers RefKernel FileopPaths Fileop FileopSpec FileopProps FileopTheorems FileopConc.

Section Theorems.
Context {MO : bpf_map Z path_value} {MW : bpf_map Z Z} {MH : bpf_map Z path_value}.
Context {MF : bpf_map fd_key path_value} {RB : bpf_ringbuf event}.
Context `{!HashOk MO, !HashOk MW, !ArrayOk 2 MH, !LruOk MF, !RingbufOk RB}.
Local Abbreviation st := (state MO MW MH MF RB).
Implicit Types (s : st) (k : kenv).

(** ** Steps on the contents of the maps *)

Definition view_step k (p : pc) (w : gmap Z Z) (f : gmap fd_key path_value)
    : pc * gmap Z Z * gmap fd_key path_value :=
  let pid_tgid := bpf_get_current_pid_tgid k in
  match p with
  | WFind ret =>
      (match w !! pid_tgid with
       | None => Finished
       | Some fd => if 0 <? ret then WPath ret fd else WForget
       end, w, f)
  | WPath ret fd => (match f !! key_of k fd with None => WForget | Some _ => WLoad ret (key_of k fd) end, w, f)
  | WLoad ret key => (WStore ret key (from_option pv_write_bytes 0 (f !! key)), w, f)
  | WStore ret key n => (WFlags key, w, alter (set_write_bytes (u64 (n + u64 ret))) key f)
  | WFlags key => (WMark key (from_option pv_seen_flags 0 (f !! key)), w, f)
  | WMark key g => (WForget, w, alter (set_flags (u8 (Z.lor g (fd_seen_code FD_SEEN_WRITE)))) key f)
  | WForget => (Finished, delete pid_tgid w, f)
  | MPath ctx =>
      (if s64 (emm_fd ctx) <? 0 then Finished
       else match f !! key_of k (u32 (emm_fd ctx)) with
       | None => Finished
       | Some _ => MTest (key_of k (u32 (emm_fd ctx))) (mmap_flag ctx)
       end, w, f)
  | MTest key flag => (if from_option (fun v => has_seen_flag (Some v) flag) false (f !! key) then Finished else MFlags key flag, w, f)
  | MFlags key flag => (MMark key flag (from_option pv_seen_flags 0 (f !! key)), w, f)
  | MMark key flag g => (MReport key flag, w, alter (set_flags (u8 (Z.lor g (fd_seen_code flag)))) key f)
  | MReport _ _ => (Finished, w, f)
  | CPath ctx => (match f !! key_of k (ecl_fd ctx) with None => Finished | Some _ => CTest (key_of k (ecl_fd ctx)) end, w, f)
  | CTest key => (if from_option (fun v => has_seen_flag (Some v) FD_SEEN_WRITE) false (f !! key) then CReport key else CForget key, w, f)
  | CReport key => (CForget key, w, f)
  | CForget key => (Finished, w, delete key f)
  | Finished => (Finished, w, f)
  end.

Lemma store_view key g s :
  let s' := exec (store key g) s in
  st_inflight_open s' = st_inflight_open s /\ st_inflight_write s' = st_inflight_write s /\
  st_events s' = st_events s /\ fds s' = alter g key (fds s).
Proof.
  unfold store, map_store, bpf_map_lookup_elem, fds. prog_unfold. simpl. rewrite lookup_elem_contents.
  destruct (contents (st_fd_paths s) !! key) as [v|] eqn:E; simpl.
  - rewrite store_elem_contents by eauto. by rewrite alter_alt, E.
  - by rewrite alter_alt, E.
Qed.

Lemma submit_view k path op n s :
  let s' := exec (submit_fd_event k path op n) s in
  st_inflight_open s' = st_inflight_open s /\ st_inflight_write s' = st_inflight_write s /\
  st_fd_paths s' = st_fd_paths s.
Proof.
  unfold submit_fd_event, bpf_ringbuf_reserve, bpf_ringbuf_submit. prog_unfold. simpl. case_match; [done|].
  destruct (ringbuf_reserve _ _ _) as [[e|] r], path; done.
Qed.

(** The steps on the maps are the steps on their contents. *)
Lemma step_view k p s :
  let '(p', s') := step k p s in
  view_step k p (writes s) (fds s) = (p', writes s', fds s') /\ opens s' = opens s.
Proof.
  unfold writes, opens.
  destruct p; cbn [step view_step]; unfold load; prog_unfold; unfold bpf_map_lookup_elem, bpf_map_delete_elem; simpl;
    rewrite ?lookup_elem_contents; try done.
  - pose proof (store_view key (set_write_bytes (u64 (write_bytes + u64 ret))) s) as (H1 & H2 & _ & H4).
    unfold exec in *. destruct (store _ _ s) as [u s']. simpl in *. by rewrite H4, H2, H1.
  - pose proof (store_view key (set_flags (u8 (Z.lor seen_flags (fd_seen_code FD_SEEN_WRITE)))) s) as (H1 & H2 & _ & H4).
    unfold exec in *. destruct (store _ _ s) as [u s']. simpl in *. by rewrite H4, H2, H1.
  - pose proof (hash_delete_contents (st_inflight_write s) (bpf_get_current_pid_tgid k)) as Hd.
    destruct (delete_elem _ _) as [r m]. simpl in *. by rewrite Hd.
  - destruct (s64 (emm_fd ctx) <? 0); [done|]. simpl. by rewrite lookup_elem_contents.
  - pose proof (store_view key (set_flags (u8 (Z.lor seen_flags (fd_seen_code flag)))) s) as (H1 & H2 & _ & H4).
    unfold exec in *. destruct (store _ _ s) as [u s']. simpl in *. by rewrite H4, H2, H1.
  - pose proof (submit_view k (contents (st_fd_paths s) !! key) (file_op_code (mmap_op flag)) 0 s) as (H1 & H2 & H3).
    unfold exec, fds in *. destruct (submit_fd_event _ _ _ _ s) as [u s']. simpl in *. by rewrite H1, H2, H3.
  - pose proof (submit_view k (contents (st_fd_paths s) !! key) (file_op_code FILE_OP_WRITE)
      (from_option pv_write_bytes 0 (contents (st_fd_paths s) !! key)) s) as (H1 & H2 & H3).
    unfold exec, fds in *. destruct (submit_fd_event _ _ _ _ s) as [u s']. simpl in *. by rewrite H1, H2, H3.
  - pose proof (lru_delete_contents (st_fd_paths s) key) as Hd. unfold fds.
    destruct (delete_elem _ _) as [r m]. simpl in *. by rewrite Hd.
Qed.

(** ** A program on its own *)

Fixpoint view_alone k (n : nat) (p : pc) (w : gmap Z Z) (f : gmap fd_key path_value)
    : pc * gmap Z Z * gmap fd_key path_value :=
  match n with
  | O => (p, w, f)
  | S n => let '(p, w, f) := view_step k p w f in view_alone k n p w f
  end.

Lemma alone_view k n : forall p s,
  let '(p', s') := alone k n p s in
  view_alone k n p (writes s) (fds s) = (p', writes s', fds s') /\ opens s' = opens s.
Proof.
  induction n as [|n IH]; intros p s; [done|]. cbn [alone view_alone]. prog_unfold.
  pose proof (step_view k p s) as Hs. destruct (step k p s) as [p1 s1]. destruct Hs as [-> Ho].
  specialize (IH p1 s1). destruct (alone k n p1 s1) as [p2 s2]. by rewrite <- Ho.
Qed.

Lemma step_events k p s :
  match p with MReport _ _ | CReport _ => True | _ => st_events (step k p s).2 = st_events s end.
Proof.
  destruct p; cbn [step]; unfold load; prog_unfold; unfold bpf_map_lookup_elem, bpf_map_delete_elem; simpl; try done.
  - pose proof (store_view key (set_write_bytes (u64 (write_bytes + u64 ret))) s) as (_ & _ & H & _).
    unfold exec in *. by destruct (store _ _ s).
  - pose proof (store_view key (set_flags (u8 (Z.lor seen_flags (fd_seen_code FD_SEEN_WRITE)))) s) as (_ & _ & H & _).
    unfold exec in *. by destruct (store _ _ s).
  - by destruct (delete_elem _ _).
  - by destruct (s64 (emm_fd ctx) <? 0).
  - pose proof (store_view key (set_flags (u8 (Z.lor seen_flags (fd_seen_code flag)))) s) as (_ & _ & H & _).
    unfold exec in *. by destruct (store _ _ s).
  - by destruct (delete_elem _ _).
Qed.

(** Two states that no program can tell apart. *)
Definition alike s s' : Prop :=
  opens s = opens s' /\ writes s = writes s' /\ fds s = fds s' /\ evs s = evs s'.

Lemma view_write k ret w f :
  view_alone k 7 (WFind ret) w f =
  (Finished, delete (bpf_get_current_pid_tgid k) w,
   match w !! bpf_get_current_pid_tgid k with
   | Some fd => if 0 <? ret then alter (written ret) (key_of k fd) f else f
   | None => f
   end).
Proof.
  cbn [view_alone view_step]. destruct (w !! bpf_get_current_pid_tgid k) as [fd|] eqn:Ew; [|by rewrite delete_id].
  destruct (0 <? ret); [|done]. destruct (f !! key_of k fd) as [v|] eqn:Ef.
  - cbn. rewrite Ef. cbn. rewrite !alter_alt, Ef, !lookup_insert_eq. cbn. by rewrite insert_insert_eq.
  - cbn. by rewrite alter_alt, Ef.
Qed.

Definition write_pc (p : pc) : Prop :=
  match p with
  | WFind _ | WPath _ _ | WLoad _ _ | WStore _ _ _ | WFlags _ | WMark _ _ | WForget | Finished => True
  | _ => False
  end.

Lemma write_pc_step k p w f : write_pc p -> write_pc (view_step k p w f).1.1.
Proof. by destruct p; intros; cbn; repeat case_match. Qed.

Lemma write_alone_events k n : forall p s, write_pc p -> st_events (alone k n p s).2 = st_events s.
Proof.
  induction n as [|n IH]; intros p s Hp; [done|]. cbn [alone]. prog_unfold.
  pose proof (step_view k p s) as Hs. pose proof (step_events k p s) as He.
  pose proof (write_pc_step k p (writes s) (fds s) Hp) as Hp'.
  destruct (step k p s) as [p1 s1]. destruct Hs as [Hs _]. rewrite Hs in Hp'. cbn in Hp', He.
  rewrite IH by done. by destruct p.
Qed.

Lemma alone_finished k n s : alone k n Finished s = (Finished, s).
Proof. induction n as [|n IH]; [done|]. cbn [alone step]. prog_unfold. done. Qed.

Lemma alone_S k n p s : alone k (S n) p s = alone k n (step k p s).1 (step k p s).2.
Proof. cbn [alone]. prog_unfold. by destruct (step k p s). Qed.

Lemma lookup_fds key s : bpf_map_lookup_elem fd_paths key s = (fds s !! key, s).
Proof. unfold bpf_map_lookup_elem, fds. cbn. by rewrite lookup_elem_contents. Qed.

Lemma alone_mmap k ctx s : alone k 5 (MPath ctx) s = (Finished, exec (trace_mmap k ctx) s).
Proof.
  unfold trace_mmap. rewrite alone_S. cbn [step]. fold (key_of k (u32 (emm_fd ctx))).
  set (key := key_of k (u32 (emm_fd ctx))). destruct (s64 (emm_fd ctx) <? 0); [apply alone_finished|].
  prog_unfold. rewrite !lookup_fds. destruct (fds s !! key) as [v|] eqn:E; [|apply alone_finished]. cbn [fst snd].
  rewrite alone_S. cbn [step]. unfold load. prog_unfold. rewrite lookup_fds, E. cbn [from_option fst snd]. unfold mmap_flag.
  destruct (Z.land (emm_prot ctx) PROT_WRITE =? 0); cbn [andb negb].
  all: destruct (has_seen_flag (Some v) _) eqn:Eh; cbn [negb]; [rewrite alone_finished; done|].
  all: rewrite alone_S; cbn [step]; unfold load; prog_unfold; rewrite lookup_fds, E; cbn [from_option fst snd].
  all: rewrite alone_S; cbn [step]; unfold store; prog_unfold; rewrite lookup_fds, E.
  all: unfold map_store; cbn [fst snd]; rewrite alone_S; cbn [step]; prog_unfold; rewrite lookup_fds.
  all: unfold fds in *; cbn; rewrite !store_elem_contents by eauto; rewrite !lookup_insert_eq.
  all: unfold set_flags, set_seen_flag; by destruct (submit_fd_event _ _ _ _ _).
Qed.

Lemma alone_close k ctx s : alone k 4 (CPath ctx) s = (Finished, exec (trace_close k ctx) s).
Proof.
  unfold trace_close. rewrite alone_S. cbn [step]. prog_unfold. fold (key_of k (ecl_fd ctx)).
  set (key := key_of k (ecl_fd ctx)). rewrite !lookup_fds. destruct (fds s !! key) as [v|] eqn:E; [|apply alone_finished].
  cbn [fst snd]. rewrite alone_S. cbn [step]. unfold load. prog_unfold. rewrite lookup_fds, E. cbn [from_option fst snd].
  destruct (has_seen_flag (Some v) FD_SEEN_WRITE).
  - rewrite alone_S. cbn [step]. prog_unfold. rewrite lookup_fds, E. cbn [from_option].
    destruct (submit_fd_event _ _ _ _ s) as [r s1]. cbn [fst snd]. rewrite alone_S. cbn [step]. prog_unfold.
    by destruct (bpf_map_delete_elem fd_paths key s1).
  - rewrite alone_S. cbn [step]. prog_unfold. by destruct (bpf_map_delete_elem fd_paths key s).
Qed.

(** A program that no other CPU interrupts does in its steps what it does as a
    whole: the exit of a write leaves the same entries and events, an mmap and a
    close the same state. *)
Theorem steps_alone k s ctx mctx cctx :
  (alone k 7 (WFind (ex_ret ctx)) s).1 = Finished /\
  alike (alone k 7 (WFind (ex_ret ctx)) s).2 (exec (trace_exit_write k ctx) s) /\
  alone k 5 (MPath mctx) s = (Finished, exec (trace_mmap k mctx) s) /\
  alone k 4 (CPath cctx) s = (Finished, exec (trace_close k cctx) s).
Proof.
  split_and!.
  - pose proof (alone_view k 7 (WFind (ex_ret ctx)) s) as H. rewrite view_write in H.
    destruct (alone k 7 _ s) as [p s']. by destruct H as [[= <- _ _] _].
  - pose proof (alone_view k 7 (WFind (ex_ret ctx)) s) as H. rewrite view_write in H.
    pose proof (write_alone_events k 7 (WFind (ex_ret ctx)) s I) as He.
    destruct (alone k 7 _ s) as [p s']. destruct H as [[= <- Hw Hf] Ho]. cbn in He.
    destruct (trace_exit_write_spec k ctx s) as (_ & H1 & H2 & H3 & H4). cbv zeta in *.
    cbn [snd]. split_and!; [rewrite Ho; unfold opens; by rewrite H1|by rewrite <- Hw, H2|by rewrite <- Hf, H4|unfold evs; by rewrite He, H3].
  - apply alone_mmap.
  - apply alone_close.
Qed.

(** ** Several programs *)

(** Bytes the [i]-th program has to add, and the sum for some of the programs. *)
Definition returned (ts : list (kenv * pc)) (i : nat) : Z :=
  match ts !! i with Some (_, WFind ret) => ret | _ => 0 end.
Definition total (ts : list (kenv * pc)) (ix : list nat) : Z := foldr (fun i n => returned ts i + n) 0 ix.

Lemma total_submseteq ts ix jx :
  ix ⊆+ jx -> Forall (fun i => 0 <= returned ts i) jx -> total ts ix <= total ts jx.
Proof.
  unfold total. induction 1 as [|i ix jx _ IH|i j ix|i ix jx _ IH|ix jx ls H1 IH1 H2 IH2]; cbn; intros Hf.
  - done.
  - apply Forall_cons in Hf as [? ?]. specialize (IH ltac:(done)). lia.
  - lia.
  - apply Forall_cons in Hf as [? ?]. specialize (IH ltac:(done)). lia.
  - etrans; [apply IH1|by apply IH2]. apply Forall_forall. intros i Hi. rewrite Forall_forall in Hf.
    apply Hf. by eapply elem_of_submseteq.
Qed.

Section Pool.
Context (key : fd_key) (v0 : path_value) (ts0 : list (kenv * pc)).

(** A counter that some of the stores in [log] have added to. *)
Definition counted (log : list nat) (n : Z) (ix : list nat) : Prop :=
  NoDup ix /\ ix ⊆ log /\ n = u64 (pv_write_bytes v0 + total ts0 ix).

(** What a program knows: before its store it is not in the log. *)
Definition pc_ok (log : list nat) (i : nat) (p : pc) : Prop :=
  match p with
  | WFind ret => ret = returned ts0 i /\ i ∉ log
  | WPath ret _ | WLoad ret _ => ret = returned ts0 i /\ 0 < ret /\ i ∉ log
  | WStore ret key' n => ret = returned ts0 i /\ 0 < ret /\ i ∉ log /\ (key' = key -> exists ix, counted log n ix)
  | CPath _ | CTest _ | CReport _ | CForget _ => False
  | _ => True
  end.

Definition pool_ok (log : list nat) (ts : list (kenv * pc)) s : Prop :=
  NoDup log /\ Forall (fun i => 0 <= returned ts0 i) log /\
  (forall i k p, ts !! i = Some (k, p) -> pc_ok log i p) /\
  exists v ix, fds s !! key = Some v /\ pv_path v = pv_path v0 /\ pv_open_flags v = pv_open_flags v0 /\
    counted log (pv_write_bytes v) ix /\ forall i, last log = Some i -> i ∈ ix.

Lemma counted_mono log j n ix : counted log n ix -> counted (log ++ [j]) n ix.
Proof. intros (H1 & H2 & H3). split_and!; [done|set_solver|done]. Qed.

Lemma pc_ok_mono log j i p : i <> j -> pc_ok log i p -> pc_ok (log ++ [j]) i p.
Proof.
  intros Hne. assert (i ∉ log -> i ∉ log ++ [j]) by set_solver.
  destruct p; cbn; try done; [naive_solver..|]. intros (H1 & H2 & H3 & H4). split_and!; [auto..|].
  intros (ix & His)%H4. exists ix. by apply counted_mono.
Qed.

(** What one step does to the log, to its program and to the entry. *)
Lemma view_step_ok k p log i w f v ix :
  pc_ok log i p -> f !! key = Some v -> counted log (pv_write_bytes v) ix ->
  let '(p', w', f') := view_step k p w f in
  match p with
  | WStore ret key' n =>
      if decide (key' = key) then p' = WFlags key /\ f' = <[key := set_write_bytes (u64 (n + u64 ret)) v]> f
      else pc_ok log i p' /\ f' !! key = f !! key
  | _ => pc_ok log i p' /\ exists v', f' !! key = Some v' /\ pv_path v' = pv_path v /\
           pv_open_flags v' = pv_open_flags v /\ pv_write_bytes v' = pv_write_bytes v
  end.
Proof.
  intros Hp Hv Hc.
  assert (forall g key', (forall v, pv_path (g v) = pv_path v /\ pv_open_flags (g v) = pv_open_flags v /\
      pv_write_bytes (g v) = pv_write_bytes v) ->
    exists v', alter g key' f !! key = Some v' /\ pv_path v' = pv_path v /\
      pv_open_flags v' = pv_open_flags v /\ pv_write_bytes v' = pv_write_bytes v) as Halter.
  { intros g key' Hg. destruct (decide (key' = key)) as [->|].
    - exists (g v). rewrite alter_alt, Hv, lookup_insert_eq. split; [done|apply Hg].
    - exists v. by rewrite lookup_alter_ne. }
  destruct p; cbn [view_step]; try done.
  - split; [|eauto]. cbn in Hp. repeat case_match; cbn; zbool; naive_solver lia.
  - split; [|eauto]. by case_match.
  - split; [|eauto]. cbn in *. destruct Hp as (H1 & H2 & H3). split_and!; [done..|]. intros ->. rewrite Hv. by exists ix.
  - case_decide as Hk; [subst; by rewrite alter_alt, Hv|]. split; [done|]. by rewrite lookup_alter_ne.
  - split; [done|eauto].
  - split; [done|]. by apply Halter.
  - split; [done|eauto].
  - split; [by repeat case_match|eauto].
  - split; [by case_match|eauto].
  - split; [done|eauto].
  - split; [done|]. by apply Halter.
  - split; [done|eauto].
  - split; [done|eauto].
Qed.

Lemma store_ok log ts s i k ret n s' :
  pool_ok log ts s -> ts !! i = Some (k, WStore ret key n) ->
  (forall v, fds s !! key = Some v -> fds s' = <[key := set_write_bytes (u64 (n + u64 ret)) v]> (fds s)) ->
  pool_ok (log ++ [i]) (<[i := (k, WFlags key)]> ts) s'.
Proof.
  intros (Hnd & Hpos & Hts & v & ix & Hv & Hp & Ho & _ & _) Hi Hf.
  destruct (Hts _ _ _ Hi) as (-> & Hr & Hni & (jx & Hj1 & Hj2 & ->)); [done|].
  split_and!.
  - apply NoDup_app. split_and!; [done|set_solver|apply NoDup_singleton].
  - apply Forall_app. split; [done|]. apply Forall_singleton. lia.
  - intros j k' p Hj. destruct (decide (j = i)) as [->|Hne].
    + rewrite list_lookup_insert_eq in Hj by by eapply lookup_lt_Some. by simplify_eq.
    + rewrite list_lookup_insert_ne in Hj by done. apply pc_ok_mono; eauto.
  - exists (set_write_bytes (u64 (u64 (pv_write_bytes v0 + total ts0 jx) + u64 (returned ts0 i))) v), (i :: jx).
    rewrite (Hf v Hv), lookup_insert_eq. split_and!; [done|done|done| |].
    + split_and!; [constructor; set_solver|set_solver|]. cbn.
      rewrite u64_add_u64_l, u64_add_u64_r. fold (total ts0 jx). f_equal. lia.
    + intros j Hj. rewrite last_snoc in Hj. simplify_eq. set_solver.
Qed.

Lemma other_ok log ts s i k p p' s' :
  pool_ok log ts s -> ts !! i = Some (k, p) -> pc_ok log i p' ->
  (forall v, fds s !! key = Some v -> exists v', fds s' !! key = Some v' /\ pv_path v' = pv_path v /\
    pv_open_flags v' = pv_open_flags v /\ pv_write_bytes v' = pv_write_bytes v) ->
  pool_ok log (<[i := (k, p')]> ts) s'.
Proof.
  intros (Hnd & Hpos & Hts & v & ix & Hv & Hp & Ho & Hc & Hl) Hi Hp' Hs. split_and!; [done..| |].
  - intros j k' q Hj. destruct (decide (j = i)) as [->|Hne].
    + rewrite list_lookup_insert_eq in Hj by by eapply lookup_lt_Some. by simplify_eq.
    + rewrite list_lookup_insert_ne in Hj by done. eauto.
  - destruct (Hs v Hv) as (v' & Hv' & E1 & E2 & E3). exists v', ix. rewrite E1, E2, E3. done.
Qed.

Lemma pool_step_ok log ts s i :
  pool_ok log ts s ->
  pool_ok (log ++ storing key [i] (ts, s)) (pool_step (ts, s) i).1 (pool_step (ts, s) i).2.
Proof.
  intros Hok. unfold pool_step. cbn [storing fst snd]. rewrite app_nil_r.
  destruct (ts !! i) as [[k p]|] eqn:Hi; [|by rewrite app_nil_r].
  destruct Hok as (Hnd & Hpos & Hts & v & ix & Hv & Hp & Ho & Hc & Hl) eqn:Eok. clear Eok.
  assert (pool_ok log ts s) as Hok' by (split_and!; [done..|]; by exists v, ix).
  pose proof (view_step_ok k p log i (writes s) (fds s) v ix (Hts _ _ _ Hi) Hv Hc) as Hstep.
  pose proof (step_view k p s) as Hs. destruct (step k p s) as [p' s']. destruct Hs as [Hs _]. rewrite Hs in Hstep. cbn [fst snd].
  assert (forall v', fds s !! key = Some v' -> v' = v) as Huniq by (intros; by simplify_eq).
  destruct p; try (rewrite app_nil_r; destruct Hstep as [H1 H2]; eapply other_ok; [done|done|done|];
    intros v' ->%Huniq; exact H2).
  case_decide as Hk.
  - subst. destruct Hstep as [-> Hf]. eapply store_ok; [done|done|]. by intros v' ->%Huniq.
  - rewrite app_nil_r. destruct Hstep as [H1 H2]. eapply other_ok; [done|done|done|].
    intros v' ->%Huniq. exists v. by rewrite H2.
Qed.

Lemma run_pool_ok sched : forall log ts s, pool_ok log ts s ->
  pool_ok (log ++ storing key sched (ts, s)) (run_pool sched (ts, s)).1 (run_pool sched (ts, s)).2.
Proof.
  induction sched as [|i sched IH]; intros log ts s Hok; [by rewrite app_nil_r|].
  apply (pool_step_ok _ _ _ i) in Hok. unfold run_pool in *. cbn [foldl storing] in *. rewrite app_nil_r in Hok.
  destruct (pool_step (ts, s) i) as [ts' s'] eqn:E. rewrite app_assoc. by apply IH.
Qed.
End Pool.

(** C27. Programs at the exit of writes and at mmap run on any number of CPUs, their
    steps in any order.  The counter of a tracked entry is then the old one plus the
    bytes of some of the writes whose program stored to it, the last one among them:
    it never says more than was written, and no program stores twice. *)
Theorem concurrent_writes_bounded key v0 ts s sched :
  Forall (fun kp => match kp.2 with WFind _ | MPath _ => True | _ => False end) ts ->
  fds s !! key = Some v0 -> 0 <= pv_write_bytes v0 < 2 ^ 64 ->
  let s' := (run_pool sched (ts, s)).2 in
  let log := storing key sched (ts, s) in
  NoDup log /\ exists v1 ix, fds s' !! key = Some v1 /\ pv_path v1 = pv_path v0 /\ pv_open_flags v1 = pv_open_flags v0 /\
    pv_write_bytes v1 = u64 (pv_write_bytes v0 + total ts ix) /\
    NoDup ix /\ ix ⊆ log /\ (forall i, last log = Some i -> i ∈ ix) /\ total ts ix <= total ts log.
Proof.
  intros Hts Hv Hr. destruct (run_pool_ok key v0 ts sched [] ts s) as (Hnd & Hpos & _ & v1 & ix & H1 & H2 & H3 & (H4 & H5 & H6) & H7).
  - split_and!; [constructor|constructor| |].
    + intros i k p Hi. rewrite Forall_forall in Hts. specialize (Hts _ (list_elem_of_lookup_2 _ _ _ Hi)). cbn in Hts.
      destruct p; try done. cbn. unfold returned. rewrite Hi. split; [done|apply not_elem_of_nil].
    + exists v0, []. split_and!; [done..| |done]. split_and!; [constructor|set_solver|]. cbn. rewrite Z.add_0_r.
      symmetry. by apply u64_small.
  - cbn in *. split; [done|]. exists v1, ix. split_and!; [done..|]. apply total_submseteq; [|done].
    by apply NoDup_submseteq.
Qed.

(** ** What is lost *)

Fixpoint view_pool (sched : list nat) (ts : list (kenv * pc)) (w : gmap Z Z) (f : gmap fd_key path_value)
    : list (kenv * pc) * gmap Z Z * gmap fd_key path_value :=
  match sched with
  | [] => (ts, w, f)
  | i :: sched' =>
      match ts !! i with
      | Some (k, p) => let '(p', w, f) := view_step k p w f in view_pool sched' (<[i := (k, p')]> ts) w f
      | None => view_pool sched' ts w f
      end
  end.

Lemma run_pool_view sched : forall ts s,
  let '(ts', s') := run_pool sched (ts, s) in view_pool sched ts (writes s) (fds s) = (ts', writes s', fds s').
Proof.
  induction sched as [|i sched IH]; intros ts s; [done|]. unfold run_pool in *. cbn [foldl view_pool]. unfold pool_step at 2.
  cbn [fst snd]. destruct (ts !! i) as [[k p]|]; [|apply IH].
  pose proof (step_view k p s) as Hs. destruct (step k p s) as [p' s']. destruct Hs as [-> _]. apply IH.
Qed.

(** Both programs load the counter before either stores it. *)
Definition race : list nat := [0; 0; 0; 1; 1; 1; 1; 1; 1; 1; 0; 0; 0; 0]%nat.

(** The mmap loads the flags, the write runs, the mmap stores the flags. *)
Definition flag_race : list nat := [1; 1; 1; 0; 0; 0; 0; 0; 0; 0; 1; 1]%nat.

(** Runs the steps of a schedule. *)
Ltac view_run :=
  repeat (cbn [view_pool lookup list_lookup view_step insert list_insert from_option fmap option_fmap option_map];
    repeat match goal with H : _ = Some _ |- _ => rewrite H | H : _ = true |- _ => rewrite H | H : _ = false |- _ => rewrite H end;
    rewrite ?lookup_alter_eq).

Lemma race_view k0 k1 r0 r1 fd v w f :
  key_of k1 fd = key_of k0 fd ->
  w !! bpf_get_current_pid_tgid k0 = Some fd -> w !! bpf_get_current_pid_tgid k1 = Some fd ->
  f !! key_of k0 fd = Some v -> 0 < r0 -> 0 < r1 ->
  exists w' f' v', view_pool race [(k0, WFind r0); (k1, WFind r1)] w f = ([(k0, Finished); (k1, Finished)], w', f') /\
    f' !! key_of k0 fd = Some v' /\ pv_write_bytes v' = u64 (pv_write_bytes v + u64 r0).
Proof.
  intros Hkey Hw0 Hw1 Hf H0 H1. unfold race. apply Z.ltb_lt in H0, H1.
  repeat (view_run; rewrite ?Hkey). eexists _, _, _. split; [done|]. rewrite !lookup_alter_eq, Hf. done.
Qed.

Lemma flag_race_view k0 k1 r0 fd ctx v w f :
  key_of k1 (u32 (emm_fd ctx)) = key_of k0 fd -> w !! bpf_get_current_pid_tgid k0 = Some fd ->
  f !! key_of k0 fd = Some v -> 0 < r0 -> 0 <= s64 (emm_fd ctx) -> Z.land (emm_prot ctx) PROT_WRITE = 0 ->
  has_seen_flag (Some v) FD_SEEN_MMAP_READ = false ->
  exists w' f', view_pool flag_race [(k0, WFind r0); (k1, MPath ctx)] w f = ([(k0, Finished); (k1, Finished)], w', f') /\
    f' !! key_of k0 fd = Some (set_write_bytes (u64 (pv_write_bytes v + u64 r0)) (set_seen_flag v FD_SEEN_MMAP_READ)).
Proof.
  intros Hkey Hw0 Hf H0 Hfd Hprot Hseen. unfold flag_race. apply Z.ltb_lt in H0. apply Z.ltb_ge in Hfd.
  assert (mmap_flag ctx = FD_SEEN_MMAP_READ) as Hfl by (unfold mmap_flag; by rewrite Hprot).
  repeat (view_run; rewrite ?Hkey, ?Hfl). eexists _, _. split; [reflexivity|].
  rewrite !lookup_alter_eq, Hf. reflexivity.
Qed.

(** Additions of two CPUs to one counter are not atomic.  Two threads of a
    process that return from writes to one descriptor can leave a counter that has
    only the bytes of one of them; and a write that returns while another thread
    maps the file for the first time can leave its entry unmarked, so that the close
    reports nothing of the bytes in the counter. *)
Theorem concurrent_updates_lost k0 k1 s fd v r0 r1 mctx cctx :
  key_of k1 fd = key_of k0 fd -> writes s !! bpf_get_current_pid_tgid k0 = Some fd ->
  writes s !! bpf_get_current_pid_tgid k1 = Some fd -> fds s !! key_of k0 fd = Some v ->
  0 <= pv_seen_flags v < 8 -> 0 < r0 -> 0 < r1 ->
  u32 (emm_fd mctx) = fd -> 0 <= s64 (emm_fd mctx) -> Z.land (emm_prot mctx) PROT_WRITE = 0 -> ecl_fd cctx = fd ->
  has_seen_flag (Some v) FD_SEEN_MMAP_READ = false -> has_seen_flag (Some v) FD_SEEN_WRITE = false ->
  (exists sched ts s' v', run_pool sched ([(k0, WFind r0); (k1, WFind r1)], s) = (ts, s') /\
    Forall (fun kp => kp.2 = Finished) ts /\ fds s' !! key_of k0 fd = Some v' /\
    pv_write_bytes v' = u64 (pv_write_bytes v + u64 r0)) /\
  (exists sched ts s' v', run_pool sched ([(k0, WFind r0); (k1, MPath mctx)], s) = (ts, s') /\
    Forall (fun kp => kp.2 = Finished) ts /\ fds s' !! key_of k0 fd = Some v' /\
    pv_write_bytes v' = u64 (pv_write_bytes v + u64 r0) /\ evs (exec (trace_close k0 cctx) s') = evs s').
Proof.
  intros Hkey Hw0 Hw1 Hv Hr H0 H1 <- Hfd Hprot Hcl Hm Hwr. split.
  - destruct (race_view k0 k1 r0 r1 (u32 (emm_fd mctx)) v (writes s) (fds s)) as (w' & f' & v' & E & Hv' & Hb); [done..|].
    pose proof (run_pool_view race [(k0, WFind r0); (k1, WFind r1)] s) as Hrun.
    destruct (run_pool race _) as [ts s'] eqn:Er. injection (eq_trans (eq_sym E) Hrun) as Hts _ Hf. exists race, ts, s', v'.
    split_and!; [done|rewrite <- Hts; by repeat constructor|by rewrite <- Hf|done].
  - destruct (flag_race_view k0 k1 r0 (u32 (emm_fd mctx)) mctx v (writes s) (fds s)) as (w' & f' & E & Hv'); [done..|].
    pose proof (run_pool_view flag_race [(k0, WFind r0); (k1, MPath mctx)] s) as Hrun.
    destruct (run_pool flag_race _) as [ts s'] eqn:Er. injection (eq_trans (eq_sym E) Hrun) as Hts _ Hf.
    rewrite Hf in Hv'. eexists flag_race, ts, s', _. split_and!; [done|rewrite <- Hts; by repeat constructor|exact Hv'|done|].
    destruct (trace_close_spec k0 cctx s') as (_ & _ & _ & _ & Hev). rewrite Hev, Hcl, Hv'.
    unfold close_event. replace (has_seen_flag _ _) with false; [by destruct (can_reserve s'); apply app_nil_r|].
    rewrite <- (set_seen_flag_other v FD_SEEN_MMAP_READ FD_SEEN_WRITE) in Hwr by done. by rewrite <- Hwr.
Qed.
End Theorems.

(** ** On the maps of [RefKernel] *)

(** Two threads are in writes of 60 and 50 bytes to one descriptor. *)
Definition writing := run_trace
  (Demo.opened ++ [(Demo.k1, SysEnterWrite (EnterRwCtx 0 1 5 0 60)); (Demo.k2, SysEnterWrite (EnterRwCtx 0 1 5 0 50))]) Demo.init.

Definition writers : list (kenv * pc) := [(Demo.k1, WFind 60); (Demo.k2, WFind 50)].

Lemma steps_alone_witness :
  (alone Demo.k1 7 (WFind 60) writing).1 = Finished /\
  alone Demo.k1 5 (MPath (EnterMmapCtx 0 9 0 4096 1 1 5 0)) writing =
    (Finished, exec (trace_mmap Demo.k1 (EnterMmapCtx 0 9 0 4096 1 1 5 0)) writing).
Proof.
  destruct (steps_alone Demo.k1 writing (ExitCtx 0 1 60) (EnterMmapCtx 0 9 0 4096 1 1 5 0) Demo.close_notes) as (H1 & _ & H2 & _).
  exact (conj H1 H2).
Defined.

Lemma concurrent_writes_bounded_witness :
  storing Demo.key race (writers, writing) = [1; 0]%nat /\ total writers [1; 0]%nat = 110 /\
  exists v1 ix, fds (run_pool race (writers, writing)).2 !! Demo.key = Some v1 /\ pv_write_bytes v1 = 60 /\
    pv_write_bytes v1 = u64 (0 + total writers ix) /\ ix ⊆ [1; 0]%nat.
Proof.
  split; [vm_compute; reflexivity|]. split; [reflexivity|].
  assert (((fun v => (pv_write_bytes v)) <$> fds writing !! Demo.key) = Some 0) as H0 by (vm_compute; reflexivity).
  assert (((fun v => (pv_write_bytes v)) <$> fds (run_pool race (writers, writing)).2 !! Demo.key) = Some 60) as H1 by (vm_compute; reflexivity).
  assert (storing Demo.key race (writers, writing) = [1; 0]%nat) as Hlog by (vm_compute; reflexivity).
  destruct (fds writing !! Demo.key) as [v0|] eqn:E0; [|discriminate H0]. injection H0 as H0.
  destruct (concurrent_writes_bounded Demo.key v0 writers writing race) as (_ & v1 & ix & E1 & _ & _ & E2 & _ & E3 & _);
    [repeat constructor|exact E0|rewrite H0; lia|].
  rewrite E1 in H1. injection H1 as H1. rewrite H0 in E2. rewrite Hlog in E3.
  exists v1, ix. exact (conj E1 (conj H1 (conj E2 E3))).
Defined.

Lemma concurrent_updates_lost_witness :
  exists sched ts s' v', run_pool sched (writers, writing) = (ts, s') /\
    Forall (fun kp => kp.2 = Finished) ts /\ fds s' !! Demo.key = Some v' /\ pv_write_bytes v' = 60.
Proof.
  assert (((fun v => (pv_write_bytes v, pv_seen_flags v)) <$> fds writing !! Demo.key) = Some (0, 0)) as H0 by (vm_compute; reflexivity).
  destruct (fds writing !! Demo.key) as [v0|] eqn:E0; [|discriminate H0]. injection H0 as H0 Hf.
  destruct (concurrent_updates_lost Demo.k1 Demo.k2 writing 5 v0 60 50 (EnterMmapCtx 0 9 0 4096 1 1 5 0) Demo.close_notes)
    as [(sched & ts & s' & v' & H1 & H2 & H3 & H4) _];
    [reflexivity|vm_compute; reflexivity|vm_compute; reflexivity|exact E0|rewrite Hf; lia|lia|lia|reflexivity|
     vm_compute; discriminate|reflexivity|reflexivity|unfold has_seen_flag; rewrite Hf; reflexivity|unfold has_seen_flag; rewrite Hf; reflexivity|].
  rewrite H0 in H4. exists sched, ts, s', v'. exact (conj H1 (conj H2 (conj H3 H4))).
Defined.
