(* ===== verification/FileopSerial.v ===== *)
(** * File-operation probe on several CPUs: updates that do not overlap

    Programs begin and go on in any order on any number of CPUs, as in [FileopConc].
    When no two of them are in the update of one entry at a time, the entry counts
    exactly what was written, and the close reports it.  [concurrent_updates_lost] shows
    that the condition is needed. *)

From S2P Require Import Prelude Helpers RefKernel FileopPaths Fileop FileopSpec FileopProps FileopTheorems FileopConc FileopConcTheorems.

Section Serial.
Context {MO : bpf_map Z path_value} {MW : bpf_map Z Z} {MH : bpf_map Z path_value}.
Context {MF : bpf_map fd_key path_value} {RB : bpf_ringbuf event}.
Context `{!HashOk MO, !HashOk MW, !ArrayOk 2 MH, !LruOk MF, !RingbufOk RB}.
Local Abbreviation st := (state MO MW MH MF RB).
Notation threads := (list (kenv * pc)).
Implicit Types (s : st) (k : kenv) (ts : threads).

Local Abbreviation pid_of k := (bpf_get_current_pid_tgid k).

(** ** What the moves respect *)

(** The task has a program that is not finished. *)
Definition busy (pid : Z) ts : Prop := exists i k p, ts !! i = Some (k, p) /\ pid_of k = pid /\ p <> Finished.

(** The program is in the update of the entry. *)
Definition updates (key : fd_key) (kp : kenv * pc) : Prop :=
  match kp.2 with
  | WPath _ fd => key_of kp.1 fd = key
  | WLoad _ key' | WStore _ key' _ | WFlags key' | WMark key' _
  | MTest key' _ | MFlags key' _ | MMark key' _ _ => key' = key
  | _ => False
  end.

(** No two programs are. *)
Definition exclusive (key : fd_key) ts : Prop :=
  forall i j kp kp', ts !! i = Some kp -> ts !! j = Some kp' -> updates key kp -> updates key kp' -> i = j.

(** A task runs one program at a time, writes that start find room in inflight_write,
    nothing closes the descriptor or opens it anew, and updates of its entry do not
    overlap. *)
Definition begins_well (key : fd_key) (m : move) (ps : threads * st) : Prop :=
  match m with
  | Begin k c => ~ busy (pid_of k) ps.1 /\ fits ps.2 (k, c) /\ untouched key (k, c)
  | Continue _ => True
  end.

Fixpoint orderly (key : fd_key) (ms : list move) (ps : threads * st) : Prop :=
  match ms with
  | [] => True
  | m :: ms => begins_well key m ps /\ exclusive key (move_step ps m).1 /\ orderly key ms (move_step ps m)
  end.

Section Entry.
Context (key : fd_key) (v0 : path_value).

(** ** Bytes that are still to be added *)

Definition pend (w : gmap Z Z) (kp : kenv * pc) : Z :=
  match kp.2 with
  | WFind ret =>
      match w !! pid_of kp.1 with
      | Some fd => if (0 <? ret) && bool_decide (key_of kp.1 fd = key) then ret else 0
      | None => 0
      end
  | WPath ret fd => if bool_decide (key_of kp.1 fd = key) then ret else 0
  | WLoad ret key' | WStore ret key' _ => if bool_decide (key' = key) then ret else 0
  | _ => 0
  end.

Definition pending (w : gmap Z Z) ts : Z := foldr (fun kp n => pend w kp + n) 0 ts.

Lemma pending_snoc w ts kp : pending w (ts ++ [kp]) = pending w ts + pend w kp.
Proof. unfold pending. induction ts as [|x ts IH]; simpl; lia. Qed.

Lemma pending_insert w ts i kp kp' :
  ts !! i = Some kp -> pending w (<[i := kp']> ts) = pending w ts - pend w kp + pend w kp'.
Proof.
  revert i. induction ts as [|x ts IH]; intros [|i]; simpl; [done..|intros [= ->]; lia|].
  intros Hi. rewrite IH by done. lia.
Qed.

Lemma pending_same w w' ts :
  (forall i kp, ts !! i = Some kp -> pend w kp = pend w' kp) -> pending w ts = pending w' ts.
Proof.
  unfold pending. induction ts as [|x ts IH]; intros H; [done|]. simpl. rewrite (H 0%nat x eq_refl), IH; [done|].
  intros i kp Hi. by apply (H (S i)).
Qed.

(** A program of another task, or one that has looked up its descriptor, adds the same. *)
Lemma pend_other w w' kp pid :
  (forall q, q <> pid -> w' !! q = w !! q) -> (pid_of kp.1 = pid -> kp.2 = Finished) -> pend w kp = pend w' kp.
Proof.
  intros Hw Hp. destruct kp as [k p]. unfold pend. cbn [fst snd] in *. destruct p; try done.
  rewrite Hw; [done|]. intros E. by specialize (Hp E).
Qed.

(** ** What a program knows *)

Definition marking (p : pc) : Prop :=
  match p with WFlags key' | WMark key' _ => key' = key | _ => False end.

Definition knows (f : gmap fd_key path_value) (kp : kenv * pc) : Prop :=
  match kp.2 with
  | WPath ret _ | WLoad ret _ => 0 < ret
  | WStore ret key' n => 0 < ret /\ (key' = key -> forall v, f !! key = Some v -> n = pv_write_bytes v)
  | WMark key' g => key' = key -> forall v, f !! key = Some v -> g = pv_seen_flags v
  | MTest _ flag | MFlags _ flag | MReport _ flag => flag <> FD_SEEN_WRITE
  | MMark key' flag g => flag <> FD_SEEN_WRITE /\ (key' = key -> forall v, f !! key = Some v -> g = pv_seen_flags v)
  | CPath ctx => key_of kp.1 (ecl_fd ctx) <> key
  | CTest key' | CReport key' | CForget key' => key' <> key
  | _ => True
  end.

Lemma knows_kept f f' kp :
  (forall v, f' !! key = Some v -> f !! key = Some v) \/ ~ updates key kp -> knows f kp -> knows f' kp.
Proof.
  destruct kp as [k p]. unfold knows, updates. cbn [fst snd]. intros H. destruct p; try done; naive_solver.
Qed.

Lemma mmap_flag_not_write ctx : mmap_flag ctx <> FD_SEEN_WRITE.
Proof. unfold mmap_flag. by destruct (_ =? 0). Qed.

(** ** The tasks *)

(** [w] is what the calls that were begun make of inflight_write: a write that is not
    finished is gone from it, and otherwise the map agrees. *)
Record tasks_ok (w : gmap Z Z) ts (wr : gmap Z Z) : Prop := {
  a_one : forall i j k k' p p', ts !! i = Some (k, p) -> ts !! j = Some (k', p') -> pid_of k = pid_of k' ->
    p <> Finished -> p' <> Finished -> i = j;
  a_writes : forall pid, (forall i k p, ts !! i = Some (k, p) -> pid_of k = pid -> write_pc p -> p = Finished) ->
    wr !! pid = w !! pid;
  a_gone : forall i k p, ts !! i = Some (k, p) -> write_pc p -> p <> Finished -> w !! pid_of k = None;
}.

Lemma lookup_step ts i k p p' j x :
  ts !! i = Some (k, p) -> <[i := (k, p')]> ts !! j = Some x ->
  (j = i /\ x = (k, p')) \/ (j <> i /\ ts !! j = Some x).
Proof.
  intros Hi Hj. destruct (decide (j = i)) as [->|Hne].
  - rewrite list_lookup_insert_eq in Hj by by eapply lookup_lt_Some. left. by simplify_eq.
  - rewrite list_lookup_insert_ne in Hj by done. by right.
Qed.

Lemma write_pc_dec p : write_pc p \/ ~ write_pc p.
Proof. destruct p; cbn; auto. Qed.

Lemma finished_dec p : p = Finished \/ p <> Finished.
Proof. destruct p; auto. Qed.

(** What a step does to inflight_write. *)
Lemma view_step_writes k p wr f :
  let '(p', wr', _) := view_step k p wr f in
  (forall q, q <> pid_of k -> wr' !! q = wr !! q) /\
  (p = Finished -> p' = Finished /\ wr' = wr) /\
  (p <> Finished -> write_pc p -> p' = Finished -> wr' !! pid_of k = None) /\
  (~ write_pc p \/ p' <> Finished -> wr' = wr) /\
  (p' <> Finished -> (write_pc p <-> write_pc p')).
Proof.
  destruct p; cbn [view_step];
    repeat match goal with
    | |- context [match ?x with Some _ => _ | None => _ end] => destruct x eqn:?
    | |- context [if ?x then _ else _] => destruct x
    end; split_and!; try done; try naive_solver.
  - by intros q Hq; rewrite lookup_delete_ne.
  - intros _ _ _. apply lookup_delete_eq.
Qed.

Lemma step_tasks w ts wr f i k p :
  tasks_ok w ts wr -> ts !! i = Some (k, p) ->
  let '(p', wr', _) := view_step k p wr f in tasks_ok w (<[i := (k, p')]> ts) wr'.
Proof.
  intros [H1 H2 H3] Hi. pose proof (view_step_writes k p wr f) as Hs.
  destruct (view_step k p wr f) as [[p' wr'] f']. destruct Hs as (S1 & S2 & S3 & S4 & S5).
  assert (p' <> Finished -> p <> Finished) as Hf by naive_solver. split.
  - intros a b k1 k2 p1 p2 Ha Hb Hk Hp1 Hp2.
    destruct (lookup_step _ _ _ _ _ _ _ Hi Ha) as [[-> [= -> ->]]|[Hna Ha']],
      (lookup_step _ _ _ _ _ _ _ Hi Hb) as [[-> [= -> ->]]|[Hnb Hb']]; [done|..|by eapply H1].
    + by apply (H1 i b k k2 p p2); auto.
    + by apply (H1 a i k1 k p1 p); auto.
  - intros pid Hpid. destruct (decide (pid = pid_of k)) as [->|Hne].
    + assert (<[i := (k, p')]> ts !! i = Some (k, p')) as Hi' by (apply list_lookup_insert_eq; by eapply lookup_lt_Some).
      specialize (Hpid i k p' Hi' eq_refl) as Hp'.
      assert (forall j k2 p2, j <> i -> ts !! j = Some (k2, p2) -> pid_of k2 = pid_of k -> write_pc p2 -> p2 = Finished) as Hoth.
      { intros j k2 p2 Hj Hj2. apply (Hpid j). by rewrite list_lookup_insert_ne. }
      destruct (write_pc_dec p) as [Hw|Hw].
      * assert (p' = Finished) as Ep.
        { destruct (finished_dec p') as [?|Hn]; [done|]. by apply Hp', S5. }
        destruct (finished_dec p) as [Ef|Ef].
        -- destruct (S2 Ef) as [_ ->]. apply H2. intros j k2 p2 Hj Hk2. destruct (decide (j = i)) as [->|Hne]; [|by apply (Hoth j k2)].
           by simplify_eq.
        -- rewrite (S3 Ef Hw Ep), (H3 i k p Hi Hw Ef). done.
      * rewrite S4 by (by left). apply H2. intros j k2 p2 Hj Hk2. destruct (decide (j = i)) as [->|Hne]; [|by apply (Hoth j k2)].
        by simplify_eq.
    + rewrite S1 by done. apply H2. intros j k2 p2 Hj Hk2. apply (Hpid j k2); [|done].
      rewrite list_lookup_insert_ne; [done|]. intros <-. by simplify_eq.
  - intros j k2 p2 Hj Hw Hp2. destruct (lookup_step _ _ _ _ _ _ _ Hi Hj) as [[-> [= -> ->]]|[Hn Hj']]; [|by eapply H3].
    apply (H3 i k p); [done| |by apply Hf]. by apply S5.
Qed.

(** The step of a program changes what it adds, and no other. *)
Lemma step_pending w ts wr f i k p :
  tasks_ok w ts wr -> ts !! i = Some (k, p) ->
  let '(p', wr', _) := view_step k p wr f in
  pending wr' (<[i := (k, p')]> ts) = pending wr ts - pend wr (k, p) + pend wr' (k, p').
Proof.
  intros [H1 _ _] Hi. pose proof (view_step_writes k p wr f) as Hs.
  destruct (view_step k p wr f) as [[p' wr'] f']. destruct Hs as (S1 & S2 & _ & S4 & _).
  rewrite (pending_insert wr' ts i (k, p)) by done.
  destruct (finished_dec p') as [->|Hn]; [|by rewrite S4 by (by right)].
  destruct (finished_dec p) as [->|Hp]; [by destruct (S2 eq_refl) as [_ ->]|].
  change (pend wr' (k, Finished)) with 0.
  replace (pending wr' ts - pend wr' (k, p)) with (pending wr' (<[i := (k, Finished)]> ts))
    by (rewrite (pending_insert wr' ts i (k, p)) by done; cbn; lia).
  replace (pending wr ts - pend wr (k, p)) with (pending wr (<[i := (k, Finished)]> ts))
    by (rewrite (pending_insert wr ts i (k, p)) by done; cbn; lia).
  rewrite !Z.add_0_r. symmetry. apply pending_same. intros j [k2 p2] Hj. apply (pend_other _ _ _ (pid_of k)); [done|].
  cbn [fst snd]. intros Hk. destruct (lookup_step _ _ _ _ _ _ _ Hi Hj) as [[-> [= -> ->]]|[Hne Hj']]; [done|].
  destruct (finished_dec p2) as [?|Hp2]; [done|].
  by destruct Hne; apply (H1 j i k2 k p2 p).
Qed.

(** ** The entry and its counter *)

(** [n] bytes were added to the entry; the programs in [ts] that added have marked it, or
    are about to. *)
Definition counts (n : Z) ts (f : gmap fd_key path_value) : Prop :=
  0 <= n /\ (forall i k p, ts !! i = Some (k, p) -> marking p -> 0 < n) /\
  forall v, f !! key = Some v ->
    pv_path v = pv_path v0 /\ pv_open_flags v = pv_open_flags v0 /\ 0 <= pv_seen_flags v < 8 /\
    pv_write_bytes v = u64 (pv_write_bytes v0 + n) /\
    (has_seen_flag (Some v) FD_SEEN_WRITE = true -> has_seen_flag (Some v0) FD_SEEN_WRITE = true \/ 0 < n) /\
    (has_seen_flag (Some v0) FD_SEEN_WRITE = true \/ 0 < n ->
     has_seen_flag (Some v) FD_SEEN_WRITE = true \/ exists i k p, ts !! i = Some (k, p) /\ marking p).

Lemma counts_same n ts f f' i k p p' :
  ts !! i = Some (k, p) -> (marking p <-> marking p') -> (forall v, f' !! key = Some v -> f !! key = Some v) ->
  counts n ts f -> counts n (<[i := (k, p')]> ts) f'.
Proof.
  intros Hi Hm Hf (H1 & H2 & H3). split; [done|]. split.
  - intros j k2 p2 Hj Hp2. destruct (lookup_step _ _ _ _ _ _ _ Hi Hj) as [[-> [= -> ->]]|[_ Hj']]; [|by eapply H2].
    apply (H2 i k p Hi). by apply Hm.
  - intros v Hv. destruct (H3 v (Hf v Hv)) as (A1 & A2 & A3 & A4 & A5 & A6). split_and!; [done..|lia|lia|done|done|].
    intros [Hs|(j & k2 & p2 & Hj & Hp2)]%A6; [by left|right]. destruct (decide (j = i)) as [->|Hne].
    + exists i, k, p'. rewrite list_lookup_insert_eq by by eapply lookup_lt_Some. simplify_eq. split; [done|by apply Hm].
    + exists j, k2, p2. by rewrite list_lookup_insert_ne.
Qed.

(** The entry is gone. *)
Lemma counts_none n n' ts ts' f' :
  n <= n' -> f' !! key = None -> (forall i k p, ts' !! i = Some (k, p) -> marking p -> ts !! i = Some (k, p)) ->
  forall f, counts n ts f -> counts n' ts' f'.
Proof.
  intros Hn Hf Hm f (H1 & H2 & _). split; [lia|]. split; [|by rewrite Hf].
  intros i k p Hi Hp. specialize (H2 i k p (Hm _ _ _ Hi Hp) Hp). lia.
Qed.

(** The bytes of a write are stored. *)
Lemma counts_store n ts f i k ret m :
  ts !! i = Some (k, WStore ret key m) -> knows f (k, WStore ret key m) -> counts n ts f ->
  counts (n + ret) (<[i := (k, WFlags key)]> ts) (alter (set_write_bytes (u64 (m + u64 ret))) key f).
Proof.
  intros Hi [Hret Hk] (H1 & H2 & H3). split; [lia|]. split; [intros; lia|].
  intros v Hv. rewrite lookup_alter_eq in Hv. apply fmap_Some in Hv as (u & Hu & ->).
  destruct (H3 u Hu) as (A1 & A2 & A3 & A4 & A5 & A6). cbn. rewrite (Hk eq_refl u Hu), A4.
  split_and!; [done..|lia|lia| |intros _; right; lia|].
  - rewrite u64_add_u64_l, u64_add_u64_r. f_equal. lia.
  - intros _. right. exists i, k, (WFlags key). rewrite list_lookup_insert_eq by by eapply lookup_lt_Some. done.
Qed.

(** The entry is marked as written. *)
Lemma counts_mark n ts f i k g :
  ts !! i = Some (k, WMark key g) -> knows f (k, WMark key g) -> counts n ts f ->
  counts n (<[i := (k, WForget)]> ts) (alter (set_flags (u8 (Z.lor g (fd_seen_code FD_SEEN_WRITE)))) key f).
Proof.
  intros Hi Hk (H1 & H2 & H3). specialize (H2 i k _ Hi eq_refl) as Hn. split; [done|]. split; [done|].
  intros v Hv. rewrite lookup_alter_eq in Hv. apply fmap_Some in Hv as (u & Hu & ->).
  destruct (H3 u Hu) as (A1 & A2 & A3 & A4 & A5 & A6). rewrite (Hk eq_refl u Hu).
  change (set_flags _ u) with (set_seen_flag u FD_SEEN_WRITE). pose proof (set_seen_flag_range u FD_SEEN_WRITE A3).
  split_and!; [done..|lia|lia|done|by right|]. intros _. left. by apply has_set_seen_flag.
Qed.

(** The entry is marked as mapped. *)
Lemma counts_map n ts f i k flag g :
  ts !! i = Some (k, MMark key flag g) -> knows f (k, MMark key flag g) -> counts n ts f ->
  counts n (<[i := (k, MReport key flag)]> ts) (alter (set_flags (u8 (Z.lor g (fd_seen_code flag)))) key f).
Proof.
  intros Hi [Hfl Hk] H. apply (counts_same n ts f f i k _ (MReport key flag) Hi) in H as (H1 & H2 & H3); [|done..].
  split; [done|]. split; [done|].
  intros v Hv. rewrite lookup_alter_eq in Hv. apply fmap_Some in Hv as (u & Hu & ->).
  destruct (H3 u Hu) as (A1 & A2 & A3 & A4 & A5 & A6). rewrite (Hk eq_refl u Hu).
  change (set_flags _ u) with (set_seen_flag u flag). pose proof (set_seen_flag_range u flag A3).
  rewrite (set_seen_flag_other u flag FD_SEEN_WRITE) by done. split_and!; [done..|lia|lia|done|done|done].
Qed.

(** ** A step *)

(** A step leaves the entry alone unless its program is in the update of it. *)
Lemma view_step_entry k p wr f :
  knows f (k, p) -> ~ updates key (k, p) ->
  let '(_, _, f') := view_step k p wr f in forall v, f' !! key = Some v -> f !! key = Some v.
Proof.
  unfold knows, updates. cbn [fst snd]. intros Hk Hu. destruct p; cbn [view_step]; try done;
    repeat case_match; simplify_eq; intros v; rewrite ?lookup_alter_ne, ?lookup_delete_ne by done; done.
Qed.

Lemma view_step_knows k p wr f :
  knows f (k, p) -> let '(p', _, f') := view_step k p wr f in knows f' (k, p').
Proof.
  unfold knows. cbn [fst snd]. intros Hk. pose proof mmap_flag_not_write as Hm.
  destruct p; cbn [view_step]; repeat case_match; zbool; simplify_eq/=; try done; try naive_solver.
  - split; [done|]. intros -> v Hv. by rewrite Hv.
  - intros -> v Hv. by rewrite Hv.
  - split; [done|]. intros -> v Hv. by rewrite Hv.
Qed.

Lemma updates_dec kp : updates key kp \/ ~ updates key kp.
Proof.
  destruct kp as [k p]. destruct p; cbn [updates fst snd]; match goal with |- ?P \/ _ => destruct (decide P); auto end.
Qed.

Lemma step_knows ts wr f i k p :
  exclusive key ts -> (forall j kp, ts !! j = Some kp -> knows f kp) -> ts !! i = Some (k, p) ->
  let '(p', _, f') := view_step k p wr f in
  forall j kp, <[i := (k, p')]> ts !! j = Some kp -> knows f' kp.
Proof.
  intros Hx Hk Hi. pose proof (view_step_knows k p wr f (Hk i _ Hi)) as H1.
  pose proof (view_step_entry k p wr f (Hk i _ Hi)) as H2. destruct (view_step k p wr f) as [[p' wr'] f'].
  intros j kp Hj. destruct (lookup_step _ _ _ _ _ _ _ Hi Hj) as [[-> ->]|[Hne Hj']]; [done|].
  apply (knows_kept f); [|by apply (Hk j)].
  destruct (updates_dec (k, p)) as [Hu|Hu].
  - right. intros Hu'. apply Hne. by eapply Hx.
  - left. by apply H2.
Qed.

Lemma step_counts n ts wr f i k p :
  ts !! i = Some (k, p) -> knows f (k, p) -> counts n ts f ->
  let '(p', wr', f') := view_step k p wr f in
  counts (n + (pend wr (k, p) - pend wr' (k, p'))) (<[i := (k, p')]> ts) f'.
Proof.
  intros Hi Hk Hc.
  assert (forall p' f' m, m = n -> (marking p <-> marking p') -> (forall v, f' !! key = Some v -> f !! key = Some v) ->
    counts m (<[i := (k, p')]> ts) f') as Hsame by (intros p' f' m -> ? ?; by eapply counts_same).
  destruct p; cbn [view_step].
  - unfold pend at 1. cbn [fst snd]. destruct (wr !! pid_of k) as [fd|]; [|apply Hsame; cbn; done || lia].
    destruct (0 <? ret); apply Hsame; cbn; done || lia.
  - unfold pend at 1. cbn [fst snd]. destruct (f !! key_of k fd) as [v|] eqn:Ef; [apply Hsame; cbn; done || lia|].
    change (pend wr (k, WForget)) with 0. case_bool_decide as Hkey; [|apply Hsame; done || lia]. rewrite Hkey in Ef.
    apply (counts_none n _ ts) with f; [unfold knows in Hk; cbn in Hk; lia|done| |done].
    intros j k2 p2 Hj Hp2. destruct (lookup_step _ _ _ _ _ _ _ Hi Hj) as [[-> [= -> ->]]|[_ Hj']]; done.
  - apply Hsame; cbn; done || lia.
  - change (pend wr (k, WFlags key0)) with 0. unfold pend. cbn [fst snd]. case_bool_decide as Hkey.
    + subst key0. rewrite Z.sub_0_r. by apply counts_store.
    + apply Hsame; [lia|done|]. intros v. by rewrite lookup_alter_ne.
  - apply Hsame; cbn; done || lia.
  - destruct (decide (key0 = key)) as [->|Hne]; [replace (n + _) with n by (cbn; lia); by apply counts_mark|].
    apply Hsame; [cbn; lia|done|]. intros v. by rewrite lookup_alter_ne.
  - apply Hsame; cbn; done || lia.
  - replace (pend _ _ - pend _ _) with 0 by (by repeat case_match). apply Hsame; [lia| |done]. by repeat case_match.
  - replace (pend _ _ - pend _ _) with 0 by (by repeat case_match). apply Hsame; [lia| |done]. by repeat case_match.
  - apply Hsame; cbn; done || lia.
  - destruct (decide (key0 = key)) as [->|Hne]; [replace (n + _) with n by (cbn; lia); by apply counts_map|].
    apply Hsame; [cbn; lia|done|]. intros v. by rewrite lookup_alter_ne.
  - apply Hsame; cbn; done || lia.
  - replace (pend _ _ - pend _ _) with 0 by (by repeat case_match). apply Hsame; [lia| |done]. by repeat case_match.
  - replace (pend _ _ - pend _ _) with 0 by (by repeat case_match). apply Hsame; [lia| |done]. by repeat case_match.
  - apply Hsame; cbn; done || lia.
  - apply Hsame; [cbn; lia|done|]. intros v. by rewrite lookup_delete_ne.
  - apply Hsame; cbn; done || lia.
Qed.

(** ** A move *)

(** The calls that were begun make [w] of inflight_write and add [b] bytes. *)
Definition serial_ok (w : gmap Z Z) (b : Z) ts s : Prop :=
  tasks_ok w ts (writes s) /\ (forall i kp, ts !! i = Some kp -> knows (fds s) kp) /\
  counts (b - pending (writes s) ts) ts (fds s).

Lemma not_busy pid ts i k p : ~ busy pid ts -> ts !! i = Some (k, p) -> pid_of k = pid -> p = Finished.
Proof. intros Hb Hi Hk. destruct p; try done; (exfalso; apply Hb; by eexists i, k, _). Qed.

Lemma idle_writes w ts wr pid : tasks_ok w ts wr -> ~ busy pid ts -> wr !! pid = w !! pid.
Proof. intros [_ H _] Hb. apply H. intros i k p Hi Hk _. by eapply not_busy. Qed.

Lemma lookup_snoc_inv ts kp i x : (ts ++ [kp]) !! i = Some x -> ts !! i = Some x \/ (i = length ts /\ x = kp).
Proof.
  intros [H|[Hl H]]%lookup_app_Some; [by left|right]. apply list_lookup_singleton_Some in H as [H <-]. split; [lia|done].
Qed.

(** A task that is not busy begins a program. *)
Lemma begin_tasks w w' ts wr k p :
  tasks_ok w ts wr -> ~ busy (pid_of k) ts -> p <> Finished ->
  (write_pc p /\ w' = delete (pid_of k) w) \/ (~ write_pc p /\ w' = w) ->
  tasks_ok w' (ts ++ [(k, p)]) wr.
Proof.
  intros [H1 H2 H3] Hb Hp Hw. split.
  - intros i j k1 k2 p1 p2 [Hi|[-> [= -> ->]]]%lookup_snoc_inv [Hj|[-> [= -> ->]]]%lookup_snoc_inv Hk Hp1 Hp2;
      [by eapply H1| | |done].
    + destruct Hp1. by eapply not_busy.
    + destruct Hp2. by eapply not_busy.
  - intros pid Hpid. rewrite (H2 pid) by (intros i k1 p1 Hi; apply (Hpid i); by apply lookup_app_l_Some).
    destruct Hw as [[Hwp ->]|[_ ->]]; [|done]. destruct (decide (pid = pid_of k)) as [->|Hne]; [|by rewrite lookup_delete_ne].
    destruct Hp. apply (Hpid (length ts) k p); [|done..]. by rewrite lookup_app_r, Nat.sub_diag by done.
  - intros i k1 p1 [Hi|[-> [= -> ->]]]%lookup_snoc_inv Hwp Hp1.
    + destruct Hw as [[_ ->]|[_ ->]]; [|by eapply H3]. apply lookup_delete_None. right. by eapply H3.
    + destruct Hw as [[_ ->]|[Hn _]]; [apply lookup_delete_eq|done].
Qed.

Lemma begin_ok w b ts s k c p :
  program c = Some p -> serial_ok w b ts s -> ~ busy (pid_of k) ts -> untouched key (k, c) ->
  serial_ok (FileopProps.writing w (k, c)) (b + bytes_of key w (k, c)) (ts ++ [(k, p)]) s.
Proof.
  intros Hc (H1 & H2 & H3) Hb Hu.
  assert (p <> Finished /\ ~ marking p /\ knows (fds s) (k, p)) as (Hp & Hm & Hk)
    by (destruct c; try done; injection Hc as <-; cbn in *; split_and!; done || tauto).
  assert (pend (writes s) (k, p) = bytes_of key w (k, c)) as Hpend.
  { destruct c; simplify_eq/=; [|done..]. unfold pend, bytes_of. cbn [fst snd]. by rewrite (idle_writes w ts _ _ H1 Hb). }
  split_and!.
  - apply (begin_tasks w); [done..|]. destruct c; simplify_eq/=; [left|right|right]; by split.
  - intros i kp [Hi|[_ ->]]%lookup_snoc_inv; [by eapply H2|done].
  - rewrite pending_snoc, Hpend. replace (b + _ - _) with (b - pending (writes s) ts) by lia.
    destruct H3 as (C1 & C2 & C3). split; [done|]. split.
    + intros i k1 p1 [Hi|[_ [= -> ->]]]%lookup_snoc_inv Hp1; [by eapply C2|done].
    + intros v Hv. destruct (C3 v Hv) as (A1 & A2 & A3 & A4 & A5 & A6). split_and!; [done..|lia|lia|done|done|].
      intros [Hs|(i & k1 & p1 & Hi & Hp1)]%A6; [by left|right]. exists i, k1, p1. split; [by apply lookup_app_l_Some|done].
Qed.

(** A call that runs at once leaves the entry as it is, or evicts it. *)
Lemma at_once_entry k c s v :
  program c = None -> untouched key (k, c) -> fds (exec (handle k c) s) !! key = Some v -> fds s !! key = Some v.
Proof.
  intros Hc Hu Hv. pose proof (handle_fds_same k c s) as Hsame. destruct c; try done; simpl in Hu;
    try (by rewrite Hsame in Hv); by apply finalize_entry in Hv.
Qed.

Lemma at_once_tasks w ts wr wr' w' pid :
  ~ busy pid ts -> (forall q, q <> pid -> wr' !! q = wr !! q /\ w' !! q = w !! q) ->
  (wr !! pid = w !! pid -> wr' !! pid = w' !! pid) -> tasks_ok w ts wr ->
  tasks_ok w' ts wr' /\ pending wr' ts = pending wr ts.
Proof.
  intros Hb Hq Hpid H. pose proof (idle_writes w ts wr pid H Hb) as Hw. destruct H as [H1 H2 H3]. split.
  - split; [done| |].
    + intros q Hi. destruct (decide (q = pid)) as [->|Hne]; [by apply Hpid|]. destruct (Hq q Hne) as [-> ->]. by apply H2.
    + intros i k p Hi Hp Hf. destruct (decide (pid_of k = pid)) as [E|Hne]; [by destruct Hf; eapply not_busy|].
      destruct (Hq _ Hne) as [_ ->]. by eapply H3.
  - symmetry. apply pending_same. intros i [k p] Hi. apply (pend_other _ _ _ pid); [by intros q Hne; apply Hq|].
    by eapply not_busy.
Qed.

Lemma at_once_ok w b ts s k c :
  program c = None -> serial_ok w b ts s -> ~ busy (pid_of k) ts -> fits s (k, c) -> untouched key (k, c) ->
  serial_ok (FileopProps.writing w (k, c)) (b + bytes_of key w (k, c)) ts (exec (handle k c) s).
Proof.
  intros Hc (H1 & H2 & H3) Hb Hf Hu. pose proof (at_once_entry k c s) as He. unfold serial_ok.
  rewrite (handle_writes k c s Hf).
  destruct (at_once_tasks w ts (writes s) (FileopProps.writing (writes s) (k, c)) (FileopProps.writing w (k, c)) (pid_of k)) as [T1 T2]; [done|..|done|].
  { intros q Hq. unfold FileopProps.writing. destruct c; try done. cbn [fst snd]. destruct (_ =? 0); [done|]. by rewrite !lookup_insert_ne. }
  { unfold FileopProps.writing. destruct c; try done. cbn [fst snd]. destruct (_ =? 0); [done|]. by rewrite !lookup_insert_eq. }
  assert (bytes_of key w (k, c) = 0) as -> by (by destruct c). rewrite T2, Z.add_0_r. split_and!; [done| |].
  - intros i kp Hi. apply (knows_kept (fds s)); [left; by intros v; apply He|by eapply H2].
  - destruct H3 as (C1 & C2 & C3). split_and!; [done..|]. intros v Hv. by apply C3, He.
Qed.

Lemma continue_ok w b ts s i :
  serial_ok w b ts s -> exclusive key ts ->
  serial_ok w b (pool_step (ts, s) i).1 (pool_step (ts, s) i).2.
Proof.
  intros (H1 & H2 & H3) Hx. unfold pool_step. cbn [fst snd]. destruct (ts !! i) as [[k p]|] eqn:Hi; [|done].
  pose proof (step_view k p s) as Hs. destruct (step k p s) as [p' s']. destruct Hs as [Hs _]. cbn [fst snd].
  pose proof (step_tasks w ts (writes s) (fds s) i k p H1 Hi) as T1. pose proof (step_pending w ts (writes s) (fds s) i k p H1 Hi) as T2.
  pose proof (step_knows ts (writes s) (fds s) i k p Hx H2 Hi) as T3.
  pose proof (step_counts (b - pending (writes s) ts) ts (writes s) (fds s) i k p Hi (H2 i _ Hi) H3) as T4.
  rewrite Hs in T1, T2, T3, T4. split_and!; [done..|]. rewrite T2.
  by replace (b - _) with (b - pending (writes s) ts + (pend (writes s) (k, p) - pend (writes s') (k, p'))) by lia.
Qed.

Lemma run_moves_ok ms : forall w b ts s,
  serial_ok w b ts s -> exclusive key ts -> orderly key ms (ts, s) ->
  exists w', serial_ok w' (b + bytes_to key w (begun ms)) (run_moves ms (ts, s)).1 (run_moves ms (ts, s)).2.
Proof.
  induction ms as [|m ms IH]; intros w b ts s Hs Hx Ho; [exists w; by rewrite Z.add_0_r|].
  destruct Ho as (Hb & Hx' & Ho). change (run_moves (m :: ms) (ts, s)) with (run_moves ms (move_step (ts, s) m)).
  destruct m as [k c|i]; cbn [move_step fst snd begins_well] in *.
  - destruct Hb as (Hb & Hf & Hu). change (begun (Begin k c :: ms)) with ((k, c) :: begun ms). cbn [bytes_to].
    rewrite Z.add_assoc. destruct (program c) as [p|] eqn:Hc.
    + apply IH; [by apply begin_ok|done..].
    + apply IH; [by apply at_once_ok|done..].
  - change (begun (Continue i :: ms)) with (begun ms). pose proof (continue_ok w b ts s i Hs Hx) as H.
    destruct (pool_step (ts, s) i) as [ts' s']. by apply IH.
Qed.
End Entry.

(** The entry once all programs that were begun have finished. *)
Lemma moves_entry key ms s ts s' v0 v1 :
  fileop_inv s -> fds s !! key = Some v0 -> orderly key ms ([], s) -> run_moves ms ([], s) = (ts, s') ->
  Forall (fun kp => kp.2 = Finished) ts -> fds s' !! key = Some v1 ->
  pv_path v1 = pv_path v0 /\ pv_open_flags v1 = pv_open_flags v0 /\
  pv_write_bytes v1 = u64 (pv_write_bytes v0 + bytes_to key (writes s) (begun ms)) /\
  has_seen_flag (Some v1) FD_SEEN_WRITE =
    has_seen_flag (Some v0) FD_SEEN_WRITE || (0 <? bytes_to key (writes s) (begun ms)).
Proof.
  intros (_ & HI & _) Hv0 Ho Hrun Hfin Hv1. destruct (HI _ _ Hv0) as (_ & _ & Hb & Hsn & _).
  destruct (run_moves_ok key v0 ms (writes s) 0 [] s) as (w' & _ & _ & _ & _ & Hc).
  { split_and!; [by split|done|]. cbn. split_and!; [lia|done|]. intros v Hv. rewrite Hv0 in Hv. injection Hv as <-.
    rewrite Z.add_0_r, u64_small by done. split_and!; [done..|lia|lia|done|by left|]. intros [H|H]; [by left|lia]. }
  { by intros i j kp kp' Hi. }
  { done. }
  rewrite Hrun in Hc. cbn [fst snd] in Hc. assert (pending key (writes s') ts = 0) as Hp.
  { clear -Hfin. induction Hfin as [|[k p] ts Hp _ IH]; [done|].
    change (pend key (writes s') (k, p) + pending key (writes s') ts = 0). rewrite IH. cbn in Hp. by subst p. }
  rewrite Hp in Hc. destruct (Hc v1 Hv1) as (A1 & A2 & A3 & A4 & A5 & A6).
  rewrite Z.sub_0_r, Z.add_0_l in *. split_and!; [done..|].
  assert (~ exists i k p, ts !! i = Some (k, p) /\ marking key p) as Hnone.
  { intros (i & k & p & Hi & Hm). rewrite Forall_lookup in Hfin. specialize (Hfin i _ Hi). cbn in Hfin. by subst p. }
  destruct (has_seen_flag (Some v1) FD_SEEN_WRITE).
  - destruct (A5 eq_refl) as [->|H]; [done|]. by rewrite (proj2 (Z.ltb_lt _ _) H), orb_true_r.
  - destruct (has_seen_flag (Some v0) FD_SEEN_WRITE); [by destruct (A6 (or_introl eq_refl))|].
    destruct (Z.ltb_spec 0 (bytes_to key (writes s) (begun ms))) as [H|]; [by destruct (A6 (or_intror H))|done].
Qed.

(** C5. Write accounting.  The exits of writes, mappings and closes are programs that run
    in steps on any number of CPUs, begun by any tasks at any time.  When the updates of an
    entry do not overlap, and nothing closes the descriptor or opens it anew, then once the
    programs have finished the entry, if it was not evicted, has its path and open flags;
    its counter has grown by exactly the bytes the writes of all threads of the process put
    through the descriptor (modulo 2^64); and it is marked written iff it was before or some
    byte was written. *)
Theorem serial_writes_counted key ms s ts s' v0 v1 :
  fileop_inv s -> fds s !! key = Some v0 -> orderly key ms ([], s) ->
  run_moves ms ([], s) = (ts, s') -> Forall (fun kp => kp.2 = Finished) ts -> fds s' !! key = Some v1 ->
  pv_path v1 = pv_path v0 /\ pv_open_flags v1 = pv_open_flags v0 /\
  pv_write_bytes v1 = u64 (pv_write_bytes v0 + bytes_to key (writes s) (begun ms)) /\
  has_seen_flag (Some v1) FD_SEEN_WRITE =
    has_seen_flag (Some v0) FD_SEEN_WRITE || (0 <? bytes_to key (writes s) (begun ms)).
Proof. apply moves_entry. Qed.

(** C6. The write summary.  A descriptor is opened, used by programs on any number of CPUs
    whose updates of its entry do not overlap, and closed when they have finished.  Unless
    its entry was evicted or its path is filtered, the steps of the close report one WRITE
    event with the path and flags of the open and the exact number of bytes written in
    between (modulo 2^64) when that is positive, report nothing when nothing was written,
    and forget the descriptor. *)
Theorem serial_writes_summed ko octx ms kc cctx s ts s2 v :
  let key := key_of ko (u32 (ex_ret octx)) in
  let s1 := exec (handle ko (SysExitOpenat octx)) s in
  let total := bytes_to key (writes s) (begun ms) in
  lawful ko -> fileop_inv s -> opens s !! bpf_get_current_pid_tgid ko = Some v -> 0 <= ex_ret octx ->
  (update_elem (st_fd_paths s) key v BPF_ANY).1 = 0 ->
  orderly key ms ([], s1) -> run_moves ms ([], s1) = (ts, s2) -> Forall (fun kp => kp.2 = Finished) ts ->
  is_Some (fds s2 !! key) -> key_of kc (ecl_fd cctx) = key -> can_reserve s2 = true ->
  should_drop_fd_event (Some v) (file_op_code FILE_OP_WRITE) = false ->
  let '(p, s3) := alone kc 4 (CPath cctx) s2 in
  p = Finished /\ fds s3 !! key = None /\
  exists e, evs s3 = evs s2 ++ (if 0 <? total then [e] else []) /\
    ev_op e = file_op_code FILE_OP_WRITE /\ ev_bytes e = u64 total /\
    ev_path e = pv_path v /\ ev_flags e = pv_open_flags v.
Proof.
  cbv zeta. intros Hko HI Hv Hret Hup Ho Hrun Hfin [v1 Hv1] Hkey Hroom Hdrop. rewrite alone_close. split; [done|].
  set (s1 := exec (handle ko (SysExitOpenat octx)) s) in *.
  destruct (trace_close_spec kc cctx s2) as (_ & _ & _ & Hc1 & Hc2).
  cbv zeta in Hc1, Hc2. rewrite Hkey in *. rewrite Hc1, Hc2, lookup_delete_eq, Hv1, Hroom. split; [done|].
  assert (fileop_inv s1) as HI1 by by apply handle_inv.
  destruct (finalize_tracked ko octx s v Hv Hret Hup) as (Ht & _).
  destruct (moves_entry _ ms s1 ts s2 v v1 HI1 Ht Ho Hrun Hfin Hv1) as (E1 & E2 & E3 & E5).
  replace (writes s1) with (writes s) in * by (symmetry; apply finalize_writes).
  pose proof HI as (HO & _). destruct (HO _ _ Hv) as (_ & _ & Hb & Hs).
  assert (has_seen_flag (Some v) FD_SEEN_WRITE = false) as Hns
    by (unfold has_seen_flag; by rewrite Hs).
  rewrite Hns in E5. rewrite Hb, Z.add_0_l in E3. simpl in E5.
  exists (fd_event kc v1 (file_op_code FILE_OP_WRITE) (pv_write_bytes v1)).
  unfold close_event, fd_event_opt. rewrite E5.
  replace (should_drop_fd_event (Some v1) (file_op_code FILE_OP_WRITE)) with false
    by (rewrite <- Hdrop; unfold should_drop_fd_event; by rewrite E1).
  simpl. rewrite E1, E2, E3. by destruct (0 <? _).
Qed.

(** ** Orderly moves, decided *)

Definition finishedb (p : pc) : bool := match p with Finished => true | _ => false end.

Definition updatesb (key : fd_key) (kp : kenv * pc) : bool :=
  match kp.2 with
  | WPath _ fd => bool_decide (key_of kp.1 fd = key)
  | WLoad _ key' | WStore _ key' _ | WFlags key' | WMark key' _
  | MTest key' _ | MFlags key' _ | MMark key' _ _ => bool_decide (key' = key)
  | _ => false
  end.

Definition begins_wellb (key : fd_key) (m : move) (ps : threads * st) : bool :=
  match m with
  | Continue _ => true
  | Begin k c =>
      forallb (fun kp => negb (pid_of kp.1 =? pid_of k) || finishedb kp.2) ps.1 &&
      match c with
      | SysEnterWrite ctx =>
          (erw_count ctx =? 0) || ((update_elem (st_inflight_write ps.2) (pid_of k) (u32 (erw_fd ctx)) BPF_ANY).1 =? 0)
      | SysEnterClose ctx => bool_decide (key_of k (ecl_fd ctx) <> key)
      | SysExitOpen ctx | SysExitOpenat ctx | SysExitOpenat2 ctx => bool_decide (key_of k (u32 (ex_ret ctx)) <> key)
      | _ => true
      end
  end.

Fixpoint orderlyb (key : fd_key) (ms : list move) (ps : threads * st) : bool :=
  match ms with
  | [] => true
  | m :: ms =>
      begins_wellb key m ps && (length (List.filter (updatesb key) (move_step ps m).1) <=? 1)%nat &&
      orderlyb key ms (move_step ps m)
  end.

Lemma updatesb_true key kp : updates key kp -> updatesb key kp = true.
Proof. destruct kp as [k p]. destruct p; cbn; try done; intros ->; by apply bool_decide_eq_true. Qed.

Lemma one_of {A} (g : A -> bool) (l : list A) i j x y :
  (length (List.filter g l) <= 1)%nat -> l !! i = Some x -> l !! j = Some y -> g x = true -> g y = true -> i = j.
Proof.
  assert (forall (l : list A) i x, l !! i = Some x -> g x = true -> (0 < length (List.filter g l))%nat) as Hone.
  { clear. induction l as [|a l IH]; intros [|i] x Hi Hx; try done; cbn [List.filter].
    - injection Hi as ->. rewrite Hx. simpl. lia.
    - destruct (g a); [simpl; lia|by eapply IH]. }
  revert i j. induction l as [|a l IH]; intros [|i] [|j] Hl Hi Hj Hx Hy; try done; cbn [List.filter] in Hl.
  - injection Hi as ->. rewrite Hx in Hl. specialize (Hone l j y Hj Hy). simpl in Hl. lia.
  - injection Hj as ->. rewrite Hy in Hl. specialize (Hone l i x Hi Hx). simpl in Hl. lia.
  - f_equal. apply IH; try done. destruct (g a); simpl in Hl; lia.
Qed.

Lemma begins_wellb_true key m ps : begins_wellb key m ps = true -> begins_well key m ps.
Proof.
  destruct m as [k c|i]; [|done]. cbn. rewrite andb_true_iff. intros [Hf Hc]. split_and!.
  - intros (i & k1 & p & Hi & Hk & Hp). rewrite forallb_forall in Hf.
    specialize (Hf (k1, p) (proj1 (list_elem_of_In _ _) (list_elem_of_lookup_2 _ _ _ Hi))). cbn in Hf.
    rewrite Hk, Z.eqb_refl in Hf. by destruct p.
  - unfold fits. destruct c; try done. cbn. apply orb_true_iff in Hc as [H%Z.eqb_eq|H%Z.eqb_eq]; [done|done].
  - unfold untouched. destruct c; try done; cbn; by apply bool_decide_eq_true in Hc.
Qed.

Lemma orderlyb_true key ms ps : orderlyb key ms ps = true -> orderly key ms ps.
Proof.
  revert ps. induction ms as [|m ms IH]; intros ps; [done|]. cbn [orderlyb orderly]. rewrite !andb_true_iff.
  intros [[H1 H2] H3]. split_and!; [by apply begins_wellb_true| |by apply IH].
  intros i j kp kp' Hi Hj Hu Hu'. apply Nat.leb_le in H2.
  by apply (one_of _ _ _ _ _ _ H2 Hi Hj); apply updatesb_true.
Qed.
End Serial.

(** ** On the maps of [RefKernel] *)

Module SerialDemo.
(** Two threads write to one descriptor while another process writes to its own of that
    number: their programs are begun together, and the second update starts when the first
    is over. *)
Definition moves : list move :=
  [Begin Demo.k1 (SysEnterWrite (EnterRwCtx 0 1 5 0 100)); Begin Demo.k2 (SysEnterWrite (EnterRwCtx 0 1 5 0 50));
   Begin Demo.k3 (SysExitWrite (ExitCtx 0 1 7)); Begin Demo.k1 (SysExitWrite (ExitCtx 0 1 60));
   Begin Demo.k2 (SysExitWrite (ExitCtx 0 1 50));
   Continue 1; Continue 0; Continue 1; Continue 0; Continue 1; Continue 1; Continue 0; Continue 1; Continue 1;
   Continue 2; Continue 1; Continue 2; Continue 2; Continue 2; Continue 2; Continue 2; Continue 2].
Definition s0 := run_trace Demo.open_notes Demo.init.
Definition s1 := exec (handle Demo.k1 (SysExitOpenat (ExitCtx 0 257 5))) s0.

Lemma s0_inv : fileop_inv s0.
Proof. apply (run_trace_inv Demo.open_notes); [demo_trace|]. by apply empty_inv. Qed.

Lemma s1_inv : fileop_inv s1.
Proof. apply handle_inv; [apply ref_lawful|apply s0_inv]. Qed.

Lemma finished {A} (ts : list (kenv * pc)) (s : A) r :
  r = (ts, s) -> forallb (fun kp => finishedb kp.2) r.1 = true -> Forall (fun kp => kp.2 = Finished) ts.
Proof.
  intros -> H. apply Forall_forall. intros [k p] Hp%list_elem_of_In. rewrite forallb_forall in H. specialize (H _ Hp).
  cbn in *. by destruct p.
Qed.
End SerialDemo.

Lemma serial_writes_counted_witness :
  exists v1, fds (run_moves SerialDemo.moves ([], SerialDemo.s1)).2 !! Demo.key = Some v1 /\ pv_write_bytes v1 = 110 /\
    has_seen_flag (Some v1) FD_SEEN_WRITE = true.
Proof.
  assert ((fun v => (pv_write_bytes v, pv_seen_flags v)) <$> (fds SerialDemo.s1 !! Demo.key) = Some (0, 0)) as H0 by (vm_compute; reflexivity).
  assert (bool_decide (is_Some (fds (run_moves SerialDemo.moves ([], SerialDemo.s1)).2 !! Demo.key)) = true) as H1 by (vm_compute; reflexivity).
  apply bool_decide_eq_true in H1 as [v1 H1].
  destruct (fds SerialDemo.s1 !! Demo.key) as [v0|] eqn:E0; [|discriminate H0]. injection H0 as H0 Hf.
  destruct (run_moves SerialDemo.moves ([], SerialDemo.s1)) as [ts s'] eqn:Er. cbn [snd] in *. exists v1.
  destruct (serial_writes_counted Demo.key SerialDemo.moves SerialDemo.s1 ts s' v0 v1) as (_ & _ & H2 & H3).
  - exact SerialDemo.s1_inv.
  - exact E0.
  - apply orderlyb_true. vm_compute. reflexivity.
  - exact Er.
  - apply (SerialDemo.finished ts s' _ Er). vm_compute. reflexivity.
  - exact H1.
  - rewrite H0 in H2. unfold has_seen_flag in H3 at 2. rewrite Hf in H3.
    assert (bytes_to Demo.key (writes SerialDemo.s1) (begun SerialDemo.moves) = 110) as Hb by (vm_compute; reflexivity).
    rewrite Hb in H2, H3. exact (conj H1 (conj H2 H3)).
Defined.

Lemma serial_writes_summed_witness :
  let s2 := (run_moves SerialDemo.moves ([], SerialDemo.s1)).2 in
  let s3 := (alone Demo.k2 4 (CPath Demo.close_notes) s2).2 in
  fds s3 !! Demo.key = None /\
  exists e, evs s3 = evs s2 ++ [e] /\ ev_op e = file_op_code FILE_OP_WRITE /\ ev_bytes e = 110.
Proof.
  assert (bool_decide (is_Some (fds (run_moves SerialDemo.moves ([], SerialDemo.s1)).2 !! Demo.key)) = true) as H1 by (vm_compute; reflexivity).
  assert (can_reserve (run_moves SerialDemo.moves ([], SerialDemo.s1)).2 = true) as Hroom by (vm_compute; reflexivity).
  apply bool_decide_eq_true in H1.
  assert (bool_decide (is_Some (opens SerialDemo.s0 !! bpf_get_current_pid_tgid Demo.k1)) = true) as H2 by (vm_compute; reflexivity).
  apply bool_decide_eq_true in H2 as [v Hv].
  destruct (run_moves SerialDemo.moves ([], SerialDemo.s1)) as [ts s2] eqn:Er. cbn [snd] in *. cbv zeta.
  pose proof (serial_writes_summed Demo.k1 (ExitCtx 0 257 5) SerialDemo.moves Demo.k2 Demo.close_notes SerialDemo.s0 ts s2 v) as H.
  cbv zeta in H. destruct (alone Demo.k2 4 (CPath Demo.close_notes) s2) as [p s3]. cbn [snd].
  assert (bytes_to (key_of Demo.k1 (u32 (ex_ret (ExitCtx 0 257 5)))) (writes SerialDemo.s0) (begun SerialDemo.moves) = 110) as Hb
    by (vm_compute; reflexivity).
  rewrite Hb in H. destruct H as (_ & H3 & e & H4 & H5 & H6 & _).
  - apply ref_lawful.
  - exact SerialDemo.s0_inv.
  - exact Hv.
  - vm_compute. discriminate.
  - vm_compute. reflexivity.
  - apply orderlyb_true. vm_compute. reflexivity.
  - exact Er.
  - apply (SerialDemo.finished ts s2 _ Er). vm_compute. reflexivity.
  - exact H1.
  - reflexivity.
  - exact Hroom.
  - assert (should_drop_fd_event (opens SerialDemo.s0 !! bpf_get_current_pid_tgid Demo.k1) (file_op_code FILE_OP_WRITE) = false) as Hd
      by (vm_compute; reflexivity). rewrite Hv in Hd. exact Hd.
  - split; [exact H3|]. exists e. exact (conj H4 (conj H5 H6)).
Defined.
