(* ===== verification/Tracing.v ===== *)
(** * Register access and argument macros

    [headers/bpf_tracing.h] and the register structures of
    [headers/common.h]: target selection, the per-architecture register
    tables, the [PT_REGS_*] accessors, and the argument lists that [BPF_PROG],
    [BPF_PROG2], [BPF_KPROBE], [BPF_KRETPROBE] and [BPF_KSYSCALL] build. *)

From S2P Require Import Prelude Helpers.

(** ** Target selection *)

Inductive bpf_target :=
  | bpf_target_x86
  | bpf_target_s390
  | bpf_target_arm
  | bpf_target_arm64
  | bpf_target_mips
  | bpf_target_powerpc
  | bpf_target_sparc
  | bpf_target_riscv
  | bpf_target_arc
  | bpf_target_loongarch.

#[export] Instance bpf_target_eq_dec : EqDecision bpf_target.
Proof. solve_decision. Defined.

(** The preprocessor's view: which macros are defined, and the value of
    [__riscv_xlen]. *)
Record macros := Macros {
  defined : string -> bool;
  riscv_xlen : Z;
}.

(** What the compiler says. *)
Definition compiler_target (D : macros) : option bpf_target :=
  if defined D "__x86_64__" then Some bpf_target_x86
  else if defined D "__s390__" then Some bpf_target_s390
  else if defined D "__arm__" then Some bpf_target_arm
  else if defined D "__aarch64__" then Some bpf_target_arm64
  else if defined D "__mips__" then Some bpf_target_mips
  else if defined D "__powerpc__" then Some bpf_target_powerpc
  else if defined D "__sparc__" then Some bpf_target_sparc
  else if defined D "__riscv" && (riscv_xlen D =? 64) then Some bpf_target_riscv
  else if defined D "__arc__" then Some bpf_target_arc
  else if defined D "__loongarch__" then Some bpf_target_loongarch
  else None.

(** The selected target; [None] when [bpf_target_defined] is not set. *)
Definition target (D : macros) : option bpf_target :=
  if defined D "__TARGET_ARCH_x86" then Some bpf_target_x86
  else if defined D "__TARGET_ARCH_s390" then Some bpf_target_s390
  else if defined D "__TARGET_ARCH_arm" then Some bpf_target_arm
  else if defined D "__TARGET_ARCH_arm64" then Some bpf_target_arm64
  else if defined D "__TARGET_ARCH_mips" then Some bpf_target_mips
  else if defined D "__TARGET_ARCH_powerpc" then Some bpf_target_powerpc
  else if defined D "__TARGET_ARCH_sparc" then Some bpf_target_sparc
  else if defined D "__TARGET_ARCH_riscv" then Some bpf_target_riscv
  else if defined D "__TARGET_ARCH_arc" then Some bpf_target_arc
  else if defined D "__TARGET_ARCH_loongarch" then Some bpf_target_loongarch
  else compiler_target D.

(** ** Register tables *)

(** A member designator of the register structure. *)
Inductive reg :=
  | Member (f : string)
  | Elem (f : string) (i : Z)
  | ElemSym (f i : string)
  | Nested (s f : string)
  | Unsupported.

#[export] Instance reg_eq_dec : EqDecision reg.
Proof. solve_decision. Defined.

(** The macros an architecture defines.  [pt_parms] and [pt_syscall_parms] list
    [__PT_PARM1_REG] and [__PT_PARM1_SYSCALL_REG] onwards; the latter name the
    structure they are read from when it is not the one of [pt_cast].
    [pt_syscall_direct] is set where [PT_REGS_SYSCALL_REGS(ctx)] is [ctx]. *)
Record abi := Abi {
  pt_cast : string;
  pt_parms : list reg;
  pt_syscall_parms : list (option string * reg);
  pt_syscall_direct : bool;
  pt_ret : reg;
  pt_fp : reg;
  pt_rc : reg;
  pt_sp : reg;
  pt_ip : reg;
}.

Definition same (r : reg) : option string * reg := (None, r).

Definition abi_x86_vmlinux : abi :=
  let parms := [Member "di"; Member "si"; Member "dx"; Member "cx"; Member "r8"; Member "r9"] in
  Abi "pt_regs" parms (same <$> <[3%nat := Member "r10"]> parms) false
    (Member "sp") (Member "bp") (Member "ax") (Member "sp") (Member "ip").

Definition abi_i386 : abi :=
  Abi "pt_regs" [Member "eax"; Member "edx"; Member "ecx"]
    (same <$> [Member "ebx"; Member "ecx"; Member "edx"; Member "esi"; Member "edi"; Member "ebp"])
    false (Member "esp") (Member "ebp") (Member "eax") (Member "esp") (Member "eip").

Definition abi_x86_64 : abi :=
  let parms := [Member "rdi"; Member "rsi"; Member "rdx"; Member "rcx"; Member "r8"; Member "r9"] in
  Abi "pt_regs" parms (same <$> <[3%nat := Member "r10"]> parms) false
    (Member "rsp") (Member "rbp") (Member "rax") (Member "rsp") (Member "rip").

Definition abi_x86 (D : macros) : abi :=
  if defined D "__KERNEL__" || defined D "__VMLINUX_H__" then abi_x86_vmlinux
  else if defined D "__i386__" then abi_i386 else abi_x86_64.

Definition abi_s390 : abi :=
  Abi "user_pt_regs" [Elem "gprs" 2; Elem "gprs" 3; Elem "gprs" 4; Elem "gprs" 5; Elem "gprs" 6]
    ((Some "pt_regs___s390", Member "orig_gpr2") ::
     (same <$> [Elem "gprs" 3; Elem "gprs" 4; Elem "gprs" 5; Elem "gprs" 6; Elem "gprs" 7]))%string
    false (Elem "gprs" 14) (Elem "gprs" 11) (Elem "gprs" 2) (Elem "gprs" 15) (Nested "psw" "addr").

Definition abi_arm : abi :=
  let parms := Elem "uregs" <$> [0; 1; 2; 3] in
  Abi "pt_regs" parms (same <$> parms ++ [Elem "uregs" 4; Elem "uregs" 5; Elem "uregs" 6])
    false (Elem "uregs" 14) (Elem "uregs" 11) (Elem "uregs" 0) (Elem "uregs" 13)
    (Elem "uregs" 12).

Definition abi_arm64 : abi :=
  let parms := Elem "regs" <$> [0; 1; 2; 3; 4; 5; 6; 7] in
  Abi "user_pt_regs" parms
    ((Some "pt_regs___arm64"%string, Member "orig_x0") :: (same <$> take 5 (drop 1 parms)))
    false (Elem "regs" 30) (Elem "regs" 29) (Elem "regs" 0) (Member "sp") (Member "pc").

Definition abi_mips : abi :=
  let parms := Elem "regs" <$> [4; 5; 6; 7; 8; 9; 10; 11] in
  Abi "pt_regs" parms (same <$> take 6 parms)
    false (Elem "regs" 31) (Elem "regs" 30) (Elem "regs" 2) (Elem "regs" 29) (Member "cp0_epc").

Definition abi_powerpc (D : macros) : abi :=
  let parms := Elem "gpr" <$> [3; 4; 5; 6; 7; 8; 9; 10] in
  Abi "pt_regs" parms
    (same <$> Member "orig_gpr3" ::
       take (if negb (defined D "__arch64__") then 6 else 5) (drop 1 parms))
    true (Elem "regs" 31) Unsupported (Elem "gpr" 3) (Elem "gpr" 1) (Member "nip").

Definition abi_sparc (D : macros) : abi :=
  let parms := ElemSym "u_regs" <$>
    ["UREG_I0"; "UREG_I1"; "UREG_I2"; "UREG_I3"; "UREG_I4"; "UREG_I5"]%string in
  Abi "pt_regs" parms (same <$> parms)
    false (ElemSym "u_regs" "UREG_I7") Unsupported (ElemSym "u_regs" "UREG_I0")
    (ElemSym "u_regs" "UREG_FP") (Member (if defined D "__arch64__" then "tpc" else "pc")).

Definition abi_riscv : abi :=
  let parms := Member <$> ["a0"; "a1"; "a2"; "a3"; "a4"; "a5"; "a6"; "a7"]%string in
  Abi "user_regs_struct" parms
    ((Some "pt_regs___riscv"%string, Member "orig_a0") :: (same <$> take 5 (drop 1 parms)))
    false (Member "ra") (Member "s0") (Member "a0") (Member "sp") (Member "pc").

Definition abi_arc : abi :=
  let parms := Nested "scratch" <$> ["r0"; "r1"; "r2"; "r3"; "r4"; "r5"; "r6"; "r7"]%string in
  Abi "user_regs_struct" parms (same <$> take 6 parms)
    true (Nested "scratch" "blink") (Nested "scratch" "fp") (Nested "scratch" "r0")
    (Nested "scratch" "sp") (Nested "scratch" "ret").

Definition abi_loongarch : abi :=
  let parms := Elem "regs" <$> [4; 5; 6; 7; 8; 9; 10; 11] in
  Abi "user_pt_regs" parms (same <$> take 6 parms)
    true (Elem "regs" 1) (Elem "regs" 22) (Elem "regs" 4) (Elem "regs" 3) (Member "csr_era").

Definition abi_of (D : macros) (t : bpf_target) : abi :=
  match t with
  | bpf_target_x86 => abi_x86 D
  | bpf_target_s390 => abi_s390
  | bpf_target_arm => abi_arm
  | bpf_target_arm64 => abi_arm64
  | bpf_target_mips => abi_mips
  | bpf_target_powerpc => abi_powerpc D
  | bpf_target_sparc => abi_sparc D
  | bpf_target_riscv => abi_riscv
  | bpf_target_arc => abi_arc
  | bpf_target_loongarch => abi_loongarch
  end.

(** [__PT_PARMn_REG] and [__PT_PARMn_SYSCALL_REG], numbered from 1, with the
    [__unsupported__] defaults. *)
Definition parm_reg (a : abi) (n : nat) : reg := default Unsupported (pt_parms a !! pred n).
Definition syscall_parm_reg (a : abi) (n : nat) : option string * reg :=
  default (same Unsupported) (pt_syscall_parms a !! pred n).

(** ** Register structures *)

(** [struct pt_regs] of amd64. *)
Record pt_regs := PtRegs {
  r15 : Z; r14 : Z; r13 : Z; r12 : Z; rbp : Z; rbx : Z;
  r11 : Z; r10 : Z; r9 : Z; r8 : Z; rax : Z; rcx : Z; rdx : Z; rsi : Z; rdi : Z;
  orig_rax : Z;
  rip : Z; cs : Z; eflags : Z; rsp : Z; ss : Z }.

(** [struct user_pt_regs] of arm64. *)
Record user_pt_regs := UserPtRegs {
  regs : list Z; sp : Z; pc : Z; pstate : Z }.

(** The members of the structure in memory order, eight bytes each. *)
Definition pt_regs_members (x : pt_regs) : list (string * Z) :=
  [("r15", r15 x); ("r14", r14 x); ("r13", r13 x); ("r12", r12 x); ("rbp", rbp x);
   ("rbx", rbx x); ("r11", r11 x); ("r10", r10 x); ("r9", r9 x); ("r8", r8 x);
   ("rax", rax x); ("rcx", rcx x); ("rdx", rdx x); ("rsi", rsi x); ("rdi", rdi x);
   ("orig_rax", orig_rax x); ("rip", rip x); ("cs", cs x); ("eflags", eflags x);
   ("rsp", rsp x); ("ss", ss x)]%string.

Fixpoint member (f : string) (l : list (string * Z)) : option Z :=
  match l with
  | [] => None
  | (g, v) :: l' => if decide (f = g) then Some v else member f l'
  end.

(** Member access through a pointer cast to a structure: [None] when the
    structure has no such member, which the compiler rejects. *)
Definition view : Type := string -> reg -> option Z.

Definition view_pt_regs (x : pt_regs) : view := fun s r =>
  match r with
  | Member f => if decide (s = "pt_regs") then member f (pt_regs_members x) else None
  | _ => None
  end.

(** A kernel context of arm64: the [user_pt_regs] it starts with and the
    [orig_x0] of the whole structure. *)
Definition view_user_pt_regs (x : user_pt_regs) (orig_x0 : Z) : view := fun s r =>
  if decide (s = "user_pt_regs") then
    match r with
    | Elem f i => if decide (f = "regs") then
        if (0 <=? i) && (i <? 31) then Some (rd (regs x) (Z.to_nat i)) else None else None
    | Member f => member f [("sp", sp x); ("pc", pc x); ("pstate", pstate x)]%string
    | _ => None
    end
  else if decide (s = "pt_regs___arm64") then
    match r with Member f => member f [("orig_x0", orig_x0)]%string | _ => None end
  else None.

(** ** Accessors

    [a] is [None] when no target is defined: then every accessor expands to a
    compile-time error ([_Pragma(__BPF_TARGET_MISSING)]). *)
Definition target_missing : option Z := None.

Section Accessors.
Context (a : option abi).

Definition access (f : abi -> reg) (x : view) : option Z :=
  match a with
  | Some a => x (pt_cast a) (f a)
  | None => target_missing
  end.

Definition PT_REGS_PARM (n : nat) : view -> option Z := access (fun a => parm_reg a n).
Definition PT_REGS_RET : view -> option Z := access pt_ret.
Definition PT_REGS_FP : view -> option Z := access pt_fp.
Definition PT_REGS_RC : view -> option Z := access pt_rc.
Definition PT_REGS_SP : view -> option Z := access pt_sp.
Definition PT_REGS_IP : view -> option Z := access pt_ip.

Definition PT_REGS_PARM_SYSCALL (n : nat) (x : view) : option Z :=
  match a with
  | Some a =>
      let '(s, r) := syscall_parm_reg a n in x (default (pt_cast a) s) r
  | None => target_missing
  end.

(** The [_CORE] accessors take a pointer and read the member with
    [BPF_CORE_READ]: [core] is the structure as those reads see it. *)
Definition PT_REGS_PARM_CORE (n : nat) (core : Z -> view) (x : Z) : option Z :=
  PT_REGS_PARM n (core x).
Definition PT_REGS_PARM_CORE_SYSCALL (n : nat) (core : Z -> view) (x : Z) : option Z :=
  PT_REGS_PARM_SYSCALL n (core x).

(** [PT_REGS_SYSCALL_REGS(ctx)]: the context itself, or the pointer in its
    first parameter. *)
Definition PT_REGS_SYSCALL_REGS (ctx : Z) (core : Z -> view) : option Z :=
  match a with
  | Some a' => if pt_syscall_direct a' then Some ctx else PT_REGS_PARM 1 (core ctx)
  | None => target_missing
  end.
End Accessors.

(** Where a probe finds the return address: in a register, or in kernel memory
    at an address. *)
Inductive ret_ip := InRegister (v : option Z) | AtAddress (v : option Z).

Definition BPF_KPROBE_READ_RET_IP (t : bpf_target) (a : abi) (x : view) : ret_ip :=
  match t with
  | bpf_target_powerpc => InRegister (x "pt_regs"%string (Member "link"))
  | bpf_target_sparc | bpf_target_arm64 => InRegister (PT_REGS_RET (Some a) x)
  | _ => AtAddress (PT_REGS_RET (Some a) x)
  end.

Definition BPF_KRETPROBE_READ_RET_IP (t : bpf_target) (a : abi) (x : view) : ret_ip :=
  match t with
  | bpf_target_powerpc | bpf_target_sparc | bpf_target_arm64 =>
      BPF_KPROBE_READ_RET_IP t a x
  | _ => AtAddress ((fun fp => u64 (fp + 8)) <$> PT_REGS_FP (Some a) x)
  end.

(** ** Argument lists *)

(** [___bpf_nth] on its argument list; [___bpf_narg] counts up to twelve
    arguments by where they push the descending numbers. *)
Definition bpf_nth {A} (l : list A) : option A := l !! 13%nat.

Definition bpf_narg {A} (args : list A) : option nat :=
  mjoin (bpf_nth (None :: ((fun _ => None) <$> args) ++ (Some <$> rev (seq 0 13)))).

(** [___bpf_nth2] and [___bpf_narg2], for type and name pairs. *)
Definition bpf_nth2 {A} (l : list A) : option A := l !! 25%nat.

Definition bpf_narg2 {A} (args : list (A * A)) : option nat :=
  mjoin (bpf_nth2 (None :: (args ≫= (fun _ => [None; None])) ++
    [Some 12; Some 12; Some 11; Some 11; Some 10; Some 10; Some 9; Some 9; Some 8; Some 8;
     Some 7; Some 7; Some 6; Some 6; Some 5; Some 5; Some 4; Some 4; Some 3; Some 3;
     Some 2; Some 2; Some 1; Some 1; Some 0]%nat)).

(** [___bpf_apply]: the numbered macro takes as many arguments as its number
    says. *)
Definition bpf_apply {A B} (fn : list A -> B) (n : option nat) (args : list A) : option B :=
  match n with
  | Some n => if decide (n = length args) then Some (fn args) else None
  | None => None
  end.

(** [___bpf_ctx_castN]: the values after [ctx] itself. *)
Fixpoint bpf_ctx_castN {A} (ctx : nat -> Z) (args : list A) : list Z :=
  match args with
  | [] => []
  | _ :: args' => bpf_ctx_castN ctx args' ++ [ctx (length args')]
  end.

Definition bpf_ctx_cast {A} (ctx : nat -> Z) (args : list A) : option (list Z) :=
  bpf_apply (bpf_ctx_castN ctx) (bpf_narg args) args.

(** The arguments [BPF_PROG] passes to the body of the program. *)
Definition BPF_PROG_args {A} (ctx : nat -> Z) (args : list A) : option (list Z) :=
  bpf_ctx_cast ctx args.

(** [BPF_PROG2]: arguments are given by the size of their type.  The slots a
    type takes: *)
Definition bpf_treg_cnt (t : Z) : option nat :=
  if t =? 1 then Some 1%nat
  else if t =? 2 then Some 1%nat
  else if t =? 4 then Some 1%nat
  else if t =? 8 then Some 1%nat
  else if t =? 16 then Some 2%nat
  else None.

Fixpoint bpf_reg_cnt (args : list Z) : option nat :=
  match args with
  | [] => Some 0%nat
  | t :: args' =>
      match bpf_reg_cnt args', bpf_treg_cnt t with
      | Some n, Some c => Some (n + c)%nat
      | _, _ => None
      end
  end.

(** [___bpf_union_arg]: the bytes of the argument. *)
Definition bpf_union_arg (ctx : nat -> Z) (t : Z) (n : nat) : option (list Z) :=
  if t =? 1 then Some (le_encode 1 (u8 (ctx n)))
  else if t =? 2 then Some (le_encode 2 (u16 (ctx n)))
  else if t =? 4 then Some (le_encode 4 (u32 (ctx n)))
  else if t =? 8 then Some (le_encode 8 (u64 (ctx n)))
  else if t =? 16 then Some (le_encode 8 (u64 (ctx n)) ++ le_encode 8 (u64 (ctx (S n))))
  else None.

Fixpoint bpf_ctx_argN (ctx : nat -> Z) (n : nat) (args : list Z) : option (list (list Z)) :=
  match args with
  | [] => Some []
  | t :: args' =>
      match bpf_reg_cnt args with
      | None => None
      | Some c =>
          match bpf_union_arg ctx t (n - c), bpf_ctx_argN ctx n args' with
          | Some v, Some vs => Some (v :: vs)
          | _, _ => None
          end
      end
  end.

Definition BPF_PROG2_args (ctx : nat -> Z) (args : list Z) : option (list (list Z)) :=
  match bpf_narg2 ((fun t => (t, t)) <$> args), bpf_reg_cnt args with
  | Some m, Some n => if decide (m = length args) then bpf_ctx_argN ctx n args else None
  | _, _ => None
  end.

(** [___bpf_kprobe_argsN], [___bpf_syscall_argsN] and [___bpf_syswrap_argsN]
    share their shape: the N-th adds the N-th parameter. *)
Fixpoint parm_argsN {A} (parm : nat -> option Z) (args : list A) : option (list Z) :=
  match args with
  | [] => Some []
  | _ :: args' =>
      match parm_argsN parm args', parm (length args) with
      | Some l, Some v => Some (l ++ [u64 v])
      | _, _ => None
      end
  end.

Definition parm_args {A} (max : nat) (parm : nat -> option Z) (args : list A)
    : option (list Z) :=
  if decide (length args <= max)%nat
  then mjoin (bpf_apply (parm_argsN parm) (bpf_narg args) args) else None.

Definition BPF_KPROBE_args {A} (a : option abi) (x : view) (args : list A) : option (list Z) :=
  parm_args 8 (fun n => PT_REGS_PARM a n x) args.

Definition BPF_KRETPROBE_args {A} (a : option abi) (x : view) (args : list A)
    : option (list Z) :=
  parm_args 1 (fun _ => PT_REGS_RC a x) args.

(** [wrapper] is the kernel's [LINUX_HAS_SYSCALL_WRAPPER]; [core] reads the
    register structure at an address. *)
Definition BPF_KSYSCALL_args {A} (wrapper : bool) (a : option abi) (x : view)
    (core : Z -> view) (args : list A) : option (list Z) :=
  if wrapper then
    match PT_REGS_PARM a 1 x with
    | Some regs => parm_args 7 (fun n => PT_REGS_PARM_CORE_SYSCALL a n core regs) args
    | None => None
    end
  else parm_args 7 (fun n => PT_REGS_PARM_SYSCALL a n x) args.
