(* ===== verification/TracingTheorems.v ===== *)
(** * Register access and argument macros: theorems

    The argument macros hand each program exactly its arguments, in order, and
    the register tables are conventions: no register serves two arguments. *)

From S2P Require Import Prelude Helpers Tracing.

(** ** Counting arguments *)

Lemma bpf_narg_spec {A} (args : list A) :
  bpf_narg args = if decide (length args <= 12)%nat then Some (length args) else None.
Proof.
  do 13 (destruct args as [|? args]; [by vm_compute|]).
  rewrite decide_False by (simpl; lia). done.
Qed.

Lemma bpf_narg2_spec {A} (args : list (A * A)) :
  bpf_narg2 args = if decide (length args <= 12)%nat then Some (length args) else None.
Proof.
  do 13 (destruct args as [|? args]; [by vm_compute|]).
  rewrite decide_False by (simpl; lia). done.
Qed.

Lemma bpf_apply_narg {A B} (fn : list A -> B) args :
  (length args <= 12)%nat -> bpf_apply fn (bpf_narg args) args = Some (fn args).
Proof.
  intros H. rewrite bpf_narg_spec, decide_True by done. simpl. by rewrite decide_True.
Qed.

(** ** [BPF_PROG] *)

Lemma bpf_ctx_castN_spec {A} ctx (args : list A) :
  bpf_ctx_castN ctx args = ctx <$> seq 0 (length args).
Proof.
  induction args as [|x args IH]; [done|]. cbn [length bpf_ctx_castN].
  by rewrite IH, seq_S, fmap_app.
Qed.

(** [BPF_PROG] passes slot i of the raw context as argument i, for up to
    twelve arguments, and rejects longer lists. *)
Theorem prog_args_in_order {A} ctx (args : list A) :
  BPF_PROG_args ctx args =
  if decide (length args <= 12)%nat then Some (ctx <$> seq 0 (length args)) else None.
Proof.
  unfold BPF_PROG_args, bpf_ctx_cast. case_decide as E.
  - by rewrite bpf_apply_narg, bpf_ctx_castN_spec.
  - by rewrite bpf_narg_spec, decide_False.
Qed.

(** ** [BPF_PROG2] *)

(** The slots in which the trampoline passes a value given by its bytes: one
    per eight bytes. *)
Definition slots_of (v : list Z) : list Z :=
  if decide (length v = 16)%nat then [le_decode (take 8 v); le_decode (drop 8 v)]
  else [le_decode v].

Definition passable (v : list Z) : Prop :=
  Forall byte v /\ length v ∈ [1; 2; 4; 8; 16]%nat.

Definition slot_fun (l : list Z) : nat -> Z := fun i => rd l i.

Lemma bpf_treg_cnt_passable v :
  passable v -> bpf_treg_cnt (Z.of_nat (length v)) = Some (length (slots_of v)).
Proof.
  intros [_ Hl]. unfold slots_of. repeat (apply elem_of_cons in Hl as [Hl|Hl]);
    [rewrite Hl; done..|]. by apply not_elem_of_nil in Hl.
Qed.

Lemma bpf_reg_cnt_passable vs :
  Forall passable vs ->
  bpf_reg_cnt ((fun v => Z.of_nat (length v)) <$> vs) = Some (length (vs ≫= slots_of)).
Proof.
  induction 1 as [|v vs Hv _ IH]; [done|].
  rewrite fmap_cons, bind_cons, length_app. cbn [bpf_reg_cnt].
  rewrite IH, bpf_treg_cnt_passable by done. f_equal. lia.
Qed.

(** A value of up to eight bytes survives its slot. *)
Lemma slot_value n v :
  Forall byte v -> length v = n -> (n <= 8)%nat ->
  le_encode n (le_decode v mod 2 ^ (8 * Z.of_nat n)) = v.
Proof.
  intros Hv <- Hl. rewrite Z.mod_small by (by apply le_decode_range).
  by apply le_encode_decode.
Qed.

Lemma bpf_union_arg_passable l1 v l2 :
  passable v ->
  bpf_union_arg (slot_fun (l1 ++ slots_of v ++ l2)) (Z.of_nat (length v)) (length l1) = Some v.
Proof.
  intros [Hb Hl]. unfold slot_fun.
  assert (forall i, rd (l1 ++ slots_of v ++ l2) (length l1 + i)
                    = rd (slots_of v ++ l2) i) as Hrd.
  { intros i. rewrite rd_app_r by lia. f_equal. lia. }
  pose proof (Hrd 0%nat) as H0. pose proof (Hrd 1%nat) as H1.
  rewrite Nat.add_0_r in H0. rewrite Nat.add_1_r in H1.
  unfold bpf_union_arg. rewrite H0, H1. unfold slots_of.
  repeat (apply elem_of_cons in Hl as [Hl|Hl]); [..|by apply not_elem_of_nil in Hl].
  1-4: rewrite decide_False by (by rewrite Hl);
    rewrite Hl; cbn [Z.of_nat Pos.of_succ_nat Pos.succ Z.eqb Pos.eqb app];
    rewrite rd_cons_0; f_equal; apply slot_value; [done|done|lia].
  rewrite decide_True by done. rewrite Hl.
  cbn [Z.of_nat Pos.of_succ_nat Pos.succ Z.eqb Pos.eqb app].
  rewrite rd_cons_S, !rd_cons_0. f_equal.
  rewrite <- (take_drop 8 v) at 3. f_equal; apply slot_value.
  - by apply Forall_take.
  - rewrite length_take. lia.
  - lia.
  - by apply Forall_drop.
  - rewrite length_drop. lia.
  - lia.
Qed.

Lemma bpf_ctx_argN_passable pre vs :
  Forall passable vs ->
  bpf_ctx_argN (slot_fun (pre ++ (vs ≫= slots_of))) (length (pre ++ (vs ≫= slots_of)))
    ((fun v => Z.of_nat (length v)) <$> vs) = Some vs.
Proof.
  intros Hvs. revert pre. induction Hvs as [|v vs Hv Hvs IH]; intros pre; [done|].
  pose proof (bpf_reg_cnt_passable (v :: vs)) as Hc.
  specialize (IH (pre ++ slots_of v)). rewrite <- app_assoc in IH.
  rewrite fmap_cons, bind_cons in *. cbn [bpf_ctx_argN].
  rewrite Hc by (by constructor). rewrite IH.
  replace (length (pre ++ slots_of v ++ (vs ≫= slots_of)) -
    length (slots_of v ++ (vs ≫= slots_of)))%nat with (length pre)
    by (rewrite length_app; lia).
  by rewrite bpf_union_arg_passable.
Qed.

(** Round trip of [BPF_PROG2]: up to twelve arguments of 1, 2, 4, 8 or 16
    bytes that the trampoline laid out in consecutive 64-bit slots (two for a
    16-byte structure) come back as the same bytes, each from its own slots. *)
Theorem prog2_args_roundtrip vs :
  Forall passable vs -> (length vs <= 12)%nat ->
  BPF_PROG2_args (slot_fun (vs ≫= slots_of)) ((fun v => Z.of_nat (length v)) <$> vs) = Some vs.
Proof.
  intros Hvs Hl. unfold BPF_PROG2_args.
  rewrite bpf_narg2_spec, !length_fmap, decide_True by done.
  rewrite bpf_reg_cnt_passable, decide_True by done. by apply (bpf_ctx_argN_passable []).
Qed.

Lemma prog2_args_roundtrip_witness :
  BPF_PROG2_args (slot_fun [258; 7; 4294967296]) [16; 8]
  = Some [le_encode 16 (258 + 7 * 2 ^ 64); le_encode 8 4294967296].
Proof.
  apply (prog2_args_roundtrip [le_encode 16 (258 + 7 * 2 ^ 64); le_encode 8 4294967296]).
  - repeat constructor; vm_compute; congruence.
  - simpl. lia.
Defined.

(** ** Probe arguments *)

Lemma mapM_snoc {A B} (f : A -> option B) l x :
  mapM f (l ++ [x]) =
  match mapM f l, f x with
  | Some l', Some y => Some (l' ++ [y])
  | _, _ => None
  end.
Proof.
  induction l as [|a l IH]; simpl; [by destruct (f x)|].
  destruct (f a); simpl; [|done]. rewrite IH.
  destruct (mapM f l); simpl; [|done]. by destruct (f x).
Qed.

(** The parameters 1 .. n, if all of them are supported. *)
Lemma parm_argsN_spec {A} parm (args : list A) :
  parm_argsN parm args = mapM (fun n => u64 <$> parm n) (seq 1 (length args)).
Proof.
  induction args as [|x args IH]; [done|]. cbn [length parm_argsN].
  rewrite IH, seq_S, mapM_snoc. cbn [Nat.add].
  destruct (mapM _ (seq 1 (length args))); [|done]. by destruct (parm (S (length args))).
Qed.

Lemma parm_args_spec {A} max parm (args : list A) :
  (max <= 12)%nat ->
  parm_args max parm args =
  if decide (length args <= max)%nat
  then mapM (fun n => u64 <$> parm n) (seq 1 (length args)) else None.
Proof.
  intros Hm. unfold parm_args. case_decide as E; [|done].
  rewrite bpf_apply_narg by lia. apply parm_argsN_spec.
Qed.

(** On amd64, [BPF_KPROBE] hands the program rdi, rsi, rdx, rcx, r8 and r9
    in this order, as many as it names; naming a seventh does not compile. *)
Theorem kprobe_args_x86_64 {A} x (args : list A) :
  BPF_KPROBE_args (Some abi_x86_64) (view_pt_regs x) args =
  if decide (length args <= 6)%nat
  then Some (u64 <$> take (length args) [rdi x; rsi x; rdx x; rcx x; r8 x; r9 x]) else None.
Proof.
  unfold BPF_KPROBE_args. rewrite parm_args_spec by lia.
  do 9 (destruct args as [|? args]; [done|]).
  rewrite !decide_False by (simpl; lia). done.
Qed.

(** On arm64 it hands over x0 to x7. *)
Theorem kprobe_args_arm64 {A} x orig_x0 (args : list A) :
  length (regs x) = 31%nat ->
  BPF_KPROBE_args (Some abi_arm64) (view_user_pt_regs x orig_x0) args =
  if decide (length args <= 8)%nat
  then Some (u64 <$> take (length args) (regs x)) else None.
Proof.
  intros Hx. unfold BPF_KPROBE_args. rewrite parm_args_spec by lia.
  destruct x as [rs ? ? ?]. simpl in *.
  do 8 (destruct rs as [|? rs]; [done|]).
  do 9 (destruct args as [|? args]; [done|]).
  rewrite !decide_False by (simpl; lia). done.
Qed.

Lemma kprobe_args_arm64_witness :
  BPF_KPROBE_args (Some abi_arm64)
    (view_user_pt_regs (UserPtRegs (seqZ 100 31) 0 0 0) 5) [tt; tt] = Some [100; 101].
Proof.
  exact (kprobe_args_arm64 (UserPtRegs (seqZ 100 31) 0 0 0) 5 [tt; tt] eq_refl).
Defined.

(** Without the syscall wrapper [BPF_KSYSCALL] takes the arguments from the
    context itself; with it, from the register structure that the first
    parameter of the context points to.  On amd64 they are rdi, rsi, rdx, r10,
    r8 and r9 of that structure. *)
Theorem ksyscall_args_x86_64 {A} (wrapper : bool) x y core (args : list A) :
  core (rdi x) = view_pt_regs y ->
  let r := if wrapper then y else x in
  BPF_KSYSCALL_args wrapper (Some abi_x86_64) (view_pt_regs x) core args =
  if decide (length args <= 6)%nat
  then Some (u64 <$> take (length args) [rdi r; rsi r; rdx r; r10 r; r8 r; r9 r]) else None.
Proof.
  intros Hcore. cbv zeta. unfold BPF_KSYSCALL_args.
  assert (forall y : pt_regs,
    parm_args 7 (fun n => PT_REGS_PARM_SYSCALL (Some abi_x86_64) n (view_pt_regs y)) args =
    if decide (length args <= 6)%nat
    then Some (u64 <$> take (length args) [rdi y; rsi y; rdx y; r10 y; r8 y; r9 y]) else None)
    as H.
  { intros z. rewrite parm_args_spec by lia.
    do 8 (destruct args as [|? args]; [done|]).
    rewrite !decide_False by (simpl; lia). done. }
  destruct wrapper; [|apply H].
  change (PT_REGS_PARM (Some abi_x86_64) 1 (view_pt_regs x)) with (Some (rdi x)).
  unfold PT_REGS_PARM_CORE_SYSCALL. rewrite Hcore. apply H.
Qed.

Lemma ksyscall_args_x86_64_witness :
  let y := PtRegs 0 0 0 0 0 0 0 4 6 5 0 0 3 2 1 0 0 0 0 0 0 in
  let x := PtRegs 0 0 0 0 0 0 0 0 0 0 0 0 0 0 4096 0 0 0 0 0 0 in
  BPF_KSYSCALL_args true (Some abi_x86_64) (view_pt_regs x)
    (fun _ => view_pt_regs y) [tt; tt; tt; tt] = Some [1; 2; 3; 4].
Proof.
  exact (ksyscall_args_x86_64 true (PtRegs 0 0 0 0 0 0 0 0 0 0 0 0 0 0 4096 0 0 0 0 0 0)
    (PtRegs 0 0 0 0 0 0 0 4 6 5 0 0 3 2 1 0 0 0 0 0 0)
    (fun _ => view_pt_regs (PtRegs 0 0 0 0 0 0 0 4 6 5 0 0 3 2 1 0 0 0 0 0 0))
    [tt; tt; tt; tt] eq_refl).
Defined.

(** ** The tables *)

Definition supported (l : list reg) : bool := bool_decide (Unsupported ∉ l).

Definition abi_sane (a : abi) : bool :=
  bool_decide (NoDup (pt_parms a)) && supported (pt_parms a) &&
  bool_decide (NoDup (pt_syscall_parms a)) && supported (snd <$> pt_syscall_parms a) &&
  bool_decide (3 <= length (pt_parms a) <= 8)%nat &&
  bool_decide (6 <= length (pt_syscall_parms a) <= 7)%nat.

(** On every target and configuration, the registers of the three to eight
    function arguments are pairwise distinct, and so are those of the six or
    seven syscall arguments. *)
Theorem register_tables_sane D t : abi_sane (abi_of D t) = true.
Proof.
  destruct t; try by vm_compute.
  - unfold abi_of, abi_x86. repeat case_match; by vm_compute.
  - unfold abi_of, abi_powerpc. destruct (defined D "__arch64__"); by vm_compute.
Qed.

(** The bytes of [struct pt_regs]. *)
Definition pt_regs_bytes (x : pt_regs) : list Z := (snd <$> pt_regs_members x) ≫= le_encode 8.

(** On amd64 the accessors of the function arguments and of the return
    value read the eight bytes at offsets 112, 104, 96, 88, 72, 64 and 80 of
    the register structure in memory. *)
Theorem x86_64_register_offsets x :
  let at_ o := Some (le_decode (take 8 (drop o (pt_regs_bytes x)))) in
  let parm n := u64 <$> PT_REGS_PARM (Some abi_x86_64) n (view_pt_regs x) in
  parm 1%nat = at_ 112%nat /\ parm 2%nat = at_ 104%nat /\ parm 3%nat = at_ 96%nat /\
  parm 4%nat = at_ 88%nat /\ parm 5%nat = at_ 72%nat /\ parm 6%nat = at_ 64%nat /\
  u64 <$> PT_REGS_RC (Some abi_x86_64) (view_pt_regs x) = at_ 80%nat.
Proof.
  assert (forall z, le_decode (le_encode 8 z) = u64 z) as H by (intros; apply le_decode_encode).
  cbv zeta. repeat split; symmetry; apply (f_equal Some), H.
Qed.
