(* ===== verification/Macros.v ===== *)
(** The macros of [headers/bpf_helpers.h] that compute: printing with a variable
    number of arguments, kernel versions, and structures from their members.

    A macro that prints turns into the call of one helper; [print_call] is that
    call, with the arguments the helper is given.  ([bpf_for], [bpf_for_each] and
    [bpf_repeat] are in [Helpers]; the counting of arguments is in [Tracing].) *)

From S2P Require Import Prelude Tracing TracingTheorems.

(** ** Filling an array with the arguments *)

(** [___bpf_fill1] to [___bpf_fill12], by their number: [arr[p] = x] for each
    argument in turn. *)
Fixpoint bpf_fill_n (n : nat) (arr : list Z) (p : nat) (args : list Z) : list Z :=
  match n, args with
  | S n, x :: args => bpf_fill_n n (<[p := u64 x]> arr) (p + 1) args
  | _, _ => arr
  end.

(** [___bpf_fill]: the macro of the number of arguments; [None] when there is no
    such macro. *)
Definition bpf_fill (arr args : list Z) : option (list Z) :=
  bpf_apply (fun args => bpf_fill_n (length args) arr 0 args) (bpf_narg args) args.

(** ** Printing *)

(** The helper a macro calls: the format with its NUL, its size, and the
    arguments, passed on or as an array of 64-bit numbers with its size. *)
Inductive print_call :=
  | bpf_seq_printf (seq : Z) (fmt : list Z) (fmt_size : Z) (data : list Z) (data_len : Z)
  | bpf_snprintf (out out_size : Z) (fmt : list Z) (data : list Z) (data_len : Z)
  | bpf_trace_printk (fmt : list Z) (fmt_size : Z) (args : list Z)
  | bpf_trace_vprintk (fmt : list Z) (fmt_size : Z) (data : list Z) (data_len : Z)
  | bpf_stream_vprintk (stream_id : Z) (fmt : list Z) (data : list Z) (data_len : Z).

(** [static const char ___fmt[] = fmt] and its [sizeof]. *)
Definition fmt_array (fmt : list Z) : list Z := fmt ++ [0].
Definition fmt_sizeof (fmt : list Z) : Z := Z.of_nat (length (fmt_array fmt)).

(** [unsigned long long ___param[___bpf_narg(args)]] filled; [junk] is what an
    array on the stack holds. *)
Definition param_array (junk : Z) (args : list Z) : option (list Z) :=
  n ← bpf_narg args; bpf_fill (replicate n junk) args.

Definition param_sizeof (param : list Z) : Z := 8 * Z.of_nat (length param).

Section Print.
Context (junk : Z).

Definition BPF_SEQ_PRINTF (seq : Z) (fmt args : list Z) : option print_call :=
  param ← param_array junk args;
  Some (bpf_seq_printf seq (fmt_array fmt) (fmt_sizeof fmt) param (param_sizeof param)).

Definition BPF_SNPRINTF (out out_size : Z) (fmt args : list Z) : option print_call :=
  param ← param_array junk args;
  Some (bpf_snprintf out out_size (fmt_array fmt) param (param_sizeof param)).

Definition bpf_printk_ (fmt args : list Z) : option print_call :=
  Some (bpf_trace_printk (fmt_array fmt) (fmt_sizeof fmt) args).

Definition bpf_vprintk (fmt args : list Z) : option print_call :=
  param ← param_array junk args;
  Some (bpf_trace_vprintk (fmt_array fmt) (fmt_sizeof fmt) param (param_sizeof param)).

Definition bpf_stream_printk (stream_id : Z) (fmt args : list Z) : option print_call :=
  param ← param_array junk args;
  Some (bpf_stream_vprintk stream_id (fmt_array fmt) param (param_sizeof param)).

(** [___bpf_pick_printk]: the fourteenth of the arguments and the macros behind
    them. *)
Definition bpf_pick_printk (args : list Z) : option (list Z -> list Z -> option print_call) :=
  mjoin (bpf_nth (None :: ((fun _ => None) <$> args) ++
    (Some <$> (replicate 9 bpf_vprintk ++ replicate 4 bpf_printk_)))).

Definition bpf_printk (fmt args : list Z) : option print_call :=
  pick ← bpf_pick_printk args; pick fmt args.
End Print.

(** ** Kernel versions *)

Definition KERNEL_VERSION (a b c : Z) : Z := Z.shiftl a 16 + Z.shiftl b 8 + (if 255 <? c then 255 else c).

(** ** Structures from their members *)

(** [offsetof] is the address of the member in a structure at address 0; [off] is
    what the compiler adds to a structure's address for it. *)
Definition offsetof (off : Z -> Z) : Z := u64 (off 0).

Definition container_of (ptr : Z) (off : Z -> Z) : Z := u64 (ptr - offsetof off).

(** ** Theorems *)

Lemma bpf_fill_n_spec args : forall pre rest,
  length rest = length args ->
  bpf_fill_n (length args) (pre ++ rest) (length pre) args = pre ++ (u64 <$> args).
Proof.
  induction args as [|x args IH]; intros pre [|y rest] Hl; simplify_eq/=; [done|].
  rewrite insert_app_r_alt, Nat.sub_diag by lia. simpl.
  specialize (IH (pre ++ [u64 x]) rest Hl). rewrite length_app, <- !app_assoc in IH. exact IH.
Qed.

(** Where the arguments push a list of thirteen. *)
Lemma bpf_nth_pushed {A B} (args : list A) (l : list B) :
  length l = 13%nat -> (length args <= 12)%nat ->
  mjoin (bpf_nth (None :: ((fun _ => None) <$> args) ++ (Some <$> l))) = l !! (12 - length args)%nat.
Proof.
  intros Hl Ha. unfold bpf_nth. rewrite lookup_cons_ne_0 by done. cbn [pred].
  rewrite lookup_app_r by (rewrite length_fmap; lia). rewrite length_fmap, list_lookup_fmap.
  by destruct (l !! _).
Qed.

(** The array holds the arguments in order, as 64-bit numbers. *)
Lemma param_array_args junk args :
  (length args <= 12)%nat -> param_array junk args = Some (u64 <$> args).
Proof.
  intros H. unfold param_array. rewrite bpf_narg_spec, decide_True by done. cbn [mbind option_bind].
  unfold bpf_fill. rewrite bpf_apply_narg by done. f_equal.
  apply (bpf_fill_n_spec args [] (replicate (length args) junk)). apply length_replicate.
Qed.

(** Printing with up to twelve arguments.  Every macro reaches its helper with
    the format, NUL included, its size, and all the arguments in order whatever
    the stack held; with up to three arguments [bpf_printk] passes them on, with
    more it passes an array. *)
Theorem printk_arguments junk seq out out_size stream fmt args :
  (length args <= 12)%nat ->
  let data := u64 <$> args in
  let size := 8 * Z.of_nat (length args) in
  let fmt_size := Z.of_nat (length fmt) + 1 in
  BPF_SEQ_PRINTF junk seq fmt args = Some (bpf_seq_printf seq (fmt ++ [0]) fmt_size data size) /\
  BPF_SNPRINTF junk out out_size fmt args = Some (bpf_snprintf out out_size (fmt ++ [0]) data size) /\
  bpf_stream_printk junk stream fmt args = Some (bpf_stream_vprintk stream (fmt ++ [0]) data size) /\
  bpf_printk junk fmt args = Some
    (if (length args <=? 3)%nat then bpf_trace_printk (fmt ++ [0]) fmt_size args
     else bpf_trace_vprintk (fmt ++ [0]) fmt_size data size).
Proof.
  intros H data size fmt_size.
  assert (param_sizeof data = size) as Hs by (unfold param_sizeof, data; by rewrite length_fmap).
  assert (fmt_sizeof fmt = fmt_size) as Hf.
  { unfold fmt_sizeof, fmt_array, fmt_size. rewrite length_app. simpl. lia. }
  unfold BPF_SEQ_PRINTF, BPF_SNPRINTF, bpf_stream_printk, bpf_printk, bpf_pick_printk.
  rewrite !param_array_args, bpf_nth_pushed by done. fold data. cbn [mbind option_bind].
  rewrite Hs, Hf. split_and!; [done..|].
  assert ((replicate 9 (bpf_vprintk junk) ++ replicate 4 bpf_printk_) !! (12 - length args)%nat =
    Some (if (length args <=? 3)%nat then bpf_printk_ else bpf_vprintk junk)) as ->.
  { destruct (Nat.leb_spec (length args) 3).
    - rewrite lookup_app_r by (rewrite length_replicate; lia). apply lookup_replicate_2. rewrite length_replicate. lia.
    - rewrite lookup_app_l by (rewrite length_replicate; lia). apply lookup_replicate_2. lia. }
  cbn [mbind option_bind]. destruct (length args <=? 3)%nat.
  - unfold bpf_printk_. by rewrite Hf.
  - unfold bpf_vprintk. rewrite param_array_args by done. fold data. cbn [mbind option_bind]. by rewrite Hs, Hf.
Qed.

(** Versions compare as their parts do, patch levels above 255 counting as 255. *)
Theorem kernel_version_order a b c a' b' c' :
  0 <= b < 256 -> 0 <= b' < 256 -> 0 <= c -> 0 <= c' ->
  KERNEL_VERSION a b c < KERNEL_VERSION a' b' c' <->
  a < a' \/ (a = a' /\ (b < b' \/ (b = b' /\ Z.min c 255 < Z.min c' 255))).
Proof.
  intros Hb Hb' Hc Hc'. unfold KERNEL_VERSION. rewrite !Z.shiftl_mul_pow2 by lia.
  destruct (Z.ltb_spec 255 c), (Z.ltb_spec 255 c'); lia.
Qed.

(** The structure a member's address belongs to. *)
Theorem container_of_member base off n :
  (forall a, off a = a + n) -> 0 <= base < 2 ^ 64 -> container_of (u64 (off base)) off = base.
Proof.
  intros Ho Hb. unfold container_of, offsetof. rewrite !Ho. unfold u64.
  rewrite <- Zminus_mod. replace (base + n - (0 + n)) with base by lia. by apply Z.mod_small.
Qed.

Lemma printk_arguments_witness :
  bpf_printk 7 (str "%d %d %d %d") [1; 2; 3; 4] =
  Some (bpf_trace_vprintk (str "%d %d %d %d" ++ [0]) 12 [1; 2; 3; 4] 32).
Proof. apply (printk_arguments 7 0 0 0 0 (str "%d %d %d %d") [1; 2; 3; 4]). apply Nat.leb_le. reflexivity. Defined.
