(* ===== verification/Tls.v ===== *)
(** * TLS probes

    [tls/ssl_common.h], [tls/ssl.bpf.c] and [tls/boring.bpf.c]: the uprobes on
    the read and write functions of OpenSSL and BoringSSL.  An entry probe
    remembers the call, the return probe copies the plaintext to the ring
    buffer in chunks. *)

From S2P Require Import Prelude Helpers Tracing.

(** ** [ssl_common.h] *)

Definition MAX_BODY_SIZE : Z := 64 * 1024.
Definition RING_BUFFER_SIZE : Z := 32 * 1024 * 1024.
Definition MAX_LOOP : nat := 64.
Definition MAX_ENTRIES : Z := 10240.
Definition TASK_COMM_LEN : Z := 16.

Record call_info := CallInfo { buf_addr : Z; len : Z; ssl_ptr : Z }.
Record call_info_ex := CallInfoEx { base : call_info; consumed_len_ptr : Z }.

Record event := Event {
  ev_timestamp_ns : Z;
  ev_pid_tgid : Z;
  ev_uid_gid : Z;
  ev_cgroup_id : Z;
  ev_ssl_ptr : Z;
  ev_req_len : Z;
  ev_data_len : Z;
  ev_rw : Z;
  ev_comm : list Z;
  ev_data : list Z;
}.

Definition sizeof_event : Z := 65616.

(** A probe reads its parameters and return value from the registers of the
    call; [a] is the calling convention of the target. *)
Section Regs.
Context (a : abi).

Definition parm (n : nat) (ctx : view) : Z := default 0 (PT_REGS_PARM (Some a) n ctx).
Definition rc (ctx : view) : Z := default 0 (PT_REGS_RC (Some a) ctx).

Definition new_call_info (ctx : view) : call_info := {|
  ssl_ptr := u64 (parm 1 ctx);
  buf_addr := u64 (parm 2 ctx);
  len := u64 (s32 (parm 3 ctx)) |}.

Definition new_call_info_ex (ctx : view) : call_info_ex := {|
  base := {|
    ssl_ptr := u64 (parm 1 ctx);
    buf_addr := u64 (parm 2 ctx);
    len := u64 (s32 (parm 3 ctx)) |};
  consumed_len_ptr := u64 (parm 4 ctx) |}.
End Regs.

Section Emit.
Context {S : Type} {RB : bpf_ringbuf event} (ringbuf : field S RB).
Implicit Types k : kenv.

(** The sample [evt] after the assignments of the loop body; the bytes of the
    payload buffer past [length] keep what the reserved memory held. *)
Definition fill_event k (key : Z) (info : call_info) (rw now uid_gid cgroup_id length buf : Z)
    (evt : event) : event := {|
  ev_pid_tgid := key;
  ev_ssl_ptr := ssl_ptr info;
  ev_uid_gid := uid_gid;
  ev_cgroup_id := cgroup_id;
  ev_timestamp_ns := now;
  ev_req_len := len info;
  ev_data_len := length;
  ev_rw := rw;
  ev_comm := bpf_get_current_comm k TASK_COMM_LEN;
  ev_data := overlay (ev_data evt) (bpf_probe_read_user k length buf).2 |}.

(** The loop body, on the loop variables [buf] and [remaining]. *)
Definition emit_body k (key : Z) (info : call_info) (rw now uid_gid cgroup_id : Z)
    (v : Z * Z) : prog S (loop_ctl (Z * Z) Empty_set) :=
  let '(buf, remaining) := v in
  let length := u32 remaining in
  if length =? 0 then mret (Break (buf, remaining))
  else
    let length := if MAX_BODY_SIZE <? length then MAX_BODY_SIZE else length in
    evt ← bpf_ringbuf_reserve ringbuf sizeof_event 0;
    match evt with
    | None => mret (Next (buf, remaining))
    | Some evt =>
        bpf_ringbuf_submit ringbuf
          (fill_event k key info rw now uid_gid cgroup_id length buf evt) 0;;
        mret (Next (u64 (buf + length), u64 (remaining - length)))
    end.

Definition emit_ssl_events k (key : Z) (info : call_info) (remaining rw : Z) : prog S unit :=
  let now := bpf_ktime_get_ns k in
  let uid_gid := bpf_get_current_uid_gid k in
  let cgroup_id := bpf_get_current_cgroup_id k in
  let buf := buf_addr info in
  let max_bytes := Z.of_nat MAX_LOOP * MAX_BODY_SIZE in
  let remaining := if max_bytes <? remaining then max_bytes else remaining in
  bpf_repeat MAX_LOOP (emit_body k key info rw now uid_gid cgroup_id) (buf, remaining);;
  mret tt.
End Emit.

(** ** [ssl.bpf.c] *)

Module Ssl.

Definition events_def : map_def := MapDef BPF_MAP_TYPE_RINGBUF RING_BUFFER_SIZE 0 0.
Definition start_map_def : map_def := MapDef BPF_MAP_TYPE_HASH MAX_ENTRIES 8 24.
Definition start_ex_map_def : map_def := MapDef BPF_MAP_TYPE_HASH MAX_ENTRIES 8 32.
Definition fake_event_map_def : map_def := MapDef BPF_MAP_TYPE_ARRAY 1 4 sizeof_event.

Section Probe.
Context {MS : bpf_map Z call_info} {ME : bpf_map Z call_info_ex} {RB : bpf_ringbuf event}.

Record state := State { st_start_map : MS; st_start_ex_map : ME; st_events : RB }.

Definition start_map : field state MS :=
  Field st_start_map (fun m s => State m (st_start_ex_map s) (st_events s)).
Definition start_ex_map : field state ME :=
  Field st_start_ex_map (fun m s => State (st_start_map s) m (st_events s)).
Definition events : field state RB :=
  Field st_events (fun r s => State (st_start_map s) (st_start_ex_map s) r).

Context (a : abi).
Implicit Types (k : kenv) (ctx : view).

Definition probe_ssl_read_entry k ctx : prog state Z :=
  let info := new_call_info a ctx in
  let key := bpf_get_current_pid_tgid k in
  bpf_map_update_elem start_map key info BPF_ANY;; mret 0.

Definition probe_ssl_write_entry k ctx : prog state Z :=
  let info := new_call_info a ctx in
  let key := bpf_get_current_pid_tgid k in
  bpf_map_update_elem start_map key info BPF_ANY;; mret 0.

Definition probe_ssl_read_ex_entry k ctx : prog state Z :=
  let info := new_call_info_ex a ctx in
  let key := bpf_get_current_pid_tgid k in
  bpf_map_update_elem start_ex_map key info BPF_ANY;; mret 0.

Definition probe_ssl_write_ex_entry k ctx : prog state Z :=
  let info := new_call_info_ex a ctx in
  let key := bpf_get_current_pid_tgid k in
  bpf_map_update_elem start_ex_map key info BPF_ANY;; mret 0.

Definition probe_ssl_read_exit k ctx : prog state Z :=
  let key := bpf_get_current_pid_tgid k in
  info ← bpf_map_lookup_elem start_map key;
  match info with
  | None => mret 0
  | Some info =>
      let ret := s32 (rc a ctx) in
      (if ret <=? 0 then mret tt else emit_ssl_events events k key info (u64 ret) 4);;
      bpf_map_delete_elem start_map key;; mret 0
  end.

(** [size_t n = 0; bpf_probe_read_user(&n, sizeof(n), ptr)]. *)
Definition read_size k (ptr : Z) : Z := le_decode (bpf_probe_read_user k 8 ptr).2.

Definition probe_ssl_read_ex_exit k ctx : prog state Z :=
  let key := bpf_get_current_pid_tgid k in
  info ← bpf_map_lookup_elem start_ex_map key;
  (match info with
   | None => mret tt
   | Some info =>
       let ret := s32 (rc a ctx) in
       if negb (ret =? 1) then mret tt
       else
         let readbytes := read_size k (consumed_len_ptr info) in
         emit_ssl_events events k key (base info) readbytes 4
   end);;
  bpf_map_delete_elem start_ex_map key;; mret 0.

Definition probe_ssl_write_exit k ctx : prog state Z :=
  let key := bpf_get_current_pid_tgid k in
  info ← bpf_map_lookup_elem start_map key;
  match info with
  | None => mret 0
  | Some info =>
      let ret := s32 (rc a ctx) in
      (if ret <=? 0 then mret tt else emit_ssl_events events k key info (u64 ret) 2);;
      bpf_map_delete_elem start_map key;; mret 0
  end.

Definition probe_ssl_write_ex_exit k ctx : prog state Z :=
  let key := bpf_get_current_pid_tgid k in
  info ← bpf_map_lookup_elem start_ex_map key;
  (match info with
   | None => mret tt
   | Some info =>
       let ret := s32 (rc a ctx) in
       if negb (ret =? 1) then mret tt
       else
         let written := read_size k (consumed_len_ptr info) in
         emit_ssl_events events k key (base info) written 2
   end);;
  bpf_map_delete_elem start_ex_map key;; mret 0.

Inductive call :=
  | ReadEntry (ctx : view)
  | WriteEntry (ctx : view)
  | ReadExEntry (ctx : view)
  | WriteExEntry (ctx : view)
  | ReadExit (ctx : view)
  | ReadExExit (ctx : view)
  | WriteExit (ctx : view)
  | WriteExExit (ctx : view).

Definition handle k (c : call) : prog state Z :=
  match c with
  | ReadEntry ctx => probe_ssl_read_entry k ctx
  | WriteEntry ctx => probe_ssl_write_entry k ctx
  | ReadExEntry ctx => probe_ssl_read_ex_entry k ctx
  | WriteExEntry ctx => probe_ssl_write_ex_entry k ctx
  | ReadExit ctx => probe_ssl_read_exit k ctx
  | ReadExExit ctx => probe_ssl_read_ex_exit k ctx
  | WriteExit ctx => probe_ssl_write_exit k ctx
  | WriteExExit ctx => probe_ssl_write_ex_exit k ctx
  end.
End Probe.
Arguments state : clear implicits.
End Ssl.

(** ** [boring.bpf.c] *)

Module Boring.

Definition start_map_def : map_def := MapDef BPF_MAP_TYPE_HASH MAX_ENTRIES 8 24.
Definition events_def : map_def := MapDef BPF_MAP_TYPE_RINGBUF RING_BUFFER_SIZE 0 0.
Definition fake_event_map_def : map_def := MapDef BPF_MAP_TYPE_ARRAY 1 4 sizeof_event.

Section Probe.
Context {MS : bpf_map Z call_info} {RB : bpf_ringbuf event}.

Record state := State { st_start_map : MS; st_events : RB }.

Definition start_map : field state MS :=
  Field st_start_map (fun m s => State m (st_events s)).
Definition events : field state RB :=
  Field st_events (fun r s => State (st_start_map s) r).

Context (a : abi).
Implicit Types (k : kenv) (ctx : view).

Definition probe_boring_ssl_read_entry k ctx : prog state Z :=
  let info := new_call_info a ctx in
  let key := bpf_get_current_pid_tgid k in
  bpf_map_update_elem start_map key info BPF_ANY;; mret 0.

Definition probe_boring_ssl_write_entry k ctx : prog state Z :=
  let info := new_call_info a ctx in
  let key := bpf_get_current_pid_tgid k in
  bpf_map_update_elem start_map key info BPF_ANY;; mret 0.

Definition probe_boring_ssl_read_exit k ctx : prog state Z :=
  let key := bpf_get_current_pid_tgid k in
  info ← bpf_map_lookup_elem start_map key;
  match info with
  | None => mret 0
  | Some info =>
      let ret := s32 (rc a ctx) in
      (if ret <=? 0 then mret tt else emit_ssl_events events k key info (u64 ret) 4);;
      bpf_map_delete_elem start_map key;; mret 0
  end.

Definition probe_boring_ssl_write_exit k ctx : prog state Z :=
  let key := bpf_get_current_pid_tgid k in
  info ← bpf_map_lookup_elem start_map key;
  match info with
  | None => mret 0
  | Some info =>
      let ret := s32 (rc a ctx) in
      (if ret <=? 0 then mret tt else emit_ssl_events events k key info (u64 ret) 2);;
      bpf_map_delete_elem start_map key;; mret 0
  end.

Inductive call :=
  | ReadEntry (ctx : view)
  | WriteEntry (ctx : view)
  | ReadExit (ctx : view)
  | WriteExit (ctx : view).

Definition handle k (c : call) : prog state Z :=
  match c with
  | ReadEntry ctx => probe_boring_ssl_read_entry k ctx
  | WriteEntry ctx => probe_boring_ssl_write_entry k ctx
  | ReadExit ctx => probe_boring_ssl_read_exit k ctx
  | WriteExit ctx => probe_boring_ssl_write_exit k ctx
  end.
End Probe.
Arguments state : clear implicits.
End Boring.

Arguments emit_ssl_events : simpl never.
Arguments emit_body : simpl never.
