(* ===== verification/TlsTheorems.v ===== *)
(** * TLS probes: theorems

    What the loop of [emit_ssl_events] puts into the ring buffer, what a read or
    write captures from entry to exit, and the agreement of the two probes. *)

From S2P Require Import Prelude Helpers RefKernel Tracing Tls.

(** ** The loop *)

(** The bytes of an event. *)
Definition payload (e : event) : list Z := take (Z.to_nat (ev_data_len e)) (ev_data e).

Section Emit.
Context {S : Type} {RB : bpf_ringbuf event} (ringbuf : field S RB).
Context `{!FieldOk ringbuf, !RingbufOk RB}.
Context (k : kenv) (key : Z) (info : call_info) (rw : Z).

(** The event for [length] bytes at [buf]. *)
Definition is_chunk (buf length : Z) (e : event) : Prop :=
  exists e0, e = fill_event k key info rw (bpf_ktime_get_ns k) (bpf_get_current_uid_gid k)
    (bpf_get_current_cgroup_id k) length buf e0.

(** Events for consecutive chunks: they start with [r] bytes at [b] to go and
    leave [r'] bytes at [b']. *)
Inductive chunks : Z -> Z -> list event -> Z -> Z -> Prop :=
  | chunks_nil b r : chunks b r [] b r
  | chunks_cons b r e es b' r' :
      0 < r -> is_chunk b (Z.min r MAX_BODY_SIZE) e ->
      chunks (b + Z.min r MAX_BODY_SIZE) (r - Z.min r MAX_BODY_SIZE) es b' r' ->
      chunks b r (e :: es) b' r'.

Local Abbreviation body :=
  (emit_body ringbuf k key info rw (bpf_ktime_get_ns k) (bpf_get_current_uid_gid k)
     (bpf_get_current_cgroup_id k)).

(** One iteration on something left to send. *)
Lemma emit_body_step b r s :
  0 <= b -> 0 < r < 2 ^ 32 -> b + r < 2 ^ 64 ->
  (exists e0 rb e, ringbuf_reserve (fget ringbuf s) sizeof_event 0 = (Some e0, rb) /\
     is_chunk b (Z.min r MAX_BODY_SIZE) e /\
     samples (ringbuf_submit rb e 0) = samples (fget ringbuf s) ++ [e] /\
     body (b, r) s = (Next (b + Z.min r MAX_BODY_SIZE, r - Z.min r MAX_BODY_SIZE),
                      fset ringbuf (ringbuf_submit rb e 0) s)) \/
  (exists rb, ringbuf_reserve (fget ringbuf s) sizeof_event 0 = (None, rb) /\
     samples rb = samples (fget ringbuf s) /\
     body (b, r) s = (Next (b, r), fset ringbuf rb s)).
Proof.
  intros Hb Hr Hbr. unfold emit_body. rewrite u32_small by lia.
  rewrite (proj2 (Z.eqb_neq r 0)) by lia.
  replace (if MAX_BODY_SIZE <? r then MAX_BODY_SIZE else r) with (Z.min r MAX_BODY_SIZE)
    by (destruct (Z.ltb_spec MAX_BODY_SIZE r); lia).
  assert (0 < Z.min r MAX_BODY_SIZE <= r) by (unfold MAX_BODY_SIZE; lia).
  prog_unfold. unfold bpf_ringbuf_reserve.
  pose proof (reserve_samples (fget ringbuf s) sizeof_event 0) as Hs.
  destruct (ringbuf_reserve (fget ringbuf s) sizeof_event 0) as [[e0|] rb]; simpl in Hs.
  - left. eexists e0, rb, _. split; [done|]. split; [by eexists|].
    rewrite submit_samples, Hs. split; [done|].
    unfold bpf_ringbuf_submit. rewrite fget_fset, fset_fset.
    by rewrite !u64_small by lia.
  - right. eauto.
Qed.

Lemma emit_loop n b r s :
  0 <= b -> 0 <= r < 2 ^ 32 -> b + r < 2 ^ 64 ->
  exists es b' r' rb,
    bpf_repeat n body (b, r) s = (inl (b', r'), fset ringbuf rb s) /\
    samples rb = samples (fget ringbuf s) ++ es /\ chunks b r es b' r' /\
    (has_room sizeof_event n (fget ringbuf s) -> r' = Z.max 0 (r - Z.of_nat n * MAX_BODY_SIZE)).
Proof.
  revert b r s. induction n as [|n IH]; intros b r s Hb Hr Hbr.
  { exists [], b, r, (fget ringbuf s). simpl. rewrite fset_fget, app_nil_r.
    split; [done|]. split; [done|]. split; [constructor|lia]. }
  simpl. unfold mbind, prog_bind. destruct (decide (r = 0)) as [->|Hr0].
  { exists [], b, 0, (fget ringbuf s). unfold emit_body at 1. simpl.
    unfold mret, prog_ret. rewrite fset_fget, app_nil_r.
    split; [done|]. split; [done|]. split; [constructor|unfold MAX_BODY_SIZE; lia]. }
  assert (0 < Z.min r MAX_BODY_SIZE <= r) by (unfold MAX_BODY_SIZE; lia).
  destruct (emit_body_step b r s) as [(e0 & rb & e & Hres & Hc & Hs & ->)|(rb & Hres & Hs & ->)];
    [lia..| |].
  - destruct (IH (b + Z.min r MAX_BODY_SIZE) (r - Z.min r MAX_BODY_SIZE)
      (fset ringbuf (ringbuf_submit rb e 0) s)) as (es & b' & r' & rb' & -> & Hs' & Hch & Hroom);
      [lia..|].
    rewrite fget_fset in *. exists (e :: es), b', r', rb'. rewrite fset_fset.
    split; [done|]. split; [by rewrite Hs', Hs, <- app_assoc|].
    split; [constructor; [lia|done|done]|].
    intros (e1 & rb1 & Hres1 & Hr1). rewrite Hres in Hres1. simplify_eq.
    rewrite Hroom by done. unfold MAX_BODY_SIZE. lia.
  - destruct (IH b r (fset ringbuf rb s)) as (es & b' & r' & rb' & -> & Hs' & Hch & Hroom);
      [lia..|].
    rewrite fget_fset in *. exists es, b', r', rb'. rewrite fset_fset.
    split; [done|]. split; [by rewrite Hs', Hs|]. split; [done|].
    intros (e1 & rb1 & Hres1 & _). rewrite Hres in Hres1. simplify_eq.
Qed.

Lemma chunks_len b r es b' r' : chunks b r es b' r' -> 0 <= r -> b' - b = r - r' /\ 0 <= r' <= r.
Proof. induction 1; unfold MAX_BODY_SIZE in *; lia. Qed.

Lemma chunks_payload m b r es b' r' :
  UserMem k m -> chunks b r es b' r' -> 0 <= r -> no_fault k b r ->
  mem_read m b (Z.to_nat (r - r')) = Some (es ≫= payload).
Proof.
  intros Hm. induction 1 as [b r|b r e es b' r' Hr [e0 ->] Hch IH]; intros Hr0 Hnf.
  { by rewrite Z.sub_diag. }
  set (l := Z.min r MAX_BODY_SIZE) in *. assert (0 < l <= r) by (unfold l, MAX_BODY_SIZE; lia).
  destruct (chunks_len _ _ _ _ _ Hch) as [_ Hlen]; [lia|].
  replace (Z.to_nat (r - r')) with (Z.to_nat l + Z.to_nat (r - l - r'))%nat by lia.
  rewrite bind_cons. apply mem_read_app.
  - unfold payload. simpl. pose proof (user_read (k := k) l b) as H1.
    pose proof (Hnf b l) as H2. destruct (bpf_probe_read_user k l b) as [ret bs].
    simpl in *. destruct H1 as [Hlb [?|[_ H1]]]; [lia|lia|].
    rewrite <- Hlb, take_overlay. rewrite Hlb. apply H1.
  - rewrite Z2Nat.id by lia. apply IH; [lia|].
    intros i size Hi Hs His. apply Hnf; lia.
Qed.

(** Every event of a run carries the header of its call. *)
Lemma chunks_header b r es b' r' :
  chunks b r es b' r' ->
  Forall (fun e => ev_pid_tgid e = key /\ ev_ssl_ptr e = ssl_ptr info /\
    ev_req_len e = len info /\ ev_rw e = rw /\ ev_timestamp_ns e = bpf_ktime_get_ns k /\
    0 < ev_data_len e <= MAX_BODY_SIZE) es.
Proof.
  induction 1 as [|b r e es b' r' Hr [e0 ->] _ IH]; constructor; [|done].
  simpl. repeat (split; [done|]). unfold MAX_BODY_SIZE. lia.
Qed.
End Emit.

(** The ring buffer alone as a state. *)
Definition ring_field (RB : bpf_ringbuf event) : field RB RB :=
  Field (fun r => r) (fun r _ => r).

#[export] Instance ring_field_ok RB : FieldOk (ring_field RB).
Proof. field_ok. Qed.

(** The ring buffer after [emit_ssl_events]. *)
Definition emitted {RB : bpf_ringbuf event} k key info remaining rw (r : RB) : RB :=
  exec (emit_ssl_events (ring_field RB) k key info remaining rw) r.

Section EmitField.
Context {S : Type} {RB : bpf_ringbuf event} (f : field S RB) `{!FieldOk f}.

Lemma emit_body_field k key info rw now uid cg v s :
  emit_body f k key info rw now uid cg v s =
  let '(c, r) := emit_body (ring_field RB) k key info rw now uid cg v (fget f s) in
  (c, fset f r s).
Proof.
  destruct v as [b r]. unfold emit_body. prog_unfold.
  destruct (u32 r =? 0); simpl; [by rewrite fset_fget|].
  unfold bpf_ringbuf_reserve. simpl.
  destruct (ringbuf_reserve (fget f s) sizeof_event 0) as [[e|] rb]; simpl; [|done].
  unfold bpf_ringbuf_submit. simpl. by rewrite fget_fset, fset_fset.
Qed.

Lemma emit_repeat_field n k key info rw now uid cg v s :
  bpf_repeat n (emit_body f k key info rw now uid cg) v s =
  let '(c, r) := bpf_repeat n (emit_body (ring_field RB) k key info rw now uid cg) v (fget f s) in
  (c, fset f r s).
Proof.
  revert v s. induction n as [|n IH]; intros v s; simpl; unfold mret, prog_ret;
    [by rewrite fset_fget|].
  unfold mbind, prog_bind. rewrite emit_body_field.
  destruct (emit_body (ring_field RB) k key info rw now uid cg v (fget f s)) as [[v'|v'|[]] r];
    simpl; [|done].
  rewrite IH, fget_fset.
  destruct (bpf_repeat n _ v' r) as [c r']. by rewrite fset_fset.
Qed.

(** [emit_ssl_events] only changes its ring buffer, and depends on nothing
    else of the state. *)
Lemma emit_field k key info remaining rw s :
  emit_ssl_events f k key info remaining rw s =
  (tt, fset f (emitted k key info remaining rw (fget f s)) s).
Proof.
  unfold emitted, emit_ssl_events. prog_unfold. rewrite emit_repeat_field.
  by destruct (bpf_repeat MAX_LOOP _ _ (fget f s)).
Qed.
End EmitField.

(** What a run of [emit_ssl_events] adds: the first bytes of the buffer, all of
    them (up to 4 MiB) if there is room. *)
Lemma emitted_spec {RB : bpf_ringbuf event} `{!RingbufOk RB} k m key info remaining rw (r : RB) :
  let size := Z.min remaining (64 * MAX_BODY_SIZE) in
  UserMem k m -> 0 <= buf_addr info -> 0 <= remaining ->
  buf_addr info + remaining < 2 ^ 64 -> no_fault k (buf_addr info) size ->
  exists es n, samples (emitted k key info remaining rw r) = samples r ++ es /\
    0 <= n <= size /\ (has_room sizeof_event 64 r -> n = size) /\
    mem_read m (buf_addr info) (Z.to_nat n) = Some (es ≫= payload) /\
    Forall (fun e => ev_pid_tgid e = key /\ ev_ssl_ptr e = ssl_ptr info /\
      ev_req_len e = len info /\ ev_rw e = rw /\ ev_timestamp_ns e = bpf_ktime_get_ns k /\
      0 < ev_data_len e <= MAX_BODY_SIZE) es.
Proof.
  cbv zeta. intros Hm Hb Hr Hbr Hnf. unfold emitted, emit_ssl_events. prog_unfold.
  replace (if Z.of_nat MAX_LOOP * MAX_BODY_SIZE <? remaining
    then Z.of_nat MAX_LOOP * MAX_BODY_SIZE else remaining)
    with (Z.min remaining (64 * MAX_BODY_SIZE))
    by (change (Z.of_nat MAX_LOOP) with 64; destruct (Z.ltb_spec (64 * MAX_BODY_SIZE) remaining); lia).
  set (size := Z.min remaining (64 * MAX_BODY_SIZE)) in *.
  assert (0 <= size <= remaining /\ size <= 64 * MAX_BODY_SIZE)
    by (unfold size, MAX_BODY_SIZE; lia).
  destruct (emit_loop (ring_field RB) k key info rw MAX_LOOP (buf_addr info) size r)
    as (es & b' & r' & rb & -> & Hs & Hch & Hroom); [unfold MAX_BODY_SIZE in *; lia..|].
  simpl in *. destruct (chunks_len _ _ _ _ _ _ _ _ _ Hch) as [_ Hlen]; [lia|].
  exists es, (size - r'). split; [done|]. split; [lia|]. split.
  { intros H64. specialize (Hroom H64). change (Z.of_nat MAX_LOOP) with 64 in Hroom. unfold MAX_BODY_SIZE in *. lia. }
  split; [eapply chunks_payload; try done; lia|]. by eapply chunks_header.
Qed.

(** ** The OpenSSL probe *)

#[export] Instance ssl_events_ok MS ME RB : FieldOk (Ssl.events (MS := MS) (ME := ME) (RB := RB)).
Proof. field_ok. Qed.
#[export] Instance boring_events_ok MS RB : FieldOk (Boring.events (MS := MS) (RB := RB)).
Proof. field_ok. Qed.

Section SslProps.
Import Ssl.
Context {MS : bpf_map Z call_info} {ME : bpf_map Z call_info_ex} {RB : bpf_ringbuf event}.
Context `{!HashOk MS, !HashOk ME, !RingbufOk RB} (a : abi).
Local Abbreviation st := (Ssl.state MS ME RB).
Implicit Types (s : st) (k : kenv).

Definition calls (s : st) : gmap Z call_info := contents (st_start_map s).
Definition calls_ex (s : st) : gmap Z call_info_ex := contents (st_start_ex_map s).
Definition evs (s : st) : list event := samples (st_events s).

(** The direction of a call: its return probe and the code of its events. *)
Inductive direction := Read | Write.
Definition rw_code (d : direction) : Z := match d with Read => 4 | Write => 2 end.
Definition entry (d : direction) : view -> call :=
  match d with Read => ReadEntry | Write => WriteEntry end.
Definition exit (d : direction) : view -> call :=
  match d with Read => ReadExit | Write => WriteExit end.
Definition entry_ex (d : direction) : view -> call :=
  match d with Read => ReadExEntry | Write => WriteExEntry end.
Definition exit_ex (d : direction) : view -> call :=
  match d with Read => ReadExExit | Write => WriteExExit end.

Lemma entry_spec d k ctx s :
  handle a k (entry d ctx) s =
  (0, State (update_elem (st_start_map s) (bpf_get_current_pid_tgid k)
              (new_call_info a ctx) BPF_ANY).2 (st_start_ex_map s) (st_events s)).
Proof.
  destruct d; simpl; unfold probe_ssl_read_entry, probe_ssl_write_entry; prog_unfold;
    unfold bpf_map_update_elem; simpl; by destruct (update_elem (K := Z) _ _ _ _).
Qed.

Lemma entry_ex_spec d k ctx s :
  handle a k (entry_ex d ctx) s =
  (0, State (st_start_map s) (update_elem (st_start_ex_map s) (bpf_get_current_pid_tgid k)
              (new_call_info_ex a ctx) BPF_ANY).2 (st_events s)).
Proof.
  destruct d; simpl; unfold probe_ssl_read_ex_entry, probe_ssl_write_ex_entry; prog_unfold;
    unfold bpf_map_update_elem; simpl; by destruct (update_elem (K := Z) _ _ _ _).
Qed.

Lemma exit_spec d k ctx s :
  let pid := bpf_get_current_pid_tgid k in
  let ret := s32 (rc a ctx) in
  handle a k (exit d ctx) s =
  (0, match calls s !! pid with
      | None => s
      | Some info =>
          State (delete_elem (st_start_map s) pid).2 (st_start_ex_map s)
            (if ret <=? 0 then st_events s
             else emitted k pid info (u64 ret) (rw_code d) (st_events s))
      end).
Proof.
  destruct d; simpl; unfold probe_ssl_read_exit, probe_ssl_write_exit, calls; prog_unfold;
    unfold bpf_map_lookup_elem; simpl; rewrite lookup_elem_contents;
    destruct (contents (st_start_map s) !! bpf_get_current_pid_tgid k) as [info|]; try done;
    unfold bpf_map_delete_elem; destruct (s32 (rc a ctx) <=? 0); rewrite ?emit_field by apply _; simpl;
    match goal with |- context [delete_elem ?x ?y] => by destruct (delete_elem x y) end.
Qed.

Lemma exit_ex_spec d k ctx s :
  let pid := bpf_get_current_pid_tgid k in
  handle a k (exit_ex d ctx) s =
  (0, State (st_start_map s) (delete_elem (st_start_ex_map s) pid).2
        (match calls_ex s !! pid with
         | Some info =>
             if s32 (rc a ctx) =? 1
             then emitted k pid (base info) (read_size k (consumed_len_ptr info)) (rw_code d)
                    (st_events s)
             else st_events s
         | None => st_events s
         end)).
Proof.
  destruct d; simpl; unfold probe_ssl_read_ex_exit, probe_ssl_write_ex_exit, calls_ex;
    prog_unfold; unfold bpf_map_lookup_elem; simpl; rewrite lookup_elem_contents;
    unfold bpf_map_delete_elem;
    destruct (contents (st_start_ex_map s) !! bpf_get_current_pid_tgid k) as [info|];
    simpl; try destruct (s32 (rc a ctx) =? 1); simpl; rewrite ?emit_field by apply _; simpl;
    match goal with |- context [delete_elem ?x ?y] => by destruct (delete_elem x y) end.
Qed.

(** Every program is one of these. *)
Lemma call_cases (P : call -> Prop) :
  (forall d ctx, P (entry d ctx)) -> (forall d ctx, P (entry_ex d ctx)) ->
  (forall d ctx, P (exit d ctx)) -> (forall d ctx, P (exit_ex d ctx)) -> forall c, P c.
Proof.
  intros H1 H2 H3 H4 [ctx|ctx|ctx|ctx|ctx|ctx|ctx|ctx];
    [apply (H1 Read)|apply (H1 Write)|apply (H2 Read)|apply (H2 Write)|
     apply (H3 Read)|apply (H4 Read)|apply (H3 Write)|apply (H4 Write)].
Qed.

(** A program touches no pending call but that of its own task. *)
Lemma handle_other_calls k c pid s :
  pid <> bpf_get_current_pid_tgid k ->
  calls (exec (handle a k c) s) !! pid = calls s !! pid /\
  calls_ex (exec (handle a k c) s) !! pid = calls_ex s !! pid.
Proof.
  intros Hpid. unfold exec. revert c. apply call_cases; intros d ctx.
  - rewrite entry_spec. unfold calls, calls_ex. simpl. by rewrite update_other_hash.
  - rewrite entry_ex_spec. unfold calls, calls_ex. simpl. by rewrite update_other_hash.
  - rewrite exit_spec. simpl. case_match; [|done]. unfold calls, calls_ex. simpl.
    by rewrite hash_delete_contents, lookup_delete_ne.
  - rewrite exit_ex_spec. unfold calls, calls_ex. simpl.
    by rewrite hash_delete_contents, lookup_delete_ne.
Qed.

Definition run_trace (tr : list (kenv * call)) (s : st) : st :=
  run ((fun kc => handle a kc.1 kc.2) <$> tr) s.

Lemma run_trace_other_calls tr pid s :
  Forall (fun kc => bpf_get_current_pid_tgid kc.1 <> pid) tr ->
  calls (run_trace tr s) !! pid = calls s !! pid /\
  calls_ex (run_trace tr s) !! pid = calls_ex s !! pid.
Proof.
  intros Htr. revert s. induction Htr as [|[k c] tr Hk _ IH]; intros s; [done|].
  destruct (IH (exec (handle a k c) s)) as [H1 H2].
  destruct (handle_other_calls k c pid s) as [H3 H4]; [by intros ->|].
  by rewrite <- H3, <- H4.
Qed.

(** The header of the events of a call: its task, connection, requested length
    and direction. *)
Definition header_ok k (d : direction) (info : call_info) (e : event) : Prop :=
  ev_pid_tgid e = bpf_get_current_pid_tgid k /\ ev_ssl_ptr e = ssl_ptr info /\
  ev_req_len e = len info /\ ev_rw e = rw_code d /\
  ev_timestamp_ns e = bpf_ktime_get_ns k /\ 0 < ev_data_len e <= MAX_BODY_SIZE.

(** C7. What SSL_read and SSL_write capture.  Entry probe, any interleaving of
    other tasks, return probe with a positive result: the events carry the
    header of the call, and their payloads, put together, are the first bytes
    of the buffer the call named; all [ret] bytes (up to 4 MiB) when the ring
    buffer has room, a shorter prefix (never a gap) otherwise.  Nothing stays
    pending for the task. *)
Theorem ssl_call_captured d k1 ctx1 tr k2 m ctx2 s :
  let pid := bpf_get_current_pid_tgid k1 in
  let info := new_call_info a ctx1 in
  let ret := s32 (rc a ctx2) in
  let size := Z.min ret (64 * MAX_BODY_SIZE) in
  let s2 := run_trace tr (exec (handle a k1 (entry d ctx1)) s) in
  let s3 := exec (handle a k2 (exit d ctx2)) s2 in
  (update_elem (st_start_map s) pid info BPF_ANY).1 = 0 ->
  Forall (fun kc => bpf_get_current_pid_tgid kc.1 <> pid) tr ->
  bpf_get_current_pid_tgid k2 = pid -> UserMem k2 m -> 0 < ret ->
  buf_addr info + ret < 2 ^ 64 -> no_fault k2 (buf_addr info) size ->
  calls s3 !! pid = None /\
  exists es n, evs s3 = evs s2 ++ es /\ Forall (header_ok k2 d info) es /\
    mem_read m (buf_addr info) (Z.to_nat n) = Some (es ≫= payload) /\
    0 <= n <= size /\ (has_room sizeof_event 64 (st_events s2) -> n = size).
Proof.
  cbv zeta. intros Hup Htr Hpid Hm Hret Hbr Hnf.
  set (s1 := exec (handle a k1 (entry d ctx1)) s).
  set (info := new_call_info a ctx1) in *. set (ret := s32 (rc a ctx2)) in *.
  assert (calls (run_trace tr s1) !! bpf_get_current_pid_tgid k2 = Some info) as Hc.
  { rewrite Hpid. destruct (run_trace_other_calls tr _ s1 Htr) as [-> _].
    unfold s1, exec. rewrite entry_spec. unfold calls. simpl. by apply lru_update_some. }
  assert (0 <= ret < 2 ^ 31) by (unfold ret; pose proof (s32_range (rc a ctx2)); lia).
  unfold exec at 1 2. rewrite exit_spec, Hc. fold ret. simpl.
  rewrite (proj2 (Z.leb_gt ret 0)) by lia. rewrite u64_small by lia.
  destruct (emitted_spec k2 m (bpf_get_current_pid_tgid k2) info ret (rw_code d)
    (st_events (run_trace tr s1))) as (es & n & H1 & H2 & H3 & H4 & H5); try done; try lia.
  { apply u64_range. }
  split; [unfold calls; simpl; by rewrite hash_delete_contents, Hpid, lookup_delete_eq|].
  exists es, n. unfold evs. simpl. rewrite H1. done.
Qed.

(** The same for SSL_read_ex and SSL_write_ex: they report through the
    result 1 and a length stored at the address of the fourth argument, and
    the events hold that many bytes (up to 4 MiB) of the buffer. *)
Theorem ssl_ex_call_captured d k1 ctx1 tr k2 m ctx2 s :
  let pid := bpf_get_current_pid_tgid k1 in
  let info := new_call_info_ex a ctx1 in
  let n_done := read_size k2 (consumed_len_ptr info) in
  let size := Z.min n_done (64 * MAX_BODY_SIZE) in
  let s2 := run_trace tr (exec (handle a k1 (entry_ex d ctx1)) s) in
  let s3 := exec (handle a k2 (exit_ex d ctx2)) s2 in
  (update_elem (st_start_ex_map s) pid info BPF_ANY).1 = 0 ->
  Forall (fun kc => bpf_get_current_pid_tgid kc.1 <> pid) tr ->
  bpf_get_current_pid_tgid k2 = pid -> UserMem k2 m -> s32 (rc a ctx2) = 1 ->
  0 <= n_done -> buf_addr (base info) + n_done < 2 ^ 64 ->
  no_fault k2 (buf_addr (base info)) size ->
  calls_ex s3 !! pid = None /\
  exists es n, evs s3 = evs s2 ++ es /\ Forall (header_ok k2 d (base info)) es /\
    mem_read m (buf_addr (base info)) (Z.to_nat n) = Some (es ≫= payload) /\
    0 <= n <= size /\ (has_room sizeof_event 64 (st_events s2) -> n = size).
Proof.
  cbv zeta. intros Hup Htr Hpid Hm Hret Hn0 Hbr Hnf.
  set (s1 := exec (handle a k1 (entry_ex d ctx1)) s).
  set (info := new_call_info_ex a ctx1) in *.
  set (n_done := read_size k2 (consumed_len_ptr info)) in *.
  assert (calls_ex (run_trace tr s1) !! bpf_get_current_pid_tgid k2 = Some info) as Hc.
  { rewrite Hpid. destruct (run_trace_other_calls tr _ s1 Htr) as [_ ->].
    unfold s1, exec. rewrite entry_ex_spec. unfold calls_ex. simpl.
    by apply lru_update_some. }
  unfold exec at 1 2. rewrite exit_ex_spec, Hc, Hret.
  change (1 =? 1) with true. cbv zeta iota. cbn [snd]. fold n_done.
  destruct (emitted_spec k2 m (bpf_get_current_pid_tgid k2) (base info) n_done (rw_code d)
    (st_events (run_trace tr s1))) as (es & n & H1 & H2 & H3 & H4 & H5); try done.
  { apply u64_range. }
  split; [unfold calls_ex; simpl; by rewrite hash_delete_contents, Hpid, lookup_delete_eq|].
  exists es, n. unfold evs. cbn [st_events]. rewrite H1. done.
Qed.

(** A call that fails (a result of 0 or less; for the _ex functions any but
    1), or whose entry was not seen, leaves no event and nothing pending. *)
Theorem ssl_failed_call_silent d k ctx s :
  let pid := bpf_get_current_pid_tgid k in
  (s32 (rc a ctx) <= 0 \/ calls s !! pid = None ->
   let s' := exec (handle a k (exit d ctx)) s in
   evs s' = evs s /\ calls s' !! pid = None) /\
  (s32 (rc a ctx) <> 1 \/ calls_ex s !! pid = None ->
   let s' := exec (handle a k (exit_ex d ctx)) s in
   evs s' = evs s /\ calls_ex s' !! pid = None).
Proof.
  cbv zeta. unfold exec. rewrite exit_spec, exit_ex_spec. simpl. split; intros H.
  - destruct (calls s !! bpf_get_current_pid_tgid k) eqn:E; [|done].
    destruct H as [H|H]; [|done]. rewrite (proj2 (Z.leb_le _ _) H).
    unfold calls, evs. simpl. by rewrite hash_delete_contents, lookup_delete_eq.
  - unfold calls_ex at 2, evs. simpl. rewrite hash_delete_contents, lookup_delete_eq.
    split; [|done]. destruct (calls_ex s !! _) eqn:E; [|done].
    destruct H as [H|H]; [|done]. by rewrite (proj2 (Z.eqb_neq _ _) H).
Qed.
End SslProps.

(** ** BoringSSL and OpenSSL agree *)

Section Agreement.
Context {MS : bpf_map Z call_info} {ME : bpf_map Z call_info_ex} {RB : bpf_ringbuf event}.
Context (a : abi).

(** The OpenSSL probe with the same pending calls and events. *)
Definition embed (e : ME) (s : Boring.state MS RB) : Ssl.state MS ME RB :=
  Ssl.State (Boring.st_start_map s) e (Boring.st_events s).

Definition as_ssl (c : Boring.call) : Ssl.call :=
  match c with
  | Boring.ReadEntry ctx => Ssl.ReadEntry ctx
  | Boring.WriteEntry ctx => Ssl.WriteEntry ctx
  | Boring.ReadExit ctx => Ssl.ReadExit ctx
  | Boring.WriteExit ctx => Ssl.WriteExit ctx
  end.

Lemma boring_step k c e s :
  Ssl.handle a k (as_ssl c) (embed e s) =
  let '(r, s') := Boring.handle a k c s in (r, embed e s').
Proof.
  destruct c as [ctx|ctx|ctx|ctx]; simpl;
    unfold Ssl.probe_ssl_read_entry, Ssl.probe_ssl_write_entry, Ssl.probe_ssl_read_exit,
      Ssl.probe_ssl_write_exit, Boring.probe_boring_ssl_read_entry,
      Boring.probe_boring_ssl_write_entry, Boring.probe_boring_ssl_read_exit,
      Boring.probe_boring_ssl_write_exit; prog_unfold;
    unfold bpf_map_lookup_elem, bpf_map_update_elem, bpf_map_delete_elem; simpl;
    try (match goal with |- context [update_elem ?x ?y ?z ?w] =>
           by destruct (update_elem x y z w) end);
    destruct (lookup_elem _ _) as [info|]; try done;
    destruct (s32 (rc a ctx) <=? 0); rewrite ?emit_field by apply _; simpl;
    match goal with |- context [delete_elem ?x ?y] => by destruct (delete_elem x y) end.
Qed.

(** C40. The BoringSSL probe refines the OpenSSL probe: on any sequence of its
    programs it has exactly the pending calls and events that the OpenSSL probe
    has on the corresponding sequence. *)
Theorem boring_refines_ssl (tr : list (kenv * Boring.call)) e s :
  run ((fun kc => Ssl.handle a kc.1 (as_ssl kc.2)) <$> tr) (embed e s) =
  embed e (run ((fun kc => Boring.handle a kc.1 kc.2) <$> tr) s).
Proof.
  revert s. induction tr as [|[k c] tr IH]; intros s; [done|].
  rewrite !fmap_cons, !run_cons, <- IH. f_equal. unfold exec. simpl.
  rewrite boring_step. by destruct (Boring.handle a k c s).
Qed.
End Agreement.

(** ** Requested lengths *)

(** The requested length of an event is the third argument truncated to an
    [int] and sign-extended.  That is exact for lengths below 2^31, which are
    all that SSL_read and SSL_write can pass; SSL_read_ex and SSL_write_ex take
    a [size_t], and from 2^31 on the recorded length is another one. *)
Theorem requested_length a ctx n :
  PT_REGS_PARM (Some a) 3 ctx = Some n -> 0 <= n < 2 ^ 32 ->
  len (new_call_info a ctx) = (if n <? 2 ^ 31 then n else n + (2 ^ 64 - 2 ^ 32)) /\
  len (base (new_call_info_ex a ctx)) = len (new_call_info a ctx).
Proof.
  intros Hn Hr. split; [|done]. unfold new_call_info, parm. cbn [len]. rewrite Hn. cbn [default from_option id].
  destruct (Z.ltb_spec n (2 ^ 31)) as [E|E].
  - rewrite s32_small, u64_small by lia. done.
  - replace (s32 n) with (n - 2 ^ 32).
    + unfold u64. rewrite <- (Z.mod_small (n + (2 ^ 64 - 2 ^ 32)) (2 ^ 64)) by lia.
      replace (n + (2 ^ 64 - 2 ^ 32)) with (n - 2 ^ 32 + 1 * 2 ^ 64) by lia.
      by rewrite Z.mod_add.
    + unfold s32. replace (n + 2 ^ 31) with (n - 2 ^ 31 + 1 * 2 ^ 32) by lia.
      rewrite Z.mod_add, Z.mod_small by lia. lia.
Qed.

(** ** Witnesses *)

Module Demo.

Definition uninit : event := Event 0 0 0 0 0 0 0 0 [] [].
Definition calls_map := ref_hash Z call_info (Z.to_nat MAX_ENTRIES).
Definition calls_ex_map := ref_hash Z call_info_ex (Z.to_nat MAX_ENTRIES).
Definition ring := ref_ringbuf event uninit.

Definition init : Ssl.state calls_map calls_ex_map ring :=
  Ssl.State (MS := calls_map) (ME := calls_ex_map) (RB := ring) ∅ ∅ ([], []).

(** A plaintext at 4096 and the length 5 at 8192. *)
Definition user : mem :=
  mem_union (mem_at 4096 (str "GET / HTTP/1.1")) (mem_at 8192 (le_encode 8 5)).

Definition k1 : kenv := ref_kenv user 10 (1000 * 2 ^ 32 + 1001) 0 1 0 "curl".
Definition k2 : kenv := ref_kenv user 20 (1000 * 2 ^ 32 + 1002) 0 1 0 "curl".

(** Registers at the call [SSL_write(ssl, 4096, 14)] (and
    [SSL_write_ex(ssl, 4096, 14, 8192)]), and at its return. *)
Definition at_call : view :=
  view_pt_regs (PtRegs 0 0 0 0 0 0 0 0 0 0 0 8192 14 4096 777 0 0 0 0 0 0).
Definition at_return (ret : Z) : view :=
  view_pt_regs (PtRegs 0 0 0 0 0 0 0 0 0 0 ret 0 0 0 0 0 0 0 0 0 0).

Definition others : list (kenv * Ssl.call) := [(k2, Ssl.ReadEntry at_call)].

End Demo.

Lemma ssl_call_captured_witness :
  let s2 := run_trace abi_x86_64 Demo.others
    (exec (Ssl.handle abi_x86_64 Demo.k1 (Ssl.WriteEntry Demo.at_call)) Demo.init) in
  exists es n, evs (exec (Ssl.handle abi_x86_64 Demo.k1
      (Ssl.WriteExit (Demo.at_return 14))) s2) = evs s2 ++ es /\
    mem_read Demo.user 4096 (Z.to_nat n) = Some (es ≫= payload).
Proof.
  destruct (ssl_call_captured abi_x86_64 Write Demo.k1 Demo.at_call Demo.others Demo.k1
    Demo.user (Demo.at_return 14) Demo.init) as (_ & es & n & H1 & _ & H2 & _).
  - vm_compute; reflexivity.
  - repeat constructor; discriminate.
  - reflexivity.
  - apply _.
  - reflexivity.
  - reflexivity.
  - eapply ref_no_fault; [vm_compute; discriminate|vm_compute; reflexivity].
  - exists es, n. split; [exact H1|exact H2].
Defined.

Lemma ssl_ex_call_captured_witness :
  let s2 := run_trace abi_x86_64 Demo.others
    (exec (Ssl.handle abi_x86_64 Demo.k1 (Ssl.WriteExEntry Demo.at_call)) Demo.init) in
  exists es n, evs (exec (Ssl.handle abi_x86_64 Demo.k1
      (Ssl.WriteExExit (Demo.at_return 1))) s2) = evs s2 ++ es /\
    mem_read Demo.user 4096 (Z.to_nat n) = Some (es ≫= payload).
Proof.
  destruct (ssl_ex_call_captured abi_x86_64 Write Demo.k1 Demo.at_call Demo.others Demo.k1
    Demo.user (Demo.at_return 1) Demo.init) as (_ & es & n & H1 & _ & H2 & _).
  - vm_compute; reflexivity.
  - repeat constructor; discriminate.
  - reflexivity.
  - apply _.
  - reflexivity.
  - vm_compute; discriminate.
  - vm_compute; reflexivity.
  - eapply ref_no_fault; [vm_compute; discriminate|vm_compute; reflexivity].
  - exists es, n. split; [exact H1|exact H2].
Defined.

Lemma ssl_failed_call_silent_witness :
  let s := exec (Ssl.handle abi_x86_64 Demo.k1 (Ssl.ReadEntry Demo.at_call)) Demo.init in
  let s' := exec (Ssl.handle abi_x86_64 Demo.k1 (Ssl.ReadExit (Demo.at_return (-1)))) s in
  evs s' = evs s /\ calls s' !! (1000 * 2 ^ 32 + 1001) = None.
Proof.
  destruct (ssl_failed_call_silent abi_x86_64 Read Demo.k1 (Demo.at_return (-1))
    (exec (Ssl.handle abi_x86_64 Demo.k1 (Ssl.ReadEntry Demo.at_call)) Demo.init)) as [H _].
  apply H. left. vm_compute. discriminate.
Defined.

Lemma requested_length_witness :
  len (base (new_call_info_ex abi_x86_64
    (view_pt_regs (PtRegs 0 0 0 0 0 0 0 0 0 0 0 0 (2 ^ 31) 0 0 0 0 0 0 0 0))))
  = 2 ^ 64 - 2 ^ 31.
Proof.
  destruct (requested_length abi_x86_64
    (view_pt_regs (PtRegs 0 0 0 0 0 0 0 0 0 0 0 0 (2 ^ 31) 0 0 0 0 0 0 0 0)) (2 ^ 31))
    as [H1 H2]; [reflexivity|split; [discriminate|reflexivity]|].
  rewrite H2, H1. reflexivity.
Defined.
