(* ===== verification/Postgres.v ===== *)
(** * Postgres probe

    [postgres/pg.bpf.c]: connections are classified by their startup packet,
    and the frontend messages sent on a Postgres connection are split and
    copied to the ring buffer. *)

From S2P Require Import Prelude Helpers.

Definition TASK_COMM_LEN : Z := 16.
Definition MAX_LOOP : nat := 64.
Definition MAX_ENTRIES : Z := 10240.
Definition MAX_BUF_SIZE : Z := 16 * 1024.
Definition RING_BUFFER_SIZE : Z := 32 * 1024 * 1024.

Inductive conn_flag :=
  | CONN_FLAG_PLAINTEXT
  | CONN_FLAG_SSL
  | CONN_FLAG_GSSENC
  | CONN_FLAG_OTHER.

Definition conn_flag_code (f : conn_flag) : Z :=
  match f with
  | CONN_FLAG_PLAINTEXT => 1
  | CONN_FLAG_SSL => 2
  | CONN_FLAG_GSSENC => 3
  | CONN_FLAG_OTHER => 4
  end.

Record sendto_ctx := SendtoCtx {
  sc_common : Z; sc_syscall_nr : Z;
  sc_fd : Z; sc_buf : Z; sc_size : Z; sc_flags : Z; sc_addr : Z; sc_addr_len : Z }.

Record close_ctx := CloseCtx { cc_common : Z; cc_syscall_nr : Z; cc_fd : Z }.

Record conn_key := ConnKey { ck_pid_tgid : Z; ck_fd : Z }.

#[export] Instance conn_key_eq_dec : EqDecision conn_key.
Proof. solve_decision. Defined.

#[export] Instance conn_key_countable : Countable conn_key.
Proof.
  apply (inj_countable' (fun k => (ck_pid_tgid k, ck_fd k)) (fun p => ConnKey p.1 p.2)).
  by intros [].
Defined.

Record event := Event {
  ev_timestamp_ns : Z;
  ev_pid_tgid : Z;
  ev_uid_gid : Z;
  ev_req_len : Z;
  ev_cgroup_id : Z;
  ev_data_len : Z;
  ev_fd : Z;
  ev_msg_type : Z;
  ev_data : list Z;
  ev_comm : list Z;
}.

Record event_meta := EventMeta {
  em_timestamp_ns : Z;
  em_uid_gid : Z;
  em_cgroup_id : Z;
  em_comm : list Z;
}.

Definition sizeof_event : Z := 16464.

Definition inflight_def : map_def := MapDef BPF_MAP_TYPE_HASH MAX_ENTRIES 16 4.
Definition events_def : map_def := MapDef BPF_MAP_TYPE_RINGBUF RING_BUFFER_SIZE 0 0.
Definition fake_event_map_def : map_def := MapDef BPF_MAP_TYPE_ARRAY 1 4 sizeof_event.

(** [(b[i] << 24) | (b[i + 1] << 16) | (b[i + 2] << 8) | b[i + 3]]. *)
Definition be32_at (b : list Z) (i : nat) : Z :=
  Z.lor (Z.lor (Z.lor (Z.shiftl (rd b i) 24) (Z.shiftl (rd b (i + 1)) 16))
    (Z.shiftl (rd b (i + 2)) 8)) (rd b (i + 3)).

Definition detect_startup_flag (k : kenv) (buf size : Z) : Z :=
  if size <? 8 then 0
  else
    let '(r, pre) := bpf_probe_read_user k 8 buf in
    if r <? 0 then 0
    else
      let protocol := u32 (be32_at pre 4) in
      if Z.shiftr protocol 16 =? 3 then conn_flag_code CONN_FLAG_PLAINTEXT
      else if protocol =? 80877103 then conn_flag_code CONN_FLAG_SSL
      else if protocol =? 80877104 then conn_flag_code CONN_FLAG_GSSENC
      else conn_flag_code CONN_FLAG_OTHER.

Definition is_supported_pg_msg_type (tag : Z) : bool :=
  (tag =? 0x51) || (tag =? 0x50) || (tag =? 0x42) || (tag =? 0x45) || (tag =? 0x43)
  || (tag =? 0x58).

Definition new_event_meta (k : kenv) : event_meta := {|
  em_timestamp_ns := bpf_ktime_get_ns k;
  em_uid_gid := bpf_get_current_uid_gid k;
  em_cgroup_id := bpf_get_current_cgroup_id k;
  em_comm := bpf_get_current_comm k TASK_COMM_LEN |}.

(** The sample [evt] after the assignments of [emit_pg_event]. *)
Definition fill_event (k : kenv) (key : conn_key) (meta : event_meta)
    (req_len tag buf length : Z) (evt : event) : event := {|
  ev_timestamp_ns := em_timestamp_ns meta;
  ev_pid_tgid := ck_pid_tgid key;
  ev_uid_gid := em_uid_gid meta;
  ev_cgroup_id := em_cgroup_id meta;
  ev_req_len := req_len;
  ev_data_len := length;
  ev_fd := ck_fd key;
  ev_msg_type := tag;
  ev_comm := em_comm meta;
  ev_data := overlay (ev_data evt) (bpf_probe_read_user k length buf).2 |}.

Section Probe.
Context {MI : bpf_map conn_key Z} {RB : bpf_ringbuf event}.

Record state := State { st_inflight : MI; st_events : RB }.

Definition inflight : field state MI := Field st_inflight (fun m s => State m (st_events s)).
Definition events : field state RB := Field st_events (fun r s => State (st_inflight s) r).

Implicit Types k : kenv.

Definition emit_pg_event k (key : conn_key) (meta : event_meta) (req_len tag buf length : Z)
    : prog state Z :=
  evt ← bpf_ringbuf_reserve events sizeof_event 0;
  match evt with
  | None => mret (-1)
  | Some evt =>
      bpf_ringbuf_submit events (fill_event k key meta req_len tag buf length evt) 0;;
      mret 0
  end.

(** The loop body, on the loop variables [buf] and [total_length]. *)
Definition sendto_body k (key : conn_key) (meta : event_meta) (original_req_len : Z)
    (v : Z * Z) : prog state (loop_ctl (Z * Z) Z) :=
  let '(buf, total_length) := v in
  if total_length <? 5 then mret (Break v)
  else
    let '(r, hdr) := bpf_probe_read_user k 5 buf in
    if r <? 0 then mret (Return 0)
    else
      let tag := rd hdr 0 in
      let length := u32 (be32_at hdr 1 - 4) in
      let length := if MAX_BUF_SIZE <? length then MAX_BUF_SIZE else length in
      if length =? 0 then mret (Return 0)
      else if total_length <? u32 (length + 5) then mret (Return 0)
      else
        r ← (if is_supported_pg_msg_type tag
             then emit_pg_event k key meta original_req_len tag (u64 (buf + 5)) length
             else mret 0);
        if negb (r =? 0) then mret (Return 0)
        else mret (Next (u64 (buf + length + 5), u64 (total_length - u32 (length + 5)))).

Definition tracepoint_enter_sendto k (ctx : sendto_ctx) : prog state Z :=
  let key := ConnKey (bpf_get_current_pid_tgid k) (sc_fd ctx) in
  flag ← bpf_map_lookup_elem inflight key;
  match flag with
  | None =>
      let new_flag := detect_startup_flag k (sc_buf ctx) (sc_size ctx) in
      if new_flag =? 0 then mret 0
      else bpf_map_update_elem inflight key new_flag BPF_ANY;; mret 0
  | Some flag =>
      if conn_flag_code CONN_FLAG_GSSENC <? flag then mret 0
      else
        let meta := new_event_meta k in
        bpf_repeat MAX_LOOP (sendto_body k key meta (sc_size ctx)) (sc_buf ctx, sc_size ctx);;
        mret 0
  end.

Definition tracepoint_enter_close k (ctx : close_ctx) : prog state Z :=
  let key := ConnKey (bpf_get_current_pid_tgid k) (cc_fd ctx) in
  flag ← bpf_map_lookup_elem inflight key;
  (match flag with
   | Some _ => bpf_map_delete_elem inflight key;; mret tt
   | None => mret tt
   end);;
  mret 0.

Inductive call :=
  | SysEnterSendto (ctx : sendto_ctx)
  | SysEnterClose (ctx : close_ctx).

Definition handle k (c : call) : prog state Z :=
  match c with
  | SysEnterSendto ctx => tracepoint_enter_sendto k ctx
  | SysEnterClose ctx => tracepoint_enter_close k ctx
  end.
End Probe.

Arguments state : clear implicits.
Arguments sendto_body : simpl never.
Arguments detect_startup_flag : simpl never.
