(* ===== verification/PostgresTheorems.v ===== *)
(** * Postgres probe: theorems

    The classification of connections and the splitting of a send into frontend
    messages, against the encoding of the messages. *)

From S2P Require Import Prelude Helpers RefKernel Postgres.

(** ** Big-endian lengths *)

Definition be32 (z : Z) : list Z :=
  [z / 2 ^ 24 mod 256; z / 2 ^ 16 mod 256; z / 2 ^ 8 mod 256; z mod 256].

Lemma be32_value a b c d :
  byte a -> byte b -> byte c -> byte d ->
  Z.lor (Z.lor (Z.lor (Z.shiftl a 24) (Z.shiftl b 16)) (Z.shiftl c 8)) d =
  a * 2 ^ 24 + b * 2 ^ 16 + c * 2 ^ 8 + d.
Proof.
  unfold byte. intros Ha Hb Hc Hd.
  rewrite (lor_shiftl a (Z.shiftl b 16)) by (rewrite ?Z.shiftl_mul_pow2 by lia; lia).
  replace (Z.shiftl a 24 + Z.shiftl b 16) with (Z.shiftl (a * 2 ^ 8 + b) 16)
    by (rewrite !Z.shiftl_mul_pow2 by lia; lia).
  rewrite (lor_shiftl _ (Z.shiftl c 8)) by (rewrite ?Z.shiftl_mul_pow2 by lia; lia).
  replace (Z.shiftl (a * 2 ^ 8 + b) 16 + Z.shiftl c 8)
    with (Z.shiftl ((a * 2 ^ 8 + b) * 2 ^ 8 + c) 8)
    by (rewrite !Z.shiftl_mul_pow2 by lia; lia).
  rewrite lor_shiftl by lia. rewrite !Z.shiftl_mul_pow2 by lia. lia.
Qed.

Lemma be32_at_be32 p z l :
  0 <= z < 2 ^ 32 -> be32_at (p ++ be32 z ++ l) (length p) = z.
Proof.
  intros Hz. unfold be32_at.
  assert (forall i, rd (p ++ be32 z ++ l) (length p + i) = rd (be32 z ++ l) i) as H
    by (intros i; rewrite rd_app_r by lia; f_equal; lia).
  rewrite <- (Nat.add_0_r (length p)) at 1. rewrite !H.
  unfold be32. cbn [app]. rewrite ?rd_cons_S, !rd_cons_0.
  rewrite be32_value by (apply Z.mod_pos_bound; lia).
  replace (z / 2 ^ 24) with (z / 256 / 256 / 256) by (by rewrite !Z.div_div).
  replace (z / 2 ^ 16) with (z / 256 / 256) by (by rewrite !Z.div_div).
  change (2 ^ 8) with 256. set (q1 := z / 256). set (q2 := q1 / 256). set (q3 := q2 / 256).
  assert (q3 mod 256 = q3) as ->.
  { apply Z.mod_small. unfold q3, q2, q1. rewrite !Z.div_div by lia.
    split; [apply Z.div_pos; lia|apply Z.div_lt_upper_bound; lia]. }
  pose proof (Z.div_mod z 256 ltac:(lia)) as E1. pose proof (Z.div_mod q1 256 ltac:(lia)) as E2.
  pose proof (Z.div_mod q2 256 ltac:(lia)) as E3. fold q1 in E1. fold q2 in E2. fold q3 in E3.
  lia.
Qed.

(** ** Frames *)

(** What the loop takes for one message: a tag, a length field and the bytes
    it advances over. *)
Record frame := Frame { f_tag : Z; f_len : Z; f_body : list Z }.

Definition frame_bytes (f : frame) : list Z := f_tag f :: be32 (f_len f) ++ f_body f.

(** The body length the probe derives from a length field. *)
Definition body_length (field : Z) : Z := Z.min (u32 (field - 4)) MAX_BUF_SIZE.

Definition frame_ok (f : frame) : Prop :=
  0 <= f_len f < 2 ^ 32 /\ body_length (f_len f) = Z.of_nat (length (f_body f)) /\ f_body f <> [].

(** A frontend message: a tag, and a body whose length plus four is the length
    field. *)
Definition message (tag : Z) (body : list Z) : frame :=
  Frame tag (Z.of_nat (length body) + 4) body.

Lemma message_ok tag body :
  0 < Z.of_nat (length body) <= MAX_BUF_SIZE -> frame_ok (message tag body).
Proof.
  intros Hb. unfold MAX_BUF_SIZE in *. split; [simpl; lia|]. split; [|simpl; intros ->; simpl in Hb; lia].
  unfold body_length, MAX_BUF_SIZE. simpl.
  replace (Z.of_nat (length body) + 4 - 4) with (Z.of_nat (length body)) by lia.
  rewrite u32_small by lia. lia.
Qed.

(** The first bytes of a message whose other bytes are yet to be sent. *)
Definition incomplete (l : list Z) : Prop :=
  l = [] \/ exists tag body missing, 0 < Z.of_nat (length body) <= MAX_BUF_SIZE /\ missing <> [] /\
    frame_bytes (message tag body) = l ++ missing.

(** Bytes at which the loop stops: no header, a body it takes for empty, or a body
    longer than what is left.  An incomplete message is one case, a complete message
    with an empty body is another. *)
Definition stops (l : list Z) : Prop :=
  (length l < 5)%nat \/ body_length (be32_at l 1) = 0 \/
  Z.of_nat (length l) < body_length (be32_at l 1) + 5.

Lemma incomplete_stops l : incomplete l -> stops l.
Proof.
  intros [->|(tag & body & missing & Hb & Hm & E)]; [left; simpl; lia|].
  destruct (decide (length l < 5)%nat) as [|Hl]; [by left|]. right. right.
  assert (length l + length missing = 5 + length body)%nat as Hlen by (by rewrite <- length_app, <- E).
  assert (length missing <> 0)%nat by (by destruct missing).
  do 5 (destruct l as [|? l]; [simpl in Hl; lia|]).
  assert (be32_at (z :: z0 :: z1 :: z2 :: z3 :: l) 1 = Z.of_nat (length body) + 4) as ->.
  { transitivity (be32_at ([tag] ++ be32 (Z.of_nat (length body) + 4) ++ body) 1).
    - change ([tag] ++ be32 (Z.of_nat (length body) + 4) ++ body) with (frame_bytes (message tag body)). by rewrite E.
    - apply (be32_at_be32 [tag]). unfold MAX_BUF_SIZE in Hb. lia. }
  destruct (message_ok tag body Hb) as (_ & Hbl & _). cbn [f_body f_len message] in Hbl. rewrite Hbl. lia.
Qed.

Definition supported (f : frame) : Prop := is_supported_pg_msg_type (f_tag f) = true.

#[export] Instance supported_dec f : Decision (supported f).
Proof. unfold supported. apply _. Defined.

Definition payload (e : event) : list Z := take (Z.to_nat (ev_data_len e)) (ev_data e).

(** The event that reports a frame. *)
Definition reports (k : kenv) (key : conn_key) (req_len : Z) (f : frame) (e : event) : Prop :=
  ev_msg_type e = f_tag f /\ payload e = f_body f /\
  ev_data_len e = Z.of_nat (length (f_body f)) /\ ev_req_len e = req_len /\
  ev_pid_tgid e = ck_pid_tgid key /\ ev_fd e = ck_fd key /\
  ev_timestamp_ns e = bpf_ktime_get_ns k.

#[export] Instance pg_events_ok MI RB : FieldOk (events (MI := MI) (RB := RB)).
Proof. field_ok. Qed.

Section Props.
Context {MI : bpf_map conn_key Z} {RB : bpf_ringbuf event}.
Context `{!HashOk MI, !RingbufOk RB}.
Local Abbreviation st := (state MI RB).
Implicit Types (s : st) (k : kenv).

Definition conns (s : st) : gmap conn_key Z := contents (st_inflight s).
Definition evs (s : st) : list event := samples (st_events s).

Section Loop.
Context (k : kenv) (m : mem) (key : conn_key) (req_len : Z).
Context (Hm : UserMem k m).

Local Abbreviation body := (sendto_body (MI := MI) (RB := RB) k key (new_event_meta k) req_len).

(** The buffer at [buf] holds [l] and can be read. *)
Definition holds (buf : Z) (l : list Z) : Prop :=
  0 <= buf /\ buf + Z.of_nat (length l) < 2 ^ 64 /\
  mem_read m buf (length l) = Some l /\ no_fault k buf (Z.of_nat (length l)).

Lemma holds_read buf l i j :
  holds buf l -> 0 <= i -> 0 <= j -> i + j <= Z.of_nat (length l) ->
  bpf_probe_read_user k j (buf + i) = (0, take (Z.to_nat j) (drop (Z.to_nat i) l)).
Proof.
  intros (_ & _ & H1 & H2) Hi Hj Hij.
  apply (user_read_at k m buf (Z.of_nat (length l))); try done. by rewrite Nat2Z.id.
Qed.

Lemma holds_drop buf l l' :
  holds buf (l ++ l') -> holds (buf + Z.of_nat (length l)) l'.
Proof.
  intros (H1 & H2 & H3 & H4). rewrite length_app in *. split; [lia|]. split; [lia|]. split.
  - rewrite (mem_read_sub m buf _ _ (length l) (length l') H3) by lia.
    by rewrite drop_app_length, firstn_all.
  - eapply no_fault_sub; [done|lia|lia].
Qed.

Lemma stops_step buf l s :
  holds buf l -> stops l -> exists c, body (buf, Z.of_nat (length l)) s = (c, s) /\
    match c with Next _ => False | _ => True end.
Proof.
  intros Hl Hs. unfold sendto_body. destruct (Z.ltb_spec (Z.of_nat (length l)) 5); [by eexists|].
  pose proof (holds_read buf l 0 5 Hl) as Hr. rewrite Z.add_0_r in Hr.
  rewrite Hr by lia. change (0 <? 0) with false. cbv iota.
  replace (be32_at (take (Z.to_nat 5) (drop (Z.to_nat 0) l)) 1) with (be32_at l 1).
  2:{ destruct l as [|? [|? [|? [|? [|? l]]]]]; simpl in *; try lia. done. }
  replace (if MAX_BUF_SIZE <? u32 (be32_at l 1 - 4) then MAX_BUF_SIZE else u32 (be32_at l 1 - 4))
    with (body_length (be32_at l 1))
    by (unfold body_length; destruct (Z.ltb_spec MAX_BUF_SIZE (u32 (be32_at l 1 - 4))); lia).
  destruct (Z.eqb_spec (body_length (be32_at l 1)) 0) as [|Hn0]; [by eexists|].
  assert (0 <= body_length (be32_at l 1) <= MAX_BUF_SIZE)
    by (unfold body_length; pose proof (u32_range (be32_at l 1 - 4)); unfold MAX_BUF_SIZE; lia).
  unfold MAX_BUF_SIZE in *. rewrite u32_small by lia.
  destruct Hs as [Hs|[Hs|Hs]]; [lia|done|].
  rewrite (proj2 (Z.ltb_lt _ _)) by lia. by eexists.
Qed.

(** One message: it is reported if its type is supported and there is room,
    and the loop goes on behind it. *)
Lemma frame_step buf f l s :
  holds buf (frame_bytes f ++ l) -> frame_ok f ->
  let total := Z.of_nat (length (frame_bytes f ++ l)) in
  let next := (buf + Z.of_nat (length (frame_bytes f)), Z.of_nat (length l)) in
  if decide (supported f) then
    (exists e0 rb e, ringbuf_reserve (st_events s) sizeof_event 0 = (Some e0, rb) /\
       reports k key req_len f e /\ samples rb = evs s /\
       body (buf, total) s = (Next next, fset events (ringbuf_submit rb e 0) s)) \/
    (exists rb, ringbuf_reserve (st_events s) sizeof_event 0 = (None, rb) /\
       samples rb = evs s /\ body (buf, total) s = (Return 0, fset events rb s))
  else body (buf, total) s = (Next next, s).
Proof.
  intros Hl (Hf1 & Hf2 & Hf3). cbv zeta.
  assert (length (frame_bytes f) = 5 + length (f_body f))%nat as Hlen by done.
  assert (0 < Z.of_nat (length (f_body f)) <= MAX_BUF_SIZE) as Hb.
  { rewrite <- Hf2. unfold body_length. destruct (f_body f); [done|]. simpl in Hf2.
    pose proof (u32_range (f_len f - 4)). unfold body_length in Hf2. lia. }
  pose proof (holds_read buf _ 0 5 Hl) as Hr. rewrite Z.add_0_r in Hr.
  pose proof (holds_read buf _ 5 (Z.of_nat (length (f_body f))) Hl) as Hr2.
  pose proof Hl as (Hl1 & Hl2 & _). rewrite length_app, Hlen in *.
  unfold sendto_body. rewrite (proj2 (Z.ltb_ge _ 5)) by lia. rewrite Hr by lia.
  change (0 <? 0) with false. cbv iota.
  replace (take (Z.to_nat 5) (drop (Z.to_nat 0) (frame_bytes f ++ l)))
    with ([f_tag f] ++ be32 (f_len f) ++ []) by done.
  rewrite (be32_at_be32 [f_tag f]) by done. cbv zeta.
  replace (if MAX_BUF_SIZE <? u32 (f_len f - 4) then MAX_BUF_SIZE else u32 (f_len f - 4))
    with (Z.of_nat (length (f_body f)))
    by (rewrite <- Hf2; unfold body_length;
        destruct (Z.ltb_spec MAX_BUF_SIZE (u32 (f_len f - 4))); lia).
  rewrite (proj2 (Z.eqb_neq _ 0)) by lia. unfold MAX_BUF_SIZE in *.
  rewrite u32_small by lia. rewrite (proj2 (Z.ltb_ge _ _)) by lia.
  change (rd ([f_tag f] ++ be32 (f_len f) ++ []) 0) with (f_tag f).
  replace (buf + Z.of_nat (length (f_body f)) + 5)
    with (buf + Z.of_nat (5 + length (f_body f))) by lia.
  rewrite (u64_small (buf + 5)), (u64_small (buf + Z.of_nat _)), (u64_small (_ - _)) by lia.
  replace (Z.of_nat (5 + length (f_body f) + length l) - (Z.of_nat (length (f_body f)) + 5))
    with (Z.of_nat (length l)) by lia.
  unfold supported. case_decide as Hsup; [rewrite Hsup|apply not_true_is_false in Hsup; rewrite Hsup; by prog_unfold].
  unfold emit_pg_event. prog_unfold. unfold bpf_ringbuf_reserve. cbn [fget events].
  pose proof (reserve_samples (st_events s) sizeof_event 0) as Hs.
  destruct (ringbuf_reserve (st_events s) sizeof_event 0) as [[e0|] rb]; simpl in Hs;
    [left|right; eauto].
  eexists e0, rb, _. split; [done|]. split; [|split; [done|unfold bpf_ringbuf_submit; done]].
  unfold reports, payload, fill_event. simpl.
  split; [done|]. split; [|done]. rewrite Hr2 by lia.
  cbn [snd]. rewrite Nat2Z.id.
  change (drop (Z.to_nat 5) (frame_bytes f ++ l)) with (f_body f ++ l).
  rewrite take_app_length. apply take_overlay.
Qed.

(** The loop over a buffer of messages. *)
Lemma sendto_loop n fs rest buf s :
  Forall frame_ok fs -> stops rest -> holds buf ((fs ≫= frame_bytes) ++ rest) ->
  exists c rb es fs',
    bpf_repeat n body (buf, Z.of_nat (length ((fs ≫= frame_bytes) ++ rest))) s =
      (c, fset events rb s) /\
    samples rb = evs s ++ es /\ Forall2 (reports k key req_len) fs' es /\
    fs' `prefix_of` filter supported (take n fs) /\
    (has_room sizeof_event (length (filter supported (take n fs))) (st_events s) ->
     fs' = filter supported (take n fs)).
Proof.
  intros Hfs Hst. revert fs Hfs buf s. induction n as [|n IH]; intros fs Hfs buf s Hl.
  { eexists _, (st_events s), [], []. rewrite app_nil_r. simpl. by destruct s. }
  cbn [bpf_repeat]. unfold mbind, prog_bind. destruct Hfs as [|f fs Hf Hfs].
  { destruct (stops_step buf rest s Hl Hst) as (c & Hc & Hn). simpl in *. rewrite Hc.
    destruct c; [done|..]; eexists _, (st_events s), [], []; rewrite app_nil_r; by destruct s. }
  rewrite bind_cons, <- app_assoc in *. pose proof (holds_drop _ _ _ Hl) as Hl'.
  pose proof (frame_step buf f ((fs ≫= frame_bytes) ++ rest) s Hl Hf) as Hstep. cbv zeta in Hstep.
  cbn [take]. rewrite filter_cons. destruct (decide (supported f)) as [Hsup|Hsup].
  - destruct Hstep as [(e0 & rb & e & Hres & Hrep & Hs & ->)|(rb & Hres & Hs & ->)].
    + destruct (IH fs Hfs _ (fset events (ringbuf_submit rb e 0) s) Hl')
        as (c & rb' & es & fs' & -> & Hs' & Hes & Hpre & Hroom).
      exists c, rb', (e :: es), (f :: fs'). rewrite fset_fset.
      split; [done|]. split; [|split; [by constructor|split; [by apply prefix_cons|]]].
      * rewrite Hs'. unfold evs. simpl. by rewrite submit_samples, Hs, <- app_assoc.
      * cbn [length has_room]. intros (e1 & rb1 & Hres1 & Hr1). rewrite Hres in Hres1.
        simplify_eq. f_equal. apply Hroom. simpl. apply Hr1.
    + exists (inr 0), rb, [], []. rewrite app_nil_r. split; [done|]. split; [done|].
      split; [constructor|]. split; [apply prefix_nil|].
      cbn [length has_room]. intros (e1 & rb1 & Hres1 & _). rewrite Hres in Hres1. simplify_eq.
  - rewrite Hstep. by apply IH.
Qed.
End Loop.

Lemma sendto_parse k ctx s flag :
  let key := ConnKey (bpf_get_current_pid_tgid k) (sc_fd ctx) in
  conns s !! key = Some flag -> flag <= 3 ->
  exec (handle k (SysEnterSendto ctx)) s =
  exec (bpf_repeat MAX_LOOP (sendto_body k key (new_event_meta k) (sc_size ctx))
          (sc_buf ctx, sc_size ctx)) s.
Proof.
  cbv zeta. unfold conns. intros Hc Hf. unfold handle, tracepoint_enter_sendto. prog_unfold.
  unfold bpf_map_lookup_elem. cbn [fget inflight st_inflight]. rewrite lookup_elem_contents, Hc.
  rewrite (proj2 (Z.ltb_ge _ _)) by (simpl; lia).
  match goal with |- context [bpf_repeat ?n ?b ?v s] => by destruct (bpf_repeat n b v s) end.
Qed.

(** C17. Messages come out as they went in.  A send on a connection that started as
    plaintext, whose buffer is a sequence of frontend messages with bodies of 1 to 16384
    bytes and possibly the first bytes of one more: the probe reports the supported ones
    among the first 64, in order, each with its type and exactly its body, and not the
    incomplete one, as long as the ring buffer has room (and a prefix of that list when
    it runs full).  Messages with an empty or a longer body are outside: the first end the
    parsing of the send, the second lose its place. *)
Theorem pg_send_parsed k m ctx s (ms : list (Z * list Z)) rest :
  let key := ConnKey (bpf_get_current_pid_tgid k) (sc_fd ctx) in
  let frames := (fun p => message p.1 p.2) <$> ms in
  let bytes := (frames ≫= frame_bytes) ++ rest in
  let wanted := filter supported (take 64 frames) in
  conns s !! key = Some (conn_flag_code CONN_FLAG_PLAINTEXT) ->
  UserMem k m -> holds k m (sc_buf ctx) bytes -> sc_size ctx = Z.of_nat (length bytes) ->
  Forall (fun p => 0 < Z.of_nat (length p.2) <= MAX_BUF_SIZE) ms -> incomplete rest ->
  let s' := exec (handle k (SysEnterSendto ctx)) s in
  conns s' = conns s /\
  exists es sent, evs s' = evs s ++ es /\ Forall2 (reports k key (sc_size ctx)) sent es /\
    sent `prefix_of` wanted /\
    (has_room sizeof_event (length wanted) (st_events s) -> sent = wanted).
Proof.
  cbv zeta. intros Hc Hm Hl Hsize Hms Hst%incomplete_stops. rewrite (sendto_parse k ctx s _ Hc) by done.
  rewrite Hsize. set (frames := (fun p => message p.1 p.2) <$> ms) in *.
  assert (Forall frame_ok frames) as Hfs.
  { apply Forall_fmap. eapply Forall_impl; [done|]. intros p. apply message_ok. }
  destruct (sendto_loop k m (ConnKey (bpf_get_current_pid_tgid k) (sc_fd ctx))
    (Z.of_nat (length ((frames ≫= frame_bytes) ++ rest))) Hm MAX_LOOP frames rest
    (sc_buf ctx) s Hfs Hst Hl) as (c & rb & es & sent & E & H1 & H2 & H3 & H4).
  unfold exec. rewrite E. split; [done|]. by exists es, sent.
Qed.

(** A message without a body ends the parsing of the send: whatever follows
    it, and the message itself, is not reported.  That is every Terminate
    (tag X, which the probe lists as supported), Sync and Flush message; a
    pipelined send is reported up to its first Sync. *)
Theorem pg_empty_message_stops k m ctx s flag (ms : list (Z * list Z)) tag rest :
  let key := ConnKey (bpf_get_current_pid_tgid k) (sc_fd ctx) in
  let frames := (fun p => message p.1 p.2) <$> ms in
  let bytes := (frames ≫= frame_bytes) ++ frame_bytes (message tag []) ++ rest in
  conns s !! key = Some flag -> flag <= 3 ->
  UserMem k m -> holds k m (sc_buf ctx) bytes -> sc_size ctx = Z.of_nat (length bytes) ->
  Forall (fun p => 0 < Z.of_nat (length p.2) <= MAX_BUF_SIZE) ms ->
  let s' := exec (handle k (SysEnterSendto ctx)) s in
  exists es sent, evs s' = evs s ++ es /\ Forall2 (reports k key (sc_size ctx)) sent es /\
    sent `prefix_of` filter supported frames.
Proof.
  cbv zeta. intros Hc Hflag Hm Hl Hsize Hms. rewrite (sendto_parse k ctx s flag) by done.
  rewrite Hsize. set (frames := (fun p => message p.1 p.2) <$> ms) in *.
  assert (Forall frame_ok frames) as Hfs.
  { apply Forall_fmap. eapply Forall_impl; [done|]. intros p. apply message_ok. }
  assert (stops (frame_bytes (message tag []) ++ rest)) as Hst.
  { right. left. change (frame_bytes (message tag []) ++ rest) with ([tag] ++ be32 4 ++ rest).
    by rewrite (be32_at_be32 [tag]). }
  destruct (sendto_loop k m (ConnKey (bpf_get_current_pid_tgid k) (sc_fd ctx))
    (Z.of_nat (length ((frames ≫= frame_bytes) ++ frame_bytes (message tag []) ++ rest)))
    Hm MAX_LOOP frames _ (sc_buf ctx) s Hfs Hst Hl) as (c & rb & es & sent & E & H1 & H2 & H3 & H4).
  unfold exec. rewrite E. exists es, sent. split; [done|]. split; [done|].
  etrans; [exact H3|]. rewrite <- (take_drop MAX_LOOP frames) at 2.
  rewrite filter_app. by apply prefix_app_r.
Qed.

(** A message with a body of more than 16384 bytes is cut, and the probe
    then reads the rest of its body as if it were messages: a body that holds
    16384 bytes and then the encodings of messages makes it report those as
    messages of their own. *)
Theorem pg_oversized_message_desync k m ctx s flag (ms : list (Z * list Z)) tag head :
  let key := ConnKey (bpf_get_current_pid_tgid k) (sc_fd ctx) in
  let inner := (fun p => message p.1 p.2) <$> ms in
  let body := head ++ (inner ≫= frame_bytes) in
  let bytes := frame_bytes (message tag body) in
  conns s !! key = Some flag -> flag <= 3 ->
  UserMem k m -> holds k m (sc_buf ctx) bytes -> sc_size ctx = Z.of_nat (length bytes) ->
  is_supported_pg_msg_type tag = true -> Z.of_nat (length head) = MAX_BUF_SIZE ->
  ms <> [] -> (length ms < 64)%nat -> Z.of_nat (length body) < 2 ^ 32 - 4 ->
  Forall (fun p => 0 < Z.of_nat (length p.2) <= MAX_BUF_SIZE) ms ->
  has_room sizeof_event (S (length (filter supported inner))) (st_events s) ->
  let s' := exec (handle k (SysEnterSendto ctx)) s in
  exists e es, evs s' = evs s ++ e :: es /\
    ev_msg_type e = tag /\ payload e = head /\
    Forall2 (reports k key (sc_size ctx)) (filter supported inner) es.
Proof.
  cbv zeta. intros Hc Hflag Hm Hl Hsize Htag Hhead Hms1 Hms2 Hlen Hms Hroom.
  rewrite (sendto_parse k ctx s flag) by done. rewrite Hsize.
  set (inner := (fun p => message p.1 p.2) <$> ms) in *.
  set (body := head ++ (inner ≫= frame_bytes)) in *.
  set (first := Frame tag (Z.of_nat (length body) + 4) head).
  assert (Forall frame_ok (first :: inner)) as Hfs.
  { constructor.
    - split; [simpl; lia|]. split; [|simpl; intros ->; done].
      unfold body_length. simpl. rewrite Hhead.
      replace (Z.of_nat (length body) + 4 - 4) with (Z.of_nat (length body)) by lia.
      rewrite u32_small by lia. unfold body. rewrite length_app. lia.
    - apply Forall_fmap. eapply Forall_impl; [done|]. intros p. apply message_ok. }
  assert (frame_bytes (message tag body) = ((first :: inner) ≫= frame_bytes) ++ []) as Eb.
  { rewrite app_nil_r, bind_cons. unfold frame_bytes, message, first, body. simpl. done. }
  rewrite Eb in *.
  destruct (sendto_loop k m (ConnKey (bpf_get_current_pid_tgid k) (sc_fd ctx))
    (Z.of_nat (length (((first :: inner) ≫= frame_bytes) ++ [])))
    Hm MAX_LOOP (first :: inner) [] (sc_buf ctx) s Hfs) as
    (c & rb & es & sent & E & H1 & H2 & H3 & H4); [by left; simpl; lia|done|].
  assert (take MAX_LOOP (first :: inner) = first :: inner) as Et.
  { apply take_ge. unfold inner. simpl. rewrite length_fmap. unfold MAX_LOOP. lia. }
  rewrite Et in *. rewrite filter_cons_True in * by done. specialize (H4 Hroom). subst sent.
  inversion H2 as [|? e ? es' Hrep Hes]; subst. unfold exec. rewrite E.
  exists e, es'. split; [done|]. destruct Hrep as (R1 & R2 & _). done.
Qed.

(** ** Connections *)

(** The class of a connection from the protocol word of its first packet: a
    3.x startup message, an SSL request, a GSS encryption request, or neither. *)
Definition classify (protocol : Z) : conn_flag :=
  if protocol / 2 ^ 16 =? 3 then CONN_FLAG_PLAINTEXT
  else if protocol =? 80877103 then CONN_FLAG_SSL
  else if protocol =? 80877104 then CONN_FLAG_GSSENC else CONN_FLAG_OTHER.

Lemma detect_startup_spec k m buf len protocol rest :
  UserMem k m -> holds k m buf (be32 len ++ be32 protocol ++ rest) -> 0 <= protocol < 2 ^ 32 ->
  detect_startup_flag k buf (Z.of_nat (length (be32 len ++ be32 protocol ++ rest))) =
  conn_flag_code (classify protocol).
Proof.
  intros Hm Hl Hp. unfold detect_startup_flag.
  pose proof (holds_read k m Hm buf _ 0 8 Hl) as Hr. rewrite Z.add_0_r in Hr.
  rewrite (proj2 (Z.ltb_ge _ 8)) by (simpl; lia). rewrite Hr by (simpl; lia).
  change (0 <? 0) with false. cbv iota.
  change (take (Z.to_nat 8) (drop (Z.to_nat 0) (be32 len ++ be32 protocol ++ rest)))
    with (be32 len ++ be32 protocol ++ []).
  pose proof (be32_at_be32 (be32 len) protocol [] Hp) as E.
  change (length (be32 len)) with 4%nat in E. rewrite E, u32_small by lia.
  unfold classify. rewrite Z.shiftr_div_pow2 by lia. cbv zeta.
  destruct (protocol / 2 ^ 16 =? 3); [done|]. by repeat case_match.
Qed.

(** The first send on a connection classifies it by its protocol word and
    is not reported. *)
Theorem pg_startup_classified k m ctx s len protocol rest :
  let key := ConnKey (bpf_get_current_pid_tgid k) (sc_fd ctx) in
  let bytes := be32 len ++ be32 protocol ++ rest in
  let flag := conn_flag_code (classify protocol) in
  conns s !! key = None -> UserMem k m -> holds k m (sc_buf ctx) bytes ->
  sc_size ctx = Z.of_nat (length bytes) -> 0 <= protocol < 2 ^ 32 ->
  (update_elem (st_inflight s) key flag BPF_ANY).1 = 0 ->
  let s' := exec (handle k (SysEnterSendto ctx)) s in
  conns s' = <[key := flag]> (conns s) /\ evs s' = evs s.
Proof.
  cbv zeta. intros Hc Hm Hl Hsize Hp Hup. unfold conns in *.
  unfold handle, tracepoint_enter_sendto. prog_unfold.
  unfold bpf_map_lookup_elem. cbn [fget inflight st_inflight]. rewrite lookup_elem_contents, Hc.
  rewrite Hsize, (detect_startup_spec k m) by done.
  replace (conn_flag_code (classify protocol) =? 0) with false
    by (by destruct (classify protocol)).
  unfold bpf_map_update_elem. simpl. pose proof (hash_update_ok _ _ _ Hup) as H.
  by destruct (update_elem _ _ _ _).
Qed.

(** A connection that is not Postgres is left alone: as long as it is
    classified so, its sends change nothing and are not reported. *)
Theorem pg_other_ignored k ctx s :
  conns s !! ConnKey (bpf_get_current_pid_tgid k) (sc_fd ctx) =
    Some (conn_flag_code CONN_FLAG_OTHER) ->
  handle k (SysEnterSendto ctx) s = (0, s).
Proof.
  unfold conns. intros Hc. unfold handle, tracepoint_enter_sendto. prog_unfold.
  unfold bpf_map_lookup_elem. cbn [fget inflight st_inflight].
  by rewrite lookup_elem_contents, Hc.
Qed.

(** A close forgets the connection and reports nothing. *)
Lemma pg_close_contents k ctx s :
  let s' := exec (handle k (SysEnterClose ctx)) s in
  conns s' = delete (ConnKey (bpf_get_current_pid_tgid k) (cc_fd ctx)) (conns s) /\
  evs s' = evs s.
Proof.
  cbv zeta. unfold conns. simpl. unfold tracepoint_enter_close. prog_unfold.
  unfold bpf_map_lookup_elem. simpl. rewrite lookup_elem_contents.
  destruct (contents (st_inflight s) !! _) eqn:E; [|simpl; by rewrite delete_id].
  unfold bpf_map_delete_elem. simpl.
  match goal with |- context [delete_elem ?x ?y] =>
    pose proof (hash_delete_contents x y); by destruct (delete_elem x y) end.
Qed.

(** ** Invariant *)

Definition event_ok (e : event) : Prop :=
  is_supported_pg_msg_type (ev_msg_type e) = true /\ 0 < ev_data_len e <= MAX_BUF_SIZE.

(** The invariant of the maps, with a property [P] of the events. *)
Definition pg_inv_with (P : event -> Prop) (s : st) : Prop :=
  map_Forall (fun _ flag => 1 <= flag <= 4) (conns s) /\ Forall P (evs s).

Definition pg_inv : st -> Prop := pg_inv_with event_ok.

(** Whatever invocation [k] makes of a sample has the property. *)
Definition fills (P : event -> Prop) (k : kenv) : Prop :=
  forall key req_len tag buf l evt, is_supported_pg_msg_type tag = true -> 0 < l <= MAX_BUF_SIZE ->
    (exists r n fl, (ringbuf_reserve (b := RB) r n fl).1 = Some evt) ->
    P (fill_event k key (new_event_meta k) req_len tag buf l evt).

Lemma sendto_body_inv P k key req_len v s :
  fills P k -> pg_inv_with P s ->
  match sendto_body (MI := MI) (RB := RB) k key (new_event_meta k) req_len v s with
  | (_, s') => pg_inv_with P s'
  end.
Proof.
  intros HP HI. destruct v as [buf total]. unfold sendto_body.
  destruct (total <? 5); [done|]. destruct (bpf_probe_read_user k 5 buf) as [r hdr].
  destruct (r <? 0); [done|]. cbv zeta.
  set (l := if MAX_BUF_SIZE <? u32 (be32_at hdr 1 - 4) then MAX_BUF_SIZE else _).
  assert (0 <= l <= MAX_BUF_SIZE).
  { unfold l. pose proof (u32_range (be32_at hdr 1 - 4)).
    destruct (Z.ltb_spec MAX_BUF_SIZE (u32 (be32_at hdr 1 - 4))); unfold MAX_BUF_SIZE in *; lia. }
  destruct (Z.eqb_spec l 0); [done|]. destruct (total <? u32 (l + 5)); [done|].
  prog_unfold. destruct (is_supported_pg_msg_type (rd hdr 0)) eqn:Et; [|done].
  unfold emit_pg_event. prog_unfold. unfold bpf_ringbuf_reserve. simpl.
  pose proof (reserve_samples (st_events s) sizeof_event 0) as Hs.
  destruct (ringbuf_reserve (st_events s) sizeof_event 0) as [[e|] rb] eqn:Er; simpl in *.
  - destruct HI as [H1 H2]. split; [done|]. unfold evs in *. simpl.
    rewrite submit_samples, Hs. apply Forall_app_2; [done|]. constructor; [|constructor].
    apply HP; [done|lia|]. eexists _, _, _. by rewrite Er.
  - destruct HI as [H1 H2]. split; [done|]. unfold evs in *. simpl. by rewrite Hs.
Qed.

Lemma detect_startup_range k buf size : 0 <= detect_startup_flag k buf size <= 4.
Proof.
  unfold detect_startup_flag. destruct (size <? 8); [lia|].
  destruct (bpf_probe_read_user k 8 buf). repeat case_match; simpl; lia.
Qed.

Lemma pg_handle_inv P k c s :
  fills P k -> pg_inv_with P s -> pg_inv_with P (exec (handle k c) s).
Proof.
  intros HP HI. destruct c as [ctx|ctx].
  2:{ destruct (pg_close_contents k ctx s) as [H1 H2]. split; [|by rewrite H2; apply HI].
      rewrite H1. apply map_Forall_delete, HI. }
  unfold handle, tracepoint_enter_sendto. prog_unfold.
  unfold bpf_map_lookup_elem. cbn [fget inflight st_inflight]. rewrite lookup_elem_contents.
  destruct (contents (st_inflight s) !! _) as [flag|] eqn:E.
  - destruct (conn_flag_code CONN_FLAG_GSSENC <? flag); [done|].
    match goal with |- context [bpf_repeat ?n ?b ?v s] =>
      pose proof (bpf_repeat_invariant (fun _ => pg_inv_with P) (fun _ => pg_inv_with P) n b v s)
        as H;
      destruct (bpf_repeat n b v s) as [[?|?] ?] end;
      (apply H; [|done]; intros v' s'' HI'';
       pose proof (sendto_body_inv P k (ConnKey (bpf_get_current_pid_tgid k) (sc_fd ctx))
         (sc_size ctx) v' s'' HP HI'') as Hb;
       by destruct (sendto_body k _ _ _ v' s'') as [[]]).
  - destruct (Z.eqb_spec (detect_startup_flag k (sc_buf ctx) (sc_size ctx)) 0); [done|].
    pose proof (detect_startup_range k (sc_buf ctx) (sc_size ctx)).
    unfold bpf_map_update_elem. simpl. destruct HI as [H1 H2].
    match goal with |- context [update_elem ?x ?y ?z ?w] =>
      pose proof (map_Forall_update (fun _ flag => 1 <= flag <= 4) x y z) as Hu;
      destruct (update_elem x y z w) end.
    split; [|done]. apply Hu; [lia|done].
Qed.

(** The invariant holds along every trace of invocations that fill so. *)
Lemma pg_trace_inv P (tr : list (kenv * call)) s :
  Forall (fun kc => fills P kc.1) tr -> conns s = ∅ -> evs s = [] ->
  pg_inv_with P (run ((fun kc => handle kc.1 kc.2) <$> tr) s).
Proof.
  intros Htr H1 H2. apply run_invariant.
  - apply Forall_fmap. eapply Forall_impl; [done|]. intros kc HP s' HI. by apply pg_handle_inv.
  - unfold pg_inv_with. rewrite H1, H2. split; [apply map_Forall_empty|constructor].
Qed.

(** Over any interleaving of sends and closes, from empty maps, every
    connection has one of the four classes and every event is of a supported
    message type and holds 1 to 16384 bytes. *)
Theorem pg_invariant (tr : list (kenv * call)) s :
  conns s = ∅ -> evs s = [] -> pg_inv (run ((fun kc => handle kc.1 kc.2) <$> tr) s).
Proof.
  intros H1 H2. apply pg_trace_inv; [|done..]. apply Forall_true.
  intros kc key req_len tag buf l evt Ht Hl _. by split.
Qed.
End Props.

(** ** Witnesses *)

Module Demo.

Definition uninit : event := Event 0 0 0 0 0 0 0 0 [] [].
Definition conns_map := ref_hash conn_key Z (Z.to_nat MAX_ENTRIES).
Definition ring := ref_ringbuf event uninit.

Definition init : state conns_map ring :=
  State (MI := conns_map) (RB := ring) ∅ ([], []).

Definition pid : Z := 1000 * 2 ^ 32 + 1001.
Definition key : conn_key := ConnKey pid 5.

(** A connection after its startup message. *)
Definition started : state conns_map ring :=
  State (MI := conns_map) (RB := ring) {[key := 1]} ([], []).

Definition query : list Z := str "select 1" ++ [0].

(** The task with [bytes] at address 4096. *)
Definition k (bytes : list Z) : kenv := ref_kenv (mem_at 4096 bytes) 10 pid 0 1 0 "psql".
Definition send (bytes : list Z) : sendto_ctx :=
  SendtoCtx 0 44 5 4096 (Z.of_nat (length bytes)) 0 0 0.

End Demo.

(** A buffer in the memory of the reference kernel can be read. *)
Lemma ref_holds now pid uid cg task name a bs :
  0 <= a -> a + Z.of_nat (length bs) < 2 ^ 64 ->
  holds (ref_kenv (mem_at a bs) now pid uid cg task name) (mem_at a bs) a bs.
Proof.
  intros Ha Hb. split; [done|]. split; [done|]. split; [apply mem_read_at|].
  apply (ref_no_fault _ _ _ _ _ _ _ _ _ bs); [lia|]. rewrite Nat2Z.id. apply mem_read_at.
Qed.

Lemma length_message tag body : length (frame_bytes (message tag body)) = (5 + length body)%nat.
Proof. done. Qed.

Lemma pg_send_parsed_witness :
  let bytes := frame_bytes (message 81 Demo.query) ++ frame_bytes (message 80 [1]) ++ [81; 0; 0] in
  exists es sent,
    evs (exec (handle (Demo.k bytes) (SysEnterSendto (Demo.send bytes))) Demo.started) = es /\
    Forall2 (reports (Demo.k bytes) Demo.key (sc_size (Demo.send bytes))) sent es /\
    sent `prefix_of` [message 81 Demo.query; message 80 [1]].
Proof.
  set (bytes := frame_bytes (message 81 Demo.query) ++ frame_bytes (message 80 [1]) ++ [81; 0; 0]).
  destruct (pg_send_parsed (Demo.k bytes) (mem_at 4096 bytes) (Demo.send bytes) Demo.started
    [(81, Demo.query); (80, [1])] [81; 0; 0]) as (_ & es & sent & H1 & H2 & H3 & _).
  - reflexivity.
  - apply _.
  - apply ref_holds; [discriminate|vm_compute; reflexivity].
  - reflexivity.
  - repeat constructor; vm_compute; congruence.
  - right. exists 81, [1], [0; 5; 1]. split; [split; vm_compute; congruence|]. split; [discriminate|reflexivity].
  - exists es, sent. split; [exact H1|]. split; [exact H2|exact H3].
Defined.

(** A pipelined query: Parse, Sync, Terminate. *)
Lemma pg_empty_message_stops_witness :
  let bytes := frame_bytes (message 80 [1]) ++ frame_bytes (message 83 []) ++
    frame_bytes (message 88 []) in
  exists es sent,
    evs (exec (handle (Demo.k bytes) (SysEnterSendto (Demo.send bytes))) Demo.started) = es /\
    Forall2 (reports (Demo.k bytes) Demo.key 16) sent es /\ sent `prefix_of` [message 80 [1]].
Proof.
  set (bytes := frame_bytes (message 80 [1]) ++ frame_bytes (message 83 []) ++
    frame_bytes (message 88 [])).
  destruct (pg_empty_message_stops (Demo.k bytes) (mem_at 4096 bytes) (Demo.send bytes)
    Demo.started 1 [(80, [1])] 83 (frame_bytes (message 88 []))) as (es & sent & H1 & H2 & H3).
  - reflexivity.
  - discriminate.
  - apply _.
  - apply ref_holds; [discriminate|vm_compute; reflexivity].
  - reflexivity.
  - repeat constructor; vm_compute; congruence.
  - exists es, sent. split; [exact H1|]. split; [exact H2|exact H3].
Defined.

(** A query whose text hides the encoding of another query. *)
Lemma pg_oversized_message_desync_witness :
  let body := replicate (Z.to_nat MAX_BUF_SIZE) 97 ++ frame_bytes (message 81 Demo.query) in
  let bytes := frame_bytes (message 81 body) in
  exists e es,
    evs (exec (handle (Demo.k bytes) (SysEnterSendto (Demo.send bytes))) Demo.started) = e :: es /\
    Forall2 (reports (Demo.k bytes) Demo.key (sc_size (Demo.send bytes)))
      [message 81 Demo.query] es.
Proof.
  cbv zeta. set (head := replicate (Z.to_nat MAX_BUF_SIZE) 97).
  assert (Z.of_nat (length head) = MAX_BUF_SIZE) as Hl
    by (unfold head; rewrite length_replicate; apply Z2Nat.id; discriminate).
  revert Hl. generalize head. clear head. intros head Hl.
  set (body := head ++ frame_bytes (message 81 Demo.query)).
  assert (Z.of_nat (length body) = MAX_BUF_SIZE + 14) as Hb
    by (unfold body; rewrite length_app, length_message; change (length Demo.query) with 9%nat; lia).
  set (bytes := frame_bytes (message 81 body)).
  destruct (pg_oversized_message_desync (Demo.k bytes) (mem_at 4096 bytes) (Demo.send bytes)
    Demo.started 1 [(81, Demo.query)] 81 head) as (e & es & H1 & _ & _ & H2).
  - reflexivity.
  - discriminate.
  - apply _.
  - apply ref_holds; [discriminate|]. change (4096 + Z.of_nat (5 + length body) < 2 ^ 64).
    unfold MAX_BUF_SIZE in Hb. lia.
  - reflexivity.
  - reflexivity.
  - exact Hl.
  - discriminate.
  - cbv; lia.
  - change (Z.of_nat (length body) < 2 ^ 32 - 4). rewrite Hb. reflexivity.
  - repeat constructor; vm_compute; congruence.
  - apply ref_has_room.
  - exists e, es. split; [exact H1|exact H2].
Defined.

Lemma pg_startup_classified_witness :
  let bytes := be32 8 ++ be32 196610 in
  conns (exec (handle (Demo.k bytes) (SysEnterSendto (Demo.send bytes))) Demo.init) =
  <[Demo.key := 1]> ∅.
Proof.
  apply (pg_startup_classified (Demo.k (be32 8 ++ be32 196610)) (mem_at 4096 (be32 8 ++ be32 196610))
    (Demo.send (be32 8 ++ be32 196610)) Demo.init 8 196610 []).
  - reflexivity.
  - apply _.
  - apply ref_holds; [discriminate|vm_compute; reflexivity].
  - reflexivity.
  - split; [discriminate|reflexivity].
  - vm_compute; reflexivity.
Defined.

Lemma pg_other_ignored_witness :
  let s := State (MI := Demo.conns_map) (RB := Demo.ring) {[Demo.key := 4]} ([], []) in
  handle (Demo.k Demo.query) (SysEnterSendto (Demo.send Demo.query)) s = (0, s).
Proof. apply pg_other_ignored. reflexivity. Defined.

Lemma pg_invariant_witness :
  pg_inv (run ((fun kc => handle kc.1 kc.2) <$>
    [(Demo.k Demo.query, SysEnterSendto (Demo.send Demo.query));
     (Demo.k Demo.query, SysEnterClose (CloseCtx 0 3 5))]) Demo.init).
Proof. apply pg_invariant; reflexivity. Defined.
