(* ===== verification/CoreRead.v ===== *)
(** * Relocatable reads

    [headers/bpf_core_read.h]: pointer chasing with [BPF_CORE_READ] and its
    variants, and the bit-field accessors.  The relocations themselves (offset,
    size and shifts of a field in the running kernel) are computed when the
    program is loaded and are parameters here. *)

From S2P Require Import Prelude Helpers.

(** ** Relocations *)

Inductive bpf_field_info_kind :=
  | BPF_FIELD_BYTE_OFFSET
  | BPF_FIELD_BYTE_SIZE
  | BPF_FIELD_EXISTS
  | BPF_FIELD_SIGNED
  | BPF_FIELD_LSHIFT_U64
  | BPF_FIELD_RSHIFT_U64.

(** [__builtin_preserve_field_info] on one field: what the loader puts in for
    each kind of information. *)
Definition field_info : Type := bpf_field_info_kind -> Z.

(** [__CORE_RELO(src, field, info)]. *)
Definition CORE_RELO (fld : field_info) (info : bpf_field_info_kind) : Z := u32 (fld info).

(** The accessors that yield one piece of information on a field. *)
Definition bpf_core_field_exists (fld : field_info) : Z := CORE_RELO fld BPF_FIELD_EXISTS.
Definition bpf_core_field_size (fld : field_info) : Z := CORE_RELO fld BPF_FIELD_BYTE_SIZE.
Definition bpf_core_field_offset (fld : field_info) : Z := CORE_RELO fld BPF_FIELD_BYTE_OFFSET.

(** ** Bit fields *)

(** [val <<= lshift] and the arithmetic or logical shift right. *)
Definition extract (fld : field_info) (val : Z) : Z :=
  let val := u64 (Z.shiftl val (CORE_RELO fld BPF_FIELD_LSHIFT_U64)) in
  if negb (CORE_RELO fld BPF_FIELD_SIGNED =? 0)
  then u64 (Z.shiftr (s64 val) (CORE_RELO fld BPF_FIELD_RSHIFT_U64))
  else Z.shiftr val (CORE_RELO fld BPF_FIELD_RSHIFT_U64).

(** [__CORE_BITFIELD_PROBE_READ(&val, s, field)] with [val = 0] before, on a
    little-endian target: the low bytes of [val] are overwritten. *)
Definition bitfield_probe_read (k : kenv) (s : Z) (fld : field_info) : Z :=
  le_decode (overlay (zeros 8)
    (bpf_probe_read_kernel k (CORE_RELO fld BPF_FIELD_BYTE_SIZE)
       (u64 (s + CORE_RELO fld BPF_FIELD_BYTE_OFFSET))).2).

Definition BPF_CORE_READ_BITFIELD_PROBED (k : kenv) (s : Z) (fld : field_info) : Z :=
  extract fld (bitfield_probe_read k s fld).

(** The storage unit at [p]: the [switch] of the direct accessors.  [obj] is
    the object, [p] an offset in it. *)
Definition load (obj : list Z) (p size : Z) : Z :=
  if (size =? 1) || (size =? 2) || (size =? 4) || (size =? 8)
  then le_decode (take (Z.to_nat size) (drop (Z.to_nat p) obj)) else 0.

Definition store (obj : list Z) (p size val : Z) : list Z :=
  if (size =? 1) || (size =? 2) || (size =? 4) || (size =? 8)
  then take (Z.to_nat p) obj ++ overlay (drop (Z.to_nat p) obj) (le_encode (Z.to_nat size) val)
  else obj.

Definition BPF_CORE_READ_BITFIELD (obj : list Z) (fld : field_info) : Z :=
  let p := CORE_RELO fld BPF_FIELD_BYTE_OFFSET in
  extract fld (load obj p (CORE_RELO fld BPF_FIELD_BYTE_SIZE)).

(** [(~0ULL << rshift) >> lshift]. *)
Definition bitfield_mask (fld : field_info) : Z :=
  Z.shiftr (u64 (Z.shiftl (2 ^ 64 - 1) (CORE_RELO fld BPF_FIELD_RSHIFT_U64)))
    (CORE_RELO fld BPF_FIELD_LSHIFT_U64).

(** [(val & ~mask) | ((nval << rpad) & mask)]. *)
Definition insert_bits (fld : field_info) (val nval : Z) : Z :=
  let mask := bitfield_mask fld in
  let rpad := u32 (CORE_RELO fld BPF_FIELD_RSHIFT_U64 - CORE_RELO fld BPF_FIELD_LSHIFT_U64) in
  Z.lor (Z.land val (Z.lxor (2 ^ 64 - 1) mask)) (Z.land (u64 (Z.shiftl nval rpad)) mask).

Definition BPF_CORE_WRITE_BITFIELD (obj : list Z) (fld : field_info) (new_val : Z) : list Z :=
  let p := CORE_RELO fld BPF_FIELD_BYTE_OFFSET in
  let byte_size := CORE_RELO fld BPF_FIELD_BYTE_SIZE in
  store obj p byte_size (insert_bits fld (load obj p byte_size) (u64 new_val)).

(** ** Pointer chasing *)

(** [___nth], [___narg] (up to ten arguments) and [___empty]. *)
Definition nth_arg {A} (l : list A) : option A := l !! 11%nat.

Definition narg {A} (args : list A) : option nat :=
  mjoin (nth_arg (None :: ((fun _ => None) <$> args) ++ (Some <$> rev (seq 0 11)))).

(** 0 for no argument, N ([true]) for one to ten. *)
Definition is_N {A} (args : list A) : option bool :=
  mjoin (nth_arg (None :: ((fun _ => None) <$> args) ++ replicate 10 (Some true) ++ [Some false])).

(** [___last] and [___nolast], through [___apply] on the number of arguments;
    the numbered macros exist from 1 and 2 on. *)
Definition last_arg {A} (args : list A) : option A :=
  match narg args with
  | Some n => if (n =? 0)%nat then None else last args
  | None => None
  end.

Definition nolast {A} (args : list A) : option (list A) :=
  match narg args with
  | Some n => if (n <? 2)%nat then None else Some (take (n - 1) args)
  | None => None
  end.

(** A read primitive: size and address to result and bytes. *)
Definition read_fn : Type := Z -> Z -> Z * list Z.

(** [___read(fn, dst, type, src, accessor)]: an accessor is the offset that its
    relocation yields. *)
Definition read (fn : read_fn) (size src accessor : Z) : Z * list Z :=
  fn size (u64 (src + accessor)).

(** [___rd_pN]: the local [__t] after the reads of the inner pointers; the
    results of the reads are not looked at. *)
Fixpoint rd_ptrs (fn : read_fn) (t : Z) (accessors : list Z) : Z :=
  match accessors with
  | [] => t
  | a :: accessors' => rd_ptrs fn (le_decode (read fn 8 t a).2) accessors'
  end.

(** [___read_ptrs], defined for one to nine accessors. *)
Definition read_ptrs (fn : read_fn) (src : Z) (accessors : list Z) : option Z :=
  match narg accessors with
  | Some n => if (1 <=? n)%nat && (n <=? 9)%nat then Some (rd_ptrs fn src accessors) else None
  | None => None
  end.

(** [___core_read]: [___core_read0] for one accessor, [___core_readN] for
    more. *)
Definition core_read (fn fn_ptr : read_fn) (size src a : Z) (args : list Z)
    : option (Z * list Z) :=
  match is_N args with
  | Some false => Some (read fn size src a)
  | Some true =>
      match nolast (a :: args), last_arg (a :: args) with
      | Some ptrs, Some l =>
          match read_ptrs fn_ptr src ptrs with
          | Some t => Some (read fn size t l)
          | None => None
          end
      | _, _ => None
      end
  | None => None
  end.

(** The primitives behind the macros: [bpf_core_read] and its kin are the probe
    reads at a relocated address. *)
Definition bpf_core_read (k : kenv) : read_fn := bpf_probe_read_kernel k.
Definition bpf_core_read_user (k : kenv) : read_fn := bpf_probe_read_user k.
Definition bpf_core_read_str (k : kenv) : read_fn := bpf_probe_read_kernel_str k.
Definition bpf_core_read_user_str (k : kenv) : read_fn := bpf_probe_read_user_str k.

Definition BPF_CORE_READ_INTO (k : kenv) (size src a : Z) (args : list Z) :=
  core_read (bpf_core_read k) (bpf_core_read k) size src a args.
Definition BPF_CORE_READ_USER_INTO (k : kenv) (size src a : Z) (args : list Z) :=
  core_read (bpf_core_read_user k) (bpf_core_read_user k) size src a args.
Definition BPF_PROBE_READ_INTO (k : kenv) (size src a : Z) (args : list Z) :=
  core_read (bpf_probe_read_kernel k) (bpf_probe_read_kernel k) size src a args.
Definition BPF_PROBE_READ_USER_INTO (k : kenv) (size src a : Z) (args : list Z) :=
  core_read (bpf_probe_read_user k) (bpf_probe_read_user k) size src a args.
Definition BPF_CORE_READ_STR_INTO (k : kenv) (size src a : Z) (args : list Z) :=
  core_read (bpf_core_read_str k) (bpf_core_read k) size src a args.
Definition BPF_CORE_READ_USER_STR_INTO (k : kenv) (size src a : Z) (args : list Z) :=
  core_read (bpf_core_read_user_str k) (bpf_core_read_user k) size src a args.
Definition BPF_PROBE_READ_STR_INTO (k : kenv) (size src a : Z) (args : list Z) :=
  core_read (bpf_probe_read_kernel_str k) (bpf_probe_read_kernel k) size src a args.
Definition BPF_PROBE_READ_USER_STR_INTO (k : kenv) (size src a : Z) (args : list Z) :=
  core_read (bpf_probe_read_user_str k) (bpf_probe_read_user k) size src a args.

(** [___type((src), a, ...)] goes through [___arrow], which takes the source
    and up to nine accessors. *)
Definition type_ok (args : list Z) : bool :=
  match narg args with Some n => (1 <=? n)%nat | None => false end.

(** The value of [BPF_CORE_READ] and its variants, as the bytes of [__r]. *)
Definition BPF_CORE_READ (k : kenv) (size src a : Z) (args : list Z) : option (list Z) :=
  if type_ok (src :: a :: args) then snd <$> BPF_CORE_READ_INTO k size src a args else None.
Definition BPF_CORE_READ_USER (k : kenv) (size src a : Z) (args : list Z) : option (list Z) :=
  if type_ok (src :: a :: args) then snd <$> BPF_CORE_READ_USER_INTO k size src a args else None.
Definition BPF_PROBE_READ (k : kenv) (size src a : Z) (args : list Z) : option (list Z) :=
  if type_ok (src :: a :: args) then snd <$> BPF_PROBE_READ_INTO k size src a args else None.
Definition BPF_PROBE_READ_USER (k : kenv) (size src a : Z) (args : list Z) : option (list Z) :=
  if type_ok (src :: a :: args) then snd <$> BPF_PROBE_READ_USER_INTO k size src a args else None.
