(* ===== verification/CoreReadTheorems.v ===== *)
(** * Relocatable reads: theorems

    [BPF_CORE_READ] follows the pointers as the C expression it stands for, and
    the bit-field accessors read and write exactly the bits of the field. *)

From S2P Require Import Prelude Helpers RefKernel CoreRead.

(** ** Pointer chasing *)

Lemma narg_spec {A} (args : list A) :
  narg args = if decide (length args <= 10)%nat then Some (length args) else None.
Proof.
  do 11 (destruct args as [|? args]; [by vm_compute|]).
  rewrite decide_False by (simpl; lia). done.
Qed.

Lemma is_N_spec {A} (args : list A) :
  (length args <= 10)%nat -> is_N args = Some (negb (length args =? 0)%nat).
Proof.
  intros H. do 11 (destruct args as [|? args]; [by vm_compute|]). simpl in H. lia.
Qed.

(** The reference: the address that [p->a1->a2...] denotes after the inner
    pointers are loaded from memory. *)
Fixpoint chase (m : mem) (p : Z) (accessors : list Z) : option Z :=
  match accessors with
  | [] => Some p
  | a :: accessors' =>
      match mem_read m (p + a) 8 with
      | Some bs => chase m (le_decode bs) accessors'
      | None => None
      end
  end.

Section Chase.
Context (m : mem) (Hm : addressable m).

Lemma mapped_u64 a n bs : (0 < n)%nat -> mem_read m a n = Some bs -> u64 a = a.
Proof.
  destruct n; [lia|]. simpl. intros _ H. destruct (m a) as [b|] eqn:E; [|done].
  apply u64_small. by apply (Hm a b).
Qed.

Lemma rd_ptrs_chase fn p accessors q :
  resident m fn -> chase m p accessors = Some q -> rd_ptrs fn p accessors = q.
Proof.
  intros Hfn. revert p. induction accessors as [|a accessors IH]; intros p; cbn [chase rd_ptrs]; [congruence|].
  destruct (mem_read m (p + a) 8) as [bs|] eqn:E; [|done]. intros Hq.
  unfold read. rewrite (mapped_u64 (p + a) 8 bs) by (done || lia).
  rewrite (Hfn 8 (p + a) bs) by exact E. by apply IH.
Qed.

Lemma core_read_chase fn fn_ptr size src accs a q bs :
  resident m fn_ptr -> resident m fn -> (length accs <= 8)%nat -> 0 < size ->
  chase m src accs = Some q -> mem_read m (q + a) (Z.to_nat size) = Some bs ->
  match accs ++ [a] with
  | x :: xs => core_read fn fn_ptr size src x xs = Some (0, bs)
  | [] => False
  end.
Proof.
  intros Hp Hf Hl Hs Hq Hbs. destruct accs as [|x accs]; simpl.
  - simplify_eq/=. unfold core_read, read. simpl.
    rewrite (mapped_u64 (q + a) (Z.to_nat size) bs) by (done || lia). by rewrite (Hf size (q + a) bs).
  - unfold core_read. rewrite is_N_spec by (rewrite length_app; simpl in *; lia).
    replace (negb (length (accs ++ [a]) =? 0)%nat) with true
      by (rewrite length_app; simpl; by rewrite Nat.add_1_r).
    unfold nolast, last_arg. rewrite !narg_spec, !decide_True
      by (simpl; rewrite length_app; simpl in *; lia).
    replace (length (x :: accs ++ [a])) with (S (S (length accs)))
      by (simpl; rewrite length_app; simpl; lia).
    cbn [Nat.ltb Nat.leb Nat.eqb Nat.sub].
    rewrite (last_snoc a (x :: accs) : last (x :: accs ++ [a]) = Some a).
    replace (take (S (length accs)) (x :: accs ++ [a])) with (x :: accs)
      by (cbn [take]; by rewrite take_app_length).
    unfold read_ptrs. rewrite narg_spec, decide_True by (simpl in *; lia).
    rewrite (proj2 (Nat.leb_le (length (x :: accs)) 9)) by (simpl in *; lia). simpl andb. cbv iota.
    rewrite (rd_ptrs_chase fn_ptr src (x :: accs) q) by done. unfold read.
    rewrite (mapped_u64 (q + a) (Z.to_nat size) bs) by (done || lia). by rewrite (Hf size (q + a) bs).
Qed.

(** A single accessor reads the member at its offset. *)
Lemma core_read_field k size src off bs :
  resident m (bpf_probe_read_kernel k) -> 0 < size ->
  mem_read m (src + off) (Z.to_nat size) = Some bs ->
  BPF_CORE_READ_INTO k size src off [] = Some (0, bs) /\ BPF_CORE_READ k size src off [] = Some bs.
Proof.
  intros Hk Hs Hbs. pose proof (core_read_chase _ _ size src [] off src bs Hk Hk) as H.
  unfold BPF_CORE_READ, BPF_CORE_READ_INTO, bpf_core_read. cbn [app] in H.
  change (type_ok [src; off]) with true. cbv iota. by rewrite H by (done || simpl; lia).
Qed.
End Chase.

(** [BPF_CORE_READ(src, a1, ..., an)] with up to nine accessors yields the
    bytes of the field that the C expression src->a1->...->an denotes in kernel
    memory, when the pointers on the way are mapped. *)
Theorem core_read_follows k m size src accs a x xs q bs :
  addressable m -> resident m (bpf_probe_read_kernel k) ->
  accs ++ [a] = x :: xs -> (length accs <= 8)%nat -> 0 < size ->
  chase m src accs = Some q -> mem_read m (q + a) (Z.to_nat size) = Some bs ->
  BPF_CORE_READ k size src x xs = Some bs.
Proof.
  intros Hm Hk Hx Hl Hs Hq Hbs.
  pose proof (core_read_chase m Hm _ _ size src accs a q bs Hk Hk Hl Hs Hq Hbs) as H.
  rewrite Hx in H. unfold BPF_CORE_READ, BPF_CORE_READ_INTO, bpf_core_read. rewrite H.
  assert (length xs = length accs) as Hxs
    by (apply (f_equal length) in Hx; rewrite length_app in Hx; simpl in Hx; lia).
  unfold type_ok. rewrite narg_spec, decide_True by (simpl; lia). done.
Qed.

(** Two pointers: [*(4096 + 8)] is 8192, and 7 is stored at 8192 + 4. *)
Lemma core_read_follows_witness :
  let m := mem_union (mem_at 4096 (zeros 8 ++ le_encode 8 8192)) (mem_at 8192 [0; 0; 0; 0; 7; 0; 0; 0]) in
  BPF_CORE_READ (ref_kenv m 0 0 0 0 0 "") 4 4096 8 [4] = Some [7; 0; 0; 0].
Proof.
  apply (core_read_follows _
    (mem_union (mem_at 4096 (zeros 8 ++ le_encode 8 8192)) (mem_at 8192 [0; 0; 0; 0; 7; 0; 0; 0]))
    4 4096 [8] 4 8 [4] 8192).
  - intros a b. unfold mem_union, mem_at.
    destruct (Z.leb_spec 4096 a); [|destruct (Z.leb_spec 8192 a); [lia|done]].
    destruct ((zeros 8 ++ le_encode 8 8192) !! Z.to_nat (a - 4096)) eqn:E.
    + apply lookup_lt_Some in E. change (Z.to_nat (a - 4096) < 16)%nat in E. lia.
    + destruct (Z.leb_spec 8192 a); [|done]. intros E'%lookup_lt_Some.
      change (Z.to_nat (a - 8192) < 8)%nat in E'. lia.
  - apply ref_resident.
  - reflexivity.
  - simpl; lia.
  - reflexivity.
  - vm_compute; reflexivity.
  - vm_compute; reflexivity.
Defined.

(** ** Bit fields *)

(** A relocation of a field of [bits] bits, [off] bits above the low end of the
    storage unit of [size] bytes at byte [o]: the shifts move the field to the
    top of a 64-bit word and back down. *)
Record bitfield (fld : field_info) (o size off bits : Z) : Prop := {
  bf_offset : CORE_RELO fld BPF_FIELD_BYTE_OFFSET = o;
  bf_size : CORE_RELO fld BPF_FIELD_BYTE_SIZE = size;
  bf_unit : size = 1 \/ size = 2 \/ size = 4 \/ size = 8;
  bf_bits : 0 < bits /\ 0 <= off /\ off + bits <= 8 * size;
  bf_lshift : CORE_RELO fld BPF_FIELD_LSHIFT_U64 = 64 - (off + bits);
  bf_rshift : CORE_RELO fld BPF_FIELD_RSHIFT_U64 = 64 - bits;
}.

Definition is_signed (fld : field_info) : bool := negb (CORE_RELO fld BPF_FIELD_SIGNED =? 0).

Lemma u64_testbit z i : 0 <= i -> Z.testbit (u64 z) i = (i <? 64) && Z.testbit z i.
Proof.
  intros Hi. unfold u64. destruct (Z.ltb_spec i 64).
  - by rewrite Z.mod_pow2_bits_low by lia.
  - by rewrite Z.mod_pow2_bits_high by lia.
Qed.

(** The sign bit of a word fills the bits above it. *)
Lemma s64_testbit z i : 0 <= z < 2 ^ 64 -> 0 <= i -> Z.testbit (s64 z) i = Z.testbit z (Z.min i 63).
Proof.
  intros Hz Hi. unfold s64. destruct (Z.ltb_spec z (2 ^ 63)) as [H|H].
  - rewrite Z.mod_small by lia. replace (z + 2 ^ 63 - 2 ^ 63) with z by lia.
    destruct (Z.ltb_spec i 63); [by rewrite Z.min_l by lia|]. rewrite Z.min_r by lia.
    rewrite <- (Z.mod_small z (2 ^ 63)) by lia. by rewrite !Z.mod_pow2_bits_high by lia.
  - replace (z + 2 ^ 63) with (z - 2 ^ 63 + 1 * 2 ^ 64) by lia.
    rewrite Z.mod_add, Z.mod_small by lia.
    replace (z - 2 ^ 63 - 2 ^ 63) with (z + -1 * 2 ^ 64) by lia.
    destruct (Z.ltb_spec i 64).
    + rewrite Z.min_l by lia. rewrite <- (Z.mod_pow2_bits_low _ 64 i) by lia.
      by rewrite Z.mod_add, Z.mod_small by lia.
    + rewrite Z.min_r by lia. rewrite Z.bits_above_log2_neg; [symmetry|lia|].
      * apply Z.testbit_true; [lia|]. replace (z / 2 ^ 63) with 1; [done|].
        apply Z.div_unique with (z - 2 ^ 63); lia.
      * destruct (Z.eq_dec (Z.pred (- (z + -1 * 2 ^ 64))) 0) as [->|]; [simpl; lia|].
        assert (Z.log2 (Z.pred (- (z + -1 * 2 ^ 64))) < 64); [apply Z.log2_lt_pow2; lia|lia].
Qed.

Section Bitfield.
Context (fld : field_info) (o size off bits : Z) (Hf : bitfield fld o size off bits).

Lemma bf_bounds : 0 < bits /\ 0 <= off /\ off + bits <= 64.
Proof. destruct Hf as [_ _ [?|[?|[?|?]]] ? _ _]; lia. Qed.

Lemma extract_testbit v i :
  0 <= v < 2 ^ 64 -> 0 <= i < 64 ->
  Z.testbit (extract fld v) i =
  if is_signed fld then Z.testbit v (off + Z.min i (bits - 1))
  else (i <? bits) && Z.testbit v (off + i).
Proof.
  intros Hv Hi. pose proof bf_bounds. destruct Hf as [_ _ _ _ Hl Hr].
  unfold extract. rewrite Hl, Hr. fold (is_signed fld). destruct (is_signed fld).
  - rewrite u64_testbit by lia. rewrite (proj2 (Z.ltb_lt i 64)) by lia. simpl.
    rewrite Z.shiftr_spec, s64_testbit by (lia || apply u64_range).
    rewrite u64_testbit by lia. rewrite (proj2 (Z.ltb_lt _ 64)) by lia. simpl.
    rewrite Z.shiftl_spec by lia. f_equal. lia.
  - rewrite Z.shiftr_spec, u64_testbit, Z.shiftl_spec by lia.
    replace (i + (64 - bits) - (64 - (off + bits))) with (off + i) by lia. f_equal.
    destruct (Z.ltb_spec (i + (64 - bits)) 64), (Z.ltb_spec i bits); lia.
Qed.

Lemma ones64_testbit i : 0 <= i -> Z.testbit (2 ^ 64 - 1) i = (i <? 64).
Proof.
  intros Hi. change (2 ^ 64 - 1) with (Z.ones 64). rewrite Z.testbit_ones by lia.
  by rewrite (proj2 (Z.leb_le 0 i)).
Qed.

Lemma mask_testbit i :
  0 <= i -> Z.testbit (bitfield_mask fld) i = (off <=? i) && (i <? off + bits).
Proof.
  intros Hi. pose proof bf_bounds. destruct Hf as [_ _ _ _ Hl Hr].
  unfold bitfield_mask. rewrite Hl, Hr, Z.shiftr_spec, u64_testbit by lia.
  rewrite Z.shiftl_spec by lia.
  replace (i + (64 - (off + bits)) - (64 - bits)) with (i - off) by lia.
  destruct (Z.leb_spec off i), (Z.ltb_spec i (off + bits)), (Z.ltb_spec (i + (64 - (off + bits))) 64);
    try lia; simpl; try done; [rewrite ones64_testbit by lia; apply Z.ltb_lt; lia|].
  apply Z.testbit_neg_r. lia.
Qed.

(** The new storage unit: the field's bits from the value, the others kept. *)
Lemma insert_bits_testbit v n i :
  0 <= v < 2 ^ 64 -> 0 <= i ->
  Z.testbit (insert_bits fld v n) i =
  if (off <=? i) && (i <? off + bits) then Z.testbit n (i - off) else Z.testbit v i.
Proof.
  intros Hv Hi. pose proof bf_bounds. pose proof mask_testbit as Hmask.
  destruct Hf as [_ _ _ _ Hl Hr]. unfold insert_bits. rewrite Hl, Hr.
  replace (64 - bits - (64 - (off + bits))) with off by lia. rewrite u32_small by lia.
  rewrite Z.lor_spec, !Z.land_spec, Z.lxor_spec, Hmask, u64_testbit, Z.shiftl_spec by lia.
  rewrite ones64_testbit by lia.
  destruct ((off <=? i) && (i <? off + bits)) eqn:E.
  - apply andb_true_iff in E as [E1%Z.leb_le E2%Z.ltb_lt].
    rewrite (proj2 (Z.ltb_lt i 64)) by lia. simpl. by rewrite andb_false_r, andb_true_r.
  - rewrite andb_false_r, orb_false_r, xorb_false_r. destruct (Z.ltb_spec i 64); [apply andb_true_r|].
    rewrite <- (Z.mod_small v (2 ^ 64)) at 2 by lia. rewrite Z.mod_pow2_bits_high by lia.
    by rewrite andb_false_r.
Qed.

Context (obj : list Z) (Hobj : 0 <= o /\ o + size <= Z.of_nat (length obj)) (Hbytes : Forall byte obj).

Lemma load_range : 0 <= load obj o size < 2 ^ (8 * size).
Proof.
  destruct Hf as [_ _ Hu _ _ _]. unfold load.
  replace ((size =? 1) || (size =? 2) || (size =? 4) || (size =? 8)) with true
    by (destruct Hu as [->|[->|[->| ->]]]; done).
  pose proof (le_decode_range (take (Z.to_nat size) (drop (Z.to_nat o) obj))) as H.
  rewrite length_take, length_drop in H.
  replace (Z.of_nat (Z.to_nat size `min` (length obj - Z.to_nat o))) with size in H by lia.
  apply H. by apply Forall_take, Forall_drop.
Qed.

Lemma load_range64 : 0 <= load obj o size < 2 ^ 64.
Proof.
  pose proof load_range. destruct Hf as [_ _ Hu _ _ _]. split; [lia|].
  eapply Z.lt_le_trans; [apply H|]. apply Z.pow_le_mono_r; lia.
Qed.

(** The object around the storage unit does not change. *)
Lemma store_split val :
  store obj o size val =
  take (Z.to_nat o) obj ++ le_encode (Z.to_nat size) val ++ drop (Z.to_nat (o + size)) obj.
Proof.
  destruct Hf as [_ _ Hu _ _ _]. unfold store.
  replace ((size =? 1) || (size =? 2) || (size =? 4) || (size =? 8)) with true
    by (destruct Hu as [->|[->|[->| ->]]]; done).
  unfold overlay. rewrite length_le_encode, drop_drop. do 3 f_equal. lia.
Qed.

Lemma load_store val : load (store obj o size val) o size = val mod 2 ^ (8 * size).
Proof.
  rewrite store_split. destruct Hf as [_ _ Hu _ _ _]. unfold load.
  replace ((size =? 1) || (size =? 2) || (size =? 4) || (size =? 8)) with true
    by (destruct Hu as [->|[->|[->| ->]]]; done).
  assert (length (take (Z.to_nat o) obj) = Z.to_nat o) as Hl by (rewrite length_take; lia).
  rewrite drop_app_length' by done.
  rewrite take_app_length' by (by rewrite length_le_encode).
  rewrite le_decode_encode. do 2 f_equal. lia.
Qed.
End Bitfield.

(** [BPF_CORE_READ_BITFIELD] reads the field: bit i of the result is bit i
    of the field, zero above it for an unsigned field and its top bit above it
    for a signed one. *)
Theorem bitfield_read_exact fld o size off bits obj i :
  bitfield fld o size off bits -> Forall byte obj ->
  0 <= o /\ o + size <= Z.of_nat (length obj) -> 0 <= i < 64 ->
  Z.testbit (BPF_CORE_READ_BITFIELD obj fld) i =
  if is_signed fld then Z.testbit (load obj o size) (off + Z.min i (bits - 1))
  else (i <? bits) && Z.testbit (load obj o size) (off + i).
Proof.
  intros Hf Hb Ho Hi. unfold BPF_CORE_READ_BITFIELD.
  rewrite (bf_offset _ _ _ _ _ Hf), (bf_size _ _ _ _ _ Hf).
  eapply extract_testbit; [done|by eapply load_range64|done].
Qed.

(** Writing a bit field and reading it back yields the value cut to the
    width of the field, and nothing but the field's bits changes: neither the
    other bits of its storage unit nor the bytes around it. *)
Theorem bitfield_write_read fld o size off bits obj n :
  bitfield fld o size off bits -> Forall byte obj ->
  0 <= o /\ o + size <= Z.of_nat (length obj) -> is_signed fld = false -> 0 <= n < 2 ^ 64 ->
  let obj' := BPF_CORE_WRITE_BITFIELD obj fld n in
  BPF_CORE_READ_BITFIELD obj' fld = n mod 2 ^ bits /\
  take (Z.to_nat o) obj' = take (Z.to_nat o) obj /\
  drop (Z.to_nat (o + size)) obj' = drop (Z.to_nat (o + size)) obj /\
  (forall i, 0 <= i < 8 * size -> ~ (off <= i < off + bits) ->
     Z.testbit (load obj' o size) i = Z.testbit (load obj o size) i).
Proof.
  intros Hf Hb Ho Hsig Hn. cbv zeta. unfold BPF_CORE_WRITE_BITFIELD, BPF_CORE_READ_BITFIELD.
  rewrite (bf_offset _ _ _ _ _ Hf), (bf_size _ _ _ _ _ Hf). rewrite (u64_small n) by lia.
  pose proof (bf_bits _ _ _ _ _ Hf) as Hbits. pose proof (bf_unit _ _ _ _ _ Hf) as Hu.
  pose proof (load_range64 fld o size off bits Hf obj Ho Hb) as Hl64.
  pose proof (insert_bits_testbit fld o size off bits Hf (load obj o size) n) as Hins.
  set (v := insert_bits fld (load obj o size) n) in *.
  pose proof (load_store fld o size off bits Hf obj Ho v) as Hls.
  assert (0 <= v mod 2 ^ (8 * size) < 2 ^ 64) as Hv.
  { pose proof (Z.mod_pos_bound v (2 ^ (8 * size))). split; [lia|].
    eapply Z.lt_le_trans; [apply H; lia|]. apply Z.pow_le_mono_r; lia. }
  split; [|split; [|split]].
  - rewrite Hls. apply Z.bits_inj'. intros i Hi. destruct (Z.ltb_spec i 64) as [H64|H64].
    + rewrite (extract_testbit fld o size off bits Hf), Hsig by (done || lia).
      destruct (Z.ltb_spec i bits) as [Hib|Hib]; simpl.
      * rewrite !Z.mod_pow2_bits_low, Hins by lia.
        rewrite (proj2 (Z.leb_le off (off + i))), (proj2 (Z.ltb_lt (off + i) (off + bits))) by lia.
        simpl. f_equal. lia.
      * by rewrite Z.mod_pow2_bits_high by lia.
    + rewrite Z.mod_pow2_bits_high by lia. unfold extract. fold (is_signed fld). rewrite Hsig.
      pose proof (bf_rshift _ _ _ _ _ Hf) as ->. rewrite Z.shiftr_spec, u64_testbit by lia.
      by rewrite (proj2 (Z.ltb_ge _ 64)) by lia.
  - rewrite (store_split fld o size off bits Hf obj Ho). apply take_app_length'. rewrite length_take. lia.
  - rewrite (store_split fld o size off bits Hf obj Ho), app_assoc. apply drop_app_length'.
    rewrite length_app, length_take, length_le_encode. lia.
  - intros i Hi Hout. rewrite Hls, Z.mod_pow2_bits_low, Hins by lia.
    destruct (Z.leb_spec off i), (Z.ltb_spec i (off + bits)); simpl; (done || lia).
Qed.

(** A field of 3 bits, 2 bits above the low end of a 16-bit unit at byte 1. *)
Definition demo_field : field_info := fun info =>
  match info with
  | BPF_FIELD_BYTE_OFFSET => 1
  | BPF_FIELD_BYTE_SIZE => 2
  | BPF_FIELD_EXISTS => 1
  | BPF_FIELD_SIGNED => 0
  | BPF_FIELD_LSHIFT_U64 => 59
  | BPF_FIELD_RSHIFT_U64 => 61
  end.

Lemma demo_field_ok : bitfield demo_field 1 2 2 3.
Proof. split; first [reflexivity|lia]. Qed.

Lemma bitfield_read_exact_witness :
  Z.testbit (BPF_CORE_READ_BITFIELD [255; 20; 0; 255] demo_field) 2 =
  (2 <? 3) && Z.testbit 20 4.
Proof.
  apply (bitfield_read_exact demo_field 1 2 2 3 [255; 20; 0; 255] 2).
  - exact demo_field_ok.
  - repeat constructor; unfold byte; lia.
  - simpl; lia.
  - lia.
Defined.

Lemma bitfield_write_read_witness :
  BPF_CORE_READ_BITFIELD (BPF_CORE_WRITE_BITFIELD [255; 255; 255; 255] demo_field 5) demo_field = 5.
Proof.
  apply (bitfield_write_read demo_field 1 2 2 3 [255; 255; 255; 255] 5).
  - exact demo_field_ok.
  - repeat constructor; unfold byte; lia.
  - simpl; lia.
  - reflexivity.
  - lia.
Defined.
