(* ===== verification/Stdio.v ===== *)
(** * Standard input and output probe

    [stdio/stdio.bpf.c]: reads from stdin and writes to stdout whose data looks
    like a JSON object (MCP over stdio) are copied to the ring buffer. *)

From S2P Require Import Prelude Helpers.

Definition MAX_ENTRIES : Z := 10240.
Definition TASK_COMM_LEN : Z := 16.
Definition RING_BUFFER_SIZE : Z := 32 * 1024 * 1024.
Definition MAX_BUF_SIZE : Z := 128 * 1024.
Definition PEEK_BYTES : nat := 4.

Record enter_ctx := EnterCtx {
  ec_common : Z; ec_syscall_nr : Z; ec_fd : Z; ec_buf : Z; ec_count : Z }.
Record exit_ctx := ExitCtx { xc_common : Z; xc_syscall_nr : Z; xc_ret : Z }.
Record inflight_read := InflightRead { ir_buf : Z; ir_count : Z; ir_fd : Z }.

Record event := Event {
  ev_timestamp_ns : Z;
  ev_pid_tgid : Z;
  ev_uid_gid : Z;
  ev_req_len : Z;
  ev_cgroup_id : Z;
  ev_data_len : Z;
  ev_fd : Z;
  ev_rw : Z;
  ev_data : list Z;
  ev_comm : list Z;
}.

Definition sizeof_event : Z := 131152.

Definition inflight_def : map_def := MapDef BPF_MAP_TYPE_HASH MAX_ENTRIES 8 24.
Definition events_def : map_def := MapDef BPF_MAP_TYPE_RINGBUF RING_BUFFER_SIZE 0 0.
Definition fake_event_map_def : map_def := MapDef BPF_MAP_TYPE_ARRAY 1 4 sizeof_event.

(** The loop over the peeked bytes. *)
Fixpoint json_loop (fuel i : nat) (prefix : list Z) : bool :=
  match fuel with
  | O => false
  | S fuel' =>
      let c := rd prefix i in
      if (c =? 32 (* ' ' *)) || (c =? 9 (* '\t' *)) || (c =? 10 (* '\n' *))
         || (c =? 13 (* '\r' *))
      then json_loop fuel' (S i) prefix
      else if c =? 123 (* '{' *) then true
      else false
  end.

Definition is_mcp_json_str (k : kenv) (buf len : Z) : bool :=
  if len <? Z.of_nat PEEK_BYTES then false
  else
    let '(r, prefix) := bpf_probe_read k (Z.of_nat PEEK_BYTES) buf in
    if negb (r =? 0) then false else json_loop PEEK_BYTES 0 prefix.

(** The sample [evt] after the assignments of [emit_stdio_event]. *)
Definition fill_event (k : kenv) (buf req_len data_len fd rw : Z) (evt : event) : event := {|
  ev_timestamp_ns := bpf_ktime_get_ns k;
  ev_pid_tgid := bpf_get_current_pid_tgid k;
  ev_uid_gid := bpf_get_current_uid_gid k;
  ev_cgroup_id := bpf_get_current_cgroup_id k;
  ev_req_len := req_len;
  ev_data_len := data_len;
  ev_fd := fd;
  ev_rw := rw;
  ev_comm := bpf_get_current_comm k TASK_COMM_LEN;
  ev_data := overlay (ev_data evt) (bpf_probe_read k data_len buf).2 |}.

Section Probe.
Context {MI : bpf_map Z inflight_read} {RB : bpf_ringbuf event}.

Record state := State { st_inflight : MI; st_events : RB }.

Definition inflight : field state MI := Field st_inflight (fun m s => State m (st_events s)).
Definition events : field state RB := Field st_events (fun r s => State (st_inflight s) r).

Implicit Types k : kenv.

Definition emit_stdio_event k (buf req_len data_len fd rw : Z) : prog state Z :=
  evt ← bpf_ringbuf_reserve events sizeof_event 0;
  match evt with
  | None => mret 0
  | Some evt =>
      bpf_ringbuf_submit events (fill_event k buf req_len data_len fd rw evt) 0;; mret 0
  end.

Definition tracepoint_enter_read k (ctx : enter_ctx) : prog state Z :=
  if ec_count ctx =? 0 then mret 0
  else if negb (ec_fd ctx =? 0) then mret 0
  else
    let pid_tgid := bpf_get_current_pid_tgid k in
    let read := InflightRead (ec_buf ctx) (ec_count ctx) (ec_fd ctx) in
    bpf_map_update_elem inflight pid_tgid read BPF_ANY;; mret 0.

Definition tracepoint_exit_read k (ctx : exit_ctx) : prog state Z :=
  let pid_tgid := bpf_get_current_pid_tgid k in
  (if xc_ret ctx <? 0 then mret tt
   else
     let length := u32 (xc_ret ctx) in
     if length =? 0 then mret tt
     else
       let length := if MAX_BUF_SIZE <? length then MAX_BUF_SIZE else length in
       read ← bpf_map_lookup_elem inflight pid_tgid;
       match read with
       | None => mret tt
       | Some read =>
           if negb (is_mcp_json_str k (ir_buf read) length) then mret tt
           else
             emit_stdio_event k (ir_buf read) (ir_count read) length (ir_fd read) 4;;
             mret tt
       end);;
  bpf_map_delete_elem inflight pid_tgid;; mret 0.

Definition tracepoint_enter_write k (ctx : enter_ctx) : prog state Z :=
  if ec_count ctx =? 0 then mret 0
  else if negb (ec_fd ctx =? 1) then mret 0
  else
    let length := u32 (ec_count ctx) in
    let length := if MAX_BUF_SIZE <? length then MAX_BUF_SIZE else length in
    if negb (is_mcp_json_str k (ec_buf ctx) length) then mret 0
    else emit_stdio_event k (ec_buf ctx) (ec_count ctx) length (ec_fd ctx) 2.

Inductive call :=
  | SysEnterRead (ctx : enter_ctx)
  | SysExitRead (ctx : exit_ctx)
  | SysEnterWrite (ctx : enter_ctx).

Definition handle k (c : call) : prog state Z :=
  match c with
  | SysEnterRead ctx => tracepoint_enter_read k ctx
  | SysExitRead ctx => tracepoint_exit_read k ctx
  | SysEnterWrite ctx => tracepoint_enter_write k ctx
  end.
End Probe.

Arguments state : clear implicits.
Arguments is_mcp_json_str : simpl never.
