(* ===== verification/StdioTheorems.v ===== *)
(** * Standard input and output probe: theorems

    When a read or write is reported, and with what data. *)

From S2P Require Import Prelude Helpers RefKernel Stdio.

(** ** The JSON test *)

Definition white (c : Z) : Prop := c = 32 \/ c = 9 \/ c = 10 \/ c = 13.

#[export] Instance white_dec c : Decision (white c).
Proof. unfold white. apply _. Defined.

(** A '{' behind nothing but white space. *)
Definition opens_json (l : list Z) : Prop :=
  exists ws rest, l = ws ++ 123 :: rest /\ Forall white ws.

Lemma json_loop_spec fuel i l :
  (i + fuel = length l)%nat -> json_loop fuel i l = true <-> opens_json (drop i l).
Proof.
  revert i. induction fuel as [|fuel IH]; intros i Hi; simpl.
  { rewrite drop_ge by lia. split; [done|]. by intros ([|? ?] & rest & ? & _). }
  assert (i < length l)%nat as Hlt by lia. rewrite (drop_rd l i Hlt).
  generalize (rd l i); intros c. assert ((c =? 32) || (c =? 9) || (c =? 10) || (c =? 13) = bool_decide (white c)) as ->.
  { unfold white. destruct (Z.eqb_spec c 32), (Z.eqb_spec c 9), (Z.eqb_spec c 10), (Z.eqb_spec c 13);
      simpl; symmetry; (apply bool_decide_eq_true; tauto) || (apply bool_decide_eq_false; tauto). }
  case_bool_decide as Hw.
  - rewrite IH by lia. split.
    + intros (ws & rest & -> & Hws). exists (c :: ws), rest. split; [done|by constructor].
    + intros ([|c' ws] & rest & Heq & Hws); simplify_eq/=; [by destruct Hw as [|[|[|]]]|].
      inversion Hws; subst. by exists ws, rest.
  - destruct (Z.eqb_spec c 123) as [E|E]; (split; [try done|]).
    + intros _. exists [], (drop (S i) l). by rewrite E.
    + done.
    + intros ([|c' ws] & rest & Heq & Hws); simplify_eq/=. inversion Hws; subst. done.
Qed.

(** ** Reported data *)

Definition payload (e : event) : list Z := take (Z.to_nat (ev_data_len e)) (ev_data e).

(** The bytes the probe looks at and keeps. *)
Definition captured (bs : list Z) : list Z := take (Z.to_nat MAX_BUF_SIZE) bs.

(** The data is long enough to be tested, and its first four bytes start a JSON
    object. *)
Definition looks_like_json (bs : list Z) : Prop := (4 <= length bs)%nat /\ opens_json (take 4 bs).

(** The buffer at [buf] holds [bs] in memory the program can read. *)
Definition holds (k : kenv) (m : mem) (buf : Z) (bs : list Z) : Prop :=
  resident m (bpf_probe_read k) /\ mem_read m buf (length bs) = Some bs /\
  0 < Z.of_nat (length bs) < 2 ^ 32.

Definition clamp (n : Z) : Z := if MAX_BUF_SIZE <? u32 n then MAX_BUF_SIZE else u32 n.

Lemma clamp_length bs :
  0 < Z.of_nat (length bs) < 2 ^ 32 ->
  clamp (Z.of_nat (length bs)) = Z.of_nat (length (captured bs)) /\ captured bs <> [].
Proof.
  intros Hl. unfold clamp, captured, MAX_BUF_SIZE. rewrite u32_small, length_take by lia. split.
  - destruct (Z.ltb_spec (128 * 1024) (Z.of_nat (length bs))); lia.
  - intros E%(f_equal length). rewrite length_take in E. cbn [length] in E. lia.
Qed.

Lemma is_mcp_json_str_spec k m buf bs :
  holds k m buf bs ->
  is_mcp_json_str k buf (clamp (Z.of_nat (length bs))) = true <-> looks_like_json bs.
Proof.
  intros (Hr & Hbs & Hl). destruct (clamp_length bs Hl) as [-> _].
  unfold is_mcp_json_str, looks_like_json. change (Z.of_nat PEEK_BYTES) with 4.
  assert ((length (captured bs) < 4 <-> length bs < 4)%nat) as Hc.
  { unfold captured. rewrite length_take.
    assert (4 <= Z.to_nat MAX_BUF_SIZE)%nat by (unfold MAX_BUF_SIZE; lia). lia. }
  destruct (Z.ltb_spec (Z.of_nat (length (captured bs))) 4) as [H|H].
  { split; [done|]. intros [? _]. lia. }
  pose proof (resident_read m _ buf (Z.of_nat (length bs)) bs 0 4 Hr) as Hrd.
  rewrite Nat2Z.id, Z.add_0_r in Hrd. rewrite Hrd by (done || lia).
  change (0 =? 0) with true. cbn [negb]. cbv iota. change (drop (Z.to_nat 0) bs) with bs.
  rewrite json_loop_spec; [rewrite drop_0|change (Z.to_nat 4) with 4%nat; rewrite length_take; unfold PEEK_BYTES; lia].
  change (Z.to_nat 4) with 4%nat. split; [intros; split; [lia|done]|tauto].
Qed.

#[export] Instance stdio_events_ok MI RB : FieldOk (events (MI := MI) (RB := RB)).
Proof. field_ok. Qed.

Section Props.
Context {MI : bpf_map Z inflight_read} {RB : bpf_ringbuf event}.
Context `{!HashOk MI, !RingbufOk RB}.
Local Abbreviation st := (state MI RB).
Implicit Types (s : st) (k : kenv).

Definition reads (s : st) : gmap Z inflight_read := contents (st_inflight s).
Definition evs (s : st) : list event := samples (st_events s).

Definition can_reserve (s : st) : Prop :=
  exists e r, ringbuf_reserve (st_events s) sizeof_event 0 = (Some e, r).

(** The event for a call on [bs]. *)
Definition reports k (req_len fd rw : Z) (bs : list Z) (e : event) : Prop :=
  payload e = captured bs /\ ev_data_len e = Z.of_nat (length (captured bs)) /\
  ev_req_len e = req_len /\ ev_fd e = fd /\ ev_rw e = rw /\
  ev_pid_tgid e = bpf_get_current_pid_tgid k /\ ev_timestamp_ns e = bpf_ktime_get_ns k.

Lemma emit_spec k m buf req_len fd rw bs s :
  holds k m buf bs ->
  exists rb, emit_stdio_event k buf req_len (clamp (Z.of_nat (length bs))) fd rw s =
    (0, State (st_inflight s) rb) /\
  (samples rb = evs s \/ exists e, samples rb = evs s ++ [e] /\ reports k req_len fd rw bs e) /\
  (can_reserve s -> samples rb <> evs s).
Proof.
  intros (Hr & Hbs & Hl). destruct (clamp_length bs Hl) as [-> _].
  unfold emit_stdio_event. prog_unfold. unfold bpf_ringbuf_reserve. simpl.
  pose proof (reserve_samples (st_events s) sizeof_event 0) as Hs. unfold can_reserve.
  destruct (ringbuf_reserve (st_events s) sizeof_event 0) as [[e|] rb]; simpl in Hs.
  - eexists. split; [done|]. rewrite submit_samples. cbn [st_events]. rewrite Hs. fold (evs s). split.
    + right. eexists. split; [done|]. unfold reports, payload. simpl.
      split; [|done]. pose proof (resident_read m _ buf (Z.of_nat (length bs)) bs 0
        (Z.of_nat (length (captured bs))) Hr) as Hrd.
      rewrite Nat2Z.id, Z.add_0_r in Hrd.
      assert (length (captured bs) <= length bs)%nat by (unfold captured; rewrite length_take; lia).
      rewrite Hrd by (done || lia). cbn [snd]. rewrite Nat2Z.id. change (Z.to_nat 0) with 0%nat.
      rewrite drop_0. replace (take (length (captured bs)) bs) with (captured bs); [apply take_overlay|].
      unfold captured. rewrite length_take.
      destruct (Nat.le_ge_cases (Z.to_nat MAX_BUF_SIZE) (length bs)) as [Hle|Hle].
      * by rewrite Nat.min_l by done.
      * rewrite Nat.min_r by done. rewrite !take_ge by lia. done.
    + intros _ E. apply (f_equal length) in E. rewrite length_app in E. simpl in E. lia.
  - eexists. split; [done|]. rewrite Hs. split; [by left|]. intros (e & r & ?). done.
Qed.

Lemma enter_read_spec k ctx s :
  ec_count ctx <> 0 -> ec_fd ctx = 0 ->
  exec (handle k (SysEnterRead ctx)) s =
  State (update_elem (st_inflight s) (bpf_get_current_pid_tgid k)
           (InflightRead (ec_buf ctx) (ec_count ctx) 0) BPF_ANY).2 (st_events s).
Proof.
  intros Hc Hfd. simpl. unfold tracepoint_enter_read. rewrite Hfd.
  rewrite (proj2 (Z.eqb_neq _ 0)) by done. simpl. prog_unfold. unfold bpf_map_update_elem. simpl.
  by destruct (update_elem _ _ _ _).
Qed.

(** The state after an exit, from the ring buffer the report leaves. *)
Lemma exit_read_spec k ctx s :
  let pid := bpf_get_current_pid_tgid k in
  exists rb, exec (handle k (SysExitRead ctx)) s = State (delete_elem (st_inflight s) pid).2 rb /\
  (match reads s !! pid with
   | Some r =>
       if (0 <? xc_ret ctx) && negb (u32 (xc_ret ctx) =? 0)
          && is_mcp_json_str k (ir_buf r) (clamp (xc_ret ctx))
       then State (st_inflight s) rb =
            exec (emit_stdio_event k (ir_buf r) (ir_count r) (clamp (xc_ret ctx)) (ir_fd r) 4) s
       else rb = st_events s
   | None => rb = st_events s
   end).
Proof.
  cbv zeta. unfold reads. simpl. unfold tracepoint_exit_read. prog_unfold.
  unfold bpf_map_lookup_elem, bpf_map_delete_elem. cbv beta iota zeta.
  fold (clamp (xc_ret ctx)).
  assert (forall s', st_inflight s' = st_inflight s ->
    (let '(_, s0) := (let '(r, m) := delete_elem (st_inflight s') (bpf_get_current_pid_tgid k) in
       (r, fset inflight m s')) in (0, s0)).2 =
    State (delete_elem (st_inflight s) (bpf_get_current_pid_tgid k)).2 (st_events s')) as Hdel.
  { intros s' ->. by destruct (delete_elem (st_inflight s) (bpf_get_current_pid_tgid k)). }
  destruct (Z.ltb_spec (xc_ret ctx) 0) as [H|H].
  { eexists. split; [by apply Hdel|]. case_match; [|done].
    by rewrite (proj2 (Z.ltb_ge 0 (xc_ret ctx))) by lia. }
  destruct (Z.eqb_spec (u32 (xc_ret ctx)) 0) as [H0|H0].
  { eexists. split; [by apply Hdel|]. case_match; [|done]. by rewrite andb_false_r. }
  rewrite (proj2 (Z.ltb_lt 0 (xc_ret ctx)))
    by (destruct (Z.eq_dec (xc_ret ctx) 0) as [E|]; [rewrite E in H0; done|lia]).
  cbn [fget inflight]. rewrite lookup_elem_contents.
  destruct (contents (st_inflight s) !! bpf_get_current_pid_tgid k) as [r|];
    [|eexists; split; [by apply Hdel|done]].
  destruct (is_mcp_json_str k (ir_buf r) (clamp (xc_ret ctx))); cbn [negb andb];
    [|eexists; split; [by apply Hdel|done]].
  assert (exists rb, exec (emit_stdio_event k (ir_buf r) (ir_count r) (clamp (xc_ret ctx)) (ir_fd r) 4) s
    = State (st_inflight s) rb) as [rb Hrb].
  { unfold emit_stdio_event. prog_unfold. unfold bpf_ringbuf_reserve. simpl.
    destruct (ringbuf_reserve _ _ _) as [[]]; by eexists. }
  exists rb. unfold exec in Hrb. destruct (emit_stdio_event _ _ _ _ _ _ s) as [z s'].
  simpl in Hrb. subst s'. split; [by apply Hdel|done].
Qed.

(** A program touches no pending read but that of its own task. *)
Lemma handle_other_reads k c pid s :
  pid <> bpf_get_current_pid_tgid k -> reads (exec (handle k c) s) !! pid = reads s !! pid.
Proof.
  intros Hpid. destruct c as [ctx|ctx|ctx].
  - simpl. unfold tracepoint_enter_read, reads. repeat (case_match; [done|]). prog_unfold.
    unfold bpf_map_update_elem. simpl.
    match goal with |- context [update_elem ?x ?y ?z ?w] =>
      pose proof (update_other_hash x y z pid) as Hu; destruct (update_elem x y z w) end.
    by apply Hu.
  - destruct (exit_read_spec k ctx s) as (rb & -> & _). unfold reads. simpl.
    by rewrite hash_delete_contents, lookup_delete_ne.
  - simpl. unfold tracepoint_enter_write. repeat (case_match; [done|]).
    unfold emit_stdio_event. prog_unfold. unfold bpf_ringbuf_reserve. simpl.
    by destruct (ringbuf_reserve _ _ _) as [[]].
Qed.

Definition run_trace (tr : list (kenv * call)) (s : st) : st :=
  run ((fun kc => handle kc.1 kc.2) <$> tr) s.

Lemma run_trace_other_reads tr pid s :
  Forall (fun kc => bpf_get_current_pid_tgid kc.1 <> pid) tr ->
  reads (run_trace tr s) !! pid = reads s !! pid.
Proof.
  intros Htr. revert s. induction Htr as [|[k c] tr Hk _ IH]; intros s; [done|].
  unfold run_trace in *. rewrite fmap_cons, run_cons, IH. simpl in *.
  apply handle_other_reads. by intros ->.
Qed.

(** A read from stdin.  Entry, any interleaving of other tasks, and exit
    with the data [bs] in the buffer: if [bs] has at least four bytes and its
    first four start a JSON object (after white space), one event with the
    first 128 KiB of [bs] and the requested size is reported when there is
    room; otherwise nothing is.  Nothing stays pending. *)
Theorem stdin_read_reported k1 ctx tr k2 m ectx s bs :
  let pid := bpf_get_current_pid_tgid k1 in
  let s2 := run_trace tr (exec (handle k1 (SysEnterRead ctx)) s) in
  let s3 := exec (handle k2 (SysExitRead ectx)) s2 in
  ec_fd ctx = 0 -> ec_count ctx <> 0 ->
  (update_elem (st_inflight s) pid (InflightRead (ec_buf ctx) (ec_count ctx) 0) BPF_ANY).1 = 0 ->
  Forall (fun kc => bpf_get_current_pid_tgid kc.1 <> pid) tr ->
  bpf_get_current_pid_tgid k2 = pid -> holds k2 m (ec_buf ctx) bs ->
  xc_ret ectx = Z.of_nat (length bs) ->
  reads s3 !! pid = None /\
  (looks_like_json bs -> can_reserve s2 ->
   exists e, evs s3 = evs s2 ++ [e] /\ reports k2 (ec_count ctx) 0 4 bs e) /\
  (~ looks_like_json bs -> evs s3 = evs s2).
Proof.
  cbv zeta. intros Hfd Hc Hup Htr Hpid Hbs Hret.
  set (s2 := run_trace tr (exec (handle k1 (SysEnterRead ctx)) s)) in *.
  assert (reads s2 !! bpf_get_current_pid_tgid k2 = Some (InflightRead (ec_buf ctx) (ec_count ctx) 0))
    as Hrd.
  { rewrite Hpid. unfold s2. rewrite run_trace_other_reads by done.
    rewrite enter_read_spec by done. unfold reads. simpl. by apply lru_update_some. }
  destruct (exit_read_spec k2 ectx s2) as (rb & -> & Hrb). rewrite Hrd in Hrb. simpl in Hrb.
  split; [unfold reads; simpl; by rewrite hash_delete_contents, Hpid, lookup_delete_eq|].
  pose proof Hbs as (_ & _ & Hl). rewrite Hret in Hrb. rewrite u32_small in Hrb by lia.
  rewrite (proj2 (Z.ltb_lt 0 _)), (proj2 (Z.eqb_neq _ 0)) in Hrb by lia. simpl in Hrb.
  pose proof (is_mcp_json_str_spec k2 m (ec_buf ctx) bs Hbs) as Hj. unfold evs at 1 3. simpl.
  destruct (is_mcp_json_str k2 (ec_buf ctx) (clamp (Z.of_nat (length bs)))).
  - destruct (emit_spec k2 m (ec_buf ctx) (ec_count ctx) 0 4 bs s2 Hbs) as (rb' & E & H1 & H2).
    unfold exec in Hrb. rewrite E in Hrb. simpl in Hrb. simplify_eq.
    split; [|intros Hn; destruct Hn; by apply Hj]. intros _ Hroom.
    destruct H1 as [H1|H1]; [by destruct (H2 Hroom)|done].
  - subst rb. split; [intros Hy; by apply Hj in Hy|done].
Qed.

(** A write.  A write to stdout with data [bs] is reported like a read; a
    write to any other descriptor, and a read from any descriptor but stdin,
    changes nothing. *)
Theorem stdout_write_reported k m ctx s bs :
  let s' := exec (handle k (SysEnterWrite ctx)) s in
  holds k m (ec_buf ctx) bs -> ec_count ctx = Z.of_nat (length bs) ->
  (ec_fd ctx = 1 ->
   reads s' = reads s /\
   (looks_like_json bs -> can_reserve s ->
    exists e, evs s' = evs s ++ [e] /\ reports k (ec_count ctx) 1 2 bs e) /\
   (~ looks_like_json bs -> evs s' = evs s)) /\
  (ec_fd ctx <> 1 -> s' = s) /\
  (ec_fd ctx <> 0 -> exec (handle k (SysEnterRead ctx)) s = s).
Proof.
  cbv zeta. intros Hbs Hc. pose proof Hbs as (_ & _ & Hl). split; [|split].
  - intros Hfd. simpl. unfold tracepoint_enter_write. rewrite Hfd, Hc.
    rewrite (proj2 (Z.eqb_neq _ 0)) by lia. cbn [negb Z.eqb Pos.eqb]. cbv iota.
    fold (clamp (Z.of_nat (length bs))).
    pose proof (is_mcp_json_str_spec k m (ec_buf ctx) bs Hbs) as Hj.
    destruct (is_mcp_json_str k (ec_buf ctx) (clamp (Z.of_nat (length bs)))).
    + destruct (emit_spec k m (ec_buf ctx) (Z.of_nat (length bs)) 1 2 bs s Hbs) as (rb & E & H1 & H2).
      simpl. unfold exec. rewrite E. split; [done|].
      split; [|intros Hn; destruct Hn; by apply Hj]. intros _ Hroom. unfold evs at 1. simpl.
      destruct H1 as [H1|H1]; [by destruct (H2 Hroom)|done].
    + split; [done|]. split; [intros Hy; by apply Hj in Hy|done].
  - intros Hfd. simpl. unfold tracepoint_enter_write. rewrite (proj2 (Z.eqb_neq _ 0)) by lia.
    by rewrite (proj2 (Z.eqb_neq _ 1)).
  - intros Hfd. simpl. unfold tracepoint_enter_read. rewrite (proj2 (Z.eqb_neq (ec_count ctx) 0)) by lia.
    by rewrite (proj2 (Z.eqb_neq _ 0)).
Qed.
End Props.

(** ** Witnesses *)

Module Demo.
(** A JSON object behind a line break, and a line of text. *)
Definition json : list Z := [10] ++ str "{method: ping}".
Definition text : list Z := str "hello".
Definition user : mem := mem_union (mem_at 4096 json) (mem_at 8192 text).
Definition k1 : kenv := ref_kenv user 10 (7 * 2 ^ 32 + 7) 0 1 0 "server".
Definition k2 : kenv := ref_kenv user 20 (8 * 2 ^ 32 + 8) 0 1 0 "client".
Definition MI : bpf_map Z inflight_read := ref_hash Z inflight_read (Z.to_nat MAX_ENTRIES).
Definition RB : bpf_ringbuf event :=
  ref_ringbuf event (Event 0 0 0 0 0 0 0 0 (zeros (Z.to_nat MAX_BUF_SIZE)) (zeros 16)).
Definition init : state MI RB :=
  State (MI := MI) (RB := RB) (∅ : gmap Z inflight_read) ([], []).
Definition others : list (kenv * call) :=
  [(k2, SysEnterRead (EnterCtx 0 0 0 8192 64)); (k2, SysExitRead (ExitCtx 0 0 5))].
End Demo.

Lemma stdin_read_reported_witness :
  let s2 := run_trace Demo.others
    (exec (handle Demo.k1 (SysEnterRead (EnterCtx 0 0 0 4096 4096))) Demo.init) in
  let s3 := exec (handle Demo.k1 (SysExitRead (ExitCtx 0 0 15))) s2 in
  exists e, evs s3 = evs s2 ++ [e] /\ payload e = captured Demo.json.
Proof.
  destruct (stdin_read_reported Demo.k1 (EnterCtx 0 0 0 4096 4096) Demo.others Demo.k1
    Demo.user (ExitCtx 0 0 15) Demo.init Demo.json) as (_ & H & _).
  - reflexivity.
  - discriminate.
  - reflexivity.
  - repeat constructor; discriminate.
  - reflexivity.
  - split; [apply ref_resident|]. split; [vm_compute; reflexivity|split; reflexivity].
  - reflexivity.
  - destruct H as (e & He & Hp & _); [|eexists _, _; reflexivity|exists e; split; [exact He|exact Hp]].
    split; [cbv; lia|]. exists [10], (str "me"). split; [reflexivity|].
    apply Forall_singleton. unfold white. lia.
Defined.

Lemma stdout_write_reported_witness :
  let s' := exec (handle Demo.k1 (SysEnterWrite (EnterCtx 0 0 1 4096 15))) Demo.init in
  exists e, evs s' = [e] /\ payload e = captured Demo.json.
Proof.
  destruct (stdout_write_reported Demo.k1 Demo.user (EnterCtx 0 0 1 4096 15) Demo.init Demo.json)
    as (H & _ & _).
  - split; [apply ref_resident|]. split; [vm_compute; reflexivity|split; reflexivity].
  - reflexivity.
  - destruct H as (_ & (e & He & Hp & _) & _);
      [reflexivity| |eexists _, _; reflexivity|exists e; split; [exact He|exact Hp]].
    split; [cbv; lia|]. exists [10], (str "me"). split; [reflexivity|].
    apply Forall_singleton. unfold white. lia.
Defined.
