(* ===== verification/Tcpconn.v ===== *)
(** * TCP connection probe

    [tcpconn/tcpconn.bpf.c]: outgoing connections are attributed to the task
    that calls connect and reported when the handshake completes.  A program
    gets its arguments through [BPF_PROG]; the fields of [struct sock] are read
    with [BPF_CORE_READ], whose relocated offsets are a parameter. *)

From S2P Require Import Prelude Helpers Tracing CoreRead.

Definition AF_INET : Z := 2.
Definition AF_INET6 : Z := 10.
Definition TASK_COMM_LEN : Z := 16.
Definition MAX_ENTRIES : Z := 16384.
Definition RING_BUFFER_SIZE : Z := 4 * 1024 * 1024.
Definition BPF_TCP_ESTABLISHED : Z := 1.
Definition BPF_TCP_SYN_SENT : Z := 2.

(** Offsets of the members of [struct sock] in the running kernel: what the
    relocations of [preserve_access_index] yield for
    [__sk_common.skc_daddr] and so on. *)
Record sock_relo := SockRelo {
  skc_daddr : Z;
  skc_v6_daddr : Z;
  skc_dport : Z;
  skc_family : Z;
  skc_state : Z;
}.

(** Sizes of their types. *)
Definition sizeof_daddr : Z := 4.
Definition sizeof_v6_daddr : Z := 16.
Definition sizeof_dport : Z := 2.
Definition sizeof_family : Z := 2.
Definition sizeof_state : Z := 1.

Record event := Event {
  ev_timestamp_ns : Z;
  ev_pid_tgid : Z;
  ev_uid_gid : Z;
  ev_cgroup_id : Z;
  ev_family : Z;
  ev_dport : Z;
  ev_comm : list Z;
  ev_daddr : list Z;
}.

Definition sizeof_event : Z := 72.

Record connect_meta := ConnectMeta {
  cm_pid_tgid : Z;
  cm_uid_gid : Z;
  cm_cgroup_id : Z;
  cm_comm : list Z;
}.

Definition inflight_connect_def : map_def := MapDef BPF_MAP_TYPE_LRU_HASH MAX_ENTRIES 8 40.
Definition events_def : map_def := MapDef BPF_MAP_TYPE_RINGBUF RING_BUFFER_SIZE 0 0.

(** [BPF_CORE_READ(sk, __sk_common.f)] for a member of [size] bytes: its bytes,
    and its value as a little-endian integer. *)
Definition sk_bytes (k : kenv) (size sk off : Z) : list Z :=
  default [] (BPF_CORE_READ k size sk off []).
Definition sk_read (k : kenv) (size sk off : Z) : Z := le_decode (sk_bytes k size sk off).

(** [BPF_CORE_READ_INTO(&evt->daddr, sk, ...)]: the bytes it writes. *)
Definition sk_read_into (k : kenv) (size sk off : Z) : list Z :=
  match BPF_CORE_READ_INTO k size sk off [] with Some (_, bs) => bs | None => [] end.

(** [__builtin_memset(evt, 0, sizeof( *evt))]. *)
Definition zero_event : event := Event 0 0 0 0 0 0 (zeros 16) (zeros 16).

(** The zeroed sample after the assignments of [trace_tcp_set_state]. *)
Definition fill_event (k : kenv) (ro : sock_relo) (sk family : Z) (meta : connect_meta)
    (evt : event) : event := {|
  ev_timestamp_ns := bpf_ktime_get_ns k;
  ev_pid_tgid := cm_pid_tgid meta;
  ev_uid_gid := cm_uid_gid meta;
  ev_cgroup_id := cm_cgroup_id meta;
  ev_family := family;
  ev_dport := sk_read k sizeof_dport sk (skc_dport ro);
  ev_comm := overlay (ev_comm evt) (cm_comm meta);
  ev_daddr :=
    if family =? AF_INET
    then overlay (ev_daddr evt) (sk_bytes k sizeof_daddr sk (skc_daddr ro))
    else overlay (ev_daddr evt) (sk_read_into k sizeof_v6_daddr sk (skc_v6_daddr ro));
|}.

Section Probe.
Context {MC : bpf_map Z connect_meta} {RB : bpf_ringbuf event}.

Record state := State { st_inflight_connect : MC; st_events : RB }.

Definition inflight_connect : field state MC :=
  Field st_inflight_connect (fun m s => State m (st_events s)).
Definition events : field state RB :=
  Field st_events (fun r s => State (st_inflight_connect s) r).

Implicit Types (k : kenv) (ro : sock_relo).

Definition remember_connect k (sk : Z) : prog state Z :=
  let key := sk in
  if sk =? 0 then mret 0
  else
    let value := {|
      cm_pid_tgid := bpf_get_current_pid_tgid k;
      cm_uid_gid := bpf_get_current_uid_gid k;
      cm_cgroup_id := bpf_get_current_cgroup_id k;
      cm_comm := bpf_get_current_comm k TASK_COMM_LEN |} in
    bpf_map_update_elem inflight_connect key value BPF_ANY;; mret 0.

(** The bodies of the programs, on their arguments. *)
Definition tcp_v4_connect k (sk : Z) : prog state Z := remember_connect k sk.
Definition tcp_v6_connect k (sk : Z) : prog state Z := remember_connect k sk.

Definition tcp_close (sk : Z) : prog state Z :=
  let key := sk in
  if sk =? 0 then mret 0
  else bpf_map_delete_elem inflight_connect key;; mret 0.

Definition tcp_set_state k ro (sk st : Z) : prog state Z :=
  let key := sk in
  if sk =? 0 then mret 0
  else
    meta ← bpf_map_lookup_elem inflight_connect key;
    match meta with
    | None => mret 0
    | Some meta =>
        if negb (st =? BPF_TCP_ESTABLISHED) then
          (if sk_read k sizeof_state sk (skc_state ro) =? BPF_TCP_SYN_SENT
           then bpf_map_delete_elem inflight_connect key;; mret tt
           else mret tt);;
          mret 0
        else if negb (sk_read k sizeof_state sk (skc_state ro) =? BPF_TCP_SYN_SENT) then mret 0
        else
          let family := sk_read k sizeof_family sk (skc_family ro) in
          if negb (family =? AF_INET) && negb (family =? AF_INET6) then mret 0
          else
            evt ← bpf_ringbuf_reserve events sizeof_event 0;
            match evt with
            | None => bpf_map_delete_elem inflight_connect key;; mret 0
            | Some _ =>
                bpf_ringbuf_submit events (fill_event k ro sk family meta zero_event) 0;;
                bpf_map_delete_elem inflight_connect key;; mret 0
            end
    end.

(** [BPF_PROG(name, struct sock *sk)] and [BPF_PROG(name, struct sock *sk, int
    state)]: the body on the arguments taken from the raw context. *)
Definition prog1 (body : Z -> prog state Z) (ctx : nat -> Z) : prog state Z :=
  match BPF_PROG_args ctx [tt] with
  | Some [sk] => body sk
  | _ => mret 0
  end.

Definition prog2 (body : Z -> Z -> prog state Z) (ctx : nat -> Z) : prog state Z :=
  match BPF_PROG_args ctx [tt; tt] with
  | Some [sk; st] => body sk (s32 st)
  | _ => mret 0
  end.

Definition trace_tcp_v4_connect k (ctx : nat -> Z) : prog state Z := prog1 (tcp_v4_connect k) ctx.
Definition trace_tcp_v6_connect k (ctx : nat -> Z) : prog state Z := prog1 (tcp_v6_connect k) ctx.
Definition trace_tcp_close (ctx : nat -> Z) : prog state Z := prog1 tcp_close ctx.
Definition trace_tcp_set_state k ro (ctx : nat -> Z) : prog state Z :=
  prog2 (tcp_set_state k ro) ctx.

Inductive call :=
  | TcpV4Connect (ctx : nat -> Z)
  | TcpV6Connect (ctx : nat -> Z)
  | TcpClose (ctx : nat -> Z)
  | TcpSetState (ctx : nat -> Z).

Definition handle ro k (c : call) : prog state Z :=
  match c with
  | TcpV4Connect ctx => trace_tcp_v4_connect k ctx
  | TcpV6Connect ctx => trace_tcp_v6_connect k ctx
  | TcpClose ctx => trace_tcp_close ctx
  | TcpSetState ctx => trace_tcp_set_state k ro ctx
  end.
End Probe.

Arguments state : clear implicits.
