(* ===== verification/TcpconnTheorems.v ===== *)
(** * TCP connection probe: theorems

    A connection is reported once, with the task that started it and the remote
    end the kernel's socket holds. *)

From S2P Require Import Prelude Helpers RefKernel Tracing CoreRead CoreReadTheorems Tcpconn.

(** ** Sockets in kernel memory *)

(** The socket at [sk] is in state [st], of address family [family], with remote
    port [port] (two bytes in network order) and remote address [daddr]. *)
Record sock_at (m : mem) (ro : sock_relo) (sk st family port : Z) (daddr : list Z) : Prop := {
  at_state : mem_read m (sk + skc_state ro) 1 = Some [st];
  at_family : mem_read m (sk + skc_family ro) 2 = Some (le_encode 2 family);
  at_dport : mem_read m (sk + skc_dport ro) 2 = Some [port / 256; port mod 256];
  at_daddr :
    if family =? AF_INET then mem_read m (sk + skc_daddr ro) 4 = Some daddr
    else mem_read m (sk + skc_v6_daddr ro) 16 = Some daddr;
}.

(** [bits.ReverseBytes16], which the user side applies to the port. *)
Definition reverse_bytes16 (z : Z) : Z := (z mod 256) * 256 + z / 256.

Section Reads.
Context (k : kenv) (m : mem).
Context (Hm : addressable m) (Hk : resident m (bpf_probe_read_kernel k)).

Lemma sk_read_into_at size sk off bs :
  0 < size -> mem_read m (sk + off) (Z.to_nat size) = Some bs -> sk_read_into k size sk off = bs.
Proof.
  intros Hs Hbs. unfold sk_read_into.
  by destruct (core_read_field m Hm k size sk off bs Hk Hs Hbs) as [-> _].
Qed.

Lemma sk_bytes_at size sk off bs :
  0 < size -> mem_read m (sk + off) (Z.to_nat size) = Some bs -> sk_bytes k size sk off = bs.
Proof.
  intros Hs Hbs. unfold sk_bytes.
  by destruct (core_read_field m Hm k size sk off bs Hk Hs Hbs) as [_ ->].
Qed.

Lemma sk_state_at ro sk st family port daddr :
  sock_at m ro sk st family port daddr -> sk_read k sizeof_state sk (skc_state ro) = st.
Proof.
  intros [H _ _ _]. unfold sk_read. rewrite (sk_bytes_at _ _ _ [st]); [simpl; lia|done|exact H].
Qed.

Lemma sk_family_at ro sk st family port daddr :
  0 <= family < 65536 -> sock_at m ro sk st family port daddr ->
  sk_read k sizeof_family sk (skc_family ro) = family.
Proof.
  intros Hf [_ H _ _]. unfold sk_read. rewrite (sk_bytes_at _ _ _ (le_encode 2 family));
    [|done|exact H]. rewrite le_decode_encode. apply Z.mod_small. done.
Qed.

Lemma sk_dport_at ro sk st family port daddr :
  0 <= port < 65536 -> sock_at m ro sk st family port daddr ->
  reverse_bytes16 (sk_read k sizeof_dport sk (skc_dport ro)) = port.
Proof.
  intros Hp [_ _ H _]. unfold sk_read. rewrite (sk_bytes_at _ _ _ [port / 256; port mod 256]);
    [|done|exact H]. unfold reverse_bytes16. cbn [le_decode].
  pose proof (Z.mod_pos_bound port 256). pose proof (Z.div_mod port 256).
  assert (0 <= port / 256 < 256) by lia.
  replace (port / 256 + 256 * (port mod 256 + 256 * 0)) with (port / 256 + port mod 256 * 256) by lia.
  rewrite Z.mod_add, Z.mod_small, Z.div_add, (Z.div_small (port / 256)) by lia. lia.
Qed.

Lemma sk_daddr_at ro sk st family port daddr meta evt :
  ev_daddr evt = zeros 16 -> sock_at m ro sk st family port daddr ->
  ev_daddr (fill_event k ro sk family meta evt) = daddr ++ zeros (16 - length daddr).
Proof.
  intros He [_ _ _ H]. simpl. rewrite He. unfold overlay.
  destruct (family =? AF_INET).
  - rewrite (sk_bytes_at _ _ _ daddr) by (done || exact H). by rewrite drop_zeros.
  - rewrite (sk_read_into_at _ _ _ daddr) by (done || exact H). by rewrite drop_zeros.
Qed.
End Reads.

(** ** Programs *)

(** The socket a program is called on. *)
Definition sk_of (c : call) : Z :=
  match c with
  | TcpV4Connect ctx | TcpV6Connect ctx | TcpClose ctx | TcpSetState ctx => ctx 0%nat
  end.

Definition is_connect (c : call) : bool :=
  match c with TcpV4Connect _ | TcpV6Connect _ => true | _ => false end.

(** The attribution of a connect call. *)
Definition caller (k : kenv) : connect_meta :=
  ConnectMeta (bpf_get_current_pid_tgid k) (bpf_get_current_uid_gid k)
    (bpf_get_current_cgroup_id k) (bpf_get_current_comm k TASK_COMM_LEN).

Section Props.
Context {MC : bpf_map Z connect_meta} {RB : bpf_ringbuf event}.
Context `{!LruOk MC, !RingbufOk RB}.
Context (ro : sock_relo).
Local Abbreviation st := (state MC RB).
Implicit Types (s : st) (k : kenv).

Definition pending (s : st) : gmap Z connect_meta := contents (st_inflight_connect s).
Definition evs (s : st) : list event := samples (st_events s).

Definition can_reserve (s : st) : Prop :=
  exists e r, ringbuf_reserve (st_events s) sizeof_event 0 = (Some e, r).

Lemma prog1_eq (body : Z -> prog st Z) ctx : prog1 body ctx = body (ctx 0%nat).
Proof. done. Qed.

Lemma prog2_eq (body : Z -> Z -> prog st Z) ctx :
  prog2 body ctx = body (ctx 0%nat) (s32 (ctx 1%nat)).
Proof. done. Qed.

Lemma connect_spec k c s :
  is_connect c = true ->
  exec (handle ro k c) s =
  if sk_of c =? 0 then s
  else State (update_elem (st_inflight_connect s) (sk_of c) (caller k) BPF_ANY).2 (st_events s).
Proof.
  destruct c; simpl; intros; try done;
    unfold trace_tcp_v4_connect, trace_tcp_v6_connect; rewrite prog1_eq;
    unfold tcp_v4_connect, tcp_v6_connect, remember_connect; case_match; try done;
    prog_unfold; unfold bpf_map_update_elem; simpl; fold (caller k);
    by destruct (update_elem _ _ _ _).
Qed.

Lemma close_spec k ctx s :
  exec (handle ro k (TcpClose ctx)) s =
  if ctx 0%nat =? 0 then s
  else State (delete_elem (st_inflight_connect s) (ctx 0%nat)).2 (st_events s).
Proof.
  simpl. unfold trace_tcp_close. rewrite prog1_eq. unfold tcp_close. case_match; [done|].
  prog_unfold. unfold bpf_map_delete_elem. simpl. by destruct (delete_elem _ _).
Qed.

(** What a state change does to a tracked socket. *)
Inductive outcome := Keep | Forget | Report (family : Z).

Definition transition k (sk new : Z) : outcome :=
  let old := sk_read k sizeof_state sk (skc_state ro) in
  let family := sk_read k sizeof_family sk (skc_family ro) in
  if negb (old =? BPF_TCP_SYN_SENT) then Keep
  else if negb (new =? BPF_TCP_ESTABLISHED) then Forget
  else if (family =? AF_INET) || (family =? AF_INET6) then Report family else Keep.

Lemma set_state_spec k ctx s :
  let sk := ctx 0%nat in
  exists s', exec (handle ro k (TcpSetState ctx)) s = s' /\
  match pending s !! sk with
  | Some meta =>
      if sk =? 0 then s' = s
      else match transition k sk (s32 (ctx 1%nat)) with
      | Keep => s' = s
      | Forget => pending s' = delete sk (pending s) /\ evs s' = evs s
      | Report family =>
          pending s' = delete sk (pending s) /\
          (evs s' = evs s ++ [fill_event k ro sk family meta zero_event] \/
           evs s' = evs s /\ ~ can_reserve s)
      end
  | None => s' = s
  end.
Proof.
  cbv zeta. eexists. split; [done|]. simpl. unfold trace_tcp_set_state. rewrite prog2_eq.
  generalize (ctx 0%nat) (s32 (ctx 1%nat)). intros sk new. unfold tcp_set_state.
  destruct (sk =? 0); [by case_match|]. prog_unfold. unfold bpf_map_lookup_elem.
  cbn [fget inflight_connect]. rewrite lookup_elem_contents. fold (pending s).
  destruct (pending s !! sk) as [meta|]; [|done]. unfold transition.
  assert (forall s, pending ((let '(r, m) := delete_elem (st_inflight_connect s) sk in
    (r, State m (st_events s))).2) = delete sk (pending s)) as Hd.
  { intros s'. unfold pending. rewrite <- lru_delete_contents. by destruct (delete_elem _ _). }
  assert (forall s, evs ((let '(r, m) := delete_elem (st_inflight_connect s) sk in
    (r, State m (st_events s))).2) = evs s) as He.
  { intros s'. by destruct (delete_elem _ _). }
  set (old := sk_read k sizeof_state sk (skc_state ro)).
  set (family := sk_read k sizeof_family sk (skc_family ro)).
  destruct (old =? BPF_TCP_SYN_SENT), (new =? BPF_TCP_ESTABLISHED); cbn [negb]; try done.
  - rewrite <- negb_orb. destruct ((family =? AF_INET) || (family =? AF_INET6)); [|done].
    cbn [negb]. unfold bpf_ringbuf_reserve, bpf_map_delete_elem. simpl.
    pose proof (reserve_samples (st_events s) sizeof_event 0) as Hs. unfold can_reserve.
    destruct (ringbuf_reserve (st_events s) sizeof_event 0) as [[e|] rb]; simpl in Hs.
    + unfold bpf_ringbuf_submit. simpl. specialize (Hd (State (st_inflight_connect s)
        (ringbuf_submit rb (fill_event k ro sk family meta zero_event) 0))).
      specialize (He (State (st_inflight_connect s)
        (ringbuf_submit rb (fill_event k ro sk family meta zero_event) 0))).
      simpl in Hd, He. destruct (delete_elem _ _) as [r d]. simpl in *. split; [exact Hd|].
      left. rewrite He. unfold evs. simpl. by rewrite submit_samples, Hs.
    + specialize (Hd (State (st_inflight_connect s) rb)). specialize (He (State (st_inflight_connect s) rb)).
      simpl in Hd, He. destruct (delete_elem _ _) as [r d]. simpl in *. split; [exact Hd|].
      right. rewrite He. split; [exact Hs|]. intros (? & ? & ?). done.
  - unfold bpf_map_delete_elem. simpl. specialize (Hd s). specialize (He s).
    destruct (delete_elem _ _). by split.
Qed.

Lemma set_state_untracked k ctx s :
  pending s !! ctx 0%nat = None -> exec (handle ro k (TcpSetState ctx)) s = s.
Proof.
  intros Hn. destruct (set_state_spec k ctx s) as (s' & <- & H). by rewrite Hn in H.
Qed.

(** A state change leaves the entries or drops the one of its socket. *)
Lemma set_state_pending k ctx s :
  pending (exec (handle ro k (TcpSetState ctx)) s) = pending s \/
  pending (exec (handle ro k (TcpSetState ctx)) s) = delete (ctx 0%nat) (pending s).
Proof.
  destruct (set_state_spec k ctx s) as (s' & -> & H).
  destruct (pending s !! ctx 0%nat); [|subst; by left].
  destruct (ctx 0%nat =? 0); [subst; by left|].
  destruct (transition _ _ _); [subst; by left|right; apply H..].
Qed.

(** Only a connect on a socket makes an entry for it. *)
Lemma handle_pending k c sk w s :
  sk_of c <> sk \/ is_connect c = false ->
  pending (exec (handle ro k c) s) !! sk = Some w -> pending s !! sk = Some w.
Proof.
  intros Hc. destruct (is_connect c) eqn:Hconn.
  - destruct Hc as [Hc|]; [|done]. rewrite connect_spec by done. case_match; [done|].
    unfold pending. simpl. by apply update_other.
  - destruct c as [|?|ctx|ctx]; try done.
    + rewrite close_spec. case_match; [done|]. unfold pending. simpl.
      rewrite lru_delete_contents. by intros [_ ?]%lookup_delete_Some.
    + destruct (set_state_pending k ctx s) as [->| ->]; [done|].
      by intros [_ ?]%lookup_delete_Some.
Qed.

Definition run_trace (tr : list (kenv * call)) (s : st) : st :=
  run ((fun kc => handle ro kc.1 kc.2) <$> tr) s.

Lemma tcp_trace_snoc tr k c s :
  run_trace (tr ++ [(k, c)]) s = exec (handle ro k c) (run_trace tr s).
Proof. unfold run_trace. by rewrite fmap_app, run_app. Qed.

Lemma run_trace_pending tr sk w s :
  Forall (fun kc => sk_of kc.2 <> sk \/ is_connect kc.2 = false) tr ->
  pending (run_trace tr s) !! sk = Some w -> pending s !! sk = Some w.
Proof.
  induction tr as [|[k c] tr IH] using rev_ind; [done|].
  intros [Htr Hc]%Forall_app. rewrite tcp_trace_snoc. intros Hw.
  apply IH; [done|]. rewrite Forall_singleton in Hc. eapply handle_pending; [exact Hc|exact Hw].
Qed.

(** The event names the task [meta] was recorded for. *)
Definition attributed (meta : connect_meta) (e : event) : Prop :=
  ev_pid_tgid e = cm_pid_tgid meta /\ ev_uid_gid e = cm_uid_gid meta /\
  ev_cgroup_id e = cm_cgroup_id meta /\ ev_comm e = overlay (zeros 16) (cm_comm meta).

(** A connect call, programs on other sockets, and the end of the handshake: the
    entry is the caller's or was evicted, and the event is filled from it. *)
Lemma connect_reports k1 c tr k2 m ctx s family port daddr :
  let sk := sk_of c in
  let s2 := run_trace tr (exec (handle ro k1 c) s) in
  let s3 := exec (handle ro k2 (TcpSetState ctx)) s2 in
  is_connect c = true -> sk <> 0 ->
  (update_elem (st_inflight_connect s) sk (caller k1) BPF_ANY).1 = 0 ->
  Forall (fun kc => sk_of kc.2 <> sk) tr ->
  ctx 0%nat = sk -> s32 (ctx 1%nat) = BPF_TCP_ESTABLISHED ->
  addressable m -> resident m (bpf_probe_read_kernel k2) ->
  sock_at m ro sk BPF_TCP_SYN_SENT family port daddr ->
  family = AF_INET \/ family = AF_INET6 ->
  pending s3 !! sk = None /\
  (pending s2 !! sk = None /\ s3 = s2 \/
   pending s2 !! sk = Some (caller k1) /\
   (can_reserve s2 -> evs s3 = evs s2 ++ [fill_event k2 ro sk family (caller k1) zero_event])).
Proof.
  cbv zeta. intros Hc Hsk Hup Htr Hctx Hnew Hm Hk Hat Hf.
  set (s2 := run_trace tr _). destruct (pending s2 !! sk_of c) as [meta|] eqn:Hs2.
  2: { rewrite set_state_untracked by (by rewrite Hctx). split; [done|]. by left. }
  assert (meta = caller k1) as ->.
  { apply run_trace_pending in Hs2; [|eapply Forall_impl; [done|by left]].
    rewrite connect_spec in Hs2 by done. rewrite (proj2 (Z.eqb_neq _ _)) in Hs2 by done.
    unfold pending in Hs2. simpl in Hs2. rewrite lru_update_some in Hs2 by done. by simplify_eq. }
  destruct (set_state_spec k2 ctx s2) as (s3 & -> & H). rewrite Hctx, Hs2, Hnew in H.
  rewrite (proj2 (Z.eqb_neq _ _)) in H by done. unfold transition in H.
  assert (0 <= family < 65536) as Hfr by (unfold AF_INET, AF_INET6 in Hf; lia).
  rewrite (sk_state_at _ _ Hm Hk _ _ _ _ _ _ Hat), (sk_family_at _ _ Hm Hk _ _ _ _ _ _ Hfr Hat) in H.
  replace ((family =? AF_INET) || (family =? AF_INET6)) with true in H
    by (by destruct Hf as [-> | ->]). simpl in H.
  destruct H as [-> H]. split; [apply lookup_delete_eq|]. right. split; [done|]. intros Hr.
  destruct H as [H|[_ H]]; [exact H|done].
Qed.

(** An outgoing connection.  A task connects socket [sk]; programs run on
    other sockets; the handshake completes, in whatever context, while the
    socket is in SYN_SENT.  Unless the entry was evicted meanwhile or the ring
    buffer is full, one event is reported: it names the connecting task, the
    address family, the remote address and (after the byte swap of the user
    side) the remote port.  The socket is not tracked any more. *)
Theorem tcp_connect_reported k1 c tr k2 m ctx s family port daddr :
  let sk := sk_of c in
  let s2 := run_trace tr (exec (handle ro k1 c) s) in
  let s3 := exec (handle ro k2 (TcpSetState ctx)) s2 in
  is_connect c = true -> sk <> 0 ->
  (update_elem (st_inflight_connect s) sk (caller k1) BPF_ANY).1 = 0 ->
  Forall (fun kc => sk_of kc.2 <> sk) tr ->
  ctx 0%nat = sk -> s32 (ctx 1%nat) = BPF_TCP_ESTABLISHED ->
  addressable m -> resident m (bpf_probe_read_kernel k2) ->
  sock_at m ro sk BPF_TCP_SYN_SENT family port daddr ->
  family = AF_INET \/ family = AF_INET6 -> 0 <= port < 65536 ->
  pending s3 !! sk = None /\
  (pending s2 !! sk = None /\ s3 = s2 \/
   pending s2 !! sk = Some (caller k1) /\
   (can_reserve s2 -> exists e, evs s3 = evs s2 ++ [e] /\ attributed (caller k1) e /\
      ev_timestamp_ns e = bpf_ktime_get_ns k2 /\ ev_family e = family /\
      reverse_bytes16 (ev_dport e) = port /\ ev_daddr e = daddr ++ zeros (16 - length daddr))).
Proof.
  cbv zeta. intros Hc Hsk Hup Htr Hctx Hnew Hm Hk Hat Hf Hp.
  destruct (connect_reports k1 c tr k2 m ctx s family port daddr) as [H1 [H2|[H2 H3]]]; [done..| |].
  - split; [done|]. by left.
  - split; [done|]. right. split; [done|]. intros Hr. eexists. split; [by apply H3|]. repeat split.
    + by eapply sk_dport_at.
    + by eapply sk_daddr_at.
Qed.

(** The tasks that connected in a trace. *)
Definition connected (tr : list (kenv * call)) (meta : connect_meta) : Prop :=
  exists k c, (k, c) ∈ tr /\ is_connect c = true /\ meta = caller k.

Definition connects (tr : list (kenv * call)) : nat :=
  length (filter (fun kc => is_connect kc.2 = true) tr).

Lemma connected_snoc tr kc meta : connected tr meta -> connected (tr ++ [kc]) meta.
Proof. intros (k & c & ? & ?). exists k, c. split; [by apply elem_of_app; left|done]. Qed.

(** Events and entries after a trace come from its connect calls. *)
Definition accounted (tr : list (kenv * call)) (s s' : st) : Prop :=
  map_Forall (fun _ => connected tr) (pending s') /\
  exists es, evs s' = evs s ++ es /\ (length es + size (pending s') <= connects tr)%nat /\
    Forall (fun e => exists meta, connected tr meta /\ attributed meta e) es.

Lemma accounted_same tr k c s s' s'' :
  accounted tr s s' -> evs s'' = evs s' -> pending s'' ⊆ pending s' ->
  accounted (tr ++ [(k, c)]) s s''.
Proof.
  intros (Hp & es & He & Hl & Hes) Hev Hsub. split.
  - intros sk w Hw. apply connected_snoc. by apply (Hp sk), (lookup_weaken _ _ _ _ Hw).
  - exists es. rewrite Hev. split; [done|]. split.
    + apply map_subseteq_size in Hsub. unfold connects in *. rewrite filter_app, length_app. lia.
    + eapply Forall_impl; [exact Hes|]. intros e (w & ? & ?). exists w.
      split; [by apply connected_snoc|done].
Qed.

Lemma accounted_connect tr k c s s' :
  is_connect c = true -> accounted tr s s' ->
  accounted (tr ++ [(k, c)]) s (exec (handle ro k c) s').
Proof.
  intros Hc Hacc. rewrite connect_spec by done. case_match; [by eapply accounted_same|].
  destruct Hacc as (Hp & es & He & Hl & Hes). unfold accounted, pending, evs. simpl. split.
  - apply map_Forall_update.
    + exists k, c. split; [set_solver|done].
    + intros sk w Hw. apply connected_snoc. by apply (Hp sk).
  - exists es. split; [exact He|]. split.
    + assert (size (contents (update_elem (st_inflight_connect s') (sk_of c) (caller k) BPF_ANY).2)
        <= S (size (pending s')))%nat.
      { destruct (decide ((update_elem (st_inflight_connect s') (sk_of c) (caller k) BPF_ANY).1 = 0)) as [E|E].
        - apply lru_update_sub, map_subseteq_size in E. unfold pending.
          rewrite map_size_insert in E. case_match; simpl in E; lia.
        - apply lru_update_fail, map_subseteq_size in E. unfold pending. lia. }
      unfold connects in *. rewrite filter_app, length_app.
      rewrite filter_cons_True by done. simpl. lia.
    + eapply Forall_impl; [exact Hes|]. intros e (w & ? & ?). exists w.
      split; [by apply connected_snoc|done].
Qed.

Lemma accounted_set_state tr k ctx s s' :
  accounted tr s s' -> accounted (tr ++ [(k, TcpSetState ctx)]) s (exec (handle ro k (TcpSetState ctx)) s').
Proof.
  intros Hacc. destruct (set_state_spec k ctx s') as (s'' & -> & H).
  destruct (pending s' !! ctx 0%nat) as [meta|] eqn:Hm; [|subst; by eapply accounted_same].
  destruct (ctx 0%nat =? 0); [subst; by eapply accounted_same|].
  destruct (transition _ _ _) as [| |family]; [subst; by eapply accounted_same| |].
  - destruct H as [Hd He]. eapply accounted_same; [done..|]. rewrite Hd. apply delete_subseteq.
  - destruct H as [Hd [He|[He _]]].
    2: { eapply accounted_same; [done..|]. rewrite Hd. apply delete_subseteq. }
    destruct Hacc as (Hp & es & Hes & Hl & Hall). split.
    { rewrite Hd. apply map_Forall_delete. intros sk w Hw. apply connected_snoc. by apply (Hp sk). }
    exists (es ++ [fill_event k ro (ctx 0%nat) family meta zero_event]).
    rewrite He, Hes, <- app_assoc. split; [done|]. split.
    + rewrite Hd, map_size_delete, Hm, length_app. simpl. unfold connects in *.
      rewrite filter_app, length_app. simpl.
      assert (size (pending s') <> 0)%nat by (by apply (map_size_ne_0_lookup_2 _ (ctx 0%nat)); rewrite Hm). lia.
    + apply Forall_app. split.
      * eapply Forall_impl; [exact Hall|]. intros e (w & ? & ?). exists w.
        split; [by apply connected_snoc|done].
      * apply Forall_singleton. exists meta. split; [apply connected_snoc; by apply (Hp (ctx 0%nat))|done].
Qed.

(** No connection is reported twice or made up.  Along any trace that starts
    with nothing tracked, the events are at most as many as the connect calls,
    counting the connections still tracked, and each of them names a task that
    did call connect in the trace. *)
Theorem tcp_events_accounted tr s :
  pending s = ∅ ->
  let s' := run_trace tr s in
  exists es, evs s' = evs s ++ es /\ (length es + size (pending s') <= connects tr)%nat /\
    Forall (fun e => exists meta, connected tr meta /\ attributed meta e) es.
Proof.
  intros Hs. cbv zeta. enough (accounted tr s (run_trace tr s)) as [_ H] by done.
  induction tr as [|[k c] tr IH] using rev_ind.
  - split; [simpl; unfold run_trace; simpl; by rewrite Hs|]. exists []. unfold run_trace. simpl.
    rewrite app_nil_r, Hs. by split.
  - rewrite tcp_trace_snoc. destruct (is_connect c) eqn:Hc; [by apply accounted_connect|].
    destruct c as [|?|ctx|ctx]; [done..| |by apply accounted_set_state].
    rewrite close_spec. case_match; [by eapply accounted_same|].
    eapply accounted_same; [done..|]. unfold pending. simpl. rewrite lru_delete_contents.
    apply delete_subseteq.
Qed.

(** A closed socket, and one whose handshake failed, is forgotten: until a
    task connects it again, whatever runs, no state change of it has an
    effect. *)
Theorem tcp_forgotten k c tr k2 ctx s :
  let sk := sk_of c in
  let s2 := run_trace tr (exec (handle ro k c) s) in
  sk <> 0 ->
  match c with
  | TcpClose _ => True
  | TcpSetState ctx =>
      sk_read k sizeof_state sk (skc_state ro) = BPF_TCP_SYN_SENT /\
      s32 (ctx 1%nat) <> BPF_TCP_ESTABLISHED
  | _ => False
  end ->
  Forall (fun kc => sk_of kc.2 <> sk \/ is_connect kc.2 = false) tr -> ctx 0%nat = sk ->
  pending s2 !! sk = None /\ exec (handle ro k2 (TcpSetState ctx)) s2 = s2.
Proof.
  cbv zeta. intros Hsk Hc Htr Hctx.
  enough (pending (run_trace tr (exec (handle ro k c) s)) !! sk_of c = None) as H
    by (split; [done|]; apply set_state_untracked; by rewrite Hctx).
  destruct (pending (run_trace _ _) !! _) eqn:E; [exfalso|done].
  apply run_trace_pending in E; [|done]. destruct c as [|?|ctx'|ctx']; try done; simpl sk_of in *.
  - rewrite close_spec, (proj2 (Z.eqb_neq _ _)) in E by done. unfold pending in E. simpl in E.
    by rewrite lru_delete_contents, lookup_delete_eq in E.
  - destruct Hc as [Hold Hnew]. destruct (set_state_spec k ctx' s) as (s' & Hs' & H).
    rewrite Hs' in E. destruct (pending s !! ctx' 0%nat) eqn:Hp; [|subst; congruence].
    rewrite (proj2 (Z.eqb_neq _ _)) in H by done. unfold transition in H.
    rewrite Hold, (proj2 (Z.eqb_neq _ _) Hnew) in H. simpl in H. destruct H as [H _].
    by rewrite H, lookup_delete_eq in E.
Qed.
End Props.

(** ** Witnesses *)

Module Demo.
(** A socket at 4096 in SYN_SENT, to 192.0.2.7 port 443. *)
Definition ro : sock_relo := SockRelo 0 24 12 16 18.
Definition sock : list Z := [192; 0; 2; 7] ++ zeros 8 ++ [1; 187] ++ zeros 2 ++ [2; 0] ++ [2].
Definition kernel : mem := mem_at 4096 sock.
Definition k1 : kenv := ref_kenv kernel 10 (7 * 2 ^ 32 + 7) 1000 3 0 "curl".
Definition k2 : kenv := ref_kenv kernel 20 (8 * 2 ^ 32 + 8) 1001 3 0 "wget".
Definition softirq : kenv := ref_kenv kernel 30 0 0 1 0 "swapper/0".
Definition args (sk st : Z) : nat -> Z := fun i => nth i [sk; st] 0.
Definition MC : bpf_map Z connect_meta := ref_lru Z connect_meta 16.
Definition RB : bpf_ringbuf event := ref_ringbuf event zero_event.
Definition init : state MC RB := State (MC := MC) (RB := RB) (∅ : gmap Z connect_meta) ([], []).
Definition others : list (kenv * call) :=
  [(k2, TcpV4Connect (args 8192 0)); (k2, TcpClose (args 8192 0))].

Lemma kernel_addressable : addressable kernel.
Proof.
  intros a b. unfold kernel, mem_at. destruct (Z.leb_spec 4096 a); [|done].
  intros E%lookup_lt_Some. change (Z.to_nat (a - 4096) < 19)%nat in E. lia.
Qed.

Lemma at_4096 : sock_at kernel ro 4096 BPF_TCP_SYN_SENT AF_INET 443 [192; 0; 2; 7].
Proof. split; reflexivity. Qed.
End Demo.

Lemma tcp_connect_reported_witness :
  let s2 := run_trace Demo.ro Demo.others
    (exec (handle Demo.ro Demo.k1 (TcpV4Connect (Demo.args 4096 0))) Demo.init) in
  exists e, evs (exec (handle Demo.ro Demo.softirq (TcpSetState (Demo.args 4096 1))) s2)
    = evs s2 ++ [e] /\ attributed (caller Demo.k1) e /\ reverse_bytes16 (ev_dport e) = 443.
Proof.
  destruct (tcp_connect_reported Demo.ro Demo.k1 (TcpV4Connect (Demo.args 4096 0)) Demo.others
    Demo.softirq Demo.kernel (Demo.args 4096 1) Demo.init AF_INET 443 [192; 0; 2; 7])
    as (_ & [[H _]|[_ H]]).
  - reflexivity.
  - discriminate.
  - reflexivity.
  - repeat constructor; discriminate.
  - reflexivity.
  - reflexivity.
  - apply Demo.kernel_addressable.
  - apply ref_resident.
  - apply Demo.at_4096.
  - by left.
  - by split.
  - vm_compute in H. discriminate.
  - destruct H as (e & He & Ha & _ & _ & Hp & _); [eexists _, _; reflexivity|].
    exists e. split; [exact He|]. split; [exact Ha|exact Hp].
Defined.

Lemma tcp_events_accounted_witness :
  let s' := run_trace Demo.ro
    [(Demo.k1, TcpV4Connect (Demo.args 4096 0)); (Demo.softirq, TcpSetState (Demo.args 4096 1));
     (Demo.softirq, TcpSetState (Demo.args 4096 1))] Demo.init in
  exists es, evs s' = es /\ (length es + size (pending s') <= 1)%nat.
Proof.
  destruct (tcp_events_accounted Demo.ro
    [(Demo.k1, TcpV4Connect (Demo.args 4096 0)); (Demo.softirq, TcpSetState (Demo.args 4096 1));
     (Demo.softirq, TcpSetState (Demo.args 4096 1))] Demo.init) as (es & H1 & H2 & _); [reflexivity|].
  exists es. split; [exact H1|exact H2].
Defined.

Lemma tcp_forgotten_witness :
  let s2 := run_trace Demo.ro Demo.others (exec (handle Demo.ro Demo.k1 (TcpClose (Demo.args 4096 0)))
    (exec (handle Demo.ro Demo.k1 (TcpV4Connect (Demo.args 4096 0))) Demo.init)) in
  exec (handle Demo.ro Demo.softirq (TcpSetState (Demo.args 4096 1))) s2 = s2.
Proof.
  apply (tcp_forgotten Demo.ro Demo.k1 (TcpClose (Demo.args 4096 0)) Demo.others Demo.softirq
    (Demo.args 4096 1)); [discriminate|done| |reflexivity].
  repeat constructor; discriminate.
Defined.
