(* ===== verification/Exec.v ===== *)
(** * Process execution probe

    [execve/exec.bpf.c]: a record for every exec, built in a per-CPU buffer that
    is reused, and the files named libssl* that a task opens and maps.  The user
    side's decoder of the exec records ([execve/probe.go]) is here too. *)

From S2P Require Import Prelude Helpers CoreRead.

Definition LIBSSL_LEN : nat := 6.
Definition TASK_COMM_LEN : Z := 16.
Definition MAX_FILENAME_LEN : nat := 256.
Definition MAX_ARGS_LEN : Z := 2048.
Definition MAX_ENTRIES : Z := 4096.
Definition RING_BUFFER_SIZE : Z := 4 * 1024 * 1024.

(** Where the members of [struct task_struct] and [struct mm_struct] are in the
    running kernel; [start_boottime] may not exist there. *)
Record task_relo := TaskRelo {
  t_real_parent : Z;
  t_mm : Z;
  t_tgid : Z;
  t_start_boottime : field_info;
  t_start_time : Z;
  mm_arg_start : Z;
  mm_arg_end : Z;
}.

Record sched_process_ctx := SchedProcessCtx {
  sp_common : Z; sp_filename : Z; sp_pid : Z; sp_old_pid : Z }.
Record openat_ctx := OpenatCtx {
  oc_common : Z; oc_syscall_nr : Z; oc_dfd : Z; oc_filename : Z; oc_flags : Z; oc_mode : Z }.
Record openat_exit_ctx := OpenatExitCtx { ox_common : Z; ox_syscall_nr : Z; ox_ret : Z }.
Record close_ctx := CloseCtx { cc_common : Z; cc_syscall_nr : Z; cc_fd : Z }.
Record mmap_ctx := MmapCtx {
  mc_common : Z; mc_syscall_nr : Z; mc_addr : Z; mc_length : Z; mc_prot : Z; mc_flags : Z;
  mc_fd : Z; mc_offset : Z }.

Record open_key := OpenKey { ok_fd : Z; ok_pid_tgid : Z }.

#[export] Instance open_key_eq_dec : EqDecision open_key.
Proof. solve_decision. Defined.
#[export] Instance open_key_countable : Countable open_key.
Proof.
  apply (inj_countable' (fun k => (ok_fd k, ok_pid_tgid k)) (fun p => OpenKey p.1 p.2)).
  by intros [].
Defined.

Record open_value := OpenValue { ov_filename : list Z }.

(** [p_pad] is the padding behind the last member. *)
Record proc := Proc {
  p_timestamp_ns : Z;
  p_start_time_ns : Z;
  p_parent_start_time_ns : Z;
  p_pid : Z;
  p_ppid : Z;
  p_old_pid : Z;
  p_comm : list Z;
  p_filename : list Z;
  p_args_len : Z;
  p_args_truncated : Z;
  p_pad : list Z;
}.

Definition sizeof_proc : Z := 320.

(** The bytes of the structure in memory. *)
Definition proc_bytes (p : proc) : list Z :=
  le_encode 8 (p_timestamp_ns p) ++ le_encode 8 (p_start_time_ns p) ++
  le_encode 8 (p_parent_start_time_ns p) ++ le_encode 4 (p_pid p) ++ le_encode 4 (p_ppid p) ++
  le_encode 4 (p_old_pid p) ++ p_comm p ++ p_filename p ++ le_encode 4 (p_args_len p) ++
  le_encode 1 (p_args_truncated p) ++ p_pad p.

Record exec_value := ExecValue { ev_proc : proc; ev_args : list Z }.

Definition exec_value_bytes (v : exec_value) : list Z := proc_bytes (ev_proc v) ++ ev_args v.

Record dynlib := Dynlib {
  dl_fd : Z;
  dl_pid_tgid : Z;
  dl_comm : list Z;
  dl_filename : list Z;
}.

Definition sizeof_dynlib : Z := 288.

Definition inflight_open_def : map_def := MapDef BPF_MAP_TYPE_HASH MAX_ENTRIES 8 256.
Definition exec_heap_def : map_def := MapDef BPF_MAP_TYPE_PERCPU_ARRAY 1 4 2368.
Definition inflight_mmap_def : map_def := MapDef BPF_MAP_TYPE_LRU_HASH MAX_ENTRIES 16 256.
Definition fake_proc_map_def : map_def := MapDef BPF_MAP_TYPE_ARRAY 1 4 sizeof_proc.
Definition proc_events_def : map_def := MapDef BPF_MAP_TYPE_RINGBUF RING_BUFFER_SIZE 0 0.
Definition fake_dynlib_map_def : map_def := MapDef BPF_MAP_TYPE_ARRAY 1 4 sizeof_dynlib.
Definition dynlib_events_def : map_def := MapDef BPF_MAP_TYPE_RINGBUF RING_BUFFER_SIZE 0 0.

(** ** Exec records *)

(** [BPF_CORE_READ(p, f)] for a 64-bit and for a [pid_t] member. *)
Definition core_u64 (k : kenv) (p off : Z) : Z := le_decode (default [] (BPF_CORE_READ k 8 p off [])).
Definition core_pid (k : kenv) (p off : Z) : Z :=
  s32 (le_decode (default [] (BPF_CORE_READ k 4 p off []))).

Definition read_task_start_time (k : kenv) (ro : task_relo) (task : Z) : Z :=
  if task =? 0 then 0
  else if negb (bpf_core_field_exists (t_start_boottime ro) =? 0)
  then core_u64 k task (CORE_RELO (t_start_boottime ro) BPF_FIELD_BYTE_OFFSET)
  else core_u64 k task (t_start_time ro).

(** Assignments to members of the buffer. *)
Definition set_args_truncated (t : Z) (v : exec_value) : exec_value :=
  let p := ev_proc v in
  ExecValue (Proc (p_timestamp_ns p) (p_start_time_ns p) (p_parent_start_time_ns p) (p_pid p)
    (p_ppid p) (p_old_pid p) (p_comm p) (p_filename p) (p_args_len p) t (p_pad p)) (ev_args v).
Definition set_args_len (n : Z) (v : exec_value) : exec_value :=
  let p := ev_proc v in
  ExecValue (Proc (p_timestamp_ns p) (p_start_time_ns p) (p_parent_start_time_ns p) (p_pid p)
    (p_ppid p) (p_old_pid p) (p_comm p) (p_filename p) n (p_args_truncated p) (p_pad p)) (ev_args v).
Definition set_args (bs : list Z) (v : exec_value) : exec_value :=
  ExecValue (ev_proc v) (overlay (ev_args v) bs).

Definition read_exec_args (k : kenv) (ro : task_relo) (value : exec_value) : exec_value :=
  let task := bpf_get_current_task_btf k in
  if task =? 0 then value
  else
    let mm := core_u64 k task (t_mm ro) in
    if mm =? 0 then value
    else
      let arg_start := core_u64 k mm (mm_arg_start ro) in
      let arg_end := core_u64 k mm (mm_arg_end ro) in
      if arg_end <=? arg_start then value
      else
        let raw_args_len := u64 (arg_end - arg_start) in
        let '(raw_args_len, value) :=
          if MAX_ARGS_LEN <? raw_args_len then (MAX_ARGS_LEN, set_args_truncated 1 value)
          else (raw_args_len, value) in
        let args_len := u32 raw_args_len in
        if args_len =? 0 then value
        else
          let '(ret, bs) := bpf_probe_read_user k args_len arg_start in
          let value := set_args bs value in
          if ret <? 0 then set_args_truncated 1 value
          else set_args_len args_len value.

(** The number of bytes of the filename to copy, and its address: [filename] is
    a __data_loc word, [ctx] the address of the context. *)
Definition filename_length (filename : Z) : Z :=
  let length := Z.shiftr filename 16 in
  if Z.of_nat MAX_FILENAME_LEN <? length then Z.of_nat MAX_FILENAME_LEN else length.
Definition filename_ptr (ctx filename : Z) : Z := u64 (ctx + Z.land filename 65535).

(** The assignments of [tracepoint_sched_process_exec] up to the filename. *)
Definition fill_proc (k : kenv) (ro : task_relo) (ctxp : Z) (ctx : sched_process_ctx)
    (v : exec_value) : exec_value :=
  let task := bpf_get_current_task_btf k in
  let parent_task := core_u64 k task (t_real_parent ro) in
  let p := ev_proc v in
  ExecValue {|
    p_args_len := 0;
    p_args_truncated := 0;
    p_timestamp_ns := bpf_ktime_get_ns k;
    p_start_time_ns := read_task_start_time k ro task;
    p_parent_start_time_ns := read_task_start_time k ro parent_task;
    p_pid := sp_pid ctx;
    p_ppid := if negb (parent_task =? 0) then core_pid k parent_task (t_tgid ro) else 0;
    p_old_pid := sp_old_pid ctx;
    p_comm := bpf_get_current_comm k TASK_COMM_LEN;
    p_filename := overlay (p_filename p)
      (bpf_probe_read_str k (filename_length (sp_filename ctx))
         (filename_ptr ctxp (sp_filename ctx))).2;
    p_pad := p_pad p |} (ev_args v).

(** ** Library names *)

(** The loop of [is_libssl]: the index behind the last '/' before the NUL. *)
Fixpoint libssl_base (fuel i base : nat) (name : list Z) : nat :=
  match fuel with
  | O => base
  | S fuel' =>
      let c := rd name i in
      if c =? 0 then base
      else libssl_base fuel' (S i) (if c =? 47 (* '/' *) then S i else base) name
  end.

Definition is_libssl (name : list Z) : bool :=
  let base := libssl_base MAX_FILENAME_LEN 0 0 name in
  if (MAX_FILENAME_LEN <? base + LIBSSL_LEN)%nat then false
  else (rd name base =? 108 (* 'l' *)) && (rd name (base + 1) =? 105 (* 'i' *))
    && (rd name (base + 2) =? 98 (* 'b' *)) && (rd name (base + 3) =? 115 (* 's' *))
    && (rd name (base + 4) =? 115 (* 's' *)) && (rd name (base + 5) =? 108 (* 'l' *)).

(** ** Programs *)

Section Probe.
Context {MO : bpf_map Z open_value} {MH : bpf_map Z exec_value} {MM : bpf_map open_key open_value}.
Context {RP : bpf_output_ringbuf} {RD : bpf_ringbuf dynlib}.

Record state := State {
  st_inflight_open : MO;
  st_exec_heap : MH;
  st_inflight_mmap : MM;
  st_proc_events : RP;
  st_dynlib_events : RD;
}.

Definition inflight_open : field state MO := Field st_inflight_open (fun m s =>
  State m (st_exec_heap s) (st_inflight_mmap s) (st_proc_events s) (st_dynlib_events s)).
Definition exec_heap : field state MH := Field st_exec_heap (fun m s =>
  State (st_inflight_open s) m (st_inflight_mmap s) (st_proc_events s) (st_dynlib_events s)).
Definition inflight_mmap : field state MM := Field st_inflight_mmap (fun m s =>
  State (st_inflight_open s) (st_exec_heap s) m (st_proc_events s) (st_dynlib_events s)).
Definition proc_events : field state RP := Field st_proc_events (fun r s =>
  State (st_inflight_open s) (st_exec_heap s) (st_inflight_mmap s) r (st_dynlib_events s)).
Definition dynlib_events : field state RD := Field st_dynlib_events (fun r s =>
  State (st_inflight_open s) (st_exec_heap s) (st_inflight_mmap s) (st_proc_events s) r).

Implicit Types (k : kenv) (ro : task_relo).

Definition tracepoint_sched_process_exec k ro (ctxp : Z) (ctx : sched_process_ctx)
    : prog state Z :=
  if sp_pid ctx =? 0 then mret 0
  else
    value ← bpf_map_lookup_elem exec_heap 0;
    match value with
    | None => mret 0
    | Some value =>
        let value := read_exec_args k ro (fill_proc k ro ctxp ctx value) in
        map_store exec_heap 0 value;;
        let args_len := p_args_len (ev_proc value) in
        if MAX_ARGS_LEN <? args_len then mret 0
        else
          let evt_len := u32 (sizeof_proc + args_len) in
          bpf_ringbuf_output proc_events (exec_value_bytes value) evt_len 0;; mret 0
    end.

Definition tracepoint_sys_enter_openat k (ctx : openat_ctx) : prog state Z :=
  let ov := zeros MAX_FILENAME_LEN in
  let '(length, bs) := bpf_probe_read_user_str k (Z.of_nat MAX_FILENAME_LEN) (oc_filename ctx) in
  let ov := OpenValue (overlay ov bs) in
  if s32 length <=? 0 then mret 0
  else if negb (is_libssl (ov_filename ov)) then mret 0
  else
    let pid_tgid := bpf_get_current_pid_tgid k in
    bpf_map_update_elem inflight_open pid_tgid ov BPF_ANY;; mret 0.

Definition tracepoint_sys_exit_openat k (ctx : openat_exit_ctx) : prog state Z :=
  let pid_tgid := bpf_get_current_pid_tgid k in
  ov ← bpf_map_lookup_elem inflight_open pid_tgid;
  match ov with
  | None => mret 0
  | Some ov =>
      (if ox_ret ctx <? 0 then mret tt
       else
         let key := OpenKey (ox_ret ctx) pid_tgid in
         bpf_map_update_elem inflight_mmap key ov BPF_ANY;; mret tt);;
      bpf_map_delete_elem inflight_open pid_tgid;; mret 0
  end.

Definition tracepoint_sys_enter_mmap k (ctx : mmap_ctx) : prog state Z :=
  let key := OpenKey (s64 (mc_fd ctx)) (bpf_get_current_pid_tgid k) in
  ov ← bpf_map_lookup_elem inflight_mmap key;
  match ov with
  | None => mret 0
  | Some ov =>
      evt ← bpf_ringbuf_reserve dynlib_events sizeof_dynlib 0;
      match evt with
      | None => mret 0
      | Some _ =>
          let evt := Dynlib (mc_fd ctx) (ok_pid_tgid key) (bpf_get_current_comm k TASK_COMM_LEN)
            (ov_filename ov) in
          bpf_ringbuf_submit dynlib_events evt 0;;
          bpf_map_delete_elem inflight_mmap key;; mret 0
      end
  end.

Definition tracepoint_sys_enter_close k (ctx : close_ctx) : prog state Z :=
  let key := OpenKey (s64 (cc_fd ctx)) (bpf_get_current_pid_tgid k) in
  bpf_map_delete_elem inflight_mmap key;; mret 0.

Inductive call :=
  | SchedProcessExec (ctxp : Z) (ctx : sched_process_ctx)
  | SysEnterOpenat (ctx : openat_ctx)
  | SysExitOpenat (ctx : openat_exit_ctx)
  | SysEnterMmap (ctx : mmap_ctx)
  | SysEnterClose (ctx : close_ctx).

Definition handle ro k (c : call) : prog state Z :=
  match c with
  | SchedProcessExec ctxp ctx => tracepoint_sched_process_exec k ro ctxp ctx
  | SysEnterOpenat ctx => tracepoint_sys_enter_openat k ctx
  | SysExitOpenat ctx => tracepoint_sys_exit_openat k ctx
  | SysEnterMmap ctx => tracepoint_sys_enter_mmap k ctx
  | SysEnterClose ctx => tracepoint_sys_enter_close k ctx
  end.
End Probe.

Arguments state : clear implicits.

(** ** The decoder of [execve/probe.go] *)

Module Decoder.
(** [tool.CharsToString]. *)
Fixpoint CharsToString (arr : list Z) : list Z :=
  match arr with
  | [] => []
  | v :: arr' => if v =? 0 then [] else v :: CharsToString arr'
  end.

(** [binary.Read] of an [execProc], little-endian; the blank member is skipped. *)
Definition bytes_at (raw : list Z) (off n : nat) : list Z := take n (drop off raw).
Definition headerSize : nat := 320.
Definition read_header (raw : list Z) : proc := {|
  p_timestamp_ns := le_decode (bytes_at raw 0 8);
  p_start_time_ns := le_decode (bytes_at raw 8 8);
  p_parent_start_time_ns := le_decode (bytes_at raw 16 8);
  p_pid := s32 (le_decode (bytes_at raw 24 4));
  p_ppid := s32 (le_decode (bytes_at raw 28 4));
  p_old_pid := s32 (le_decode (bytes_at raw 32 4));
  p_comm := bytes_at raw 36 16;
  p_filename := bytes_at raw 52 256;
  p_args_len := le_decode (bytes_at raw 308 4);
  p_args_truncated := le_decode (bytes_at raw 312 1);
  p_pad := [] |}.

(** [bytes.TrimRight(raw, "\x00")]. *)
Fixpoint trim_left (l : list Z) : list Z :=
  match l with
  | [] => []
  | c :: l' => if c =? 0 then trim_left l' else l
  end.
Definition trim_right (raw : list Z) : list Z := reverse (trim_left (reverse raw)).

(** [strings.FieldsFunc] on NUL: the non-empty runs between NULs. *)
Definition flush (cur : list Z) : list (list Z) := match cur with [] => [] | _ => [cur] end.
Fixpoint fields (cur l : list Z) : list (list Z) :=
  match l with
  | [] => flush cur
  | c :: l' => if c =? 0 then flush cur ++ fields [] l' else fields (cur ++ [c]) l'
  end.

(** [strings.Join(parts, " ")]. *)
Fixpoint join (parts : list (list Z)) : list Z :=
  match parts with
  | [] => []
  | [p] => p
  | p :: parts' => p ++ 32 :: join parts'
  end.

Definition decodeExecArgsBuffer (raw : list Z) : list Z := join (fields [] (trim_right raw)).

Inductive error := ShortRecord | InvalidArgsLength | InvalidRecordSize.

Record parsedExecEvent := ParsedExecEvent { pe_proc : proc; pe_args : list Z }.

Definition parseExecRecord (raw : list Z) : error + parsedExecEvent :=
  if (length raw <? headerSize)%nat then inl ShortRecord
  else
    let header := read_header (take headerSize raw) in
    if MAX_ARGS_LEN <? p_args_len header then inl InvalidArgsLength
    else if negb (Z.of_nat (length raw) =? Z.of_nat headerSize + p_args_len header)
    then inl InvalidRecordSize
    else inr (ParsedExecEvent header (decodeExecArgsBuffer (drop headerSize raw))).
End Decoder.
