(* ===== verification/Wire.v ===== *)
(** The structures the probes and the user side exchange.

    For every structure that crosses the border, the C declaration of the probe
    and the Go declaration that reads it (generated in [*_bpfel.go], by hand in
    [tcpconn/probe.go]) as types of [Layout].  The class [Wire] ties an event
    record of a probe's model to both, and [wire_read] says that [binary.Read]
    gives back the event, whatever the padding of the sample holds. *)

From S2P Require Import Prelude Layout Fileop Tls Postgres Stdio Tcpconn Exec Helpers.

#[local] Open Scope string_scope.

Definition c_u8 : ctype := CInt U8.
Definition c_u16 : ctype := CInt U16.
Definition c_u32 : ctype := CInt U32.
Definition c_u64 : ctype := CInt U64.
Definition c_s32 : ctype := CInt S32.
Definition c_long : ctype := CInt S64.
Definition c_char (n : Z) : ctype := CArray S8 n.
Definition c_u8s (n : Z) : ctype := CArray U8 n.

Definition uint8 : gotype := GInt U8.
Definition uint16 : gotype := GInt U16.
Definition uint32 : gotype := GInt U32.
Definition uint64 : gotype := GInt U64.
Definition int32 : gotype := GInt S32.
Definition int64 : gotype := GInt S64.
Definition int8s (n : Z) : gotype := GArray S8 n.
Definition uint8s (n : Z) : gotype := GArray U8 n.

(** ** C declarations *)

Module C.
Definition fileop_fd_key : ctype := CStruct [("tgid", c_u32); ("fd", c_u32)].

Definition fileop_path_value : ctype := CStruct [
  ("path", c_char 256); ("write_bytes", c_u64); ("open_flags", c_u64); ("seen_flags", c_u8)].

Definition fileop_event : ctype := CStruct [
  ("timestamp_ns", c_u64); ("pid_tgid", c_u64); ("uid_gid", c_u64); ("cgroup_id", c_u64);
  ("bytes", c_u64); ("flags", c_u64); ("op", c_u8); ("comm", c_char 16);
  ("path", c_char 256); ("new_path", c_char 256)].

Definition ssl_call_info : ctype := CStruct [
  ("buf_addr", c_u64); ("len", c_u64); ("ssl_ptr", c_u64)].

Definition ssl_call_info_ex : ctype := CStruct [
  ("base", ssl_call_info); ("consumed_len_ptr", c_u64)].

Definition ssl_event : ctype := CStruct [
  ("timestamp_ns", c_u64); ("pid_tgid", c_u64); ("uid_gid", c_u64); ("cgroup_id", c_u64);
  ("ssl_ptr", c_u64); ("req_len", c_u64); ("data_len", c_u64); ("rw", c_u8);
  ("comm", c_char 16); ("data", c_u8s 65536)].

Definition stdio_inflight_read : ctype := CStruct [
  ("buf", c_u64); ("count", c_u64); ("fd", c_u64)].

Definition stdio_event : ctype := CStruct [
  ("timestamp_ns", c_u64); ("pid_tgid", c_u64); ("uid_gid", c_u64); ("req_len", c_u64);
  ("cgroup_id", c_u64); ("data_len", c_u64); ("fd", c_u64); ("rw", c_u8);
  ("data", c_u8s 131072); ("comm", c_char 16)].

Definition pg_conn_key : ctype := CStruct [("pid_tgid", c_u64); ("fd", c_u64)].

Definition pg_event : ctype := CStruct [
  ("timestamp_ns", c_u64); ("pid_tgid", c_u64); ("uid_gid", c_u64); ("req_len", c_u64);
  ("cgroup_id", c_u64); ("data_len", c_u64); ("fd", c_u64); ("msg_type", c_u8);
  ("data", c_u8s 16384); ("comm", c_char 16)].

Definition tcpconn_event : ctype := CStruct [
  ("timestamp_ns", c_u64); ("pid_tgid", c_u64); ("uid_gid", c_u64); ("cgroup_id", c_u64);
  ("family", c_u16); ("dport", c_u16); ("comm", c_char 16); ("daddr", c_u8s 16)].

Definition tcpconn_connect_meta : ctype := CStruct [
  ("pid_tgid", c_u64); ("uid_gid", c_u64); ("cgroup_id", c_u64); ("comm", c_char 16)].

Definition exec_open_key : ctype := CStruct [("fd", c_long); ("pid_tgid", c_u64)].

Definition exec_open_value : ctype := CStruct [("filename", c_char 256)].

Definition exec_proc : ctype := CStruct [
  ("timestamp_ns", c_u64); ("start_time_ns", c_u64); ("parent_start_time_ns", c_u64);
  ("pid", c_s32); ("ppid", c_s32); ("old_pid", c_s32); ("comm", c_char 16);
  ("filename", c_char 256); ("args_len", c_u32); ("args_truncated", c_u8)].

Definition exec_exec_value : ctype := CStruct [("proc", exec_proc); ("args", c_char 2048)].

Definition exec_dynlib : ctype := CStruct [
  ("fd", c_u64); ("pid_tgid", c_u64); ("comm", c_char 16); ("filename", c_char 256)].
End C.

(** ** Go declarations *)

Module G.
Definition fileopFdKey : gotype := GStruct [("_", HostLayout); ("Tgid", uint32); ("Fd", uint32)].

Definition fileopPathValue : gotype := GStruct [
  ("_", HostLayout); ("Path", int8s 256); ("WriteBytes", uint64); ("OpenFlags", uint64);
  ("SeenFlags", uint8); ("_", uint8s 7)].

Definition fileopEvent : gotype := GStruct [
  ("_", HostLayout); ("TimestampNs", uint64); ("PidTgid", uint64); ("UidGid", uint64);
  ("CgroupId", uint64); ("Bytes", uint64); ("Flags", uint64); ("Op", uint8);
  ("Comm", int8s 16); ("Path", int8s 256); ("NewPath", int8s 256); ("_", uint8s 7)].

Definition sslCallInfo : gotype := GStruct [
  ("_", HostLayout); ("BufAddr", uint64); ("Len", uint64); ("SslPtr", uint64)].

Definition sslCallInfoEx : gotype := GStruct [
  ("_", HostLayout); ("Base", sslCallInfo); ("ConsumedLenPtr", uint64)].

Definition sslEvent : gotype := GStruct [
  ("_", HostLayout); ("TimestampNs", uint64); ("PidTgid", uint64); ("UidGid", uint64);
  ("CgroupId", uint64); ("SslPtr", uint64); ("ReqLen", uint64); ("DataLen", uint64);
  ("Rw", uint8); ("Comm", int8s 16); ("Data", uint8s 65536); ("_", uint8s 7)].

Definition boringCallInfo : gotype := GStruct [
  ("_", HostLayout); ("BufAddr", uint64); ("Len", uint64); ("SslPtr", uint64)].

Definition boringEvent : gotype := GStruct [
  ("_", HostLayout); ("TimestampNs", uint64); ("PidTgid", uint64); ("UidGid", uint64);
  ("CgroupId", uint64); ("SslPtr", uint64); ("ReqLen", uint64); ("DataLen", uint64);
  ("Rw", uint8); ("Comm", int8s 16); ("Data", uint8s 65536); ("_", uint8s 7)].

Definition stdioInflightRead : gotype := GStruct [
  ("_", HostLayout); ("Buf", uint64); ("Count", uint64); ("Fd", uint64)].

Definition stdioEvent : gotype := GStruct [
  ("_", HostLayout); ("TimestampNs", uint64); ("PidTgid", uint64); ("UidGid", uint64);
  ("ReqLen", uint64); ("CgroupId", uint64); ("DataLen", uint64); ("Fd", uint64);
  ("Rw", uint8); ("Data", uint8s 131072); ("Comm", int8s 16); ("_", uint8s 7)].

Definition pgConnKey : gotype := GStruct [("_", HostLayout); ("PidTgid", uint64); ("Fd", uint64)].

Definition pgEvent : gotype := GStruct [
  ("_", HostLayout); ("TimestampNs", uint64); ("PidTgid", uint64); ("UidGid", uint64);
  ("ReqLen", uint64); ("CgroupId", uint64); ("DataLen", uint64); ("Fd", uint64);
  ("MsgType", uint8); ("Data", uint8s 16384); ("Comm", int8s 16); ("_", uint8s 7)].

(** [type event] of [tcpconn/probe.go], written by hand. *)
Definition tcpconnEvent : gotype := GStruct [
  ("TimestampNs", uint64); ("PidTgid", uint64); ("UidGid", uint64); ("CgroupId", uint64);
  ("Family", uint16); ("Dport", uint16); ("Comm", int8s 16); ("Daddr", uint8s 16)].

Definition tcpconnConnectMeta : gotype := GStruct [
  ("_", HostLayout); ("PidTgid", uint64); ("UidGid", uint64); ("CgroupId", uint64);
  ("Comm", int8s 16)].

Definition execOpenKey : gotype := GStruct [("_", HostLayout); ("Fd", int64); ("PidTgid", uint64)].

Definition execOpenValue : gotype := GStruct [("_", HostLayout); ("Filename", int8s 256)].

Definition execProc : gotype := GStruct [
  ("_", HostLayout); ("TimestampNs", uint64); ("StartTimeNs", uint64);
  ("ParentStartTimeNs", uint64); ("Pid", int32); ("Ppid", int32); ("OldPid", int32);
  ("Comm", int8s 16); ("Filename", int8s 256); ("ArgsLen", uint32); ("ArgsTruncated", uint8);
  ("_", uint8s 7)].

Definition execExecValue : gotype := GStruct [
  ("_", HostLayout); ("Proc", execProc); ("Args", int8s 2048)].

Definition execDynlib : gotype := GStruct [
  ("_", HostLayout); ("Fd", uint64); ("PidTgid", uint64); ("Comm", int8s 16);
  ("Filename", int8s 256)].
End G.

(** Every C structure, the Go structure for it, and the size the models use for
    it: of ring buffer records, of keys and of values of maps. *)
Definition structures : list (ctype * gotype * Z) := [
  (C.fileop_fd_key, G.fileopFdKey, md_key_size Fileop.fd_paths_def);
  (C.fileop_path_value, G.fileopPathValue, md_value_size Fileop.fd_paths_def);
  (C.fileop_event, G.fileopEvent, Fileop.sizeof_event);
  (C.ssl_call_info, G.sslCallInfo, md_value_size Tls.Ssl.start_map_def);
  (C.ssl_call_info_ex, G.sslCallInfoEx, md_value_size Tls.Ssl.start_ex_map_def);
  (C.ssl_event, G.sslEvent, Tls.sizeof_event);
  (C.ssl_call_info, G.boringCallInfo, md_value_size Tls.Boring.start_map_def);
  (C.ssl_event, G.boringEvent, Tls.sizeof_event);
  (C.stdio_inflight_read, G.stdioInflightRead, md_value_size Stdio.inflight_def);
  (C.stdio_event, G.stdioEvent, Stdio.sizeof_event);
  (C.pg_conn_key, G.pgConnKey, md_key_size Postgres.inflight_def);
  (C.pg_event, G.pgEvent, Postgres.sizeof_event);
  (C.tcpconn_connect_meta, G.tcpconnConnectMeta, md_value_size Tcpconn.inflight_connect_def);
  (C.exec_open_key, G.execOpenKey, md_key_size Exec.inflight_mmap_def);
  (C.exec_open_value, G.execOpenValue, md_value_size Exec.inflight_open_def);
  (C.exec_proc, G.execProc, Exec.sizeof_proc);
  (C.exec_exec_value, G.execExecValue, md_value_size Exec.exec_heap_def);
  (C.exec_dynlib, G.execDynlib, Exec.sizeof_dynlib)].

(** ** Events on the wire *)

(** An event record [E] of a probe's model: its structure on both sides and the
    values of its members, in order. *)
Class Wire (E : Type) := {
  wire_c : ctype;
  wire_go : gotype;
  wire_values : E -> list (list Z);
}.

(** The members of [e] have the sizes of their declarations. *)
Definition wire_shaped `{Wire E} (e : E) : Prop := shaped (c_leaves wire_c) (wire_values e).

(** The bytes the consumer reads for [e]; [fill] is the padding. *)
Definition sample `{Wire E} (fill : Z -> Z) (e : E) : list Z := image fill wire_c (wire_values e).

(** What the two sides promise each other. *)
Class WireOk (E : Type) `{Wire E} : Prop := wire_mirrors : mirrors wire_c wire_go = true.

Lemma wire_read `{WireOk E} fill (e : E) :
  wire_shaped e ->
  binary_Read wire_go (sample fill e) =
  Some (zip_with (fun l v => wrap (lf_typ l) <$> v) (c_leaves wire_c) (wire_values e)).
Proof. intros. by apply binary_Read_image. Qed.

#[export] Instance fileop_wire : Wire Fileop.event := {
  wire_c := C.fileop_event;
  wire_go := G.fileopEvent;
  wire_values e := [[Fileop.ev_timestamp_ns e]; [Fileop.ev_pid_tgid e]; [Fileop.ev_uid_gid e];
    [Fileop.ev_cgroup_id e]; [Fileop.ev_bytes e]; [Fileop.ev_flags e]; [Fileop.ev_op e];
    Fileop.ev_comm e; Fileop.ev_path e; Fileop.ev_new_path e];
}.

#[export] Instance tls_wire : Wire Tls.event := {
  wire_c := C.ssl_event;
  wire_go := G.sslEvent;
  wire_values e := [[Tls.ev_timestamp_ns e]; [Tls.ev_pid_tgid e]; [Tls.ev_uid_gid e];
    [Tls.ev_cgroup_id e]; [Tls.ev_ssl_ptr e]; [Tls.ev_req_len e]; [Tls.ev_data_len e];
    [Tls.ev_rw e]; Tls.ev_comm e; Tls.ev_data e];
}.

#[export] Instance stdio_wire : Wire Stdio.event := {
  wire_c := C.stdio_event;
  wire_go := G.stdioEvent;
  wire_values e := [[Stdio.ev_timestamp_ns e]; [Stdio.ev_pid_tgid e]; [Stdio.ev_uid_gid e];
    [Stdio.ev_req_len e]; [Stdio.ev_cgroup_id e]; [Stdio.ev_data_len e]; [Stdio.ev_fd e];
    [Stdio.ev_rw e]; Stdio.ev_data e; Stdio.ev_comm e];
}.

#[export] Instance pg_wire : Wire Postgres.event := {
  wire_c := C.pg_event;
  wire_go := G.pgEvent;
  wire_values e := [[Postgres.ev_timestamp_ns e]; [Postgres.ev_pid_tgid e];
    [Postgres.ev_uid_gid e]; [Postgres.ev_req_len e]; [Postgres.ev_cgroup_id e];
    [Postgres.ev_data_len e]; [Postgres.ev_fd e]; [Postgres.ev_msg_type e];
    Postgres.ev_data e; Postgres.ev_comm e];
}.

#[export] Instance tcpconn_wire : Wire Tcpconn.event := {
  wire_c := C.tcpconn_event;
  wire_go := G.tcpconnEvent;
  wire_values e := [[Tcpconn.ev_timestamp_ns e]; [Tcpconn.ev_pid_tgid e];
    [Tcpconn.ev_uid_gid e]; [Tcpconn.ev_cgroup_id e]; [Tcpconn.ev_family e];
    [Tcpconn.ev_dport e]; Tcpconn.ev_comm e; Tcpconn.ev_daddr e];
}.

#[export] Instance dynlib_wire : Wire Exec.dynlib := {
  wire_c := C.exec_dynlib;
  wire_go := G.execDynlib;
  wire_values e := [[Exec.dl_fd e]; [Exec.dl_pid_tgid e]; Exec.dl_comm e; Exec.dl_filename e];
}.

#[export] Instance fileop_wire_ok : WireOk Fileop.event.
Proof. by vm_compute. Qed.
#[export] Instance tls_wire_ok : WireOk Tls.event.
Proof. by vm_compute. Qed.
#[export] Instance stdio_wire_ok : WireOk Stdio.event.
Proof. by vm_compute. Qed.
#[export] Instance pg_wire_ok : WireOk Postgres.event.
Proof. by vm_compute. Qed.
#[export] Instance tcpconn_wire_ok : WireOk Tcpconn.event.
Proof. by vm_compute. Qed.
#[export] Instance dynlib_wire_ok : WireOk Exec.dynlib.
Proof. by vm_compute. Qed.
