(* ===== verification/WireTheorems.v ===== *)
(** The samples in the ring buffers are what their declarations say.

    Whatever programs of a probe ran, every event in its ring buffer has members
    of the declared sizes and a data length within its data member, so that the
    user side can decode it and cut its data. *)

From S2P Require Import Prelude Layout Helpers RefKernel Tracing.
From S2P Require Import Fileop FileopSpec FileopProps Tls TlsTheorems Postgres PostgresTheorems.
From S2P Require Import Stdio StdioTheorems Tcpconn TcpconnTheorems Exec Wire.

(** The helpers of an invocation fill the buffers they are given. *)
Record sized (k : kenv) : Prop := {
  sized_user : forall n a, 0 <= n -> length (bpf_probe_read_user k n a).2 = Z.to_nat n;
  sized_read : forall n a, 0 <= n -> length (bpf_probe_read k n a).2 = Z.to_nat n;
  sized_comm : forall n, 0 < n -> length (bpf_get_current_comm k n) = Z.to_nat n;
}.

Lemma ref_sized m now pid uid cg task name : sized (ref_kenv m now pid uid cg task name).
Proof.
  assert (forall n a, 0 <= n -> length (ref_read m n a).2 = Z.to_nat n) as Hread.
  { intros n a Hn. pose proof (ref_read_spec m n a Hn) as H. destruct (ref_read m n a). apply H. }
  split; [exact Hread..|]. intros n.
  intros Hn. by destruct (ref_kenv_comm m now pid uid cg task name n Hn).
Qed.

Lemma ref_reserves {E} (uninit : E) (Q : E -> Prop) : Q uninit -> reserves (ref_ringbuf E uninit) Q.
Proof. intros HQ [[|[] ok] l] n fl e; simpl; intros; simplify_eq; done. Qed.

(** The layout of a structure, evaluated. *)
Ltac leaves :=
  match goal with
  | |- context [c_leaves ?t] =>
      let l := eval vm_compute in (c_leaves t) in change (c_leaves t) with l
  end.

Ltac solve_shaped :=
  unfold wire_shaped, shaped; intros; leaves;
  repeat (apply Forall2_cons; split; [first [done | cbn [lf_count]; lia]|]); apply Forall2_nil; done.

Lemma tls_shaped (e : Tls.event) :
  length (Tls.ev_comm e) = 16%nat -> Z.of_nat (length (Tls.ev_data e)) = 65536 -> wire_shaped e.
Proof. solve_shaped. Qed.

Lemma stdio_shaped (e : Stdio.event) :
  Z.of_nat (length (Stdio.ev_data e)) = 131072 -> length (Stdio.ev_comm e) = 16%nat -> wire_shaped e.
Proof. solve_shaped. Qed.

Lemma pg_shaped (e : Postgres.event) :
  Z.of_nat (length (Postgres.ev_data e)) = 16384 -> length (Postgres.ev_comm e) = 16%nat ->
  wire_shaped e.
Proof. solve_shaped. Qed.

Lemma tcpconn_shaped (e : Tcpconn.event) :
  length (Tcpconn.ev_comm e) = 16%nat -> length (Tcpconn.ev_daddr e) = 16%nat -> wire_shaped e.
Proof. solve_shaped. Qed.

Lemma fileop_shaped (e : Fileop.event) :
  length (Fileop.ev_comm e) = 16%nat -> length (Fileop.ev_path e) = 256%nat ->
  length (Fileop.ev_new_path e) = 256%nat -> wire_shaped e.
Proof. solve_shaped. Qed.

Lemma dynlib_shaped (e : Exec.dynlib) :
  length (Exec.dl_comm e) = 16%nat -> length (Exec.dl_filename e) = 256%nat -> wire_shaped e.
Proof. solve_shaped. Qed.

(** A structure is as large as the program takes it to be on both sides, its
    members are naturally aligned, and Go reads them where C puts them. *)
Definition structure_ok (x : ctype * gotype * Z) : bool :=
  let '(c, g, n) := x in
  mirrors c g && (sizeof c =? n) && (binary_Size g =? n) &&
  forallb (fun l => lf_off l mod Z.of_nat (width (lf_typ l)) =? 0) (c_leaves c).

(** C33. The two sides agree on their data.  Every structure of the probes has
    the size that the program passes for it (records of ring buffers, keys and
    values of maps), its members are naturally aligned, and the generated Go
    structure has the same members at the same offsets, with the same integer
    types and under the corresponding names, and the same size.  The event that
    [tcpconn/probe.go] declares by hand mirrors the C event too; it leaves out
    the four bytes of padding at the end. *)
Theorem structures_mirrored :
  Forall (fun '(c, g, n) => mirrors c g = true /\ sizeof c = n /\ binary_Size g = n /\
    Forall (fun l => lf_off l mod Z.of_nat (width (lf_typ l)) = 0) (c_leaves c)) structures /\
  mirrors C.tcpconn_event G.tcpconnEvent = true /\
  sizeof C.tcpconn_event = Tcpconn.sizeof_event /\ binary_Size G.tcpconnEvent = 68.
Proof.
  split; [|by vm_compute]. assert (forallb structure_ok structures = true) as H by (by vm_compute).
  rewrite forallb_forall in H. apply Forall_forall. intros [[c g] n] Hin.
  specialize (H (c, g, n)). rewrite <- list_elem_of_In in H. specialize (H Hin).
  unfold structure_ok in H. zbool. split_and!; [done..|]. apply Forall_forall. intros l Hl.
  match goal with H : forallb _ _ = true |- _ => rewrite forallb_forall in H; specialize (H l) end.
  rewrite list_elem_of_In in Hl. by apply Z.eqb_eq; auto.
Qed.

(** A read of at most the buffer's length stays inside the buffer. *)
Lemma length_overlay_read buf n (bs : list Z) :
  0 <= n <= Z.of_nat (length buf) -> length bs = Z.to_nat n ->
  length (overlay buf bs) = length buf.
Proof. intros. apply length_overlay. lia. Qed.

(** ** Postgres *)

(** What an event of the probe is: its shape, and a length that fits. *)
Definition pg_sound (e : Postgres.event) : Prop :=
  is_supported_pg_msg_type (Postgres.ev_msg_type e) = true /\
  0 < Postgres.ev_data_len e <= Postgres.MAX_BUF_SIZE /\
  Z.of_nat (length (Postgres.ev_data e)) = Postgres.MAX_BUF_SIZE /\
  length (Postgres.ev_comm e) = 16%nat.

Definition pg_memory (e : Postgres.event) : Prop :=
  Z.of_nat (length (Postgres.ev_data e)) = Postgres.MAX_BUF_SIZE.

Lemma pg_events_sound {MI : bpf_map conn_key Z} {RB : bpf_ringbuf Postgres.event}
    `{!HashOk MI, !RingbufOk RB} (tr : list (kenv * Postgres.call)) (s : Postgres.state MI RB) :
  reserves RB pg_memory -> Forall (fun kc => sized kc.1) tr ->
  conns s = ∅ -> PostgresTheorems.evs s = [] ->
  Forall pg_sound (PostgresTheorems.evs (run ((fun kc => Postgres.handle kc.1 kc.2) <$> tr) s)).
Proof.
  intros Hres Htr H1 H2. apply (pg_trace_inv pg_sound); [|done..].
  eapply Forall_impl; [exact Htr|]. intros kc Hk key req_len tag buf l evt Ht Hl (r & n & fl & Hr).
  apply Hres in Hr. unfold pg_memory in Hr. split; [done|]. split; [done|]. simpl. split.
  - erewrite length_overlay_read; [done| |apply sized_user; [done|lia]]. lia.
  - by apply (sized_comm _ Hk 16).
Qed.

(** ** Stdio *)

Definition stdio_sound (e : Stdio.event) : Prop :=
  (Stdio.ev_rw e = 4 \/ Stdio.ev_rw e = 2) /\
  0 < Stdio.ev_data_len e <= Stdio.MAX_BUF_SIZE /\
  Z.of_nat (length (Stdio.ev_data e)) = Stdio.MAX_BUF_SIZE /\
  length (Stdio.ev_comm e) = 16%nat.

Definition stdio_memory (e : Stdio.event) : Prop :=
  Z.of_nat (length (Stdio.ev_data e)) = Stdio.MAX_BUF_SIZE.

Section Stdio.
Context {MI : bpf_map Z inflight_read} {RB : bpf_ringbuf Stdio.event}.
Context `{!HashOk MI, !RingbufOk RB}.
Context (Hres : reserves RB stdio_memory).
Implicit Types s : Stdio.state MI RB.

Lemma stdio_emit_sound k buf req_len l fd rw s :
  sized k -> 0 < l <= Stdio.MAX_BUF_SIZE -> rw = 4 \/ rw = 2 ->
  Forall stdio_sound (StdioTheorems.evs s) ->
  Forall stdio_sound (StdioTheorems.evs (exec (emit_stdio_event k buf req_len l fd rw) s)).
Proof.
  intros Hk Hl Hrw HI. unfold emit_stdio_event. prog_unfold. unfold bpf_ringbuf_reserve. simpl.
  pose proof (reserve_samples (Stdio.st_events s) Stdio.sizeof_event 0) as Hs.
  pose proof (Hres (Stdio.st_events s) Stdio.sizeof_event 0) as Hm.
  unfold StdioTheorems.evs in *.
  destruct (ringbuf_reserve (Stdio.st_events s) Stdio.sizeof_event 0) as [[evt|] rb]; simpl in *;
    [|by rewrite Hs].
  rewrite submit_samples, Hs. apply Forall_app_2; [done|]. constructor; [|constructor].
  specialize (Hm evt eq_refl). unfold stdio_memory in Hm.
  split; [done|]. split; [done|]. simpl. split.
  - erewrite length_overlay_read; [done| |apply sized_read; [done|lia]]. lia.
  - by apply (sized_comm _ Hk 16).
Qed.

Lemma clamp_pos n : u32 n <> 0 -> 0 < clamp n <= Stdio.MAX_BUF_SIZE.
Proof.
  intros Hn. unfold clamp. pose proof (u32_range n).
  destruct (Z.ltb_spec Stdio.MAX_BUF_SIZE (u32 n)); unfold Stdio.MAX_BUF_SIZE in *; lia.
Qed.

Lemma is_mcp_pos k buf n : is_mcp_json_str k buf n = true -> 0 < n.
Proof.
  unfold is_mcp_json_str. change (Z.of_nat PEEK_BYTES) with 4.
  destruct (Z.ltb_spec n 4); [done|]. lia.
Qed.

Lemma stdio_handle_sound k c s :
  sized k -> Forall stdio_sound (StdioTheorems.evs s) ->
  Forall stdio_sound (StdioTheorems.evs (exec (Stdio.handle k c) s)).
Proof.
  intros Hk HI. destruct c as [ctx|ctx|ctx].
  - simpl. unfold tracepoint_enter_read. repeat (case_match; [done|]). prog_unfold.
    unfold bpf_map_update_elem. simpl. by destruct (update_elem (K := Z) _ _ _ _).
  - destruct (exit_read_spec k ctx s) as (rb & -> & H).
    enough (Forall stdio_sound (samples rb)) by done.
    destruct (reads s !! _) as [r|]; [|by subst].
    destruct (_ && _) eqn:E; [|by subst]. zbool.
    change rb with (Stdio.st_events (Stdio.State (Stdio.st_inflight s) rb)). rewrite H.
    apply stdio_emit_sound; [done|by apply clamp_pos|by left|done].
  - simpl. unfold tracepoint_enter_write. repeat (case_match; [done|]).
    fold (clamp (ec_count ctx)) in *. apply stdio_emit_sound; [done| |by right|done].
    zbool. match goal with H : is_mcp_json_str _ _ _ = true |- _ => apply is_mcp_pos in H end.
    split; [done|]. unfold clamp. destruct (Z.ltb_spec Stdio.MAX_BUF_SIZE (u32 (ec_count ctx))); lia.
Qed.

Lemma stdio_events_sound (tr : list (kenv * Stdio.call)) s :
  Forall (fun kc => sized kc.1) tr -> StdioTheorems.evs s = [] ->
  Forall stdio_sound (StdioTheorems.evs (StdioTheorems.run_trace tr s)).
Proof.
  intros Htr Hs. apply (run_invariant (fun s => Forall stdio_sound (StdioTheorems.evs s))).
  - apply Forall_fmap. eapply Forall_impl; [done|]. intros kc Hk s' HI.
    by apply stdio_handle_sound.
  - rewrite Hs. constructor.
Qed.
End Stdio.

(** ** TLS *)

Definition tls_sound (e : Tls.event) : Prop :=
  (Tls.ev_rw e = 4 \/ Tls.ev_rw e = 2) /\
  0 < Tls.ev_data_len e <= Tls.MAX_BODY_SIZE /\
  Z.of_nat (length (Tls.ev_data e)) = Tls.MAX_BODY_SIZE /\
  length (Tls.ev_comm e) = 16%nat.

Definition tls_memory (e : Tls.event) : Prop :=
  Z.of_nat (length (Tls.ev_data e)) = Tls.MAX_BODY_SIZE.

Section Tls.
Context {RB : bpf_ringbuf Tls.event} `{!RingbufOk RB} (Hres : reserves RB tls_memory).

Lemma tls_body_sound k key info rw now uid cg v (r : RB) :
  sized k -> rw = 4 \/ rw = 2 -> Forall tls_sound (samples r) ->
  match emit_body (ring_field RB) k key info rw now uid cg v r with
  | (_, r') => Forall tls_sound (samples r')
  end.
Proof.
  intros Hk Hrw HI. destruct v as [buf remaining]. unfold emit_body. prog_unfold.
  pose proof (u32_range remaining) as Hu.
  destruct (Z.eqb_spec (u32 remaining) 0); [done|].
  set (l := if MAX_BODY_SIZE <? u32 remaining then MAX_BODY_SIZE else u32 remaining).
  assert (0 < l <= MAX_BODY_SIZE) as Hl.
  { unfold l. destruct (Z.ltb_spec MAX_BODY_SIZE (u32 remaining)); unfold MAX_BODY_SIZE in *; lia. }
  unfold bpf_ringbuf_reserve. simpl.
  pose proof (reserve_samples r Tls.sizeof_event 0) as Hs.
  pose proof (Hres r Tls.sizeof_event 0) as Hm.
  destruct (ringbuf_reserve r Tls.sizeof_event 0) as [[evt|] rb]; simpl in *; [|by rewrite Hs].
  rewrite submit_samples, Hs. apply Forall_app_2; [done|]. constructor; [|constructor].
  specialize (Hm evt eq_refl). unfold tls_memory in Hm.
  split; [done|]. split; [done|]. simpl. split.
  - erewrite length_overlay_read; [done| |apply sized_user; [done|lia]]. lia.
  - by apply (sized_comm _ Hk 16).
Qed.

Lemma emitted_sound k key info remaining rw (r : RB) :
  sized k -> rw = 4 \/ rw = 2 -> Forall tls_sound (samples r) ->
  Forall tls_sound (samples (emitted k key info remaining rw r)).
Proof.
  intros Hk Hrw HI. unfold emitted, emit_ssl_events. prog_unfold.
  match goal with |- context [bpf_repeat ?n ?b ?v r] =>
    pose proof (bpf_repeat_invariant (fun _ r => Forall tls_sound (samples r))
      (fun _ r => Forall tls_sound (samples r)) n b v r) as H;
    destruct (bpf_repeat n b v r) as [[?|[]] ?] end.
  apply H; [|done]. intros v' r' HI'.
  pose proof (tls_body_sound k key info rw (bpf_ktime_get_ns k) (bpf_get_current_uid_gid k)
    (bpf_get_current_cgroup_id k) v' r' Hk Hrw HI') as Hb.
  by destruct (emit_body _ _ _ _ _ _ _ _ v' r') as [[|?|[]]].
Qed.

Context {MS : bpf_map Z call_info} {ME : bpf_map Z call_info_ex}.
Context `{!HashOk MS, !HashOk ME} (a : abi).

Lemma tls_handle_sound k c (s : Tls.Ssl.state MS ME RB) :
  sized k -> Forall tls_sound (TlsTheorems.evs s) ->
  Forall tls_sound (TlsTheorems.evs (exec (Tls.Ssl.handle a k c) s)).
Proof.
  intros Hk HI. unfold exec. revert c. apply call_cases; intros d ctx.
  - by rewrite entry_spec.
  - by rewrite entry_ex_spec.
  - rewrite exit_spec. cbv zeta. cbn [snd]. case_match; [|done]. unfold TlsTheorems.evs.
    cbn [Tls.Ssl.st_events]. case_match; [done|].
    apply emitted_sound; [done|by destruct d; [left|right]|done].
  - rewrite exit_ex_spec. cbv zeta. cbn [snd]. unfold TlsTheorems.evs. cbn [Tls.Ssl.st_events].
    case_match; [|done]. case_match; [|done].
    apply emitted_sound; [done|by destruct d; [left|right]|done].
Qed.

Lemma tls_events_sound (tr : list (kenv * Tls.Ssl.call)) (s : Tls.Ssl.state MS ME RB) :
  Forall (fun kc => sized kc.1) tr -> TlsTheorems.evs s = [] ->
  Forall tls_sound (TlsTheorems.evs (TlsTheorems.run_trace a tr s)).
Proof.
  intros Htr Hs. apply (run_invariant (fun s => Forall tls_sound (TlsTheorems.evs s))).
  - apply Forall_fmap. eapply Forall_impl; [done|]. intros kc Hk s' HI.
    by apply tls_handle_sound.
  - rewrite Hs. constructor.
Qed.
End Tls.

(** ** File operations *)

(** The event names the task of the invocation. *)
Definition fileop_from (k : kenv) (e : Fileop.event) : Prop :=
  Fileop.ev_timestamp_ns e = bpf_ktime_get_ns k /\
  Fileop.ev_pid_tgid e = bpf_get_current_pid_tgid k /\
  Fileop.ev_uid_gid e = bpf_get_current_uid_gid k /\
  Fileop.ev_cgroup_id e = bpf_get_current_cgroup_id k /\
  Fileop.ev_comm e = bpf_get_current_comm k 16.

Section Fileop.
Context {MO : bpf_map Z path_value} {MW : bpf_map Z Z} {MH : bpf_map Z path_value}.
Context {MF : bpf_map fd_key path_value} {RB : bpf_ringbuf Fileop.event}.
Context `{!HashOk MO, !HashOk MW, !ArrayOk 2 MH, !LruOk MF, !RingbufOk RB}.
Implicit Types s : Fileop.state MO MW MH MF RB.

Lemma fd_event_from k v op bytes e : fd_event_opt k v op bytes = Some e -> fileop_from k e.
Proof. unfold fd_event_opt. case_match; [done|]. intros. by simplify_eq. Qed.

Lemma emits_from k s s' oe :
  emits s s' oe -> (forall e, oe = Some e -> fileop_from k e) ->
  exists es, FileopSpec.evs s' = FileopSpec.evs s ++ es /\ Forall (fileop_from k) es.
Proof.
  intros (_ & _ & _ & ->) He. eexists. split; [done|].
  destruct (FileopSpec.can_reserve s), oe; simpl; constructor; auto.
Qed.

Lemma ref_from k M :
  (forall path dirfd e, delete_ref k M path dirfd = Some e -> fileop_from k e) /\
  (forall op o d n e, two_path_ref k op M o d n = Some e -> fileop_from k e) /\
  (forall o n d e, symlink_ref k M o n d = Some e -> fileop_from k e).
Proof.
  split_and!; intros *; unfold delete_ref, two_path_ref, symlink_ref; intros; repeat case_match; by simplify_eq.
Qed.

(** Every program reports events of its own task only. *)
Lemma fileop_handle_from k c s :
  exists es, FileopSpec.evs (exec (Fileop.handle k c) s) = FileopSpec.evs s ++ es /\
    Forall (fileop_from k) es.
Proof.
  assert (forall s', Fileop.st_events s' = Fileop.st_events s ->
    exists es, FileopSpec.evs s' = FileopSpec.evs s ++ es /\ Forall (fileop_from k) es) as Hsame.
  { intros s' H. exists []. unfold FileopSpec.evs. by rewrite H, app_nil_r. }
  assert (forall s' b oe, FileopSpec.evs s' = FileopSpec.evs s ++ (if b : bool then option_list oe else []) ->
    (forall e, oe = Some e -> fileop_from k e) ->
    exists es, FileopSpec.evs s' = FileopSpec.evs s ++ es /\ Forall (fileop_from k) es) as Hopt.
  { intros s' b oe -> He. eexists. split; [done|]. destruct b, oe; simpl; constructor; auto. }
  destruct (ref_from k (fds s)) as (R1 & R2 & R3).
  assert (Hfin : forall ctx, exists es,
    FileopSpec.evs (exec (finalize_open_fd k ctx) s) = FileopSpec.evs s ++ es /\
    Forall (fileop_from k) es).
  { intros ctx. destruct (finalize_open_fd_spec k ctx s) as (_ & _ & _ & H). cbv zeta in H.
    destruct (opens s !! _); [case_match|]; destruct H as [_ H].
    - eapply Hopt; [exact H|]. intros e. apply fd_event_from.
    - exists []. by rewrite H, app_nil_r.
    - exists []. by rewrite H, app_nil_r. }
  destruct c; simpl; try (by apply Hfin); try (apply Hsame; by apply remember_open_path_spec).
  - apply Hsame. by apply trace_write_spec.
  - apply Hsame. by apply trace_exit_write_spec.
  - destruct (trace_mmap_spec k ctx s) as (_ & _ & _ & H). cbv zeta in H.
    destruct (mmap_hit k (fds s) ctx) as [[v op]|]; [|apply Hsame; by rewrite H].
    eapply Hopt; [apply H|]. intros e. apply fd_event_from.
  - destruct (trace_close_spec k ctx s) as (_ & _ & _ & _ & H). cbv zeta in H.
    destruct (fds s !! _) as [v|]; [|exists []; by rewrite H].
    eapply Hopt; [exact H|]. intros e. unfold close_event.
    destruct (has_seen_flag _ _); [apply fd_event_from|done].
  - eapply emits_from; [apply submit_delete_path_spec|]. by apply R1.
  - eapply emits_from; [apply submit_rename_paths_spec|]. by apply R2.
  - eapply emits_from; [apply submit_rename_paths_spec|]. by apply R2.
  - eapply emits_from; [apply submit_rename_paths_spec|]. by apply R2.
  - eapply emits_from; [apply submit_hardlink_paths_spec|]. by apply R2.
  - eapply emits_from; [apply submit_hardlink_paths_spec|]. by apply R2.
  - eapply emits_from; [apply submit_symlink_paths_spec|]. by apply R3.
  - eapply emits_from; [apply submit_symlink_paths_spec|]. by apply R3.
Qed.
End Fileop.
