(* ===== verification/Collector.v ===== *)
(** The user side of the probes: what becomes of a sample of a ring buffer.

    Each [Start] loop reads a sample, decodes it with [binary.Read], builds a raw
    record and offers it to a bounded channel, dropping it when the channel is
    full; the exporter drains the channel in batches and turns raw records into
    records.  Modelled are the loop bodies of [tcpconn/probe.go],
    [postgres/probe.go], [stdio/probe.go] and [execve/probe.go], the record
    builders of [export/records.go], and the channel with its producer and
    consumer of [export/exporter.go].  ([fileop/probe.go] is in [Policy],
    [tls/probe.go] in [SslStore].) *)

From S2P Require Import Prelude Layout GoStd Exec Wire.

(** ** [internal/tool] *)

(** The bytes before the first zero; [arr] has values of [int8]. *)
Fixpoint CharsToString (arr : list Z) : list Z :=
  match arr with
  | [] => []
  | v :: arr' => if v =? 0 then [] else u8 v :: CharsToString arr'
  end.

(** ** Steps of a loop *)

(** What an iteration does with a sample: nothing, crash, or send a record. *)
Inductive step (A : Type) := Skip | Panic | Send (a : A).
Arguments Skip {A}.
Arguments Panic {A}.
Arguments Send {A} _.

Definition send_some {A} (o : option A) : step A := match o with Some a => Send a | None => Skip end.

(** ** [export/records.go] *)

(** [int32] of the halves of a 64-bit id. *)
Definition extractPid (raw : Z) : Z := s32 (Z.shiftr raw 32).
Definition extractTid (raw : Z) : Z := s32 raw.
Definition extractUid (raw : Z) : Z := s32 raw.
Definition extractGid (raw : Z) : Z := s32 (Z.shiftr raw 32).

Record RawTCPConnect := {
  tc_ElapsedNs : Z;
  tc_PidTGid : Z;
  tc_UidGid : Z;
  tc_CgroupID : Z;
  tc_Comm : list Z;
  tc_Family : Z;
  tc_TargetAddr : list Z;
  tc_TargetPort : Z;
}.

Record RawPostgres := {
  pg_ElapsedNs : Z;
  pg_PidTGid : Z;
  pg_UidGid : Z;
  pg_CgroupID : Z;
  pg_Comm : list Z;
  pg_MsgType : list Z;
  pg_Data : list Z;
}.

Record RawStdIO := {
  io_ElapsedNs : Z;
  io_PidTGid : Z;
  io_UidGid : Z;
  io_CgroupID : Z;
  io_MessageType : list Z;
  io_Data : list Z;
}.

Record RawExec := {
  re_Timestamp : Z;
  re_Pid : Z;
  re_PPid : Z;
  re_ExecId : list Z;
  re_PExecId : list Z;
  re_Cwd : list Z;
  re_Comm : list Z;
  re_Args : list Z;
  re_Docker : list Z;
}.

(** The columns every record has. *)
Record identity := {
  rec_Timestamp : Z;
  rec_Pid : Z;
  rec_Tid : Z;
  rec_Uid : Z;
  rec_Gid : Z;
  rec_Host : list Z;
  rec_ContainerID : list Z;
}.

Record RecordTCPConnect := {
  rtc_id : identity;
  rtc_Comm : list Z;
  rtc_Family : Z;
  rtc_TargetAddr : list Z;
  rtc_TargetPort : Z;
}.

Record RecordPostgres := {
  rpg_id : identity;
  rpg_Comm : list Z;
  rpg_Data : list Z;
  rpg_MsgType : list Z;
}.

Record RecordExec := {
  rex_Timestamp : Z;
  rex_Pid : Z;
  rex_PPid : Z;
  rex_ExecId : list Z;
  rex_PExecId : list Z;
  rex_Cwd : list Z;
  rex_Comm : list Z;
  rex_Args : list Z;
  rex_Host : list Z;
  rex_ContainerID : list Z;
}.

(** [bootTime] in nanoseconds, the host name, and the container of a cgroup are
    the environment of the collector. *)
Section Records.
Context (bootTime : Z) (host : list Z) (Resolve : Z -> list Z).

(** [time.Duration] is an [int64]. *)
Definition parseElapsedToTimestamp (elapsed : Z) : Z := bootTime + s64 elapsed.

Definition identify (elapsed pid_tgid uid_gid cgroup : Z) : identity := {|
  rec_Timestamp := parseElapsedToTimestamp elapsed;
  rec_Pid := extractPid pid_tgid;
  rec_Tid := extractTid pid_tgid;
  rec_Uid := extractUid uid_gid;
  rec_Gid := extractGid uid_gid;
  rec_Host := host;
  rec_ContainerID := Resolve cgroup |}.

Definition RawTCPConnect_ToRecord (raw : RawTCPConnect) : RecordTCPConnect := {|
  rtc_id := identify (tc_ElapsedNs raw) (tc_PidTGid raw) (tc_UidGid raw) (tc_CgroupID raw);
  rtc_Comm := tc_Comm raw;
  rtc_Family := tc_Family raw;
  rtc_TargetAddr := tc_TargetAddr raw;
  rtc_TargetPort := tc_TargetPort raw |}.

Definition RawPostgres_ToRecord (raw : RawPostgres) : RecordPostgres := {|
  rpg_id := identify (pg_ElapsedNs raw) (pg_PidTGid raw) (pg_UidGid raw) (pg_CgroupID raw);
  rpg_Comm := pg_Comm raw;
  rpg_Data := pg_Data raw;
  rpg_MsgType := pg_MsgType raw |}.

Definition RawExec_ToRecord (raw : RawExec) : RecordExec := {|
  rex_Timestamp := re_Timestamp raw;
  rex_Pid := s32 (re_Pid raw);
  rex_PPid := s32 (re_PPid raw);
  rex_ExecId := re_ExecId raw;
  rex_PExecId := re_PExecId raw;
  rex_Cwd := re_Cwd raw;
  rex_Comm := re_Comm raw;
  rex_Args := re_Args raw;
  rex_Host := host;
  rex_ContainerID := re_Docker raw |}.
End Records.

(** ** [tcpconn/probe.go] *)

Module Tcp.
Definition afInet : Z := 2.
Definition afInet6 : Z := 10.

Record event := {
  TimestampNs : Z;
  PidTgid : Z;
  UidGid : Z;
  CgroupId : Z;
  Family : Z;
  Dport : Z;
  Comm : list Z;
  Daddr : list Z;
}.

Definition of_fields (fs : list (list Z)) : option event :=
  match fs with
  | [[ts]; [pt]; [ug]; [cg]; [fam]; [dp]; comm; da] =>
      Some (Build_event ts pt ug cg fam dp comm da)
  | _ => None
  end.

(** [bits.ReverseBytes16]. *)
Definition ReverseBytes16 (x : Z) : Z := u16 (Z.lor (Z.shiftr x 8) (Z.shiftl x 8)).

Definition decodeTargetAddr (family : Z) (raw : list Z) : option (list Z) :=
  if family =? afInet then Some (AddrFrom4_String (take 4 raw))
  else if family =? afInet6 then Some (AddrFrom16_String raw)
  else None.

Definition toRawTCPConnect (e : event) : option RawTCPConnect :=
  match decodeTargetAddr (Family e) (Daddr e) with
  | None => None
  | Some targetAddr => Some {|
      tc_ElapsedNs := TimestampNs e;
      tc_PidTGid := PidTgid e;
      tc_UidGid := UidGid e;
      tc_CgroupID := CgroupId e;
      tc_Comm := CharsToString (Comm e);
      tc_Family := Family e;
      tc_TargetAddr := targetAddr;
      tc_TargetPort := ReverseBytes16 (Dport e) |}
  end.

(** The body of the loop of [Start]. *)
Definition start_body (raw : list Z) : step RawTCPConnect :=
  match binary_Read G.tcpconnEvent raw ≫= of_fields with
  | None => Skip
  | Some e => send_some (toRawTCPConnect e)
  end.
End Tcp.

(** ** [postgres/probe.go] *)

Module Pg.
Record pgEvent := {
  TimestampNs : Z;
  PidTgid : Z;
  UidGid : Z;
  ReqLen : Z;
  CgroupId : Z;
  DataLen : Z;
  Fd : Z;
  MsgType : Z;
  Data : list Z;
  Comm : list Z;
}.

Definition of_fields (fs : list (list Z)) : option pgEvent :=
  match fs with
  | [[ts]; [pt]; [ug]; [rl]; [cg]; [dl]; [fd]; [mt]; data; comm] =>
      Some (Build_pgEvent ts pt ug rl cg dl fd mt data comm)
  | _ => None
  end.

(** [string(b)] of a [uint8]: the UTF-8 encoding of the code point. *)
Definition string_of_byte (b : Z) : list Z :=
  if b <? 128 then [b] else [Z.lor 192 (Z.shiftr b 6); Z.lor 128 (Z.land b 63)].

(** The body of the loop of [Start]; [event.Data[:event.DataLen]] is checked. *)
Definition start_body (raw : list Z) : step RawPostgres :=
  match binary_Read G.pgEvent raw ≫= of_fields with
  | None => Skip
  | Some e =>
      match slice (Data e) 0 (DataLen e) with
      | None => Panic
      | Some data => Send {|
          pg_ElapsedNs := TimestampNs e;
          pg_PidTGid := PidTgid e;
          pg_UidGid := UidGid e;
          pg_CgroupID := CgroupId e;
          pg_Comm := CharsToString (Comm e);
          pg_MsgType := string_of_byte (MsgType e);
          pg_Data := data |}
      end
  end.
End Pg.

(** ** [stdio/probe.go] *)

Module Mcp.
Definition stdioRead : Z := 4.
Definition stdioWrite : Z := 2.

Record stdioEvent := {
  TimestampNs : Z;
  PidTgid : Z;
  UidGid : Z;
  ReqLen : Z;
  CgroupId : Z;
  DataLen : Z;
  Fd : Z;
  Rw : Z;
  Data : list Z;
  Comm : list Z;
}.

Definition of_fields (fs : list (list Z)) : option stdioEvent :=
  match fs with
  | [[ts]; [pt]; [ug]; [rl]; [cg]; [dl]; [fd]; [rw]; data; comm] =>
      Some (Build_stdioEvent ts pt ug rl cg dl fd rw data comm)
  | _ => None
  end.

Section Start.
(** [gjson.GetBytes(data, path).Exists()]. *)
Context (gjson_exists : list Z -> string -> bool).

(** [None] is the panic of the slice. *)
Definition isValidMCPMessage (e : stdioEvent) : option bool :=
  data ← slice (Data e) 0 (DataLen e);
  if negb (gjson_exists data "jsonrpc") then Some false
  else if Rw e =? stdioRead then Some (gjson_exists data "method")
  else if Rw e =? stdioWrite then Some (gjson_exists data "result")
  else Some false.

Definition message_type (rw : Z) : list Z :=
  if rw =? stdioRead then str "request"
  else if rw =? stdioWrite then str "response" else [].

(** The body of the loop of [Start]. *)
Definition start_body (raw : list Z) : step RawStdIO :=
  match binary_Read G.stdioEvent raw ≫= of_fields with
  | None => Skip
  | Some e =>
      match isValidMCPMessage e with
      | None => Panic
      | Some false => Skip
      | Some true =>
          match slice (Data e) 0 (DataLen e) with
          | None => Panic
          | Some data => Send {|
              io_ElapsedNs := TimestampNs e;
              io_PidTGid := PidTgid e;
              io_UidGid := UidGid e;
              io_CgroupID := CgroupId e;
              io_MessageType := message_type (Rw e);
              io_Data := data |}
          end
      end
  end.
End Start.
End Mcp.

(** ** [execve/probe.go] *)

Module Proc.
Record DynLib := { Proc : Z; Fd : Z; Filepath : list Z }.

Record execDynlib := { dl_Fd : Z; dl_PidTgid : Z; dl_Comm : list Z; dl_Filename : list Z }.

Definition of_fields (fs : list (list Z)) : option execDynlib :=
  match fs with
  | [[fd]; [pt]; comm; name] => Some (Build_execDynlib fd pt comm name)
  | _ => None
  end.

(** The body of the loop over the library events. *)
Definition dynlib_body (raw : list Z) : step DynLib :=
  match binary_Read G.execDynlib raw ≫= of_fields with
  | None => Skip
  | Some e => Send {|
      Proc := s32 (Z.shiftr (dl_PidTgid e) 32);
      Fd := dl_Fd e;
      Filepath := CharsToString (dl_Filename e) |}
  end.

Record ExecEvent := {
  ee_Timestamp : Z;
  ee_Pid : Z;
  ee_PPid : Z;
  ee_ExecID : list Z;
  ee_PExecID : list Z;
  ee_Cwd : list Z;
  ee_Comm : list Z;
  ee_Filename : list Z;
  ee_Args : list Z;
  ee_ArgsTrunc : bool;
}.

Definition ToRawExec (e : ExecEvent) : RawExec := {|
  re_Timestamp := ee_Timestamp e;
  re_Pid := u32 (ee_Pid e);
  re_PPid := u32 (ee_PPid e);
  re_ExecId := ee_ExecID e;
  re_PExecId := ee_PExecID e;
  re_Cwd := ee_Cwd e;
  re_Comm := ee_Comm e;
  re_Args := ee_Args e;
  re_Docker := [] |}.

(** The host name, the boot time and the files of procfs: the working directory
    of a process and its command line, if it can be read. *)
Section Build.
Context (nodeName : list Z) (bootTime : Z) (cwd_of : Z -> list Z) (cmdline_of : Z -> option (list Z)).

Definition readProcessCWD (pid : Z) : list Z := cwd_of pid.

Definition readProcessArgs (pid : Z) : option (list Z) :=
  data ← cmdline_of pid;
  match Exec.Decoder.fields [] data with
  | [] => None
  | parts => Some (Exec.Decoder.join parts)
  end.

Definition encodeExecID (pid startTimeNs : Z) : list Z :=
  EncodeToString (nodeName ++ 58 :: FormatUint 10 startTimeNs ++ 58 :: FormatInt pid).

Definition buildExecIDs (pid ppid startTimeNs parentStartTimeNs : Z) : list Z * list Z :=
  let execID := encodeExecID pid startTimeNs in
  let parentExecID := encodeExecID ppid parentStartTimeNs in
  let parentExecID := if ppid <=? 0 then encodeExecID 0 0 else parentExecID in
  (execID, parentExecID).

Definition buildExecEvent (event : Exec.Decoder.parsedExecEvent) : ExecEvent :=
  let proc := Exec.Decoder.pe_proc event in
  let pid := p_pid proc in
  let filename := Exec.Decoder.CharsToString (p_filename proc) in
  let taskComm := Exec.Decoder.CharsToString (p_comm proc) in
  let args := Exec.Decoder.pe_args event in
  let argsTrunc := negb (p_args_truncated proc =? 0) in
  let '(args, argsTrunc) :=
    if argsTrunc || bool_decide (args = []) then
      match readProcessArgs pid with
      | Some procArgs => (procArgs, false)
      | None => (args, argsTrunc)
      end
    else (args, argsTrunc) in
  let args := if bool_decide (args = []) then filename else args in
  let comm := if bool_decide (filename = []) then taskComm else filename in
  let '(execID, parentExecID) :=
    buildExecIDs pid (p_ppid proc) (p_start_time_ns proc) (p_parent_start_time_ns proc) in
  {| ee_Timestamp := parseElapsedToTimestamp bootTime (p_timestamp_ns proc);
     ee_Pid := pid;
     ee_PPid := p_ppid proc;
     ee_ExecID := execID;
     ee_PExecID := parentExecID;
     ee_Cwd := readProcessCWD pid;
     ee_Comm := comm;
     ee_Filename := filename;
     ee_Args := args;
     ee_ArgsTrunc := argsTrunc |}.

(** The body of the loop over the exec events: the pid for the TLS probe and the
    event for the exporter. *)
Definition proc_body (raw : list Z) : step (Z * ExecEvent) :=
  match Exec.Decoder.parseExecRecord raw with
  | inl _ => Skip
  | inr e => Send (p_pid (Exec.Decoder.pe_proc e), buildExecEvent e)
  end.
End Build.
End Proc.

(** ** [export/exporter.go]: the channel between a loop and the exporter *)

Module Channel.
Section Channel.
Context {R Rec : Type}.

Definition ExportChannelSize : nat := 4096.
Definition maxBatchSize : nat := 1024.

(** The records in the channel, in order, and whether it is closed. *)
Record chan := Chan { queue : list R; closed : bool }.

(** [select { case channel <- raw: default: }]. *)
Definition offer (raw : R) (c : chan) : chan :=
  if (length (queue c) <? ExportChannelSize)%nat then Chan (queue c ++ [raw]) (closed c) else c.

Definition close (c : chan) : chan := Chan (queue c) true.

(** The producer function of [consumeFromChannel]: the batch, whether the
    channel is still open, and the channel.  [ToRecord] yields [None] when it
    cannot build a record.  [fuel] bounds the receives; the loop runs while the
    batch is short, and the queue is finite. *)
Fixpoint consume (ToRecord : R -> option Rec) (fuel : nat) (events : list Rec) (c : chan)
    : list Rec * bool * chan :=
  match fuel with
  | O => (events, true, c)
  | S fuel' =>
      if (length events <? maxBatchSize)%nat then
        match queue c with
        | [] => if closed c then (events, false, c) else (events, true, c)
        | raw :: q =>
            consume ToRecord fuel' (match ToRecord raw with Some r => events ++ [r] | None => events end)
              (Chan q (closed c))
        end
      else (events, true, c)
  end.

Definition consumeFromChannel (ToRecord : R -> option Rec) (c : chan) : list Rec * bool * chan :=
  consume ToRecord (S (length (queue c))) [] c.

(** What happens to a channel, in order: the loop offers a record, or the
    exporter's ticker fires.  The batches written to the sink are collected. *)
Inductive op := Offer (raw : R) | Tick.

Definition chan_step (ToRecord : R -> option Rec) (o : op) (s : chan * list (list Rec))
    : chan * list (list Rec) :=
  let '(c, out) := s in
  match o with
  | Offer raw => (offer raw c, out)
  | Tick =>
      let '(events, _, c') := consumeFromChannel ToRecord c in
      (c', if bool_decide (events = []) then out else out ++ [events])
  end.

Definition run_chan (ToRecord : R -> option Rec) (ops : list op) (s : chan * list (list Rec))
    : chan * list (list Rec) := fold_left (fun s o => chan_step ToRecord o s) ops s.
End Channel.
Arguments chan : clear implicits.
Arguments op : clear implicits.
End Channel.
