(* ===== verification/CollectorTheorems.v ===== *)
(** The user side of the probes: theorems.

    What a [Start] loop makes of the samples of its ring buffer, from the
    programs in the kernel to the raw record; the identifiers of exec events; the
    channel to the exporter. *)

From S2P Require Import Prelude Layout GoStd Helpers RefKernel Tracing CoreRead CoreReadTheorems.
From S2P Require Import Postgres PostgresTheorems Stdio StdioTheorems Tcpconn TcpconnTheorems.
From S2P Require Import Exec Wire WireTheorems Collector.

(** ** Character arrays *)

(** The C string of an array of characters.  The arrays of the models hold
    bytes, on which [u8] is the identity. *)
Definition text (bs : list Z) : list Z := cstr (u8 <$> bs).

Lemma u8_bytes bs : Forall byte bs -> u8 <$> bs = bs.
Proof.
  induction 1 as [|b bs Hb _ IH]; [done|]. rewrite fmap_cons, IH. f_equal. by apply u8_small.
Qed.

Lemma text_bytes bs : Forall byte bs -> text bs = cstr bs.
Proof. intros. unfold text. by rewrite u8_bytes. Qed.

Lemma wrap_S8 v : wrap S8 v = (v + 128) mod 256 - 128.
Proof. done. Qed.

Lemma CharsToString_chars bs : CharsToString (wrap S8 <$> bs) = text bs.
Proof.
  unfold text. induction bs as [|v bs IH]; [done|]. rewrite !fmap_cons. cbn [CharsToString cstr].
  rewrite IH. assert (wrap S8 v = u8 v \/ wrap S8 v = u8 v - 256) as H.
  { rewrite wrap_S8. unfold u8. change (2 ^ 8) with 256. Z.to_euclidean_division_equations. lia. }
  pose proof (u8_range v). assert (u8 (wrap S8 v) = u8 v) as ->.
  { destruct H as [-> | ->]; [by apply u8_small|].
    unfold u8 at 1. change (2 ^ 8) with 256. replace (u8 v - 256) with (u8 v + (-1) * 256) by lia.
    rewrite Z.mod_add by lia. by apply Z.mod_small. }
  replace (wrap S8 v =? 0) with (u8 v =? 0); [done|]. rewrite !wrap_S8 in *.
  pose proof (Z.mod_pos_bound (v + 128) 256).
  destruct (Z.eqb_spec (u8 v) 0), (Z.eqb_spec ((v + 128) mod 256 - 128) 0); lia.
Qed.

(** ** Decoding *)

(** Evaluate the fields that [binary.Read] yields. *)
Ltac decode_event H :=
  match goal with |- (binary_Read ?g (sample ?f ?e) ≫= _) = _ =>
    let Hr := fresh in
    pose proof (wire_read f e H) as Hr;
    match type of Hr with binary_Read ?g' _ = _ => change g' with g in Hr end;
    rewrite Hr; clear Hr; leaves; reflexivity end.

Lemma tcp_decoded fill (e : Tcpconn.event) :
  wire_shaped e ->
  binary_Read G.tcpconnEvent (sample fill e) ≫= Tcp.of_fields = Some {|
    Tcp.TimestampNs := u64 (Tcpconn.ev_timestamp_ns e);
    Tcp.PidTgid := u64 (Tcpconn.ev_pid_tgid e);
    Tcp.UidGid := u64 (Tcpconn.ev_uid_gid e);
    Tcp.CgroupId := u64 (Tcpconn.ev_cgroup_id e);
    Tcp.Family := u16 (Tcpconn.ev_family e);
    Tcp.Dport := u16 (Tcpconn.ev_dport e);
    Tcp.Comm := wrap S8 <$> Tcpconn.ev_comm e;
    Tcp.Daddr := u8 <$> Tcpconn.ev_daddr e |}.
Proof. intros H. decode_event H. Qed.

Lemma pg_decoded fill (e : Postgres.event) :
  wire_shaped e ->
  binary_Read G.pgEvent (sample fill e) ≫= Pg.of_fields = Some {|
    Pg.TimestampNs := u64 (Postgres.ev_timestamp_ns e);
    Pg.PidTgid := u64 (Postgres.ev_pid_tgid e);
    Pg.UidGid := u64 (Postgres.ev_uid_gid e);
    Pg.ReqLen := u64 (Postgres.ev_req_len e);
    Pg.CgroupId := u64 (Postgres.ev_cgroup_id e);
    Pg.DataLen := u64 (Postgres.ev_data_len e);
    Pg.Fd := u64 (Postgres.ev_fd e);
    Pg.MsgType := u8 (Postgres.ev_msg_type e);
    Pg.Data := u8 <$> Postgres.ev_data e;
    Pg.Comm := wrap S8 <$> Postgres.ev_comm e |}.
Proof. intros H. decode_event H. Qed.

Lemma stdio_decoded fill (e : Stdio.event) :
  wire_shaped e ->
  binary_Read G.stdioEvent (sample fill e) ≫= Mcp.of_fields = Some {|
    Mcp.TimestampNs := u64 (Stdio.ev_timestamp_ns e);
    Mcp.PidTgid := u64 (Stdio.ev_pid_tgid e);
    Mcp.UidGid := u64 (Stdio.ev_uid_gid e);
    Mcp.ReqLen := u64 (Stdio.ev_req_len e);
    Mcp.CgroupId := u64 (Stdio.ev_cgroup_id e);
    Mcp.DataLen := u64 (Stdio.ev_data_len e);
    Mcp.Fd := u64 (Stdio.ev_fd e);
    Mcp.Rw := u8 (Stdio.ev_rw e);
    Mcp.Data := u8 <$> Stdio.ev_data e;
    Mcp.Comm := wrap S8 <$> Stdio.ev_comm e |}.
Proof. intros H. decode_event H. Qed.

(** [event.Data[:event.DataLen]] of a length that fits. *)
Lemma slice_data data n :
  0 <= n <= Z.of_nat (length data) -> n < 2 ^ 64 ->
  slice (u8 <$> data) 0 (u64 n) = Some (u8 <$> take (Z.to_nat n) data).
Proof.
  intros H1 H2. rewrite u64_small by lia. rewrite slice_some by (rewrite ?length_fmap; lia).
  by rewrite Z.sub_0_r, drop_0, fmap_take.
Qed.

(** ** Postgres *)

Lemma supported_ascii tag : is_supported_pg_msg_type tag = true -> 0 <= tag < 128.
Proof. unfold is_supported_pg_msg_type. intros H. repeat (apply orb_prop in H as [H|H]); zbool; lia. Qed.

Lemma pg_body fill (e : Postgres.event) :
  pg_sound e -> Pg.start_body (sample fill e) = Send {|
    pg_ElapsedNs := u64 (Postgres.ev_timestamp_ns e);
    pg_PidTGid := u64 (Postgres.ev_pid_tgid e);
    pg_UidGid := u64 (Postgres.ev_uid_gid e);
    pg_CgroupID := u64 (Postgres.ev_cgroup_id e);
    pg_Comm := text (Postgres.ev_comm e);
    pg_MsgType := [Postgres.ev_msg_type e];
    pg_Data := u8 <$> PostgresTheorems.payload e |}.
Proof.
  intros (Ht & Hl & Hd & Hc). apply supported_ascii in Ht. unfold Pg.start_body.
  rewrite pg_decoded by (by apply pg_shaped). cbn [Pg.Data Pg.DataLen].
  unfold Postgres.MAX_BUF_SIZE in *. rewrite slice_data by lia.
  cbn [Pg.TimestampNs Pg.PidTgid Pg.UidGid Pg.CgroupId Pg.Comm Pg.MsgType].
  rewrite CharsToString_chars. unfold Pg.string_of_byte. rewrite u8_small by lia.
  by rewrite (proj2 (Z.ltb_lt _ _)) by lia.
Qed.

(** C16. Postgres events reach the exporter.  Along any interleaving of sends and
    closes, from empty maps, the loop of the user side turns every sample of the
    ring buffer, whatever its padding holds, into a record with the task, the
    message type and exactly the bytes of the message; it neither drops a sample
    nor runs out of the bounds of the data array. *)
Theorem pg_events_collected {MI : bpf_map conn_key Z} {RB : bpf_ringbuf Postgres.event}
    `{!HashOk MI, !RingbufOk RB} (tr : list (kenv * Postgres.call)) (s : Postgres.state MI RB) fill e :
  reserves RB pg_memory -> Forall (fun kc => sized kc.1) tr ->
  conns s = ∅ -> PostgresTheorems.evs s = [] ->
  e ∈ PostgresTheorems.evs (run ((fun kc => Postgres.handle kc.1 kc.2) <$> tr) s) ->
  Pg.start_body (sample fill e) = Send {|
    pg_ElapsedNs := u64 (Postgres.ev_timestamp_ns e);
    pg_PidTGid := u64 (Postgres.ev_pid_tgid e);
    pg_UidGid := u64 (Postgres.ev_uid_gid e);
    pg_CgroupID := u64 (Postgres.ev_cgroup_id e);
    pg_Comm := text (Postgres.ev_comm e);
    pg_MsgType := [Postgres.ev_msg_type e];
    pg_Data := u8 <$> PostgresTheorems.payload e |}.
Proof.
  intros Hres Htr H1 H2 He. apply pg_body.
  pose proof (pg_events_sound tr s Hres Htr H1 H2) as H. rewrite Forall_forall in H. by apply H.
Qed.

(** ** Stdio *)

Section Mcp.
Context (gjson_exists : list Z -> string -> bool).

(** What the filter of the user side wants of a message, by its direction. *)
Definition mcp_message (rw : Z) (data : list Z) : bool :=
  gjson_exists data "jsonrpc" && gjson_exists data (if rw =? 4 then "method" else "result").

Lemma mcp_body fill (e : Stdio.event) :
  stdio_sound e ->
  let data := u8 <$> StdioTheorems.payload e in
  Mcp.start_body gjson_exists (sample fill e) =
  if mcp_message (Stdio.ev_rw e) data then Send {|
    io_ElapsedNs := u64 (Stdio.ev_timestamp_ns e);
    io_PidTGid := u64 (Stdio.ev_pid_tgid e);
    io_UidGid := u64 (Stdio.ev_uid_gid e);
    io_CgroupID := u64 (Stdio.ev_cgroup_id e);
    io_MessageType := if Stdio.ev_rw e =? 4 then str "request" else str "response";
    io_Data := data |} else Skip.
Proof.
  intros (Hrw & Hl & Hd & Hc). cbv zeta. unfold Mcp.start_body, Mcp.isValidMCPMessage, mcp_message.
  rewrite stdio_decoded by (by apply stdio_shaped). cbn [Mcp.Data Mcp.DataLen Mcp.Rw].
  unfold Stdio.MAX_BUF_SIZE in *. rewrite slice_data by lia.
  fold (StdioTheorems.payload e). cbn [mbind option_bind].
  destruct (gjson_exists _ "jsonrpc"); [|done]. cbn [negb andb].
  destruct Hrw as [-> | ->]; change (u8 4) with 4; change (u8 2) with 2;
    [change (4 =? Mcp.stdioRead) with true; change (4 =? 4) with true
    |change (2 =? Mcp.stdioRead) with false; change (2 =? Mcp.stdioWrite) with true;
     change (2 =? 4) with false]; cbv iota; by destruct (gjson_exists _ _).
Qed.

(** C34. Stdio events reach the exporter.  Along any interleaving of reads and
    writes, the loop of the user side decodes every sample of the ring buffer
    within the bounds of its data array; it sends exactly those that are JSON-RPC
    calls read or results written, with the captured bytes. *)
Theorem stdio_events_collected {MI : bpf_map Z inflight_read} {RB : bpf_ringbuf Stdio.event}
    `{!HashOk MI, !RingbufOk RB} (tr : list (kenv * Stdio.call)) (s : Stdio.state MI RB) fill e :
  reserves RB stdio_memory -> Forall (fun kc => sized kc.1) tr -> StdioTheorems.evs s = [] ->
  e ∈ StdioTheorems.evs (StdioTheorems.run_trace tr s) ->
  let data := u8 <$> StdioTheorems.payload e in
  Mcp.start_body gjson_exists (sample fill e) =
  if mcp_message (Stdio.ev_rw e) data then Send {|
    io_ElapsedNs := u64 (Stdio.ev_timestamp_ns e);
    io_PidTGid := u64 (Stdio.ev_pid_tgid e);
    io_UidGid := u64 (Stdio.ev_uid_gid e);
    io_CgroupID := u64 (Stdio.ev_cgroup_id e);
    io_MessageType := if Stdio.ev_rw e =? 4 then str "request" else str "response";
    io_Data := data |} else Skip.
Proof.
  intros Hres Htr Hs He. apply mcp_body.
  pose proof (stdio_events_sound Hres tr s Htr Hs) as H. rewrite Forall_forall in H. by apply H.
Qed.
End Mcp.

(** ** TCP connections *)

Lemma ReverseBytes16_spec x : 0 <= x < 65536 -> Tcp.ReverseBytes16 x = reverse_bytes16 x.
Proof.
  intros Hx. unfold Tcp.ReverseBytes16, reverse_bytes16. rewrite Z.shiftr_div_pow2 by lia.
  assert (0 <= x / 2 ^ 8 < 2 ^ 8) by (split; [apply Z.div_pos|apply Z.div_lt_upper_bound]; lia).
  rewrite Z.lor_comm, lor_shiftl, Z.shiftl_mul_pow2 by lia.
  unfold u16. change (2 ^ 8) with 256. change (2 ^ 16) with 65536.
  Z.to_euclidean_division_equations. lia.
Qed.

Lemma tcp_body fill (e : Tcpconn.event) daddr port :
  length (Tcpconn.ev_comm e) = 16%nat ->
  Tcpconn.ev_family e = AF_INET /\ length daddr = 4%nat \/
  Tcpconn.ev_family e = AF_INET6 /\ length daddr = 16%nat ->
  Forall byte daddr -> Tcpconn.ev_daddr e = daddr ++ zeros (16 - length daddr) ->
  0 <= Tcpconn.ev_dport e < 65536 -> reverse_bytes16 (Tcpconn.ev_dport e) = port ->
  Tcp.start_body (sample fill e) = Send {|
    tc_ElapsedNs := u64 (Tcpconn.ev_timestamp_ns e);
    tc_PidTGid := u64 (Tcpconn.ev_pid_tgid e);
    tc_UidGid := u64 (Tcpconn.ev_uid_gid e);
    tc_CgroupID := u64 (Tcpconn.ev_cgroup_id e);
    tc_Comm := text (Tcpconn.ev_comm e);
    tc_Family := Tcpconn.ev_family e;
    tc_TargetAddr := if Tcpconn.ev_family e =? AF_INET then AddrFrom4_String daddr
                     else AddrFrom16_String daddr;
    tc_TargetPort := port |}.
Proof.
  intros Hc Hf Hb Hd Hp <-. unfold Tcp.start_body. rewrite tcp_decoded.
  2:{ apply tcpconn_shaped; [done|]. rewrite Hd, length_app, length_zeros.
      destruct Hf as [[_ ->]|[_ ->]]; done. }
  unfold Tcp.toRawTCPConnect, Tcp.decodeTargetAddr.
  cbn [Tcp.Family Tcp.Daddr Tcp.TimestampNs Tcp.PidTgid Tcp.UidGid Tcp.CgroupId Tcp.Comm Tcp.Dport].
  rewrite CharsToString_chars, Hd, fmap_app, u8_bytes, (u16_small (Tcpconn.ev_dport e)),
    ReverseBytes16_spec by done.
  destruct Hf as [[-> Hl]|[-> Hl]]; rewrite Hl.
  - change (u16 AF_INET =? Tcp.afInet) with true. change (AF_INET =? AF_INET) with true. cbv iota.
    by rewrite <- Hl, take_app_length.
  - change (u16 AF_INET6 =? Tcp.afInet) with false. change (u16 AF_INET6 =? Tcp.afInet6) with true.
    change (AF_INET6 =? AF_INET) with false. cbv iota. change (u8 <$> zeros (16 - 16)) with (@nil Z).
    by rewrite app_nil_r.
Qed.

(** C10. An outgoing connection, from the kernel to the record.  A task connects
    socket [sk]; programs run on other sockets; the handshake completes, in
    whatever context, while the socket is in SYN_SENT.  Unless the entry was
    evicted meanwhile or the ring buffer is full, one event is reported, and
    whatever its padding holds, the user side turns it into a record of the
    connecting task with the address family, the text of the remote address and
    the remote port in host order. *)
Theorem tcp_connect_collected {MC : bpf_map Z connect_meta} {RB : bpf_ringbuf Tcpconn.event}
    `{!LruOk MC, !RingbufOk RB} ro k1 c tr k2 m ctx (s : Tcpconn.state MC RB) family port daddr :
  let sk := sk_of c in
  let s2 := TcpconnTheorems.run_trace ro tr (exec (Tcpconn.handle ro k1 c) s) in
  let s3 := exec (Tcpconn.handle ro k2 (TcpSetState ctx)) s2 in
  is_connect c = true -> sk <> 0 ->
  (update_elem (st_inflight_connect s) sk (caller k1) BPF_ANY).1 = 0 ->
  Forall (fun kc => sk_of kc.2 <> sk) tr ->
  ctx 0%nat = sk -> s32 (ctx 1%nat) = BPF_TCP_ESTABLISHED ->
  addressable m -> resident m (bpf_probe_read_kernel k2) ->
  sock_at m ro sk BPF_TCP_SYN_SENT family port daddr ->
  family = AF_INET \/ family = AF_INET6 -> 0 <= port < 65536 ->
  Forall byte daddr -> sized k1 ->
  pending s3 !! sk = None /\
  (pending s2 !! sk = None \/ ~ TcpconnTheorems.can_reserve s2 \/
   exists e, TcpconnTheorems.evs s3 = TcpconnTheorems.evs s2 ++ [e] /\
   forall fill, Tcp.start_body (sample fill e) = Send {|
     tc_ElapsedNs := u64 (bpf_ktime_get_ns k2);
     tc_PidTGid := u64 (bpf_get_current_pid_tgid k1);
     tc_UidGid := u64 (bpf_get_current_uid_gid k1);
     tc_CgroupID := u64 (bpf_get_current_cgroup_id k1);
     tc_Comm := text (bpf_get_current_comm k1 16);
     tc_Family := family;
     tc_TargetAddr := if family =? AF_INET then AddrFrom4_String daddr else AddrFrom16_String daddr;
     tc_TargetPort := port |}).
Proof.
  cbv zeta. intros Hc Hsk Hup Htr Hctx Hnew Hm Hk Hat Hf Hp Hb Hsz.
  destruct (connect_reports ro k1 c tr k2 m ctx s family port daddr) as [H1 [[H2 _]|[_ H3]]];
    [done..|split; [done|by left]|]. split; [done|]. right.
  destruct (ringbuf_reserve (st_events (TcpconnTheorems.run_trace ro tr
    (exec (Tcpconn.handle ro k1 c) s))) Tcpconn.sizeof_event 0) as [[e0|] rb] eqn:Er.
  2:{ left. intros (? & ? & ?). congruence. }
  right. eexists. split; [apply H3; by eexists _, _|]. intros fill.
  set (e := fill_event _ _ _ _ _ _).
  assert (Tcpconn.ev_comm e = bpf_get_current_comm k1 16) as Hcomm.
  { apply overlay_full. rewrite (sized_comm _ Hsz 16) by done. done. }
  rewrite (tcp_body fill e daddr port); [by rewrite Hcomm|..].
  - rewrite Hcomm. by apply (sized_comm _ Hsz 16).
  - destruct Hf as [-> | ->]; [left|right]; (split; [done|]).
    all: pose proof (at_daddr _ _ _ _ _ _ _ Hat) as Hd; by apply length_mem_read in Hd.
  - done.
  - by eapply sk_daddr_at.
  - unfold e. cbn [Tcpconn.ev_dport fill_event]. unfold sk_read.
    rewrite (sk_bytes_at k2 m Hm Hk sizeof_dport (sk_of c) (skc_dport ro)
      [port / 256; port mod 256]); [|done|apply Hat].
    simpl. Z.to_euclidean_division_equations. lia.
  - by eapply sk_dport_at.
Qed.

(** ** Exec events *)

Section Exec.
Context (nodeName : list Z) (bootTime : Z) (cwd_of : Z -> list Z) (cmdline_of : Z -> option (list Z)).
Context (Hnode : Forall byte nodeName).

Lemma FormatUint_bytes n : 0 <= n -> Forall byte (FormatUint 10 n).
Proof.
  intros. apply digits_chars; [lia|done|]. intros d Hd. unfold digit, byte.
  destruct (Z.ltb_spec d 10); lia.
Qed.

Lemma FormatInt_bytes n : Forall byte (FormatInt n).
Proof.
  unfold FormatInt. destruct (Z.ltb_spec n 0).
  - constructor; [unfold byte; lia|]. apply FormatUint_bytes. lia.
  - by apply FormatUint_bytes.
Qed.

(** An id names one start time and one pid. *)
Lemma encodeExecID_inj p1 s1 p2 s2 :
  0 <= s1 -> 0 <= s2 ->
  Proc.encodeExecID nodeName p1 s1 = Proc.encodeExecID nodeName p2 s2 -> p1 = p2 /\ s1 = s2.
Proof.
  intros H1 H2 E.
  assert (forall p s, 0 <= s -> Forall byte (nodeName ++ 58 :: FormatUint 10 s ++ 58 :: FormatInt p)) as Hb.
  { intros p s Hs. apply Forall_app. split; [done|]. constructor; [unfold byte; lia|].
    apply Forall_app. split; [by apply FormatUint_bytes|].
    constructor; [unfold byte; lia|]. apply FormatInt_bytes. }
  apply EncodeToString_inj in E; [|by apply Hb..].
  apply app_inv_head in E. injection E as E.
  assert (forall s p, 0 <= s -> Cut (FormatUint 10 s ++ 58 :: FormatInt p) [58] =
    Some (FormatUint 10 s, FormatInt p)) as Hs.
  { intros. apply Cut_Some. split; [done|]. apply FormatUint_avoids; lia. }
  pose proof (Hs s1 p1 H1) as C1. rewrite E, Hs in C1 by done. injection C1 as Es Ep. apply FormatUint_inj in Es; [|lia..].
  apply FormatInt_inj in Ep. done.
Qed.

(** Process lineage.  For events with start times that are not negative, the
    parent id of one event is the exec id of another exactly when the first
    process has the pid and the start time of the second as its parent: pids
    that were reused do not confuse it.  A process without a parent gets the id
    of pid 0. *)
Theorem exec_lineage child parent :
  let c := Proc.buildExecEvent nodeName bootTime cwd_of cmdline_of child in
  let p := Proc.buildExecEvent nodeName bootTime cwd_of cmdline_of parent in
  let pc := Exec.Decoder.pe_proc child in
  let pp := Exec.Decoder.pe_proc parent in
  0 <= p_parent_start_time_ns pc -> 0 <= p_start_time_ns pp ->
  (0 < p_ppid pc ->
   Proc.ee_PExecID c = Proc.ee_ExecID p <->
   p_ppid pc = p_pid pp /\ p_parent_start_time_ns pc = p_start_time_ns pp) /\
  (p_ppid pc <= 0 -> Proc.ee_PExecID c = Proc.encodeExecID nodeName 0 0).
Proof.
  cbv zeta. intros H1 H2. unfold Proc.buildExecEvent, Proc.buildExecIDs.
  assert (forall x : list Z * bool, forall (f : list Z -> bool -> Proc.ExecEvent) (g : Proc.ExecEvent -> list Z) y,
    (forall a b, g (f a b) = y) -> g (let '(a, b) := x in f a b) = y) as Hlet by (by intros [] *).
  rewrite !(Hlet _ _ Proc.ee_PExecID (if p_ppid (Exec.Decoder.pe_proc child) <=? 0
    then Proc.encodeExecID nodeName 0 0 else Proc.encodeExecID nodeName
      (p_ppid (Exec.Decoder.pe_proc child)) (p_parent_start_time_ns (Exec.Decoder.pe_proc child)))) by done.
  rewrite (Hlet _ _ Proc.ee_ExecID (Proc.encodeExecID nodeName (p_pid (Exec.Decoder.pe_proc parent))
    (p_start_time_ns (Exec.Decoder.pe_proc parent)))) by done.
  split; intros Hp.
  - rewrite (proj2 (Z.leb_gt _ _)) by done. split; [by apply encodeExecID_inj|]. by intros [-> ->].
  - by rewrite (proj2 (Z.leb_le _ _)) by done.
Qed.
End Exec.

(** ** The channel to the exporter *)

Section Channel.
Context {R Rec : Type} (ToRecord : R -> option Rec).
Import Channel.
Implicit Types (c : chan R) (ops : list (op R)).

Lemma omap_cons {A B} (f : A -> option B) x l :
  omap f (x :: l) = match f x with Some y => y :: omap f l | None => omap f l end.
Proof. done. Qed.

(** What a call of the producer takes from the queue. *)
Lemma consume_spec fuel events c :
  (length (queue c) < fuel)%nat -> (length events <= maxBatchSize)%nat ->
  let '(events', open, c') := consume ToRecord fuel events c in
  exists n, (n <= length (queue c))%nat /\ queue c' = drop n (queue c) /\ closed c' = closed c /\
    events' = events ++ omap ToRecord (take n (queue c)) /\ (length events' <= maxBatchSize)%nat /\
    (length events' < maxBatchSize -> n = length (queue c))%nat /\
    (open = false -> closed c = true /\ queue c' = []).
Proof.
  revert events c. induction fuel as [|fuel IH]; intros events [q cl] Hf He; [lia|]. cbn [consume].
  destruct (Nat.ltb_spec (length events) maxBatchSize) as [Hlt|Hge].
  2:{ exists 0%nat. cbn [queue closed]. rewrite drop_0, take_0, app_nil_r. split_and!; done || lia. }
  cbn [queue closed] in *. destruct q as [|raw q].
  { destruct cl; exists 0%nat; cbn [queue closed]; rewrite app_nil_r; split_and!; done || lia. }
  cbn [length] in Hf. set (events1 := match ToRecord raw with Some r => events ++ [r] | None => events end).
  assert (length events1 <= maxBatchSize)%nat as He1.
  { unfold events1. destruct (ToRecord raw); rewrite ?length_app; simpl; lia. }
  specialize (IH events1 (Chan q cl) ltac:(simpl; lia) He1).
  destruct (consume ToRecord fuel events1 (Chan q cl)) as [[events' open] c'].
  destruct IH as (n & H1 & H2 & H3 & H4 & H5 & H6 & H7). cbn [queue closed] in *.
  exists (S n). cbn [length]. split_and!; [lia|done|done| |done|intros; f_equal; by apply H6|done].
  rewrite H4. unfold events1. cbn [take]. rewrite omap_cons.
  destruct (ToRecord raw); [by rewrite <- app_assoc|done].
Qed.

Lemma consumeFromChannel_spec c :
  let '(events, open, c') := consumeFromChannel ToRecord c in
  exists n, queue c' = drop n (queue c) /\ closed c' = closed c /\
    events = omap ToRecord (take n (queue c)) /\ (length events <= maxBatchSize)%nat /\
    (length events < maxBatchSize -> n = length (queue c))%nat /\
    (open = false -> closed c = true /\ queue c' = []).
Proof.
  pose proof (consume_spec (S (length (queue c))) [] c ltac:(lia) ltac:(simpl; lia)) as H.
  unfold consumeFromChannel. destruct (consume ToRecord _ [] c) as [[events open] c'].
  destruct H as (n & _ & H). by exists n.
Qed.

(** The records the loop offered, and those that found room. *)
Definition offered (ops : list (op R)) : list R :=
  omap (fun o => match o with Offer raw => Some raw | Tick => None end) ops.

Fixpoint accepted (ops : list (op R)) (s : chan R * list (list Rec)) : list R :=
  match ops with
  | [] => []
  | o :: ops' =>
      match o with
      | Offer raw => if (length (queue s.1) <? ExportChannelSize)%nat then [raw] else []
      | Tick => []
      end ++ accepted ops' (chan_step ToRecord o s)
  end.

Lemma accepted_sublist ops s : accepted ops s `sublist_of` offered ops.
Proof.
  revert s. induction ops as [|[raw|] ops IH]; intros s; [done| |]; cbn [accepted].
  - unfold offered. rewrite omap_cons. case_match; simpl; [by apply sublist_skip|by apply sublist_cons].
  - unfold offered. rewrite omap_cons. apply IH.
Qed.

Lemma chan_step_spec o c out :
  let '(c', out') := chan_step ToRecord o (c, out) in
  concat out' ++ omap ToRecord (queue c') =
  concat out ++ omap ToRecord (queue c ++ accepted [o] (c, out)) /\
  (Forall (fun b => 0 < length b <= maxBatchSize)%nat out ->
   Forall (fun b => 0 < length b <= maxBatchSize)%nat out') /\
  (length (queue c) <= ExportChannelSize -> length (queue c') <= ExportChannelSize)%nat.
Proof.
  destruct o as [raw|]; cbn [chan_step accepted fst].
  - unfold offer. rewrite app_nil_r. destruct (Nat.ltb_spec (length (queue c)) ExportChannelSize);
      cbn [queue]; rewrite ?app_nil_r; split_and!; try done.
    intros _. rewrite length_app. simpl. lia.
  - pose proof (consumeFromChannel_spec c) as H.
    destruct (consumeFromChannel ToRecord c) as [[events open] c'].
    destruct H as (n & H1 & _ & H2 & H3 & _). rewrite app_nil_r.
    split_and!; [|intros Hb; case_bool_decide; [done|]; apply Forall_app_2; [done|]; constructor; [|constructor];
      destruct events; [done|simpl in *; lia]|rewrite H1, length_drop; lia].
    rewrite <- (take_drop n (queue c)) at 1. rewrite omap_app, <- H2, H1.
    case_bool_decide as E; [by rewrite E|]. rewrite concat_app. cbn [concat].
    by rewrite app_nil_r, <- app_assoc.
Qed.

Lemma run_chan_spec ops c out :
  let '(c', out') := run_chan ToRecord ops (c, out) in
  concat out' ++ omap ToRecord (queue c') =
  concat out ++ omap ToRecord (queue c ++ accepted ops (c, out)) /\
  (Forall (fun b => 0 < length b <= maxBatchSize)%nat out ->
   Forall (fun b => 0 < length b <= maxBatchSize)%nat out') /\
  (length (queue c) <= ExportChannelSize -> length (queue c') <= ExportChannelSize)%nat.
Proof.
  revert c out. induction ops as [|o ops IH]; intros c out.
  { simpl. by rewrite app_nil_r. }
  pose proof (chan_step_spec o c out) as Hs. cbn [run_chan fold_left] in *.
  change (accepted (o :: ops) (c, out)) with
    (match o with
     | Offer raw => if (length (queue (c, out).1) <? ExportChannelSize)%nat then [raw] else []
     | Tick => []
     end ++ accepted ops (chan_step ToRecord o (c, out))).
  cbn [accepted] in Hs. rewrite app_nil_r in Hs.
  destruct (chan_step ToRecord o (c, out)) as [c1 out1].
  specialize (IH c1 out1). unfold run_chan in *.
  destruct (fold_left _ ops (c1, out1)) as [c' out']. destruct IH as (I1 & I2 & I3), Hs as (S1 & S2 & S3).
  split_and!; [|auto..]. rewrite I1, omap_app, app_assoc, S1, <- app_assoc, <- omap_app.
  by rewrite <- app_assoc.
Qed.

(** What the exporter writes.  However the loop of a probe and the ticks of
    the exporter interleave, from an empty channel: the batches written so far
    and the records still in the channel are, in order, the records of the
    events that found room; nothing is duplicated or reordered, a batch has 1 to
    1024 records, and the channel holds at most 4096.  While 4096 records have
    not been offered, none is lost. *)
Theorem export_in_order ops :
  let '(c, out) := run_chan ToRecord ops (Chan [] false, []) in
  let acc := accepted ops (Chan [] false, []) in
  concat out ++ omap ToRecord (queue c) = omap ToRecord acc /\
  acc `sublist_of` offered ops /\
  ((length (offered ops) <= ExportChannelSize)%nat -> acc = offered ops) /\
  Forall (fun b => 0 < length b <= maxBatchSize)%nat out /\
  (length (queue c) <= ExportChannelSize)%nat.
Proof.
  pose proof (run_chan_spec ops (Chan [] false) []) as H.
  destruct (run_chan ToRecord ops (Chan [] false, [])) as [c out]. cbv zeta.
  destruct H as (H1 & H2 & H3). split_and!.
  - by rewrite H1.
  - apply accepted_sublist.
  - assert (forall ops c out, (length (queue c) + length (offered ops) <= ExportChannelSize)%nat ->
      accepted ops (c, out) = offered ops) as Hall.
    { clear. induction ops as [|o ops IH]; intros c out Hl; [done|].
      pose proof (chan_step_spec o c out) as Hs. cbn [accepted].
      destruct o as [raw|]; unfold offered in *; rewrite omap_cons in *; cbn [length] in Hl.
      - cbn [fst chan_step]. unfold offer. rewrite (proj2 (Nat.ltb_lt _ _)) by lia.
        cbn [app]. f_equal. apply IH. cbn [queue]. rewrite length_app. cbn [length]. lia.
      - cbn [app chan_step]. pose proof (consumeFromChannel_spec c) as Hc.
        destruct (consumeFromChannel ToRecord c) as [[events open] c'].
        destruct Hc as (n & Hq & _). apply IH. rewrite Hq, length_drop. lia. }
    intros Hl. apply Hall. done.
  - apply H2. constructor.
  - apply H3. simpl. unfold ExportChannelSize. lia.
Qed.
End Channel.

(** ** Witnesses *)

Ltac sized_trace := repeat (apply Forall_cons; split; [apply ref_sized|]); apply Forall_nil; exact I.

Module Demo.
Import PostgresTheorems.Demo.

(** The memory of a sample of each probe. *)
Definition pg_sample : Postgres.event := Postgres.Event 0 0 0 0 0 0 0 0 (zeros (Z.to_nat 16384)) [].
Definition pg_ring : bpf_ringbuf Postgres.event := ref_ringbuf Postgres.event pg_sample.
Definition pg_init : Postgres.state conns_map pg_ring :=
  Postgres.State (MI := conns_map) (RB := pg_ring) ∅ ([], []).

Definition startup : list Z := PostgresTheorems.be32 8 ++ PostgresTheorems.be32 196610.
Definition ask : list Z := PostgresTheorems.frame_bytes (PostgresTheorems.message 81 query).

(** A startup message, then a query. *)
Definition pg_trace : list (kenv * Postgres.call) :=
  [(k startup, SysEnterSendto (send startup)); (k ask, SysEnterSendto (send ask))].

(** A response written to the standard output. *)
Definition result : list Z := str "{jsonrpc: 2.0, result: 7}".
Definition stdio_trace : list (kenv * Stdio.call) :=
  [(ref_kenv (mem_at 4096 result) 10 (7 * 2 ^ 32 + 7) 0 1 0 "server",
    SysEnterWrite (EnterCtx 0 0 1 4096 (Z.of_nat (length result))))].

Definition gjson (json : list Z) (path : string) : bool := Contains json (str path).

Definition process (pid ppid start parent_start : Z) : Exec.Decoder.parsedExecEvent :=
  Exec.Decoder.ParsedExecEvent (Exec.Proc 0 start parent_start pid ppid 0 (str "sh") (str "/bin/sh") 0 0 []) [].
End Demo.

Lemma pg_events_collected_witness :
  exists e r, e ∈ PostgresTheorems.evs (run ((fun kc => Postgres.handle kc.1 kc.2) <$> Demo.pg_trace) Demo.pg_init) /\
    Pg.start_body (sample (fun _ => 0) e) = Send r.
Proof.
  destruct (length_elem (PostgresTheorems.evs
    (run ((fun kc => Postgres.handle kc.1 kc.2) <$> Demo.pg_trace) Demo.pg_init)) 0) as [e He].
  { vm_compute; reflexivity. }
  exists e. eexists. split; [exact He|].
  apply (pg_events_collected (RB := Demo.pg_ring) Demo.pg_trace Demo.pg_init (fun _ => 0) e).
  - apply ref_reserves. vm_compute; reflexivity.
  - sized_trace.
  - reflexivity.
  - reflexivity.
  - exact He.
Defined.

Lemma stdio_events_collected_witness :
  exists e r, e ∈ StdioTheorems.evs (StdioTheorems.run_trace Demo.stdio_trace StdioTheorems.Demo.init) /\
    Mcp.start_body Demo.gjson (sample (fun _ => 0) e) = Send r.
Proof.
  destruct (length_elem (StdioTheorems.evs
    (StdioTheorems.run_trace Demo.stdio_trace StdioTheorems.Demo.init)) 0) as [e He].
  { vm_compute; reflexivity. }
  exists e. eexists. split; [exact He|].
  rewrite (stdio_events_collected Demo.gjson (RB := StdioTheorems.Demo.RB) Demo.stdio_trace
    StdioTheorems.Demo.init (fun _ => 0) e).
  - assert (forallb (fun e => mcp_message Demo.gjson (Stdio.ev_rw e) (u8 <$> StdioTheorems.payload e))
      (StdioTheorems.evs (StdioTheorems.run_trace Demo.stdio_trace StdioTheorems.Demo.init)) = true) as H
      by (vm_compute; reflexivity).
    rewrite forallb_forall in H. rewrite (H e) by (by apply list_elem_of_In). reflexivity.
  - apply ref_reserves. vm_compute; reflexivity.
  - sized_trace.
  - reflexivity.
  - exact He.
Defined.

Lemma tcp_connect_collected_witness :
  let s2 := TcpconnTheorems.run_trace TcpconnTheorems.Demo.ro TcpconnTheorems.Demo.others
    (exec (Tcpconn.handle TcpconnTheorems.Demo.ro TcpconnTheorems.Demo.k1
      (TcpV4Connect (TcpconnTheorems.Demo.args 4096 0))) TcpconnTheorems.Demo.init) in
  let s3 := exec (Tcpconn.handle TcpconnTheorems.Demo.ro TcpconnTheorems.Demo.softirq
      (TcpSetState (TcpconnTheorems.Demo.args 4096 1))) s2 in
  exists e r, TcpconnTheorems.evs s3 = TcpconnTheorems.evs s2 ++ [e] /\
    Tcp.start_body (sample (fun _ => 0) e) = Send r /\ tc_TargetAddr r = str "192.0.2.7".
Proof.
  destruct (tcp_connect_collected TcpconnTheorems.Demo.ro TcpconnTheorems.Demo.k1
    (TcpV4Connect (TcpconnTheorems.Demo.args 4096 0)) TcpconnTheorems.Demo.others
    TcpconnTheorems.Demo.softirq TcpconnTheorems.Demo.kernel (TcpconnTheorems.Demo.args 4096 1)
    TcpconnTheorems.Demo.init AF_INET 443 [192; 0; 2; 7]) as (_ & [H|[H|H]]).
  - reflexivity.
  - discriminate.
  - reflexivity.
  - repeat constructor; discriminate.
  - reflexivity.
  - reflexivity.
  - apply TcpconnTheorems.Demo.kernel_addressable.
  - apply ref_resident.
  - apply TcpconnTheorems.Demo.at_4096.
  - by left.
  - by split.
  - repeat constructor; discriminate.
  - apply ref_sized.
  - vm_compute in H. discriminate.
  - destruct H. eexists _, _. reflexivity.
  - destruct H as (e & He & Hr). exists e. eexists. split; [exact He|]. split; [exact (Hr (fun _ => 0))|].
    reflexivity.
Defined.

(** A shell and its child; another shell that got the pid later. *)
Lemma exec_lineage_witness :
  let event := Proc.buildExecEvent (str "node") 0 (fun _ => []) (fun _ => None) in
  Proc.ee_PExecID (event (Demo.process 200 100 50 20)) = Proc.ee_ExecID (event (Demo.process 100 1 20 0)).
Proof.
  cbv zeta. destruct (exec_lineage (str "node") 0 (fun _ => []) (fun _ => None)
    ltac:(repeat constructor; discriminate) (Demo.process 200 100 50 20) (Demo.process 100 1 20 0)) as [H _].
  - discriminate.
  - discriminate.
  - apply H; [reflexivity|]. split; reflexivity.
Defined.
