(* ===== verification/Endian.v ===== *)
(** Byte order: [headers/bpf_endian.h].

    The swaps the macros write out with shifts, the compiler's byte swaps, and the
    conversions between host and network order for either byte order of the
    target.  Whether an argument is a constant for the compiler is a flag.  The
    theorems: the written-out swaps reverse the bytes, so both branches of a
    conversion agree, memory holds the converted number in network order on every
    target, and converting there and back gives the number again. *)

From S2P Require Import Prelude GoStd Collector.

(** [(__u##b)(x) << (b-(n+1)*8) >> (b-8) << (m*8)]: the cast value is promoted, so
    a 16-bit value is shifted as an [int]. *)
Definition bpf_mvb (x b n m : Z) : Z :=
  let w := Z.max b 32 in
  let shl v k := Z.shiftl v k mod 2 ^ w in
  shl (Z.shiftr (shl (x mod 2 ^ b) (b - (n + 1) * 8)) (b - 8)) (m * 8).

Definition bpf_swab16 (x : Z) : Z := u16 (Z.lor (bpf_mvb x 16 0 1) (bpf_mvb x 16 1 0)).

Definition bpf_swab32 (x : Z) : Z :=
  u32 (Z.lor (Z.lor (Z.lor (bpf_mvb x 32 0 3) (bpf_mvb x 32 1 2)) (bpf_mvb x 32 2 1)) (bpf_mvb x 32 3 0)).

Definition bpf_swab64 (x : Z) : Z :=
  u64 (Z.lor (Z.lor (Z.lor (Z.lor (Z.lor (Z.lor (Z.lor
    (bpf_mvb x 64 0 7) (bpf_mvb x 64 1 6)) (bpf_mvb x 64 2 5)) (bpf_mvb x 64 3 4))
    (bpf_mvb x 64 4 3)) (bpf_mvb x 64 5 2)) (bpf_mvb x 64 6 1)) (bpf_mvb x 64 7 0)).

(** [__builtin_bswap16], [32] and [64] of a number of [k] bytes. *)
Definition builtin_bswap (k : nat) (x : Z) : Z := le_decode (reverse (le_encode k x)).

(** [__BYTE_ORDER__]. *)
Inductive byte_order := LITTLE_ENDIAN | BIG_ENDIAN.

(** The macros of each byte order.  The one for constants and the other. *)
Definition constant_swap (o : byte_order) (swab : Z -> Z) (x : Z) : Z :=
  match o with LITTLE_ENDIAN => swab x | BIG_ENDIAN => x end.
Definition variable_swap (o : byte_order) (k : nat) (x : Z) : Z :=
  match o with LITTLE_ENDIAN => builtin_bswap k x | BIG_ENDIAN => x end.

Section Convert.
Context (o : byte_order) (constant_p : bool).

Definition bpf_htons (x : Z) : Z := if constant_p then constant_swap o bpf_swab16 x else variable_swap o 2 x.
Definition bpf_ntohs (x : Z) : Z := if constant_p then constant_swap o bpf_swab16 x else variable_swap o 2 x.
Definition bpf_htonl (x : Z) : Z := if constant_p then constant_swap o bpf_swab32 x else variable_swap o 4 x.
Definition bpf_ntohl (x : Z) : Z := if constant_p then constant_swap o bpf_swab32 x else variable_swap o 4 x.
Definition bpf_cpu_to_be64 (x : Z) : Z := if constant_p then constant_swap o bpf_swab64 x else variable_swap o 8 x.
Definition bpf_be64_to_cpu (x : Z) : Z := if constant_p then constant_swap o bpf_swab64 x else variable_swap o 8 x.
End Convert.

(** A number of [k] bytes in memory. *)
Definition in_memory (o : byte_order) (k : nat) (x : Z) : list Z :=
  match o with LITTLE_ENDIAN => le_encode k x | BIG_ENDIAN => reverse (le_encode k x) end.

(** ** Theorems *)

(** Byte [n] of a number. *)
Definition byte_of (x n : Z) : Z := x / 2 ^ (8 * n) mod 256.

Lemma byte_of_range x n : 0 <= byte_of x n < 256.
Proof. apply Z.mod_pos_bound. lia. Qed.

(** Isolating a byte, in the widths where no promotion interferes. *)
Lemma bpf_mvb_byte x b n m :
  32 <= b -> 0 <= n -> 0 <= m -> (n + 1) * 8 <= b -> (m + 1) * 8 <= b ->
  bpf_mvb x b n m = byte_of x n * 2 ^ (8 * m).
Proof.
  intros Hb Hn Hm Hnb Hmb. unfold bpf_mvb, byte_of. rewrite Z.max_l by lia.
  change 256 with (2 ^ 8). apply Z.bits_inj'. intros i Hi.
  rewrite Z.mul_pow2_bits by lia.
  destruct (Z.ltb_spec i b) as [Hib|Hib].
  - rewrite Z.mod_pow2_bits_low, Z.shiftl_spec by lia.
    destruct (Z.ltb_spec i (m * 8)) as [Hlow|Hlow].
    { rewrite !Z.testbit_neg_r by lia. done. }
    rewrite Z.shiftr_spec by lia. replace (8 * m) with (m * 8) by lia.
    destruct (Z.ltb_spec (i - m * 8) 8) as [Hj|Hj].
    + rewrite Z.mod_pow2_bits_low, Z.shiftl_spec, Z.mod_pow2_bits_low by lia.
      rewrite Z.mod_pow2_bits_low, Z.div_pow2_bits by lia. f_equal. lia.
    + rewrite (Z.mod_pow2_bits_high _ b) by lia. by rewrite Z.mod_pow2_bits_high by lia.
  - rewrite Z.mod_pow2_bits_high by lia. by rewrite Z.mod_pow2_bits_high by lia.
Qed.

Lemma lor_disjoint X y n : 0 <= n -> 0 <= y < 2 ^ n -> (2 ^ n | X) -> Z.lor X y = X + y.
Proof.
  intros Hn Hy [q ->]. rewrite <- Z.shiftl_mul_pow2 by done. by apply lor_shiftl.
Qed.

Lemma le_encode_bytes_of k : forall x n,
  0 <= n -> le_encode k (x / 2 ^ (8 * n)) = (fun i => byte_of x (n + Z.of_nat i)) <$> seq 0 k.
Proof.
  induction k as [|k IH]; intros x n Hn; [done|]. cbn [le_encode seq fmap list_fmap].
  f_equal; [by rewrite Z.add_0_r|]. rewrite Z.div_div by lia.
  replace (2 ^ (8 * n) * 256) with (2 ^ (8 * (n + 1))) by (rewrite Z.mul_add_distr_l, Z.pow_add_r by lia; done). rewrite IH by lia.
  rewrite <- fmap_S_seq, <- list_fmap_compose. apply list_fmap_ext. intros i j _. simpl. f_equal. lia.
Qed.

Lemma builtin_bswap_bytes k x : builtin_bswap k x = le_decode (reverse (byte_of x <$> (Z.of_nat <$> seq 0 k))).
Proof.
  unfold builtin_bswap. rewrite <- (Z.div_1_r x) at 1. change 1 with (2 ^ (8 * 0)) at 1.
  rewrite le_encode_bytes_of by lia. by rewrite <- list_fmap_compose.
Qed.

Lemma swab32_bytes x : bpf_swab32 x = builtin_bswap 4 x.
Proof.
  rewrite builtin_bswap_bytes. unfold bpf_swab32. rewrite !bpf_mvb_byte by lia.
  change (le_decode _) with
    (byte_of x 3 + 256 * (byte_of x 2 + 256 * (byte_of x 1 + 256 * (byte_of x 0 + 256 * 0)))).
  pose proof (byte_of_range x 0). pose proof (byte_of_range x 1).
  pose proof (byte_of_range x 2). pose proof (byte_of_range x 3).
  set (b0 := byte_of x 0) in *. set (b1 := byte_of x 1) in *.
  set (b2 := byte_of x 2) in *. set (b3 := byte_of x 3) in *.
  rewrite (lor_disjoint (b0 * _) _ 24) by (try lia; by exists b0).
  rewrite (lor_disjoint _ (b2 * _) 16) by (try lia; exists (b0 * 2 ^ 8 + b1); lia).
  rewrite (lor_disjoint _ (b3 * _) 8) by (try lia; exists (b0 * 2 ^ 16 + b1 * 2 ^ 8 + b2); lia).
  rewrite u32_small by lia. lia.
Qed.

Lemma swab64_bytes x : bpf_swab64 x = builtin_bswap 8 x.
Proof.
  rewrite builtin_bswap_bytes. unfold bpf_swab64. rewrite !bpf_mvb_byte by lia.
  change (le_decode _) with
    (byte_of x 7 + 256 * (byte_of x 6 + 256 * (byte_of x 5 + 256 * (byte_of x 4 + 256 * (byte_of x 3 + 256 * (byte_of x 2 + 256 * (byte_of x 1 + 256 * (byte_of x 0 + 256 * 0)))))))).
  pose proof (byte_of_range x 0). pose proof (byte_of_range x 1).
  pose proof (byte_of_range x 2). pose proof (byte_of_range x 3).
  pose proof (byte_of_range x 4). pose proof (byte_of_range x 5).
  pose proof (byte_of_range x 6). pose proof (byte_of_range x 7).
  set (b0 := byte_of x 0) in *. set (b1 := byte_of x 1) in *.
  set (b2 := byte_of x 2) in *. set (b3 := byte_of x 3) in *.
  set (b4 := byte_of x 4) in *. set (b5 := byte_of x 5) in *.
  set (b6 := byte_of x 6) in *. set (b7 := byte_of x 7) in *.
  rewrite (lor_disjoint (b0 * _) _ 56) by (try lia; by exists b0).
  rewrite (lor_disjoint _ (b2 * _) 48) by (try lia; exists (b0 * 2 ^ 8 + b1); lia).
  rewrite (lor_disjoint _ (b3 * _) 40) by (try lia; exists (b0 * 2 ^ 16 + b1 * 2 ^ 8 + b2); lia).
  rewrite (lor_disjoint _ (b4 * _) 32) by (try lia; exists (b0 * 2 ^ 24 + b1 * 2 ^ 16 + b2 * 2 ^ 8 + b3); lia).
  rewrite (lor_disjoint _ (b5 * _) 24)
    by (try lia; exists (b0 * 2 ^ 32 + b1 * 2 ^ 24 + b2 * 2 ^ 16 + b3 * 2 ^ 8 + b4); lia).
  rewrite (lor_disjoint _ (b6 * _) 16)
    by (try lia; exists (b0 * 2 ^ 40 + b1 * 2 ^ 32 + b2 * 2 ^ 24 + b3 * 2 ^ 16 + b4 * 2 ^ 8 + b5); lia).
  rewrite (lor_disjoint _ (b7 * _) 8)
    by (try lia; exists (b0 * 2 ^ 48 + b1 * 2 ^ 40 + b2 * 2 ^ 32 + b3 * 2 ^ 24 + b4 * 2 ^ 16 + b5 * 2 ^ 8 + b6); lia).
  rewrite u64_small by lia. lia.
Qed.

(** A 16-bit value is promoted, so its bytes are not isolated: the cast of the
    result drops what the first shift left over. *)
Lemma bpf_mvb_16 x : bpf_mvb x 16 0 1 = u16 x * 256 /\ bpf_mvb x 16 1 0 = byte_of x 1.
Proof.
  pose proof (u16_range x) as H. unfold bpf_mvb, byte_of. change (x mod 2 ^ 16) with (u16 x).
  change (Z.max 16 32) with 32. change (16 - (0 + 1) * 8) with 8. change (16 - (1 + 1) * 8) with 0.
  change (16 - 8) with 8. change (1 * 8) with 8. change (0 * 8) with 0. change (8 * 1) with 8.
  rewrite !Z.shiftl_mul_pow2, !Z.shiftr_div_pow2 by lia.
  change (2 ^ 0) with 1. change (2 ^ 8) with 256. change (2 ^ 32) with 4294967296. unfold u16 in *. change (2 ^ 16) with 65536 in *.
  Z.to_euclidean_division_equations. lia.
Qed.

Lemma swab16_bytes x : bpf_swab16 x = builtin_bswap 2 x.
Proof.
  rewrite builtin_bswap_bytes. unfold bpf_swab16. destruct (bpf_mvb_16 x) as [-> ->].
  change (le_decode _) with (byte_of x 1 + 256 * (byte_of x 0 + 256 * 0)).
  pose proof (byte_of_range x 1). rewrite (lor_disjoint _ (byte_of x 1) 8) by (try lia; by exists (u16 x)).
  unfold u16, byte_of. change (8 * 0) with 0. change (8 * 1) with 8. rewrite Z.div_1_r.
  Z.to_euclidean_division_equations. lia.
Qed.

Lemma builtin_bswap_memory k x : le_encode k (builtin_bswap k x) = reverse (le_encode k x).
Proof.
  unfold builtin_bswap. rewrite <- (length_le_encode k x) at 1. rewrite <- length_reverse.
  apply le_encode_decode. rewrite Forall_reverse. apply le_encode_bytes.
Qed.

Lemma builtin_bswap_twice k x : builtin_bswap k (builtin_bswap k x) = x mod 2 ^ (8 * Z.of_nat k).
Proof. unfold builtin_bswap at 1. by rewrite builtin_bswap_memory, reverse_involutive, le_decode_encode. Qed.

Lemma swap_memory o c k swab x :
  (forall x, swab x = builtin_bswap k x) ->
  in_memory o k (if c : bool then constant_swap o swab x else variable_swap o k x) = reverse (le_encode k x).
Proof. intros H. destruct c, o; simpl; rewrite ?H; [apply builtin_bswap_memory|done|apply builtin_bswap_memory|done]. Qed.

Lemma swap_twice o c c' k swab x :
  (forall x, swab x = builtin_bswap k x) ->
  let swap (c : bool) x := if c then constant_swap o swab x else variable_swap o k x in
  swap c' (swap c x) mod 2 ^ (8 * Z.of_nat k) = x mod 2 ^ (8 * Z.of_nat k).
Proof.
  intros H swap. subst swap. destruct c, c', o; simpl; rewrite ?H, ?builtin_bswap_twice; try done;
    rewrite Z.mod_mod by lia; done.
Qed.

(** Conversions of byte order.  On either byte order, and whether or not the
    compiler knows the argument, a number converted to network order lies in
    memory highest byte first, and converting it back gives the number again.  The
    byte swap the user side applies to ports undoes the conversion of a
    little-endian target. *)
Theorem network_order o c c' x :
  in_memory o 2 (bpf_htons o c x) = reverse (le_encode 2 x) /\
  in_memory o 4 (bpf_htonl o c x) = reverse (le_encode 4 x) /\
  in_memory o 8 (bpf_cpu_to_be64 o c x) = reverse (le_encode 8 x) /\
  u16 (bpf_ntohs o c' (bpf_htons o c x)) = u16 x /\
  u32 (bpf_ntohl o c' (bpf_htonl o c x)) = u32 x /\
  u64 (bpf_be64_to_cpu o c' (bpf_cpu_to_be64 o c x)) = u64 x /\
  Tcp.ReverseBytes16 (u16 (bpf_htons LITTLE_ENDIAN c x)) = u16 x.
Proof.
  split_and!.
  - apply swap_memory, swab16_bytes.
  - apply swap_memory, swab32_bytes.
  - apply swap_memory, swab64_bytes.
  - apply (swap_twice o c c' 2), swab16_bytes.
  - apply (swap_twice o c c' 4), swab32_bytes.
  - apply (swap_twice o c c' 8), swab64_bytes.
  - trans (bpf_swab16 (bpf_htons LITTLE_ENDIAN c x)).
    + unfold bpf_swab16. set (y := bpf_htons _ _ _). destruct (bpf_mvb_16 y) as [-> ->].
      unfold Tcp.ReverseBytes16. rewrite Z.lor_comm, Z.shiftl_mul_pow2, Z.shiftr_div_pow2 by lia.
      change (2 ^ 8) with 256. repeat f_equal. unfold u16, byte_of. change (8 * 1) with 8.
      Z.to_euclidean_division_equations. lia.
    + rewrite swab16_bytes. unfold bpf_htons. destruct c; simpl; rewrite ?swab16_bytes; apply builtin_bswap_twice.
Qed.
