(* ===== verification/Protocol.v ===== *)
(** The protocols found in the plaintext of TLS connections.

    [tls/http1.go], [tls/http2.go], [tls/postgres.go], [tls/compress.go] and the
    records of [tls/protocol.go] they parse.  A parser is given the record of one
    direction of a connection, says what it found and how many bytes of the
    stream that took, and updates the record; [consumeRecord] then takes the
    bytes off the stream.

    The request and response readers of [net/http], the URL text of [net/url], the
    keyed digest of the header mask, the decompressors, and the framer and header
    decoder of [x/net/http2] are parameters (the classes below); the laws a
    theorem needs of them are named there.

    A record owns its bytes: [Append] copies, a chunk is copied before it is kept,
    and a body is read before the stream it lies in is appended to again, so
    slices that share memory never show and values stand for them. *)

From S2P Require Import Prelude GoStd Postgres Collector.

(** ** Outcomes *)

(** What a computation that may crash or loop comes to; [OutOfFuel] stands for
    the loop and is what the termination theorems exclude. *)
Inductive outcome (A : Type) := Done (a : A) | Crash | OutOfFuel.
Arguments Done {A} _.
Arguments Crash {A}.
Arguments OutOfFuel {A}.

#[export] Instance outcome_ret : MRet outcome := fun A a => Done a.
#[export] Instance outcome_bind : MBind outcome := fun A B f m =>
  match m with Done a => f a | Crash => Crash | OutOfFuel => OutOfFuel end.

(** A bounds check. *)
Definition checked {A} (o : option A) : outcome A := match o with Some a => Done a | None => Crash end.

(** ** Constants *)

Definition SSLMaxEventSize : Z := 65536.
Definition SSLMaxDataSize : Z := 64 * SSLMaxEventSize.
Definition SSLRwRead : Z := 4.
Definition SSLRwWrite : Z := 2.
Definition ChunkedEncodingValue : list Z := str "chunked".
Definition CRLFLen : Z := 2.
Definition StreamEndChunkLength : Z := 1 + 2 * CRLFLen.
Definition PostgresStartupMessageMaxLength : Z := 4096.
Definition HTTP1DelimiterLen : Z := 4.
Definition HTTP2FrameHeaderLen : Z := 9.
Definition HTTP2FrameMaxCode : Z := 9.
Definition HTTP2FlagsMask : Z := Z.lor (Z.lor 1 4) (Z.lor 8 32).
Definition PostgresProtoRequest : list Z := str "Postgres".

Definition CRLF : list Z := [13; 10].
Definition HTTP1Delimiter : list Z := CRLF ++ CRLF.
Definition HTTP1ChunkEnd : list Z := str "0" ++ CRLF ++ CRLF.
Definition HTTP1ResponsePrefix : list Z := str "HTTP/".
Definition HTTP1RequestMethods : list (list Z) :=
  str <$> ["GET"; "POST"; "PUT"; "DELETE"; "HEAD"; "OPTIONS"; "PATCH"; "TRACE"; "CONNECT"]%string.
Definition HTTP2Preface : list Z := str "PRI * HTTP/2.0" ++ CRLF ++ CRLF ++ str "SM" ++ CRLF ++ CRLF.
Definition HTTP2PrefaceLen : Z := Z.of_nat (length HTTP2Preface).
Definition HeaderAPIKeys : list (list Z) :=
  str <$> ["Authorization"; "X-API-Key"; "X-Auth-Token"; "X-Access-Token"; "X-Session-Token"; "Cookie"]%string.

(** ** Requests and responses *)

(** [http.Header]; the nil header is the empty one. *)
Notation header := (gmap (list Z) (list (list Z))).

Definition Header_Get (h : header) (key : list Z) : list Z :=
  default [] (h !! CanonicalMIMEHeaderKey key ≫= head).

Definition Header_Add (key value : list Z) (h : header) : header :=
  let key := CanonicalMIMEHeaderKey key in
  <[key := default [] (h !! key) ++ [value]]> h.

(** A reader: the bytes it still delivers, and whether an error follows them
    instead of the end. *)
Record body := Body { unread : list Z; fails : bool }.

(** The fields of [http.Request] and [http.Response] the collector uses.  A URL
    is only ever printed, so [rq_URL] is its text; [None] is the nil pointer. *)
Record Request := {
  rq_Method : list Z;
  rq_RequestURI : list Z;
  rq_URL : option (list Z);
  rq_Host : list Z;
  rq_Proto : list Z;
  rq_Header : header;
  rq_ContentLength : Z;
  rq_Body : body;
}.

Record Response := {
  rs_StatusCode : Z;
  rs_Proto : list Z;
  rs_Header : header;
  rs_ContentLength : Z;
  rs_TransferEncoding : list (list Z);
  rs_Body : body;
}.

Definition with_Body (b : body) (r : Response) : Response := {|
  rs_StatusCode := rs_StatusCode r;
  rs_Proto := rs_Proto r;
  rs_Header := rs_Header r;
  rs_ContentLength := rs_ContentLength r;
  rs_TransferEncoding := rs_TransferEncoding r;
  rs_Body := b |}.

Record ParsedRequest := { pr_StreamID : Z; pr_Request : option Request }.
Record ParsedResponse := { ps_StreamID : Z; ps_Response : option Response; ps_DiscardStream : bool }.

(** Errors of a reader; [io.EOF] and [io.ErrUnexpectedEOF] are told apart. *)
Inductive read_error := EOF | UnexpectedEOF | OtherError.

(** [net/http], [net/url] and the digest of the mask. *)
Class NetHttp := {
  ReadRequest : list Z -> read_error + Request;
  ReadResponse : list Z -> read_error + Response;
  URL_String : list Z -> list Z -> list Z -> list Z;
  mac : list Z -> list Z;
}.

(** The decompressors; [left_over] is what they leave of a body they fail on. *)
Class Codec := {
  gzip_NewReader : body -> option body;
  zstd_NewReader : body -> option body;
  flate_NewReader : body -> body;
  left_over : list Z -> body -> body;
}.

(** Frames, with the stream they are on and the length of their payload. *)
Inductive frame :=
  | HeadersFrame (sid len : Z) (fragment : list Z) (headersEnded streamEnded : bool)
  | ContinuationFrame (sid len : Z) (fragment : list Z) (headersEnded : bool)
  | DataFrame (sid len : Z) (data : list Z) (streamEnded : bool)
  | RSTStreamFrame (sid len : Z)
  | GoAwayFrame (sid len : Z)
  | OtherFrame (sid len : Z).

Definition frame_Length (f : frame) : Z :=
  match f with
  | HeadersFrame _ n _ _ _ | ContinuationFrame _ n _ _ | DataFrame _ n _ _
  | RSTStreamFrame _ n | GoAwayFrame _ n | OtherFrame _ n => n
  end.

Definition HeaderField : Type := list Z * list Z.

(** The framer and the header decoder of [x/net/http2]. *)
Class Http2Lib := {
  framer : Type;
  NewFramer : list Z -> framer;
  ReadFrame : framer -> read_error + frame * framer;
  decoder : Type;
  NewDecoder : decoder;
  DecodeFull : decoder -> list Z -> option (list HeaderField) * decoder;
}.

(** A framer reads its input from the front, a frame at a time: nine octets of
    header and the payload. *)
Class Http2LibOk (L : Http2Lib) := {
  input : framer -> list Z;
  input_new d : input (NewFramer d) = d;
  read_frame_input fr f fr' : ReadFrame fr = inr (f, fr') ->
    0 <= frame_Length f /\
    Z.of_nat (length (input fr)) = HTTP2FrameHeaderLen + frame_Length f + Z.of_nat (length (input fr'));
}.

(** ** Records *)

Record SSLKey := { PidTgid : Z; UidGid : Z; SSLPtr : Z; CgroupID : Z }.

#[export] Instance SSLKey_eq_dec : EqDecision SSLKey.
Proof. solve_decision. Defined.

#[export] Instance SSLKey_countable : Countable SSLKey :=
  inj_countable' (fun k => (PidTgid k, UidGid k, SSLPtr k, CgroupID k))
    (fun '(a, b, c, d) => Build_SSLKey a b c d) ltac:(by intros []).

Record EventInfo := { TimestampNs : Z; DataLen : Z; Comm : list Z }.

Record SessionScope := { Conn : SSLKey; StreamID : Z }.

#[export] Instance SessionScope_eq_dec : EqDecision SessionScope.
Proof. solve_decision. Defined.

#[export] Instance SessionScope_countable : Countable SessionScope :=
  inj_countable' (fun s => (Conn s, StreamID s)) (fun '(k, i) => Build_SessionScope k i) ltac:(by intros []).

Record HTTP2StreamState := {
  HeadersReady : bool;
  Ended : bool;
  Headers : list HeaderField;
  Body_ : list Z;
}.

Section Records.
Context {L : Http2Lib}.

Record HTTP2State := {
  PrefaceConsumed : bool;
  Decoder : decoder;
  HeaderStreamID : Z;
  HeaderBlockBuf : list Z;
  Streams : gmap Z HTTP2StreamState;
}.

Record SSLRecord := {
  Info : list EventInfo;
  Stream : list Z;
  LastResp : option Response;
  EndOfStream : bool;
  HTTP2 : option HTTP2State;
  LastTouched : Z;
}.

(** [&SSLRecord{}], and assignments to the fields. *)
Definition new_record : SSLRecord := {|
  Info := []; Stream := []; LastResp := None; EndOfStream := false; HTTP2 := None; LastTouched := 0 |}.

Definition set_stream (infos : list EventInfo) (s : list Z) (r : SSLRecord) : SSLRecord := {|
  Info := infos; Stream := s; LastResp := LastResp r; EndOfStream := EndOfStream r;
  HTTP2 := HTTP2 r; LastTouched := LastTouched r |}.

Definition set_eos (b : bool) (r : SSLRecord) : SSLRecord := {|
  Info := Info r; Stream := Stream r; LastResp := LastResp r; EndOfStream := b;
  HTTP2 := HTTP2 r; LastTouched := LastTouched r |}.

Definition set_resp (o : option Response) (r : SSLRecord) : SSLRecord := {|
  Info := Info r; Stream := Stream r; LastResp := o; EndOfStream := EndOfStream r;
  HTTP2 := HTTP2 r; LastTouched := LastTouched r |}.

Definition set_http2 (st : HTTP2State) (r : SSLRecord) : SSLRecord := {|
  Info := Info r; Stream := Stream r; LastResp := LastResp r; EndOfStream := EndOfStream r;
  HTTP2 := Some st; LastTouched := LastTouched r |}.

Definition Append (now : Z) (data : list Z) (info : EventInfo) (r : SSLRecord) : SSLRecord := {|
  Info := Info r ++ [info]; Stream := Stream r ++ data; LastResp := LastResp r;
  EndOfStream := EndOfStream r; HTTP2 := HTTP2 r; LastTouched := now |}.

(** The loop of [consumeRecord] over [record.Info], from index [i]; [n] is
    [len(record.Info)].  It yields [index] and [last]. *)
Fixpoint consume_infos (infos : list EventInfo) (i n index last : nat) (len : Z) : nat * nat :=
  match infos with
  | [] => (index, last)
  | info :: infos' =>
      if len =? 0 then (i, last)
      else if s64 (DataLen info) <=? len then
        let len := s64 (len - s64 (DataLen info)) in
        let index := if (i =? n - 1)%nat && (len =? 0) then n else i in
        consume_infos infos' (S i) n index i len
      else (i, last)
  end.

Definition consumeRecord (r : SSLRecord) (consumed : Z)
    : outcome (Z * list Z * bool * SSLRecord) :=
  let len := Z.of_nat (length (Stream r)) in
  if (consumed <=? 0) || bool_decide (Info r = []) then mret (0, [], consumed =? len, r)
  else
    let consumed := if len <? consumed then len else consumed in
    if consumed =? len then
      last ← checked (Info r !! (length (Info r) - 1)%nat);
      mret (TimestampNs last, CharsToString (Comm last), true, set_stream [] [] r)
    else
      let '(index, last) := consume_infos (Info r) 0 (length (Info r)) 0 0 consumed in
      info ← checked (Info r !! last);
      mret (TimestampNs info, CharsToString (Comm info), false,
            set_stream (drop index (Info r)) (drop (Z.to_nat consumed) (Stream r)) r).

End Records.

(** What a parser returns: the message, the bytes it took, and the error. *)
Record parsed (A : Type) := Parsed { p_message : option A; p_consumed : Z; p_err : bool }.
Arguments Parsed {A} _ _ _.
Arguments p_message {A} _.
Arguments p_consumed {A} _.
Arguments p_err {A} _.

Definition lenZ (l : list Z) : Z := Z.of_nat (length l).

(** ** [tls/http1.go] *)

Module HTTP1Parser.
Section HTTP1Parser.
Context {N : NetHttp} {L : Http2Lib}.

Definition ParseRequest (r : SSLRecord) : parsed ParsedRequest * SSLRecord :=
  match ReadRequest (Stream r) with
  | inl UnexpectedEOF => (Parsed None 0 false, r)
  | inl _ =>
      match Index (Stream r) HTTP1Delimiter with
      | Some idx => (Parsed None (Z.of_nat idx + HTTP1DelimiterLen) true, r)
      | None => (Parsed None (lenZ (Stream r)) true, r)
      end
  | inr req =>
      let found := Some {| pr_StreamID := 0; pr_Request := Some req |} in
      match Index (Stream r) HTTP1Delimiter with
      | None => (Parsed found (lenZ (Stream r)) true, r)
      | Some idx =>
          let lengthToConsume := s64 (Z.of_nat idx + HTTP1DelimiterLen + rq_ContentLength req) in
          if (0 <=? rq_ContentLength req) && (lenZ (Stream r) <? lengthToConsume) then
            if (SSLMaxDataSize <? lengthToConsume) && (SSLMaxDataSize <? lenZ (Stream r) + SSLMaxEventSize)
            then (Parsed found (Z.min SSLMaxDataSize (lenZ (Stream r))) false, set_eos true r)
            else (Parsed None 0 false, set_eos false r)
          else (Parsed found lengthToConsume false, set_eos true r)
      end
  end.

(** One chunk of a chunked body: its data and the bytes it takes, 0 when it is
    not complete yet; the flag is the error. *)
Definition parseStream (data : list Z) : outcome (list Z * Z * bool) :=
  match Index data CRLF with
  | Some idx =>
      match ParseUint 16 (take idx data) with
      | None => mret ([], 0, true)
      | Some len =>
          let consumed := u64 (Z.of_nat idx + CRLFLen + len + CRLFLen) in
          if lenZ data <? consumed then mret ([], 0, false)
          else
            chunk ← checked (slice data (Z.of_nat idx + CRLFLen) (s64 (Z.of_nat idx + CRLFLen + s64 len)));
            mret (chunk, consumed, false)
      end
  | None => mret ([], 0, true)
  end.

Definition isChunkedEncoding (resp : Response) : bool :=
  bool_decide (last (rs_TransferEncoding resp) = Some ChunkedEncodingValue).

(** [io.MultiReader] of a body and a chunk. *)
Definition multi_reader (b : body) (chunk : list Z) : body :=
  if fails b then b else Body (unread b ++ chunk) false.

Definition found_response (resp : Response) : option ParsedResponse :=
  Some {| ps_StreamID := 0; ps_Response := Some resp; ps_DiscardStream := false |}.

(** The branch of [ParseResponse] for the chunks of [record.LastResp]. *)
Definition parse_chunk (resp : Response) (r : SSLRecord) : outcome (parsed ParsedResponse * SSLRecord) :=
  '(chunk, consumed, err) ← parseStream (Stream r);
  if err || (consumed =? 0) then mret (Parsed None 0 err, r)
  else if consumed =? StreamEndChunkLength then
    mret (Parsed (found_response resp) (s64 consumed) false, set_eos true r)
  else
    let resp := with_Body (multi_reader (rs_Body resp) chunk) resp in
    mret (Parsed (found_response resp) (s64 consumed) false, set_eos false (set_resp (Some resp) r)).

(** The rest of it, for a response that starts here. *)
Definition parse_fresh (r : SSLRecord) : parsed ParsedResponse * SSLRecord :=
  match ReadResponse (Stream r) with
  | inl UnexpectedEOF => (Parsed None 0 false, r)
  | inl _ =>
      match Index (Stream r) HTTP1Delimiter with
      | Some idx => (Parsed None (Z.of_nat idx + HTTP1DelimiterLen) true, r)
      | None => (Parsed None (lenZ (Stream r)) true, r)
      end
  | inr resp =>
      match Index (Stream r) HTTP1Delimiter with
      | None => (Parsed (found_response resp) (lenZ (Stream r)) true, r)
      | Some idx =>
          if isChunkedEncoding resp then
            let resp := with_Body (Body [] false) resp in
            (Parsed (found_response resp) (Z.of_nat idx + HTTP1DelimiterLen) false,
             set_eos false (set_resp (Some resp) r))
          else
            let consumed := s64 (Z.of_nat idx + HTTP1DelimiterLen + rs_ContentLength resp) in
            if lenZ (Stream r) <? consumed then (Parsed None 0 false, set_resp (Some resp) r)
            else (Parsed (found_response resp) consumed false, set_eos true (set_resp (Some resp) r))
      end
  end.

Definition ParseResponse (r : SSLRecord) : outcome (parsed ParsedResponse * SSLRecord) :=
  match LastResp r with
  | Some resp => if isChunkedEncoding resp then parse_chunk resp r else mret (parse_fresh r)
  | None => mret (parse_fresh r)
  end.
End HTTP1Parser.
End HTTP1Parser.

(** ** [tls/postgres.go] *)

Module PostgresParser.
Section PostgresParser.
Context {L : Http2Lib}.

(** [binary.BigEndian.Uint32] of the four bytes at [i]. *)
Definition be32 (b : list Z) (i : nat) : Z := be32_at b i.

(** The body of the next statement with its tag and length; the record's
    [EndOfStream] is cleared when there is none. *)
Definition parsePostgresStatement (r : SSLRecord) : outcome (option (list Z) * Z * Z * SSLRecord) :=
  if lenZ (Stream r) <? 5 then mret (None, 0, 0, set_eos false r)
  else
    let tag := rd (Stream r) 0 in
    let length := be32 (Stream r) 1 in
    if (length <? 4) || (u32 (lenZ (Stream r) - 1) <? length) then mret (None, 0, 0, set_eos false r)
    else
      body ← checked (slice (Stream r) 5 (u32 (length + 1)));
      mret (Some body, tag, u32 (length + 1), r).

Definition useful (tag : Z) : bool := bool_decide (tag ∈ str "QPBE").

Definition ParseRequest (r : SSLRecord) : outcome (parsed ParsedRequest * SSLRecord) :=
  '(body, tag, length, r) ← parsePostgresStatement r;
  let req :=
    match body with
    | Some body =>
        if useful tag then
          Some {| pr_StreamID := 0;
                  pr_Request := Some {|
                    rq_Method := Pg.string_of_byte tag;
                    rq_RequestURI := [];
                    rq_URL := None;
                    rq_Host := [];
                    rq_Proto := PostgresProtoRequest;
                    rq_Header := ∅;
                    rq_ContentLength := u32 (length - 5);
                    rq_Body := Body body false |} |}
        else None
    | None => None
    end in
  mret (Parsed req length false, set_eos true r).

Definition ParseResponse (r : SSLRecord) : outcome (parsed ParsedResponse * SSLRecord) :=
  '(_, _, length, r) ← parsePostgresStatement r;
  mret (Parsed None length false, set_eos true r).
End PostgresParser.
End PostgresParser.

(** ** [tls/http2.go] *)

Module HTTP2Parser.
Section HTTP2Parser.
Context {N : NetHttp} {L : Http2Lib}.

Record HTTP2ParsedMessage := {
  m_StreamID : Z;
  m_Headers : list HeaderField;
  m_Body : list Z;
  m_Canceled : bool;
}.

Definition ensureHTTP2State (r : SSLRecord) : HTTP2State :=
  match HTTP2 r with
  | Some st => st
  | None => {| PrefaceConsumed := false; Decoder := NewDecoder; HeaderStreamID := 0;
               HeaderBlockBuf := []; Streams := ∅ |}
  end.

Definition new_stream : HTTP2StreamState := {|
  HeadersReady := false; Ended := false; Headers := []; Body_ := [] |}.

(** Assignments to the fields of the state. *)
Definition set_preface (st : HTTP2State) : HTTP2State := {|
  PrefaceConsumed := true; Decoder := Decoder st; HeaderStreamID := HeaderStreamID st;
  HeaderBlockBuf := HeaderBlockBuf st; Streams := Streams st |}.

Definition set_block (sid : Z) (buf : list Z) (st : HTTP2State) : HTTP2State := {|
  PrefaceConsumed := PrefaceConsumed st; Decoder := Decoder st; HeaderStreamID := sid;
  HeaderBlockBuf := buf; Streams := Streams st |}.

Definition set_decoder (d : decoder) (st : HTTP2State) : HTTP2State := {|
  PrefaceConsumed := PrefaceConsumed st; Decoder := d; HeaderStreamID := HeaderStreamID st;
  HeaderBlockBuf := HeaderBlockBuf st; Streams := Streams st |}.

Definition set_streams (ss : gmap Z HTTP2StreamState) (st : HTTP2State) : HTTP2State := {|
  PrefaceConsumed := PrefaceConsumed st; Decoder := Decoder st; HeaderStreamID := HeaderStreamID st;
  HeaderBlockBuf := HeaderBlockBuf st; Streams := ss |}.

(** [ensureStream] and an assignment to the stream it returns. *)
Definition on_stream (sid : Z) (f : HTTP2StreamState -> HTTP2StreamState) (st : HTTP2State) : HTTP2State :=
  set_streams (<[sid := f (default new_stream (Streams st !! sid))]> (Streams st)) st.

Definition ensureStream (sid : Z) : HTTP2State -> HTTP2State := on_stream sid id.

Definition add_headers (hs : list HeaderField) (s : HTTP2StreamState) : HTTP2StreamState := {|
  HeadersReady := true; Ended := Ended s; Headers := Headers s ++ hs; Body_ := Body_ s |}.

Definition end_stream (s : HTTP2StreamState) : HTTP2StreamState := {|
  HeadersReady := HeadersReady s; Ended := true; Headers := Headers s; Body_ := Body_ s |}.

Definition write_body (data : list Z) (s : HTTP2StreamState) : HTTP2StreamState := {|
  HeadersReady := HeadersReady s; Ended := Ended s; Headers := Headers s; Body_ := Body_ s ++ data |}.

Definition tryCompleteStream (sid : Z) (st : HTTP2State) : option HTTP2ParsedMessage * HTTP2State :=
  match Streams st !! sid with
  | Some s =>
      if HeadersReady s && Ended s then
        (Some {| m_StreamID := sid; m_Headers := Headers s; m_Body := Body_ s; m_Canceled := false |},
         set_streams (delete sid (Streams st)) st)
      else (None, st)
  | None => (None, st)
  end.

(** The part that HEADERS and CONTINUATION frames share: the fragment joins the
    open block, and the end of the block decodes it; the flag is the error. *)
Definition header_block (sid : Z) (fragment : list Z) (headersEnded : bool) (st : HTTP2State)
    : bool * HTTP2State :=
  let st := ensureStream sid st in
  let st := set_block (HeaderStreamID st) (HeaderBlockBuf st ++ fragment) st in
  if headersEnded then
    match DecodeFull (Decoder st) (HeaderBlockBuf st) with
    | (None, d) => (true, set_decoder d st)
    | (Some headers, d) => (false, set_block 0 [] (on_stream sid (add_headers headers) (set_decoder d st)))
    end
  else (false, st).

(** What becomes of one frame: an error, the end of a message, or neither. *)
Inductive frame_result := FrameError | FrameMessage (m : HTTP2ParsedMessage) | FrameNext.

Definition complete (sid : Z) (st : HTTP2State) : frame_result * HTTP2State :=
  match tryCompleteStream sid st with
  | (Some m, st) => (FrameMessage m, st)
  | (None, st) => (FrameNext, st)
  end.

Definition parse_frame (f : frame) (st : HTTP2State) : frame_result * HTTP2State :=
  match f with
  | HeadersFrame sid _ fragment headersEnded streamEnded =>
      if negb (HeaderStreamID st =? 0) && negb (HeaderStreamID st =? sid) then (FrameError, st)
      else
        let st := if HeaderStreamID st =? 0 then set_block sid [] st else st in
        match header_block sid fragment headersEnded st with
        | (true, st) => (FrameError, st)
        | (false, st) => complete sid (if streamEnded then on_stream sid end_stream st else st)
        end
  | ContinuationFrame sid _ fragment headersEnded =>
      if (HeaderStreamID st =? 0) || negb (HeaderStreamID st =? sid) then (FrameError, st)
      else
        match header_block sid fragment headersEnded st with
        | (true, st) => (FrameError, st)
        | (false, st) => complete sid st
        end
  | DataFrame sid _ data streamEnded =>
      let st := on_stream sid (write_body data) st in
      complete sid (if streamEnded then on_stream sid end_stream st else st)
  | RSTStreamFrame sid _ =>
      let st := set_streams (delete sid (Streams st)) st in
      let st := if HeaderStreamID st =? sid then set_block 0 [] st else st in
      (FrameMessage {| m_StreamID := sid; m_Headers := []; m_Body := []; m_Canceled := true |}, st)
  | GoAwayFrame _ _ | OtherFrame _ _ => (FrameNext, st)
  end.

(** The loop over the frames of the stream. *)
Fixpoint parse_frames (fuel : nat) (fr : framer) (consumed : Z) (st : HTTP2State)
    : outcome (parsed HTTP2ParsedMessage * HTTP2State) :=
  match fuel with
  | O => OutOfFuel
  | S fuel =>
      match ReadFrame fr with
      | inl EOF | inl UnexpectedEOF => mret (Parsed None consumed false, st)
      | inl OtherError => mret (Parsed None consumed true, st)
      | inr (f, fr) =>
          match parse_frame f st with
          | (FrameError, st) => mret (Parsed None consumed true, st)
          | (FrameMessage m, st) =>
              mret (Parsed (Some m) (consumed + (frame_Length f + HTTP2FrameHeaderLen)) false, st)
          | (FrameNext, st) => parse_frames fuel fr (consumed + (frame_Length f + HTTP2FrameHeaderLen)) st
          end
      end
  end.

(** A frame takes at least one byte, so the length of the stream bounds the
    frames in it. *)
Definition parse (r : SSLRecord) : outcome (parsed HTTP2ParsedMessage * SSLRecord) :=
  let st := ensureHTTP2State r in
  let preface := negb (PrefaceConsumed st) && HasPrefix (Stream r) HTTP2Preface in
  let st := if preface then set_preface st else st in
  let consumed := if preface then HTTP2PrefaceLen else 0 in
  let data := drop (Z.to_nat consumed) (Stream r) in
  '(p, st) ← parse_frames (S (length data)) (NewFramer data) consumed st;
  mret (p, set_http2 st (set_eos (bool_decide (is_Some (p_message p))) r)).

(** The pseudo headers of a request and the others. *)
Record pseudo := { q_method : list Z; q_scheme : list Z; q_path : list Z; q_authority : list Z; q_hdrs : header }.

Definition request_field (q : pseudo) (hf : HeaderField) : pseudo :=
  let '(name, value) := hf in
  if decide (name = str ":method") then
    {| q_method := value; q_scheme := q_scheme q; q_path := q_path q; q_authority := q_authority q; q_hdrs := q_hdrs q |}
  else if decide (name = str ":scheme") then
    {| q_method := q_method q; q_scheme := value; q_path := q_path q; q_authority := q_authority q; q_hdrs := q_hdrs q |}
  else if decide (name = str ":path") then
    {| q_method := q_method q; q_scheme := q_scheme q; q_path := value; q_authority := q_authority q; q_hdrs := q_hdrs q |}
  else if decide (name = str ":authority") then
    {| q_method := q_method q; q_scheme := q_scheme q; q_path := q_path q; q_authority := value; q_hdrs := q_hdrs q |}
  else
    {| q_method := q_method q; q_scheme := q_scheme q; q_path := q_path q; q_authority := q_authority q;
       q_hdrs := Header_Add name value (q_hdrs q) |}.

Definition no_fields : pseudo := {| q_method := []; q_scheme := []; q_path := []; q_authority := []; q_hdrs := ∅ |}.

Definition ParseRequest (r : SSLRecord) : outcome (parsed ParsedRequest * SSLRecord) :=
  '(p, r) ← parse r;
  mret (match p_message p with
        | None => (Parsed None (p_consumed p) (p_err p), r)
        | Some message =>
            if m_Canceled message then (Parsed None (p_consumed p) (p_err p), r)
            else
              let q := foldl request_field no_fields (m_Headers message) in
              (Parsed (Some {| pr_StreamID := m_StreamID message;
                               pr_Request := Some {|
                                 rq_Method := q_method q;
                                 rq_RequestURI := [];
                                 rq_URL := Some (URL_String (q_scheme q) (q_authority q) (q_path q));
                                 rq_Host := q_authority q;
                                 rq_Proto := str "HTTP/2.0";
                                 rq_Header := q_hdrs q;
                                 rq_ContentLength := 0;
                                 rq_Body := Body (m_Body message) false |} |})
                      (p_consumed p) (p_err p), r)
        end).

(** The status and the other headers of a response; [None] is a status that is
    not a number. *)
Fixpoint response_fields (hfs : list HeaderField) (code : Z) (hdrs : header) : option (Z * header) :=
  match hfs with
  | [] => Some (code, hdrs)
  | (name, value) :: hfs' =>
      if decide (name = str ":status") then
        code ← Atoi value; response_fields hfs' code hdrs
      else response_fields hfs' code (Header_Add name value hdrs)
  end.

Definition ParseResponse (r : SSLRecord) : outcome (parsed ParsedResponse * SSLRecord) :=
  '(p, r) ← parse r;
  mret (match p_message p with
        | None => (Parsed None (p_consumed p) (p_err p), r)
        | Some message =>
            if m_Canceled message then
              (Parsed (Some {| ps_StreamID := m_StreamID message; ps_Response := None;
                               ps_DiscardStream := true |}) (p_consumed p) (p_err p), r)
            else
              match response_fields (m_Headers message) 0 ∅ with
              | None => (Parsed None (p_consumed p) true, r)
              | Some (code, hdrs) =>
                  (Parsed (Some {| ps_StreamID := m_StreamID message;
                                   ps_Response := Some {|
                                     rs_StatusCode := code;
                                     rs_Proto := str "HTTP/2.0";
                                     rs_Header := hdrs;
                                     rs_ContentLength := 0;
                                     rs_TransferEncoding := [];
                                     rs_Body := Body (m_Body message) false |};
                                   ps_DiscardStream := false |}) (p_consumed p) (p_err p), r)
              end
        end).
End HTTP2Parser.
End HTTP2Parser.

(** ** [tls/compress.go] *)

Module Compress.
Section Compress.
Context {C : Codec}.

Definition EncodingGZip : list Z := str "gzip".
Definition EncodingDeflate : list Z := str "deflate".
Definition EncodingZstd : list Z := str "zstd".

Definition parseEncodings (encoding : list Z) : list (list Z) :=
  List.filter (fun part => bool_decide (part <> []))
    ((fun part => TrimSpace (ToLower part)) <$> split_on 44 encoding).

(** [io.ReadAll]. *)
Definition ReadAll (b : body) : option (list Z) := if fails b then None else Some (unread b).

(** The loop over the encodings, the last applied first. *)
Fixpoint decode_layers (encodings : list (list Z)) (reader : body) : option (list Z) :=
  match encodings with
  | [] => ReadAll reader
  | e :: encodings' =>
      if decide (e = EncodingGZip) then gzip_NewReader reader ≫= decode_layers encodings'
      else if decide (e = EncodingDeflate) then decode_layers encodings' (flate_NewReader reader)
      else if decide (e = EncodingZstd) then zstd_NewReader reader ≫= decode_layers encodings'
      else ReadAll reader
  end.

Definition readDecodeBytes (b : body) (encoding : list Z) : option (list Z) :=
  decode_layers (reverse (parseEncodings encoding)) b.
End Compress.
End Compress.

(** ** Headers *)

(** [flattenMaskedHeader]: the value of a header that carries a credential is
    replaced by its digest. *)
Definition flattenMaskedHeader {N : NetHttp} (h : header) : gmap (list Z) (list Z) :=
  map_imap (fun k v =>
    let value := join_with 44 v in
    Some (if existsb (Contains k) HeaderAPIKeys
          then str "masked-" ++ hex_EncodeToString (mac value) else value)) h.

(** [unicode.IsControl] of a Latin-1 character. *)
Definition IsControl (b : Z) : bool := (b <? 32) || ((127 <=? b) && (b <? 160)).

Definition isBinary (data : list Z) : bool :=
  existsb (fun b => IsControl b && negb (b =? 9) && negb (b =? 10) && negb (b =? 13)) data.
