(* ===== verification/ProtocolTheorems.v ===== *)
(** The protocols of TLS plaintext: theorems.

    Taking bytes off a record keeps the record covered by the events that brought
    its bytes, so a parse loop always gets on.  Chunks are read back, and exactly
    those whose length wraps crash the parser.  HTTP/2 messages are reassembled
    per stream whatever the interleaving of the frames.  Stacked encodings are
    undone.  Credentials are masked, but for the header whose canonical spelling
    is not the one looked for. *)

From S2P Require Import Prelude GoStd Collector Protocol.

(** ** Outcomes *)

Lemma done_bind {A B} (a : A) (f : A -> outcome B) : (Done a ≫= f) = f a.
Proof. done. Qed.

Lemma ret_done {A} (a : A) : mret (M := outcome) a = Done a.
Proof. done. Qed.

Lemma bind_Done {A B} (m : outcome A) (f : A -> outcome B) b :
  (m ≫= f) = Done b -> exists a, m = Done a /\ f a = Done b.
Proof. destruct m; try done. eauto. Qed.

(** ** Records *)

(** The bytes that the events of a record brought. *)
Definition brought (infos : list EventInfo) : Z := foldr (fun i n => DataLen i + n) 0 infos.

(** Lengths of events are lengths of Go slices. *)
Definition sane (i : EventInfo) : Prop := 0 <= DataLen i < 2 ^ 63.

Lemma brought_app a b : brought (a ++ b) = brought a + brought b.
Proof. induction a as [|i a IH]; simpl; lia. Qed.

Lemma brought_nonneg infos : Forall sane infos -> 0 <= brought infos.
Proof. induction 1 as [|i infos [Hi _] _ IH]; simpl; lia. Qed.

(** The loop stops inside the events and skips no more than it was asked to. *)
Lemma consume_infos_spec infos : forall i n index0 last0 len index last,
  Forall sane infos -> 0 <= len < brought infos -> brought infos < 2 ^ 63 -> n = (i + length infos)%nat ->
  consume_infos infos i n index0 last0 len = (index, last) ->
  (i <= index < n)%nat /\ brought (take (index - i) infos) <= len /\
  last = if decide (index = i) then last0 else pred index.
Proof.
  induction infos as [|x infos IH]; intros i n index0 last0 len index last Hs Hlen Hmax Hn;
    cbn [consume_infos brought foldr length] in *; [lia|].
  apply Forall_cons in Hs as [Hx Hs]. destruct Hx as [Hx0 Hx1].
  pose proof (brought_nonneg infos Hs).
  assert (forall b, (i, last0) = (index, b) -> b = last0 ->
    (i <= index < n)%nat /\ brought (take (index - i) (x :: infos)) <= len /\
    last0 = if decide (index = i) then last0 else pred index) as Hstop.
  { intros b [= <- <-] _. rewrite Nat.sub_diag, decide_True by done. simpl. split_and!; [lia..|done]. }
  destruct (Z.eqb_spec len 0); [intros [= <- <-]; by apply (Hstop last0)|].
  rewrite (s64_small (DataLen x)) by lia. destruct (Z.leb_spec (DataLen x) len);
    [|intros [= <- <-]; by apply (Hstop last0)].
  change (foldr _ 0 infos) with (brought infos) in *.
  rewrite s64_small by lia. intros E. apply IH in E as (Hi & Ht & ->); [|done|lia|lia|lia].
  split_and!; [lia|lia| |].
  - destruct (index - i)%nat as [|m] eqn:Em; [lia|]. cbn [take brought foldr].
    change (foldr _ 0 (take m infos)) with (brought (take m infos)).
    replace m with (index - S i)%nat by lia. lia.
  - repeat case_decide; lia.
Qed.

Section Records.
Context {L : Http2Lib}.
Implicit Types r : SSLRecord.

(** The events of the record brought at least the bytes that are in it. *)
Definition covered r : Prop :=
  Forall sane (Info r) /\ lenZ (Stream r) <= brought (Info r) < 2 ^ 63.

Lemma covered_new : covered new_record.
Proof. split; [constructor|]. simpl. unfold lenZ. simpl. lia. Qed.

(** Taking [n > 0] bytes off a covered record: the bytes leave the stream, and
    the time and command are those of an event of the record. *)
Lemma consumeRecord_covered r n :
  covered r -> Stream r <> [] -> 0 < n ->
  exists i all r', consumeRecord r n = Done (TimestampNs i, CharsToString (Comm i), all, r') /\
    i ∈ Info r /\ Stream r' = drop (Z.to_nat n) (Stream r) /\ covered r' /\
    all = (lenZ (Stream r) <=? n) /\
    LastResp r' = LastResp r /\ EndOfStream r' = EndOfStream r /\ HTTP2 r' = HTTP2 r /\
    LastTouched r' = LastTouched r.
Proof.
  intros [Hs Hlen] Hne Hn. unfold consumeRecord, lenZ in *.
  assert (0 < Z.of_nat (length (Stream r))) as Hpos by (destruct (Stream r); simpl; [done|lia]).
  assert (Info r <> []) as Hinfo by (intros E; rewrite E in Hlen; simpl in Hlen; lia).
  rewrite (proj2 (Z.leb_gt n 0)), bool_decide_eq_false_2 by done. cbn [orb].
  destruct (Z.leb_spec (Z.of_nat (length (Stream r))) n) as [Hbig|Hsmall].
  - replace (if _ <? n then _ else n) with (Z.of_nat (length (Stream r)))
      by (destruct (Z.ltb_spec (Z.of_nat (length (Stream r))) n); lia).
    rewrite Z.eqb_refl.
    destruct (lookup_lt_is_Some_2 (Info r) (length (Info r) - 1)) as [i Hi];
      [destruct (Info r); [done|simpl; lia]|].
    rewrite Hi. cbn [checked]. rewrite done_bind. eexists i, _, _. split; [done|].
    split_and!; [by eapply list_elem_of_lookup_2| |split; [by apply Forall_nil|unfold lenZ; simpl; lia]|done..].
    simpl. rewrite drop_ge; [done|lia].
  - rewrite (proj2 (Z.ltb_ge _ _)), (proj2 (Z.eqb_neq _ _)) by lia.
    destruct (consume_infos _ _ _ _ _ _) as [index last] eqn:E.
    apply consume_infos_spec in E as (Hi & Ht & Hlast); [|done|lia|lia|done].
    rewrite Nat.sub_0_r in Ht.
    destruct (lookup_lt_is_Some_2 (Info r) last) as [i Hlk]; [case_decide; lia|].
    rewrite Hlk. cbn [checked]. rewrite done_bind. eexists i, _, _. split; [done|].
    split_and!; [by eapply list_elem_of_lookup_2|done| |done..].
    split; unfold lenZ; simpl; [by apply Forall_drop|]. rewrite length_drop.
    rewrite <- (take_drop index (Info r)), brought_app in Hlen.
    pose proof (brought_nonneg (take index (Info r)) (Forall_take _ _ _ Hs)). lia.
Qed.

(** A negative or zero count takes nothing off. *)
Lemma consumeRecord_nothing r n :
  n <= 0 -> consumeRecord r n = Done (0, [], n =? lenZ (Stream r), r).
Proof. intros Hn. unfold consumeRecord. by rewrite (proj2 (Z.leb_le n 0)). Qed.

Lemma Append_covered now data info r :
  covered r -> sane info -> lenZ data <= DataLen info -> brought (Info r) + DataLen info < 2 ^ 63 ->
  covered (Append now data info r).
Proof.
  intros [Hs Hl] Hi Hd Hb. unfold covered, lenZ in *. simpl. rewrite length_app, brought_app. simpl.
  split; [by apply Forall_app; split; [|constructor]|lia].
Qed.
End Records.

(** ** Chunks *)

(** A chunk of a chunked body on the wire. *)
Definition chunk (d : list Z) : list Z := FormatUint 16 (lenZ d) ++ CRLF ++ d ++ CRLF.

Lemma Index_chunk_size n t :
  0 <= n -> Index (FormatUint 16 n ++ CRLF ++ t) CRLF = Some (length (FormatUint 16 n)).
Proof. intros Hn. apply (Index_app_sep _ 13 [10] t). apply FormatUint_avoids; lia. Qed.

(** A chunk is read back, whatever follows it. *)
Lemma parseStream_chunk d rest :
  lenZ (chunk d ++ rest) < 2 ^ 62 ->
  HTTP1Parser.parseStream (chunk d ++ rest) = Done (d, lenZ (chunk d), false).
Proof.
  intros Hlen. unfold HTTP1Parser.parseStream, chunk. rewrite <- !app_assoc.
  rewrite Index_chunk_size by (unfold lenZ; lia). rewrite take_app_length.
  unfold chunk, lenZ in Hlen. rewrite !length_app in Hlen. change (length CRLF) with 2%nat in Hlen.
  rewrite ParseUint_FormatUint by (unfold lenZ; lia).
  unfold lenZ, CRLFLen. rewrite !length_app. change (length CRLF) with 2%nat.
  set (sz := FormatUint 16 _) in *. set (k := length sz) in *.
  rewrite (u64_small (Z.of_nat k + 2 + _ + 2)) by lia.
  rewrite (proj2 (Z.ltb_ge _ _)) by lia. rewrite (s64_small (Z.of_nat (length d))), s64_small by lia.
  rewrite slice_some by (rewrite ?length_app; change (length CRLF) with 2%nat; change (length sz) with k; lia).
  cbn [checked]. rewrite done_bind.
  replace (Z.to_nat (Z.of_nat k + 2)) with (k + 2)%nat by lia.
  replace (Z.to_nat (_ - _)) with (length d) by lia.
  rewrite app_assoc, drop_app_length', take_app_length
    by (rewrite length_app; change (length CRLF) with 2%nat; change (length sz) with k; lia).
  rewrite ret_done. repeat f_equal. lia.
Qed.

(** The size of a chunk that makes the sum of its parts wrap around. *)
Lemma parseStream_crash data idx n :
  Index data CRLF = Some idx -> ParseUint 16 (take idx data) = Some n -> lenZ data < 2 ^ 62 ->
  HTTP1Parser.parseStream data = Crash <->
  2 ^ 64 <= Z.of_nat idx + 4 + n <= 2 ^ 64 + lenZ data.
Proof.
  intros Hi Hn Hlen. unfold HTTP1Parser.parseStream. rewrite Hi, Hn. unfold CRLFLen.
  pose proof Hi as ([t Ht] & Hidx & _)%Index_Some.
  assert (length data = (idx + 2 + length t)%nat) as Hl.
  { rewrite Ht, !length_app, length_take. simpl. lia. }
  assert (0 <= n < 2 ^ 64) as Hr.
  { by apply (ParseUint_range 16 (take idx data)). }
  unfold lenZ in *. replace (Z.of_nat idx + 2 + n + 2) with (Z.of_nat idx + 4 + n) by lia.
  destruct (decide (Z.of_nat idx + 4 + n < 2 ^ 64)) as [Hw|Hw].
  - rewrite u64_small by lia. destruct (Z.ltb_spec (Z.of_nat (length data)) (Z.of_nat idx + 4 + n)).
    + split; [done|lia].
    + rewrite (s64_small n), s64_small by lia. rewrite slice_some by lia. split; [done|lia].
  - assert (u64 (Z.of_nat idx + 4 + n) = Z.of_nat idx + 4 + n - 2 ^ 64) as ->.
    { unfold u64. symmetry. apply (Z.mod_unique _ _ 1); lia. }
    destruct (Z.ltb_spec (Z.of_nat (length data)) (Z.of_nat idx + 4 + n - 2 ^ 64)).
    + split; [done|lia].
    + replace (s64 n) with (n - 2 ^ 64).
      2: { unfold s64. pose proof (Z.mod_unique (n + 2 ^ 63) (2 ^ 64) 1 (n + 2 ^ 63 - 2 ^ 64)). lia. }
      rewrite s64_small by lia. rewrite slice_none by lia. split; [lia|done].
Qed.

(** ** Masked headers *)

Section Headers.
Context {N : NetHttp}.

Lemma flatten_lookup (h : header) k :
  flattenMaskedHeader h !! k =
  (fun v => if existsb (Contains k) HeaderAPIKeys
            then str "masked-" ++ hex_EncodeToString (mac (join_with 44 v)) else join_with 44 v) <$> h !! k.
Proof. unfold flattenMaskedHeader. rewrite map_lookup_imap. by destruct (h !! k). Qed.

Lemma header_add_lookup (key value : list Z) (h : header) :
  Header_Add key value h !! CanonicalMIMEHeaderKey key =
  Some (default [] (h !! CanonicalMIMEHeaderKey key) ++ [value]).
Proof. unfold Header_Add. by rewrite lookup_insert_eq. Qed.

(** The other five names of the list are spelled as headers are. *)
Lemma credential_names_canonical :
  (fun name => bool_decide (CanonicalMIMEHeaderKey name = name)) <$> HeaderAPIKeys =
  [true; false; true; true; true; true].
Proof. vm_compute. reflexivity. Qed.

(** Masking.  A header whose name has one of the listed names in it is
    exported as the digest of its joined values, every other header as its
    joined values, and no header is lost or added.  The listed names are found
    whatever the case the peer used, [X-API-Key] excepted: headers are stored
    under their canonical name, which is [X-Api-Key], so the value of an API key
    is exported in clear. *)
Theorem credentials_masked (h : header) :
  (forall k, is_Some (flattenMaskedHeader h !! k) <-> is_Some (h !! k)) /\
  (forall k v, h !! k = Some v ->
     flattenMaskedHeader h !! k = Some
       (if existsb (Contains k) HeaderAPIKeys
        then str "masked-" ++ hex_EncodeToString (mac (join_with 44 v)) else join_with 44 v)) /\
  (forall name value : list Z, ToLower name ∈ ToLower <$> HeaderAPIKeys ->
     ToLower name <> str "x-api-key" -> h !! CanonicalMIMEHeaderKey name = None ->
     flattenMaskedHeader (Header_Add name value h) !! CanonicalMIMEHeaderKey name =
     Some (str "masked-" ++ hex_EncodeToString (mac value))) /\
  (forall name value : list Z, ToLower name = str "x-api-key" -> h !! CanonicalMIMEHeaderKey name = None ->
     flattenMaskedHeader (Header_Add name value h) !! CanonicalMIMEHeaderKey name = Some value).
Proof.
  assert (forall name value : list Z, h !! CanonicalMIMEHeaderKey name = None ->
    flattenMaskedHeader (Header_Add name value h) !! CanonicalMIMEHeaderKey name =
    Some (if existsb (Contains (CanonicalMIMEHeaderKey name)) HeaderAPIKeys
          then str "masked-" ++ hex_EncodeToString (mac value) else value)) as Hadd.
  { intros name value Hn. by rewrite flatten_lookup, header_add_lookup, Hn. }
  split_and!.
  - intros k. rewrite flatten_lookup, fmap_is_Some. done.
  - intros k v Hk. by rewrite flatten_lookup, Hk.
  - intros name value Hin Hne Hn. rewrite Hadd by done. f_equal.
    replace (existsb _ _) with true; [done|]. symmetry.
    revert Hin. cbn [HeaderAPIKeys fmap list_fmap]. rewrite !elem_of_cons.
    intros [E|[E|[E|[E|[E|[E|[]%elem_of_nil]]]]]]; [|by rewrite E in Hne|..];
      rewrite (Canonical_ToLower name _ E) by reflexivity; vm_compute; reflexivity.
  - intros name value Hlow Hn. rewrite Hadd by done.
    rewrite (Canonical_ToLower name _ Hlow) by reflexivity. f_equal.
Qed.
End Headers.

(** ** Content encodings *)

(** The encoders whose output the decompressors read back. *)
Class CodecOk (C : Codec) := {
  gzip : list Z -> list Z;
  zstd : list Z -> list Z;
  flate : list Z -> list Z;
  gzip_ok d : gzip_NewReader (Body (gzip d) false) = Some (Body d false);
  zstd_ok d : zstd_NewReader (Body (zstd d) false) = Some (Body d false);
  flate_ok d : flate_NewReader (Body (flate d) false) = Body d false;
}.

Section Encodings.
Context {C : Codec} `{!CodecOk C}.

(** The encodings the collector knows, with their names. *)
Inductive coding := GZip | Deflate | Zstd.

Definition coding_name (c : coding) : list Z :=
  match c with
  | GZip => Compress.EncodingGZip
  | Deflate => Compress.EncodingDeflate
  | Zstd => Compress.EncodingZstd
  end.

Definition encode (c : coding) : list Z -> list Z :=
  match c with GZip => gzip | Deflate => flate | Zstd => zstd end.

(** A sender applies the encodings in the order it lists them. *)
Definition encode_all (cs : list coding) (d : list Z) : list Z := foldl (fun d c => encode c d) d cs.

Lemma decode_layer c cs d :
  Compress.decode_layers (coding_name c :: cs) (Body (encode c d) false) =
  Compress.decode_layers cs (Body d false).
Proof.
  destruct c; cbn [Compress.decode_layers coding_name encode].
  - rewrite decide_True by done. by rewrite gzip_ok.
  - rewrite decide_False, decide_True by done. by rewrite flate_ok.
  - rewrite !decide_False, decide_True by done. by rewrite zstd_ok.
Qed.

Lemma decode_all cs d :
  Compress.decode_layers (reverse (coding_name <$> cs)) (Body (encode_all cs d) false) = Some d.
Proof.
  revert d. induction cs as [|c cs IH] using rev_ind; intros d; [done|].
  rewrite fmap_app. simpl. rewrite reverse_snoc. unfold encode_all. rewrite foldl_snoc.
  rewrite decode_layer. apply IH.
Qed.

(** Content encodings are undone.  A body to which any stack of gzip, deflate
    and zstd was applied, and whose [Content-Encoding] lists their names in that
    order, in any case and with blanks around them, decodes to what was encoded. *)
Theorem content_encodings_undone cs parts d :
  parts <> [] -> Forall (fun p => 44 ∉ p) parts ->
  (fun p => TrimSpace (ToLower p)) <$> parts = coding_name <$> cs ->
  Compress.readDecodeBytes (Body (encode_all cs d) false) (join_with 44 parts) = Some d.
Proof.
  intros Hne Hsep Hnames. unfold Compress.readDecodeBytes, Compress.parseEncodings.
  rewrite split_join, Hnames by done.
  replace (List.filter _ _) with (coding_name <$> cs); [apply decode_all|].
  clear. induction cs as [|c cs IH]; [done|]. simpl. rewrite bool_decide_eq_true_2 by (by destruct c).
  by f_equal.
Qed.
End Encodings.

(** ** HTTP/2 streams *)

Module Streams.
Import HTTP2Parser.
Section Streams.
Context {L : Http2Lib}.
Implicit Types st : HTTP2State.

(** What a frame means for its stream once the header blocks are decoded. *)
Inductive stream_event :=
  | EHeaders (hs : option (list HeaderField)) (ended : bool)
  | EData (data : list Z) (ended : bool)
  | EReset.

(** The effect of an event on a stream, and the message it completes. *)
Definition completed (sid : Z) (s : HTTP2StreamState) : option HTTP2ParsedMessage * option HTTP2StreamState :=
  if HeadersReady s && Ended s then
    (Some {| m_StreamID := sid; m_Headers := Headers s; m_Body := Body_ s; m_Canceled := false |}, None)
  else (None, Some s).

Definition ending (ended : bool) (s : HTTP2StreamState) : HTTP2StreamState :=
  if ended then end_stream s else s.

Definition feed (sid : Z) (e : stream_event) (o : option HTTP2StreamState)
    : option HTTP2ParsedMessage * option HTTP2StreamState :=
  let s := default new_stream o in
  match e with
  | EHeaders hs ended => completed sid (ending ended (match hs with Some hs => add_headers hs s | None => s end))
  | EData data ended => completed sid (ending ended (write_body data s))
  | EReset => (Some {| m_StreamID := sid; m_Headers := []; m_Body := []; m_Canceled := true |}, None)
  end.

Fixpoint feed_all (sid : Z) (es : list stream_event) (o : option HTTP2StreamState) : list HTTP2ParsedMessage :=
  match es with
  | [] => []
  | e :: es => let '(m, o) := feed sid e o in option_list m ++ feed_all sid es o
  end.

(** Header blocks: the open block, and the decoder, which all streams share.
    The event of a frame is [None] for frames of no stream; the outer [None] is
    an error of the protocol or of the decoder. *)
Record block := Block { b_open : Z; b_buf : list Z; b_dec : decoder }.

Definition block_of st : block := Block (HeaderStreamID st) (HeaderBlockBuf st) (Decoder st).

Definition fragment_event (sid : Z) (frag : list Z) (headersEnded ended : bool) (b : block)
    : option (option (Z * stream_event) * block) :=
  if headersEnded then
    match DecodeFull (b_dec b) (b_buf b ++ frag) with
    | (None, _) => None
    | (Some hs, d) => Some (Some (sid, EHeaders (Some hs) ended), Block 0 [] d)
    end
  else Some (Some (sid, EHeaders None ended), Block (b_open b) (b_buf b ++ frag) (b_dec b)).

Definition frame_event (f : frame) (b : block) : option (option (Z * stream_event) * block) :=
  match f with
  | HeadersFrame sid _ frag headersEnded streamEnded =>
      if negb (b_open b =? 0) && negb (b_open b =? sid) then None
      else fragment_event sid frag headersEnded streamEnded (if b_open b =? 0 then Block sid [] (b_dec b) else b)
  | ContinuationFrame sid _ frag headersEnded =>
      if (b_open b =? 0) || negb (b_open b =? sid) then None
      else fragment_event sid frag headersEnded false b
  | DataFrame sid _ data streamEnded => Some (Some (sid, EData data streamEnded), b)
  | RSTStreamFrame sid _ => Some (Some (sid, EReset), if b_open b =? sid then Block 0 [] (b_dec b) else b)
  | GoAwayFrame _ _ | OtherFrame _ _ => Some (None, b)
  end.

Fixpoint frame_events (fs : list frame) (b : block) : option (list (Z * stream_event)) :=
  match fs with
  | [] => Some []
  | f :: fs => '(e, b) ← frame_event f b; es ← frame_events fs b; Some (option_list e ++ es)
  end.

(** All the messages of a list of frames; [None] is an error. *)
Fixpoint run_frames (fs : list frame) st : option (list HTTP2ParsedMessage * HTTP2State) :=
  match fs with
  | [] => Some ([], st)
  | f :: fs =>
      match parse_frame f st with
      | (FrameError, _) => None
      | (FrameMessage m, st) => '(ms, st) ← run_frames fs st; Some (m :: ms, st)
      | (FrameNext, st) => run_frames fs st
      end
  end.

Definition of_stream {A} (sid : Z) (es : list (Z * A)) : list A :=
  omap (fun e : Z * A => if e.1 =? sid then Some e.2 else None) es.

Definition messages_of (sid : Z) (ms : list HTTP2ParsedMessage) : list HTTP2ParsedMessage :=
  List.filter (fun m => m_StreamID m =? sid) ms.

(** How a frame refines its event. *)
Definition refines (e : option (Z * stream_event)) st (res : frame_result) st' : Prop :=
  match e with
  | None => res = FrameNext /\ Streams st' = Streams st
  | Some (sid, e) =>
      (forall sid', Streams st' !! sid' =
         if decide (sid' = sid) then (feed sid e (Streams st !! sid)).2 else Streams st !! sid') /\
      match (feed sid e (Streams st !! sid)).1 with
      | Some m => res = FrameMessage m /\ m_StreamID m = sid
      | None => res = FrameNext
      end
  end.

Lemma complete_refines sid s st0 st :
  Streams st = <[sid := s]> (Streams st0) ->
  forall res st', complete sid st = (res, st') ->
  block_of st' = block_of st /\
  (forall sid', Streams st' !! sid' =
     if decide (sid' = sid) then (completed sid s).2 else Streams st0 !! sid') /\
  match (completed sid s).1 with
  | Some m => res = FrameMessage m /\ m_StreamID m = sid
  | None => res = FrameNext
  end.
Proof.
  intros Hst res st'. unfold complete, tryCompleteStream, completed.
  rewrite Hst, lookup_insert_eq. destruct (HeadersReady s && Ended s); intros [= <- <-]; cbn [Streams set_streams];
    split_and!; try done; intros sid'; case_decide; subst; rewrite ?Hst.
  - by rewrite lookup_delete_eq.
  - by rewrite lookup_delete_ne, lookup_insert_ne.
  - by rewrite lookup_insert_eq.
  - by rewrite lookup_insert_ne.
Qed.

Lemma on_stream_insert sid f st ss s :
  Streams st = <[sid := s]> ss -> Streams (on_stream sid f st) = <[sid := f s]> ss.
Proof. intros H. simpl. by rewrite H, lookup_insert_eq, insert_insert_eq. Qed.

(** The shared part of HEADERS and CONTINUATION. *)
Lemma header_block_refines sid frag headersEnded streamEnded st st0 e b :
  Streams st = Streams st0 ->
  fragment_event sid frag headersEnded streamEnded (block_of st) = Some (e, b) ->
  exists st', header_block sid frag headersEnded st = (false, st') /\
  forall res st'', complete sid (if streamEnded then on_stream sid end_stream st' else st') = (res, st'') ->
  block_of st'' = b /\ refines e st0 res st''.
Proof.
  intros Hss. unfold fragment_event, header_block. cbn [block_of b_dec b_buf b_open].
  set (s := default new_stream (Streams st0 !! sid)).
  assert (Streams (ensureStream sid st) = <[sid := s]> (Streams st0)) as Hs.
  { unfold ensureStream, on_stream. cbn [Streams set_streams]. by rewrite Hss. }
  cbn [HeaderBlockBuf HeaderStreamID Decoder set_block ensureStream on_stream set_streams].
  assert (forall st1 hs b1, Streams st1 = <[sid := match hs with Some hs => add_headers hs s | None => s end]> (Streams st0) ->
    block_of st1 = b1 ->
    forall res st'', complete sid (if streamEnded then on_stream sid end_stream st1 else st1) = (res, st'') ->
    block_of st'' = b1 /\ refines (Some (sid, EHeaders hs streamEnded)) st0 res st'') as Hfin.
  { intros st1 hs b1 H1 Hb1 res st'' Hc. eapply (complete_refines _
      (ending streamEnded (match hs with Some hs => add_headers hs s | None => s end)) st0) in Hc as (Hb & Hc).
    - split; [rewrite Hb; by destruct streamEnded|exact Hc].
    - destruct streamEnded; [by apply on_stream_insert|done]. }
  destruct headersEnded.
  - destruct (DecodeFull _ _) as [[hs|] d]; [|done]. intros [= <- <-]. eexists. split; [done|].
    apply Hfin; [|done]. cbn [Streams set_block]. by apply on_stream_insert.
  - intros [= <- <-]. eexists. split; [done|]. by apply Hfin.
Qed.

Lemma parse_frame_refines f st e b res st' :
  frame_event f (block_of st) = Some (e, b) -> parse_frame f st = (res, st') ->
  block_of st' = b /\ refines e st res st'.
Proof.
  destruct f as [sid n frag he se|sid n frag he|sid n data se|sid n|sid n|sid n];
    cbn [frame_event parse_frame]; cbn [b_open block_of].
  - destruct (_ && _); [done|]. intros He.
    edestruct (header_block_refines sid frag he se (if HeaderStreamID st =? 0 then set_block sid [] st else st) st)
      as (st1 & -> & Hc); [by destruct (_ =? 0)|by destruct (_ =? 0); exact He|apply Hc].
  - destruct (_ || _); [done|]. intros He.
    edestruct (header_block_refines sid frag he false st st) as (st1 & -> & Hc); [done|exact He|apply Hc].
  - intros [= <- <-] Hc. apply (complete_refines _ (ending se (write_body data (default new_stream (Streams st !! sid)))) st) in Hc
      as (Hb & Hc); [split; [rewrite Hb; by destruct se|exact Hc]|].
    destruct se; [by apply on_stream_insert|done].
  - intros [= <- <-] [= <- <-]. split; [by destruct (_ =? sid)|]. cbn [refines feed fst snd]. split; [|done].
    intros sid'. trans (delete sid (Streams st) !! sid'); [by destruct (_ =? sid)|].
    case_decide; subst; [by rewrite lookup_delete_eq|by rewrite lookup_delete_ne].
  - by intros [= <- <-] [= <- <-].
  - by intros [= <- <-] [= <- <-].
Qed.

Lemma parse_frame_error f st :
  frame_event f (block_of st) = None -> (parse_frame f st).1 = FrameError.
Proof.
  destruct f as [sid n frag he se|sid n frag he|sid n data se|sid n|sid n|sid n];
    cbn [frame_event parse_frame]; cbn [b_open block_of]; try done.
  - destruct (_ && _); [done|]. unfold fragment_event, header_block.
    destruct he; [|by destruct (_ =? 0)].
    destruct (HeaderStreamID st =? 0); cbn; destruct (DecodeFull _ _) as [[hs|] d]; done.
  - destruct (_ || _); [done|]. unfold fragment_event, header_block.
    destruct he; [|done]. cbn. destruct (DecodeFull _ _) as [[hs|] d]; done.
Qed.

Lemma refines_not_error e st res st' : refines e st res st' -> res <> FrameError.
Proof.
  destruct e as [[sid e]|]; cbn [refines]; [|by intros [-> _]].
  intros [_ H]. destruct (feed _ _ _).1; [destruct H as [-> _]|rewrite H]; done.
Qed.

Lemma messages_of_cons sid m ms :
  messages_of sid (m :: ms) = (if m_StreamID m =? sid then [m] else []) ++ messages_of sid ms.
Proof. unfold messages_of. simpl. by destruct (_ =? sid). Qed.

Lemma of_stream_cons {A} sid sid1 (e : A) es :
  of_stream sid ((sid1, e) :: es) = if sid1 =? sid then e :: of_stream sid es else of_stream sid es.
Proof. unfold of_stream. simpl. by destruct (_ =? sid). Qed.

(** Streams do not interfere: what is delivered for a stream is what its own
    events come to. *)
Lemma streams_independent fs : forall st ms st' sid,
  run_frames fs st = Some (ms, st') ->
  exists es, frame_events fs (block_of st) = Some es /\
    messages_of sid ms = feed_all sid (of_stream sid es) (Streams st !! sid).
Proof.
  induction fs as [|f fs IH]; intros st ms st' sid.
  { intros [= <- <-]. by exists []. }
  cbn [run_frames frame_events]. destruct (parse_frame f st) as [res st1] eqn:E.
  destruct (frame_event f (block_of st)) as [[e b]|] eqn:Ee.
  2: { apply parse_frame_error in Ee. rewrite E in Ee. cbn in Ee. by subst. }
  destruct (parse_frame_refines f st e b res st1 Ee E) as [Hb Hr].
  pose proof (refines_not_error _ _ _ _ Hr) as Hne. intros Hrun.
  assert (exists ms1, run_frames fs st1 = Some (ms1, st') /\
    ms = match res with FrameMessage m => m :: ms1 | _ => ms1 end) as (ms1 & Hrun1 & ->).
  { destruct res as [|m|]; [done| |eauto].
    destruct (run_frames fs st1) as [[ms1 st2]|]; [|done]. simpl in Hrun. simplify_eq. eauto. }
  destruct (IH _ _ _ sid Hrun1) as (es & Hes & Hm). rewrite Hb in Hes.
  exists (option_list e ++ es). split; [cbn [mbind option_bind]; by rewrite Hes|].
  destruct e as [[sid1 e]|]; cbn [refines] in Hr.
  2: { destruct Hr as [-> Hs]. simpl. by rewrite Hm, Hs. }
  destruct Hr as [Hs Hf]. change (option_list _ ++ es) with ((sid1, e) :: es). rewrite of_stream_cons.
  specialize (Hs sid). destruct (Z.eqb_spec sid1 sid) as [->|Hsid].
  - rewrite decide_True in Hs by done. cbn [feed_all].
    destruct (feed sid e (Streams st !! sid)) as [[m|] o]; cbn [fst snd] in *; rewrite Hs in Hm.
    + destruct Hf as [-> Hm1]. rewrite messages_of_cons, Hm1, Z.eqb_refl. by rewrite Hm.
    + rewrite Hf. by rewrite Hm.
  - rewrite decide_False in Hs by done. rewrite Hs in Hm. rewrite <- Hm.
    destruct (feed sid1 e _).1 as [m|]; [|by rewrite Hf]. destruct Hf as [-> Hm1].
    rewrite messages_of_cons, Hm1, (proj2 (Z.eqb_neq _ _)) by done. done.
Qed.

Lemma feed_body sid hs ds d b :
  feed_all sid (((fun d => EData d false) <$> ds) ++ [EData d true])
    (Some {| HeadersReady := true; Ended := false; Headers := hs; Body_ := b |}) =
  [{| m_StreamID := sid; m_Headers := hs; m_Body := b ++ concat ds ++ d; m_Canceled := false |}].
Proof.
  revert b. induction ds as [|x ds IH]; intros b; [done|].
  trans (feed_all sid (((fun d => EData d false) <$> ds) ++ [EData d true])
    (Some {| HeadersReady := true; Ended := false; Headers := hs; Body_ := b ++ x |})); [done|].
  rewrite IH. simpl. by rewrite !app_assoc.
Qed.

(** The frames a framer reads from its input. *)
Inductive yields : framer -> list frame -> Prop :=
  | yields_end fr e : ReadFrame fr = inl e -> e <> OtherError -> yields fr []
  | yields_frame fr f fr' fs : ReadFrame fr = inr (f, fr') -> yields fr' fs -> yields fr (f :: fs).

Definition frame_bytes (fs : list frame) : Z :=
  foldr (fun f n => frame_Length f + HTTP2FrameHeaderLen + n) 0 fs.

(** One call takes the frames up to the first message, or all of them. *)
Lemma parse_frames_segment fr fs : yields fr fs -> forall fuel consumed st ms st',
  run_frames fs st = Some (ms, st') -> (length fs < fuel)%nat ->
  exists used rest st1, fs = used ++ rest /\
  parse_frames fuel fr consumed st = Done (Parsed (head ms) (consumed + frame_bytes used) false, st1) /\
  run_frames used st = Some (option_list (head ms), st1) /\ run_frames rest st1 = Some (tail ms, st').
Proof.
  induction 1 as [fr e He Hne|fr f fr' fs Hr Hy IH]; intros fuel consumed st ms st' Hrun Hfuel;
    (destruct fuel as [|fuel]; [lia|]); cbn [parse_frames].
  { injection Hrun as <- <-. exists [], [], st. split_and!; try done. rewrite He, Z.add_0_r. by destruct e. }
  rewrite Hr. cbn [run_frames] in *. destruct (parse_frame f st) as [res st1] eqn:E. destruct res as [|m|]; [done| |].
  - destruct (run_frames fs st1) as [[ms1 st2]|] eqn:E1; [|done]. simpl in Hrun. injection Hrun as <- <-.
    exists [f], fs, st1. cbn [run_frames frame_bytes foldr head tail option_list app].
    rewrite E, Z.add_0_r. split_and!; done.
  - cbn [length] in Hfuel.
    destruct (IH fuel (consumed + (frame_Length f + HTTP2FrameHeaderLen)) st1 ms st' Hrun ltac:(lia))
      as (used & rest & st2 & -> & Hp & H1 & H2).
    exists (f :: used), rest, st2. cbn [run_frames]. rewrite E. split_and!; try done.
    rewrite Hp. change (frame_bytes (f :: used)) with (frame_Length f + HTTP2FrameHeaderLen + frame_bytes used).
    by rewrite <- Z.add_assoc.
Qed.

(** C18. HTTP/2 messages are reassembled.  In any sequence of frames of a
    connection that decodes, interleaved with whatever frames of other streams, a
    stream that brings its headers and then its body in any number of parts is
    delivered exactly once, with those headers and the parts joined. *)
Theorem http2_message_reassembled fs st ms st' sid es hs ds d :
  run_frames fs st = Some (ms, st') -> Streams st !! sid = None ->
  frame_events fs (block_of st) = Some es ->
  of_stream sid es = EHeaders (Some hs) false :: ((fun d => EData d false) <$> ds) ++ [EData d true] ->
  messages_of sid ms =
  [{| m_StreamID := sid; m_Headers := hs; m_Body := concat ds ++ d; m_Canceled := false |}].
Proof.
  intros Hrun Hnew Hes Hsid. destruct (streams_independent fs st ms st' sid Hrun) as (es' & Hes' & ->).
  rewrite Hes in Hes'. injection Hes' as <-. rewrite Hsid, Hnew.
  apply (feed_body sid hs ds d []).
Qed.
End Streams.
End Streams.

(** ** Progress *)

Section Progress.
Context {N : NetHttp} {L : Http2Lib} `{!Http2LibOk L}.
Implicit Types r : SSLRecord.

(** A parser only looks at the stream. *)
Definition same_stream r r' : Prop := Stream r' = Stream r /\ Info r' = Info r.

Lemma covered_same r r' : same_stream r r' -> covered r -> covered r'.
Proof. intros [H1 H2]. unfold covered. by rewrite H1, H2. Qed.

(** It returns, and takes no less than nothing. *)
Definition returns {A} (f : outcome (parsed A * SSLRecord)) r : Prop :=
  exists p r', f = Done (p, r') /\ 0 <= p_consumed p /\ same_stream r r'.

Lemma parse_frames_done fuel : forall fr consumed st,
  (length (input fr) < fuel)%nat -> 0 <= consumed ->
  exists p st', HTTP2Parser.parse_frames fuel fr consumed st = Done (p, st') /\
    consumed <= p_consumed p <= consumed + lenZ (input fr).
Proof.
  induction fuel as [|fuel IH]; intros fr consumed st Hf Hc; [lia|]. cbn [HTTP2Parser.parse_frames].
  unfold lenZ in *. destruct (ReadFrame fr) as [[]|[f fr']] eqn:E;
    [eexists _, _; split; [done|simpl; lia]..|].
  apply read_frame_input in E as [Hn Hl]. unfold HTTP2FrameHeaderLen in *.
  destruct (HTTP2Parser.parse_frame f st) as [[] st'];
    [eexists _, _; split; [done|simpl; lia]..|].
  destruct (IH fr' (consumed + (frame_Length f + 9)) st') as (p & st1 & -> & Hp); [lia|lia|].
  eexists _, _. split; [done|lia].
Qed.

(** Every call of the HTTP/2 parser returns, and takes what is in the stream. *)
Lemma http2_parse_done r :
  exists p r', HTTP2Parser.parse r = Done (p, r') /\ 0 <= p_consumed p <= lenZ (Stream r) /\ same_stream r r'.
Proof.
  unfold HTTP2Parser.parse. cbv zeta.
  set (st := HTTP2Parser.ensureHTTP2State r). set (pre := negb _ && _).
  set (consumed := if pre then HTTP2PrefaceLen else 0).
  assert (0 <= consumed <= lenZ (Stream r)) as Hc.
  { subst consumed pre. destruct (negb _ && _) eqn:E; [|unfold lenZ; lia].
    apply andb_true_iff in E as [_ [t ->]%HasPrefix_true].
    unfold lenZ, HTTP2PrefaceLen. rewrite length_app. lia. }
  destruct (parse_frames_done (S (length (drop (Z.to_nat consumed) (Stream r))))
    (NewFramer (drop (Z.to_nat consumed) (Stream r))) consumed (if pre then HTTP2Parser.set_preface st else st))
    as (p & st' & Hp & Hb); [rewrite input_new; lia|lia|].
  rewrite Hp. cbn [mbind outcome_bind]. rewrite input_new in Hb. unfold lenZ in *. rewrite length_drop in Hb.
  eexists _, _. split_and!; [done|lia|lia|done].
Qed.

Lemma http2_request_returns r : returns (HTTP2Parser.ParseRequest r) r.
Proof.
  destruct (http2_parse_done r) as (p & r' & Hp & Hb & Hs). unfold HTTP2Parser.ParseRequest. rewrite Hp.
  cbn [mbind outcome_bind]. destruct (p_message p) as [m|]; [destruct (HTTP2Parser.m_Canceled m)|];
    (eexists _, _; split_and!; [done|simpl; lia|done]).
Qed.

Lemma http2_response_returns r : returns (HTTP2Parser.ParseResponse r) r.
Proof.
  destruct (http2_parse_done r) as (p & r' & Hp & Hb & Hs). unfold HTTP2Parser.ParseResponse. rewrite Hp.
  cbn [mbind outcome_bind]. destruct (p_message p) as [m|]; [destruct (HTTP2Parser.m_Canceled m)|].
  2: destruct (HTTP2Parser.response_fields _ _ _) as [[code hdrs]|].
  all: eexists _, _; split_and!; [done|simpl; lia|done].
Qed.

(** The next statement of a stream shorter than 2 GiB. *)
Lemma statement_done r :
  lenZ (Stream r) < 2 ^ 31 ->
  exists body tag n r', PostgresParser.parsePostgresStatement r = Done (body, tag, n, r') /\
    0 <= n <= lenZ (Stream r) /\ same_stream r r'.
Proof.
  intros Hl. unfold PostgresParser.parsePostgresStatement, lenZ in *.
  destruct (Z.ltb_spec (Z.of_nat (length (Stream r))) 5); [eexists _, _, _, _; split_and!; try done; lia|].
  set (n := PostgresParser.be32 _ _).
  destruct (Z.ltb_spec n 4); [eexists _, _, _, _; split_and!; try done; lia|].
  rewrite (u32_small (_ - 1)) by lia. cbn [orb].
  destruct (Z.ltb_spec (Z.of_nat (length (Stream r)) - 1) n); [eexists _, _, _, _; split_and!; try done; lia|].
  rewrite u32_small, slice_some by lia. eexists _, _, _, _. split_and!; try done; lia.
Qed.

Lemma postgres_request_returns r : lenZ (Stream r) < 2 ^ 31 -> returns (PostgresParser.ParseRequest r) r.
Proof.
  intros Hl. destruct (statement_done r Hl) as (body & tag & n & r' & Hp & Hn & Hs).
  unfold PostgresParser.ParseRequest. rewrite Hp. eexists _, _. split_and!; [done|simpl; lia|done].
Qed.

Lemma postgres_response_returns r : lenZ (Stream r) < 2 ^ 31 -> returns (PostgresParser.ParseResponse r) r.
Proof.
  intros Hl. destruct (statement_done r Hl) as (body & tag & n & r' & Hp & Hn & Hs).
  unfold PostgresParser.ParseResponse. rewrite Hp. eexists _, _. split_and!; [done|simpl; lia|done].
Qed.

(** A peer that announces less than 2^62 bytes of body, or does not say. *)
Definition announced (n : Z) : Prop := -1 <= n < 2 ^ 62.

Lemma Index_bound s p i : Index s p = Some i -> 0 <= Z.of_nat i <= lenZ s.
Proof. intros (_ & Hi & _)%Index_Some. unfold lenZ. lia. Qed.

Lemma http1_request_returns r :
  lenZ (Stream r) < 2 ^ 31 ->
  (forall req, ReadRequest (Stream r) = inr req -> announced (rq_ContentLength req)) ->
  returns (mret (HTTP1Parser.ParseRequest r)) r.
Proof.
  intros Hl Hreq. unfold HTTP1Parser.ParseRequest.
  assert (0 <= lenZ (Stream r)) by (unfold lenZ; lia).
  destruct (ReadRequest (Stream r)) as [e|req].
  - destruct e, (Index (Stream r) HTTP1Delimiter); eexists _, _; split_and!; try done; simpl;
      unfold HTTP1DelimiterLen; lia.
  - specialize (Hreq req eq_refl). unfold announced in Hreq.
    destruct (Index (Stream r) HTTP1Delimiter) as [i|] eqn:Ei; [|eexists _, _; split_and!; done].
    apply Index_bound in Ei. unfold HTTP1DelimiterLen, SSLMaxDataSize, SSLMaxEventSize.
    rewrite s64_small by lia. destruct (_ && _); [destruct (_ && _)|];
      eexists _, _; split_and!; try done; simpl; lia.
Qed.

Lemma http1_fresh_returns r :
  lenZ (Stream r) < 2 ^ 31 ->
  (forall resp, ReadResponse (Stream r) = inr resp -> announced (rs_ContentLength resp)) ->
  returns (mret (HTTP1Parser.parse_fresh r)) r.
Proof.
  intros Hl Hresp. unfold HTTP1Parser.parse_fresh.
  assert (0 <= lenZ (Stream r)) by (unfold lenZ; lia).
  destruct (ReadResponse (Stream r)) as [e|resp].
  - destruct e, (Index (Stream r) HTTP1Delimiter); eexists _, _; split_and!; try done; simpl;
      unfold HTTP1DelimiterLen; lia.
  - specialize (Hresp resp eq_refl). unfold announced in Hresp.
    destruct (Index (Stream r) HTTP1Delimiter) as [i|] eqn:Ei; [|eexists _, _; split_and!; done].
    apply Index_bound in Ei. unfold HTTP1DelimiterLen.
    destruct (HTTP1Parser.isChunkedEncoding resp); [eexists _, _; split_and!; try done; simpl; lia|].
    rewrite s64_small by lia. destruct (_ <? _); eexists _, _; split_and!; try done; simpl; lia.
Qed.

Lemma parse_chunk_returns resp r :
  lenZ (Stream r) < 2 ^ 31 -> HTTP1Parser.parseStream (Stream r) <> Crash ->
  returns (HTTP1Parser.parse_chunk resp r) r.
Proof.
  intros Hl. unfold HTTP1Parser.parse_chunk, HTTP1Parser.parseStream.
  destruct (Index (Stream r) CRLF) as [i|]; [|intros _; by eexists _, _].
  destruct (ParseUint 16 _) as [n|]; [|intros _; by eexists _, _].
  set (consumed := u64 _). pose proof (u64_range (Z.of_nat i + CRLFLen + n + CRLFLen)) as Hc. fold consumed in Hc.
  destruct (Z.ltb_spec (lenZ (Stream r)) consumed); [intros _; by eexists _, _|].
  destruct (slice _ _ _); [|done]. intros _. cbn.
  destruct (Z.eqb_spec consumed 0); [by eexists _, _|].
  rewrite s64_small by lia. destruct (consumed =? _); eexists _, _; split_and!; try done; simpl; lia.
Qed.
End Progress.
