(* ===== verification/SslStore.v ===== *)
(** The store of TLS plaintext: [tls/protocol.go], and the event loop of
    [tls/probe.go].

    The events of the probes are collected per connection and direction; once a
    second every connection's protocol is detected and one message of it is
    parsed, sent to the exporter and taken off.  A request and its response share
    a session key, kept in a cache and indexed by connection.

    The cache of package [otter] is the class [Cache] with its laws [CacheOk];
    [RefCache] implements it.  [generateSessionKey] is a sequence of keys.  The
    Go map iterations are lists of keys in an arbitrary order.  A method runs
    with the lock of its map held, so methods are the steps that interleave. *)

From S2P Require Import Prelude Layout GoStd Wire Collector Protocol.

(** ** Caches *)

(** A cache whose entries expire [ttl] after they were last set or read; every
    operation is given the time. *)
Class Cache (K V : Type) (ttl : V -> Z) := {
  cache : Type;
  no_entries : cache;
  GetIfPresent : Z -> K -> cache -> option V * cache;
  Set_ : Z -> K -> V -> cache -> cache;
  Invalidate : K -> cache -> cache;
}.
Arguments cache {K V ttl} _.

(** What the cache holds for a key at a time. *)
Class CacheOk {K V ttl} (M : Cache K V ttl) := {
  view : cache M -> Z -> K -> option V;
  view_empty t k : view no_entries t k = None;
  view_later c t t' k v : t <= t' -> view c t' k = Some v -> view c t k = Some v;
  get_result t k c : (GetIfPresent t k c).1 = view c t k;
  get_self t t' k c v : view c t k = Some v -> t <= t' < t + ttl v -> view (GetIfPresent t k c).2 t' k = Some v;
  get_only t t' k c v : t <= t' -> view (GetIfPresent t k c).2 t' k = Some v -> view c t k = Some v;
  get_other t t' k k' c : k <> k' -> view (GetIfPresent t k c).2 t' k' = view c t' k';
  set_self t t' k v c : t <= t' < t + ttl v -> view (Set_ t k v c) t' k = Some v;
  set_only t t' k v w c : t <= t' -> view (Set_ t k v c) t' k = Some w -> w = v;
  set_other t t' k k' v c : k <> k' -> view (Set_ t k v c) t' k' = view c t' k';
  invalidate_self t k c : view (Invalidate k c) t k = None;
  invalidate_other t k k' c : k <> k' -> view (Invalidate k c) t k' = view c t k';
}.

(** A map from keys to values and the time they expire. *)
Module RefCache.
Section RefCache.
Context {K V : Type} `{Countable K} (ttl : V -> Z).

Definition lookup_at (c : gmap K (V * Z)) (t : Z) (k : K) : option V :=
  '(v, expiry) ← c !! k; if t <? expiry then Some v else None.

#[export] Instance ref_cache : Cache K V ttl := {
  cache := gmap K (V * Z);
  no_entries := ∅;
  GetIfPresent t k c :=
    match lookup_at c t k with
    | Some v => (Some v, <[k := (v, t + ttl v)]> c)
    | None => (None, delete k c)
    end;
  Set_ t k v c := <[k := (v, t + ttl v)]> c;
  Invalidate k c := delete k c;
}.

#[export] Instance ref_cache_ok : CacheOk ref_cache.
Proof.
  refine {| view := lookup_at : cache ref_cache -> _ |}; simpl; unfold lookup_at.
  - intros. by rewrite lookup_empty.
  - intros c t t' k v Ht. destruct (c !! k) as [[w x]|]; simpl; [|done].
    destruct (Z.ltb_spec t' x), (Z.ltb_spec t x); try done. lia.
  - intros t k c. by destruct (c !! k) as [[w x]|]; simpl; [destruct (_ <? _)|].
  - intros t t' k c v Hv Ht. rewrite Hv. cbn [snd]. rewrite lookup_insert_eq. simpl.
    by rewrite (proj2 (Z.ltb_lt _ _)) by lia.
  - intros t t' k c v Ht Hv. destruct (c !! k) as [[w x]|] eqn:E; simpl in *.
    + destruct (t <? x) eqn:F; cbn [snd] in Hv.
      * rewrite lookup_insert_eq in Hv. simpl in Hv. by destruct (t' <? _).
      * by rewrite lookup_delete_eq in Hv.
    + by rewrite lookup_delete_eq in Hv.
  - intros t t' k k' c Hk. destruct (c !! k) as [[w x]|]; simpl; [destruct (t <? x)|]; cbn [snd].
    + by rewrite lookup_insert_ne.
    + by rewrite lookup_delete_ne.
    + by rewrite lookup_delete_ne.
  - intros t t' k v c Ht. rewrite lookup_insert_eq. simpl. by rewrite (proj2 (Z.ltb_lt _ _)) by lia.
  - intros t t' k v w c Ht Hw. rewrite lookup_insert_eq in Hw. simpl in Hw. destruct (t' <? _); congruence.
  - intros t t' k k' v c Hk. by rewrite lookup_insert_ne.
  - intros. by rewrite lookup_delete_eq.
  - intros. by rewrite lookup_delete_ne.
Defined.
End RefCache.
End RefCache.

(** ** Raw records of [export/records.go] *)

Record RawRequest := {
  rr_ElapsedNs : Z;
  rr_SessionKey : list Z;
  rr_PidTGid : Z;
  rr_UidGid : Z;
  rr_CgroupID : Z;
  rr_Comm : list Z;
  rr_Method : list Z;
  rr_URL : list Z;
  rr_Protocol : list Z;
  rr_ContentLength : Z;
  rr_Headers : gmap (list Z) (list Z);
  rr_Body : list Z;
  rr_Truncated : bool;
}.

Record RawResponse := {
  rp_ElapsedNs : Z;
  rp_SessionKey : list Z;
  rp_PidTGid : Z;
  rp_UidGid : Z;
  rp_CgroupID : Z;
  rp_Comm : list Z;
  rp_StatusCode : Z;
  rp_Protocol : list Z;
  rp_ContentLength : Z;
  rp_Headers : gmap (list Z) (list Z);
  rp_Body : list Z;
  rp_Truncated : bool;
}.

(** ** Events *)

Record sslEvent := {
  se_TimestampNs : Z;
  se_PidTgid : Z;
  se_UidGid : Z;
  se_CgroupId : Z;
  se_SslPtr : Z;
  se_ReqLen : Z;
  se_DataLen : Z;
  se_Rw : Z;
  se_Comm : list Z;
  se_Data : list Z;
}.

Definition of_fields (fs : list (list Z)) : option sslEvent :=
  match fs with
  | [[ts]; [pid]; [uid]; [cg]; [ssl]; [req]; [len]; [rw]; comm; data] =>
      Some {| se_TimestampNs := ts; se_PidTgid := pid; se_UidGid := uid; se_CgroupId := cg;
              se_SslPtr := ssl; se_ReqLen := req; se_DataLen := len; se_Rw := rw;
              se_Comm := comm; se_Data := data |}
  | _ => None
  end.

(** ** The store *)

Inductive ProtocolType := ProtocolHTTP1 | ProtocolHTTP2 | ProtocolPostgres | ProtocolUnknown.

#[export] Instance ProtocolType_eq_dec : EqDecision ProtocolType.
Proof. solve_decision. Defined.

(** Durations, in nanoseconds. *)
Definition second : Z := 1000000000.
Definition minute : Z := 60 * second.

Definition protocol_ttl (pt : ProtocolType) : Z :=
  match pt with ProtocolPostgres => 180 * minute | _ => 10 * minute end.
Definition sessionTTL (_ : list Z) : Z := 10 * minute.
Definition recordTTL : Z := 10 * minute.
Definition cleanupInterval : Z := minute.

Section Store.
Context {N : NetHttp} {C : Codec} {L : Http2Lib}.
Context {CP : Cache SSLKey ProtocolType protocol_ttl}.
Context {CS : Cache SessionScope (list Z) sessionTTL}.
Context (generate : nat -> list Z).

Record SSLStore := {
  Requests : gmap SSLKey SSLRecord;
  Responses : gmap SSLKey SSLRecord;
  sessions : cache CS;
  sessionScopes : gmap SSLKey (gset SessionScope);
  protocolCache : cache CP;
  nextCleanup : Z;
  generated : nat;
}.

Definition NewSSLStore (now : Z) : SSLStore := {|
  Requests := ∅; Responses := ∅; sessions := no_entries; sessionScopes := ∅;
  protocolCache := no_entries; nextCleanup := now + minute; generated := 0 |}.

(** Assignments. *)
Definition set_Requests m s : SSLStore := {|
  Requests := m; Responses := Responses s; sessions := sessions s; sessionScopes := sessionScopes s;
  protocolCache := protocolCache s; nextCleanup := nextCleanup s; generated := generated s |}.
Definition set_Responses m s : SSLStore := {|
  Requests := Requests s; Responses := m; sessions := sessions s; sessionScopes := sessionScopes s;
  protocolCache := protocolCache s; nextCleanup := nextCleanup s; generated := generated s |}.
Definition set_sessions c s : SSLStore := {|
  Requests := Requests s; Responses := Responses s; sessions := c; sessionScopes := sessionScopes s;
  protocolCache := protocolCache s; nextCleanup := nextCleanup s; generated := generated s |}.
Definition set_scopes m s : SSLStore := {|
  Requests := Requests s; Responses := Responses s; sessions := sessions s; sessionScopes := m;
  protocolCache := protocolCache s; nextCleanup := nextCleanup s; generated := generated s |}.
Definition set_protocols c s : SSLStore := {|
  Requests := Requests s; Responses := Responses s; sessions := sessions s; sessionScopes := sessionScopes s;
  protocolCache := c; nextCleanup := nextCleanup s; generated := generated s |}.
Definition set_nextCleanup t s : SSLStore := {|
  Requests := Requests s; Responses := Responses s; sessions := sessions s; sessionScopes := sessionScopes s;
  protocolCache := protocolCache s; nextCleanup := t; generated := generated s |}.

(** The next key of the sequence. *)
Definition generateSessionKey (s : SSLStore) : list Z * SSLStore :=
  (generate (generated s), {|
    Requests := Requests s; Responses := Responses s; sessions := sessions s;
    sessionScopes := sessionScopes s; protocolCache := protocolCache s;
    nextCleanup := nextCleanup s; generated := S (generated s) |}).

(** ** Sessions *)

Definition addSessionScope (scope : SessionScope) (s : SSLStore) : SSLStore :=
  let scopes := default ∅ (sessionScopes s !! Conn scope) in
  set_scopes (<[Conn scope := {[scope]} ∪ scopes]> (sessionScopes s)) s.

Definition removeSessionScope (scope : SessionScope) (s : SSLStore) : SSLStore :=
  match sessionScopes s !! Conn scope with
  | None => s
  | Some scopes =>
      let scopes := scopes ∖ {[scope]} in
      if decide (scopes = ∅) then set_scopes (delete (Conn scope) (sessionScopes s)) s
      else set_scopes (<[Conn scope := scopes]> (sessionScopes s)) s
  end.

Definition ensureSessionKey (now : Z) (scope : SessionScope) (s : SSLStore) : list Z * SSLStore :=
  match GetIfPresent now scope (sessions s) with
  | (Some sessionKey, c) => (sessionKey, set_sessions c s)
  | (None, c) =>
      let '(sessionKey, s) := generateSessionKey (set_sessions c s) in
      (sessionKey, addSessionScope scope (set_sessions (Set_ now scope sessionKey (sessions s)) s))
  end.

Definition deleteSessionKey (scope : SessionScope) (s : SSLStore) : SSLStore :=
  removeSessionScope scope (set_sessions (Invalidate scope (sessions s)) s).

(** The loop of [sessionScopesForConn]: the scopes the cache still has. *)
Fixpoint live_scopes (now : Z) (scopes : list SessionScope) (c : cache CS) : list SessionScope * cache CS :=
  match scopes with
  | [] => ([], c)
  | scope :: scopes' =>
      let '(key, c) := GetIfPresent now scope c in
      let '(live, c) := live_scopes now scopes' c in
      (if key then scope :: live else live, c)
  end.

Definition sessionScopesForConn (now : Z) (key : SSLKey) (s : SSLStore) : list SessionScope * SSLStore :=
  match sessionScopes s !! key with
  | None => ([], s)
  | Some scopes =>
      let '(live, c) := live_scopes now (elements scopes) (sessions s) in
      let s := set_sessions c s in
      if decide (live = []) then ([], set_scopes (delete key (sessionScopes s)) s)
      else (live, set_scopes (<[key := list_to_set live]> (sessionScopes s)) s)
  end.

Definition deleteConnectionSessions (now : Z) (key : SSLKey) (s : SSLStore) : SSLStore :=
  let '(scopes, s) := sessionScopesForConn now key s in
  foldl (fun s scope => deleteSessionKey scope s) s scopes.

Definition sessionScopeForKey (key : SSLKey) (streamID : Z) : SessionScope :=
  {| Conn := key; StreamID := streamID |}.

(** ** Cleaning up *)

Definition shouldCleanup (now : Z) (s : SSLStore) : bool * SSLStore :=
  if now <? nextCleanup s then (false, s) else (true, set_nextCleanup (now + cleanupInterval) s).

Definition cleanupStaleRequestRecords (cutoff : Z) (s : SSLStore) : SSLStore :=
  set_Requests (filter (fun kr => cutoff <= LastTouched kr.2) (Requests s)) s.

Definition cleanupStaleResponseRecords (now cutoff : Z) (s : SSLStore) : SSLStore :=
  foldl (fun s kr =>
      if LastTouched kr.2 <? cutoff
      then deleteConnectionSessions now kr.1 (set_Responses (delete kr.1 (Responses s)) s)
      else s)
    s (map_to_list (Responses s)).

(** ** Detection *)

(** What the first bytes say; the number is how many of them the startup message
    of PostgreSQL takes. *)
Definition classify (buf : list Z) : outcome (ProtocolType * bool * Z) :=
  let detected pt := mret (pt, true, 0) in
  if HasPrefix buf HTTP2Preface then detected ProtocolHTTP2
  else if HasPrefix buf HTTP1ResponsePrefix || HasPrefix buf HTTP1ChunkEnd then detected ProtocolHTTP1
  else if existsb (HasPrefix buf) HTTP1RequestMethods then detected ProtocolHTTP1
  else
    let length := PostgresParser.be32 buf 0 in
    if (8 <? lenZ buf) && (length <=? PostgresStartupMessageMaxLength) &&
       (Z.shiftr (PostgresParser.be32 buf 4) 16 =? 3)
    then
      _ ← checked (slice buf 8 (Z.min length (u32 (lenZ buf))));
      mret (ProtocolPostgres, true, Z.min length (u32 (lenZ buf)))
    else
      '(_, consumed, err) ← HTTP1Parser.parseStream buf;
      if negb err && (0 <? consumed) then detected ProtocolHTTP1
      else if negb (isBinary buf) then detected ProtocolHTTP1
      else if lenZ buf <? HTTP2FrameHeaderLen then mret (ProtocolUnknown, false, 0)
      else
        let length := Z.lor (Z.lor (Z.shiftl (rd buf 0) 16) (Z.shiftl (rd buf 1) 8)) (rd buf 2) in
        let frameType := rd buf 3 in
        let flags := rd buf 4 in
        let streamID := Z.land (PostgresParser.be32 buf 5) (Z.shiftl 1 31 - 1) in
        if (SSLMaxDataSize <? length) || (HTTP2FrameMaxCode <? frameType) ||
           negb (Z.ldiff flags HTTP2FlagsMask =? 0)
        then mret (ProtocolUnknown, false, 0)
        else if (streamID =? 0) && negb (bool_decide (frameType ∈ [4; 6; 7; 8]))
        then mret (ProtocolUnknown, false, 0)
        else detected ProtocolHTTP2.

Definition detectProtocol (now : Z) (key : SSLKey) (r : SSLRecord) (s : SSLStore)
    : outcome (ProtocolType * SSLRecord * SSLStore) :=
  match GetIfPresent now key (protocolCache s) with
  | (Some pt, c) => mret (pt, r, set_protocols c s)
  | (None, c) =>
      let s := set_protocols c s in
      '(pt, remember, consumed) ← classify (Stream r);
      mret (pt, set_stream (Info r) (drop (Z.to_nat consumed) (Stream r)) r,
            if (remember : bool) then set_protocols (Set_ now key pt (protocolCache s)) s else s)
  end.

(** ** Adding an event *)

Definition add_record (now : Z) (key : SSLKey) (e : sslEvent) (m : gmap SSLKey SSLRecord)
    : outcome (gmap SSLKey SSLRecord) :=
  data ← checked (slice (se_Data e) 0 (se_DataLen e));
  let info := {| TimestampNs := se_TimestampNs e; DataLen := se_DataLen e; Comm := se_Comm e |} in
  mret (<[key := Append now data info (default new_record (m !! key))]> m).

Definition event_key (e : sslEvent) : SSLKey := {|
  PidTgid := se_PidTgid e; UidGid := se_UidGid e; SSLPtr := se_SslPtr e; CgroupID := se_CgroupId e |}.

Definition Add (now : Z) (e : sslEvent) (s : SSLStore) : outcome SSLStore :=
  if se_Rw e =? SSLRwWrite then
    m ← add_record now (event_key e) e (Requests s); mret (set_Requests m s)
  else if se_Rw e =? SSLRwRead then
    m ← add_record now (event_key e) e (Responses s); mret (set_Responses m s)
  else mret s.

(** The body of the loop of [handle]: a sample that does not decode is skipped. *)
Definition handle_body (now : Z) (raw : list Z) (s : SSLStore) : outcome SSLStore :=
  match binary_Read G.sslEvent raw ≫= of_fields with
  | Some e => Add now e s
  | None => mret s
  end.

(** ** Parsing *)

(** The three channels to the exporter. *)
Record channels := {
  reqChan : Channel.chan RawRequest;
  respChan : Channel.chan RawResponse;
  postgresChan : Channel.chan RawPostgres;
}.

Definition on_reqChan f (o : channels) : channels :=
  {| reqChan := f (reqChan o); respChan := respChan o; postgresChan := postgresChan o |}.
Definition on_respChan f (o : channels) : channels :=
  {| reqChan := reqChan o; respChan := f (respChan o); postgresChan := postgresChan o |}.
Definition on_postgresChan f (o : channels) : channels :=
  {| reqChan := reqChan o; respChan := respChan o; postgresChan := f (postgresChan o) |}.

Definition ParseRequest (pt : ProtocolType) (r : SSLRecord) : outcome (parsed ParsedRequest * SSLRecord) :=
  match pt with
  | ProtocolHTTP2 => HTTP2Parser.ParseRequest r
  | ProtocolPostgres => PostgresParser.ParseRequest r
  | _ => mret (HTTP1Parser.ParseRequest r)
  end.

Definition ParseResponse (pt : ProtocolType) (r : SSLRecord) : outcome (parsed ParsedResponse * SSLRecord) :=
  match pt with
  | ProtocolHTTP2 => HTTP2Parser.ParseResponse r
  | ProtocolPostgres => PostgresParser.ParseResponse r
  | _ => HTTP1Parser.ParseResponse r
  end.

(** A request that is complete goes to the channel of its protocol.  The session
    key is made before the channel is tried. *)
Definition send_request (now : Z) (key : SSLKey) (streamID consumed timestamp : Z) (comm : list Z)
    (request : Request) (body : list Z) (s : SSLStore) (o : channels) : SSLStore * channels :=
  if decide (rq_Proto request = PostgresProtoRequest) then
    (s, on_postgresChan (Channel.offer {|
      pg_ElapsedNs := timestamp;
      pg_PidTGid := PidTgid key;
      pg_UidGid := UidGid key;
      pg_CgroupID := CgroupID key;
      pg_Comm := comm;
      pg_MsgType := rq_Method request;
      pg_Data := body |}) o)
  else
    let headers :=
      if bool_decide (rq_Host request <> []) then Header_Add (str "Host") (rq_Host request) (rq_Header request)
      else rq_Header request in
    let '(sessionKey, s) := ensureSessionKey now (sessionScopeForKey key streamID) s in
    (s, on_reqChan (Channel.offer {|
      rr_ElapsedNs := timestamp;
      rr_SessionKey := sessionKey;
      rr_PidTGid := PidTgid key;
      rr_UidGid := UidGid key;
      rr_CgroupID := CgroupID key;
      rr_Comm := comm;
      rr_Method := rq_Method request;
      rr_URL := default (rq_RequestURI request) (rq_URL request);
      rr_Protocol := rq_Proto request;
      rr_ContentLength := rq_ContentLength request;
      rr_Headers := flattenMaskedHeader headers;
      rr_Body := body;
      rr_Truncated := SSLMaxDataSize <=? consumed |}) o).

(** The inner loop of [parseRequest].  The record stays in the map while [live];
    the loop goes on with it after it was deleted. *)
Fixpoint request_loop (fuel : nat) (now : Z) (key : SSLKey) (pt : ProtocolType)
    (r : SSLRecord) (live : bool) (s : SSLStore) (o : channels)
    : outcome (SSLRecord * bool * SSLStore * channels) :=
  match fuel with
  | O => OutOfFuel
  | S fuel =>
      if bool_decide (Stream r = []) then mret (r, live, s, o)
      else
        '(p, r) ← ParseRequest pt r;
        if p_err p then
          _ ← checked (slice (Stream r) 0 (Z.min (lenZ (Stream r)) (p_consumed p)));
          mret (r, false, s, o)
        else if p_consumed p =? 0 then mret (r, live, s, o)
        else
          '(timestamp, comm, consumedAll, r) ← consumeRecord r (p_consumed p);
          let live := live && negb (consumedAll && EndOfStream r && bool_decide (pt <> ProtocolHTTP2)) in
          match p_message p with
          | Some {| pr_StreamID := streamID; pr_Request := Some request |} =>
              if EndOfStream r then
                match Compress.readDecodeBytes (rq_Body request)
                        (Header_Get (rq_Header request) (str "Content-Encoding")) with
                | None => request_loop fuel now key pt (set_eos false r) live s o
                | Some body =>
                    let '(s, o) := send_request now key streamID (p_consumed p) timestamp comm request body s o in
                    mret (set_resp None (set_eos false r), live, s, o)
                end
              else request_loop fuel now key pt r live s o
          | _ => request_loop fuel now key pt (set_eos false r) live s o
          end
  end.

(** The record is put back unless the loop deleted it. *)
Definition put_back (key : SSLKey) (r : SSLRecord) (live : bool) (m : gmap SSLKey SSLRecord) : gmap SSLKey SSLRecord :=
  if live then <[key := r]> m else delete key m.

(** One connection of the outer loop. *)
Definition parse_request_of (fuel : nat) (now : Z) (key : SSLKey) (s : SSLStore) (o : channels)
    : outcome (SSLStore * channels) :=
  match Requests s !! key with
  | None => mret (s, o)
  | Some r =>
      '(pt, r, s) ← detectProtocol now key r s;
      if decide (pt = ProtocolUnknown) then mret (set_Requests (delete key (Requests s)) s, o)
      else
        '(r, live, s, o) ← request_loop fuel now key pt r true s o;
        mret (set_Requests (put_back key r live (Requests s)) s, o)
  end.

Fixpoint parse_requests (fuel : nat) (now : Z) (keys : list SSLKey) (s : SSLStore) (o : channels)
    : outcome (SSLStore * channels) :=
  match keys with
  | [] => mret (s, o)
  | key :: keys' => '(s, o) ← parse_request_of fuel now key s o; parse_requests fuel now keys' s o
  end.

(** [keys] is the order in which the map is ranged over. *)
Definition parseRequest (fuel : nat) (now : Z) (keys : list SSLKey) (s : SSLStore) (o : channels)
    : outcome (SSLStore * channels) :=
  let '(clean, s) := shouldCleanup now s in
  let s := if clean then cleanupStaleRequestRecords (now - recordTTL) s else s in
  parse_requests fuel now keys s o.

Definition send_response (now : Z) (key : SSLKey) (scope : SessionScope) (timestamp : Z) (comm : list Z)
    (response : Response) (body : list Z) (s : SSLStore) (o : channels) : SSLStore * channels :=
  let '(sessionKey, s) := ensureSessionKey now scope s in
  (deleteSessionKey scope s, on_respChan (Channel.offer {|
      rp_ElapsedNs := timestamp;
      rp_SessionKey := sessionKey;
      rp_PidTGid := PidTgid key;
      rp_UidGid := UidGid key;
      rp_CgroupID := CgroupID key;
      rp_Comm := comm;
      rp_StatusCode := rs_StatusCode response;
      rp_Protocol := rs_Proto response;
      rp_ContentLength := rs_ContentLength response;
      rp_Headers := flattenMaskedHeader (rs_Header response);
      rp_Body := body;
      rp_Truncated := false |}) o).

(** A body that was read but did not decode: [record.LastResp] is the response
    the HTTP/1 parser returned, and what the decoders did not read stays in it. *)
Definition spoil (pt : ProtocolType) (encoding : list Z) (r : SSLRecord) : SSLRecord :=
  match pt, LastResp r with
  | ProtocolHTTP1, Some resp => set_resp (Some (with_Body (left_over encoding (rs_Body resp)) resp)) r
  | _, _ => r
  end.

Fixpoint response_loop (fuel : nat) (now : Z) (key : SSLKey) (pt : ProtocolType)
    (r : SSLRecord) (live : bool) (s : SSLStore) (o : channels)
    : outcome (SSLRecord * bool * SSLStore * channels) :=
  match fuel with
  | O => OutOfFuel
  | S fuel =>
      if bool_decide (Stream r = []) then mret (r, live, s, o)
      else
        '(p, r) ← ParseResponse pt r;
        if p_err p then
          _ ← checked (slice (Stream r) 0 (Z.min (lenZ (Stream r)) (p_consumed p)));
          mret (r, false, deleteConnectionSessions now key s, o)
        else if p_consumed p =? 0 then mret (r, live, s, o)
        else
          '(timestamp, comm, consumedAll, r) ← consumeRecord r (p_consumed p);
          let live := live && negb (consumedAll && EndOfStream r && bool_decide (pt <> ProtocolHTTP2)) in
          match p_message p with
          | None => response_loop fuel now key pt (set_eos false r) live s o
          | Some m =>
              let scope := sessionScopeForKey key (ps_StreamID m) in
              if ps_DiscardStream m then
                response_loop fuel now key pt (set_eos false r) live (deleteSessionKey scope s) o
              else
                match ps_Response m with
                | None => response_loop fuel now key pt (set_eos false r) live s o
                | Some response =>
                    if EndOfStream r then
                      let encoding := Header_Get (rs_Header response) (str "Content-Encoding") in
                      match Compress.readDecodeBytes (rs_Body response) encoding with
                      | None =>
                          response_loop fuel now key pt (set_eos false (spoil pt encoding r)) live
                            (deleteSessionKey scope s) o
                      | Some body =>
                          let '(s, o) := send_response now key scope timestamp comm response body s o in
                          mret (set_resp None (set_eos false r), live, s, o)
                      end
                    else response_loop fuel now key pt r live s o
                end
          end
  end.

Definition parse_response_of (fuel : nat) (now : Z) (key : SSLKey) (s : SSLStore) (o : channels)
    : outcome (SSLStore * channels) :=
  match Responses s !! key with
  | None => mret (s, o)
  | Some r =>
      '(pt, r, s) ← detectProtocol now key r s;
      if decide (pt = ProtocolUnknown) then
        mret (deleteConnectionSessions now key (set_Responses (delete key (Responses s)) s), o)
      else
        '(r, live, s, o) ← response_loop fuel now key pt r true s o;
        mret (set_Responses (put_back key r live (Responses s)) s, o)
  end.

Fixpoint parse_responses (fuel : nat) (now : Z) (keys : list SSLKey) (s : SSLStore) (o : channels)
    : outcome (SSLStore * channels) :=
  match keys with
  | [] => mret (s, o)
  | key :: keys' => '(s, o) ← parse_response_of fuel now key s o; parse_responses fuel now keys' s o
  end.

Definition parseResponse (fuel : nat) (now : Z) (keys : list SSLKey) (s : SSLStore) (o : channels)
    : outcome (SSLStore * channels) :=
  let '(clean, s) := shouldCleanup now s in
  let s := if clean then cleanupStaleResponseRecords now (now - recordTTL) s else s in
  parse_responses fuel now keys s o.

(** One tick of [Parse]; the two calls take their own time. *)
Definition tick (fuel : nat) (now now' : Z) (keys keys' : list SSLKey) (s : SSLStore) (o : channels)
    : outcome (SSLStore * channels) :=
  '(s, o) ← parseRequest fuel now keys s o;
  parseResponse fuel now' keys' s o.
End Store.
