(* ===== verification/SslStoreTheorems.v ===== *)
(** The store of TLS plaintext: theorems.

    Parsing terminates unless a peer announces a body of about 2^63 bytes, in
    which case it does not; what the detection of a protocol and the chunk parser
    crash on.  The statements of a PostgreSQL connection are delivered in order.
    A request and its response share their session key and no other exchange has
    it; closing a connection forgets its sessions and no others.  Stale responses
    are never cleaned up on the ticks that clean up stale requests.  The events
    of the probes fill the streams. *)

From S2P Require Import Prelude Layout GoStd Helpers Tracing Tls TlsTheorems Postgres PostgresTheorems Wire WireTheorems.
From S2P Require Import Collector CollectorTheorems Protocol ProtocolTheorems SslStore.

Section Loops.
Context {N : NetHttp} {C : Codec} {L : Http2Lib} `{!Http2LibOk L}.
Context {CP : Cache SSLKey ProtocolType protocol_ttl} {CS : Cache SessionScope (list Z) sessionTTL}.
Context (generate : nat -> list Z).
Implicit Types (r : SSLRecord) (s : SSLStore (L := L) (CP := CP) (CS := CS)).

(** ** What stays *)

(** Sessions are kept apart from the streams. *)
Definition same_maps s s' : Prop :=
  Requests s' = Requests s /\ Responses s' = Responses s /\ nextCleanup s' = nextCleanup s /\
  protocolCache s' = protocolCache s.

Lemma same_maps_trans s1 s2 s3 : same_maps s1 s2 -> same_maps s2 s3 -> same_maps s1 s3.
Proof. intros (? & ? & ? & ?) (? & ? & ? & ?). split_and!; congruence. Qed.

Lemma deleteSessionKey_maps scope s : same_maps s (deleteSessionKey scope s).
Proof. unfold deleteSessionKey, removeSessionScope. by repeat case_match. Qed.

Lemma ensureSessionKey_maps now scope s : same_maps s (ensureSessionKey generate now scope s).2.
Proof. unfold ensureSessionKey. by destruct (GetIfPresent _ _ _) as [[k|] c]. Qed.

Lemma deleteConnectionSessions_maps now key s : same_maps s (deleteConnectionSessions now key s).
Proof.
  unfold deleteConnectionSessions. destruct (sessionScopesForConn now key s) as [scopes s1] eqn:E.
  assert (same_maps s s1) as Hs.
  { revert E. unfold sessionScopesForConn. destruct (sessionScopes s !! key); [|by intros [= <- <-]].
    destruct (live_scopes _ _ _). by case_decide; intros [= <- <-]. }
  clear E. revert s1 Hs. induction scopes as [|scope scopes IH]; intros s1 Hs; [done|].
  simpl. apply IH. eapply same_maps_trans; [exact Hs|apply deleteSessionKey_maps].
Qed.

Lemma send_request_maps now key sid n ts comm req body s o :
  same_maps s (send_request generate now key sid n ts comm req body s o).1.
Proof.
  unfold send_request. case_decide; [done|].
  pose proof (ensureSessionKey_maps now (sessionScopeForKey key sid) s) as Hm. by destruct (ensureSessionKey _ _ _ _).
Qed.

Lemma send_response_maps now key scope ts comm resp body s o :
  same_maps s (send_response generate now key scope ts comm resp body s o).1.
Proof.
  unfold send_response. pose proof (ensureSessionKey_maps now scope s) as H.
  destruct (ensureSessionKey _ _ _ _) as [k s1]. eapply same_maps_trans; [exact H|apply deleteSessionKey_maps].
Qed.

(** The loop over a stream sends at most one request. *)
Lemma request_loop_sends fuel : forall now key pt r live s o r' live' s' o',
  request_loop generate fuel now key pt r live s o = Done (r', live', s', o') ->
  (s', o') = (s, o) \/
  exists sid n ts comm req body, (s', o') = send_request generate now key sid n ts comm req body s o.
Proof.
  induction fuel as [|fuel IH]; intros now key pt r live s o r' live' s' o'; [done|]. cbn [request_loop].
  case_bool_decide; [intros [= <- <- <- <-]; by left|].
  intros ([p r1] & _ & E)%bind_Done. destruct (p_err p).
  { apply bind_Done in E as (b & _ & E). injection E as <- <- <- <-. by left. }
  destruct (_ =? 0); [injection E as <- <- <- <-; by left|].
  apply bind_Done in E as ([[[ts comm] all] r2] & _ & E).
  destruct (p_message p) as [[sid [req|]]|]; [|by apply IH in E..].
  destruct (EndOfStream r2); [|by apply IH in E].
  destruct (Compress.readDecodeBytes _ _) as [body|]; [|by apply IH in E]. right.
  exists sid, (p_consumed p), ts, comm, req, body. destruct (send_request _ _ _ _ _ _ _ _ _ _ _).
  by injection E as <- <- <- <-.
Qed.

Lemma request_loop_maps fuel now key pt r live s o r' live' s' o' :
  request_loop generate fuel now key pt r live s o = Done (r', live', s', o') -> same_maps s s'.
Proof.
  intros [E|(sid & n & ts & comm & req & body & E)]%request_loop_sends; [by injection E as -> _|].
  pose proof (send_request_maps now key sid n ts comm req body s o) as Hm. by rewrite <- E in Hm.
Qed.

(** What every step of the loop over the responses preserves. *)
Lemma response_loop_keeps (P : SSLStore -> channels -> Prop) now key :
  (forall s o scope, P s o -> P (deleteSessionKey scope s) o) ->
  (forall s o, P s o -> P (deleteConnectionSessions now key s) o) ->
  (forall s o scope ts comm resp body, P s o ->
    P (send_response generate now key scope ts comm resp body s o).1
      (send_response generate now key scope ts comm resp body s o).2) ->
  forall fuel pt r live s o r' live' s' o',
  response_loop generate fuel now key pt r live s o = Done (r', live', s', o') -> P s o -> P s' o'.
Proof.
  intros Hd Hc Hr. induction fuel as [|fuel IH]; intros pt r live s o r' live' s' o'; [done|]. cbn [response_loop].
  case_bool_decide; [by intros [= <- <- <- <-]|].
  intros ([p r1] & _ & E)%bind_Done HP. destruct (p_err p).
  { apply bind_Done in E as (b & _ & E). injection E as <- <- <- <-. auto. }
  destruct (_ =? 0); [by injection E as <- <- <- <-|].
  apply bind_Done in E as ([[[ts comm] all] r2] & _ & E).
  destruct (p_message p) as [m|]; [|by eapply IH in E].
  destruct (ps_DiscardStream m); [eapply IH in E; auto|].
  destruct (ps_Response m) as [resp|]; [|by eapply IH in E].
  destruct (EndOfStream r2); [|by eapply IH in E].
  destruct (Compress.readDecodeBytes _ _) as [body|]; [|eapply IH in E; auto].
  specialize (Hr s o (sessionScopeForKey key (ps_StreamID m)) ts comm resp body HP).
  destruct (send_response _ _ _ _ _ _ _ _ _ _). by injection E as <- <- <- <-.
Qed.

Lemma response_loop_maps fuel now key pt r live s o r' live' s' o' :
  response_loop generate fuel now key pt r live s o = Done (r', live', s', o') ->
  same_maps s s' /\ postgresChan o' = postgresChan o.
Proof.
  intros E. apply (response_loop_keeps (fun s1 o1 => same_maps s s1 /\ postgresChan o1 = postgresChan o)) in E; [done|..|done].
  - intros s1 o1 scope [H Ho]. split; [|done]. eapply same_maps_trans; [exact H|apply deleteSessionKey_maps].
  - intros s1 o1 [H Ho]. split; [|done]. eapply same_maps_trans; [exact H|apply deleteConnectionSessions_maps].
  - intros s1 o1 scope ts comm resp body [H Ho]. split; [eapply same_maps_trans; [exact H|apply send_response_maps]|].
    unfold send_response. by destruct (ensureSessionKey _ _ _ _).
Qed.

Lemma detectProtocol_maps now key r s pt r' s' :
  detectProtocol now key r s = Done (pt, r', s') ->
  Requests s' = Requests s /\ Responses s' = Responses s /\ nextCleanup s' = nextCleanup s.
Proof.
  unfold detectProtocol. destruct (GetIfPresent _ _ _) as [[p|] c]; [by intros [= <- <- <-]|].
  intros ([[p rem] n] & _ & E)%bind_Done. injection E as <- <- <-. by destruct rem.
Qed.

(** ** Termination *)

(** Bytes that do not start with the size of a chunk of 2^62 bytes or more. *)
Definition small_chunk (d : list Z) : bool :=
  match Index d CRLF with
  | Some idx => match ParseUint 16 (take idx d) with Some n => n <? 2 ^ 62 | None => true end
  | None => true
  end.

(** Bytes that do not start like a startup message of version 3 whose length is less
    than its own header. *)
Definition whole_startup (d : list Z) : bool :=
  (lenZ d <=? 8) || (8 <=? PostgresParser.be32 d 0) || negb (Z.shiftr (PostgresParser.be32 d 4) 16 =? 3).

Definition tame_stream (d : list Z) : Prop :=
  (forall req, ReadRequest d = inr req -> announced (rq_ContentLength req)) /\
  (forall resp, ReadResponse d = inr resp -> announced (rs_ContentLength resp)) /\
  small_chunk d = true /\ whole_startup d = true.

(** Such bytes crash neither the reader of chunks nor the detection. *)
Lemma parseStream_safe d : lenZ d < 2 ^ 31 -> small_chunk d = true -> HTTP1Parser.parseStream d <> Crash.
Proof.
  intros Hl Hs. destruct (Index d CRLF) as [i|] eqn:Hi; [|unfold HTTP1Parser.parseStream; by rewrite Hi].
  destruct (ParseUint 16 (take i d)) as [n|] eqn:Hn; [|unfold HTTP1Parser.parseStream; by rewrite Hi, Hn].
  rewrite (parseStream_crash d i n) by (done || lia). unfold small_chunk in Hs. rewrite Hi, Hn in Hs.
  apply Z.ltb_lt in Hs. apply Index_bound in Hi. unfold lenZ in *. lia.
Qed.

Lemma classify_safe d : lenZ d < 2 ^ 31 -> small_chunk d = true -> whole_startup d = true -> classify d <> Crash.
Proof.
  intros Hl Hs Hw. pose proof (parseStream_safe d Hl Hs) as Hp. unfold classify. cbv zeta.
  destruct (HasPrefix d HTTP2Preface); [done|]. destruct (_ || _); [done|]. destruct (existsb _ _); [done|].
  destruct ((8 <? lenZ d) && _ && _) eqn:E.
  - apply andb_true_iff in E as [[E1%Z.ltb_lt _]%andb_true_iff E3%Z.eqb_eq].
    unfold whole_startup in Hw. rewrite (proj2 (Z.leb_gt _ _)), E3 in Hw by lia. cbn [negb orb] in Hw.
    rewrite orb_false_r in Hw. apply Z.leb_le in Hw. rewrite u32_small by lia.
    rewrite slice_some by (unfold lenZ in *; lia). done.
  - destruct (HTTP1Parser.parseStream d) as [[[]]| |]; [|done..]. cbn [mbind outcome_bind].
    repeat match goal with |- context [if ?b then _ else _] => destruct b; [done|] end. done.
Qed.

(** A record the parsers can deal with: covered, shorter than 2 GiB, and whatever of it
    is read first announces no body or chunk of 2^62 bytes or more and is no startup
    message shorter than its header. *)

Definition tame r : Prop :=
  covered r /\ lenZ (Stream r) < 2 ^ 31 /\ forall n, tame_stream (drop n (Stream r)).

Lemma tame_same r r' : same_stream r r' -> tame r -> tame r'.
Proof.
  intros Hs (Hc & Hrest). split; [by eapply covered_same|]. destruct Hs as [Hs _]. by rewrite Hs.
Qed.

Lemma tame_drop r r' n : covered r' -> Stream r' = drop n (Stream r) -> tame r -> tame r'.
Proof.
  intros Hc Hs (_ & Hl & H). split; [done|]. rewrite Hs. unfold lenZ in *. rewrite length_drop.
  split; [lia|]. intros m. rewrite drop_drop. apply H.
Qed.

Lemma covered_drop r n : covered r -> covered (set_stream (Info r) (drop n (Stream r)) r).
Proof. intros [Hs Hl]. split; [done|]. unfold lenZ in *. simpl. rewrite length_drop. lia. Qed.

Lemma ParseRequest_returns pt r : tame r -> returns (ParseRequest pt r) r.
Proof.
  intros (Hc & Hl & Ht). destruct pt; simpl.
  1, 4: apply http1_request_returns; [done|apply (Ht O)].
  - apply http2_request_returns.
  - by apply postgres_request_returns.
Qed.

Lemma ParseResponse_returns pt r : tame r -> returns (ParseResponse pt r) r.
Proof.
  intros (Hc & Hl & Ht). pose proof (Ht O) as (_ & Hresp & Hchunk & _). rewrite drop_0 in *.
  apply parseStream_safe in Hchunk; [|done].
  destruct pt; simpl.
  1, 4: unfold HTTP1Parser.ParseResponse; destruct (LastResp r) as [resp|];
    [destruct (HTTP1Parser.isChunkedEncoding resp); [by apply parse_chunk_returns|]|];
    by apply http1_fresh_returns.
  - apply http2_response_returns.
  - by apply postgres_response_returns.
Qed.

(** Taking bytes off in a loop. *)
Lemma consume_tame r p :
  tame r -> Stream r <> [] -> 0 <= p -> p <> 0 ->
  exists ts comm all r', consumeRecord r p = Done (ts, comm, all, r') /\
    (length (Stream r') < length (Stream r))%nat /\ tame r'.
Proof.
  intros Ht Hne Hp Hp0. destruct (consumeRecord_covered r p) as (i & all & r' & Hr & _ & Hs & Hc & _);
    [apply Ht|done|lia|]. eexists _, _, _, _. split; [exact Hr|]. split.
  - rewrite Hs, length_drop. destruct (Stream r); [done|simpl; lia].
  - by eapply tame_drop.
Qed.

Lemma log_slice (l : list Z) n : 0 <= n -> exists b, checked (slice l 0 (Z.min (lenZ l) n)) = Done b.
Proof. intros Hn. unfold lenZ. rewrite slice_some by lia. by eexists. Qed.

Lemma request_loop_returns fuel : forall now key pt r live s o,
  tame r -> (length (Stream r) < fuel)%nat ->
  exists r' live' s' o', request_loop generate fuel now key pt r live s o = Done (r', live', s', o') /\
    tame r' /\ (length (Stream r') <= length (Stream r))%nat.
Proof.
  induction fuel as [|fuel IH]; intros now key pt r live s o Ht Hf; [lia|]. cbn [request_loop].
  destruct (bool_decide_reflect (Stream r = [])) as [He|Hne]; [by eexists _, _, _, _|].
  destruct (ParseRequest_returns pt r Ht) as (p & r1 & -> & Hp & Hs). cbn [mbind outcome_bind].
  pose proof (tame_same r r1 Hs Ht) as Ht1. destruct Hs as [Hs1 _].
  destruct (p_err p).
  { destruct (log_slice (Stream r1) (p_consumed p) Hp) as [b ->].
    eexists _, _, _, _. split_and!; [done|done|by rewrite Hs1]. }
  destruct (Z.eqb_spec (p_consumed p) 0) as [E0|E0];
    [eexists _, _, _, _; split_and!; [done|done|by rewrite Hs1]|].
  destruct (consume_tame r1 (p_consumed p) Ht1) as (ts & comm & all & r2 & -> & Hlt & Ht2); [by rewrite Hs1|done..|].
  rewrite Hs1 in Hlt. cbn [mbind outcome_bind].
  assert (forall r3 live3 s3 o3, same_stream r2 r3 ->
    exists r' live' s' o', request_loop generate fuel now key pt r3 live3 s3 o3 = Done (r', live', s', o') /\
      tame r' /\ (length (Stream r') <= length (Stream r))%nat) as Hrec.
  { intros r3 live3 s3 o3 Hs3. destruct (IH now key pt r3 live3 s3 o3) as (r' & l' & s' & o' & -> & Htr & Hle);
      [by eapply tame_same|destruct Hs3 as [-> _]; lia|].
    destruct Hs3 as [E3 _]. rewrite E3 in Hle. eexists _, _, _, _. split_and!; [done|done|lia]. }
  destruct (p_message p) as [[sid [req|]]|]; [|by apply Hrec..].
  destruct (EndOfStream r2); [|by apply Hrec].
  destruct (Compress.readDecodeBytes _ _); [|by apply Hrec].
  destruct (send_request _ _ _ _ _ _ _ _ _ _ _) as [s3 o3]. eexists _, _, _, _.
  split_and!; [done|by eapply tame_same|simpl; lia].
Qed.

Lemma response_loop_returns fuel : forall now key pt r live s o,
  tame r -> (length (Stream r) < fuel)%nat ->
  exists r' live' s' o', response_loop generate fuel now key pt r live s o = Done (r', live', s', o') /\
    tame r' /\ (length (Stream r') <= length (Stream r))%nat.
Proof.
  induction fuel as [|fuel IH]; intros now key pt r live s o Ht Hf; [lia|]. cbn [response_loop].
  destruct (bool_decide_reflect (Stream r = [])) as [He|Hne]; [by eexists _, _, _, _|].
  destruct (ParseResponse_returns pt r Ht) as (p & r1 & -> & Hp & Hs). cbn [mbind outcome_bind].
  pose proof (tame_same r r1 Hs Ht) as Ht1. destruct Hs as [Hs1 _].
  destruct (p_err p).
  { destruct (log_slice (Stream r1) (p_consumed p) Hp) as [b ->].
    eexists _, _, _, _. split_and!; [done|done|by rewrite Hs1]. }
  destruct (Z.eqb_spec (p_consumed p) 0) as [E0|E0];
    [eexists _, _, _, _; split_and!; [done|done|by rewrite Hs1]|].
  destruct (consume_tame r1 (p_consumed p) Ht1) as (ts & comm & all & r2 & -> & Hlt & Ht2); [by rewrite Hs1|done..|].
  rewrite Hs1 in Hlt. cbn [mbind outcome_bind].
  assert (forall r3 live3 s3 o3, same_stream r2 r3 ->
    exists r' live' s' o', response_loop generate fuel now key pt r3 live3 s3 o3 = Done (r', live', s', o') /\
      tame r' /\ (length (Stream r') <= length (Stream r))%nat) as Hrec.
  { intros r3 live3 s3 o3 Hs3. destruct (IH now key pt r3 live3 s3 o3) as (r' & l' & s' & o' & -> & Htr & Hle);
      [by eapply tame_same|destruct Hs3 as [-> _]; lia|].
    destruct Hs3 as [E3 _]. rewrite E3 in Hle. eexists _, _, _, _. split_and!; [done|done|lia]. }
  destruct (p_message p) as [m|]; [|by apply Hrec].
  destruct (ps_DiscardStream m); [by apply Hrec|].
  destruct (ps_Response m) as [resp|]; [|by apply Hrec].
  destruct (EndOfStream r2); [|by apply Hrec].
  destruct (Compress.readDecodeBytes _ _).
  2: { apply Hrec. unfold spoil. by destruct pt; [destruct (LastResp r2)|..]. }
  destruct (send_response _ _ _ _ _ _ _ _ _ _) as [s3 o3]. eexists _, _, _, _.
  split_and!; [done|by eapply tame_same|simpl; lia].
Qed.

Lemma parseStream_fuel d : HTTP1Parser.parseStream d <> OutOfFuel.
Proof.
  unfold HTTP1Parser.parseStream. destruct (Index d CRLF) as [i|]; [|done].
  destruct (ParseUint 16 _); [|done]. destruct (_ <? _); [done|]. by destruct (slice _ _ _).
Qed.

Lemma classify_fuel d : classify d <> OutOfFuel.
Proof.
  unfold classify, checked. cbv zeta. pose proof (parseStream_fuel d).
  destruct (HTTP1Parser.parseStream d) as [[[]]| |]; [| |done]; cbn [mbind outcome_bind];
    repeat match goal with
    | |- context [if ?b then _ else _] => destruct b; [done|]
    | |- context [slice ?a ?b ?c] => destruct (slice a b c)
    | _ => done
    end.
Qed.

(** Detection returns on a tame record, and keeps it tame. *)
Lemma detect_returns now key r s :
  tame r -> exists pt r' s', detectProtocol now key r s = Done (pt, r', s') /\
    tame r' /\ (length (Stream r') <= length (Stream r))%nat.
Proof.
  intros Ht. unfold detectProtocol. destruct (GetIfPresent now key (protocolCache s)) as [[pt|] c].
  { eexists _, _, _. split_and!; done. }
  pose proof Ht as (Hc & Hl & Hd). specialize (Hd O) as (_ & _ & Hsc & Hws). rewrite drop_0 in Hsc, Hws.
  pose proof (classify_safe (Stream r) Hl Hsc Hws) as Hcl.
  destruct (classify (Stream r)) as [[[pt rem] n]| |] eqn:E; [|done|by apply classify_fuel in E].
  cbn [mbind outcome_bind]. eexists _, _, _. split; [done|]. split_and!.
  - eapply tame_drop; [by apply covered_drop|done|done].
  - simpl. rewrite length_drop. lia.
Qed.

Definition tame_map (fuel : nat) (m : gmap SSLKey SSLRecord) : Prop :=
  map_Forall (fun _ r => tame r /\ (length (Stream r) < fuel)%nat) m.

Lemma put_back_tame fuel key r live m :
  tame_map fuel m -> tame r -> (length (Stream r) < fuel)%nat -> tame_map fuel (put_back key r live m).
Proof.
  intros Hm Hr Hl. unfold put_back. destruct live; [by apply map_Forall_insert_2|by apply map_Forall_delete].
Qed.

Definition tame_store (fuel : nat) s : Prop := tame_map fuel (Requests s) /\ tame_map fuel (Responses s).

Lemma parse_request_of_frame fuel now key s o s' o' :
  parse_request_of generate fuel now key s o = Done (s', o') ->
  Responses s' = Responses s /\ nextCleanup s' = nextCleanup s /\
  (forall k, k <> key -> Requests s' !! k = Requests s !! k) /\
  (Requests s !! key = None -> s' = s).
Proof.
  unfold parse_request_of. destruct (Requests s !! key) as [r|] eqn:E; [|by intros [= <- <-]].
  intros ([[pt r1] s1] & E1 & E2)%bind_Done. apply detectProtocol_maps in E1 as (Hr1 & Hp1 & Hn1).
  case_decide.
  { injection E2 as <- <-. simpl. split_and!; [done..| |done]. intros k Hk. by rewrite lookup_delete_ne, Hr1. }
  apply bind_Done in E2 as ([[[r2 live] s2] o2] & E2 & E3). apply request_loop_maps in E2 as (Hr2 & Hp2 & Hn2 & _).
  injection E3 as <- <-. simpl. split_and!; [congruence..| |done].
  intros k Hk. unfold put_back. rewrite Hr2, Hr1. destruct live; [by rewrite lookup_insert_ne|by rewrite lookup_delete_ne].
Qed.

Definition tame_at (fuel : nat) (o : option SSLRecord) : Prop :=
  forall r, o = Some r -> tame r /\ (length (Stream r) < fuel)%nat.

(** A connection is parsed whatever the other ones hold. *)
Lemma parse_request_of_returns fuel now key s o :
  tame_at fuel (Requests s !! key) ->
  exists s' o', parse_request_of generate fuel now key s o = Done (s', o') /\ tame_at fuel (Requests s' !! key).
Proof.
  intros H1. unfold parse_request_of. destruct (Requests s !! key) as [r|] eqn:E; [|eexists _, _; split; [done|by rewrite E]].
  destruct (H1 r eq_refl) as [Ht Hl].
  destruct (detect_returns now key r s Ht) as (pt & r1 & s1 & E1 & Ht1 & Hl1). rewrite E1.
  apply detectProtocol_maps in E1 as (Hr1 & Hp1 & _). cbn [mbind outcome_bind]. case_decide.
  { eexists _, _. split; [done|]. simpl. by rewrite lookup_delete_eq. }
  destruct (request_loop_returns fuel now key pt r1 true s1 o Ht1) as (r2 & live & s2 & o2 & -> & Ht2 & Hl2); [lia|].
  eexists _, _. split; [done|]. simpl. unfold put_back. destruct live; [|by rewrite lookup_delete_eq].
  rewrite lookup_insert_eq. intros r' [= <-]. split; [done|lia].
Qed.

Lemma parse_response_of_returns fuel now key s o :
  tame_map fuel (Responses s) ->
  exists s' o', parse_response_of generate fuel now key s o = Done (s', o') /\ tame_map fuel (Responses s') /\
    Requests s' = Requests s /\ postgresChan o' = postgresChan o.
Proof.
  intros H2. unfold parse_response_of. destruct (Responses s !! key) as [r|] eqn:E; [|by eexists _, _].
  destruct (H2 key r E) as [Ht Hl].
  destruct (detect_returns now key r s Ht) as (pt & r1 & s1 & E1 & Ht1 & Hl1). rewrite E1.
  apply detectProtocol_maps in E1 as (Hr1 & Hp1 & _). cbn [mbind outcome_bind]. case_decide.
  { eexists _, _. split; [done|]. destruct (deleteConnectionSessions_maps now key
      (set_Responses (delete key (Responses s1)) s1)) as (Hd1 & Hd2 & _).
    rewrite Hd1, Hd2. simpl. rewrite Hr1, Hp1. split_and!; [by apply map_Forall_delete|done..]. }
  destruct (response_loop_returns fuel now key pt r1 true s1 o Ht1) as (r2 & live & s2 & o2 & E2 & Ht2 & Hl2); [lia|].
  rewrite E2. apply response_loop_maps in E2 as ((Hr2 & Hp2 & _) & Ho). eexists _, _. split; [done|]. simpl.
  rewrite Hr2, Hp2, Hr1, Hp1. split_and!; [apply put_back_tame; [done..|lia]|done..].
Qed.

Lemma parse_requests_returns fuel now keys : forall s o,
  tame_store fuel s ->
  exists s' o', parse_requests generate fuel now keys s o = Done (s', o') /\ tame_store fuel s'.
Proof.
  induction keys as [|key keys IH]; intros s o Hs; [by eexists _, _|]. cbn [parse_requests].
  destruct (parse_request_of_returns fuel now key s o) as (s1 & o1 & E & Hs1); [by intros r; apply Hs|].
  rewrite E. apply parse_request_of_frame in E as (Hp & _ & Ho & _). apply IH. split; [|by rewrite Hp; apply Hs].
  intros k r Hk. destruct (decide (k = key)) as [->|Hne]; [by apply Hs1|]. rewrite Ho in Hk by done. by apply (proj1 Hs k).
Qed.

Lemma parse_responses_returns fuel now keys : forall s o,
  tame_map fuel (Responses s) ->
  exists s' o', parse_responses generate fuel now keys s o = Done (s', o') /\ tame_map fuel (Responses s') /\
    Requests s' = Requests s /\ postgresChan o' = postgresChan o.
Proof.
  induction keys as [|key keys IH]; intros s o Hs; [by eexists _, _|]. cbn [parse_responses].
  destruct (parse_response_of_returns fuel now key s o Hs) as (s1 & o1 & -> & Hs1 & Hr1 & Ho1).
  destruct (IH s1 o1 Hs1) as (s2 & o2 & E2 & Hs2 & Hr2 & Ho2). exists s2, o2. split_and!; [done..| |]; congruence.
Qed.

Lemma cleanup_requests_tame fuel cutoff s : tame_store fuel s -> tame_store fuel (cleanupStaleRequestRecords cutoff s).
Proof. intros [H1 H2]. split; [|done]. simpl. intros k r [Hr _]%map_lookup_filter_Some. by apply (H1 k). Qed.

Lemma cleanup_responses_tame fuel now cutoff s :
  tame_map fuel (Responses s) ->
  tame_map fuel (Responses (cleanupStaleResponseRecords now cutoff s)) /\
  Requests (cleanupStaleResponseRecords now cutoff s) = Requests s /\
  protocolCache (cleanupStaleResponseRecords now cutoff s) = protocolCache s.
Proof.
  intros Hs. unfold cleanupStaleResponseRecords. generalize (map_to_list (Responses s)). intros krs.
  revert s Hs. induction krs as [|[k r] krs IH]; intros s Hs; [done|]. simpl.
  destruct (_ <? cutoff); [|by apply IH].
  destruct (deleteConnectionSessions_maps now k (set_Responses (delete k (Responses s)) s)) as (Hd1 & Hd2 & _ & Hd4).
  destruct (IH (deleteConnectionSessions now k (set_Responses (delete k (Responses s)) s))) as (H1 & H2 & H3).
  { rewrite Hd2. by apply map_Forall_delete. }
  cbn [Requests protocolCache set_Responses] in Hd1, Hd4. split_and!; [done| |]; congruence.
Qed.

Lemma shouldCleanup_maps now s :
  Requests (shouldCleanup now s).2 = Requests s /\ Responses (shouldCleanup now s).2 = Responses s /\
  protocolCache (shouldCleanup now s).2 = protocolCache s.
Proof. unfold shouldCleanup. by destruct (_ <? _). Qed.

(** The cleaning that opens the second half of a tick. *)
Lemma response_cleanup fuel now s :
  tame_map fuel (Responses s) ->
  exists s', (let '(clean, s) := shouldCleanup now s in
    if clean then cleanupStaleResponseRecords now (now - recordTTL) s else s) = s' /\
  tame_map fuel (Responses s') /\ Requests s' = Requests s /\ protocolCache s' = protocolCache s.
Proof.
  intros Hs. destruct (shouldCleanup_maps now s) as (H1 & H2 & H3). destruct (shouldCleanup now s) as [clean s1].
  simpl in *. eexists. split; [done|]. destruct clean; [|by rewrite H1, H2].
  rewrite <- H2 in Hs. destruct (cleanup_responses_tame fuel now (now - recordTTL) s1 Hs) as (H4 & H5 & H6).
  split_and!; [done| |]; congruence.
Qed.

Lemma tick_tame fuel now now' keys keys' s o :
  tame_store fuel s ->
  exists s' o', tick generate fuel now now' keys keys' s o = Done (s', o') /\ tame_store fuel s'.
Proof.
  intros Hs. unfold tick, parseRequest. destruct (shouldCleanup_maps now s) as (H1 & H2 & _).
  destruct (shouldCleanup now s) as [clean s1]. simpl in H1, H2.
  assert (tame_store fuel s1) as Hs1 by (unfold tame_store; by rewrite H1, H2).
  destruct (parse_requests_returns fuel now keys
    (if clean then cleanupStaleRequestRecords (now - recordTTL) s1 else s1) o) as (s2 & o2 & -> & H3 & H4);
    [destruct clean; [by apply cleanup_requests_tame|done]|].
  cbn [mbind outcome_bind]. unfold parseResponse. destruct (response_cleanup fuel now' s2 H4) as (s3 & E & H5 & H6 & _).
  destruct (shouldCleanup now' s2) as [clean' s4]. rewrite E.
  destruct (parse_responses_returns fuel now' keys' s3 o2 H5) as (s5 & o5 & -> & H7 & H8 & _).
  eexists _, _. split; [done|]. split; [by rewrite H8, H6|done].
Qed.

(** C11. A tick returns.  The bytes of the streams may be anything, but for three
    things: what is read as a message announces no body of 2^62 bytes or more, no
    suffix starts with the size of a chunk of 2^62 bytes or more, and none starts like a
    startup message with a length below 8.  Then a tick of the parser comes to an end
    without a crash, whatever order the maps are ranged over in and whatever the expiry
    of the caches; fuel beyond the length of the longest stream is enough, and the store
    stays so. *)
Theorem tick_returns fuel now now' keys keys' s o :
  tame_store fuel s ->
  exists s' o', tick generate fuel now now' keys keys' s o = Done (s', o') /\ tame_store fuel s'.
Proof. apply tick_tame. Qed.

(** A body of about 2^63 bytes hangs the parser.  A request whose announced
    length makes the number of bytes to take wrap around, and whose body ends
    early, is parsed again and again without a byte being taken: the loop never
    ends, whatever else is in the store, and it holds the lock of the requests. *)
Theorem huge_length_hangs fuel now key r live s o req idx :
  ReadRequest (Stream r) = inr req -> Index (Stream r) HTTP1Delimiter = Some idx ->
  2 ^ 63 - 4 - Z.of_nat idx <= rq_ContentLength req < 2 ^ 63 -> lenZ (Stream r) < 2 ^ 31 ->
  fails (rq_Body req) = true -> Header_Get (rq_Header req) (str "Content-Encoding") = [] ->
  request_loop generate fuel now key ProtocolHTTP1 r live s o = OutOfFuel.
Proof.
  intros Hreq Hidx Hcl Hl Hf Henc. pose proof (Index_bound _ _ _ Hidx) as Hb.
  assert (exists n, s64 (Z.of_nat idx + HTTP1DelimiterLen + rq_ContentLength req) = n /\ n < 0) as (n & Hn & Hneg).
  { eexists. split; [done|]. unfold HTTP1DelimiterLen, s64.
    assert ((Z.of_nat idx + 4 + rq_ContentLength req + 2 ^ 63) mod 2 ^ 64 =
            Z.of_nat idx + 4 + rq_ContentLength req + 2 ^ 63 - 2 ^ 64) as ->
      by (symmetry; apply (Z.mod_unique _ _ 1); lia). lia. }
  revert r live s Hreq Hidx Hl Hb. induction fuel as [|fuel IH]; intros r live s Hreq Hidx Hl Hb; [done|].
  cbn [request_loop].
  rewrite bool_decide_eq_false_2 by (intros E; rewrite E in Hidx; by vm_compute in Hidx).
  unfold ParseRequest, HTTP1Parser.ParseRequest. rewrite Hreq, Hidx, Hn.
  rewrite (proj2 (Z.ltb_ge _ n)) by (unfold lenZ; lia). rewrite andb_false_r.
  cbn [mret outcome_ret mbind outcome_bind p_err p_consumed p_message].
  rewrite (proj2 (Z.eqb_neq n 0)) by lia. rewrite consumeRecord_nothing by lia.
  cbn [mbind outcome_bind EndOfStream set_eos].
  unfold Compress.readDecodeBytes. rewrite Henc. change (reverse (Compress.parseEncodings [])) with (@nil (list Z)).
  cbn [Compress.decode_layers]. unfold Compress.ReadAll. rewrite Hf. by apply IH.
Qed.

Section Caches.
Context `{!CacheOk CP}.

(** A startup message of less than 8 bytes crashes the collector.  When the
    first bytes of a connection read as a PostgreSQL startup message whose length
    field is below 8, cutting its parameters out of the buffer panics. *)
Theorem short_startup_crashes fuel now key r s o n a b c rest :
  Requests s !! key = Some r -> view (protocolCache s) now key = None ->
  0 <= n < 8 -> Stream r = [0; 0; 0; n; 0; 3; a; b; c] ++ rest -> byte a -> byte b ->
  parse_request_of generate fuel now key s o = Crash.
Proof.
  intros Hr Hv Hn Hs Ha Hb. unfold parse_request_of, detectProtocol. rewrite Hr.
  pose proof (get_result now key (protocolCache s)) as Hg. rewrite Hv in Hg.
  destruct (GetIfPresent now key (protocolCache s)) as [pt cache]. simpl in Hg. subst pt.
  enough (classify (Stream r) = Crash) as -> by done. unfold classify. cbv zeta.
  assert (forall p q, HasPrefix (Stream r) (p :: q) = false \/ p = 0) as Hpre.
  { intros p q. destruct (decide (p = 0)); [by right|left]. apply not_true_is_false.
    intros [t Ht]%HasPrefix_true. rewrite Hs in Ht. simpl in Ht. congruence. }
  assert (forall p, head p <> None -> head p <> Some 0 -> HasPrefix (Stream r) p = false) as Hpre'.
  { intros [|p q] H1 H2; [done|]. destruct (Hpre p q) as [?|E0]; [done|by subst]. }
  rewrite !Hpre' by done. cbn [orb].
  replace (existsb _ _) with false.
  2: { symmetry. cbn [existsb HTTP1RequestMethods fmap list_fmap]. by rewrite !Hpre'. }
  unfold PostgresParser.be32, be32_at. rewrite Hs. cbn [app rd nth Nat.add].
  assert (lenZ [0; 0; 0; n; 0; 3; a; b; c] = 9) as H9 by done.
  replace (lenZ _) with (9 + lenZ rest) by (unfold lenZ in *; simpl length; lia).
  assert (0 <= lenZ rest) by (unfold lenZ; lia).
  rewrite (proj2 (Z.ltb_lt 8 _)) by lia. cbn [andb].
  rewrite !Z.shiftl_0_l, !Z.lor_0_l. change (0 <=? _) with true.
  rewrite (proj2 (Z.leb_le n _)) by (unfold PostgresStartupMessageMaxLength; lia). cbn [andb].
  replace (Z.shiftr _ 16 =? 3) with true.
  2: { symmetry. apply Z.eqb_eq. rewrite !Z.shiftr_lor, !Z.shiftr_shiftl_r by lia. 
       rewrite !(Z.shiftr_div_pow2 _ 8), (Z.shiftr_div_pow2 _ 16) by lia. unfold byte in *.
       rewrite (Z.div_small a), (Z.div_small b) by (simpl; lia). done. }
  rewrite slice_none by lia. done.
Qed.

End Caches.

(** ** Cleaning up *)

Lemma parse_requests_frame fuel now keys : forall s o s' o',
  parse_requests generate fuel now keys s o = Done (s', o') ->
  Responses s' = Responses s /\ nextCleanup s' = nextCleanup s /\
  (forall k, Requests s !! k = None -> Requests s' !! k = None).
Proof.
  induction keys as [|key keys IH]; intros s o s' o'; [by intros [= <- <-]|]. cbn [parse_requests].
  intros ([s1 o1] & E1 & E2)%bind_Done. apply IH in E2 as (H1 & H2 & H3).
  apply parse_request_of_frame in E1 as (H4 & H5 & H6 & H7). split_and!; [congruence..|].
  intros k Hk. apply H3. destruct (decide (k = key)) as [->|]; [by rewrite H7|by rewrite H6].
Qed.

(** Stale responses are not cleaned up.  The two halves of a tick share one
    deadline.  On a tick where it has passed, the requests reset it, so stale
    request records are dropped and the response half runs without cleaning; on
    the other ticks neither cleans.  Response records are only cleaned when the
    deadline falls between the two calls of one tick. *)
Theorem response_cleanup_starved fuel now now' keys keys' s o s1 o1 :
  parseRequest generate fuel now keys s o = Done (s1, o1) ->
  now <= now' < now + cleanupInterval -> nextCleanup s <= now \/ now' < nextCleanup s ->
  parseResponse generate fuel now' keys' s1 o1 = parse_responses generate fuel now' keys' s1 o1 /\
  (nextCleanup s <= now -> forall key r, Requests s !! key = Some r ->
     LastTouched r < now - recordTTL -> Requests s1 !! key = None).
Proof.
  intros E Hnow Hdl. unfold parseRequest, shouldCleanup in E.
  assert (nextCleanup s1 = if nextCleanup s <=? now then now + cleanupInterval else nextCleanup s) as Hn1.
  { destruct (Z.leb_spec (nextCleanup s) now).
    - rewrite (proj2 (Z.ltb_ge _ _)) in E by lia. by apply parse_requests_frame in E as (_ & -> & _).
    - rewrite (proj2 (Z.ltb_lt _ _)) in E by lia. by apply parse_requests_frame in E as (_ & -> & _). }
  split.
  - unfold parseResponse, shouldCleanup. rewrite Hn1.
    replace (now' <? _) with true; [done|]. symmetry. apply Z.ltb_lt.
    destruct (Z.leb_spec (nextCleanup s) now); lia.
  - intros Hdue key r Hr Hold. rewrite (proj2 (Z.ltb_ge _ _)) in E by lia.
    apply parse_requests_frame in E as (_ & _ & H). apply H. simpl. apply map_lookup_filter_None. right.
    intros r' Hr'. rewrite Hr in Hr'. injection Hr' as <-. simpl. lia.
Qed.
End Loops.

(** ** Sessions *)

Section Sessions.
Context {L : Http2Lib} {CP : Cache SSLKey ProtocolType protocol_ttl}.
Context {CS : Cache SessionScope (list Z) sessionTTL} `{!CacheOk CS}.
Context (generate : nat -> list Z) `{!Inj (=) (=) generate}.
Implicit Types (s : SSLStore (L := L) (CP := CP) (CS := CS)) (sc : SessionScope).

(** The sessions of a store from a time on: their keys come from the sequence,
    no two scopes share one, and each is in the index of its connection. *)
Definition keys_made now s : Prop := forall t sc k, now <= t ->
  view (sessions s) t sc = Some k -> exists i, (i < generated s)%nat /\ k = generate i.

Definition keys_distinct now s : Prop := forall t sc sc' k, now <= t ->
  view (sessions s) t sc = Some k -> view (sessions s) t sc' = Some k -> sc = sc'.

Definition indexed now s : Prop := forall t sc k, now <= t ->
  view (sessions s) t sc = Some k -> sc ∈ default ∅ (sessionScopes s !! Conn sc).

Definition index_ok s : Prop := forall key X sc, sessionScopes s !! key = Some X -> sc ∈ X -> Conn sc = key.

Record sessions_ok now s : Prop := {
  ok_made : keys_made now s;
  ok_distinct : keys_distinct now s;
  ok_indexed : indexed now s;
  ok_index : index_ok s;
}.

Lemma sessions_ok_later now now' s : now <= now' -> sessions_ok now s -> sessions_ok now' s.
Proof.
  intros Hn [H1 H2 H3 H4]. split; [..|done]; intros t; intros.
  - eapply (H1 t); [lia|done].
  - eapply (H2 t); [lia|done..].
  - eapply (H3 t); [lia|done].
Qed.

Lemma new_store_ok now : sessions_ok now (NewSSLStore now).
Proof.
  split; try (intros t sc; intros; simpl in *; by rewrite view_empty in *).
  intros key X sc H. simpl in H. by rewrite lookup_empty in H.
Qed.

(** *** The index *)

Lemma index_add sc s key sc' :
  sc' ∈ default ∅ (sessionScopes (addSessionScope sc s) !! key) <->
  (key = Conn sc /\ sc' = sc) \/ sc' ∈ default ∅ (sessionScopes s !! key).
Proof.
  unfold addSessionScope. simpl. destruct (decide (key = Conn sc)) as [->|Hne].
  - rewrite lookup_insert_eq. simpl. set_solver.
  - rewrite lookup_insert_ne by done. set_solver.
Qed.

Lemma index_remove sc s key sc' :
  sc' ∈ default ∅ (sessionScopes (removeSessionScope sc s) !! key) <->
  ~ (key = Conn sc /\ sc' = sc) /\ sc' ∈ default ∅ (sessionScopes s !! key).
Proof.
  unfold removeSessionScope. destruct (sessionScopes s !! Conn sc) as [X|] eqn:E.
  - case_decide as HX; simpl; (destruct (decide (key = Conn sc)) as [->|Hne];
      [rewrite ?lookup_delete_eq, ?lookup_insert_eq, ?E|rewrite ?lookup_delete_ne, ?lookup_insert_ne by done]);
      simpl; set_solver.
  - destruct (decide (key = Conn sc)) as [->|Hne]; [rewrite E|]; set_solver.
Qed.

Lemma index_ok_alt s :
  index_ok s <-> forall key sc, sc ∈ default ∅ (sessionScopes s !! key) -> Conn sc = key.
Proof.
  unfold index_ok. split.
  - intros H key sc Hsc. destruct (sessionScopes s !! key) as [X|] eqn:E; [by eapply H|set_solver].
  - intros H key X sc HX Hsc. apply H. by rewrite HX.
Qed.

Lemma removeSessionScope_sessions sc s :
  sessions (removeSessionScope sc s) = sessions s /\ generated (removeSessionScope sc s) = generated s.
Proof. unfold removeSessionScope. by repeat case_match. Qed.

(** *** Making and releasing keys *)

Lemma ensure_found now sc s k :
  view (sessions s) now sc = Some k ->
  (ensureSessionKey generate now sc s).1 = k /\
  sessions (ensureSessionKey generate now sc s).2 = (GetIfPresent now sc (sessions s)).2 /\
  sessionScopes (ensureSessionKey generate now sc s).2 = sessionScopes s /\
  generated (ensureSessionKey generate now sc s).2 = generated s.
Proof.
  intros Hv. unfold ensureSessionKey. pose proof (get_result now sc (sessions s)) as Hg. rewrite Hv in Hg.
  destruct (GetIfPresent now sc (sessions s)) as [o c]. simpl in Hg. by subst.
Qed.

Lemma ensure_made now sc s :
  view (sessions s) now sc = None ->
  (ensureSessionKey generate now sc s).1 = generate (generated s) /\
  sessions (ensureSessionKey generate now sc s).2 =
    Set_ now sc (generate (generated s)) (GetIfPresent now sc (sessions s)).2 /\
  generated (ensureSessionKey generate now sc s).2 = S (generated s) /\
  forall key sc', sc' ∈ default ∅ (sessionScopes (ensureSessionKey generate now sc s).2 !! key) <->
    (key = Conn sc /\ sc' = sc) \/ sc' ∈ default ∅ (sessionScopes s !! key).
Proof.
  intros Hv. unfold ensureSessionKey. pose proof (get_result now sc (sessions s)) as Hg. rewrite Hv in Hg.
  destruct (GetIfPresent now sc (sessions s)) as [o c]. simpl in Hg. subst.
  split_and!; [done..|]. intros key sc'. etrans; [apply (index_add sc)|done].
Qed.

Lemma view_get now t sc sc' s k :
  now <= t -> view (GetIfPresent now sc (sessions s)).2 t sc' = Some k ->
  view (sessions s) now sc' = Some k.
Proof.
  intros Ht Hv. destruct (decide (sc = sc')) as [->|Hne].
  - by eapply get_only.
  - rewrite get_other in Hv by done. by eapply view_later.
Qed.

Lemma ensure_ok now sc s :
  sessions_ok now s -> sessions_ok now (ensureSessionKey generate now sc s).2.
Proof.
  intros [H1 H2 H3 H4]. rewrite index_ok_alt in H4.
  destruct (view (sessions s) now sc) as [k|] eqn:Hv.
  - destruct (ensure_found now sc s k Hv) as (_ & Hs & Hi & Hg).
    split; [..|by intros key X sc'; rewrite Hi; intros HX Hsc; apply H4; rewrite HX];
      intros t sc1; intros; rewrite ?Hs, ?Hi, ?Hg in *.
    + eapply H1; [|by eapply view_get]. lia.
    + eapply H2; [|by eapply view_get..]. lia.
    + eapply H3; [|by eapply view_get]. lia.
  - destruct (ensure_made now sc s Hv) as (_ & Hs & Hg & Hi).
    assert (forall t sc' k, now <= t ->
      view (sessions (ensureSessionKey generate now sc s).2) t sc' = Some k ->
      (sc' = sc /\ k = generate (generated s)) \/ (sc' <> sc /\ view (sessions s) now sc' = Some k)) as Hview.
    { intros t sc' k Ht. rewrite Hs. destruct (decide (sc = sc')) as [->|Hne].
      - intros Hk. left. split; [done|]. by eapply set_only.
      - rewrite set_other by done. intros Hk. right. split; [done|]. by eapply view_get. }
    split.
    + intros t sc' k Ht Hk. rewrite Hg. destruct (Hview t sc' k Ht Hk) as [[-> ->]|[_ Hk']]; [exists (generated s); split; [lia|done]|].
      destruct (H1 now sc' k) as (i & Hi' & ->); [lia|done|]. exists i. split; [lia|done].
    + intros t sc1 sc2 k Ht Hk1 Hk2.
      destruct (Hview t sc1 k Ht Hk1) as [[-> Hk]|[_ Hv1]], (Hview t sc2 k Ht Hk2) as [[-> Hk']|[_ Hv2]]; [done|..].
      * destruct (H1 now sc2 k) as (i & Hi' & ->); [lia|done|]. apply (inj generate) in Hk. lia.
      * destruct (H1 now sc1 k) as (i & Hi' & ->); [lia|done|]. apply (inj generate) in Hk'. lia.
      * eapply H2; [|done..]. lia.
    + intros t sc' k Ht Hk. apply Hi. destruct (Hview t sc' k Ht Hk) as [[-> _]|[_ Hv']]; [by left|right].
      eapply H3; [|done]. lia.
    + apply index_ok_alt. intros key sc' [[-> ->]|Hin]%Hi; [done|by apply H4].
Qed.

Lemma delete_view sc t sc' s :
  view (sessions (deleteSessionKey sc s)) t sc' =
  if decide (sc' = sc) then None else view (sessions s) t sc'.
Proof.
  unfold deleteSessionKey. rewrite (proj1 (removeSessionScope_sessions _ _)). simpl.
  case_decide; subst; [by rewrite invalidate_self|by rewrite invalidate_other].
Qed.

Lemma delete_ok now sc s : sessions_ok now s -> sessions_ok now (deleteSessionKey sc s).
Proof.
  intros [H1 H2 H3 H4]. rewrite index_ok_alt in H4. split.
  - intros t sc' k Ht. rewrite delete_view. case_decide; [done|]. intros Hk.
    unfold deleteSessionKey. rewrite (proj2 (removeSessionScope_sessions _ _)). by eapply H1.
  - intros t sc1 sc2 k Ht. rewrite !delete_view. do 2 case_decide; try done. by eapply H2.
  - intros t sc' k Ht. rewrite delete_view. case_decide as Hne; [done|]. intros Hk.
    unfold deleteSessionKey. apply index_remove. simpl. split; [naive_solver|by eapply H3].
  - apply index_ok_alt. intros key sc'. unfold deleteSessionKey. intros [_ Hin]%index_remove. by apply H4.
Qed.

(** *** Closing a connection *)

Lemma live_scopes_spec now scs : forall c live c',
  live_scopes now scs c = (live, c') -> NoDup scs ->
  (forall sc, sc ∈ live <-> sc ∈ scs /\ is_Some (view c now sc)) /\
  (forall t sc, sc ∉ scs -> view c' t sc = view c t sc) /\
  (forall t sc k, now <= t -> sc ∈ scs -> view c' t sc = Some k -> view c now sc = Some k).
Proof.
  induction scs as [|x scs IH]; intros c live c' E Hnd; cbn [live_scopes] in E.
  { injection E as <- <-. split_and!; [set_solver|done|set_solver]. }
  apply NoDup_cons in Hnd as [Hx Hnd].
  pose proof (get_result now x c) as Hg. pose proof (fun t sc => get_other now t x sc c) as Ho.
  pose proof (fun t k => get_only now t x c k) as Hself.
  destruct (GetIfPresent now x c) as [o c1]. simpl in Hg, Ho, Hself.
  destruct (live_scopes now scs c1) as [live1 c2] eqn:E1. injection E as <- <-.
  destruct (IH _ _ _ E1 Hnd) as (H1 & H2 & H3). split_and!.
  - intros sc. assert (sc ∈ live1 <-> sc ∈ scs /\ is_Some (view c now sc)) as Hl.
    { rewrite H1. destruct (decide (x = sc)) as [->|]; [naive_solver|by rewrite Ho]. }
    destruct o as [k|]; rewrite ?elem_of_cons, Hl; subst; [|split; [naive_solver|]].
    + split; [intros [->|?]; [rewrite <- Hg; naive_solver|naive_solver]|naive_solver].
    + intros [[->|?] Hs]; [by rewrite <- Hg in Hs; destruct Hs|done].
  - intros t sc Hsc. apply not_elem_of_cons in Hsc as [Hne Hsc]. by rewrite H2, Ho.
  - intros t sc k Ht Hsc Hk. apply elem_of_cons in Hsc as [->|Hsc].
    + rewrite H2 in Hk by done. by eapply Hself.
    + apply H3 in Hk; [|done..]. destruct (decide (x = sc)) as [->|]; [done|by rewrite Ho in Hk].
Qed.

Lemma delete_all_view scs : forall s t sc,
  view (sessions (foldl (fun s sc => deleteSessionKey sc s) s scs)) t sc =
  if decide (sc ∈ scs) then None else view (sessions s) t sc.
Proof.
  induction scs as [|x scs IH]; intros s t sc; simpl; [done|].
  rewrite IH, delete_view. repeat case_decide; set_solver.
Qed.

Lemma delete_all_index scs : forall s key sc,
  sc ∈ default ∅ (sessionScopes (foldl (fun s sc => deleteSessionKey sc s) s scs) !! key) <->
  ~ (key = Conn sc /\ sc ∈ scs) /\ sc ∈ default ∅ (sessionScopes s !! key).
Proof.
  induction scs as [|x scs IH]; intros s key sc; simpl; [set_solver|].
  rewrite IH. unfold deleteSessionKey. rewrite index_remove. simpl. rewrite elem_of_cons. naive_solver.
Qed.

Lemma delete_all_ok now scs : forall s,
  sessions_ok now s -> sessions_ok now (foldl (fun s sc => deleteSessionKey sc s) s scs).
Proof. induction scs as [|x scs IH]; intros s Hs; simpl; [done|]. by apply IH, delete_ok. Qed.

(** What [sessionScopesForConn] finds and drops. *)
Lemma scopes_for_conn now key s scs s' :
  sessions_ok now s -> sessionScopesForConn now key s = (scs, s') ->
  sessions_ok now s' /\
  (forall t sc k, now <= t -> Conn sc = key -> view (sessions s') t sc = Some k -> sc ∈ scs) /\
  (forall t sc, Conn sc <> key -> view (sessions s') t sc = view (sessions s) t sc) /\
  (forall sc, sc ∈ scs -> Conn sc = key) /\
  (forall sc, sc ∈ default ∅ (sessionScopes s' !! key) <-> sc ∈ scs) /\
  (forall key', key' <> key -> sessionScopes s' !! key' = sessionScopes s !! key').
Proof.
  intros [H1 H2 H3 H4]. unfold sessionScopesForConn.
  destruct (sessionScopes s !! key) as [X|] eqn:EX.
  2: { intros [= <- <-]. split_and!; [done| |done|set_solver| |done].
    - intros t sc k Ht <- Hk. specialize (H3 t sc k Ht Hk). rewrite EX in H3. set_solver.
    - intros sc. rewrite EX. set_solver. }
  destruct (live_scopes now (elements X) (sessions s)) as [live c] eqn:El.
  destruct (live_scopes_spec _ _ _ _ _ El (NoDup_elements X)) as (Hlive & Hout & Hin).
  intros E. assert (scs = live /\ sessions s' = c /\ generated s' = generated s /\
    (forall sc, sc ∈ default ∅ (sessionScopes s' !! key) <-> sc ∈ live) /\
    (forall key', key' <> key -> sessionScopes s' !! key' = sessionScopes s !! key'))
    as (-> & Hs & Hg & Hi & Ho).
  { case_decide as Hl; injection E as <- <-; simpl; split_and!; try done.
    - intros sc. rewrite lookup_delete_eq, Hl. set_solver.
    - intros key' Hne. by rewrite lookup_delete_ne.
    - intros sc. rewrite lookup_insert_eq. simpl. by rewrite elem_of_list_to_set.
    - intros key' Hne. by rewrite lookup_insert_ne. }
  assert (forall t sc k, now <= t -> view c t sc = Some k -> view (sessions s) now sc = Some k) as Hback.
  { intros t sc k Ht Hk. destruct (decide (sc ∈ elements X)); [by eapply Hin|].
    rewrite Hout in Hk by done. by eapply view_later. }
  assert (forall t sc k, now <= t -> Conn sc = key -> view c t sc = Some k -> sc ∈ live) as Hfound.
  { intros t sc k Ht <- Hk. apply Hback in Hk; [|done]. apply Hlive. split; [|by eexists].
    specialize (H3 now sc k ltac:(lia) Hk). rewrite EX in H3. by apply elem_of_elements. }
  assert (forall sc, sc ∈ live -> Conn sc = key) as Hconn.
  { intros sc [Hsc%elem_of_elements _]%Hlive. by eapply H4. }
  split_and!; [|by rewrite Hs| |done..].
  - split.
    + intros t sc k Ht. rewrite Hs, Hg. intros Hk. eapply H1; [|by eapply Hback]. lia.
    + intros t sc1 sc2 k Ht. rewrite Hs. intros Hk1 Hk2. eapply H2; [|by eapply Hback..]. lia.
    + intros t sc k Ht. rewrite Hs. intros Hk. destruct (decide (Conn sc = key)) as [Hc|Hc].
      * rewrite Hc. apply Hi. by eapply Hfound.
      * rewrite Ho by done. eapply H3; [|by eapply Hback]. lia.
    + apply index_ok_alt. intros key' sc. destruct (decide (key' = key)) as [->|Hne].
      * rewrite Hi. apply Hconn.
      * rewrite Ho by done. by apply index_ok_alt.
  - intros t sc Hc. rewrite Hs. apply Hout. intros Hsc%elem_of_elements. apply Hc. by eapply H4.
Qed.

Lemma close_connection_spec now key s :
  sessions_ok now s ->
  sessions_ok now (deleteConnectionSessions now key s) /\
  (forall t sc, now <= t -> Conn sc = key -> view (sessions (deleteConnectionSessions now key s)) t sc = None) /\
  (forall t sc, Conn sc <> key ->
     view (sessions (deleteConnectionSessions now key s)) t sc = view (sessions s) t sc) /\
  (forall sc key', sc ∈ default ∅ (sessionScopes (deleteConnectionSessions now key s) !! key') <->
     key' <> key /\ sc ∈ default ∅ (sessionScopes s !! key')).
Proof.
  intros Hs. unfold deleteConnectionSessions.
  destruct (sessionScopesForConn now key s) as [scs s1] eqn:E.
  destruct (scopes_for_conn now key s scs s1 Hs E) as (H1 & H2 & H3 & H4 & H5 & H6). split_and!.
  - by apply delete_all_ok.
  - intros t sc Ht Hc. rewrite delete_all_view. case_decide as Hin; [done|].
    destruct (view (sessions s1) t sc) eqn:Ev; [|done]. exfalso. eauto.
  - intros t sc Hc. rewrite delete_all_view, H3 by done. case_decide as Hin; [|done]. by apply H4 in Hin.
  - intros sc key'. rewrite delete_all_index. destruct (decide (key' = key)) as [->|Hne].
    + rewrite H5. split; [|naive_solver]. intros [Hn Hin]. destruct Hn. split; [|done]. symmetry. by apply H4.
    + rewrite H6 by done. split; [naive_solver|]. intros [_ Hin]. split; [|done]. intros [-> Hsc]. by apply H4 in Hsc.
Qed.

(** Closing a connection forgets its sessions and no others.  From then on
    no stream of the connection has a session key, the sessions of the other
    connections are as before, and the index lists exactly those. *)
Theorem connection_sessions_forgotten now key s :
  sessions_ok now s ->
  sessions_ok now (deleteConnectionSessions now key s) /\
  (forall t sc, now <= t -> Conn sc = key -> view (sessions (deleteConnectionSessions now key s)) t sc = None) /\
  (forall t sc, Conn sc <> key ->
     view (sessions (deleteConnectionSessions now key s)) t sc = view (sessions s) t sc) /\
  (forall sc key', sc ∈ default ∅ (sessionScopes (deleteConnectionSessions now key s) !! key') <->
     key' <> key /\ sc ∈ default ∅ (sessionScopes s !! key')).
Proof. apply close_connection_spec. Qed.

(** *** Sequences *)

(** What happens to the sessions: a message is sent, an exchange ends, a
    connection is closed. *)
Inductive session_op := Ensure (t : Z) (sc : SessionScope) | Release (sc : SessionScope) | Close (t : Z) (key : SSLKey).

Definition session_step (op : session_op) s : SSLStore :=
  match op with
  | Ensure t sc => (ensureSessionKey generate t sc s).2
  | Release sc => deleteSessionKey sc s
  | Close t key => deleteConnectionSessions t key s
  end.

(** The operation is at [now] or later but not after [t], and not on [sc]. *)
Definition apart_from (sc : SessionScope) (now t : Z) (op : session_op) : Prop :=
  match op with
  | Ensure t' sc' => now <= t' <= t /\ sc' <> sc
  | Release sc' => sc' <> sc
  | Close t' key => now <= t' <= t /\ key <> Conn sc
  end.

(** The time of an operation; a release takes none. *)
Definition op_time (now : Z) (op : session_op) : Z :=
  match op with Ensure t _ | Close t _ => t | Release _ => now end.

(** Operations in the order of their times. *)
Inductive in_order : Z -> list session_op -> Prop :=
  | in_order_nil now : in_order now []
  | in_order_cons now op ops : now <= op_time now op -> in_order (op_time now op) ops -> in_order now (op :: ops).

Lemma session_step_apart now t sc op s k :
  sessions_ok now s -> now <= op_time now op -> apart_from sc now t op ->
  sessions_ok (op_time now op) (session_step op s) /\
  (view (sessions s) t sc = Some k -> now <= t -> view (sessions (session_step op s)) t sc = Some k).
Proof.
  intros Hs Hn Ha. destruct op as [t' sc'|sc'|t' key]; simpl in *.
  - apply (sessions_ok_later now t') in Hs; [|lia]. split; [by apply ensure_ok|]. intros Hk Ht.
    destruct (view (sessions s) t' sc') as [k'|] eqn:Hv.
    + destruct (ensure_found t' sc' s k' Hv) as (_ & -> & _). by rewrite get_other by naive_solver.
    + destruct (ensure_made t' sc' s Hv) as (_ & -> & _). by rewrite set_other, get_other by naive_solver.
  - split; [by apply delete_ok|]. intros Hk _. rewrite delete_view. by rewrite decide_False by done.
  - apply (sessions_ok_later now t') in Hs; [|lia]. destruct (close_connection_spec t' key s Hs) as (H1 & _ & H3 & _).
    split; [done|]. intros Hk _. by rewrite H3 by naive_solver.
Qed.

Lemma session_ops_apart t1 t2 sc k ops :
  Forall (apart_from sc t1 t2) ops -> forall t s,
  t1 <= t -> t <= t2 -> in_order t ops -> sessions_ok t s -> view (sessions s) t2 sc = Some k ->
  let s' := foldl (fun s op => session_step op s) s ops in
  exists t', t' <= t2 /\ sessions_ok t' s' /\ view (sessions s') t2 sc = Some k.
Proof.
  induction 1 as [|op ops Hop _ IH]; intros t s Hlow Hhigh Hord Hok Hk; [by exists t|]. simpl.
  inversion Hord; subst.
  assert (apart_from sc t t2 op) as Hop' by (destruct op; simpl in *; intuition lia).
  destruct (session_step_apart t t2 sc op s k) as [H1 H2']; [done..|].
  apply (IH (op_time t op)); [lia| |done|done|by apply H2'].
  destruct op; simpl in *; lia.
Qed.

End Sessions.

(** ** PostgreSQL statements *)

Section Statements.
Context {N : NetHttp} {C : Codec} {L : Http2Lib} `{!Http2LibOk L}.
Context {CP : Cache SSLKey ProtocolType protocol_ttl} `{!CacheOk CP}.
Context {CS : Cache SessionScope (list Z) sessionTTL}.
Context (generate : nat -> list Z).
Implicit Types (r : SSLRecord) (s : SSLStore (L := L) (CP := CP) (CS := CS)).

(** A frontend message: its tag and body, and its bytes. *)
Definition message : Type := Z * list Z.

Definition pg_bytes (m : message) : list Z := m.1 :: be32 (lenZ m.2 + 4) ++ m.2.

Definition pg_stream (ms : list message) : list Z := concat (pg_bytes <$> ms).

Definition is_useful (m : message) : bool := PostgresParser.useful m.1.

Lemma pg_bytes_length m : lenZ (pg_bytes m) = lenZ m.2 + 5.
Proof. unfold lenZ, pg_bytes, be32. cbn [app length]. lia. Qed.

Lemma pg_stream_cons m ms : pg_stream (m :: ms) = pg_bytes m ++ pg_stream ms.
Proof. done. Qed.

Lemma pg_bytes_nonnil m rest : pg_bytes m ++ rest <> [].
Proof. done. Qed.

(** The next statement is read whatever follows it. *)
Lemma statement_read r m rest :
  Stream r = pg_bytes m ++ rest -> lenZ (Stream r) < 2 ^ 31 ->
  PostgresParser.parsePostgresStatement r = Done (Some m.2, m.1, lenZ m.2 + 5, r).
Proof.
  intros Hs Hl. destruct m as [tag body]. cbn [fst snd]. unfold PostgresParser.parsePostgresStatement.
  assert (lenZ (Stream r) = lenZ body + 5 + lenZ rest) as Hlen.
  { rewrite Hs. unfold lenZ at 1. rewrite length_app, Nat2Z.inj_add. fold (lenZ (pg_bytes (tag, body))).
    by rewrite pg_bytes_length. }
  assert (0 <= lenZ body /\ 0 <= lenZ rest) as [? ?] by (unfold lenZ; lia).
  rewrite (proj2 (Z.ltb_ge _ 5)) by lia.
  assert (PostgresParser.be32 (Stream r) 1 = lenZ body + 4) as ->.
  { unfold PostgresParser.be32. rewrite Hs. unfold pg_bytes. cbn [fst snd app]. rewrite <- app_assoc.
    apply (be32_at_be32 [tag]). lia. }
  rewrite (proj2 (Z.ltb_ge _ 4)), (u32_small (_ - 1)), (proj2 (Z.ltb_ge _ _)) by lia. cbn [orb].
  replace (lenZ body + 4 + 1) with (lenZ body + 5) by lia. rewrite u32_small by lia.
  replace (rd (Stream r) 0) with tag by (by rewrite Hs).
  rewrite slice_some by (unfold lenZ in *; lia).
  replace (take _ _) with body; [done|]. rewrite Hs. unfold pg_bytes, be32. cbn [fst snd app].
  replace (Z.to_nat (lenZ body + 5 - 5)) with (length body) by (unfold lenZ; lia).
  change (Z.to_nat 5) with 5%nat. cbn [skipn].
  by rewrite drop_0, take_app_length.
Qed.

(** The record of a statement of the connection. *)
Definition belongs (key : SSLKey) (raw : RawPostgres) : Prop :=
  pg_PidTGid raw = PidTgid key /\ pg_UidGid raw = UidGid key /\ pg_CgroupID raw = CgroupID key.

Definition statement_record (key : SSLKey) (m : message) (raw : RawPostgres) : Prop :=
  pg_MsgType raw = [m.1] /\ pg_Data raw = m.2 /\ belongs key raw.

(** One step of the loop on a stream of statements. *)
Lemma pg_loop_step fuel now key r live s o m ms :
  covered r -> lenZ (Stream r) < 2 ^ 31 -> Stream r = pg_stream (m :: ms) ->
  exists r', covered r' /\ lenZ (Stream r') < 2 ^ 31 /\ Stream r' = pg_stream ms /\
  LastTouched r' = LastTouched r /\
  if is_useful m then
    exists raw, statement_record key m raw /\
    request_loop generate (S fuel) now key ProtocolPostgres r live s o =
    Done (r', live && bool_decide (ms <> []), s, on_postgresChan (Channel.offer raw) o)
  else
    request_loop generate (S fuel) now key ProtocolPostgres r live s o =
    request_loop generate fuel now key ProtocolPostgres r' (live && bool_decide (ms <> [])) s o.
Proof.
  intros Hc Hl Hs. rewrite pg_stream_cons in Hs. pose proof (pg_bytes_length m) as Hm.
  assert (0 <= lenZ m.2) as Hm0 by (unfold lenZ; lia).
  assert (Stream r <> []) as Hne by (rewrite Hs; apply pg_bytes_nonnil).
  destruct (consumeRecord_covered (set_eos true r) (lenZ m.2 + 5)) as (i & all & r1 & Hr1 & _ & Hs1 & Hc1 & Hall & _ & He1 & _ & Ht1);
    [done|done|lia|]. cbn [Stream set_eos] in Hs1, Hall.
  assert (Stream r1 = pg_stream ms) as Hrest.
  { rewrite Hs1, Hs. apply drop_app_length'. unfold lenZ in *. lia. }
  assert (all = negb (bool_decide (ms <> []))) as ->.
  { rewrite Hall, Hs. unfold lenZ in *. rewrite length_app. destruct ms as [|m' ms].
    - rewrite bool_decide_eq_false_2 by (by intros []). apply Z.leb_le. simpl. lia.
    - rewrite bool_decide_eq_true_2 by done. apply Z.leb_gt. rewrite pg_stream_cons. simpl. lia. }
  exists (if is_useful m then set_resp None (set_eos false r1) else set_eos false r1).
  assert (lenZ (Stream r1) < 2 ^ 31) as Hl1.
  { rewrite Hs1. unfold lenZ in *. rewrite length_drop. lia. }
  split_and!; [by destruct (is_useful m)..|]. cbn [request_loop].
  rewrite bool_decide_eq_false_2 by done. cbn [ParseRequest]. unfold PostgresParser.ParseRequest.
  rewrite (statement_read r m (pg_stream ms)) by done. cbn [mbind outcome_bind mret outcome_ret p_err p_consumed p_message].
  rewrite (proj2 (Z.eqb_neq _ 0)) by lia. rewrite Hr1. cbn [mbind outcome_bind].
  rewrite He1. cbn [EndOfStream set_eos]. rewrite (bool_decide_eq_true_2 (ProtocolPostgres <> _)) by done.
  rewrite !andb_true_r, negb_involutive. unfold is_useful. destruct (PostgresParser.useful m.1) eqn:Hu; [|done].
  cbn [rq_Body rq_Header]. change (Header_Get ∅ (str "Content-Encoding")) with (@nil Z).
  change (Compress.readDecodeBytes (Body m.2 false) []) with (Some m.2).
  unfold send_request. cbn [rq_Proto]. rewrite decide_True by done. eexists. split; [|done].
  assert (m.1 < 128).
  { apply bool_decide_eq_true in Hu. revert Hu. unfold str. simpl. rewrite !elem_of_cons.
    intros [E|[E|[E|[E|[]%elem_of_nil]]]]; lia. }
  repeat split. cbn [pg_MsgType rq_Method]. unfold Pg.string_of_byte. by rewrite (proj2 (Z.ltb_lt _ _)).
Qed.

(** A tick delivers the next statement the collector is interested in. *)
Lemma pg_loop_next now key s o ms : forall fuel r live,
  covered r -> lenZ (Stream r) < 2 ^ 31 -> Stream r = pg_stream ms -> (length ms < fuel)%nat ->
  match List.filter is_useful ms with
  | [] => exists r', request_loop generate fuel now key ProtocolPostgres r live s o =
      Done (r', live && bool_decide (ms = []), s, o) /\ (ms = [] -> r' = r)
  | m :: later => exists r' raw ms', statement_record key m raw /\
      request_loop generate fuel now key ProtocolPostgres r live s o =
      Done (r', live && bool_decide (ms' <> []), s, on_postgresChan (Channel.offer raw) o) /\
      covered r' /\ lenZ (Stream r') < 2 ^ 31 /\ Stream r' = pg_stream ms' /\ LastTouched r' = LastTouched r /\
      later = List.filter is_useful ms' /\ (length ms' < length ms)%nat
  end.
Proof.
  induction ms as [|m ms IH]; intros fuel r live Hc Hl Hs Hf; (destruct fuel as [|fuel]; [simpl in Hf; lia|]).
  { exists r. cbn [request_loop List.filter]. rewrite bool_decide_eq_true_2 by done. by rewrite andb_true_r. }
  destruct (pg_loop_step fuel now key r live s o m ms Hc Hl Hs) as (r1 & Hc1 & Hl1 & Hs1 & Ht1 & Hstep).
  cbn [List.filter]. destruct (is_useful m).
  { destruct Hstep as (raw & Hraw & Hstep). exists r1, raw, ms. split_and!; try done. simpl. lia. }
  rewrite Hstep. cbn [length] in Hf.
  specialize (IH fuel r1 (live && bool_decide (ms <> [])) Hc1 Hl1 Hs1 ltac:(lia)).
  destruct (List.filter is_useful ms) as [|m' later] eqn:Ef.
  - destruct IH as (r' & -> & _). exists r'. split; [|done].
    replace (live && bool_decide (ms <> []) && _) with (live && bool_decide (m :: ms = [])); [done|].
    by destruct live, ms.
  - destruct IH as (r' & raw & ms' & Hraw & -> & Hc' & Hl' & Hs' & Ht' & Hl2 & Hlt). exists r', raw, ms'.
    split_and!; [done| |done..|congruence|done|simpl; lia].
    rewrite (bool_decide_eq_true_2 (ms <> [])) by (by intros ->). by rewrite andb_true_r.
Qed.

(** ** Ticks of the whole store *)

(** The channel has room for [n] records. *)
Definition room (n : nat) (o : channels) : Prop :=
  (length (Channel.queue (postgresChan o)) + n <= Channel.ExportChannelSize)%nat.

(** Records that came into the channel, each with the connection it belongs to. *)
Definition delivers (P : SSLKey -> Prop) (n : nat) (o o' : channels) (news : list (SSLKey * RawPostgres)) : Prop :=
  Channel.queue (postgresChan o') = Channel.queue (postgresChan o) ++ news.*2 /\
  (length news <= n)%nat /\ Forall (fun x => P x.1 /\ belongs x.1 x.2) news.

Lemma delivers_nothing P n o o' : postgresChan o' = postgresChan o -> delivers P n o o' [].
Proof. intros E. split_and!; [by rewrite E, app_nil_r|simpl; lia|done]. Qed.

Lemma delivers_app P n n' o o1 o2 news news' :
  delivers P n o o1 news -> delivers P n' o1 o2 news' -> delivers P (n + n') o o2 (news ++ news').
Proof.
  intros (H1 & H2 & H3) (H4 & H5 & H6). split_and!; [|rewrite length_app; lia|by apply Forall_app].
  by rewrite H4, H1, fmap_app, app_assoc.
Qed.

Lemma delivers_weaken (P Q : SSLKey -> Prop) n n' o o' news :
  (forall k, P k -> Q k) -> (n <= n')%nat -> delivers P n o o' news -> delivers Q n' o o' news.
Proof. intros HP Hn (H1 & H2 & H3). split_and!; [done|lia|]. eapply Forall_impl; [exact H3|]. naive_solver. Qed.

Lemma delivers_room P n n' o o' news : delivers P n o o' news -> room (n + n') o -> room n' o'.
Proof. unfold room. intros (H1 & H2 & _) H. rewrite H1, length_app, length_fmap. lia. Qed.

Lemma offer_delivers key raw o :
  belongs key raw -> room 1 o -> delivers (eq key) 1 o (on_postgresChan (Channel.offer raw) o) [(key, raw)].
Proof.
  intros Hb Hr. split_and!; [|simpl; lia|by apply Forall_singleton].
  unfold room in Hr. cbn [postgresChan on_postgresChan]. unfold Channel.offer. by rewrite (proj2 (Nat.ltb_lt _ _)) by lia.
Qed.

(** A connection delivers at most one record, its own. *)
Lemma request_of_delivers fuel now key s o s' o' :
  parse_request_of generate fuel now key s o = Done (s', o') -> room 1 o ->
  exists news, delivers (eq key) 1 o o' news.
Proof.
  unfold parse_request_of. intros E Hroom.
  destruct (Requests s !! key) as [r|]; [|injection E as <- <-; exists []; by apply delivers_nothing].
  apply bind_Done in E as ([[pt r1] s1] & _ & E).
  case_decide; [injection E as <- <-; exists []; by apply delivers_nothing|].
  apply bind_Done in E as ([[[r2 live] s2] o2] & E2 & E3). injection E3 as <- <-.
  apply request_loop_sends in E2 as [E2|(sid & n & ts & comm & req & body & E2)];
    [injection E2 as -> ->; exists []; by apply delivers_nothing|].
  unfold send_request in E2. case_decide.
  - injection E2 as -> ->. eexists. by apply offer_delivers.
  - destruct (ensureSessionKey _ _ _ _). injection E2 as -> ->. exists []. by apply delivers_nothing.
Qed.

(** A connection does not change what the cache holds for another one. *)
Lemma detectProtocol_other now k key r s pt r' s' t :
  k <> key -> detectProtocol now k r s = Done (pt, r', s') ->
  view (protocolCache s') t key = view (protocolCache s) t key.
Proof.
  intros Hk. unfold detectProtocol. pose proof (get_other now t k key (protocolCache s) Hk) as Hg.
  destruct (GetIfPresent _ _ _) as [[p|] c]; [by intros [= <- <- <-]|].
  intros ([[p rem] n] & _ & E)%bind_Done. injection E as <- <- <-. destruct rem; [|done].
  simpl. by rewrite set_other.
Qed.

Lemma detectProtocol_known now key r s pt :
  view (protocolCache s) now key = Some pt ->
  detectProtocol now key r s = Done (pt, r, set_protocols (GetIfPresent now key (protocolCache s)).2 s).
Proof.
  intros Hv. unfold detectProtocol. pose proof (get_result now key (protocolCache s)) as Hg. rewrite Hv in Hg.
  by destruct (GetIfPresent _ _ _) as [p c]; simpl in Hg; subst p.
Qed.

Lemma parse_request_of_other fuel now k key s o s' o' t :
  k <> key -> parse_request_of generate fuel now k s o = Done (s', o') ->
  view (protocolCache s') t key = view (protocolCache s) t key.
Proof.
  intros Hk. unfold parse_request_of. destruct (Requests s !! k) as [r|]; [|by intros [= <- <-]].
  intros ([[pt r1] s1] & E1 & E)%bind_Done. apply (detectProtocol_other _ _ key _ _ _ _ _ t) in E1; [|done].
  case_decide; [by injection E as <- <-|]. apply bind_Done in E as ([[[r2 live] s2] o2] & E2 & E3).
  injection E3 as <- <-. apply request_loop_maps in E2 as (_ & _ & _ & E2). simpl. by rewrite E2.
Qed.

Lemma parse_response_of_view fuel now k key s o s' o' :
  parse_response_of generate fuel now k s o = Done (s', o') ->
  protocolCache s' = protocolCache s \/
  (k <> key /\ forall t, view (protocolCache s') t key = view (protocolCache s) t key) \/
  (k = key /\ forall pt, view (protocolCache s) now key = Some pt ->
   protocolCache s' = (GetIfPresent now key (protocolCache s)).2).
Proof.
  unfold parse_response_of. destruct (Responses s !! k) as [r|]; [|intros [= <- <-]; by left].
  intros ([[pt r1] s1] & E1 & E)%bind_Done. right.
  assert (protocolCache s' = protocolCache s1) as ->.
  { case_decide.
    - injection E as <- <-. by destruct (deleteConnectionSessions_maps now k
        (set_Responses (delete k (Responses s1)) s1)) as (_ & _ & _ & ->).
    - apply bind_Done in E as ([[[r2 live] s2] o2] & E2 & E3). injection E3 as <- <-.
      by apply response_loop_maps in E2 as ((_ & _ & _ & E2) & _). }
  destruct (decide (k = key)) as [->|Hk]; [right|left]; (split; [done|]).
  - intros p Hv. rewrite (detectProtocol_known _ _ _ _ p Hv) in E1. by injection E1 as <- <- <-.
  - intros t. by apply (detectProtocol_other _ _ key _ _ _ _ _ t) in E1.
Qed.

Section Connection.
Variables (key : SSLKey) (fuel : nat) (limit : Z).

(** The other connections hold anything the parsers can deal with, and the connection
    is known to speak PostgreSQL. *)
Definition ready (t : Z) s : Prop :=
  tame_map fuel (delete key (Requests s)) /\ tame_map fuel (Responses s) /\
  (forall t', t <= t' <= limit -> view (protocolCache s) t' key = Some ProtocolPostgres) /\
  limit < t + 180 * minute.

(** What is left of the connection is [ms]; its record is not stale before [limit]. *)
Definition holding (ms : list message) (o : option SSLRecord) : Prop :=
  match o with
  | Some r => covered r /\ lenZ (Stream r) < 2 ^ 31 /\ Stream r = pg_stream ms /\ (length ms < fuel)%nat /\
              limit <= LastTouched r + recordTTL
  | None => List.filter is_useful ms = []
  end.

(** The records of the connection among the new ones. *)
Definition own (news : list (SSLKey * RawPostgres)) : list RawPostgres :=
  (filter (fun x => x.1 = key) news).*2.

Lemma own_none P n o o' news : delivers P n o o' news -> (forall k, P k -> k <> key) -> own news = [].
Proof.
  intros (_ & _ & H) HP. unfold own. induction H as [|x l [Hx _] _ IH]; [done|].
  rewrite filter_cons_False by (by apply HP). done.
Qed.

Lemma own_all n o o' news : delivers (eq key) n o o' news -> own news = news.*2.
Proof.
  intros (_ & _ & H). unfold own. induction H as [|x l [Hx _] _ IH]; [done|].
  rewrite filter_cons_True by done. by rewrite !fmap_cons, IH.
Qed.

Lemma own_app l l' : own (l ++ l') = own l ++ own l'.
Proof. unfold own. by rewrite filter_app, fmap_app. Qed.

Lemma other_request now k t s o :
  k <> key -> ready t s -> room 1 o ->
  exists s' o' news, parse_request_of generate fuel now k s o = Done (s', o') /\ ready t s' /\
    Requests s' !! key = Requests s !! key /\ delivers (fun k => k <> key) 1 o o' news.
Proof.
  intros Hk (H1 & H2 & H3 & H4) Hroom.
  destruct (parse_request_of_returns generate fuel now k s o) as (s' & o' & E & Ht).
  { intros r Hr. apply (H1 k). by rewrite lookup_delete_ne. }
  destruct (request_of_delivers _ _ _ _ _ _ _ E Hroom) as [news Hn].
  pose proof (parse_request_of_frame _ _ _ _ _ _ _ _ E) as (Hp & _ & Ho & _).
  exists s', o', news. split_and!; [done| |by apply Ho|].
  2: { eapply delivers_weaken; [|done|exact Hn]. by intros ? <-. }
  split_and!; [|by rewrite Hp| |done].
  - intros k' r [Hne Hr]%lookup_delete_Some. destruct (decide (k' = k)) as [->|]; [by apply Ht|].
    apply (H1 k'). rewrite lookup_delete_ne by done. by rewrite <- Ho.
  - intros t' Ht'. rewrite (parse_request_of_other _ _ _ key _ _ _ _ t' Hk E). by apply H3.
Qed.

Lemma other_requests now keys t : forall s o,
  key ∉ keys -> ready t s -> room (length keys) o ->
  exists s' o' news, parse_requests generate fuel now keys s o = Done (s', o') /\ ready t s' /\
    Requests s' !! key = Requests s !! key /\ delivers (fun k => k <> key) (length keys) o o' news.
Proof.
  induction keys as [|k keys IH]; intros s o Hk Hs Hroom; [exists s, o, []; split_and!; by try apply delivers_nothing|].
  apply not_elem_of_cons in Hk as [Hk Hks]. cbn [parse_requests length] in *.
  destruct (other_request now k t s o) as (s1 & o1 & n1 & -> & Hs1 & Hr1 & Hd1); [done..|unfold room in *; lia|].
  destruct (IH s1 o1 Hks Hs1) as (s2 & o2 & n2 & E2 & Hs2 & Hr2 & Hd2); [by eapply (delivers_room _ 1)|].
  exists s2, o2, (n1 ++ n2). split_and!; [done..|congruence|]. by apply (delivers_app _ 1 (length keys) _ o1).
Qed.

(** The connection itself delivers its next statement. *)
Lemma own_request now t s o ms :
  holding ms (Requests s !! key) -> ready t s -> t <= now <= limit -> room 1 o ->
  exists s' o' news ms', parse_request_of generate fuel now key s o = Done (s', o') /\ ready now s' /\
    holding ms' (Requests s' !! key) /\ List.filter is_useful ms' = drop 1 (List.filter is_useful ms) /\
    delivers (eq key) 1 o o' news /\ Forall2 (statement_record key) (take 1 (List.filter is_useful ms)) news.*2.
Proof.
  intros Hh (H1 & H2 & H3 & H4) Ht Hroom. unfold parse_request_of. destruct (Requests s !! key) as [r|] eqn:Er.
  2: { exists s, o, [], ms. cbn [holding] in Hh. rewrite Er, Hh.
       split_and!; [done| |done|done|by apply delivers_nothing|done].
       split_and!; [done..| |lia]. intros t' Ht'. apply H3. lia. }
  destruct Hh as (Hc & Hl & Hs & Hf & Hlt). rewrite (detectProtocol_known now key r s ProtocolPostgres) by (apply H3; lia).
  cbn [mbind outcome_bind mret outcome_ret]. rewrite decide_False by done.
  pose proof (fun t' => get_self now t' key (protocolCache s) ProtocolPostgres (H3 now Ht)) as Hself.
  set (s1 := set_protocols _ s). assert (ready now s1) as (G1 & G2 & G3 & G4).
  { split_and!; [done..| |lia]. intros t' Ht'. apply Hself. simpl. lia. }
  pose proof (pg_loop_next now key s1 o ms fuel r true Hc Hl Hs Hf) as Hloop.
  assert (forall m, ready now (set_Requests (put_back key m.1 m.2 (Requests s1)) s1)) as Hready.
  { intros [r' live]. split_and!; [|done..]. simpl. unfold put_back. destruct live; [by rewrite delete_insert_eq|].
    intros k x Hx. apply (G1 k). rewrite lookup_delete_Some in Hx. destruct Hx as [Hne Hx].
    rewrite lookup_delete_ne in Hx |- * by done. done. }
  destruct (List.filter is_useful ms) as [|m later] eqn:Ef.
  - destruct Hloop as (r' & -> & Hsame). cbn [mbind outcome_bind andb].
    eexists _, o, [], ms. split_and!; [done|by apply (Hready (_, _))| |by rewrite Ef|by apply delivers_nothing|done].
    cbn [Requests set_Requests]. unfold put_back. case_bool_decide as E; [|by rewrite lookup_delete_eq].
    rewrite lookup_insert_eq, (Hsame E). done.
  - destruct Hloop as (r' & raw & ms' & Hraw & -> & Hc' & Hl' & Hs' & Htouch & -> & Hlen). cbn [mbind outcome_bind andb].
    eexists _, _, [(key, raw)], ms'. split_and!; [done|by apply (Hready (_, _))| |done|apply offer_delivers; [by apply Hraw|done]|by constructor].
    cbn [Requests set_Requests]. unfold put_back. case_bool_decide as E.
    + rewrite lookup_insert_eq. cbn [holding]. rewrite Htouch. split_and!; [done..|lia|done].
    + rewrite lookup_delete_eq. cbn [holding]. by rewrite E.
Qed.

Lemma parse_requests_app now l l' s o :
  parse_requests generate fuel now (l ++ l') s o =
  '(s, o) ← parse_requests generate fuel now l s o; parse_requests generate fuel now l' s o.
Proof.
  revert s o. induction l as [|k l IH]; intros s o; [done|]. cbn [app parse_requests].
  destruct (parse_request_of _ _ _ _ _ _) as [[s1 o1]| |]; [|done..]. apply IH.
Qed.

(** One range over the map, in whatever order. *)
Lemma requests_ranged now keys t s o ms :
  holding ms (Requests s !! key) -> ready t s -> t <= now <= limit -> room (length keys) o ->
  NoDup keys -> (is_Some (Requests s !! key) -> key ∈ keys) ->
  exists s' o' news ms', parse_requests generate fuel now keys s o = Done (s', o') /\ ready now s' /\
    holding ms' (Requests s' !! key) /\ List.filter is_useful ms' = drop 1 (List.filter is_useful ms) /\
    delivers (fun _ => True) (length keys) o o' news /\
    Forall2 (statement_record key) (take 1 (List.filter is_useful ms)) (own news).
Proof.
  intros Hh Hs Ht Hroom Hnd Hin. destruct (decide (key ∈ keys)) as [Hk|Hk].
  - apply list_elem_of_split in Hk as (l1 & l2 & ->). apply NoDup_app in Hnd as (_ & Hn1 & Hn2).
    apply NoDup_cons in Hn2 as [Hn2 _]. rewrite parse_requests_app. rewrite length_app in *. cbn [length] in *.
    destruct (other_requests now l1 t s o) as (s1 & o1 & n1 & -> & Hs1 & Hr1 & Hd1);
      [intros E; by apply (Hn1 key), list_elem_of_here|done|unfold room in *; lia|].
    cbn [mbind outcome_bind parse_requests]. rewrite <- Hr1 in Hh.
    pose proof (delivers_room _ _ _ _ _ _ Hd1 Hroom) as Hroom1.
    destruct (own_request now t s1 o1 ms) as (s2 & o2 & n2 & ms' & -> & Hs2 & Hh2 & Hms & Hd2 & Hst);
      [done..|unfold room in *; lia|].
    cbn [mbind outcome_bind]. pose proof (delivers_room _ 1 _ _ _ _ Hd2 Hroom1) as Hroom2.
    destruct (other_requests now l2 now s2 o2) as (s3 & o3 & n3 & -> & Hs3 & Hr3 & Hd3); [done..|].
    exists s3, o3, (n1 ++ n2 ++ n3), ms'. rewrite Hr3. split_and!; [done..| |].
    + apply (delivers_app _ (length l1) (S (length l2)) _ o1); [by eapply delivers_weaken; [..|exact Hd1]|].
      apply (delivers_app _ 1 (length l2) _ o2); [by eapply delivers_weaken; [..|exact Hd2]|by eapply delivers_weaken; [..|exact Hd3]].
    + rewrite !own_app, (own_none _ _ _ _ _ Hd1), (own_none _ _ _ _ _ Hd3), (own_all _ _ _ _ Hd2), app_nil_r by done. done.
  - destruct (Requests s !! key) as [r|] eqn:Er; [by destruct Hk; apply Hin|]. cbn [holding] in Hh.
    destruct (other_requests now keys t s o) as (s1 & o1 & n1 & -> & (G1 & G2 & G3 & G4) & Hr1 & Hd1); [done..|].
    exists s1, o1, n1, ms. rewrite Hr1, Er, Hh. split_and!; [done| |done|done| |].
    + split_and!; [done..| |lia]. intros t' Ht'. apply G3. lia.
    + by eapply delivers_weaken; [..|exact Hd1].
    + by rewrite (own_none _ _ _ _ _ Hd1).
Qed.

Lemma parse_responses_ready now keys t : forall s o,
  ready t s -> t <= now <= limit ->
  exists s' o', parse_responses generate fuel now keys s o = Done (s', o') /\ ready now s' /\
    Requests s' = Requests s /\ postgresChan o' = postgresChan o.
Proof.
  intros s o Hs Ht. assert (ready now s) as Hs1.
  { destruct Hs as (H1 & H2 & H3 & H4). split_and!; [done..| |lia]. intros t' Ht'. apply H3. lia. }
  clear Hs. revert s o Hs1. induction keys as [|k keys IH]; intros s o Hs; [by eexists _, _|]. cbn [parse_responses].
  destruct Hs as (H1 & H2 & H3 & H4).
  destruct (parse_response_of_returns generate fuel now k s o H2) as (s1 & o1 & E & Hs1 & Hr1 & Ho1). rewrite E.
  destruct (IH s1 o1) as (s2 & o2 & E2 & Hs2 & Hr2 & Ho2); [|exists s2, o2; split_and!; [done..| |]; congruence].
  split_and!; [by rewrite Hr1|done| |done]. intros t' Ht'.
  destruct (parse_response_of_view _ _ _ key _ _ _ _ E) as [->|[[_ ->]|[_ Hv]]]; [by apply H3..|].
  rewrite (Hv ProtocolPostgres) by (apply H3; lia). apply get_self; [apply H3; lia|simpl; lia].
Qed.

(** One tick. *)
Lemma tick_delivers now now' keys keys' t s o ms :
  holding ms (Requests s !! key) -> ready t s -> t <= now -> now <= now' -> now' <= limit ->
  keys ≡ₚ elements (dom (Requests s)) -> room (size (Requests s)) o ->
  exists s' o' news ms', tick generate fuel now now' keys keys' s o = Done (s', o') /\ ready now' s' /\
    holding ms' (Requests s' !! key) /\ List.filter is_useful ms' = drop 1 (List.filter is_useful ms) /\
    dom (Requests s') ⊆ dom (Requests s) /\ delivers (fun _ => True) (size (Requests s)) o o' news /\
    Forall2 (statement_record key) (take 1 (List.filter is_useful ms)) (own news).
Proof.
  intros Hh (H1 & H2 & H3 & H4) Ht Ht' Hl Hkeys Hroom. unfold tick, parseRequest.
  assert (length keys = size (Requests s)) as Hlen by (rewrite Hkeys; apply size_dom).
  destruct (shouldCleanup_maps now s) as (C1 & C2 & C3). destruct (shouldCleanup now s) as [clean s0]. cbn [snd] in *.
  set (s1 := if clean then _ else s0).
  assert (Requests s1 ⊆ Requests s /\ Responses s1 = Responses s /\ protocolCache s1 = protocolCache s /\
    Requests s1 !! key = Requests s !! key) as (K1 & K2 & K3 & K4).
  { subst s1. destruct clean; [|by rewrite C1]. cbn [Requests Responses protocolCache cleanupStaleRequestRecords set_Requests].
    rewrite C1. split_and!; [apply map_filter_subseteq|done|done|].
    destruct (Requests s !! key) as [r|] eqn:Er; [|apply map_lookup_filter_None; by left].
    apply map_lookup_filter_Some. split; [done|]. simpl. destruct Hh as (_ & _ & _ & _ & Hh). lia. }
  destruct (requests_ranged now keys t s1 o ms) as (s2 & o2 & news & ms' & E2 & Hs2 & Hh2 & Hms & Hd & Hst).
  { by rewrite K4. }
  { split_and!; [|by rewrite K2|by rewrite K3|done]. intros k x Hx. apply (H1 k).
    by apply (lookup_weaken _ _ _ _ Hx), delete_mono. }
  { lia. }
  { by rewrite Hlen. }
  { rewrite Hkeys. apply NoDup_elements. }
  { rewrite K4, Hkeys. intros Hk. apply elem_of_elements, elem_of_dom. done. }
  rewrite E2. cbn [mbind outcome_bind]. unfold parseResponse. destruct Hs2 as (G1 & G2 & G3 & G4).
  destruct (response_cleanup fuel now' s2 G2) as (s3 & E & L1 & L2 & L3).
  destruct (shouldCleanup now' s2) as [clean' s4]. rewrite E.
  destruct (parse_responses_ready now' keys' now s3 o2) as (s5 & o5 & E5 & Hs5 & Hr5 & Ho5);
    [by split_and!; rewrite ?L2, ?L3|lia|].
  exists s5, o5, news, ms'. rewrite Hr5, L2, <- Hlen. split_and!; [done..| | |done].
  - apply parse_requests_frame in E2 as (_ & _ & E2). intros k Hk.
    apply elem_of_dom, not_eq_None_Some. intros Hn. apply elem_of_dom, not_eq_None_Some in Hk. apply Hk, E2.
    destruct (Requests s1 !! k) as [x|] eqn:Ex; [|done]. apply (lookup_weaken _ _ _ _ Ex) in K1. congruence.
  - destruct Hd as (D1 & D2 & D3). split_and!; [by rewrite Ho5|done..].
Qed.
End Connection.

(** A tick: the times of its two halves and the orders they range over the maps in.
    An entry that is cleaned up first is passed over. *)
Record tick_at := {
  at_requests : Z;
  at_responses : Z;
  requests_order : gset SSLKey -> list SSLKey;
  responses_order : gset SSLKey -> list SSLKey;
}.

Fixpoint ticks (fuel : nat) (ts : list tick_at) s (o : channels) : outcome (SSLStore * channels) :=
  match ts with
  | [] => mret (s, o)
  | k :: ts =>
      '(s, o) ← tick generate fuel (at_requests k) (at_responses k)
        (requests_order k (dom (Requests s))) (responses_order k (dom (Responses s))) s o;
      ticks fuel ts s o
  end.

(** Ticks one after the other between two times; a range visits every entry once. *)
Fixpoint timely (t limit : Z) (ts : list tick_at) : Prop :=
  match ts with
  | [] => True
  | k :: ts =>
      t <= at_requests k /\ at_requests k <= at_responses k /\ at_responses k <= limit /\
      (forall X, requests_order k X ≡ₚ elements X) /\ timely (at_responses k) limit ts
  end.

Lemma ticks_deliver fuel key limit ts : forall t s o ms,
  holding fuel limit ms (Requests s !! key) -> ready key fuel limit t s -> timely t limit ts ->
  room (length ts * size (Requests s)) o ->
  exists s' o' news, ticks fuel ts s o = Done (s', o') /\
    delivers (fun _ => True) (length ts * size (Requests s)) o o' news /\
    Forall2 (statement_record key) (take (length ts) (List.filter is_useful ms)) (own key news).
Proof.
  induction ts as [|k ts IH]; intros t s o ms Hh Hs Hts Hroom.
  { exists s, o, []. split_and!; [done|by apply delivers_nothing|done]. }
  destruct Hts as (T1 & T2 & T3 & Ho & Hts). cbn [ticks length Nat.mul] in *.
  destruct (tick_delivers key fuel limit (at_requests k) (at_responses k)
    (requests_order k (dom (Requests s))) (responses_order k (dom (Responses s))) t s o ms)
    as (s1 & o1 & n1 & ms1 & -> & Hs1 & Hh1 & Hms & Hdom & Hd & Hst); [done..|apply Ho|unfold room in *; lia|].
  assert (size (Requests s1) <= size (Requests s))%nat as Hsize
    by (rewrite <- !size_dom; by apply subseteq_size).
  pose proof (delivers_room _ _ _ _ _ _ Hd Hroom) as Hroom1. cbn [mbind outcome_bind].
  destruct (IH (at_responses k) s1 o1 ms1 Hh1 Hs1 Hts) as (s2 & o2 & n2 & E2 & Hd2 & Hst2); [unfold room in *; nia|].
  exists s2, o2, (n1 ++ n2). split_and!; [done| |].
  - eapply delivers_app; [exact Hd|]. eapply delivers_weaken; [done| |exact Hd2]. nia.
  - rewrite own_app. replace (take (S (length ts)) (List.filter is_useful ms)) with
      (take 1 (List.filter is_useful ms) ++ take (length ts) (List.filter is_useful ms1)); [by apply Forall2_app|].
    rewrite Hms. destruct (List.filter is_useful ms); [by rewrite drop_nil, !take_nil|done].
Qed.


End Statements.

(** ** From the kernel to the streams *)

Lemma tls_decoded fill (e : Tls.event) :
  wire_shaped e ->
  binary_Read G.sslEvent (sample fill e) ≫= of_fields = Some {|
    se_TimestampNs := u64 (Tls.ev_timestamp_ns e);
    se_PidTgid := u64 (Tls.ev_pid_tgid e);
    se_UidGid := u64 (Tls.ev_uid_gid e);
    se_CgroupId := u64 (Tls.ev_cgroup_id e);
    se_SslPtr := u64 (Tls.ev_ssl_ptr e);
    se_ReqLen := u64 (Tls.ev_req_len e);
    se_DataLen := u64 (Tls.ev_data_len e);
    se_Rw := u8 (Tls.ev_rw e);
    se_Comm := wrap S8 <$> Tls.ev_comm e;
    se_Data := u8 <$> Tls.ev_data e |}.
Proof. intros H. decode_event H. Qed.

Section Collected.
Context {L : Http2Lib} {CP : Cache SSLKey ProtocolType protocol_ttl} {CS : Cache SessionScope (list Z) sessionTTL}.
Implicit Types (s : SSLStore (L := L) (CP := CP) (CS := CS)).

(** The connection of an event, and the bytes it brings. *)
Definition conn_of (e : Tls.event) : SSLKey := {|
  PidTgid := u64 (Tls.ev_pid_tgid e);
  UidGid := u64 (Tls.ev_uid_gid e);
  SSLPtr := u64 (Tls.ev_ssl_ptr e);
  CgroupID := u64 (Tls.ev_cgroup_id e) |}.

Definition bytes_of (e : Tls.event) : list Z := u8 <$> TlsTheorems.payload e.

(** The stream of a direction of a connection: 2 is written, 4 is read. *)
Definition stream_of (rw : Z) (key : SSLKey) s : list Z :=
  default [] (Stream <$> (if rw =? 2 then Requests s else Responses s) !! key).

(** The loop of [handle] over samples, with the times they are added at. *)
Fixpoint collect (items : list (Z * (Z -> Z) * Tls.event)) s : outcome SSLStore :=
  match items with
  | [] => mret s
  | (now, fill, e) :: items => s ← handle_body now (sample fill e) s; collect items s
  end.

Lemma Append_stream now data info (o : option SSLRecord) :
  Stream (Append now data info (default new_record o)) = default [] (Stream <$> o) ++ data.
Proof. by destruct o. Qed.

Lemma handle_body_sound now fill e s :
  tls_sound e -> exists s', handle_body now (sample fill e) s = Done s' /\
  forall rw key, rw = 4 \/ rw = 2 -> stream_of rw key s' =
    stream_of rw key s ++ if (Tls.ev_rw e =? rw) && bool_decide (conn_of e = key) then bytes_of e else [].
Proof.
  intros (Hrw & Hlen & Hdata & Hcomm). unfold handle_body.
  rewrite tls_decoded by (apply tls_shaped; [done|by rewrite Hdata]).
  unfold Add, add_record. cbn [se_Rw se_Data se_DataLen].
  rewrite slice_data by (rewrite ?Hdata; unfold Tls.MAX_BODY_SIZE in *; lia). cbn [checked mbind outcome_bind].
  destruct Hrw as [Hrw|Hrw]; rewrite Hrw.
  - change (u8 4 =? SSLRwWrite) with false. change (u8 4 =? SSLRwRead) with true. cbn [mbind outcome_bind].
    eexists. split; [done|]. intros rw key [->| ->]; unfold stream_of; simpl.
    + case_bool_decide as Hk.
      * subst key. change (event_key _) with (conn_of e). rewrite lookup_insert_eq. cbn [fmap option_fmap option_map default from_option id].
        by rewrite Append_stream.
      * change (event_key _) with (conn_of e). rewrite lookup_insert_ne by done. by rewrite app_nil_r.
    + by rewrite app_nil_r.
  - change (u8 2 =? SSLRwWrite) with true. cbn [mbind outcome_bind].
    eexists. split; [done|]. intros rw key [->| ->]; unfold stream_of; simpl.
    + by rewrite app_nil_r.
    + case_bool_decide as Hk.
      * subst key. change (event_key _) with (conn_of e). rewrite lookup_insert_eq. cbn [fmap option_fmap option_map default from_option id].
        by rewrite Append_stream.
      * change (event_key _) with (conn_of e). rewrite lookup_insert_ne by done. by rewrite app_nil_r.
Qed.

Lemma collect_sound items : forall s,
  Forall tls_sound items.*2 -> exists s', collect items s = Done s' /\
  forall rw key, rw = 4 \/ rw = 2 -> stream_of rw key s' =
    stream_of rw key s ++
    (List.filter (fun e => (Tls.ev_rw e =? rw) && bool_decide (conn_of e = key)) items.*2 ≫= bytes_of).
Proof.
  induction items as [|[[now fill] e] items IH]; intros s Hs; cbn [fmap list_fmap snd] in *.
  { exists s. split; [done|]. intros. by rewrite app_nil_r. }
  apply Forall_cons in Hs as [He Hs]. cbn [collect].
  destruct (handle_body_sound now fill e s He) as (s1 & -> & H1). cbn [mbind outcome_bind].
  destruct (IH s1 Hs) as (s2 & -> & H2). exists s2. split; [done|]. intros rw key Hrw.
  rewrite H2, H1 by done. cbn [List.filter].
  destruct (_ && _); [|by rewrite app_nil_r]. rewrite bind_cons. by rewrite app_assoc.
Qed.
End Collected.

Section TlsPipeline.
Context {MS : bpf_map Z Tls.call_info} {ME : bpf_map Z Tls.call_info_ex} {RB : bpf_ringbuf Tls.event}.
Context `{!HashOk MS, !HashOk ME, !RingbufOk RB} (a : abi).
Context {L : Http2Lib} {CP : Cache SSLKey ProtocolType protocol_ttl} {CS : Cache SessionScope (list Z) sessionTTL}.

(** C2. The plaintext of TLS connections, from the kernel to the streams.  Along
    any interleaving of the library calls of all tasks, the collector takes up
    every event of the ring buffer without a crash, whatever the padding of the
    samples holds and whenever it reads them, and the stream of each direction of
    each connection is the payloads of its events, in their order, and nothing
    else. *)
Theorem tls_events_collected tr (s : Tls.Ssl.state MS ME RB) items t0 :
  reserves RB tls_memory -> Forall (fun kc => sized kc.1) tr -> TlsTheorems.evs s = [] ->
  items.*2 = TlsTheorems.evs (TlsTheorems.run_trace a tr s) ->
  exists st, collect items (NewSSLStore (L := L) (CP := CP) (CS := CS) t0) = Done st /\
  forall rw key, rw = 4 \/ rw = 2 -> stream_of rw key st =
    List.filter (fun e => (Tls.ev_rw e =? rw) && bool_decide (conn_of e = key))
      (TlsTheorems.evs (TlsTheorems.run_trace a tr s)) ≫= bytes_of.
Proof.
  intros Hres Htr Hs Hitems. rewrite <- Hitems.
  destruct (collect_sound items (NewSSLStore (L := L) (CP := CP) (CS := CS) t0)) as (st & Hc & H).
  - rewrite Hitems. by apply tls_events_sound.
  - exists st. split; [done|]. intros rw key Hrw. rewrite H by done.
    unfold stream_of. by destruct (rw =? 2); simpl; rewrite lookup_empty.
Qed.
End TlsPipeline.

(** ** Attribution *)

(** Three writes: 10 bytes holding two messages of 6 and 4 bytes, then a message
    of 12 bytes, then one of 8. *)
Definition three_writes {L : Http2Lib} : SSLRecord :=
  let info t n := {| TimestampNs := t; DataLen := n; Comm := [] |} in
  Append 0 (replicate 8 0) (info 300 8)
    (Append 0 (replicate 12 0) (info 200 12)
      (Append 0 (replicate 10 0) (info 100 10) new_record)).

(** A message can get the time of an earlier write.  An event that is only
    partly taken off keeps its full length, so later messages are counted against
    it: of four messages in three writes, at times 100 (two of them), 200 and
    300, the one written at 200 is reported with time 100. *)
Theorem attribution_lags {L : Http2Lib} :
  exists r1 r2 r3 r4,
    consumeRecord three_writes 6 = Done (100, [], false, r1) /\
    consumeRecord r1 4 = Done (100, [], false, r2) /\
    consumeRecord r2 12 = Done (100, [], false, r3) /\
    consumeRecord r3 8 = Done (300, [], true, r4).
Proof.
  eexists _, _, _, _. split; [vm_compute; reflexivity|]. split; [vm_compute; reflexivity|].
  split; [vm_compute; reflexivity|]. vm_compute. reflexivity.
Qed.

(** ** Messages *)

Section Messages.
Context {N : NetHttp} {C : Codec} {L : Http2Lib}.
Context {CP : Cache SSLKey ProtocolType protocol_ttl} {CS : Cache SessionScope (list Z) sessionTTL}.
Context (generate : nat -> list Z).
Implicit Types (r : SSLRecord) (s : SSLStore (L := L) (CP := CP) (CS := CS)).

Definition chunks (ds : list (list Z)) : list Z := concat (chunk <$> ds) ++ HTTP1ChunkEnd.

Lemma chunk_length d : d <> [] -> 5 < lenZ (chunk d).
Proof.
  intros Hd. unfold chunk, lenZ. rewrite !length_app. change (length CRLF) with 2%nat.
  pose proof (FormatUint_nonnil 16 (Z.of_nat (length d))) as Hf.
  destruct d; [done|]. destruct (FormatUint 16 _); [done|]. simpl. lia.
Qed.

(** A loop that takes a message off and goes on. *)
Lemma response_continues fuel now key r live s o m n r1 :
  ParseResponse ProtocolHTTP1 r = Done (Parsed (Some m) n false, r1) -> same_stream r r1 ->
  covered r -> Stream r <> [] -> 0 < n -> ps_DiscardStream m = false -> is_Some (ps_Response m) ->
  EndOfStream r1 = false ->
  exists r2, response_loop generate (S fuel) now key ProtocolHTTP1 r live s o =
    response_loop generate fuel now key ProtocolHTTP1 r2 live s o /\
    covered r2 /\ Stream r2 = drop (Z.to_nat n) (Stream r) /\ LastResp r2 = LastResp r1.
Proof.
  intros Hp Hsame Hc Hne Hn Hd [resp Hresp] He. cbn [response_loop].
  rewrite bool_decide_eq_false_2 by done. rewrite Hp. cbn [mbind outcome_bind p_err p_consumed p_message].
  rewrite (proj2 (Z.eqb_neq _ 0)) by lia.
  destruct (consumeRecord_covered r1 n) as (i & all & r2 & -> & _ & Hs2 & Hc2 & _ & Hl2 & He2 & _);
    [by eapply covered_same|by destruct Hsame as [-> _]|lia|].
  cbn [mbind outcome_bind]. rewrite Hd, Hresp, He2, He. cbn [andb negb]. rewrite andb_false_r. cbn [negb andb].
  rewrite andb_true_r. exists r2. destruct Hsame as [Hs1 _]. by rewrite Hs2, Hs1.
Qed.

Lemma chunk_step fuel now key r live s o resp b d rest :
  covered r -> lenZ (Stream r) < 2 ^ 31 -> LastResp r = Some (with_Body (Body b false) resp) ->
  HTTP1Parser.isChunkedEncoding resp = true -> Stream r = chunk d ++ rest -> d <> [] ->
  exists r', response_loop generate (S fuel) now key ProtocolHTTP1 r live s o =
    response_loop generate fuel now key ProtocolHTTP1 r' live s o /\
    covered r' /\ Stream r' = rest /\ LastResp r' = Some (with_Body (Body (b ++ d) false) resp).
Proof.
  intros Hc Hl Hresp Hch Hs Hd. pose proof (chunk_length d Hd) as H5.
  assert (lenZ (chunk d) <= lenZ (Stream r)) as Hle.
  { rewrite Hs. unfold lenZ. rewrite length_app. lia. }
  edestruct (response_continues fuel now key r live s o) as (r' & Hr & Hc' & Hs' & Hl').
  - cbn [ParseResponse]. unfold HTTP1Parser.ParseResponse, HTTP1Parser.parse_chunk. rewrite Hresp.
    change (HTTP1Parser.isChunkedEncoding (with_Body _ resp)) with (HTTP1Parser.isChunkedEncoding resp).
    rewrite Hch, Hs, parseStream_chunk by (rewrite <- Hs; lia). cbn [mbind outcome_bind orb].
    rewrite (proj2 (Z.eqb_neq _ 0)), (proj2 (Z.eqb_neq _ StreamEndChunkLength))
      by (unfold StreamEndChunkLength, CRLFLen; lia).
    rewrite s64_small by lia. reflexivity.
  - done.
  - done.
  - rewrite Hs. intros E. rewrite Hs in Hle. rewrite E in Hle. unfold lenZ in *. simpl in Hle. lia.
  - lia.
  - done.
  - by eexists.
  - done.
  - exists r'. rewrite Hr. split_and!; [done|done| |].
    + rewrite Hs', Hs. apply drop_app_length'. unfold lenZ. lia.
    + by rewrite Hl'.
Qed.

Lemma chunks_step now key s o resp rest : forall ds fuel r live b,
  covered r -> lenZ (Stream r) < 2 ^ 31 -> LastResp r = Some (with_Body (Body b false) resp) ->
  HTTP1Parser.isChunkedEncoding resp = true -> Stream r = concat (chunk <$> ds) ++ rest -> Forall (fun d => d <> []) ds ->
  exists r', response_loop generate (length ds + fuel) now key ProtocolHTTP1 r live s o =
    response_loop generate fuel now key ProtocolHTTP1 r' live s o /\
    covered r' /\ Stream r' = rest /\ LastResp r' = Some (with_Body (Body (b ++ concat ds) false) resp).
Proof.
  induction ds as [|d ds IH]; intros fuel r live b Hc Hl Hresp Hch Hs Hds.
  { exists r. rewrite app_nil_r. done. }
  apply Forall_cons in Hds as [Hd Hds]. cbn [fmap list_fmap concat length Nat.add] in *. rewrite <- app_assoc in Hs.
  destruct (chunk_step (length ds + fuel) now key r live s o resp b d _ Hc Hl Hresp Hch Hs Hd)
    as (r1 & -> & Hc1 & Hs1 & Hl1).
  assert (lenZ (Stream r1) < 2 ^ 31) as Hlen.
  { rewrite Hs in Hl. rewrite Hs1. unfold lenZ in *. rewrite length_app in Hl. lia. }
  destruct (IH fuel r1 live (b ++ d) Hc1 Hlen Hl1 Hch Hs1 Hds) as (r2 & -> & Hc2 & Hs2 & Hl2).
  exists r2. by rewrite app_assoc.
Qed.

(** The last chunk sends the response. *)
Lemma last_chunk fuel now key r2 live s o resp' rest body :
  covered r2 -> lenZ (Stream r2) < 2 ^ 31 -> LastResp r2 = Some resp' ->
  HTTP1Parser.isChunkedEncoding resp' = true -> Stream r2 = HTTP1ChunkEnd ++ rest ->
  Compress.readDecodeBytes (rs_Body resp') (Header_Get (rs_Header resp') (str "Content-Encoding")) = Some body ->
  exists r' live' ts comm s' o',
    response_loop generate (S fuel) now key ProtocolHTTP1 r2 live s o = Done (r', live', s', o') /\
    send_response generate now key (sessionScopeForKey key 0) ts comm resp' body s o = (s', o') /\
    Stream r' = rest.
Proof.
  intros Hc2 Hlen2 Hl2 Hch Hs2 Hbody.
  cbn [response_loop]. rewrite bool_decide_eq_false_2 by (by rewrite Hs2).
  cbn [ParseResponse]. unfold HTTP1Parser.ParseResponse, HTTP1Parser.parse_chunk. rewrite Hl2.
  rewrite Hch.
  assert (HTTP1Parser.parseStream (Stream r2) = Done ([], 5, false)) as ->.
  { rewrite Hs2. change HTTP1ChunkEnd with (chunk []) in *. rewrite parseStream_chunk; [reflexivity|].
    rewrite <- Hs2. lia. }
  cbn [mbind outcome_bind orb]. change (5 =? 0) with false. change (5 =? StreamEndChunkLength) with true. cbn iota.
  cbn [mret outcome_ret mbind outcome_bind p_err p_consumed p_message]. change (s64 5) with 5. change (5 =? 0) with false.
  cbn iota. destruct (consumeRecord_covered (set_eos true r2) 5) as (i & all & r3 & -> & _ & Hs3 & _ & _ & _ & He3 & _);
    [done|by simpl; rewrite Hs2|lia|].
  cbn [mbind outcome_bind HTTP1Parser.found_response ps_DiscardStream ps_Response ps_StreamID].
  rewrite He3. cbn [EndOfStream set_eos]. rewrite Hbody.
  destruct (send_response _ _ _ _ _ _ _ _ _ _) as [s' o'] eqn:Esend. eexists _, _, _, _, _, _.
  split_and!; [done|exact Esend|]. cbn [Stream set_resp set_eos]. rewrite Hs3. cbn [Stream set_eos]. by rewrite Hs2.
Qed.

(** C38. A chunked response is delivered whole.  When the stream holds the header
    of a chunked response, any number of chunks and the last one, a tick sends
    one response whose body is the chunks put together, decoded, under the
    session of the connection, and leaves what follows for the next. *)
Theorem chunked_response_delivered fuel now key r live s o resp head ds rest body :
  let resp' := with_Body (Body (concat ds) false) resp in
  covered r -> lenZ (Stream r) < 2 ^ 31 -> LastResp r = None ->
  Stream r = head ++ concat (chunk <$> ds) ++ HTTP1ChunkEnd ++ rest ->
  ReadResponse (Stream r) = inr resp -> HTTP1Parser.isChunkedEncoding resp = true ->
  Index (Stream r) HTTP1Delimiter = Some (length head - 4)%nat -> (4 <= length head)%nat ->
  Forall (fun d => d <> []) ds -> (length ds + 2 <= fuel)%nat ->
  Compress.readDecodeBytes (rs_Body resp') (Header_Get (rs_Header resp) (str "Content-Encoding")) = Some body ->
  exists r' live' ts comm s' o',
    response_loop generate fuel now key ProtocolHTTP1 r live s o = Done (r', live', s', o') /\
    send_response generate now key (sessionScopeForKey key 0) ts comm resp' body s o = (s', o') /\
    Stream r' = rest.
Proof.
  intros resp' Hc Hl Hnone Hs Hread Hch Hidx H4 Hds Hf Hbody.
  destruct fuel as [|fuel]; [lia|].
  edestruct (response_continues fuel now key r live s o) as (r1 & -> & Hc1 & Hs1 & Hl1).
  { cbn [ParseResponse]. unfold HTTP1Parser.ParseResponse, HTTP1Parser.parse_fresh. rewrite Hnone, Hread, Hidx, Hch.
    replace (Z.of_nat (length head - 4) + HTTP1DelimiterLen) with (lenZ head)
      by (unfold lenZ, HTTP1DelimiterLen; lia). reflexivity. }
  1, 2, 5, 6, 7: done || by eexists.
  { rewrite Hs. destruct head; [simpl in H4; lia|done]. }
  { unfold lenZ. lia. }
  cbn [LastResp set_eos set_resp] in Hl1.
  assert (Stream r1 = concat (chunk <$> ds) ++ HTTP1ChunkEnd ++ rest) as Hs1'.
  { rewrite Hs1, Hs. apply drop_app_length'. unfold lenZ. lia. }
  replace fuel with (length ds + (fuel - length ds))%nat by lia.
  destruct (chunks_step now key s o resp (HTTP1ChunkEnd ++ rest) ds (fuel - length ds) r1 live [] Hc1)
    as (r2 & -> & Hc2 & Hs2 & Hl2); [|done..|].
  { rewrite Hs1. unfold lenZ in *. rewrite length_drop. lia. }
  rewrite app_nil_l in Hl2. fold resp' in Hl2. destruct (fuel - length ds)%nat as [|fuel'] eqn:Ef; [lia|].
  assert (lenZ (Stream r2) < 2 ^ 31) as Hlen2.
  { rewrite Hs2. rewrite Hs in Hl. unfold lenZ in *. rewrite !length_app in *. lia. }
  by eapply last_chunk.
Qed.

(** A chunk cut in its size line loses the response.  If a tick comes when the
    stream holds only some digits of the size of the next chunk, the parser takes
    that for an error: the record and the sessions of the connection are dropped,
    and the rest of the response with them. *)
Theorem cut_chunk_size_drops fuel now key r live s o resp n k :
  LastResp r = Some resp -> HTTP1Parser.isChunkedEncoding resp = true ->
  0 <= n -> Stream r = take (S k) (FormatUint 16 n) ->
  response_loop generate (S fuel) now key ProtocolHTTP1 r live s o =
  Done (r, false, deleteConnectionSessions now key s, o).
Proof.
  intros Hresp Hch Hn Hs. cbn [response_loop].
  rewrite bool_decide_eq_false_2.
  2: { rewrite Hs. pose proof (FormatUint_nonnil 16 n). by destruct (FormatUint 16 n). }
  cbn [ParseResponse]. unfold HTTP1Parser.ParseResponse, HTTP1Parser.parse_chunk, HTTP1Parser.parseStream.
  rewrite Hresp, Hch. unfold CRLF at 1. rewrite Index_nil_iff.
  2: { rewrite Hs. intros Hin. apply (FormatUint_avoids 16 n 13); [lia..|].
       apply list_elem_of_lookup in Hin as [i Hi]. apply lookup_take_Some in Hi as [Hi _].
       by eapply list_elem_of_lookup_2. }
  cbn [mret outcome_ret mbind outcome_bind orb p_err p_consumed].
  destruct (log_slice (Stream r) 0) as [b ->]; [done|]. done.
Qed.

(** A request whose body is too large is dropped, not truncated.  When the
    announced body does not fit and the stream has grown to its limit, the parser
    returns the request as truncated, but its body reader ends early, which the
    loop takes for an error: the bytes are taken off and no request is sent. *)
Theorem large_request_dropped fuel now key r live s o req idx :
  covered r -> ReadRequest (Stream r) = inr req -> Index (Stream r) HTTP1Delimiter = Some idx ->
  0 <= rq_ContentLength req -> Z.of_nat idx + 4 + rq_ContentLength req < 2 ^ 63 ->
  Z.max (lenZ (Stream r)) SSLMaxDataSize < Z.of_nat idx + 4 + rq_ContentLength req ->
  SSLMaxDataSize < lenZ (Stream r) + SSLMaxEventSize ->
  fails (rq_Body req) = true -> Header_Get (rq_Header req) (str "Content-Encoding") = [] ->
  exists r' live', request_loop generate (S fuel) now key ProtocolHTTP1 r live s o =
    request_loop generate fuel now key ProtocolHTTP1 r' live' s o /\
    Stream r' = drop (Z.to_nat (Z.min SSLMaxDataSize (lenZ (Stream r)))) (Stream r).
Proof.
  intros Hc Hreq Hidx H0 Hmax Hbig Hfull Hf Henc. cbn [request_loop].
  assert (Stream r <> []) as Hne by (intros E; rewrite E in Hidx; by vm_compute in Hidx).
  rewrite bool_decide_eq_false_2 by done. unfold ParseRequest, HTTP1Parser.ParseRequest, HTTP1DelimiterLen.
  assert (0 < lenZ (Stream r)) by (unfold lenZ; destruct (Stream r); [done|simpl; lia]).
  unfold SSLMaxDataSize, SSLMaxEventSize in *.
  rewrite Hreq, Hidx, s64_small by lia.
  rewrite (proj2 (Z.leb_le 0 _)), !(proj2 (Z.ltb_lt _ _)) by lia.
  cbn [andb mret outcome_ret mbind outcome_bind p_err p_consumed p_message].
  rewrite (proj2 (Z.eqb_neq _ 0)) by lia.
  destruct (consumeRecord_covered (set_eos true r) (Z.min (64 * 65536) (lenZ (Stream r))))
    as (i & all & r1 & -> & _ & Hs1 & _ & _ & _ & He1 & _); [done|done|lia|].
  cbn [mbind outcome_bind]. rewrite He1. cbn [EndOfStream set_eos].
  unfold Compress.readDecodeBytes. rewrite Henc. change (reverse (Compress.parseEncodings [])) with (@nil (list Z)).
  cbn [Compress.decode_layers]. unfold Compress.ReadAll. rewrite Hf. eexists _, _. split; [reflexivity|]. done.
Qed.
End Messages.
