(* ===== verification/RefWeb.v ===== *)
(** Concrete instances of the Go libraries.

    Executable readers, decompressors and framers that satisfy the laws of
    [Protocol] and [ProtocolTheorems].  They show that the laws can hold together,
    and the witnesses of the theorems on TLS plaintext run the store on them. *)

From S2P Require Import Prelude Layout GoStd Helpers RefKernel Tracing Tls TlsTheorems.
From S2P Require Import Postgres PostgresTheorems Wire WireTheorems Collector CollectorTheorems.
From S2P Require Import Protocol ProtocolTheorems SslStore SslStoreTheorems.

(** ** Decompressors *)

(** Encoders that put a mark in front. *)
Definition unmark (mark : Z) (b : body) : option body :=
  match unread b with
  | m :: d => if m =? mark then Some (Body d (fails b)) else None
  | [] => None
  end.

#[export] Instance ref_codec : Codec := {|
  gzip_NewReader := unmark 31;
  zstd_NewReader := unmark 40;
  flate_NewReader := fun b => default (Body [] true) (unmark 120 b);
  left_over := fun _ b => b |}.

#[export] Instance ref_codec_ok : CodecOk ref_codec.
Proof. by refine {| gzip := cons 31; zstd := cons 40; flate := cons 120 |}. Defined.

(** ** Framers *)

(** A frame of RFC 9113: the length in three octets, the type, the flags and the
    stream in four, then the payload, without padding or priorities. *)
Definition read_frame (d : list Z) : read_error + frame * list Z :=
  match d with
  | [] => inl EOF
  | l2 :: l1 :: l0 :: typ :: flags :: s3 :: s2 :: s1 :: s0 :: rest =>
      let len := Z.to_nat (l2 * 65536 + l1 * 256 + l0) in
      let sid := s3 mod 128 * 16777216 + s2 * 65536 + s1 * 256 + s0 in
      let payload := take len rest in
      if (length rest <? len)%nat then inl UnexpectedEOF
      else inr (match typ with
                | 0 => DataFrame sid (Z.of_nat len) payload (Z.testbit flags 0)
                | 1 => HeadersFrame sid (Z.of_nat len) payload (Z.testbit flags 2) (Z.testbit flags 0)
                | 3 => RSTStreamFrame sid (Z.of_nat len)
                | 7 => GoAwayFrame sid (Z.of_nat len)
                | 9 => ContinuationFrame sid (Z.of_nat len) payload (Z.testbit flags 2)
                | _ => OtherFrame sid (Z.of_nat len)
                end, drop len rest)
  | _ => inl UnexpectedEOF
  end.

(** Header fields as literals without indexing, names and values not compressed and
    shorter than 127 octets. *)
Fixpoint read_fields (fuel : nat) (d : list Z) : option (list HeaderField) :=
  match fuel, d with
  | _, [] => Some []
  | S fuel, 0 :: n :: d =>
      match drop (Z.to_nat n) d with
      | m :: d' =>
          fields ← read_fields fuel (drop (Z.to_nat m) d');
          Some ((take (Z.to_nat n) d, take (Z.to_nat m) d') :: fields)
      | [] => None
      end
  | _, _ => None
  end.

#[export] Instance ref_http2 : Http2Lib := {|
  framer := list Z;
  NewFramer := fun d => d;
  ReadFrame := read_frame;
  decoder := unit;
  NewDecoder := tt;
  DecodeFull := fun _ d => (read_fields (length d) d, tt) |}.

#[export] Instance ref_http2_ok : Http2LibOk ref_http2.
Proof.
  refine {| input := fun fr : framer => fr : list Z |}; [done|]. intros fr f fr'. cbn [ReadFrame ref_http2].
  destruct fr as [|l2 [|l1 [|l0 [|typ [|flags [|s3 [|s2 [|s1 [|s0 rest]]]]]]]]]; try done. cbn [read_frame].
  set (len := Z.to_nat _). destruct (Nat.ltb_spec (length rest) len) as [|Hlen]; [done|]. intros [= Hf <-].
  assert (frame_Length f = Z.of_nat len) as ->.
  { rewrite <- Hf. by repeat case_match. }
  unfold HTTP2FrameHeaderLen. cbn [length]. rewrite length_drop. lia.
Defined.

(** ** Messages *)

(** The head of a message up to the empty line, and what follows it. *)
Definition ref_head (d : list Z) : read_error + list Z * list Z :=
  match Index d HTTP1Delimiter with
  | Some i => inr (take i d, drop (i + 4) d)
  | None => inl (if bool_decide (d = []) then EOF else UnexpectedEOF)
  end.

(** Requests without a body and responses without one or with a chunked one. *)
Definition ref_request (d : list Z) : read_error + Request :=
  match ref_head d with
  | inl e => inl e
  | inr (head, _) =>
      match split_on 32 (take (default 0%nat (Index (head ++ CRLF) CRLF)) head) with
      | [method; uri; proto] => inr {|
          rq_Method := method; rq_RequestURI := uri; rq_URL := Some uri; rq_Host := []; rq_Proto := proto;
          rq_Header := ∅; rq_ContentLength := 0; rq_Body := Body [] false |}
      | _ => inl OtherError
      end
  end.

Definition ref_response (d : list Z) : read_error + Response :=
  match ref_head d with
  | inl e => inl e
  | inr (head, rest) =>
      let chunked := Contains head (str "Transfer-Encoding: chunked") in
      if HasPrefix head (str "HTTP/1.1 200") then inr {|
        rs_StatusCode := 200; rs_Proto := str "HTTP/1.1"; rs_Header := ∅;
        rs_ContentLength := if chunked then -1 else 0;
        rs_TransferEncoding := if chunked then [ChunkedEncodingValue] else [];
        rs_Body := Body (if chunked then rest else []) false |}
      else inl OtherError
  end.

#[export] Instance ref_net : NetHttp := {|
  ReadRequest := ref_request;
  ReadResponse := ref_response;
  URL_String := fun scheme host path => scheme ++ str "://" ++ host ++ path;
  mac := fun d => d |}.

Lemma ref_request_announced d req : ReadRequest d = inr req -> announced (rq_ContentLength req).
Proof.
  cbn [ReadRequest ref_net]. unfold ref_request. repeat case_match; try done. by intros [= <-].
Qed.

Lemma ref_response_announced d resp : ReadResponse d = inr resp -> announced (rs_ContentLength resp).
Proof.
  cbn [ReadResponse ref_net]. unfold ref_response. repeat case_match; try done; by intros [= <-].
Qed.

(** ** Messages of HTTP/2 *)

(** A body compressed twice. *)
Lemma content_encodings_undone_witness :
  Compress.readDecodeBytes (Body (31 :: 120 :: str "hello") false) (str "deflate,  GZIP") = Some (str "hello").
Proof.
  change (31 :: 120 :: str "hello") with (encode_all [Deflate; GZip] (str "hello")).
  change (str "deflate,  GZIP") with (join_with 44 [str "deflate"; str "  GZIP"]).
  apply content_encodings_undone.
  - discriminate.
  - apply (bool_decide_eq_true_1 _). vm_compute; reflexivity.
  - vm_compute; reflexivity.
Defined.

(** Streams 1 and 3: headers, the first half of the body of each, then the rest. *)
Definition h2_wire : list Z :=
  [0; 0; 7; 1; 4; 0; 0; 0; 1] ++ (0 :: 1 :: str "a" ++ 3 :: str "one") ++
  [0; 0; 7; 1; 4; 0; 0; 0; 3] ++ (0 :: 1 :: str "a" ++ 3 :: str "two") ++
  [0; 0; 2; 0; 0; 0; 0; 0; 1] ++ str "he" ++ [0; 0; 2; 0; 1; 0; 0; 0; 3] ++ str "hi" ++
  [0; 0; 3; 0; 1; 0; 0; 0; 1] ++ str "llo".

Fixpoint read_frames (fuel : nat) (d : list Z) : list frame :=
  match fuel with
  | O => []
  | S fuel => match read_frame d with inl _ => [] | inr (f, d) => f :: read_frames fuel d end
  end.

Definition h2_init : HTTP2State := {|
  PrefaceConsumed := true; Decoder := NewDecoder; HeaderStreamID := 0; HeaderBlockBuf := []; Streams := ∅ |}.

Lemma http2_message_reassembled_witness :
  exists ms st, Streams.run_frames (read_frames 9 h2_wire) h2_init = Some (ms, st) /\
  Streams.messages_of 1 ms = [{| HTTP2Parser.m_StreamID := 1; HTTP2Parser.m_Headers := [(str "a", str "one")];
    HTTP2Parser.m_Body := str "hello"; HTTP2Parser.m_Canceled := false |}].
Proof.
  assert (bool_decide (fst <$> Streams.run_frames (read_frames 9 h2_wire) h2_init = None) = false) as Hrun
    by (vm_compute; reflexivity).
  destruct (Streams.run_frames (read_frames 9 h2_wire) h2_init) as [[ms st]|] eqn:E; [|discriminate].
  exists ms, st. split; [reflexivity|].
  apply (Streams.http2_message_reassembled (read_frames 9 h2_wire) h2_init ms st 1
    [(1, Streams.EHeaders (Some [(str "a", str "one")]) false); (3, Streams.EHeaders (Some [(str "a", str "two")]) false);
     (1, Streams.EData (str "he") false); (3, Streams.EData (str "hi") true); (1, Streams.EData (str "llo") true)]
    [(str "a", str "one")] [str "he"] (str "llo")).
  - exact E.
  - vm_compute; reflexivity.
  - vm_compute; reflexivity.
  - vm_compute; reflexivity.
Defined.

(** ** The store *)

#[export] Instance ref_protocols : Cache SSLKey ProtocolType protocol_ttl := RefCache.ref_cache protocol_ttl.
#[export] Instance ref_keys : Cache SessionScope (list Z) sessionTTL := RefCache.ref_cache sessionTTL.
#[export] Instance ref_protocols_ok : CacheOk ref_protocols := RefCache.ref_cache_ok protocol_ttl.
#[export] Instance ref_keys_ok : CacheOk ref_keys := RefCache.ref_cache_ok sessionTTL.

Definition ref_generate (n : nat) : list Z := [Z.of_nat n].

#[export] Instance ref_generate_inj : Inj (=) (=) ref_generate.
Proof. intros n m [= E%Nat2Z.inj]. done. Defined.

Module Demo.
Definition conn (n : Z) : SSLKey := {| PidTgid := n; UidGid := 0; SSLPtr := 7; CgroupID := 1 |}.
Definition scope (n sid : Z) : SessionScope := {| Conn := conn n; StreamID := sid |}.
Definition init : SSLStore := NewSSLStore 0.
Definition no_records : channels :=
  {| reqChan := Channel.Chan [] false; respChan := Channel.Chan [] false; postgresChan := Channel.Chan [] false |}.

(** A record that was filled by one write. *)
Definition written (d : list Z) : SSLRecord :=
  Append 0 d {| TimestampNs := 5; DataLen := lenZ d; Comm := str "curl" |} new_record.

Definition get : list Z := str "GET / HTTP/1.1" ++ CRLF ++ CRLF.
Definition statements : list message := [(81, str "select 1"); (72, []); (80, str "s"); (83, [])].
Definition pg_store : SSLStore :=
  set_protocols (Set_ 0 (conn 1) ProtocolPostgres no_entries)
    (set_Requests (<[conn 1 := written (pg_stream statements)]> {[conn 2 := written get]}) init).
Definition pg_ticks : list tick_at := [
  {| at_requests := 1; at_responses := 2; requests_order := base.elements; responses_order := base.elements |};
  {| at_requests := 3; at_responses := 4; requests_order := base.elements; responses_order := base.elements |}].

Definition chunked : list Z := str "HTTP/1.1 200 OK" ++ CRLF ++ str "Transfer-Encoding: chunked" ++ CRLF ++ CRLF.
Definition answer : list Z := chunked ++ concat (chunk <$> [str "hello"; str " world"]) ++ HTTP1ChunkEnd ++ str "HTTP".
End Demo.

Lemma written_covered d : lenZ d < 2 ^ 63 -> covered (Demo.written d).
Proof.
  intros Hd. assert (0 <= lenZ d) by (unfold lenZ; lia). split; [repeat constructor; simpl; lia|]. simpl. lia.
Qed.

(** A property of every rest of a stream, checked. *)
Lemma forall_rests (P : list Z -> bool) d :
  P [] = true -> forallb (fun n => P (drop n d)) (seq 0 (length d)) = true -> forall n, P (drop n d) = true.
Proof.
  intros Hnil Hall n. destruct (decide (n < length d)%nat).
  - rewrite forallb_forall in Hall. apply Hall, list_elem_of_In, elem_of_seq. lia.
  - by rewrite drop_ge by lia.
Qed.

Definition harmless (d : list Z) : bool := small_chunk d && whole_startup d.

Lemma written_tame d :
  lenZ d < 2 ^ 31 -> harmless [] = true ->
  forallb (fun n => harmless (drop n d)) (seq 0 (length d)) = true -> tame (Demo.written d).
Proof.
  intros Hd Hnil Hall. split; [apply written_covered; lia|]. split; [done|]. intros n.
  change (Stream (Demo.written d)) with d. pose proof (forall_rests harmless d Hnil Hall n) as H.
  apply andb_true_iff in H as [H1 H2]. by split_and!; [apply ref_request_announced|apply ref_response_announced|..].
Qed.

Lemma tick_returns_witness :
  exists s o, tick ref_generate 100 1 2 [Demo.conn 1] [] (set_Requests {[Demo.conn 1 := Demo.written Demo.get]} Demo.init)
    Demo.no_records = Done (s, o).
Proof.
  destruct (tick_returns ref_generate 100 1 2 [Demo.conn 1] []
    (set_Requests {[Demo.conn 1 := Demo.written Demo.get]} Demo.init) Demo.no_records) as (s & o & H & _).
  - split; [|intros k r Hr; simpl in Hr; rewrite lookup_empty in Hr; discriminate].
    intros k r Hr. simpl in Hr. apply lookup_singleton_Some in Hr as [_ <-]. split.
    + apply written_tame; vm_compute; reflexivity.
    + apply Nat.ltb_lt. vm_compute; reflexivity.
  - exists s, o. exact H.
Defined.



Lemma connection_sessions_forgotten_witness :
  let s := (ensureSessionKey ref_generate 0 (Demo.scope 1 3) Demo.init).2 in
  view (sessions s) 1 (Demo.scope 1 3) = Some [0] /\
  view (sessions (deleteConnectionSessions 1 (Demo.conn 1) s)) 1 (Demo.scope 1 3) = None.
Proof.
  split; [reflexivity|].
  destruct (connection_sessions_forgotten ref_generate 1 (Demo.conn 1)
    (ensureSessionKey ref_generate 0 (Demo.scope 1 3) Demo.init).2) as (_ & H & _).
  - apply (sessions_ok_later _ 0); [discriminate|]. apply ensure_ok; [apply _|]. apply new_store_ok.
  - apply H; [discriminate|reflexivity].
Defined.

Lemma chunked_response_delivered_witness :
  exists r live s o,
    response_loop ref_generate 4 1 (Demo.conn 1) ProtocolHTTP1 (Demo.written Demo.answer) true Demo.init Demo.no_records
      = Done (r, live, s, o) /\
    Stream r = str "HTTP".
Proof.
  destruct (ReadResponse Demo.answer) as [e|resp] eqn:E; [vm_compute in E; discriminate|].
  destruct (chunked_response_delivered ref_generate 4 1 (Demo.conn 1) (Demo.written Demo.answer) true Demo.init
    Demo.no_records resp Demo.chunked [str "hello"; str " world"] (str "HTTP") (str "hello world"))
    as (r & live & ts & comm & s & o & H1 & _ & H2).
  - apply written_covered. vm_compute; reflexivity.
  - vm_compute; reflexivity.
  - reflexivity.
  - reflexivity.
  - exact E.
  - vm_compute in E. injection E as <-. reflexivity.
  - vm_compute; reflexivity.
  - apply Nat.leb_le. vm_compute; reflexivity.
  - repeat (apply Forall_cons; split; [discriminate|]). apply Forall_nil. exact I.
  - apply Nat.leb_le. reflexivity.
  - vm_compute in E. injection E as <-. vm_compute; reflexivity.
  - exists r, live, s, o. split; [exact H1|exact H2].
Defined.

(** The kernel side: two tasks write, and the collector reads their samples. *)
Definition tls_sample : Tls.event := Tls.Event 0 0 0 0 0 0 0 0 (zeros 16) (zeros (Z.to_nat 65536)).
Definition tls_ring : bpf_ringbuf Tls.event := ref_ringbuf Tls.event tls_sample.
Definition tls_init : Ssl.state TlsTheorems.Demo.calls_map TlsTheorems.Demo.calls_ex_map tls_ring :=
  Ssl.State (MS := TlsTheorems.Demo.calls_map) (ME := TlsTheorems.Demo.calls_ex_map) (RB := tls_ring) ∅ ∅ ([], []).
Definition tls_trace : list (kenv * Ssl.call) :=
  [(TlsTheorems.Demo.k1, Ssl.WriteEntry TlsTheorems.Demo.at_call);
   (TlsTheorems.Demo.k2, Ssl.WriteEntry TlsTheorems.Demo.at_call);
   (TlsTheorems.Demo.k1, Ssl.WriteExit (TlsTheorems.Demo.at_return 14));
   (TlsTheorems.Demo.k2, Ssl.WriteExit (TlsTheorems.Demo.at_return 3))].

Lemma tls_events_collected_witness :
  let es := TlsTheorems.evs (TlsTheorems.run_trace abi_x86_64 tls_trace tls_init) in
  length es = 2%nat /\ exists st, collect ((fun e => (1, fun _ => 0, e)) <$> es) Demo.init = Done st.
Proof.
  cbv zeta. split; [vm_compute; reflexivity|].
  destruct (tls_events_collected (RB := tls_ring) (L := ref_http2) (CP := ref_protocols) (CS := ref_keys) abi_x86_64 tls_trace tls_init
    ((fun e => (1, fun _ => 0, e)) <$> TlsTheorems.evs (TlsTheorems.run_trace abi_x86_64 tls_trace tls_init)) 0)
    as (st & H & _).
  - apply ref_reserves. vm_compute; reflexivity.
  - sized_trace.
  - reflexivity.
  - rewrite <- list_fmap_compose. apply list_fmap_id.
  - exists st. exact H.
Defined.
