(* ===== verification/Policy.v ===== *)
(** The user side of the file operation probe.

    [fileop/probe.go] decodes the samples of the ring buffer, names the operation
    and the access mode, and keeps the events the policy of [fileop/policy.go]
    matches: paths by prefix, suffix, or prefix below a home directory, for reads
    and writes separately. *)

From S2P Require Import Prelude Layout GoStd Wire Collector.

(** ** [export.RawFileOp] *)

Record RawFileOp := {
  fo_ElapsedNs : Z;
  fo_PidTGid : Z;
  fo_UidGid : Z;
  fo_CgroupID : Z;
  fo_Comm : list Z;
  fo_Op : string;
  fo_Access : string;
  fo_Path : list Z;
  fo_NewPath : list Z;
  fo_Bytes : Z;
  fo_Flags : Z;
  fo_Create : bool;
  fo_Truncate : bool;
  fo_Append : bool;
}.

Record RecordFileOp := {
  rfo_id : identity;
  rfo_Comm : list Z;
  rfo_Op : string;
  rfo_Access : string;
  rfo_Path : list Z;
  rfo_NewPath : list Z;
  rfo_Bytes : Z;
  rfo_Flags : Z;
  rfo_Create : bool;
  rfo_Truncate : bool;
  rfo_Append : bool;
}.

Definition RawFileOp_ToRecord (bootTime : Z) (host : list Z) (Resolve : Z -> list Z)
    (raw : RawFileOp) : RecordFileOp := {|
  rfo_id := identify bootTime host Resolve (fo_ElapsedNs raw) (fo_PidTGid raw) (fo_UidGid raw)
    (fo_CgroupID raw);
  rfo_Comm := fo_Comm raw;
  rfo_Op := fo_Op raw;
  rfo_Access := fo_Access raw;
  rfo_Path := fo_Path raw;
  rfo_NewPath := fo_NewPath raw;
  rfo_Bytes := fo_Bytes raw;
  rfo_Flags := fo_Flags raw;
  rfo_Create := fo_Create raw;
  rfo_Truncate := fo_Truncate raw;
  rfo_Append := fo_Append raw |}.

(** ** [fileop/policy.go] *)

Record MatchPolicy := {
  Prefixes : list (list Z);
  HomePrefixes : list (list Z);
  Suffixes : list (list Z);
}.

Record Policy := { Read : MatchPolicy; Write : MatchPolicy }.

Fixpoint matchesAnyPrefix (path : list Z) (prefixes : list (list Z)) : bool :=
  match prefixes with
  | [] => false
  | prefix :: prefixes' => if HasPrefix path prefix then true else matchesAnyPrefix path prefixes'
  end.

Fixpoint matchesAnySuffix (path : list Z) (suffixes : list (list Z)) : bool :=
  match suffixes with
  | [] => false
  | suffix :: suffixes' => if HasSuffix path suffix then true else matchesAnySuffix path suffixes'
  end.

Definition normalizeHomeScopedPath (path : list Z) : option (list Z) :=
  let path := TrimPrefix path (str "/") in
  match path with [] => None | _ => Some path end.

Definition homeScopedPath (path : list Z) : option (list Z) :=
  if bool_decide (path = str "/root") then None
  else match CutPrefix path (str "/root/") with
  | Some rest => normalizeHomeScopedPath rest
  | None =>
      match CutPrefix path (str "/home/") with
      | None => None
      | Some rest =>
          match Cut rest (str "/") with
          | None => None
          | Some (_, suffix) => normalizeHomeScopedPath suffix
          end
      end
  end.

Definition matchPath (path : list Z) (prefixes homePrefixes suffixes : list (list Z)) : bool :=
  if matchesAnyPrefix path prefixes || matchesAnySuffix path suffixes then true
  else match homeScopedPath path with
  | None => false
  | Some homePath => matchesAnyPrefix homePath homePrefixes
  end.

Definition matchesReadPath (p : Policy) (path : list Z) : bool :=
  matchPath path (Prefixes (Read p)) (HomePrefixes (Read p)) (Suffixes (Read p)).

Definition matchesWritePath (p : Policy) (path : list Z) : bool :=
  matchPath path (Prefixes (Write p)) (HomePrefixes (Write p)) (Suffixes (Write p)).

Definition matchesSensitivePath (p : Policy) (path : list Z) : bool :=
  matchesReadPath p path || matchesWritePath p path.

Definition matchesOpen (p : Policy) (raw : RawFileOp) : bool :=
  if String.eqb (fo_Access raw) "read" then matchesReadPath p (fo_Path raw)
  else if String.eqb (fo_Access raw) "write" then matchesWritePath p (fo_Path raw)
  else if String.eqb (fo_Access raw) "read_write"
  then matchesReadPath p (fo_Path raw) || matchesWritePath p (fo_Path raw)
  else false.

Definition Matches (p : Policy) (raw : RawFileOp) : bool :=
  let op := fo_Op raw in
  if String.eqb op "open" then matchesOpen p raw
  else if String.eqb op "mmap_read" then matchesReadPath p (fo_Path raw)
  else if String.eqb op "write" || String.eqb op "mmap_write" then matchesWritePath p (fo_Path raw)
  else if String.eqb op "delete" then matchesWritePath p (fo_Path raw)
  else if String.eqb op "rename"
  then matchesWritePath p (fo_Path raw) || matchesWritePath p (fo_NewPath raw)
  else if String.eqb op "hardlink" || String.eqb op "symlink"
  then matchesSensitivePath p (fo_Path raw) || matchesWritePath p (fo_NewPath raw)
  else false.

(** A policy after it was read. *)
Definition normalizeHomePrefixes (prefixes : list (list Z)) : list (list Z) :=
  (fun prefix => TrimPrefix prefix (str "/")) <$> prefixes.

Definition normalize (p : Policy) : Policy := {|
  Read := {| Prefixes := Prefixes (Read p);
             HomePrefixes := normalizeHomePrefixes (HomePrefixes (Read p));
             Suffixes := Suffixes (Read p) |};
  Write := {| Prefixes := Prefixes (Write p);
              HomePrefixes := normalizeHomePrefixes (HomePrefixes (Write p));
              Suffixes := Suffixes (Write p) |} |}.

(** ** [fileop/probe.go] *)

Definition fileOpOpen : Z := 1.
Definition fileOpWrite : Z := 2.
Definition fileOpDelete : Z := 3.
Definition fileOpRename : Z := 4.
Definition fileOpMmapRead : Z := 5.
Definition fileOpMmapWrite : Z := 6.
Definition fileOpHardlink : Z := 7.
Definition fileOpSymlink : Z := 8.

Definition openAccMode : Z := 3.
Definition openRdOnly : Z := 0.
Definition openWrOnly : Z := 1.
Definition openRdWr : Z := 2.
Definition openAppend : Z := 1024.
Definition openCreate : Z := 64.
Definition openTrunc : Z := 512.

Record fileopEvent := {
  TimestampNs : Z;
  PidTgid : Z;
  UidGid : Z;
  CgroupId : Z;
  Bytes : Z;
  Flags : Z;
  Op : Z;
  Comm : list Z;
  Path : list Z;
  NewPath : list Z;
}.

Definition of_fields (fs : list (list Z)) : option fileopEvent :=
  match fs with
  | [[ts]; [pt]; [ug]; [cg]; [by_]; [fl]; [op]; comm; path; new_path] =>
      Some (Build_fileopEvent ts pt ug cg by_ fl op comm path new_path)
  | _ => None
  end.

Definition decodeOpenAccess (flags : Z) : string :=
  let mode := Z.land flags openAccMode in
  if mode =? openRdOnly then "read"
  else if mode =? openWrOnly then "write"
  else if mode =? openRdWr then "read_write"
  else EmptyString.

(** The name of an operation; [None] is the default case of the switch. *)
Definition op_name (op : Z) : option string :=
  if op =? fileOpOpen then Some "open"
  else if op =? fileOpWrite then Some "write"
  else if op =? fileOpDelete then Some "delete"
  else if op =? fileOpRename then Some "rename"
  else if op =? fileOpMmapRead then Some "mmap_read"
  else if op =? fileOpMmapWrite then Some "mmap_write"
  else if op =? fileOpHardlink then Some "hardlink"
  else if op =? fileOpSymlink then Some "symlink"
  else None.

Definition toRawFileOp (event : fileopEvent) : option RawFileOp :=
  let path := CharsToString (Path event) in
  match path with
  | [] => None
  | _ =>
      match op_name (Op event) with
      | None => None
      | Some op =>
          let open := Op event =? fileOpOpen in
          let flag f := open && negb (Z.land (Flags event) f =? 0) in
          Some {|
            fo_ElapsedNs := TimestampNs event;
            fo_PidTGid := PidTgid event;
            fo_UidGid := UidGid event;
            fo_CgroupID := CgroupId event;
            fo_Comm := CharsToString (Comm event);
            fo_Op := op;
            fo_Access := if open then decodeOpenAccess (Flags event) else EmptyString;
            fo_Path := path;
            fo_NewPath := CharsToString (NewPath event);
            fo_Bytes := Bytes event;
            fo_Flags := Flags event;
            fo_Create := flag openCreate;
            fo_Truncate := flag openTrunc;
            fo_Append := flag openAppend |}
      end
  end.

(** The body of the loop of [Start]. *)
Definition start_body (p : Policy) (raw : list Z) : step RawFileOp :=
  match binary_Read G.fileopEvent raw ≫= of_fields with
  | None => Skip
  | Some event =>
      match toRawFileOp event with
      | None => Skip
      | Some raw => if Matches p raw then Send raw else Skip
      end
  end.

Definition unsupportedFileOpTracepoint (goarch name : string) : bool :=
  if negb (String.eqb goarch "arm64") then false
  else String.eqb name "sys_enter_open" || String.eqb name "sys_exit_open" ||
       String.eqb name "sys_enter_rename" || String.eqb name "sys_enter_link" ||
       String.eqb name "sys_enter_symlink".

(** The tracepoints of [attachFileOpProbes], in order. *)
Definition tracepoints : list string := [
  "sys_enter_open"; "sys_enter_openat"; "sys_enter_openat2"; "sys_exit_open"; "sys_exit_openat";
  "sys_exit_openat2"; "sys_enter_write"; "sys_exit_write"; "sys_enter_mmap"; "sys_enter_close";
  "sys_enter_unlinkat"; "sys_enter_rename"; "sys_enter_renameat"; "sys_enter_renameat2";
  "sys_enter_link"; "sys_enter_linkat"; "sys_enter_symlink"; "sys_enter_symlinkat"]%string.

(** ** [fileop/default-policy.json] *)

Definition default_policy_json : Policy := {|
  Read := {|
    Prefixes := [
    str "/boot"; str "/etc/passwd"; str "/etc/group"; str "/etc/shadow"; str "/etc/ssh/";
    str "/etc/profile"; str "/etc/sudoers"; str "/etc/pam.conf"; str "/etc/bashrc";
    str "/etc/csh.cshrc"; str "/etc/csh.login"];
    HomePrefixes := [
    str ".ssh/"; str ".config/"];
    Suffixes := [
    str ".env"; str ".env.local"; str ".env.production"; str ".env.development";
    str ".env.test"; str ".bashrc"; str ".zshrc"; str ".zprofile"; str ".bash_profile";
    str ".bash_login"; str ".bash_logout"; str ".cshrc"; str ".cshdirs"; str ".profile";
    str ".login"; str ".logout"; str ".history"; str ".bash_history"; str ".zsh_history";
    str ".pem"; str ".key"; str ".npmrc"; str ".pypirc"; str ".netrc"] |};
  Write := {|
    Prefixes := [
    str "/etc"; str "/boot"; str "/lib"; str "/lib64"; str "/bin"; str "/usr/lib";
    str "/usr/local/lib"; str "/usr/local/sbin"; str "/usr/local/bin"; str "/usr/bin";
    str "/usr/sbin"; str "/var/log"; str "/dev/log"];
    HomePrefixes := [
    str ".ssh/"; str ".config/"];
    Suffixes := [
    str ".env"; str ".env.local"; str ".env.production"; str ".env.development";
    str ".env.test"; str ".bashrc"; str ".zshrc"; str ".zprofile"; str ".bash_profile";
    str ".bash_login"; str ".bash_logout"; str ".cshrc"; str ".cshdirs"; str ".profile";
    str ".login"; str ".logout"; str ".history"; str ".bash_history"; str ".zsh_history";
    str ".pem"; str ".key"; str ".npmrc"; str ".pypirc"; str ".netrc"] |} |}.

(** [LoadPolicy] without a file. *)
Definition default_policy : Policy := normalize default_policy_json.
