(* ===== verification/PolicyTheorems.v ===== *)
(** The user side of the file operation probe: theorems.

    What the policy matches, that the user side loses no event but those the
    policy does not match, and that the filters in the kernel do not hide what
    the default policy asks for by prefix. *)

From S2P Require Import Prelude Layout GoStd Helpers RefKernel.
From S2P Require Import FileopPaths Fileop FileopSpec FileopProps FileopTheorems Wire WireTheorems.
From S2P Require Import Collector CollectorTheorems Policy.

(** ** Matching *)

Lemma matchesAnyPrefix_true path ps :
  matchesAnyPrefix path ps = true <-> exists p t, p ∈ ps /\ path = p ++ t.
Proof.
  induction ps as [|p ps IH]; cbn [matchesAnyPrefix]; [set_solver|].
  destruct (HasPrefix path p) eqn:E.
  - apply HasPrefix_true in E as [t Ht]. split; [|done]. intros _. exists p, t. set_solver.
  - rewrite IH. split; intros (q & t & Hq & Ht); [set_solver|].
    apply elem_of_cons in Hq as [->|Hq]; [|set_solver].
    assert (HasPrefix path p = true) by (apply HasPrefix_true; eauto). congruence.
Qed.

Lemma matchesAnySuffix_true path ps :
  matchesAnySuffix path ps = true <-> exists p t, p ∈ ps /\ path = t ++ p.
Proof.
  induction ps as [|p ps IH]; cbn [matchesAnySuffix]; [set_solver|].
  destruct (HasSuffix path p) eqn:E.
  - apply HasSuffix_true in E as [t Ht]. split; [|done]. intros _. exists p, t. set_solver.
  - rewrite IH. split; intros (q & t & Hq & Ht); [set_solver|].
    apply elem_of_cons in Hq as [->|Hq]; [|set_solver].
    assert (HasSuffix path p = true) by (apply HasSuffix_true; eauto). congruence.
Qed.

(** A path below a home directory [d]: what follows the slash, after one more
    slash if there is one. *)
Definition home_dir (d : list Z) : Prop :=
  d = str "/root" \/ exists user, 47 ∉ user /\ d = str "/home/" ++ user.

Definition below_home (path h : list Z) : Prop :=
  exists d, home_dir d /\ h <> [] /\
    (path = d ++ 47 :: 47 :: h \/ path = d ++ 47 :: h /\ forall t, h <> 47 :: t).

Lemma normalizeHomeScopedPath_Some rest h :
  normalizeHomeScopedPath rest = Some h <->
  h <> [] /\ (rest = 47 :: h \/ rest = h /\ forall t, h <> 47 :: t).
Proof.
  unfold normalizeHomeScopedPath, TrimPrefix. change (str "/") with [47].
  destruct (CutPrefix rest [47]) as [t|] eqn:E; simpl.
  - apply CutPrefix_Some in E as ->. simpl. split.
    + destruct t; [done|]. intros. simplify_eq. split; [done|by left].
    + intros [Hh [?|[<- Hn]]]; [|by destruct (Hn t)]. simplify_eq. by destruct h.
  - apply CutPrefix_None in E. split.
    + destruct rest as [|c rest]; [done|]. intros. simplify_eq. split; [done|]. right. split; [done|].
      intros t Ht. apply E. rewrite Ht. by exists t.
    + intros [Hh [->|[-> _]]]; [by destruct E; exists h|]. by destruct h.
Qed.

Lemma homeScopedPath_Some path h : homeScopedPath path = Some h <-> below_home path h.
Proof.
  unfold homeScopedPath, below_home. case_bool_decide as Hr.
  { split; [done|]. subst. intros (d & [->|(user & Hu & ->)] & Hh & [E|[E _]]);
      apply (f_equal (take 6)) in E; done. }
  destruct (CutPrefix path (str "/root/")) as [rest|] eqn:E1.
  { apply CutPrefix_Some in E1 as ->. rewrite normalizeHomeScopedPath_Some. split.
    - intros [Hh [->|[-> Hn]]]; exists (str "/root"); (split; [by left|]); (split; [done|]);
        [by left|by right].
    - intros (d & [->|(user & Hu & ->)] & Hh & [E|[E Hn]]); (split; [done|]);
        try (apply (f_equal (take 2)) in E; done); change (str "/root/") with (str "/root" ++ [47]) in E;
        rewrite <- app_assoc in E; apply app_inv_head in E; simplify_eq/=; [by left|by right]. }
  apply CutPrefix_None in E1.
  destruct (CutPrefix path (str "/home/")) as [rest|] eqn:E2.
  - apply CutPrefix_Some in E2 as ->. change (str "/") with [47].
    destruct (Cut rest [47]) as [[user suffix]|] eqn:E3.
    + apply Cut_Some in E3 as [-> Hu]. rewrite normalizeHomeScopedPath_Some. split.
      * intros [Hh Hs]. exists (str "/home/" ++ user). split; [right; eauto|]. split; [done|].
        rewrite <- !app_assoc. destruct Hs as [->|[-> Hn]]; [by left|by right].
      * intros (d & Hd & Hh & Hs). split; [done|].
        assert (exists t, str "/home/" ++ user ++ 47 :: suffix = d ++ 47 :: t /\
          (t = 47 :: h \/ t = h /\ forall t, h <> 47 :: t)) as (t & Et & Ht)
          by (destruct Hs as [E|[E Hn]]; [exists (47 :: h)|exists h]; split; auto).
        destruct Hd as [->|(user' & Hu' & ->)]; [apply (f_equal (take 2)) in Et; done|].
        rewrite <- app_assoc in Et. apply app_inv_head in Et.
        assert (Cut (user ++ 47 :: suffix) [47] = Some (user, suffix)) as C1 by (by apply Cut_Some).
        rewrite Et in C1. assert (Cut (user' ++ 47 :: t) [47] = Some (user', t)) as C2 by (by apply Cut_Some).
        rewrite C2 in C1. by simplify_eq.
    + apply Cut_None in E3. split; [done|]. intros (d & Hd & Hh & Hs).
      assert (exists t, str "/home/" ++ rest = d ++ 47 :: t) as [t Et]
        by (destruct Hs as [E|[E _]]; eauto).
      destruct Hd as [->|(user' & Hu' & ->)]; [apply (f_equal (take 2)) in Et; done|].
      rewrite <- app_assoc in Et. apply app_inv_head in Et. subst. set_solver.
  - apply CutPrefix_None in E2. split; [done|]. intros (d & Hd & Hh & Hs).
    assert (exists t, path = d ++ 47 :: t) as [t ->] by (destruct Hs as [E|[E _]]; eauto).
    destruct Hd as [->|(user' & Hu' & ->)]; [destruct E1|destruct E2];
      rewrite <- ?app_assoc; [exists t|eexists]; done.
Qed.

(** What a rule of the policy matches: the paths that start with one of the
    prefixes, end with one of the suffixes, or have one of the home prefixes
    below /root or below a directory of /home. *)
Theorem policy_match_exact path prefixes homePrefixes suffixes :
  matchPath path prefixes homePrefixes suffixes = true <->
  (exists p t, p ∈ prefixes /\ path = p ++ t) \/
  (exists p t, p ∈ suffixes /\ path = t ++ p) \/
  (exists h p t, below_home path h /\ p ∈ homePrefixes /\ h = p ++ t).
Proof.
  unfold matchPath. rewrite <- matchesAnyPrefix_true, <- matchesAnySuffix_true.
  destruct (matchesAnyPrefix path prefixes), (matchesAnySuffix path suffixes); cbn [orb];
    try (split; [intros _; auto|done]).
  transitivity (exists h, homeScopedPath path = Some h /\ matchesAnyPrefix h homePrefixes = true).
  { destruct (homeScopedPath path) as [h|]; split; try done.
    - intros. by exists h.
    - by intros (? & ? & ?); simplify_eq.
    - by intros (? & ? & ?). }
  split.
  - intros (h & H1%homeScopedPath_Some & (p & t & Hp & Ht)%matchesAnyPrefix_true). right. right. eauto 10.
  - intros [?|[?|(h & p & t & H1 & Hp & Ht)]]; [done..|]. exists h.
    rewrite homeScopedPath_Some, matchesAnyPrefix_true. eauto.
Qed.

(** ** From the kernel to the record *)

Lemma fileop_decoded fill (e : Fileop.event) :
  wire_shaped e ->
  binary_Read G.fileopEvent (sample fill e) ≫= of_fields = Some {|
    TimestampNs := u64 (ev_timestamp_ns e);
    PidTgid := u64 (ev_pid_tgid e);
    UidGid := u64 (ev_uid_gid e);
    CgroupId := u64 (ev_cgroup_id e);
    Bytes := u64 (ev_bytes e);
    Flags := u64 (ev_flags e);
    Op := u8 (ev_op e);
    Comm := wrap S8 <$> ev_comm e;
    Path := wrap S8 <$> ev_path e;
    NewPath := wrap S8 <$> ev_new_path e |}.
Proof. intros H. decode_event H. Qed.

(** The name of an operation of the kernel. *)
Definition file_op_name (op : file_op_type) : string :=
  match op with
  | FILE_OP_OPEN => "open"
  | FILE_OP_WRITE => "write"
  | FILE_OP_DELETE => "delete"
  | FILE_OP_RENAME => "rename"
  | FILE_OP_MMAP_READ => "mmap_read"
  | FILE_OP_MMAP_WRITE => "mmap_write"
  | FILE_OP_HARDLINK => "hardlink"
  | FILE_OP_SYMLINK => "symlink"
  end.

(** What the policy says of an operation: which of its paths count as read and
    which as written.  An open counts by its access mode; mode 3 is none. *)
Definition wanted (p : Policy) (op : file_op_type) (flags : Z) (path new_path : list Z) : bool :=
  match op with
  | FILE_OP_OPEN =>
      match Z.land flags 3 with
      | 0 => matchesReadPath p path
      | 1 => matchesWritePath p path
      | 2 => matchesReadPath p path || matchesWritePath p path
      | _ => false
      end
  | FILE_OP_MMAP_READ => matchesReadPath p path
  | FILE_OP_WRITE | FILE_OP_MMAP_WRITE | FILE_OP_DELETE => matchesWritePath p path
  | FILE_OP_RENAME => matchesWritePath p path || matchesWritePath p new_path
  | FILE_OP_HARDLINK | FILE_OP_SYMLINK =>
      matchesReadPath p path || matchesWritePath p path || matchesWritePath p new_path
  end.

(** The record of an event of the kernel. *)
Definition raw_of (op : file_op_type) (e : Fileop.event) : RawFileOp :=
  let flag f := match op with FILE_OP_OPEN => negb (Z.land (u64 (ev_flags e)) f =? 0) | _ => false end in
  {| fo_ElapsedNs := u64 (ev_timestamp_ns e);
     fo_PidTGid := u64 (ev_pid_tgid e);
     fo_UidGid := u64 (ev_uid_gid e);
     fo_CgroupID := u64 (ev_cgroup_id e);
     fo_Comm := text (ev_comm e);
     fo_Op := file_op_name op;
     fo_Access := match op with FILE_OP_OPEN => decodeOpenAccess (u64 (ev_flags e)) | _ => EmptyString end;
     fo_Path := text (ev_path e);
     fo_NewPath := text (ev_new_path e);
     fo_Bytes := u64 (ev_bytes e);
     fo_Flags := u64 (ev_flags e);
     fo_Create := flag 64;
     fo_Truncate := flag 512;
     fo_Append := flag 1024 |}.

Lemma acc_mode flags : Z.land flags 3 = 0 \/ Z.land flags 3 = 1 \/ Z.land flags 3 = 2 \/ Z.land flags 3 = 3.
Proof. change 3 with (Z.ones 2) at 1 2 3 4. rewrite Z.land_ones by lia. pose proof (Z.mod_pos_bound flags 4). change (2 ^ 2) with 4. lia. Qed.

Lemma Matches_wanted p op e :
  Matches p (raw_of op e) = wanted p op (u64 (ev_flags e)) (text (ev_path e)) (text (ev_new_path e)).
Proof.
  destruct op; try reflexivity. unfold Matches, raw_of, matchesOpen, wanted. cbn [fo_Op fo_Access fo_Path file_op_name].
  unfold decodeOpenAccess, openAccMode, openRdOnly, openWrOnly, openRdWr.
  destruct (acc_mode (u64 (ev_flags e))) as [->|[->|[->| ->]]]; reflexivity.
Qed.

Lemma toRaw_body fill p op (e : Fileop.event) :
  wire_shaped e -> ev_op e = file_op_code op -> text (ev_path e) <> [] ->
  start_body p (sample fill e) =
  if wanted p op (u64 (ev_flags e)) (text (ev_path e)) (text (ev_new_path e))
  then Send (raw_of op e) else Skip.
Proof.
  intros Hs Hop Hp. unfold start_body. rewrite fileop_decoded by done.
  assert (forall y z w v u t, toRawFileOp {|
      TimestampNs := y; PidTgid := z; UidGid := w; CgroupId := v; Bytes := u;
      Flags := u64 (ev_flags e); Op := u8 (file_op_code op); Comm := t;
      Path := wrap S8 <$> ev_path e; NewPath := wrap S8 <$> ev_new_path e |} =
    Some {| fo_ElapsedNs := y; fo_PidTGid := z; fo_UidGid := w; fo_CgroupID := v;
      fo_Comm := CharsToString t; fo_Op := file_op_name op; fo_Access := fo_Access (raw_of op e);
      fo_Path := text (ev_path e); fo_NewPath := text (ev_new_path e); fo_Bytes := u;
      fo_Flags := u64 (ev_flags e); fo_Create := fo_Create (raw_of op e);
      fo_Truncate := fo_Truncate (raw_of op e); fo_Append := fo_Append (raw_of op e) |}) as Hraw.
  { intros y z w v u t. unfold toRawFileOp.
    cbn [Path NewPath Comm Op Flags TimestampNs PidTgid UidGid CgroupId Bytes].
    rewrite !CharsToString_chars. destruct (text (ev_path e)) eqn:E; [done|]. by destruct op. }
  rewrite Hop, Hraw. rewrite CharsToString_chars.
  change (Build_RawFileOp _ _ _ _ _ _ _ _ _ _ _ _ _ _) with (raw_of op e).
  by rewrite Matches_wanted.
Qed.

Lemma text_pad s : path_string s -> Forall byte (pad s) -> text (pad s) = s.
Proof.
  intros (Hn & H0 & Hl) Hb. rewrite text_bytes by done. unfold pad.
  destruct (MAX_PATH_SIZE - length s)%nat eqn:E; [lia|]. change (zeros (S n)) with (0 :: zeros n).
  by apply cstr_app_nul.
Qed.

(** The shape of an event of the kernel. *)
Lemma fileop_event_shaped k e : sized k -> fileop_from k e -> event_ok e -> wire_shaped e.
Proof.
  intros Hk (_ & _ & _ & _ & Hc) (op & _ & (s & (_ & _ & Hl) & Hp) & Hrest).
  apply fileop_shaped.
  - rewrite Hc. by apply (sized_comm _ Hk 16).
  - rewrite Hp. apply length_pad. lia.
  - assert (ev_new_path e = zero_path \/ path_ok (ev_new_path e)) as [->|(s' & (_ & _ & Hl') & ->)].
    { destruct op; intuition auto. }
    + apply length_zeros.
    + apply length_pad. lia.
Qed.

Section Pipeline.
Context {MO : bpf_map Z path_value} {MW : bpf_map Z Z} {MH : bpf_map Z path_value}.
Context {MF : bpf_map fd_key path_value} {RB : bpf_ringbuf Fileop.event}.
Context `{!HashOk MO, !HashOk MW, !ArrayOk 2 MH, !LruOk MF, !RingbufOk RB}.
Implicit Types s : Fileop.state MO MW MH MF RB.

(** Every event of a trace comes from one of its invocations. *)
Lemma fileop_trace_from tr s :
  exists es, evs (run_trace tr s) = evs s ++ es /\
    Forall (fun e => exists kc, kc ∈ tr /\ fileop_from kc.1 e) es.
Proof.
  revert s. induction tr as [|[k c] tr IH]; intros s; [exists []; by rewrite app_nil_r|].
  rewrite run_trace_cons. cbn [fst snd]. destruct (IH (exec (handle k c) s)) as (es & -> & Hes).
  destruct (fileop_handle_from k c s) as (es0 & -> & Hes0). exists (es0 ++ es).
  split; [by rewrite app_assoc|]. apply Forall_app. split.
  - eapply Forall_impl; [exact Hes0|]. intros e He. exists (k, c). split; [set_solver|done].
  - eapply Forall_impl; [exact Hes|]. intros e (kc & ? & ?). exists kc. split; [set_solver|done].
Qed.

(** C1. File operations, from the kernel to the record.  Along any interleaving
    of the 18 programs, from empty maps, the user side decodes every event of the
    ring buffer whatever its padding holds, and it sends a record of it exactly
    when the policy wants the operation on its paths: nothing else is dropped.
    The record has the task, the operation, the access mode, the flags, the byte
    count and the two paths of the event. *)
Theorem fileop_events_collected tr s fill p e :
  opens s = ∅ -> fds s = ∅ -> evs s = [] ->
  Forall (fun kc => lawful kc.1 /\ sized kc.1) tr -> e ∈ evs (run_trace tr s) ->
  Forall byte (ev_path e) ->
  exists op, ev_op e = file_op_code op /\
  start_body p (sample fill e) =
  if wanted p op (u64 (ev_flags e)) (text (ev_path e)) (text (ev_new_path e))
  then Send (raw_of op e) else Skip.
Proof.
  intros H1 H2 H3 Htr He Hb.
  assert (fileop_inv (run_trace tr s)) as (_ & _ & Hok).
  { apply run_trace_inv; [eapply Forall_impl; [exact Htr|by intros ? []]|].
    unfold fileop_inv. rewrite H1, H2, H3. split_and!; [apply map_Forall_empty..|constructor]. }
  rewrite Forall_forall in Hok. specialize (Hok e He).
  destruct (fileop_trace_from tr s) as (es & Hes & Hfrom). rewrite H3 in Hes. simpl in Hes.
  rewrite Hes in He. rewrite Forall_forall in Hfrom.
  destruct (Hfrom e He) as (kc & Hin & Hk). destruct (proj1 (Forall_forall _ _) Htr kc Hin) as [_ Hsz].
  pose proof Hok as (op & Hop & (s0 & Hs0 & Hp) & _). exists op. split; [done|].
  apply toRaw_body; [by eapply fileop_event_shaped|done|].
  rewrite Hp, text_pad; [by apply Hs0|done|by rewrite <- Hp].
Qed.
End Pipeline.

(** ** The filters of the kernel and the policy *)

(** Two literals neither of which starts the other. *)
Definition apart (p q : list Z) : bool := negb (starts_with p q) && negb (starts_with q p).

Lemma apart_spec p q t : apart p q = true -> starts_with q (p ++ t) = false.
Proof.
  unfold apart, starts_with. intros H. zbool. apply bool_decide_eq_false in H, H0.
  apply bool_decide_eq_false. intros [u Hu].
  destruct (app_eq_inv p t q u Hu) as [(k & -> & _)|(k & -> & _)].
  - apply H0. by exists k.
  - apply H. by exists k.
Qed.

(** The kernel does not hide what the default policy asks for: no path that a
    prefix of the default policy matches, for reading or writing, is dropped by
    a noise filter of the probe. *)
Theorem default_policy_not_masked path :
  (exists p t, p ∈ Prefixes (Read default_policy) ++ Prefixes (Write default_policy) /\
    cstr path = p ++ t) ->
  is_noise_path (Some path) = false /\ path_is_systemd_private_tmp_noise (Some path) = false /\
  path_is_runtime_overlay_noise (Some path) = false.
Proof.
  intros (p & t & Hp & Hpath).
  rewrite is_noise_path_eq, path_is_systemd_private_tmp_noise_eq, path_is_runtime_overlay_noise_eq, Hpath.
  assert (forall qs, forallb (fun q => forallb (fun p => apart p (str q))
      (Prefixes (Read default_policy) ++ Prefixes (Write default_policy))) qs = true ->
    starts_with_one_of qs (p ++ t) = false) as Hall.
  { intros qs Hqs. unfold starts_with_one_of. apply not_true_is_false. rewrite existsb_exists.
    intros (q & Hq & Hst). rewrite forallb_forall in Hqs. specialize (Hqs q Hq).
    rewrite forallb_forall in Hqs. rewrite list_elem_of_In in Hp. specialize (Hqs p Hp).
    by rewrite (apart_spec p (str q) t Hqs) in Hst. }
  split_and!; apply Hall; vm_compute; reflexivity.
Qed.

(** ** Witnesses *)

(** A policy that asks for what is written under the home directories. *)
Definition demo_policy : Policy :=
  {| Read := {| Prefixes := []; HomePrefixes := []; Suffixes := [] |};
     Write := {| Prefixes := [str "/home/"]; HomePrefixes := []; Suffixes := [] |} |}.

Lemma demo_use_sized (tr : list (kenv * Fileop.call)) :
  Forall (fun kc => kc.1 = FileopTheorems.Demo.k1 \/ kc.1 = FileopTheorems.Demo.k2 \/ kc.1 = FileopTheorems.Demo.k3) tr ->
  Forall (fun kc => lawful kc.1 /\ sized kc.1) tr.
Proof.
  intros H. eapply Forall_impl; [exact H|].
  intros kc [-> | [-> | ->]]; (split; [apply ref_lawful|apply ref_sized]).
Qed.

(** An open of a path of bytes that the policy asks for. *)
Definition demo_wanted (e : Fileop.event) : bool :=
  forallb (fun b => (0 <=? b) && (b <? 256)) (ev_path e) && (ev_op e =? file_op_code FILE_OP_OPEN) &&
  wanted demo_policy FILE_OP_OPEN (u64 (ev_flags e)) (text (ev_path e)) (text (ev_new_path e)).

Lemma demo_wanted_spec e :
  demo_wanted e = true ->
  Forall byte (ev_path e) /\ ev_op e = file_op_code FILE_OP_OPEN /\
  wanted demo_policy FILE_OP_OPEN (u64 (ev_flags e)) (text (ev_path e)) (text (ev_new_path e)) = true.
Proof.
  unfold demo_wanted. intros [[Hb Ho]%andb_prop Hw]%andb_prop. split_and!; [|by apply Z.eqb_eq|done].
  rewrite forallb_forall in Hb. apply Forall_forall. intros b Hin%list_elem_of_In%Hb. unfold byte. zbool; lia.
Qed.

Lemma fileop_events_collected_witness :
  exists e r, e ∈ evs (run_trace FileopTheorems.Demo.opened FileopTheorems.Demo.init) /\
    start_body demo_policy (sample (fun _ => 0) e) = Send r /\ fo_Op r = "open".
Proof.
  destruct (length_elem (evs (run_trace FileopTheorems.Demo.opened FileopTheorems.Demo.init)) 0) as [e He].
  { vm_compute; reflexivity. }
  assert (forallb demo_wanted (evs (run_trace FileopTheorems.Demo.opened FileopTheorems.Demo.init)) = true) as Hw
    by (vm_compute; reflexivity).
  rewrite forallb_forall in Hw. apply list_elem_of_In in He as Hin.
  destruct (demo_wanted_spec e (Hw e Hin)) as (Hb & Ho & Hwanted).
  destruct (fileop_events_collected FileopTheorems.Demo.opened FileopTheorems.Demo.init (fun _ => 0) demo_policy e)
    as (op & Hop & H).
  - reflexivity.
  - reflexivity.
  - reflexivity.
  - apply demo_use_sized. repeat (apply Forall_cons; split; [simpl; tauto|]). apply Forall_nil. exact I.
  - exact He.
  - exact Hb.
  - assert (op = FILE_OP_OPEN) as -> by (rewrite Ho in Hop; destruct op; [reflexivity|discriminate..]).
    exists e, (raw_of FILE_OP_OPEN e). split; [exact He|]. split; [rewrite H, Hwanted; reflexivity|reflexivity].
Defined.

Lemma default_policy_not_masked_witness :
  is_noise_path (Some (str "/etc/passwd" ++ [0])) = false.
Proof.
  apply (default_policy_not_masked (str "/etc/passwd" ++ [0])).
  exists (str "/etc/passwd"), []. split; [|reflexivity].
  apply (bool_decide_eq_true_1 _). vm_compute; reflexivity.
Defined.
