(* ===== verification/ExecTheorems.v ===== *)
(** * Process execution probe: theorems

    Exec records decode to what the kernel holds on the process whatever the
    reused buffer held before, and a mapped libssl is reported once. *)

From S2P Require Import Prelude Helpers RefKernel CoreRead CoreReadTheorems Exec.
Import Decoder.

(** ** Decoding *)

Lemma CharsToString_cstr l : CharsToString l = cstr l.
Proof. induction l as [|c l IH]; simpl; [done|]. by rewrite IH. Qed.

Lemma bytes_at_skip l l' off n :
  (length l <= off)%nat -> bytes_at (l ++ l') off n = bytes_at l' (off - length l) n.
Proof. intros. unfold bytes_at. by rewrite drop_app_ge. Qed.

Lemma bytes_at_here l l' n : length l = n -> bytes_at (l ++ l') 0 n = l.
Proof. intros <-. unfold bytes_at. rewrite drop_0. apply take_app_length. Qed.

(** The sizes of the arrays of a buffer and the ranges of its integers. *)
Record proc_ok (p : proc) : Prop := {
  ok_comm : length (p_comm p) = 16%nat;
  ok_filename : length (p_filename p) = 256%nat;
  ok_pad : length (p_pad p) = 7%nat;
}.

Record value_ok (v : exec_value) : Prop := {
  ok_proc : proc_ok (ev_proc v);
  ok_args : length (ev_args v) = 2048%nat;
}.

Record proc_range (p : proc) : Prop := {
  rg_timestamp : 0 <= p_timestamp_ns p < 2 ^ 64;
  rg_start : 0 <= p_start_time_ns p < 2 ^ 64;
  rg_parent_start : 0 <= p_parent_start_time_ns p < 2 ^ 64;
  rg_pid : - 2 ^ 31 <= p_pid p < 2 ^ 31;
  rg_ppid : - 2 ^ 31 <= p_ppid p < 2 ^ 31;
  rg_old_pid : - 2 ^ 31 <= p_old_pid p < 2 ^ 31;
  rg_args_len : 0 <= p_args_len p <= MAX_ARGS_LEN;
  rg_truncated : 0 <= p_args_truncated p < 256;
}.

Definition strip_pad (p : proc) : proc :=
  Proc (p_timestamp_ns p) (p_start_time_ns p) (p_parent_start_time_ns p) (p_pid p) (p_ppid p)
    (p_old_pid p) (p_comm p) (p_filename p) (p_args_len p) (p_args_truncated p) [].

Lemma length_proc_bytes p : proc_ok p -> length (proc_bytes p) = headerSize.
Proof.
  intros [H1 H2 H3]. unfold proc_bytes. rewrite !length_app, !length_le_encode, H1, H2, H3. done.
Qed.

Lemma s32_decode z : - 2 ^ 31 <= z < 2 ^ 31 -> s32 (le_decode (le_encode 4 z)) = z.
Proof.
  intros Hz. rewrite le_decode_encode. change (2 ^ (8 * Z.of_nat 4)) with (2 ^ 32).
  unfold s32. rewrite Z.add_mod_idemp_l by lia. rewrite Z.mod_small by lia. lia.
Qed.

Lemma u_decode n z : 0 <= z < 2 ^ (8 * Z.of_nat n) -> le_decode (le_encode n z) = z.
Proof. intros. rewrite le_decode_encode. by apply Z.mod_small. Qed.

Lemma read_header_bytes p :
  proc_ok p -> proc_range p -> read_header (proc_bytes p) = strip_pad p.
Proof.
  intros [H1 H2 H3] []. unfold read_header, strip_pad, proc_bytes.
  f_equal.
  all: repeat (rewrite bytes_at_skip
    by (rewrite ?length_le_encode, ?H1, ?H2; vm_compute; lia);
    rewrite ?length_le_encode, ?H1, ?H2; cbn [Nat.sub]).
  all: rewrite bytes_at_here by (rewrite ?length_le_encode, ?H1, ?H2; done).
  all: first [done|by apply s32_decode|by apply u_decode|idtac].
  unfold MAX_ARGS_LEN in *. apply u_decode. simpl. lia.
Qed.

(** The decoder accepts every record the probe sends. *)
Lemma parse_record v :
  value_ok v -> proc_range (ev_proc v) ->
  parseExecRecord (take (Z.to_nat (sizeof_proc + p_args_len (ev_proc v))) (exec_value_bytes v)) =
  inr (ParsedExecEvent (strip_pad (ev_proc v))
    (decodeExecArgsBuffer (take (Z.to_nat (p_args_len (ev_proc v))) (ev_args v)))).
Proof.
  intros [Hp Ha] Hr. pose proof (rg_args_len _ Hr) as Hn. unfold MAX_ARGS_LEN in Hn.
  unfold exec_value_bytes, sizeof_proc.
  replace (Z.to_nat (320 + p_args_len (ev_proc v)))
    with (length (proc_bytes (ev_proc v)) + Z.to_nat (p_args_len (ev_proc v)))%nat
    by (rewrite length_proc_bytes by done; unfold headerSize; lia).
  rewrite take_app_add. unfold parseExecRecord. rewrite length_app, length_take, Ha.
  rewrite length_proc_bytes by done.
  rewrite (proj2 (Nat.ltb_ge _ _)) by lia.
  rewrite take_app_length' by (by rewrite length_proc_bytes). rewrite read_header_bytes by done.
  cbn [strip_pad p_args_len]. rewrite (proj2 (Z.ltb_ge MAX_ARGS_LEN _)) by (unfold MAX_ARGS_LEN; lia).
  rewrite (proj2 (Z.eqb_eq _ _)) by lia. cbn [negb]. cbv iota.
  by rewrite drop_app_length' by (by rewrite length_proc_bytes).
Qed.

(** ** Arguments *)

Lemma fields_nul cur l : fields cur (l ++ [0]) = fields cur l.
Proof.
  revert cur. induction l as [|c l IH]; intros cur; simpl; [by rewrite app_nil_r|].
  destruct (c =? 0); by rewrite IH.
Qed.

Lemma trim_right_fields l : fields [] (trim_right l) = fields [] l.
Proof.
  unfold trim_right. induction l as [|c l IH] using rev_ind; [done|].
  rewrite reverse_app. simpl. destruct (Z.eqb_spec c 0) as [->|Hc].
  - by rewrite IH, fields_nul.
  - by rewrite reverse_cons, reverse_involutive.
Qed.

Definition arg_ok (a : list Z) : Prop := a <> [] /\ 0 ∉ a.

Lemma fields_word cur a l :
  0 ∉ a -> cur ++ a <> [] -> fields cur (a ++ 0 :: l) = (cur ++ a) :: fields [] l.
Proof.
  revert cur. induction a as [|c a IH]; intros cur Ha Hne; simpl.
  - rewrite app_nil_r in *. by destruct cur.
  - apply not_elem_of_cons in Ha as [Hc Ha]. rewrite (proj2 (Z.eqb_neq c 0)) by done.
    rewrite IH; [by rewrite <- app_assoc|done|]. by destruct cur.
Qed.

(** The argument area of a process, as the decoder shows it. *)
Lemma decode_args (args : list (list Z)) :
  Forall arg_ok args -> decodeExecArgsBuffer (args ≫= (fun a => a ++ [0])) = join args.
Proof.
  intros Hargs. unfold decodeExecArgsBuffer. rewrite trim_right_fields. f_equal.
  induction Hargs as [|a args [Hne Ha] _ IH]; [done|].
  rewrite bind_cons, <- app_assoc. cbn [app]. by rewrite fields_word, IH by done.
Qed.

(** ** [is_libssl] *)

Section Libssl.
Context (name : list Z) (Hnul : 0 ∈ name).

(** [b] is behind the last '/' of the first [i] characters. *)
Definition base_inv (i b : nat) : Prop :=
  (b <= i)%nat /\ (b = 0%nat \/ rd name (b - 1) = 47) /\
  forall j, (b <= j < i)%nat -> rd name j <> 47.

Lemma libssl_base_spec fuel i base :
  (i + fuel = length name)%nat -> (i <= length (cstr name))%nat -> base_inv i base ->
  base_inv (length (cstr name)) (libssl_base fuel i base name).
Proof.
  revert i base. pose proof (cstr_lt name Hnul).
  induction fuel as [|fuel IH]; intros i base Hf Hi Hb; [lia|]. simpl.
  destruct (Z.eqb_spec (rd name i) 0) as [E|E].
  { destruct (decide (i = length (cstr name))) as [<-|]; [done|].
    exfalso. apply (rd_cstr_ne name i); [lia|done]. }
  assert (i < length (cstr name))%nat.
  { destruct (decide (i = length (cstr name))) as [->|]; [by rewrite rd_cstr_end in E|lia]. }
  apply IH; [lia..|]. destruct Hb as (H1 & H2 & H3). destruct (Z.eqb_spec (rd name i) 47) as [E'|E'].
  - split; [lia|]. split; [right; by rewrite Nat.sub_1_r|lia].
  - split; [lia|]. split; [done|]. intros j Hj. destruct (decide (j = i)) as [->|]; [done|].
    apply H3. lia.
Qed.

Lemma six_chars l :
  (6 <= length l)%nat ->
  (rd l 0 =? 108) && (rd l 1 =? 105) && (rd l 2 =? 98) && (rd l 3 =? 115) && (rd l 4 =? 115)
    && (rd l 5 =? 108) = true <-> str "libssl" `prefix_of` l.
Proof.
  intros Hl. do 6 (destruct l as [|? l]; [simpl in Hl; lia|]). unfold rd. simpl. split.
  - rewrite !andb_true_iff, !Z.eqb_eq. intros (((((-> & ->) & ->) & ->) & ->) & ->). by exists l.
  - intros [l' [= -> -> -> -> -> -> ->]]. done.
Qed.

Lemma cstr_drop n : (n <= length (cstr name))%nat -> cstr (drop n name) = drop n (cstr name).
Proof.
  clear Hnul. revert n. induction name as [|c l IH]; intros [|n]; simpl; try done.
  destruct (Z.eqb_spec c 0) as [->|]; simpl; intros H; [lia|]. apply IH. lia.
Qed.

Lemma libssl_check b :
  (b <= length (cstr name))%nat ->
  (if (length name <? b + 6)%nat then false
   else (rd name b =? 108) && (rd name (b + 1) =? 105) && (rd name (b + 2) =? 98)
     && (rd name (b + 3) =? 115) && (rd name (b + 4) =? 115) && (rd name (b + 5) =? 108)) = true
  <-> str "libssl" `prefix_of` drop b (cstr name).
Proof.
  intros Hb. pose proof (cstr_lt name Hnul). rewrite <- cstr_drop by done.
  rewrite <- prefix_cstr by (apply (bool_decide_eq_false_1 (0 ∈ str "libssl")); reflexivity).
  destruct (Nat.ltb_spec (length name) (b + 6)).
  - split; [done|]. intros Hp%prefix_length. rewrite length_drop in Hp.
    change (length (str "libssl")) with 6%nat in Hp. lia.
  - rewrite <- six_chars by (rewrite length_drop; lia). rewrite !rd_drop, Nat.add_0_r. done.
Qed.

(** A path whose last component starts with libssl. *)
Definition names_libssl (path : list Z) : Prop :=
  exists dir rest, path = dir ++ str "libssl" ++ rest /\ 47 ∉ rest /\
    (dir = [] \/ last dir = Some 47).

Lemma base_libssl b :
  base_inv (length (cstr name)) b ->
  str "libssl" `prefix_of` drop b (cstr name) <-> names_libssl (cstr name).
Proof.
  intros (Hb & Hs & Hno). split.
  - intros [rest Hr]. exists (take b (cstr name)), rest. rewrite <- Hr, take_drop.
    split; [done|]. split.
    + intros [j Hj]%list_elem_of_lookup. assert (drop b (cstr name) !! (6 + j)%nat = Some 47) as Hl
        by (rewrite Hr, lookup_app_r; change (length (str "libssl")) with 6%nat;
            [by replace (6 + j - 6)%nat with j by lia|lia]).
      rewrite lookup_drop in Hl. pose proof (lookup_lt_Some _ _ _ Hl).
      apply (Hno (b + (6 + j))%nat); [lia|]. rewrite <- rd_cstr by done. by apply rd_lookup.
    + destruct Hs as [->|Hs]; [by left|]. destruct b as [|b]; [by left|right].
      simpl in Hs. rewrite Nat.sub_0_r in Hs. rewrite <- (rd_cstr name) in Hs by lia.
      rewrite (take_S_r _ _ 47); [by rewrite last_snoc|]. rewrite <- Hs. apply lookup_rd. lia.
  - intros (dir & rest & E & Hrest & Hdir). assert (b = length dir) as ->;
      [|rewrite E, drop_app_length; by exists rest].
    rewrite E, !length_app in Hb. rewrite E, !length_app in Hno.
    destruct (Nat.lt_trichotomy b (length dir)) as [Hlt|[?|Hlt]]; [exfalso|done|exfalso].
    + destruct Hdir as [->|Hl]; [simpl in Hlt; lia|].
      apply (Hno (length dir - 1)%nat); [lia|].
      rewrite last_lookup in Hl. rewrite <- rd_cstr by (rewrite E, length_app; lia).
      apply rd_lookup. rewrite E, lookup_app_l by lia. by rewrite Nat.sub_1_r.
    + destruct Hs as [->|Hs]; [lia|].
      assert (47 ∉ str "libssl" ++ rest) as Hn.
      { rewrite elem_of_app. intros [Hn|?]; [|done]. revert Hn.
        apply (bool_decide_eq_false_1 (47 ∈ str "libssl")). reflexivity. }
      apply Hn. rewrite <- (rd_cstr name) in Hs by (rewrite E, !length_app; lia).
      rewrite E, rd_app_r in Hs by lia. apply list_elem_of_lookup.
      exists (b - 1 - length dir)%nat. rewrite <- Hs. apply lookup_rd. rewrite length_app. lia.
Qed.

Lemma is_libssl_spec :
  length name = MAX_FILENAME_LEN -> is_libssl name = true <-> names_libssl (cstr name).
Proof.
  intros Hl. assert (base_inv (length (cstr name)) (libssl_base MAX_FILENAME_LEN 0 0 name)) as Hb.
  { apply libssl_base_spec; [by rewrite Hl|lia|]. split; [lia|]. split; [by left|lia]. }
  unfold is_libssl. rewrite <- (base_libssl _ Hb). revert Hb.
  generalize (libssl_base MAX_FILENAME_LEN 0 0 name). intros b [Hb _].
  rewrite <- Hl. by apply libssl_check.
Qed.
End Libssl.

(** ** The process in kernel memory *)

(** What the kernel holds on the process: its parent, their start times, the
    parent's pid and the bounds of the argument area. *)
Record process := Process {
  pr_parent : Z;
  pr_start : Z;
  pr_parent_start : Z;
  pr_ppid : Z;
  pr_mm : Z;
  pr_arg_start : Z;
  pr_arg_end : Z;
}.

(** The member that holds a task's start time. *)
Definition start_member (ro : task_relo) : Z :=
  if negb (bpf_core_field_exists (t_start_boottime ro) =? 0)
  then CORE_RELO (t_start_boottime ro) BPF_FIELD_BYTE_OFFSET else t_start_time ro.

Definition member (m : mem) (p off : Z) (n : nat) (v : Z) : Prop :=
  mem_read m (p + off) n = Some (le_encode n v).

Definition word (v : Z) : Prop := 0 <= v < 2 ^ 64.

Record process_at (m : mem) (ro : task_relo) (task : Z) (pr : process) : Prop := {
  at_parent : member m task (t_real_parent ro) 8 (pr_parent pr);
  at_start : member m task (start_member ro) 8 (pr_start pr);
  at_parent_start : member m (pr_parent pr) (start_member ro) 8 (pr_parent_start pr);
  at_ppid : member m (pr_parent pr) (t_tgid ro) 4 (pr_ppid pr);
  at_mm : member m task (t_mm ro) 8 (pr_mm pr);
  at_arg_start : member m (pr_mm pr) (mm_arg_start ro) 8 (pr_arg_start pr);
  at_arg_end : member m (pr_mm pr) (mm_arg_end ro) 8 (pr_arg_end pr);
  at_pointers : task <> 0 /\ pr_parent pr <> 0 /\ pr_mm pr <> 0;
  at_words : word (pr_parent pr) /\ word (pr_start pr) /\ word (pr_parent_start pr) /\
    word (pr_mm pr) /\ word (pr_arg_start pr) /\ word (pr_arg_end pr);
  at_ppid_range : - 2 ^ 31 <= pr_ppid pr < 2 ^ 31;
}.

Section Record.
Context (k : kenv) (ro : task_relo) (m : mem) (pr : process).
Context (Hm : addressable m) (Hk : resident m (bpf_probe_read_kernel k)).
Local Abbreviation task := (bpf_get_current_task_btf k).
Context (Hat : process_at m ro task pr).

Lemma core_u64_at p off v : word v -> member m p off 8 v -> core_u64 k p off = v.
Proof.
  intros Hv H. unfold core_u64.
  destruct (core_read_field m Hm k 8 p off (le_encode 8 v) Hk) as [_ ->]; [done|exact H|].
  by apply u_decode.
Qed.

Lemma core_pid_at p off v : - 2 ^ 31 <= v < 2 ^ 31 -> member m p off 4 v -> core_pid k p off = v.
Proof.
  intros Hv H. unfold core_pid.
  destruct (core_read_field m Hm k 4 p off (le_encode 4 v) Hk) as [_ ->]; [done|exact H|].
  by apply s32_decode.
Qed.

Lemma start_time_at p v :
  p <> 0 -> word v -> member m p (start_member ro) 8 v -> read_task_start_time k ro p = v.
Proof.
  intros Hp Hv H. unfold read_task_start_time, start_member in *.
  rewrite (proj2 (Z.eqb_neq p 0)) by done. case_match; by apply core_u64_at.
Qed.

(** What is written before the arguments. *)
Lemma fill_proc_at ctxp ctx v :
  let p := ev_proc (fill_proc k ro ctxp ctx v) in
  p_start_time_ns p = pr_start pr /\ p_parent_start_time_ns p = pr_parent_start pr /\
  p_ppid p = pr_ppid pr.
Proof.
  destruct Hat as [H1 H2 H3 H4 _ _ _ (? & ? & ?) (? & ? & ? & ? & ? & ?) ?]. simpl.
  rewrite (core_u64_at _ _ (pr_parent pr)) by done.
  rewrite (proj2 (Z.eqb_neq (pr_parent pr) 0)) by done. simpl.
  rewrite (start_time_at task (pr_start pr)), (start_time_at (pr_parent pr) (pr_parent_start pr)) by done.
  by rewrite (core_pid_at _ _ (pr_ppid pr)).
Qed.

(** The argument area and the part of it that is kept. *)
Context (mu : mem) (area : list Z).
Context (Hu : UserMem k mu).
Context (Harea : mem_read mu (pr_arg_start pr) (length area) = Some area).
Context (Hlen : pr_arg_end pr - pr_arg_start pr = Z.of_nat (length area)) (Hne : area <> []).
Context (Hnf : no_fault k (pr_arg_start pr) (Z.of_nat (length area))).

Definition kept : list Z := take 2048 area.

Lemma read_exec_args_at v :
  read_exec_args k ro v =
  set_args_len (Z.of_nat (length kept))
    (set_args kept (if MAX_ARGS_LEN <? Z.of_nat (length area) then set_args_truncated 1 v else v)).
Proof.
  destruct Hat as [_ _ _ _ H5 H6 H7 (? & ? & ?) (? & ? & ? & ? & ? & ?) _]. unfold read_exec_args.
  assert (0 < Z.of_nat (length area)) as Hpos by (destruct area; [done|simpl; lia]).
  assert (Z.of_nat (length area) < 2 ^ 64) as Hbig by (unfold word in *; lia).
  rewrite (proj2 (Z.eqb_neq task 0)) by done.
  rewrite (core_u64_at task _ (pr_mm pr)) by done.
  rewrite (proj2 (Z.eqb_neq (pr_mm pr) 0)) by done.
  rewrite (core_u64_at _ (mm_arg_start ro) (pr_arg_start pr)),
    (core_u64_at _ (mm_arg_end ro) (pr_arg_end pr)) by done.
  rewrite (proj2 (Z.leb_gt _ _)) by lia. rewrite Hlen, u64_small by lia.
  set (v' := if MAX_ARGS_LEN <? Z.of_nat (length area) then set_args_truncated 1 v else v).
  replace (if MAX_ARGS_LEN <? Z.of_nat (length area) then (MAX_ARGS_LEN, set_args_truncated 1 v)
    else (Z.of_nat (length area), v)) with (Z.of_nat (length kept), v').
  2: { unfold v', kept. rewrite length_take. unfold MAX_ARGS_LEN.
       destruct (Z.ltb_spec 2048 (Z.of_nat (length area))); f_equal; lia. }
  assert (length kept <= length area /\ 0 < length kept <= 2048)%nat as [Hk1 Hk2]
    by (unfold kept; rewrite length_take; lia).
  rewrite u32_small by lia. rewrite (proj2 (Z.eqb_neq _ 0)) by lia.
  pose proof (user_read_at k mu (pr_arg_start pr) (Z.of_nat (length area)) area 0
    (Z.of_nat (length kept))) as Hr. rewrite !Nat2Z.id, Z.add_0_r in Hr.
  rewrite Hr by (done || lia). change (0 <? 0) with false. cbv iota. do 2 f_equal.
  change (Z.to_nat 0) with 0%nat. rewrite drop_0. unfold kept. rewrite length_take.
  destruct (Nat.le_ge_cases 2048 (length area)) as [Hle|Hle].
  - by rewrite Nat.min_l by done.
  - rewrite Nat.min_r by done. rewrite !take_ge by lia. done.
Qed.
End Record.

(** ** The file name *)

(** The __data_loc word of a string of [n] bytes with its NUL at offset [off]. *)
Definition data_loc (n off : Z) : Z := n * 65536 + off.

Section Filename.
Context (k : kenv) (m : mem) (ctxp off : Z) (name : list Z).
Context (Hspec : probe_read_str_spec m (bpf_probe_read_str k)).
Context (Hoff : 0 <= off < 65536) (Hctxp : 0 <= ctxp < 2 ^ 63).
Context (Hname : 0 ∉ name) (Hlen : Z.of_nat (length name) + 1 < 65536).
Context (Hm : mem_read m (ctxp + off) (S (length name)) = Some (name ++ [0])).
Local Abbreviation loc := (data_loc (Z.of_nat (length name) + 1) off).
Context (Hok : 0 < (bpf_probe_read_str k (filename_length loc) (filename_ptr ctxp loc)).1).

Lemma filename_read :
  (bpf_probe_read_str k (filename_length loc) (filename_ptr ctxp loc)).2 = take 255 name ++ [0].
Proof.
  assert (filename_ptr ctxp loc = ctxp + off) as Hptr.
  { unfold filename_ptr, data_loc. change 65535 with (Z.ones 16). rewrite Z.land_ones by lia.
    change (2 ^ 16) with 65536. rewrite (Z.add_comm (_ * 65536)), Z.mod_add, Z.mod_small by lia.
    apply u64_small. lia. }
  assert (filename_length loc = Z.min 256 (Z.of_nat (length name) + 1)) as Hl.
  { unfold filename_length, data_loc. rewrite Z.shiftr_div_pow2 by lia. change (2 ^ 16) with 65536.
    rewrite Z.div_add_l, Z.div_small, Z.add_0_r by lia. change (Z.of_nat MAX_FILENAME_LEN) with 256.
    destruct (Z.ltb_spec 256 (Z.of_nat (length name) + 1)); lia. }
  rewrite Hptr, Hl in Hok |- *. rewrite (read_str_string m _ _ _ name) by (done || lia). f_equal.
  destruct (Nat.le_ge_cases (length name) 255).
  - rewrite !take_ge by lia. done.
  - f_equal. lia.
Qed.

Lemma filename_bytes dst :
  length dst = 256%nat ->
  let f := overlay dst (bpf_probe_read_str k (filename_length loc) (filename_ptr ctxp loc)).2 in
  length f = 256%nat /\ cstr f = take 255 name.
Proof.
  intros Hd. cbv zeta. rewrite filename_read. split.
  - rewrite length_overlay; [done|]. rewrite length_app, length_take, Hd. cbn [length]. lia.
  - unfold overlay. rewrite <- app_assoc. apply cstr_app_nul. intros H.
    apply Hname. rewrite <- (take_drop 255 name). apply elem_of_app. by left.
Qed.
End Filename.

(** ** The machine at an exec

    Kernel memory [m] holds the process [pr] and, at offset [off] behind the
    tracepoint context, the file name; user memory [mu] holds the argument area.
    The reads of both succeed. *)
Record exec_env (k : kenv) (ro : task_relo) (m mu : mem) (ctxp : Z) (ctx : sched_process_ctx)
    (name : list Z) (pr : process) (area : list Z) : Prop := {
  en_addressable : addressable m;
  en_kernel : resident m (bpf_probe_read_kernel k);
  en_process : process_at m ro (bpf_get_current_task_btf k) pr;
  en_time : 0 <= bpf_ktime_get_ns k < 2 ^ 64;
  en_comm : comm_spec (bpf_get_current_comm k);
  en_pids : - 2 ^ 31 <= sp_pid ctx < 2 ^ 31 /\ - 2 ^ 31 <= sp_old_pid ctx < 2 ^ 31;
  en_ctxp : 0 <= ctxp < 2 ^ 63;
  en_read_str : probe_read_str_spec m (bpf_probe_read_str k);
  en_name : 0 ∉ name /\ Z.of_nat (length name) + 1 < 65536;
  en_name_at : exists off, 0 <= off < 65536 /\
    sp_filename ctx = data_loc (Z.of_nat (length name) + 1) off /\
    mem_read m (ctxp + off) (S (length name)) = Some (name ++ [0]);
  en_name_read : 0 < (bpf_probe_read_str k (filename_length (sp_filename ctx))
    (filename_ptr ctxp (sp_filename ctx))).1;
  en_user : UserMem k mu;
  en_area : mem_read mu (pr_arg_start pr) (length area) = Some area;
  en_area_len : pr_arg_end pr - pr_arg_start pr = Z.of_nat (length area) /\ area <> [];
  en_no_fault : no_fault k (pr_arg_start pr) (Z.of_nat (length area));
}.

Section Value.
Context (k : kenv) (ro : task_relo) (m mu : mem) (ctxp : Z) (ctx : sched_process_ctx).
Context (name : list Z) (pr : process) (area : list Z) (v : exec_value).
Context (Henv : exec_env k ro m mu ctxp ctx name pr area) (Hv : value_ok v).

Definition after : exec_value := read_exec_args k ro (fill_proc k ro ctxp ctx v).

Lemma after_eq :
  after = set_args_len (Z.of_nat (length (kept area))) (set_args (kept area)
    (if MAX_ARGS_LEN <? Z.of_nat (length area)
     then set_args_truncated 1 (fill_proc k ro ctxp ctx v) else fill_proc k ro ctxp ctx v)).
Proof. destruct Henv. destruct en_area_len0. by eapply read_exec_args_at. Qed.

Lemma length_kept : (length (kept area) <= 2048)%nat.
Proof. unfold kept. rewrite length_take. lia. Qed.

Lemma filename_after :
  let f := p_filename (ev_proc (fill_proc k ro ctxp ctx v)) in
  length f = 256%nat /\ cstr f = take 255 name.
Proof.
  destruct Henv, en_name0, en_name_at0 as (off & ? & E & ?). simpl. rewrite E in *.
  eapply filename_bytes; try done. apply Hv.
Qed.

Lemma after_ok : value_ok after.
Proof.
  rewrite after_eq. destruct filename_after as [Hf _]. destruct Hv as [[Hc _ Hp] Ha].
  destruct (en_comm _ _ _ _ _ _ _ _ _ Henv TASK_COMM_LEN) as [Hcl _]; [done|].
  pose proof length_kept. split.
  - case_match; split; simpl in *; done.
  - case_match; simpl; rewrite length_overlay; lia.
Qed.

Lemma after_range : proc_range (ev_proc after).
Proof.
  pose proof length_kept. destruct Henv. destruct en_process0. 
  destruct (fill_proc_at k ro m pr en_addressable0 en_kernel0 (en_process _ _ _ _ _ _ _ _ _ Henv) ctxp ctx v)
    as (Hst & Hpst & Hpp). cbv zeta in *.
  rewrite after_eq. unfold word in *. case_match; split; unfold MAX_ARGS_LEN; cbn [ev_proc
    set_args_len set_args set_args_truncated p_timestamp_ns p_start_time_ns p_parent_start_time_ns p_pid
    p_ppid p_old_pid p_args_len p_args_truncated]; rewrite ?Hst, ?Hpst, ?Hpp; simpl; try done; lia.
Qed.
End Value.

Section Props.
Context {MO : bpf_map Z open_value} {MH : bpf_map Z exec_value} {MM : bpf_map open_key open_value}.
Context {RP : bpf_output_ringbuf} {RD : bpf_ringbuf dynlib}.
Context `{!HashOk MO, !ArrayOk 1 MH, !LruOk MM, !OutputRingbufOk RP, !RingbufOk RD}.
Context (ro : task_relo).
Local Abbreviation st := (state MO MH MM RP RD).
Implicit Types (s : st) (k : kenv).

Definition heap (s : st) : option exec_value := contents (st_exec_heap s) !! 0.
Definition procs (s : st) : list (list Z) := records (st_proc_events s).
Definition opened (s : st) : gmap Z open_value := contents (st_inflight_open s).
Definition mapped (s : st) : gmap open_key open_value := contents (st_inflight_mmap s).
Definition libs (s : st) : list dynlib := samples (st_dynlib_events s).

(** The ring buffer of exec records has room. *)
Definition accepts (r : RP) : Prop := forall data n, (ringbuf_output r data n 0).1 = 0.

Lemma exec_spec k ctxp ctx s v :
  heap s = Some v -> sp_pid ctx <> 0 -> accepts (st_proc_events s) ->
  let v' := read_exec_args k ro (fill_proc k ro ctxp ctx v) in
  let s' := exec (handle ro k (SchedProcessExec ctxp ctx)) s in
  0 <= p_args_len (ev_proc v') <= MAX_ARGS_LEN ->
  heap s' = Some v' /\
  procs s' = procs s ++ [take (Z.to_nat (sizeof_proc + p_args_len (ev_proc v'))) (exec_value_bytes v')].
Proof.
  unfold heap. intros Hv Hpid Hacc. cbv zeta.
  set (v' := read_exec_args k ro (fill_proc k ro ctxp ctx v)). intros Hlen.
  unfold handle, tracepoint_sched_process_exec. rewrite (proj2 (Z.eqb_neq _ 0)) by done.
  prog_unfold. unfold bpf_map_lookup_elem. cbn [fget exec_heap]. rewrite lookup_elem_contents, Hv.
  fold v'. rewrite (proj2 (Z.ltb_ge MAX_ARGS_LEN _)) by lia.
  unfold map_store, bpf_ringbuf_output. cbn [fget fset exec_heap proc_events st_proc_events].
  rewrite u32_small by (unfold sizeof_proc, MAX_ARGS_LEN in *; lia).
  pose proof (output_ok (st_proc_events s) (exec_value_bytes v')
    (sizeof_proc + p_args_len (ev_proc v')) 0 (Hacc _ _)) as Ho.
  destruct (ringbuf_output _ _ _ _) as [r b]. simpl in *. split; [|exact Ho].
  rewrite store_elem_contents by (by rewrite Hv). apply lookup_insert_eq.
Qed.

(** C9. An exec event, from the tracepoint to the user side.  Whatever the
    reused buffer held before, the record sent is one that the decoder accepts,
    and what it decodes to is what the kernel holds: the pids, the start times
    of the process and its parent, the task name, the file name (255 bytes at
    most), and the arguments separated by blanks, from the first 2048 bytes of
    the argument area; the truncation flag says whether the area is longer. *)
Theorem exec_record_decoded k m mu ctxp ctx name pr area s v :
  let s' := exec (handle ro k (SchedProcessExec ctxp ctx)) s in
  heap s = Some v -> value_ok v -> accepts (st_proc_events s) -> sp_pid ctx <> 0 ->
  exec_env k ro m mu ctxp ctx name pr area ->
  exists raw e, procs s' = procs s ++ [raw] /\ parseExecRecord raw = inr e /\
  (exists v', heap s' = Some v' /\ value_ok v') /\
  let p := pe_proc e in
  p_timestamp_ns p = bpf_ktime_get_ns k /\ p_pid p = sp_pid ctx /\ p_old_pid p = sp_old_pid ctx /\
  p_ppid p = pr_ppid pr /\ p_start_time_ns p = pr_start pr /\
  p_parent_start_time_ns p = pr_parent_start pr /\
  CharsToString (p_comm p) = cstr (bpf_get_current_comm k TASK_COMM_LEN) /\
  CharsToString (p_filename p) = take 255 name /\
  pe_args e = decodeExecArgsBuffer (take 2048 area) /\
  (p_args_truncated p = 0 <-> (length area <= 2048)%nat) /\
  (forall args, Forall arg_ok args -> area = args ≫= (fun a => a ++ [0]) ->
     (length area <= 2048)%nat -> pe_args e = join args).
Proof.
  cbv zeta. intros Hh Hv Hacc Hpid Henv.
  pose proof (after_ok k ro m mu ctxp ctx name pr area v Henv Hv) as Hok.
  pose proof (after_range k ro m mu ctxp ctx name pr area v Henv) as Hrg.
  destruct (exec_spec k ctxp ctx s v Hh Hpid Hacc) as [Hh' Hp']; [apply Hrg|].
  fold (after k ro ctxp ctx v) in Hh', Hp'.
  eexists _, _. split; [exact Hp'|]. split; [by apply parse_record|]. split; [by eexists|].
  pose proof (filename_after k ro m mu ctxp ctx name pr area v Henv Hv) as [_ Hf].
  destruct (fill_proc_at k ro m pr (en_addressable _ _ _ _ _ _ _ _ _ Henv)
    (en_kernel _ _ _ _ _ _ _ _ _ Henv) (en_process _ _ _ _ _ _ _ _ _ Henv) ctxp ctx v)
    as (Hst & Hpst & Hpp).
  assert (take (Z.to_nat (p_args_len (ev_proc (after k ro ctxp ctx v)))) (ev_args (after k ro ctxp ctx v))
    = take 2048 area) as Hargs.
  { rewrite (after_eq k ro m mu ctxp ctx name pr area v Henv). case_match; simpl; rewrite Nat2Z.id; apply take_overlay. }
  assert (forall args, Forall arg_ok args -> area = args ≫= (fun a => a ++ [0]) ->
     (length area <= 2048)%nat -> decodeExecArgsBuffer (take 2048 area) = join args) as Hjoin.
  { intros args Hall -> Hl. rewrite take_ge by done. by apply decode_args. }
  cbn [pe_proc pe_args]. rewrite Hargs, !CharsToString_cstr.
  rewrite (after_eq k ro m mu ctxp ctx name pr area v Henv). unfold MAX_ARGS_LEN.
  destruct (Z.ltb_spec 2048 (Z.of_nat (length area))); repeat (split; [done|]);
    (split; [simpl; split; [done || lia|lia]|exact Hjoin]).
Qed.

(** *** Libraries *)

(** The file name an openat call records, if it does. *)
Definition recorded k (ctx : openat_ctx) : option open_value :=
  let '(length, bs) := bpf_probe_read_user_str k 256 (oc_filename ctx) in
  let name := overlay (zeros 256) bs in
  if (s32 length <=? 0) || negb (is_libssl name) then None else Some (OpenValue name).

Lemma recorded_inv k ctx ov :
  recorded k ctx = Some ov ->
  is_libssl (ov_filename ov) = true /\
  ov_filename ov = overlay (zeros 256) (bpf_probe_read_user_str k 256 (oc_filename ctx)).2.
Proof.
  unfold recorded. destruct (bpf_probe_read_user_str k 256 (oc_filename ctx)) as [n bs].
  cbn [snd]. generalize (overlay (zeros 256) bs). intros name.
  destruct (s32 n <=? 0); [done|]. destruct (is_libssl name) eqn:E; [|done].
  intros [= <-]. done.
Qed.

Lemma enter_openat_spec k ctx s :
  exec (handle ro k (SysEnterOpenat ctx)) s =
  match recorded k ctx with
  | Some ov => fset inflight_open
      (update_elem (st_inflight_open s) (bpf_get_current_pid_tgid k) ov BPF_ANY).2 s
  | None => s
  end.
Proof.
  unfold handle, tracepoint_sys_enter_openat, recorded.
  change (Z.of_nat MAX_FILENAME_LEN) with 256. change MAX_FILENAME_LEN with 256%nat.
  destruct (bpf_probe_read_user_str k 256 (oc_filename ctx)) as [n bs].
  destruct (s32 n <=? 0); [done|]. cbn [orb ov_filename]. destruct (is_libssl _); [|done].
  cbn [negb]. prog_unfold. unfold bpf_map_update_elem. cbn [fget inflight_open].
  by destruct (update_elem _ _ _ _).
Qed.

Lemma exit_openat_spec k ctx s :
  let pid := bpf_get_current_pid_tgid k in
  let s' := exec (handle ro k (SysExitOpenat ctx)) s in
  libs s' = libs s /\
  match opened s !! pid with
  | Some ov =>
      opened s' = delete pid (opened s) /\
      st_inflight_mmap s' =
        (if ox_ret ctx <? 0 then st_inflight_mmap s
         else (update_elem (st_inflight_mmap s) (OpenKey (ox_ret ctx) pid) ov BPF_ANY).2)
  | None => s' = s
  end.
Proof.
  cbv zeta. unfold handle, tracepoint_sys_exit_openat. prog_unfold. unfold bpf_map_lookup_elem.
  cbn [fget inflight_open]. rewrite lookup_elem_contents. fold (opened s).
  destruct (opened s !! _) as [ov|]; [|done].
  unfold bpf_map_update_elem, bpf_map_delete_elem, opened.
  rewrite <- hash_delete_contents.
  destruct (ox_ret ctx <? 0); cbn [fget fset inflight_mmap inflight_open st_inflight_open].
  - by destruct (delete_elem _ _).
  - destruct (update_elem _ _ _ _) as [r mm]. cbn [st_inflight_open]. by destruct (delete_elem _ _).
Qed.

Definition lib_key k (fd : Z) : open_key := OpenKey (s64 fd) (bpf_get_current_pid_tgid k).

Definition can_reserve (s : st) : Prop :=
  exists e r, ringbuf_reserve (st_dynlib_events s) sizeof_dynlib 0 = (Some e, r).

Lemma mmap_spec k ctx s :
  let key := lib_key k (mc_fd ctx) in
  let s' := exec (handle ro k (SysEnterMmap ctx)) s in
  opened s' = opened s /\
  match mapped s !! key with
  | Some ov =>
      mapped s' = delete key (mapped s) /\
      libs s' = libs s ++ [Dynlib (mc_fd ctx) (bpf_get_current_pid_tgid k)
        (bpf_get_current_comm k TASK_COMM_LEN) (ov_filename ov)] \/
      mapped s' = mapped s /\ libs s' = libs s /\ ~ can_reserve s
  | None => s' = s
  end.
Proof.
  cbv zeta. unfold handle, tracepoint_sys_enter_mmap. fold (lib_key k (mc_fd ctx)).
  prog_unfold. unfold bpf_map_lookup_elem. cbn [fget inflight_mmap]. rewrite lookup_elem_contents.
  fold (mapped s). destruct (mapped s !! _) as [ov|]; [|done].
  unfold bpf_ringbuf_reserve. cbn [fget fset dynlib_events].
  pose proof (reserve_samples (st_dynlib_events s) sizeof_dynlib 0) as Hs. unfold can_reserve.
  destruct (ringbuf_reserve (st_dynlib_events s) sizeof_dynlib 0) as [[e|] rb]; cbn [snd] in Hs.
  - unfold bpf_ringbuf_submit, bpf_map_delete_elem, mapped, libs.
    rewrite <- lru_delete_contents. cbn. destruct (delete_elem _ _) as [r d]. cbn.
    split; [done|]. left. by rewrite submit_samples, Hs.
  - split; [done|]. right. unfold libs. cbn. rewrite Hs. repeat split. intros (? & ? & ?). done.
Qed.

Lemma lib_close_spec k ctx s :
  let s' := exec (handle ro k (SysEnterClose ctx)) s in
  opened s' = opened s /\ libs s' = libs s /\
  mapped s' = delete (lib_key k (cc_fd ctx)) (mapped s).
Proof.
  cbv zeta. unfold handle, tracepoint_sys_enter_close. fold (lib_key k (cc_fd ctx)).
  prog_unfold. unfold bpf_map_delete_elem, mapped. rewrite <- lru_delete_contents.
  cbn [fget inflight_mmap]. by destruct (delete_elem _ _).
Qed.

Lemma exec_frame k ctxp ctx s :
  let s' := exec (handle ro k (SchedProcessExec ctxp ctx)) s in
  opened s' = opened s /\ libs s' = libs s /\ mapped s' = mapped s.
Proof.
  cbv zeta. unfold handle, tracepoint_sched_process_exec. case_match; [done|].
  prog_unfold. unfold bpf_map_lookup_elem. destruct (lookup_elem _ _); [|done].
  unfold map_store, bpf_ringbuf_output. case_match; [done|]. cbn. by destruct (ringbuf_output _ _ _ _).
Qed.

(** *** Traces *)

Definition run_trace (tr : list (kenv * call)) (s : st) : st :=
  run ((fun kc => handle ro kc.1 kc.2) <$> tr) s.

Lemma exec_trace_snoc tr k c s :
  run_trace (tr ++ [(k, c)]) s = exec (handle ro k c) (run_trace tr s).
Proof. unfold run_trace. by rewrite fmap_app, run_app. Qed.

(** Other tasks do not touch what a task is opening. *)
Lemma handle_opened k c pid s :
  bpf_get_current_pid_tgid k <> pid -> opened (exec (handle ro k c) s) !! pid = opened s !! pid.
Proof.
  intros Hpid. destruct c as [ctxp ctx|ctx|ctx|ctx|ctx].
  - by destruct (exec_frame k ctxp ctx s) as [-> _].
  - rewrite enter_openat_spec. case_match; [|done]. unfold opened. simpl. by apply update_other_hash.
  - destruct (exit_openat_spec k ctx s) as [_ H]. case_match; [|by rewrite H].
    destruct H as [-> _]. by apply lookup_delete_ne.
  - by destruct (mmap_spec k ctx s) as [-> _].
  - by destruct (lib_close_spec k ctx s) as [-> _].
Qed.

Lemma run_trace_opened tr pid s :
  Forall (fun kc => bpf_get_current_pid_tgid kc.1 <> pid) tr ->
  opened (run_trace tr s) !! pid = opened s !! pid.
Proof.
  induction tr as [|[k c] tr IH] using rev_ind; [done|]. rewrite Forall_app, Forall_singleton.
  intros [Htr Hk]. rewrite exec_trace_snoc, handle_opened by done. by apply IH.
Qed.

(** The program neither maps or closes the file of [key] nor opens another one
    under its descriptor. *)
Definition leaves (key : open_key) (kc : kenv * call) : Prop :=
  bpf_get_current_pid_tgid kc.1 <> ok_pid_tgid key \/
  match kc.2 with
  | SysExitOpenat ctx => ox_ret ctx <> ok_fd key
  | SysEnterMmap ctx => s64 (mc_fd ctx) <> ok_fd key
  | SysEnterClose ctx => s64 (cc_fd ctx) <> ok_fd key
  | _ => True
  end.

(** An entry is then kept, or evicted. *)
Lemma handle_mapped k c key w s :
  leaves key (k, c) -> mapped (exec (handle ro k c) s) !! key = Some w -> mapped s !! key = Some w.
Proof.
  unfold leaves. cbn [fst snd]. intros Hl. destruct c as [ctxp ctx|ctx|ctx|ctx|ctx].
  - by destruct (exec_frame k ctxp ctx s) as (_ & _ & ->).
  - rewrite enter_openat_spec. by case_match.
  - destruct (exit_openat_spec k ctx s) as [_ H]. case_match; [|by rewrite H].
    destruct H as [_ H]. unfold mapped. rewrite H. case_match; [done|]. apply update_other.
    destruct key. intros [= <- <-]. simpl in Hl. tauto.
  - destruct (mmap_spec k ctx s) as [_ H]. case_match; [|by rewrite H].
    destruct H as [[-> _]|[-> _]]; [|done]. by intros [_ ?]%lookup_delete_Some.
  - destruct (lib_close_spec k ctx s) as (_ & _ & ->). by intros [_ ?]%lookup_delete_Some.
Qed.

Lemma run_trace_mapped tr key w s :
  Forall (leaves key) tr -> mapped (run_trace tr s) !! key = Some w -> mapped s !! key = Some w.
Proof.
  induction tr as [|[k c] tr IH] using rev_ind; [done|]. rewrite Forall_app, Forall_singleton.
  intros [Htr Hk]. rewrite exec_trace_snoc. intros H. apply IH; [done|]. by eapply handle_mapped.
Qed.

(** What an openat of a readable libssl path records. *)
Definition name_value (name : list Z) : open_value := OpenValue (overlay (zeros 256) (name ++ [0])).

Lemma name_value_cstr name : 0 ∉ name -> cstr (ov_filename (name_value name)) = name.
Proof. intros. unfold name_value, overlay. simpl. rewrite <- app_assoc. by apply cstr_app_nul. Qed.

Lemma recorded_libssl k mu ctx name :
  UserMem k mu -> 0 ∉ name -> (length name <= 255)%nat ->
  mem_read mu (oc_filename ctx) (S (length name)) = Some (name ++ [0]) ->
  0 < (bpf_probe_read_user_str k 256 (oc_filename ctx)).1 -> names_libssl name ->
  recorded k ctx = Some (name_value name).
Proof.
  intros Hu Hn Hl Hm Hok Hlib. unfold recorded.
  pose proof (read_str_string mu _ 256 (oc_filename ctx) name user_read_str) as Hr.
  pose proof (user_read_str (k := k) 256 (oc_filename ctx)) as Hs.
  destruct (bpf_probe_read_user_str k 256 (oc_filename ctx)) as [ret bs]. cbn [fst snd] in *.
  rewrite Hr by (done || lia). rewrite take_ge by lia.
  destruct Hs as [Hb [?|(_ & t & _ & Hret & _)]]; [lia..|].
  rewrite s32_small by lia. rewrite (proj2 (Z.leb_gt _ _)) by lia.
  assert (is_libssl (ov_filename (name_value name)) = true) as Hy.
  { apply is_libssl_spec; [| |by rewrite name_value_cstr].
    - unfold name_value, overlay. simpl. rewrite !elem_of_app. left. right.
      by apply list_elem_of_singleton.
    - simpl. rewrite length_overlay; rewrite length_zeros; [done|].
      rewrite length_app. cbn [length]. lia. }
  cbn [orb]. unfold name_value in *. simpl in Hy. by rewrite Hy.
Qed.

(** The test of the library probe: it holds exactly of the names whose last
    path component starts with libssl. *)
Theorem is_libssl_correct name :
  length name = MAX_FILENAME_LEN -> 0 ∈ name -> is_libssl name = true <-> names_libssl (cstr name).
Proof. intros Hl Hn. by apply is_libssl_spec. Qed.

(** A libssl that a task opens and maps.  Between entry and exit of the
    open other tasks run, then programs that leave the descriptor alone, then
    the task maps it.  Unless the entry was evicted or the ring buffer is full,
    one event names the task, the descriptor and the path, and mapping the file
    again is silent. *)
Theorem libssl_mapped_reported k1 octx tr1 k2 xctx tr2 k3 mctx mu name s :
  let pid := bpf_get_current_pid_tgid k1 in
  let key := OpenKey (ox_ret xctx) pid in
  let s2 := run_trace tr1 (exec (handle ro k1 (SysEnterOpenat octx)) s) in
  let s3 := exec (handle ro k2 (SysExitOpenat xctx)) s2 in
  let s4 := run_trace tr2 s3 in
  let s5 := exec (handle ro k3 (SysEnterMmap mctx)) s4 in
  UserMem k1 mu -> 0 ∉ name -> (length name <= 255)%nat ->
  mem_read mu (oc_filename octx) (S (length name)) = Some (name ++ [0]) ->
  0 < (bpf_probe_read_user_str k1 256 (oc_filename octx)).1 -> names_libssl name ->
  (update_elem (st_inflight_open s) pid (name_value name) BPF_ANY).1 = 0 ->
  Forall (fun kc => bpf_get_current_pid_tgid kc.1 <> pid) tr1 ->
  bpf_get_current_pid_tgid k2 = pid -> 0 <= ox_ret xctx < 2 ^ 63 ->
  (update_elem (st_inflight_mmap s2) key (name_value name) BPF_ANY).1 = 0 ->
  Forall (leaves key) tr2 -> bpf_get_current_pid_tgid k3 = pid -> mc_fd mctx = ox_ret xctx ->
  opened s3 !! pid = None /\
  (mapped s4 !! key = None /\ s5 = s4 \/
   mapped s4 !! key = Some (name_value name) /\
   (can_reserve s4 ->
      libs s5 = libs s4 ++ [Dynlib (ox_ret xctx) pid (bpf_get_current_comm k3 TASK_COMM_LEN) (ov_filename (name_value name))] /\
      exec (handle ro k3 (SysEnterMmap mctx)) s5 = s5)).
Proof.
  cbv zeta. intros Hu Hn Hl Hm Hok Hlib Hup1 Htr1 Hk2 Hfd Hup2 Htr2 Hk3 Hmfd.
  set (s2 := run_trace tr1 _) in *. set (s3 := exec _ s2). set (s4 := run_trace tr2 s3).
  assert (opened s2 !! bpf_get_current_pid_tgid k1 = Some (name_value name)) as Ho.
  { unfold s2. rewrite run_trace_opened by done. rewrite enter_openat_spec.
    rewrite (recorded_libssl k1 mu octx name) by done. unfold opened. simpl. by apply lru_update_some. }
  destruct (exit_openat_spec k2 xctx s2) as [_ H3]. fold s3 in H3. rewrite Hk2, Ho in H3.
  rewrite (proj2 (Z.ltb_ge _ 0)) in H3 by lia. destruct H3 as [Ho3 Hm3].
  split; [rewrite Ho3; apply lookup_delete_eq|].
  pose proof (mmap_spec k3 mctx s4) as [_ H5]. pose proof (mmap_spec k3 mctx (exec (handle ro k3 (SysEnterMmap mctx)) s4)) as [_ H6].
  unfold lib_key in H5, H6. rewrite Hk3, Hmfd, s64_small in H5, H6 by lia.
  destruct (mapped s4 !! OpenKey (ox_ret xctx) (bpf_get_current_pid_tgid k1)) as [ov|] eqn:E; [right|by left].
  assert (ov = name_value name) as ->.
  { apply run_trace_mapped in E; [|done]. unfold mapped in E. rewrite Hm3, lru_update_some in E by done.
    by simplify_eq. }
  split; [done|]. intros Hr. destruct H5 as [[Hd He]|(_ & _ & ?)]; [|done].
  rewrite Hd, lookup_delete_eq in H6. split; [exact He|exact H6].
Qed.

(** *** Where events come from *)

Definition came_from (tr : list (kenv * call)) (pid : Z) (ov : open_value) : Prop :=
  exists k ctx, (k, SysEnterOpenat ctx) ∈ tr /\ bpf_get_current_pid_tgid k = pid /\
    recorded k ctx = Some ov.

Lemma came_from_snoc tr kc pid ov : came_from tr pid ov -> came_from (tr ++ [kc]) pid ov.
Proof. intros (k & ctx & ? & ?). exists k, ctx. split; [apply elem_of_app; by left|done]. Qed.

Definition from_opens (tr : list (kenv * call)) (s s' : st) : Prop :=
  map_Forall (came_from tr) (opened s') /\
  map_Forall (fun key => came_from tr (ok_pid_tgid key)) (mapped s') /\
  exists es, libs s' = libs s ++ es /\
    Forall (fun e => came_from tr (dl_pid_tgid e) (OpenValue (dl_filename e))) es.

Lemma from_opens_snoc tr kc s s' : from_opens tr s s' -> from_opens (tr ++ [kc]) s s'.
Proof.
  intros (H1 & H2 & es & H3 & H4). split; [|split].
  - intros pid ov H. by apply came_from_snoc, H1.
  - intros key ov H. by apply came_from_snoc, (H2 key).
  - exists es. split; [done|]. eapply Forall_impl; [exact H4|]. intros. by apply came_from_snoc.
Qed.

Lemma from_opens_same tr s s' s'' :
  from_opens tr s s' -> opened s'' = opened s' -> libs s'' = libs s' -> mapped s'' ⊆ mapped s' ->
  from_opens tr s s''.
Proof.
  intros (H1 & H2 & es & H3 & H4) Ho Hl Hm. split; [by rewrite Ho|]. split; [|exists es; by rewrite Hl].
  intros key ov H. by apply (H2 key), (lookup_weaken _ _ _ _ H).
Qed.

Lemma from_opens_step tr k c s s' :
  from_opens tr s s' -> from_opens (tr ++ [(k, c)]) s (exec (handle ro k c) s').
Proof.
  intros Hi%(from_opens_snoc _ (k, c)). destruct c as [ctxp ctx|ctx|ctx|ctx|ctx].
  - destruct (exec_frame k ctxp ctx s') as (H1 & H2 & H3). eapply from_opens_same; [done..|by rewrite H3].
  - rewrite enter_openat_spec. destruct (recorded k ctx) as [ov|] eqn:E; [|done].
    destruct Hi as (H1 & H2). split; [|done]. unfold opened. simpl. apply map_Forall_update; [|done].
    exists k, ctx. split; [apply elem_of_app; right; by apply list_elem_of_singleton|done].
  - destruct (exit_openat_spec k ctx s') as [Hl H]. revert Hl H. generalize (exec (handle ro k (SysExitOpenat ctx)) s').
    intros s'' Hl H. destruct (opened s' !! _) as [ov|] eqn:Eo; [|by subst].
    destruct H as [Ho Hm]. destruct Hi as (H1 & H2 & es & H3 & H4). split; [|split].
    + rewrite Ho. by apply map_Forall_delete.
    + unfold mapped. rewrite Hm. case_match; [done|]. apply map_Forall_update; [|done]. by apply H1.
    + exists es. by rewrite Hl.
  - destruct (mmap_spec k ctx s') as [Ho H]. revert Ho H. generalize (exec (handle ro k (SysEnterMmap ctx)) s').
    intros s'' Ho H. destruct (mapped s' !! _) as [ov|] eqn:Em; [|by subst].
    destruct H as [[Hm Hl]|(Hm & Hl & _)]; [|eapply from_opens_same; [done..|by rewrite Hm]].
    destruct Hi as (H1 & H2 & es & H3 & H4). split; [by rewrite Ho|]. split.
    + rewrite Hm. by apply map_Forall_delete.
    + eexists. rewrite Hl, H3, <- app_assoc. split; [done|]. apply Forall_app. split; [done|].
      apply Forall_singleton. simpl. destruct ov. by apply (H2 _ _ Em).
  - destruct (lib_close_spec k ctx s') as (H1 & H2 & H3). eapply from_opens_same; [done..|].
    rewrite H3. apply delete_subseteq.
Qed.

(** Library events are sound: along any trace that starts with nothing
    tracked, every event carries the path that an openat of the same task in
    the trace named, and that path passed the libssl test. *)
Theorem lib_events_sound tr s :
  opened s = ∅ -> mapped s = ∅ ->
  exists es, libs (run_trace tr s) = libs s ++ es /\
  Forall (fun e => exists k ctx, (k, SysEnterOpenat ctx) ∈ tr /\
    bpf_get_current_pid_tgid k = dl_pid_tgid e /\ is_libssl (dl_filename e) = true /\
    dl_filename e = overlay (zeros 256) (bpf_probe_read_user_str k 256 (oc_filename ctx)).2) es.
Proof.
  intros Ho Hm. assert (from_opens tr s (run_trace tr s)) as (_ & _ & es & He & Hes).
  { induction tr as [|[k c] tr IH] using rev_ind; [|rewrite exec_trace_snoc; by apply from_opens_step].
    unfold run_trace. simpl. split; [by rewrite Ho|]. split; [by rewrite Hm|].
    exists []. by rewrite app_nil_r. }
  exists es. split; [done|]. eapply Forall_impl; [exact Hes|].
  intros e (k & ctx & Hin & Hpid & Hrec). exists k, ctx. split; [done|]. split; [done|].
  by apply recorded_inv in Hrec.
Qed.
End Props.

(** ** Witnesses *)

Module Demo.
(** A task at 4096, its parent at 8192, its address space at 12288, a tracepoint
    context at 16384 with the file name behind it, the arguments at 65536 and a
    library path at 131072. *)
Definition ro : task_relo := TaskRelo 0 8 24
  (fun i => match i with BPF_FIELD_BYTE_OFFSET => 16 | BPF_FIELD_EXISTS => 1 | _ => 0 end) 32 0 8.
Definition name : list Z := str "/bin/ls".
Definition args : list (list Z) := [str "ls"; str "-l"].
Definition area : list Z := args ≫= (fun a => a ++ [0]).
Definition lib : list Z := str "/usr/lib/libssl.so.3".
Definition memory : mem :=
  mem_union (mem_at 4096 (le_encode 8 8192 ++ le_encode 8 12288 ++ le_encode 8 77)) (
  mem_union (mem_at 8192 (zeros 16 ++ le_encode 8 55 ++ le_encode 4 41)) (
  mem_union (mem_at 12288 (le_encode 8 65536 ++ le_encode 8 (65536 + 6))) (
  mem_union (mem_at 16384 (zeros 20 ++ name ++ [0])) (
  mem_union (mem_at 65536 area) (mem_at 131072 (lib ++ [0])))))).
Definition pr : process := Process 8192 77 55 41 12288 65536 (65536 + 6).
Definition k : kenv := ref_kenv memory 1000 (42 * 2 ^ 32 + 42) 0 1 4096 "ls".
Definition k' : kenv := ref_kenv memory 1001 (43 * 2 ^ 32 + 43) 0 1 4096 "sh".
Definition ctx : sched_process_ctx := SchedProcessCtx 0 (data_loc 8 20) 42 40.
(** The buffer as an earlier exec left it. *)
Definition stale : exec_value := ExecValue
  (Proc 1 2 3 4 5 6 (replicate 16 65) (replicate 256 66) 7 1 (replicate 7 67)) (replicate 2048 68).
Definition MO : bpf_map Z open_value := ref_hash Z open_value 16.
Definition MH : bpf_map Z exec_value := ref_array exec_value 1 stale.
Definition MM : bpf_map open_key open_value := ref_lru open_key open_value 16.
Definition RD : bpf_ringbuf dynlib := ref_ringbuf dynlib (Dynlib 0 0 [] []).
Definition init : state MO MH MM ref_output_ringbuf RD :=
  State (MO := MO) (MH := MH) (MM := MM) (RP := ref_output_ringbuf) (RD := RD)
    (∅ : gmap Z open_value) (∅ : gmap Z exec_value) (∅ : gmap open_key open_value) ([], []) ([], []).

Lemma memory_addressable : addressable memory.
Proof. repeat apply addressable_union; apply addressable_at; vm_compute; discriminate. Qed.

Lemma process_there : process_at memory ro 4096 pr.
Proof. split; try (vm_compute; reflexivity); unfold word; simpl; lia. Qed.

Lemma env : exec_env k ro memory memory 16384 ctx name pr area.
Proof.
  split; try apply _.
  - apply memory_addressable.
  - apply ref_resident.
  - apply process_there.
  - simpl. lia.
  - apply ref_kenv_comm.
  - simpl. lia.
  - lia.
  - apply ref_read_str_spec.
  - split; [apply (bool_decide_eq_false_1 (0 ∈ name)); reflexivity|reflexivity].
  - exists 20. split; [lia|]. split; [reflexivity|vm_compute; reflexivity].
  - vm_compute. reflexivity.
  - vm_compute. reflexivity.
  - split; [reflexivity|discriminate].
  - eapply ref_no_fault; [lia|vm_compute; reflexivity].
Qed.
End Demo.

Lemma exec_record_decoded_witness :
  let s' := exec (handle Demo.ro Demo.k (SchedProcessExec 16384 Demo.ctx)) Demo.init in
  exists raw e, procs s' = [raw] /\ parseExecRecord raw = inr e /\
    CharsToString (p_filename (pe_proc e)) = Demo.name /\ pe_args e = str "ls -l".
Proof.
  destruct (exec_record_decoded Demo.ro Demo.k Demo.memory Demo.memory 16384 Demo.ctx Demo.name
    Demo.pr Demo.area Demo.init Demo.stale)
    as (raw & e & H1 & H2 & _ & _ & _ & _ & _ & _ & _ & _ & H3 & _ & _ & H4).
  - vm_compute. reflexivity.
  - split; [split|]; reflexivity.
  - intros data n. reflexivity.
  - discriminate.
  - apply Demo.env.
  - exists raw, e. split; [exact H1|]. split; [exact H2|]. split; [exact H3|].
    apply (H4 Demo.args); [|reflexivity|vm_compute; lia].
    apply Forall_cons. split; [|apply Forall_singleton]; (split; [discriminate|]).
    + apply (bool_decide_eq_false_1 (0 ∈ str "ls")). reflexivity.
    + apply (bool_decide_eq_false_1 (0 ∈ str "-l")). reflexivity.
Defined.

Lemma demo_lib_named : names_libssl Demo.lib.
Proof.
  exists (str "/usr/lib/"), (str ".so.3"). split; [reflexivity|].
  split; [apply (bool_decide_eq_false_1 (47 ∈ str ".so.3")); reflexivity|right; reflexivity].
Qed.

Lemma is_libssl_correct_witness :
  names_libssl (cstr (overlay (zeros 256) (Demo.lib ++ [0]))).
Proof.
  apply is_libssl_correct; [reflexivity| |vm_compute; reflexivity].
  apply (bool_decide_eq_true_1 (0 ∈ overlay (zeros 256) (Demo.lib ++ [0]))). vm_compute. reflexivity.
Defined.

Lemma lib_events_sound_witness :
  let tr := [(Demo.k, SysEnterOpenat (OpenatCtx 0 0 0 131072 0 0));
    (Demo.k, SysExitOpenat (OpenatExitCtx 0 0 3)); (Demo.k, SysEnterMmap (MmapCtx 0 0 0 0 0 0 3 0))] in
  exists es, libs (run_trace Demo.ro tr Demo.init) = es /\
    Forall (fun e => is_libssl (dl_filename e) = true) es.
Proof.
  destruct (lib_events_sound Demo.ro [(Demo.k, SysEnterOpenat (OpenatCtx 0 0 0 131072 0 0));
    (Demo.k, SysExitOpenat (OpenatExitCtx 0 0 3)); (Demo.k, SysEnterMmap (MmapCtx 0 0 0 0 0 0 3 0))]
    Demo.init) as (es & H1 & H2); [reflexivity..|].
  exists es. split; [exact H1|]. eapply Forall_impl; [exact H2|]. by intros e (? & ? & _ & _ & ? & _).
Defined.
