(* ===== verification/Attach.v ===== *)
(** Finding TLS libraries and attaching to them: [internal/proc/detect.go],
    [internal/proc/bun.go], [tls/openssl.go], [tls/boring.go] and the attaching part
    of [tls/probe.go].

    A process that was started, or a libssl that was mapped, is looked up in procfs;
    what carries OpenSSL or BoringSSL is attached to, once per file.  The file system,
    ELF files and the eBPF library are an environment ([os]) that may differ from
    event to event; what the eBPF library hands out (object sets, links, readers) are
    handles, and a world holds those that are open. *)

From S2P Require Import Prelude GoStd Collector.

(** ** The environment *)

(** A symbol and a section of an ELF file, as [debug/elf] has them; an unreadable
    section is [None]. *)
Record Symbol := { sym_Name : list Z; sym_Info : Z; sym_Section : Z }.
Record Section_ := { sec_Name : list Z; sec_Flags : Z; sec_Size : Z; sec_Data : list Z }.
Record elf_file := { Sections : list (option Section_); Symbols : option (list Symbol); NoSymbols : bool }.

Record LibKey := { DeviceID : Z; INode : Z }.

#[export] Instance LibKey_eq_dec : EqDecision LibKey.
Proof. solve_decision. Defined.
#[export] Instance LibKey_countable : Countable LibKey.
Proof.
  refine (inj_countable' (fun k => (DeviceID k, INode k)) (fun '(d, i) => {| DeviceID := d; INode := i |}) _).
  by intros [].
Defined.

(** [os.Stat], [os.Readlink], the bytes of a file, [elf.Open], the lines of a maps file
    with whether the scanner ends with an error, [filepath.Glob], and what the eBPF
    library succeeds with on behalf of a path: loading the objects, opening the
    executable, injecting at a symbol or address (for the entry or the return),
    opening the ring buffer. *)
Record os := {
  Stat : list Z -> option (bool * LibKey);
  Readlink : list Z -> option (list Z);
  Contents : list Z -> option (list Z);
  Elf : list Z -> option elf_file;
  Maps : list Z -> option (list (list Z) * bool);
  Glob : list Z -> list (list Z);
  load_ok : list Z -> bool;
  open_ok : list Z -> bool;
  inject_ok : list Z -> list Z + Z -> bool -> bool;
  reader_ok : list Z -> bool;
}.

(** ** [internal/proc/detect.go] *)
Module Detect.

Inductive TLSLibType := TLSLibOpenSSL | TLSLibBoringSSL.

Record ProcTLSLib := { Path : list Z; Type_ : TLSLibType }.

Definition newOpenSSLLib (path : list Z) : ProcTLSLib := {| Path := path; Type_ := TLSLibOpenSSL |}.

(** The formats of procfs paths. *)
Definition procPath (pid : Z) (rest : list Z) : list Z := str "/proc/" ++ FormatInt pid ++ rest.
Definition procRoot (pid : Z) (path : list Z) : list Z := procPath pid (str "/root/" ++ path).

(** [internal/tool.IsFilePath] succeeds and is true. *)
Definition IsFilePath (o : os) (path : list Z) : bool :=
  match Stat o path with Some (dir, _) => negb dir | None => false end.

Definition FindLibKey (o : os) (path : list Z) : option LibKey := snd <$> Stat o path.

(** *** Symbols *)

Definition SHN_UNDEF : Z := 0.
Definition SHF_EXECINSTR : Z := 4.

(** [STB_LOCAL], [STB_GLOBAL], [STB_WEAK]; [STT_NOTYPE], [STT_FUNC]. *)
Definition isDefinedTextFunc (sym : Symbol) (sections : list (option Section_)) : bool :=
  if sym_Section sym =? SHN_UNDEF then false
  else if negb (bool_decide (Z.shiftr (sym_Info sym) 4 ∈ [0; 1; 2])) then false
  else if negb (bool_decide (Z.land (sym_Info sym) 15 ∈ [2; 0])) then false
  else if Z.of_nat (length sections) <=? sym_Section sym then false
  else match sections !! Z.to_nat (sym_Section sym) with
  | Some (Some sec) => negb (Z.land (sec_Flags sec) SHF_EXECINSTR =? 0)
  | _ => false
  end.

Definition findOpenSSLStaticSymbols (o : os) (filepath : list Z) : option bool :=
  f ← Elf o filepath;
  symbols ← (match Symbols f with
             | Some symbols => Some symbols
             | None => if NoSymbols f then Some [] else None
             end);
  Some (existsb (fun sym => isDefinedTextFunc sym (Sections f) &&
    (HasPrefix (sym_Name sym) (str "SSL_read") || HasPrefix (sym_Name sym) (str "SSL_write"))) symbols).

(** *** [internal/proc/bun.go] *)

Definition bunFooterNumSize : Z := 8.
Definition bunSentinel : list Z := 10 :: str "---- Bun! ----" ++ [10].
Definition bunSentinelSize : Z := 16.
Definition bunFooterSize : Z := bunFooterNumSize + bunSentinelSize.

(** [binary.Size] of [bunStandaloneOffsets]: five [uint64] and two [uint32]. *)
Definition bunOffsetsSize : Z := 48.

(** [io.ReadFull] of [n] bytes at an offset of what a reader holds. *)
Definition ReadFull (data : list Z) (off n : Z) : option (list Z) :=
  if (off <? 0) || (Z.of_nat (length data) <? off + n) then None
  else Some (take (Z.to_nat n) (drop (Z.to_nat off) data)).

Definition isBunBundleSection (data : list Z) (sectionSize : Z) : option bool :=
  let minPayloadLen := bunOffsetsSize + bunSentinelSize in
  if sectionSize <? bunFooterNumSize + minPayloadLen then Some false
  else
    payloadLenBuf ← ReadFull data 0 bunFooterNumSize;
    let payloadLen := le_decode payloadLenBuf in
    if (payloadLen <? minPayloadLen) || (u64 (sectionSize - bunFooterNumSize) <? payloadLen) then Some false
    else
      let footerOffset := s64 (u64 (bunFooterNumSize + payloadLen - bunSentinelSize)) in
      footer ← ReadFull data footerOffset bunSentinelSize;
      Some (bool_decide (bunSentinel = footer)).

(** [file.Section]: the first section of the name. *)
Definition section_named (name : list Z) (f : elf_file) : option Section_ :=
  head (List.filter (fun s => bool_decide (sec_Name s = name)) (omap id (Sections f))).

Definition isBunBundleELF (o : os) (path : list Z) : option bool :=
  f ← Elf o path;
  match section_named (str ".bun") f with
  | None => Some false
  | Some sec => isBunBundleSection (sec_Data sec) (sec_Size sec)
  end.

Definition isBunBundleLegacyFooter (o : os) (path : list Z) : option bool :=
  data ← Contents o path;
  let size := Z.of_nat (length data) in
  if size <? bunFooterSize then Some false
  else
    buffer ← ReadFull data (size - bunFooterSize) bunSentinelSize;
    Some (bool_decide (bunSentinel = buffer)).

Definition isBunBundlePackage (o : os) (path : list Z) : option bool :=
  ok ← isBunBundleELF o path;
  if (ok : bool) then Some true else isBunBundleLegacyFooter o path.

(** *** Detection *)

(** The pattern [libssl[0-9a-zA-Z_-]*\.so(\.\d+)*] somewhere in the text; the last
    part may be empty. *)
Definition name_char (c : Z) : bool :=
  ((48 <=? c) && (c <=? 57)) || ((97 <=? c) && (c <=? 122)) || ((65 <=? c) && (c <=? 90)) || (c =? 95) || (c =? 45).

Fixpoint skip_name (s : list Z) : list Z :=
  match s with
  | [] => []
  | c :: s' => if name_char c then skip_name s' else s
  end.

Definition libssl_here (s : list Z) : bool :=
  match CutPrefix s (str "libssl") with
  | Some t => HasPrefix (skip_name t) (str ".so")
  | None => false
  end.

Fixpoint patternLibSSL (s : list Z) : bool :=
  libssl_here s || match s with [] => false | _ :: s' => patternLibSSL s' end.

(** The loop over the lines of the maps file. *)
Fixpoint scan_maps (pid : Z) (lines : list (list Z)) (seen : list (list Z)) : list ProcTLSLib :=
  match lines with
  | [] => []
  | line :: lines' =>
      match patternLibSSL line, Fields line !! 5%nat with
      | true, Some f =>
          let path := procRoot pid f in
          if decide (path ∈ seen) then scan_maps pid lines' seen
          else newOpenSSLLib path :: scan_maps pid lines' (path :: seen)
      | _, _ => scan_maps pid lines' seen
      end
  end.

Definition DetectDynTLSLib (o : os) (dl : Proc.DynLib) : option (list ProcTLSLib) :=
  let path := procRoot (Proc.Proc dl) (Proc.Filepath dl) in
  if IsFilePath o path then Some [newOpenSSLLib path]
  else match Readlink o (procPath (Proc.Proc dl) (str "/fd/" ++ FormatUint 10 (Proc.Fd dl))) with
  | Some realPath => Some [newOpenSSLLib (procRoot (Proc.Proc dl) realPath)]
  | None =>
      '(lines, failed) ← Maps o (procPath (Proc.Proc dl) (str "/maps"));
      let libs := scan_maps (Proc.Proc dl) lines [] in
      if (failed : bool) then None else Some libs
  end.

Definition DetectTLSLibType (o : os) (proc : Z) : option (list ProcTLSLib) :=
  path ← Readlink o (procPath proc (str "/exe"));
  let absPath := procRoot proc path in
  Some match isBunBundlePackage o absPath with
  | Some true => [{| Path := absPath; Type_ := TLSLibBoringSSL |}]
  | _ =>
      match findOpenSSLStaticSymbols o absPath with
      | Some true => [newOpenSSLLib absPath]
      | _ => []
      end
  end.

End Detect.

(** ** Handles *)

(** The handles that are open, and the next to be given out. *)
Record world := { live : gset nat; next : nat }.

Definition acquire : prog world nat := fun w => (next w, {| live := {[next w]} ∪ live w; next := S (next w) |}).
Definition release (h : nat) : prog world unit := fun w => (tt, {| live := live w ∖ {[h]}; next := next w |}).

Fixpoint release_all (hs : list nat) : prog world unit :=
  match hs with
  | [] => mret tt
  | h :: hs' => release h;; release_all hs'
  end.

(** ** [tls/openssl.go] and [tls/boring.go] *)

(** A probe: its object set, its ring buffer reader and its links. *)
Record probe := { p_obj : nat; p_rb : nat; p_links : list nat }.

(** The loop of [attachSSLProbes] and [attachBoringProbes]: the links made and the
    number of failures. *)
Fixpoint inject_all (ok : list Z + Z -> bool -> bool) (probes : list ((list Z + Z) * bool)) : prog world (list nat * nat) :=
  match probes with
  | [] => mret ([], 0%nat)
  | (at_, ret) :: probes' =>
      if ok at_ ret then
        l ← acquire;
        r ← inject_all ok probes';
        mret (l :: r.1, r.2)
      else
        r ← inject_all ok probes';
        mret (r.1, S r.2)
  end.

(** All links, or none of them. *)
Definition attach_probes (ok : list Z + Z -> bool -> bool) (probes : list ((list Z + Z) * bool)) : prog world (option (list nat)) :=
  r ← inject_all ok probes;
  if decide (0 < r.2)%nat then release_all r.1;; mret None else mret (Some r.1).

Definition ssl_probes : list ((list Z + Z) * bool) :=
  ["SSL_read"; "SSL_read_ex"; "SSL_write"; "SSL_write_ex"] ≫= fun sym => [(inl (str sym), false); (inl (str sym), true)].

Definition addSSLProbe (o : os) (sslPath : list Z) : prog world (option (list nat * nat)) :=
  if load_ok o sslPath then
    obj ← acquire;
    if open_ok o sslPath then
      links ← attach_probes (inject_ok o sslPath) ssl_probes;
      mret match links with Some links => Some (links, obj) | None => None end
    else mret None
  else mret None.

Definition NewOpenSSLProbe (o : os) (sslPath : list Z) : prog world (option probe) :=
  r ← addSSLProbe o sslPath;
  match r with
  | None => mret None
  | Some (links, obj) =>
      if reader_ok o sslPath then rb ← acquire; mret (Some {| p_obj := obj; p_rb := rb; p_links := links |})
      else mret None
  end.

(** [internal/arch]: the bytes the two functions of bun's BoringSSL start with, and
    the usual places of libssl. *)
Record arch := { BoringSSLReadPattern : list Z; BoringSSLWritePattern : list Z; LibSSLCandidates : list (list Z) }.

Definition candidates_for (triple : string) : list (list Z) :=
  [str "/lib/" ++ str triple ++ str "/libssl.so.1.1"; str "/lib/" ++ str triple ++ str "/libssl.so.3";
   str "/usr/lib/" ++ str triple ++ str "/libssl.so.1.1"; str "/usr/lib/" ++ str triple ++ str "/libssl.so.3";
   str "/lib64/libssl.so.1.1"; str "/lib64/libssl.so.3"; str "/usr/local/lib/libssl.so"].

Definition arch_amd64 : arch := {|
  BoringSSLReadPattern := [
    0x55; 0x48; 0x89; 0xe5; 0x41; 0x57; 0x41; 0x56;
    0x53; 0x50; 0x48; 0x83; 0xbf; 0x98; 0x00; 0x00];
  BoringSSLWritePattern := [
    0x55; 0x48; 0x89; 0xe5; 0x41; 0x57; 0x41; 0x56;
    0x41; 0x55; 0x41; 0x54; 0x53; 0x48; 0x83; 0xec;
    0x18; 0x41; 0x89; 0xd7; 0x49; 0x89; 0xf6; 0x48;
    0x89; 0xfb; 0x48; 0x8b; 0x47; 0x30; 0xc7; 0x80];
  LibSSLCandidates := candidates_for "x86_64-linux-gnu" |}.

Definition arch_arm64 : arch := {|
  BoringSSLReadPattern := [
    0xfd; 0x7b; 0xbd; 0xa9; 0xf5; 0x0b; 0x00; 0xf9;
    0xf4; 0x4f; 0x02; 0xa9; 0xfd; 0x03; 0x00; 0x91;
    0x08; 0x4c; 0x40; 0xf9; 0xa8; 0x01; 0x00; 0xb4];
  BoringSSLWritePattern := [
    0xff; 0x03; 0x01; 0xd1; 0xfd; 0x7b; 0x01; 0xa9;
    0xf6; 0x57; 0x02; 0xa9; 0xf4; 0x4f; 0x03; 0xa9;
    0xfd; 0x43; 0x00; 0x91; 0x08; 0x18; 0x40; 0xf9;
    0xf5; 0x03; 0x02; 0x2a; 0xf4; 0x03; 0x01; 0xaa];
  LibSSLCandidates := candidates_for "aarch64-linux-gnu" |}.

Section Boring.
Context (a : arch).

(** The offsets of the two functions in the file. *)
Definition searchUprobeAddresses (o : os) (path : list Z) : option (Z * Z) :=
  buf ← Contents o path;
  read ← Index buf (BoringSSLReadPattern a);
  write ← Index buf (BoringSSLWritePattern a);
  Some (Z.of_nat read, Z.of_nat write).

Definition attachBoringProbes (o : os) (target : list Z) : prog world (option (list nat)) :=
  match searchUprobeAddresses o target with
  | None => mret None
  | Some (read, write) =>
      attach_probes (inject_ok o target) [(inr read, false); (inr read, true); (inr write, false); (inr write, true)]
  end.

Definition addBoringProbe (o : os) (path : list Z) : prog world (option (list nat * nat)) :=
  if load_ok o path then
    obj ← acquire;
    if open_ok o path then
      links ← attachBoringProbes o path;
      mret match links with Some links => Some (links, obj) | None => None end
    else mret None
  else mret None.

Definition NewBoringSSLProbe (o : os) (path : list Z) : prog world (option probe) :=
  r ← addBoringProbe o path;
  match r with
  | None => mret None
  | Some (links, obj) =>
      if reader_ok o path then rb ← acquire; mret (Some {| p_obj := obj; p_rb := rb; p_links := links |})
      else release obj;; release_all links;; mret None
  end.

(** [Close] of either probe. *)
Definition Close (p : probe) : prog world unit := release (p_obj p);; release (p_rb p);; release_all (p_links p).

(** ** [tls/probe.go] *)

Notation probes := (gmap LibKey probe).

Definition new_probe (o : os) (lib : Detect.ProcTLSLib) : prog world (option probe) :=
  match Detect.Type_ lib with
  | Detect.TLSLibOpenSSL => NewOpenSSLProbe o (Detect.Path lib)
  | Detect.TLSLibBoringSSL => NewBoringSSLProbe o (Detect.Path lib)
  end.

(** The body of the loop over the libraries, in [NewTLSProbe] and in [Start]: a
    library whose file is already attached to is left alone. *)
Definition attach_lib (o : os) (lib : Detect.ProcTLSLib) (ps : probes) : prog world probes :=
  match Detect.FindLibKey o (Detect.Path lib) with
  | None => mret ps
  | Some key =>
      if decide (is_Some (ps !! key)) then mret ps
      else
        p ← new_probe o lib;
        mret match p with Some p => <[key := p]> ps | None => ps end
  end.

Fixpoint attach_libs (o : os) (libs : list Detect.ProcTLSLib) (ps : probes) : prog world probes :=
  match libs with
  | [] => mret ps
  | lib :: libs' => ps ← attach_lib o lib ps; attach_libs o libs' ps
  end.

Definition libSDirs : list (list Z) :=
  str <$> ["/lib"; "/lib64"; "/usr/lib"; "/usr/lib64"; "/usr/local/lib"; "/usr/local/lib64"].

(** The first of the usual places that is a file, or the first file that matches
    [libssl.so*] in one of the directories. *)
Definition findLibOpenSSLPath (o : os) : option (list Z) :=
  match List.find (Detect.IsFilePath o) (LibSSLCandidates a) with
  | Some path => Some path
  | None => List.find (Detect.IsFilePath o) (libSDirs ≫= fun dir => Glob o (dir ++ str "/libssl.so*"))
  end.

(** An extra path that is not a file is a panic, the outer [None]. *)
Definition NewTLSProbe (o : os) (sslPath : list Z) : option (prog world probes) :=
  let common := option_list (findLibOpenSSLPath o) in
  if decide (sslPath = []) then Some (attach_libs o (Detect.newOpenSSLLib <$> common) ∅)
  else if Detect.IsFilePath o sslPath then Some (attach_libs o (Detect.newOpenSSLLib <$> common ++ [sslPath]) ∅)
  else None.

(** What the loop of [Start] receives. *)
Inductive event := Proc_ (pid : Z) | Dyn (dl : Proc.DynLib).

Definition start_body (o : os) (ev : event) (ps : probes) : prog world probes :=
  match (match ev with Proc_ pid => Detect.DetectTLSLibType o pid | Dyn dl => Detect.DetectDynTLSLib o dl end) with
  | None => mret ps
  | Some libs => attach_libs o libs ps
  end.

Fixpoint start_loop (evs : list (os * event)) (ps : probes) : prog world probes :=
  match evs with
  | [] => mret ps
  | (o, ev) :: evs' => ps ← start_body o ev ps; start_loop evs' ps
  end.

(** [Close] of the TLS probe; the map is iterated in some order. *)
Fixpoint close_all (ps : list (LibKey * probe)) : prog world unit :=
  match ps with
  | [] => mret tt
  | (_, p) :: ps' => Close p;; close_all ps'
  end.

End Boring.
