(* ===== verification/AttachTheorems.v ===== *)
(** What holds of finding TLS libraries and attaching to them.

    The attaching part of [tls/probe.go] is refined to a specification that knows only
    which files are attached to and how many handles were lost.  What the tests for
    bun bundles, for libssl in a maps file and for OpenSSL symbols accept is stated
    exactly, and the path from a mapped library to its probe is followed from the
    record of the kernel to the attached file. *)

From S2P Require Import Prelude GoStd Collector Attach.

(** ** Handles *)

Definition bounded (w : world) : Prop := forall h, h ∈ live w -> (h < next w)%nat.

(** From [w] to [w'] the handles [hs], and no others, were opened for good. *)
Definition opens (hs : list nat) (w w' : world) : Prop :=
  NoDup hs /\ (next w <= next w')%nat /\
  (forall h, h ∈ hs -> (next w <= h < next w')%nat) /\ live w' = live w ∪ list_to_set hs.

Lemma opens_nil w : opens [] w w.
Proof. split_and!; [constructor|done|set_solver|set_solver]. Qed.

Lemma opens_app hs1 hs2 w w1 w2 : opens hs1 w w1 -> opens hs2 w1 w2 -> opens (hs1 ++ hs2) w w2.
Proof.
  intros (N1 & L1 & R1 & E1) (N2 & L2 & R2 & E2). split_and!.
  - apply NoDup_app. split_and!; [done| |done]. intros h H1 H2. specialize (R1 h H1). specialize (R2 h H2). lia.
  - lia.
  - intros h [H|H]%elem_of_app; [specialize (R1 h H)|specialize (R2 h H)]; lia.
  - rewrite E2, E1, list_to_set_app_L. set_solver.
Qed.

Lemma opens_perm hs1 hs2 w w' : hs1 ≡ₚ hs2 -> opens hs1 w w' -> opens hs2 w w'.
Proof.
  intros Hp (N & L & R & E). split_and!; [by rewrite <- Hp|done| |].
  - intros h H. apply R. by rewrite Hp.
  - rewrite E. f_equal. by apply list_to_set_perm_L.
Qed.

Lemma opens_bounded hs w w' : bounded w -> opens hs w w' -> bounded w'.
Proof.
  intros Hb (_ & L & R & E) h. rewrite E, elem_of_union, elem_of_list_to_set.
  intros [H|H]; [specialize (Hb h H); lia|by apply R].
Qed.

Lemma opens_acquire w : bounded w -> opens [(acquire w).1] w (acquire w).2.
Proof.
  intros Hb. split_and!; simpl; [apply NoDup_singleton|lia| |set_solver].
  intros h ->%list_elem_of_singleton. lia.
Qed.

Lemma opens_release h hs w w' : bounded w -> opens (h :: hs) w w' -> opens hs w (exec (release h) w').
Proof.
  intros Hb ([Hn N]%NoDup_cons & L & R & E). split_and!; simpl; [done|done| |].
  - intros h' H. apply R. by right.
  - rewrite E. assert (h ∉ live w). { intros H. specialize (Hb h H). specialize (R h ltac:(by left)). lia. }
    rewrite list_to_set_cons. apply set_eq. intros x. set_unfold. destruct (decide (x = h)); naive_solver.
Qed.

Lemma opens_release_all hs hs' w w' :
  bounded w -> opens (hs ++ hs') w w' -> opens hs' w (exec (release_all hs) w').
Proof.
  intros Hb. revert w'. induction hs as [|h hs IH]; intros w' H; [done|].
  by apply IH, opens_release.
Qed.

(** ** Probes *)

Definition handles (p : probe) : list nat := p_obj p :: p_rb p :: p_links p.

(** Every probe of the list can be injected. *)
Definition injectable (ok : list Z + Z -> bool -> bool) (probes : list ((list Z + Z) * bool)) : bool :=
  forallb (fun x => ok x.1 x.2) probes.

Lemma inject_all_spec ok probes w :
  bounded w ->
  let '(r, w') := inject_all ok probes w in
  opens r.1 w w' /\ (length r.1 + r.2 = length probes)%nat /\ (r.2 = 0%nat <-> injectable ok probes = true).
Proof.
  revert w. induction probes as [|[at_ ret] probes IH]; intros w Hb; [split; [apply opens_nil|done]|].
  cbn [inject_all injectable forallb fst snd]. destruct (ok at_ ret) eqn:E; prog_unfold.
  - pose proof (opens_acquire w Hb) as Ha. destruct (acquire w) as [l w1]. simpl in Ha.
    specialize (IH w1 (opens_bounded _ _ _ Hb Ha)). destruct (inject_all ok probes w1) as [r w2].
    destruct IH as (H1 & H2 & H3). simpl. split_and!; [by apply (opens_app [l] r.1 w w1 w2)|lia|done].
  - specialize (IH w Hb). destruct (inject_all ok probes w) as [r w2].
    destruct IH as (H1 & H2 & H3). simpl. split_and!; [done|lia|split; [lia|done]].
Qed.

(** All probes are attached, or none is and nothing is left open. *)
Lemma attach_probes_spec ok probes w :
  bounded w ->
  let '(r, w') := attach_probes ok probes w in
  (r = None /\ injectable ok probes = false /\ opens [] w w') \/
  (exists ls, r = Some ls /\ injectable ok probes = true /\ length ls = length probes /\ opens ls w w').
Proof.
  intros Hb. unfold attach_probes. prog_unfold.
  pose proof (inject_all_spec ok probes w Hb) as H. destruct (inject_all ok probes w) as [r w1].
  destruct H as (H1 & H2 & H3). destruct (decide (0 < r.2)%nat) as [Hf|Hf].
  - pose proof (opens_release_all r.1 [] w w1 Hb) as Hr. rewrite app_nil_r in Hr. specialize (Hr H1).
    unfold exec in Hr. destruct (release_all r.1 w1) as [[] w2]. left. split_and!; [done| |done].
    apply not_true_is_false. rewrite <- H3. lia.
  - right. exists r.1. split_and!; [done|apply H3; lia|lia|done].
Qed.

(** ** The specification *)

Section Spec.
Context (a : arch).

(** What is injected into the library: eight probes at symbols, or four at the two
    addresses, if the file has them. *)
Definition probe_points (o : os) (lib : Detect.ProcTLSLib) : option (list ((list Z + Z) * bool)) :=
  match Detect.Type_ lib with
  | Detect.TLSLibOpenSSL => Some ssl_probes
  | Detect.TLSLibBoringSSL =>
      '(read, write) ← searchUprobeAddresses a o (Detect.Path lib);
      Some [(inr read, false); (inr read, true); (inr write, false); (inr write, true)]
  end.

(** The links can be made. *)
Definition linkable (o : os) (lib : Detect.ProcTLSLib) : bool :=
  open_ok o (Detect.Path lib) &&
  match probe_points o lib with Some ps => injectable (inject_ok o (Detect.Path lib)) ps | None => false end.

(** Attaching succeeds. *)
Definition attachable (o : os) (lib : Detect.ProcTLSLib) : bool :=
  load_ok o (Detect.Path lib) && linkable o lib && reader_ok o (Detect.Path lib).

(** The handles that an attempt that fails leaves open: the object set when the links
    cannot be made, and for OpenSSL the eight links too when the reader cannot. *)
Definition leak (o : os) (lib : Detect.ProcTLSLib) : nat :=
  if negb (load_ok o (Detect.Path lib)) then 0
  else if negb (linkable o lib) then 1
  else match Detect.Type_ lib with Detect.TLSLibOpenSSL => 9 | Detect.TLSLibBoringSSL => 0 end.

Definition link_count (lib : Detect.ProcTLSLib) : nat :=
  match Detect.Type_ lib with Detect.TLSLibOpenSSL => 8 | Detect.TLSLibBoringSSL => 4 end.

(** An attempt on a library: on success the handles of the probe are open and no
    others, on failure those that leak. *)
Definition attempt (o : os) (lib : Detect.ProcTLSLib) (w : world) (r : option probe) (w' : world) : Prop :=
  match r with
  | Some p => attachable o lib = true /\ opens (handles p) w w' /\ length (p_links p) = link_count lib
  | None => attachable o lib = false /\ exists hs, length hs = leak o lib /\ opens hs w w'
  end.

(** The common part of the two constructors. *)
Lemma add_probe_spec (lo oo ok : bool) (attach : prog world (option (list nat))) n w :
  bounded w ->
  (forall w, bounded w -> let '(r, w') := attach w in
    (r = None /\ ok = false /\ opens [] w w') \/
    (exists ls, r = Some ls /\ ok = true /\ length ls = n /\ opens ls w w')) ->
  let '(r, w') := (if lo then
    obj ← acquire;
    if oo then links ← attach; mret match links with Some links => Some (links, obj) | None => None end
    else mret None
  else mret None) w in
  match r with
  | None => lo && (oo && ok) = false /\ exists hs, length hs = (if lo then 1 else 0)%nat /\ opens hs w w'
  | Some (ls, obj) => lo && (oo && ok) = true /\ length ls = n /\ opens (obj :: ls) w w'
  end.
Proof.
  intros Hb Hat. destruct lo; [|split; [done|]; exists []; split; [done|apply opens_nil]].
  prog_unfold. pose proof (opens_acquire w Hb) as Ha. destruct (acquire w) as [obj w1]. simpl in Ha.
  destruct oo; [|split; [done|]; by exists [obj]].
  specialize (Hat w1 (opens_bounded _ _ _ Hb Ha)). destruct (attach w1) as [r w2].
  destruct Hat as [(-> & -> & H)|(ls & -> & -> & H1 & H2)].
  - split; [done|]. exists [obj]. split; [done|]. by apply (opens_app [obj] [] w w1 w2).
  - split_and!; [done|done|]. by apply (opens_app [obj] ls w w1 w2).
Qed.

(** The three ways an attempt ends. *)
Lemma attempt_unlinked o lib hs w w' :
  load_ok o (Detect.Path lib) && linkable o lib = false ->
  length hs = (if load_ok o (Detect.Path lib) then 1 else 0)%nat -> opens hs w w' -> attempt o lib w None w'.
Proof.
  intros E Hl H. unfold attempt, attachable, leak. rewrite E. split; [done|]. exists hs. split; [|done].
  destruct (load_ok o (Detect.Path lib)); [|done]. simpl in *. by rewrite E.
Qed.

Lemma attempt_unread o lib hs w w' :
  load_ok o (Detect.Path lib) && linkable o lib = true -> reader_ok o (Detect.Path lib) = false ->
  length hs = match Detect.Type_ lib with Detect.TLSLibOpenSSL => 9 | Detect.TLSLibBoringSSL => 0 end%nat ->
  opens hs w w' -> attempt o lib w None w'.
Proof.
  intros E Er Hl H. unfold attempt, attachable, leak. rewrite E, Er. split; [done|]. exists hs. split; [|done].
  apply andb_true_iff in E as [-> ->]. done.
Qed.

Lemma attempt_attached o lib obj ls w w1 :
  load_ok o (Detect.Path lib) && linkable o lib = true -> reader_ok o (Detect.Path lib) = true ->
  bounded w -> length ls = link_count lib -> opens (obj :: ls) w w1 ->
  attempt o lib w (Some {| p_obj := obj; p_rb := (acquire w1).1; p_links := ls |}) (acquire w1).2.
Proof.
  intros E Er Hb Hl H. pose proof (opens_acquire w1 (opens_bounded _ _ _ Hb H)) as Ha.
  split_and!; [unfold attachable; by rewrite E, Er| |done].
  eapply opens_perm, (opens_app _ _ _ _ _ H Ha). unfold handles. simpl. constructor.
  by rewrite <- Permutation_cons_append.
Qed.

Lemma openssl_spec o path w :
  bounded w -> let '(r, w') := NewOpenSSLProbe o path w in attempt o (Detect.newOpenSSLLib path) w r w'.
Proof.
  intros Hb. unfold NewOpenSSLProbe. prog_unfold.
  pose proof (add_probe_spec (load_ok o path) (open_ok o path) (injectable (inject_ok o path) ssl_probes)
    (attach_probes (inject_ok o path) ssl_probes) 8 w Hb (attach_probes_spec _ _)) as H.
  fold (addSSLProbe o path) in H. destruct (addSSLProbe o path w) as [[[ls obj]|] w1].
  - destruct H as (E & Hl & H). destruct (reader_ok o path) eqn:Er.
    + by apply (attempt_attached o (Detect.newOpenSSLLib path)).
    + apply (attempt_unread _ _ (obj :: ls)); [done|done|simpl; by rewrite Hl|done].
  - destruct H as (E & hs & Hl & H). by apply (attempt_unlinked _ _ hs).
Qed.

Lemma attachBoringProbes_spec o path w :
  bounded w -> let '(r, w') := attachBoringProbes a o path w in
  let ok := match probe_points o {| Detect.Path := path; Detect.Type_ := Detect.TLSLibBoringSSL |} with
            | Some ps => injectable (inject_ok o path) ps | None => false end in
  (r = None /\ ok = false /\ opens [] w w') \/
  (exists ls, r = Some ls /\ ok = true /\ length ls = 4%nat /\ opens ls w w').
Proof.
  intros Hb. unfold attachBoringProbes. cbn [probe_points Detect.Type_ Detect.Path].
  destruct (searchUprobeAddresses a o path) as [[rd wr]|]; [|left; split_and!; [done|done|apply opens_nil]].
  exact (attach_probes_spec (inject_ok o path) _ w Hb).
Qed.

Lemma boring_spec o path w :
  bounded w -> let '(r, w') := NewBoringSSLProbe a o path w in
  attempt o {| Detect.Path := path; Detect.Type_ := Detect.TLSLibBoringSSL |} w r w'.
Proof.
  intros Hb. unfold NewBoringSSLProbe. prog_unfold. set (lib := {| Detect.Path := path |}).
  pose proof (add_probe_spec (load_ok o path) (open_ok o path) _ (attachBoringProbes a o path) 4 w Hb
    (attachBoringProbes_spec o path)) as H.
  fold (addBoringProbe a o path) lib in H. destruct (addBoringProbe a o path w) as [[[ls obj]|] w1].
  - destruct H as (E & Hl & H). destruct (reader_ok o path) eqn:Er.
    + by apply (attempt_attached o lib).
    + pose proof (opens_release_all (obj :: ls) [] w w1 Hb) as Hr. rewrite app_nil_r in Hr. specialize (Hr H).
      unfold exec in Hr. cbn [release_all] in Hr. prog_unfold. destruct (release obj w1) as [[] w2].
      destruct (release_all ls w2) as [[] w3]. by apply (attempt_unread _ _ []).
  - destruct H as (E & hs & Hl & H). by apply (attempt_unlinked _ _ hs).
Qed.

Lemma new_probe_spec o lib w :
  bounded w -> let '(r, w') := new_probe a o lib w in attempt o lib w r w'.
Proof. destruct lib as [path []]; [apply openssl_spec|apply boring_spec]. Qed.
(** What a client sees: the files attached to and the number of handles lost. *)
Record ledger := { keys : gset LibKey; lost : nat }.

Definition ledger_lib (o : os) (lib : Detect.ProcTLSLib) (l : ledger) : ledger :=
  match Detect.FindLibKey o (Detect.Path lib) with
  | None => l
  | Some key =>
      if decide (key ∈ keys l) then l
      else if attachable o lib then {| keys := {[key]} ∪ keys l; lost := lost l |}
      else {| keys := keys l; lost := (lost l + leak o lib)%nat |}
  end.

Definition ledger_libs (o : os) (libs : list Detect.ProcTLSLib) (l : ledger) : ledger :=
  fold_left (fun l lib => ledger_lib o lib l) libs l.

Definition detect (o : os) (ev : event) : option (list Detect.ProcTLSLib) :=
  match ev with Proc_ pid => Detect.DetectTLSLibType o pid | Dyn dl => Detect.DetectDynTLSLib o dl end.

Definition ledger_run (evs : list (os * event)) (l : ledger) : ledger :=
  fold_left (fun l oe => ledger_libs oe.1 (default [] (detect oe.1 oe.2)) l) evs l.

(** The libraries that [NewTLSProbe] attaches to. *)
Definition initial_libs (o : os) (sslPath : list Z) : list Detect.ProcTLSLib :=
  Detect.newOpenSSLLib <$> option_list (findLibOpenSSLPath a o) ++ (if decide (sslPath = []) then [] else [sslPath]).

(** The handles of all probes. *)
Definition owned (ps : list (LibKey * probe)) : list nat := ps ≫= fun kp => handles kp.2.

(** The open handles are those of the probes and the handles [H]; every probe has all
    its links. *)
Definition held (H : list nat) (ps : gmap LibKey probe) (w : world) (ks : gset LibKey) : Prop :=
  dom ps = ks /\ bounded w /\ map_Forall (fun _ p => length (p_links p) ∈ [8; 4]%nat) ps /\
  NoDup (owned (map_to_list ps) ++ H) /\ live w = list_to_set (owned (map_to_list ps) ++ H).

(** The open handles are those of the probes and the lost ones. *)
Definition refines (ps : gmap LibKey probe) (w : world) (l : ledger) : Prop :=
  exists L, length L = lost l /\ held L ps w (keys l).

Lemma owned_perm ps ps' : ps ≡ₚ ps' -> owned ps ≡ₚ owned ps'.
Proof. intros H. unfold owned. by rewrite H. Qed.

Lemma opens_extend hs hs' w w' :
  bounded w -> NoDup hs -> live w = list_to_set hs -> opens hs' w w' ->
  NoDup (hs' ++ hs) /\ live w' = list_to_set (hs' ++ hs).
Proof.
  intros Hb N E (N' & L & R & E'). split.
  - apply NoDup_app. split_and!; [done| |done]. intros h H1 H2. specialize (R h H1).
    specialize (Hb h). rewrite E, elem_of_list_to_set in Hb. specialize (Hb H2). lia.
  - rewrite E', E, list_to_set_app_L. set_solver.
Qed.

Lemma attach_lib_held o lib H ps w l :
  held H ps w (keys l) -> let '(ps', w') := attach_lib a o lib ps w in
  exists hs, held (hs ++ H) ps' w' (keys (ledger_lib o lib l)) /\ lost (ledger_lib o lib l) = (lost l + length hs)%nat.
Proof.
  intros (Hd & Hb & Hf & N & E). unfold attach_lib, ledger_lib.
  assert (exists hs : list nat, held (hs ++ H) ps w (keys l) /\ lost l = (lost l + length hs)%nat) as Hsame by (exists []; split; [done|simpl; lia]).
  destruct (Detect.FindLibKey o (Detect.Path lib)) as [key|]; [|done].
  rewrite <- Hd. destruct (decide (is_Some (ps !! key))) as [Hk|Hk].
  { rewrite decide_True by (by apply elem_of_dom). done. }
  rewrite decide_False by (by rewrite elem_of_dom). prog_unfold.
  pose proof (new_probe_spec o lib w Hb) as Hp. destruct (new_probe a o lib w) as [[p|] w'].
  - destruct Hp as (-> & Ho & Hlen). destruct (opens_extend _ _ _ _ Hb N E Ho) as [N' E'].
    apply eq_None_not_Some in Hk.
    assert (owned (map_to_list (<[key:=p]> ps)) ++ H ≡ₚ handles p ++ owned (map_to_list ps) ++ H) as Hperm.
    { rewrite (owned_perm _ _ (map_to_list_insert ps key p Hk)), app_assoc. done. }
    exists []. split; [|simpl; lia].
    split_and!; simpl; [rewrite dom_insert_L; by rewrite Hd|by eapply opens_bounded| |by rewrite Hperm|].
    + apply map_Forall_insert_2; [|done]. rewrite Hlen. unfold link_count. destruct (Detect.Type_ lib); set_solver.
    + rewrite E'. symmetry. by apply list_to_set_perm_L.
  - destruct Hp as (-> & hs & Hlen & Ho). destruct (opens_extend _ _ _ _ Hb N E Ho) as [N' E'].
    exists hs. split; [|simpl; lia]. assert (hs ++ owned (map_to_list ps) ++ H ≡ₚ owned (map_to_list ps) ++ hs ++ H) as Hperm
      by (by rewrite !app_assoc, (Permutation_app_comm hs)).
    split_and!; simpl; [done|by eapply opens_bounded|done|by rewrite <- Hperm|]. rewrite E'. by apply list_to_set_perm_L.
Qed.

Lemma attach_libs_held o libs H ps w l :
  held H ps w (keys l) -> let '(ps', w') := attach_libs a o libs ps w in
  exists hs, held (hs ++ H) ps' w' (keys (ledger_libs o libs l)) /\ lost (ledger_libs o libs l) = (lost l + length hs)%nat.
Proof.
  revert H ps w l. induction libs as [|lib libs IH]; intros H ps w l Hh; [exists []; split; [done|simpl; lia]|].
  cbn [attach_libs ledger_libs fold_left]. prog_unfold.
  pose proof (attach_lib_held o lib H ps w l Hh) as H1. destruct (attach_lib a o lib ps w) as [ps1 w1].
  destruct H1 as (hs1 & H1 & E1). specialize (IH (hs1 ++ H) ps1 w1 _ H1). unfold ledger_libs in *.
  destruct (attach_libs a o libs ps1 w1) as [ps2 w2]. destruct IH as (hs2 & H2 & E2).
  exists (hs2 ++ hs1). rewrite <- app_assoc, length_app. split; [done|lia].
Qed.

Lemma start_loop_held evs H ps w l :
  held H ps w (keys l) -> let '(ps', w') := start_loop a evs ps w in
  exists hs, held (hs ++ H) ps' w' (keys (ledger_run evs l)) /\ lost (ledger_run evs l) = (lost l + length hs)%nat.
Proof.
  revert H ps w l. induction evs as [|[o ev] evs IH]; intros H ps w l Hh; [exists []; split; [done|simpl; lia]|].
  cbn [start_loop ledger_run fold_left fst snd]. prog_unfold.
  assert (let '(ps', w') := start_body a o ev ps w in exists hs,
    held (hs ++ H) ps' w' (keys (ledger_libs o (default [] (detect o ev)) l)) /\
    lost (ledger_libs o (default [] (detect o ev)) l) = (lost l + length hs)%nat) as H1.
  { unfold start_body. fold (detect o ev). destruct (detect o ev) as [libs|]; [by apply attach_libs_held|].
    exists []. split; [done|simpl; lia]. }
  destruct (start_body a o ev ps w) as [ps1 w1]. destruct H1 as (hs1 & H1 & E1). specialize (IH (hs1 ++ H) ps1 w1 _ H1).
  unfold ledger_run in *. destruct (start_loop a evs ps1 w1) as [ps2 w2]. destruct IH as (hs2 & H2 & E2).
  exists (hs2 ++ hs1). rewrite <- app_assoc, length_app. split; [done|lia].
Qed.

Lemma attach_libs_refines o libs ps w l :
  refines ps w l -> let '(ps', w') := attach_libs a o libs ps w in refines ps' w' (ledger_libs o libs l).
Proof.
  intros (L & Hl & Hh). pose proof (attach_libs_held o libs L ps w l Hh) as H1. destruct (attach_libs a o libs ps w) as [ps' w'].
  destruct H1 as (hs & H1 & E). exists (hs ++ L). rewrite length_app. split; [lia|done].
Qed.

Lemma start_loop_refines evs ps w l :
  refines ps w l -> let '(ps', w') := start_loop a evs ps w in refines ps' w' (ledger_run evs l).
Proof.
  intros (L & Hl & Hh). pose proof (start_loop_held evs L ps w l Hh) as H1. destruct (start_loop a evs ps w) as [ps' w'].
  destruct H1 as (hs & H1 & E). exists (hs ++ L). rewrite length_app. split; [lia|done].
Qed.

Lemma NewTLSProbe_libs o sslPath start :
  NewTLSProbe a o sslPath = Some start -> start = attach_libs a o (initial_libs o sslPath) ∅.
Proof.
  unfold NewTLSProbe, initial_libs. destruct (decide (sslPath = [])); [rewrite app_nil_r; congruence|].
  destruct (Detect.IsFilePath o sslPath); congruence.
Qed.

Lemma release_all_live hs w : live (exec (release_all hs) w) = live w ∖ list_to_set hs.
Proof.
  revert w. induction hs as [|h hs IH]; intros w; [simpl; set_solver|].
  change (exec (release_all (h :: hs)) w) with (exec (release_all hs) (exec (release h) w)).
  rewrite IH. simpl. set_solver.
Qed.

Lemma close_all_live ps w : live (exec (close_all ps) w) = live w ∖ list_to_set (owned ps).
Proof.
  revert w. induction ps as [|[k p] ps IH]; intros w; [simpl; set_solver|].
  assert (exec (close_all ((k, p) :: ps)) w = exec (close_all ps) (exec (release_all (handles p)) w)) as ->.
  { cbn [close_all]. unfold Close. cbn [release_all handles]. prog_unfold. simpl. by destruct (release_all _ _). }
  rewrite IH, release_all_live. unfold owned. simpl. rewrite list_to_set_app_L. set_solver.
Qed.

Definition fresh : world := {| live := ∅; next := 0 |}.
Definition no_ledger : ledger := {| keys := ∅; lost := 0 |}.

Lemma held_fresh H w : bounded w -> NoDup H -> live w = list_to_set H -> held H ∅ w ∅.
Proof.
  intros Hb Hn He. unfold held, owned. rewrite map_to_list_empty. split_and!; [by rewrite dom_empty_L|done|apply map_Forall_empty|done|done].
Qed.

Lemma refines_fresh : refines ∅ fresh no_ledger.
Proof. exists []. split; [done|]. apply held_fresh; [intros h; simpl; set_solver|constructor|done]. Qed.

(** What remains when the probes are closed, in whatever order the map is iterated. *)
Lemma held_closed H ps w ks order :
  held H ps w ks -> order ≡ₚ map_to_list ps -> live (exec (close_all order) w) = list_to_set H.
Proof.
  intros (_ & _ & _ & N & E) Hp. rewrite close_all_live, E.
  rewrite (list_to_set_perm_L _ _ (owned_perm _ _ Hp)), list_to_set_app_L. apply NoDup_app in N as (_ & Hd & N). set_solver.
Qed.

Lemma refines_closed ps w l order :
  refines ps w l -> order ≡ₚ map_to_list ps -> size (live (exec (close_all order) w)) = lost l.
Proof.
  intros (L & Hl & Hh) Hp. rewrite (held_closed _ _ _ _ _ Hh Hp), <- Hl. apply size_list_to_set.
  destruct Hh as (_ & _ & _ & N & _). by apply NoDup_app in N as (_ & _ & ?).
Qed.

(** C15. The life of the TLS probe.  It starts with the libssl it finds and the one it
    is given, then handles any sequence of process and library events, each in an
    environment of its own, and is closed in any order of its map.  The files attached
    to are those of the specification, each once, a probe has all its links, and all
    its handles are open; what stays open after the closing is what attempts that
    failed left behind. *)
Theorem attach_accounted o sslPath start evs ps0 w0 ps w order :
  NewTLSProbe a o sslPath = Some start -> start fresh = (ps0, w0) -> start_loop a evs ps0 w0 = (ps, w) ->
  let l := ledger_run evs (ledger_libs o (initial_libs o sslPath) no_ledger) in
  order ≡ₚ map_to_list ps ->
  dom ps = keys l /\
  map_Forall (fun _ p => length (p_links p) ∈ [8; 4]%nat /\ Forall (fun h => h ∈ live w) (handles p)) ps /\
  NoDup (owned (map_to_list ps)) /\
  size (live w) = (length (owned (map_to_list ps)) + lost l)%nat /\
  size (live (exec (close_all order) w)) = lost l.
Proof.
  intros ->%NewTLSProbe_libs E0 E1.
  pose proof (attach_libs_refines o (initial_libs o sslPath) ∅ fresh _ refines_fresh) as H0. rewrite E0 in H0.
  pose proof (start_loop_refines evs _ _ _ H0) as H. rewrite E1 in H. clear H0 E0 E1.
  intros l Hp. pose proof (refines_closed _ _ _ _ H Hp) as Hc.
  destruct H as (L & Hl & Hd & Hb & Hf & N & E). split_and!; [done| | | |done].
  - intros k p Hk. split; [by apply (Hf k)|]. apply Forall_forall. intros h Hh.
    rewrite E, elem_of_list_to_set, elem_of_app. left. unfold owned. apply list_elem_of_bind.
    exists (k, p). split; [done|by apply elem_of_map_to_list].
  - by apply NoDup_app in N as [? _].
  - fold l in Hl. by rewrite E, size_list_to_set, length_app, Hl.
Qed.
Lemma size_opens hs w w' : bounded w -> opens hs w w' -> size (live w') = (size (live w) + length hs)%nat.
Proof.
  intros Hb (N & _ & R & ->). rewrite size_union, size_list_to_set by (done || intros h H1 H2%elem_of_list_to_set;
    specialize (Hb h H1); specialize (R h H2); lia). done.
Qed.

(** Attempts that fail are repeated and leak.  A program or library that is found to
    carry TLS but cannot be attached to (BoringSSL whose code has changed, OpenSSL
    without one of the symbols) is tried again on every event that names it; every
    attempt leaves the handles of its object set open. *)
Theorem failed_attach_leaks n o ev lib key ps w ps' w' :
  detect o ev = Some [lib] -> Detect.FindLibKey o (Detect.Path lib) = Some key -> ps !! key = None ->
  attachable o lib = false -> bounded w -> start_loop a (replicate n (o, ev)) ps w = (ps', w') ->
  ps' = ps /\ size (live w') = (size (live w) + n * leak o lib)%nat.
Proof.
  intros Hev Hkey Hps Hat. revert w. induction n as [|n IH]; intros w Hb; [intros [= <- <-]; split; [done|simpl; lia]|].
  cbn [replicate start_loop]. unfold start_body at 1. fold (detect o ev). rewrite Hev.
  cbn [attach_libs]. unfold attach_lib. rewrite Hkey, decide_False by (by rewrite Hps; intros []).
  prog_unfold. pose proof (new_probe_spec o lib w Hb) as Hp. destruct (new_probe a o lib w) as [[p|] w1].
  - destruct Hp as (? & _). congruence.
  - destruct Hp as (_ & hs & Hl & Ho). intros H. destruct (IH w1 (opens_bounded _ _ _ Hb Ho) H) as [-> ->].
    split; [done|]. rewrite (size_opens hs w w1) by done. simpl. lia.
Qed.
End Spec.

(** ** Bun bundles *)

(** A [.bun] section: the length of the payload, and a payload that has room for the
    offsets and ends with the sentinel. *)
Definition bun_section (data : list Z) : Prop :=
  exists body rest, 48 <= Z.of_nat (length body) /\
    data = le_encode 8 (Z.of_nat (length body) + 16) ++ body ++ Detect.bunSentinel ++ rest.

(** A file with the footer of older versions. *)
Definition bun_footer (data : list Z) : Prop :=
  exists body size, length size = 8%nat /\ data = body ++ Detect.bunSentinel ++ size.

Lemma ReadFull_ok data off n :
  0 <= off -> 0 <= n -> off + n <= Z.of_nat (length data) ->
  Detect.ReadFull data off n = Some (take (Z.to_nat n) (drop (Z.to_nat off) data)).
Proof.
  intros. unfold Detect.ReadFull. rewrite (proj2 (Z.ltb_ge off 0)), (proj2 (Z.ltb_ge _ _)) by lia. done.
Qed.

(** A slice that is known splits the list around it. *)
Lemma slice_split (data m : list Z) i :
  (i + length m <= length data)%nat ->
  take (length m) (drop i data) = m <-> exists rest, data = take i data ++ m ++ rest.
Proof.
  intros Hl. split.
  - intros H. exists (drop (length m) (drop i data)). rewrite <- H at 1. by rewrite !take_drop.
  - intros [rest H]. rewrite H at 1. rewrite drop_app_length', take_app_length; [done|rewrite length_take; lia].
Qed.

Lemma bun_section_split hd tl :
  length hd = 8%nat -> Forall byte hd -> Z.of_nat (length tl) < 2 ^ 63 ->
  bun_section (hd ++ tl) <->
  64 <= le_decode hd /\ exists rest, tl = take (Z.to_nat (le_decode hd - 16)) tl ++ Detect.bunSentinel ++ rest.
Proof.
  intros Hhd Hby Hlen. set (n := le_decode hd). split.
  - intros (body & rest & Hb & E). apply app_inj_1 in E as [E1 E2]; [|by rewrite length_le_encode].
    assert (n = Z.of_nat (length body) + 16) as Hn.
    { unfold n. rewrite E1, le_decode_encode. apply Z.mod_small. subst tl. rewrite length_app in *. lia. }
    split; [lia|]. exists rest. rewrite E2, take_app_length' by lia. done.
  - intros (Hn & rest & E).
    assert (length (take (Z.to_nat (n - 16)) tl) = Z.to_nat (n - 16)) as Hl.
    { pose proof (f_equal length E) as E'. rewrite !length_app, length_take in E'.
      change (length Detect.bunSentinel) with 16%nat in E'. rewrite length_take. lia. }
    exists (take (Z.to_nat (n - 16)) tl), rest. rewrite Hl. split; [lia|]. rewrite <- E. f_equal.
    replace (Z.of_nat (Z.to_nat (n - 16)) + 16) with n by lia. unfold n. rewrite <- Hhd. symmetry.
    by apply le_encode_decode.
Qed.

(** The test never fails on a section that is readable to its end, and accepts what it
    should. *)
Lemma isBunBundleSection_spec data :
  Forall byte data -> Z.of_nat (length data) < 2 ^ 63 ->
  exists b, Detect.isBunBundleSection data (Z.of_nat (length data)) = Some b /\ (b = true <-> bun_section data).
Proof.
  intros Hby Hlen. unfold Detect.isBunBundleSection, Detect.bunOffsetsSize, Detect.bunFooterNumSize, Detect.bunSentinelSize.
  destruct (Z.ltb_spec (Z.of_nat (length data)) (8 + (48 + 16))) as [H|H].
  { exists false. split; [done|]. split; [done|]. intros (body & rest & Hb & ->).
    rewrite !length_app, length_le_encode in H. change (length Detect.bunSentinel) with 16%nat in H. lia. }
  rewrite ReadFull_ok by lia. change (Z.to_nat 0) with 0%nat. change (Z.to_nat 8) with 8%nat. rewrite drop_0.
  assert (exists hd tl, data = hd ++ tl /\ length hd = 8%nat) as (hd & tl & -> & Hhd).
  { exists (take 8 data), (drop 8 data). rewrite take_drop, length_take. split; [done|lia]. }
  rewrite (take_app_length' hd tl 8) by done. apply Forall_app in Hby as [Hby _].
  rewrite length_app, Hhd in Hlen, H |- *. cbn [mbind option_bind].
  setoid_rewrite (bun_section_split hd tl Hhd Hby ltac:(lia)). pose proof (le_decode_range hd Hby) as Hr. set (n := le_decode hd) in *.
  rewrite (u64_small (_ - 8)) by lia. destruct (Z.ltb_spec n (48 + 16)); [exists false; split; [done|]; split; [done|lia]|].
  destruct (Z.ltb_spec (Z.of_nat (8 + length tl) - 8) n) as [Hn|Hn]; cbn [orb].
  { exists false. split; [done|]. split; [done|]. intros (_ & rest & E). pose proof (f_equal length E) as E'.
    rewrite !length_app, length_take in E'. change (length Detect.bunSentinel) with 16%nat in E'. lia. }
  rewrite u64_small, s64_small by lia. rewrite ReadFull_ok by (rewrite ?length_app; lia).
  eexists. split; [done|]. rewrite bool_decide_eq_true.
  replace (Z.to_nat (8 + n - 16)) with (length hd + Z.to_nat (n - 16))%nat by lia.
  rewrite drop_app_add. change (Z.to_nat 16) with (length Detect.bunSentinel).
  rewrite <- slice_split by (change (length Detect.bunSentinel) with 16%nat; lia).
  split; [intros E; split; [lia|by symmetry]|by intros [_ E]].
Qed.

Lemma isBunBundleLegacyFooter_spec o path data :
  Contents o path = Some data ->
  exists b, Detect.isBunBundleLegacyFooter o path = Some b /\ (b = true <-> bun_footer data).
Proof.
  intros E. unfold Detect.isBunBundleLegacyFooter. rewrite E. cbn [mbind option_bind].
  unfold Detect.bunFooterSize, Detect.bunFooterNumSize, Detect.bunSentinelSize.
  destruct (Z.ltb_spec (Z.of_nat (length data)) (8 + 16)) as [H|H].
  { exists false. split; [done|]. split; [done|]. intros (body & size & Hs & ->).
    rewrite !length_app, Hs in H. change (length Detect.bunSentinel) with 16%nat in H. lia. }
  rewrite ReadFull_ok by lia. eexists. split; [done|]. rewrite bool_decide_eq_true.
  change (Z.to_nat 16) with (length Detect.bunSentinel).
  transitivity (exists rest, data = take (Z.to_nat (Z.of_nat (length data) - (8 + 16))) data ++ Detect.bunSentinel ++ rest).
  { rewrite <- slice_split by (change (length Detect.bunSentinel) with 16%nat; lia). done. }
  split.
  - intros [rest Hd]. exists (take (Z.to_nat (Z.of_nat (length data) - (8 + 16))) data), rest. split; [|done].
    apply (f_equal length) in Hd. rewrite !length_app, length_take in Hd.
    change (length Detect.bunSentinel) with 16%nat in Hd. lia.
  - intros (body & size & Hs & ->). exists size. rewrite take_app_length'; [done|].
    rewrite !length_app, Hs. change (length Detect.bunSentinel) with 16%nat. lia.
Qed.

(** Which programs are taken for bun bundles.  For an ELF file whose sections are
    readable to their end, the test gives an answer, and says yes exactly for a file
    whose first [.bun] section is the length of a payload and a payload that ends in
    the sentinel, or that ends in the sentinel and eight bytes. *)
Theorem bun_bundle_exact o path f data :
  Elf o path = Some f -> Contents o path = Some data ->
  Forall (fun s => Forall byte (sec_Data s) /\ sec_Size s = Z.of_nat (length (sec_Data s)) /\ sec_Size s < 2 ^ 63) (omap id (Sections f)) ->
  exists b, Detect.isBunBundlePackage o path = Some b /\
  (b = true <->
   (exists sec, Detect.section_named (str ".bun") f = Some sec /\ bun_section (sec_Data sec)) \/ bun_footer data).
Proof.
  intros Ef Ed Hs. destruct (isBunBundleLegacyFooter_spec o path data Ed) as (b2 & E2 & H2).
  unfold Detect.isBunBundlePackage, Detect.isBunBundleELF. rewrite Ef. cbn [mbind option_bind].
  destruct (Detect.section_named (str ".bun") f) as [sec|] eqn:Es.
  - assert (sec ∈ omap id (Sections f)) as Hin.
    { apply head_Some_elem_of in Es. rewrite list_elem_of_In, filter_In, <- list_elem_of_In in Es. by destruct Es. }
    rewrite Forall_forall in Hs. destruct (Hs sec Hin) as (Hby & Hsz & Hlen). rewrite Hsz in *.
    destruct (isBunBundleSection_spec _ Hby Hlen) as (b1 & -> & H1). destruct b1.
    + exists true. split; [done|]. split; [|done]. intros _. left. exists sec. split; [done|by apply H1].
    + exists b2. split; [exact E2|]. rewrite H2. split; [by right|]. intros [(s & [= <-] & H)|H]; [|done].
      by apply H1 in H.
  - exists b2. split; [exact E2|]. rewrite H2. split; [by right|]. intros [(s & H & _)|H]; [congruence|done].
Qed.

(** ** The maps of a process *)

(** The text names a shared libssl. *)
Definition libssl_text (s : list Z) : Prop :=
  exists pre name suf, s = pre ++ str "libssl" ++ name ++ str ".so" ++ suf /\
    Forall (fun c => Detect.name_char c = true) name.

Lemma skip_name_spec s : exists name, s = name ++ Detect.skip_name s /\ Forall (fun c => Detect.name_char c = true) name.
Proof.
  induction s as [|c s (name & H & Hn)]; [by exists []|]. simpl. destruct (Detect.name_char c) eqn:E; [|by exists []].
  exists (c :: name). split; [simpl; by rewrite <- H|by constructor].
Qed.

Lemma skip_name_app name s :
  Forall (fun c => Detect.name_char c = true) name -> Detect.skip_name (name ++ s) = Detect.skip_name s.
Proof. induction 1 as [|c name Hc _ IH]; [done|]. simpl. by rewrite Hc. Qed.

Lemma libssl_here_spec s :
  Detect.libssl_here s = true <-> exists name suf, s = str "libssl" ++ name ++ str ".so" ++ suf /\
    Forall (fun c => Detect.name_char c = true) name.
Proof.
  unfold Detect.libssl_here. split.
  - destruct (CutPrefix s (str "libssl")) as [t|] eqn:E; [|done]. apply CutPrefix_Some in E as ->.
    intros [suf Hs]%HasPrefix_true. destruct (skip_name_spec t) as (name & Ht & Hn).
    exists name, suf. by rewrite <- Hs, <- Ht.
  - intros (name & suf & -> & Hn). rewrite (proj2 (CutPrefix_Some _ _ _) eq_refl).
    rewrite skip_name_app by done. apply (HasPrefix_app (str ".so") suf).
Qed.

Lemma patternLibSSL_spec s : Detect.patternLibSSL s = true <-> libssl_text s.
Proof.
  induction s as [|c s IH]; cbn [Detect.patternLibSSL]; rewrite orb_true_iff, libssl_here_spec.
  - split; [intros [(name & suf & ? & ?)|?]; [by exists [], name, suf|done]|].
    intros ([|] & name & suf & ? & ?); [left; by exists name, suf|done].
  - rewrite IH. split.
    + intros [(name & suf & ? & ?)|(pre & name & suf & -> & ?)]; [by exists [], name, suf|by exists (c :: pre), name, suf].
    + intros ([|c' pre] & name & suf & E & ?); [left; by exists name, suf|right]. simplify_eq/=. by exists pre, name, suf.
Qed.

(** The path that a line contributes. *)
Definition hit (pid : Z) (line : list Z) : option (list Z) :=
  if Detect.patternLibSSL line then Detect.procRoot pid <$> Fields line !! 5%nat else None.

Lemma hit_Some pid line path :
  hit pid line = Some path <-> libssl_text line /\ exists f, Fields line !! 5%nat = Some f /\ path = Detect.procRoot pid f.
Proof.
  unfold hit. rewrite <- patternLibSSL_spec. destruct (Detect.patternLibSSL line); [|split; [done|by intros [? _]]].
  rewrite fmap_Some. split; [done|by intros [_ ?]].
Qed.

(** The distinct paths, in the order of the lines. *)
Lemma scan_maps_paths pid lines seen :
  let paths := omap (hit pid) lines in
  (forall lib, lib ∈ Detect.scan_maps pid lines seen <->
    exists path, path ∈ paths /\ path ∉ seen /\ lib = Detect.newOpenSSLLib path) /\
  NoDup (Detect.Path <$> Detect.scan_maps pid lines seen).
Proof.
  cbv zeta. revert seen. induction lines as [|line lines IH]; intros seen; [split; [set_solver|constructor]|].
  assert (Detect.scan_maps pid (line :: lines) seen = match hit pid line with
    | Some path => if decide (path ∈ seen) then Detect.scan_maps pid lines seen
                   else Detect.newOpenSSLLib path :: Detect.scan_maps pid lines (path :: seen)
    | None => Detect.scan_maps pid lines seen end) as ->.
  { unfold hit. cbn [Detect.scan_maps]. destruct (Detect.patternLibSSL line), (Fields line !! 5%nat); done. }
  cbn [omap list_omap]. destruct (hit pid line) as [path|]; [|apply IH].
  destruct (decide (path ∈ seen)) as [Hs|Hs].
  - destruct (IH seen) as [H1 H2]. split; [|done]. intros lib. rewrite H1. set_solver.
  - destruct (IH (path :: seen)) as [H1 H2]. split.
    + intros lib. rewrite elem_of_cons, H1. split; [set_solver|]. intros (p & [->|Hp]%elem_of_cons & Hn & ->); [by left|].
      destruct (decide (p = path)) as [->|]; [by left|right]. exists p. set_solver.
    + rewrite fmap_cons. constructor; [|done]. intros (lib & E & Hl)%list_elem_of_fmap.
      apply H1 in Hl as (p & _ & Hp & ->). simpl in E. set_solver.
Qed.

(** What the scan of a maps file finds: one library for every distinct sixth field
    of the lines whose text names a shared libssl, and nothing else. *)
Theorem maps_scanned pid lines :
  let libs := Detect.scan_maps pid lines [] in
  NoDup (Detect.Path <$> libs) /\
  forall lib, lib ∈ libs <-> exists line f, line ∈ lines /\ libssl_text line /\ Fields line !! 5%nat = Some f /\
    lib = Detect.newOpenSSLLib (Detect.procRoot pid f).
Proof.
  destruct (scan_maps_paths pid lines []) as [H1 H2]. split; [done|]. intros lib. rewrite H1. split.
  - intros (path & (line & Hin & Hh)%list_elem_of_omap & _ & ->). apply hit_Some in Hh as (Ht & f & Hf & ->).
    by exists line, f.
  - intros (line & f & Hin & Ht & Hf & ->). exists (Detect.procRoot pid f). split_and!; [|set_solver|done].
    apply list_elem_of_omap. exists line. split; [done|]. apply hit_Some. by eauto.
Qed.

(** ** Witnesses *)

Module AttachDemo.
(** A machine with the libssl of the distribution, a process 42 with one of its own,
    and a process 50 that runs a bun bundle whose code does not have the pattern. *)
Definition bun_data : list Z := le_encode 8 64 ++ zeros 48 ++ Detect.bunSentinel.
Definition bun_exe : list Z := Detect.procRoot 50 (str "/opt/tool").
Definition lib42 : list Z := Detect.procRoot 42 (str "/usr/lib/libssl.so.3").
Definition bun_elf : elf_file := {|
  Sections := [None; Some {| sec_Name := str ".bun"; sec_Flags := 2; sec_Size := 72; sec_Data := bun_data |}];
  Symbols := None; NoSymbols := true |}.

Definition is_path (p q : list Z) : bool := bool_decide (p = q).

Definition o : os := {|
  Stat p := if is_path p lib42 then Some (false, {| DeviceID := 1; INode := 7 |})
            else if is_path p (str "/lib64/libssl.so.3") then Some (false, {| DeviceID := 1; INode := 5 |})
            else if is_path p bun_exe then Some (false, {| DeviceID := 1; INode := 9 |}) else None;
  Readlink p := if is_path p (Detect.procPath 50 (str "/exe")) then Some (str "/opt/tool") else None;
  Contents p := if is_path p bun_exe then Some (str "ELF" ++ bun_data) else None;
  Elf p := if is_path p bun_exe then Some bun_elf else None;
  Maps p := None;
  Glob p := [];
  load_ok p := true;
  open_ok p := true;
  inject_ok p at_ ret := true;
  reader_ok p := true |}.

Definition mapped_lib : event := Dyn {| Proc.Proc := 42; Proc.Fd := 3; Proc.Filepath := str "/usr/lib/libssl.so.3" |}.
Definition evs : list (os * event) := [(o, Proc_ 50); (o, mapped_lib); (o, Proc_ 50); (o, mapped_lib)].
Definition start : prog world (gmap LibKey probe) := attach_libs arch_amd64 o (initial_libs arch_amd64 o []) ∅.
Definition final := start_loop arch_amd64 evs (start fresh).1 (start fresh).2.
End AttachDemo.

Lemma attach_accounted_witness :
  dom AttachDemo.final.1 = {[ {| DeviceID := 1; INode := 7 |}; {| DeviceID := 1; INode := 5 |} ]} /\
  size (live AttachDemo.final.2) = 22%nat /\
  size (live (exec (close_all (map_to_list AttachDemo.final.1)) AttachDemo.final.2)) = 2%nat.
Proof.
  destruct (attach_accounted arch_amd64 AttachDemo.o [] AttachDemo.start AttachDemo.evs
    (AttachDemo.start fresh).1 (AttachDemo.start fresh).2 AttachDemo.final.1 AttachDemo.final.2
    (map_to_list AttachDemo.final.1) eq_refl (surjective_pairing _) (surjective_pairing _) (reflexivity _))
    as (Hd & _ & _ & Hs & Hc).
  split_and!.
  - etransitivity; [exact Hd|]. vm_compute. reflexivity.
  - etransitivity; [exact Hs|]. vm_compute. reflexivity.
  - etransitivity; [exact Hc|]. vm_compute. reflexivity.
Defined.

Lemma failed_attach_leaks_witness :
  size (live (start_loop arch_amd64 (replicate 5 (AttachDemo.o, Proc_ 50)) ∅ fresh).2) = 5%nat.
Proof.
  destruct (failed_attach_leaks arch_amd64 5 AttachDemo.o (Proc_ 50)
    {| Detect.Path := AttachDemo.bun_exe; Detect.Type_ := Detect.TLSLibBoringSSL |} {| DeviceID := 1; INode := 9 |} ∅ fresh
    _ _
    ltac:(vm_compute; reflexivity) ltac:(vm_compute; reflexivity) eq_refl ltac:(vm_compute; reflexivity)
    ltac:(intros h H; by apply not_elem_of_empty in H) (surjective_pairing _)) as [_ H].
  etransitivity; [exact H|]. vm_compute. reflexivity.
Defined.

Lemma bun_bundle_exact_witness :
  exists b, Detect.isBunBundlePackage AttachDemo.o AttachDemo.bun_exe = Some b /\ b = true.
Proof.
  destruct (bun_bundle_exact AttachDemo.o AttachDemo.bun_exe AttachDemo.bun_elf (str "ELF" ++ AttachDemo.bun_data))
    as (b & Hb & H); [vm_compute; reflexivity..| |].
  - constructor; [|constructor]. split; [|split; [vm_compute; reflexivity|reflexivity]].
    apply (bool_decide_eq_true_1 (Forall byte AttachDemo.bun_data)). vm_compute. reflexivity.
  - exists b. split; [exact Hb|]. apply H. left. eexists. split; [vm_compute; reflexivity|].
    exists (zeros 48), []. split; [vm_compute; discriminate|vm_compute; reflexivity].
Defined.
