(* ===== verification/Mapped.v ===== *)
(** From a libssl that a task maps to the probe on it: the programs of
    [execve/exec.bpf.c], the loop of [execve/probe.go] over the library events, and the
    loop of [tls/probe.go] that attaches. *)

From S2P Require Import Prelude Layout GoStd Helpers RefKernel CoreRead CoreReadTheorems.
From S2P Require Import Wire WireTheorems Exec ExecTheorems CollectorTheorems Collector Attach AttachTheorems.

(** The library event of a record, whatever its padding holds. *)
Lemma dynlib_received fill (e : dynlib) :
  wire_shaped e ->
  Proc.dynlib_body (sample fill e) = Send {|
    Proc.Proc := s32 (Z.shiftr (u64 (dl_pid_tgid e)) 32);
    Proc.Fd := u64 (dl_fd e);
    Proc.Filepath := text (dl_filename e) |}.
Proof.
  intros H. unfold Proc.dynlib_body.
  assert (binary_Read G.execDynlib (sample fill e) ≫= Proc.of_fields = Some {|
    Proc.dl_Fd := u64 (dl_fd e); Proc.dl_PidTgid := u64 (dl_pid_tgid e);
    Proc.dl_Comm := wrap S8 <$> dl_comm e; Proc.dl_Filename := wrap S8 <$> dl_filename e |}) as ->.
  { decode_event H. }
  cbn [Proc.dl_Fd Proc.dl_PidTgid Proc.dl_Filename]. by rewrite CharsToString_chars.
Qed.

(** A library that is found, and whose file is new and can be attached to. *)
Lemma start_body_attaches a o dl path key ps w :
  path = Detect.procRoot (Proc.Proc dl) (Proc.Filepath dl) ->
  Stat o path = Some (false, key) -> attachable a o (Detect.newOpenSSLLib path) = true -> bounded w ->
  let '(ps', w') := start_body a o (Dyn dl) ps w in
  match ps !! key with
  | Some _ => ps' = ps /\ w' = w
  | None => exists p, ps' = <[key := p]> ps /\ opens (handles p) w w' /\ length (p_links p) = 8%nat
  end.
Proof.
  intros -> Hst Hat Hb. unfold start_body, Detect.DetectDynTLSLib, Detect.IsFilePath. rewrite Hst. cbn [negb attach_libs].
  unfold attach_lib, Detect.FindLibKey. cbn [Detect.Path Detect.newOpenSSLLib]. rewrite Hst. cbn [fmap option_fmap option_map snd].
  destruct (ps !! key) as [p|] eqn:E; [by rewrite decide_True by eauto|].
  rewrite decide_False by (by intros []). prog_unfold.
  pose proof (new_probe_spec a o (Detect.newOpenSSLLib (Detect.procRoot (Proc.Proc dl) (Proc.Filepath dl))) w Hb) as H.
  destruct (new_probe a o _ w) as [[p|] w']; [|destruct H; congruence].
  destruct H as (_ & H1 & H2). by exists p.
Qed.

Section Mapped.
Context {MO : bpf_map Z open_value} {MH : bpf_map Z exec_value} {MM : bpf_map open_key open_value}.
Context {RP : bpf_output_ringbuf} {RD : bpf_ringbuf dynlib}.
Context `{!HashOk MO, !ArrayOk 1 MH, !LruOk MM, !OutputRingbufOk RP, !RingbufOk RD}.
Context (ro : task_relo) (a : arch).

(** C4. A libssl that a task opens and maps is attached to.  Between entry and exit of
    the open other tasks run, then programs that leave the descriptor alone, then the
    task maps it.  Unless the entry was evicted or the ring buffer is full, one record
    is written, and mapping the file again is silent.  The user side reads that record
    as the process, the descriptor and the path; if the path leads to a file in the
    root of the process that can be attached to, the file gets a probe with eight
    links, unless it has one already. *)
Theorem mapped_libssl_attached k1 octx tr1 k2 xctx tr2 k3 mctx mu name
    (s : state MO MH MM RP RD) fill o key ps w :
  let pid := bpf_get_current_pid_tgid k1 in
  let okey := OpenKey (ox_ret xctx) pid in
  let s2 := run_trace ro tr1 (exec (handle ro k1 (SysEnterOpenat octx)) s) in
  let s3 := exec (handle ro k2 (SysExitOpenat xctx)) s2 in
  let s4 := run_trace ro tr2 s3 in
  let s5 := exec (handle ro k3 (SysEnterMmap mctx)) s4 in
  let path := Detect.procRoot (s32 (Z.shiftr pid 32)) name in
  UserMem k1 mu -> sized k3 -> 0 ∉ name -> Forall byte name -> (length name <= 255)%nat ->
  mem_read mu (oc_filename octx) (S (length name)) = Some (name ++ [0]) ->
  0 < (bpf_probe_read_user_str k1 256 (oc_filename octx)).1 -> names_libssl name ->
  (update_elem (st_inflight_open s) pid (name_value name) BPF_ANY).1 = 0 ->
  Forall (fun kc => bpf_get_current_pid_tgid kc.1 <> pid) tr1 ->
  bpf_get_current_pid_tgid k2 = pid -> 0 <= pid < 2 ^ 64 -> 0 <= ox_ret xctx < 2 ^ 63 ->
  (update_elem (st_inflight_mmap s2) okey (name_value name) BPF_ANY).1 = 0 ->
  Forall (leaves okey) tr2 -> bpf_get_current_pid_tgid k3 = pid -> mc_fd mctx = ox_ret xctx ->
  can_reserve s4 -> is_Some (mapped s4 !! okey) ->
  Stat o path = Some (false, key) -> attachable a o (Detect.newOpenSSLLib path) = true -> bounded w ->
  exists e dl, libs s5 = libs s4 ++ [e] /\ exec (handle ro k3 (SysEnterMmap mctx)) s5 = s5 /\
  Proc.dynlib_body (sample fill e) = Send dl /\ Proc.Filepath dl = name /\ Proc.Fd dl = ox_ret xctx /\
  let '(ps', w') := start_body a o (Dyn dl) ps w in
  match ps !! key with
  | Some _ => ps' = ps /\ w' = w
  | None => exists p, ps' = <[key := p]> ps /\ opens (handles p) w w' /\ length (p_links p) = 8%nat
  end.
Proof.
  cbv zeta. intros Hu Hsz Hn Hby Hl Hm Hok Hlib Hup1 Htr1 Hk2 Hpid Hfd Hup2 Htr2 Hk3 Hmfd Hres Hin Hst Hat Hb.
  destruct (libssl_mapped_reported ro k1 octx tr1 k2 xctx tr2 k3 mctx mu name s
    Hu Hn Hl Hm Hok Hlib Hup1 Htr1 Hk2 Hfd Hup2 Htr2 Hk3 Hmfd) as [_ [[E _]|[_ H]]].
  { rewrite E in Hin. by destruct Hin. }
  destruct (H Hres) as [He Hsilent]. eexists _, _. split; [exact He|]. split; [exact Hsilent|].
  set (e := Dynlib _ _ _ _). assert (wire_shaped e) as Hw.
  { apply dynlib_shaped; [by apply (sized_comm _ Hsz 16)|]. apply length_overlay. rewrite length_zeros, length_app. simpl. lia. }
  rewrite (dynlib_received fill e Hw). split; [reflexivity|]. cbn [Proc.Filepath Proc.Fd dl_filename dl_fd dl_pid_tgid e].
  assert (text (ov_filename (name_value name)) = name) as Ht.
  { unfold text. rewrite u8_bytes; [by apply name_value_cstr|]. unfold name_value, overlay. simpl.
    repeat apply Forall_app_2; [done|by repeat constructor|]. apply Forall_drop, Forall_replicate. unfold byte. lia. }
  rewrite Ht, !u64_small by lia. split_and!; [done|done|]. by eapply start_body_attaches.
Qed.
End Mapped.

(** ** Witness *)

Lemma mapped_libssl_attached_witness :
  let s2 := run_trace Demo.ro [(Demo.k', SysEnterClose (CloseCtx 0 0 3))]
    (exec (handle Demo.ro Demo.k (SysEnterOpenat (OpenatCtx 0 0 0 131072 0 0))) Demo.init) in
  let s4 := run_trace Demo.ro [(Demo.k, SysEnterClose (CloseCtx 0 0 4))]
    (exec (handle Demo.ro Demo.k (SysExitOpenat (OpenatExitCtx 0 0 3))) s2) in
  exists e dl, libs (exec (handle Demo.ro Demo.k (SysEnterMmap (MmapCtx 0 0 0 0 0 0 3 0))) s4) = libs s4 ++ [e] /\
    Proc.dynlib_body (sample (fun _ => 0) e) = Send dl /\ Proc.Filepath dl = Demo.lib /\
    is_Some ((start_body arch_amd64 AttachDemo.o (Dyn dl) ∅ fresh).1 !! {| DeviceID := 1; INode := 7 |}).
Proof.
  destruct (mapped_libssl_attached Demo.ro arch_amd64 Demo.k (OpenatCtx 0 0 0 131072 0 0)
    [(Demo.k', SysEnterClose (CloseCtx 0 0 3))] Demo.k (OpenatExitCtx 0 0 3)
    [(Demo.k, SysEnterClose (CloseCtx 0 0 4))] Demo.k (MmapCtx 0 0 0 0 0 0 3 0)
    Demo.memory Demo.lib Demo.init (fun _ => 0) AttachDemo.o {| DeviceID := 1; INode := 7 |} ∅ fresh)
    as (e & dl & He & _ & Hd & Hn & _ & H).
  - apply _.
  - apply ref_sized.
  - apply (bool_decide_eq_false_1 (0 ∈ Demo.lib)). reflexivity.
  - apply (bool_decide_eq_true_1 (Forall byte Demo.lib)). vm_compute. reflexivity.
  - vm_compute. lia.
  - vm_compute. reflexivity.
  - vm_compute. reflexivity.
  - apply demo_lib_named.
  - vm_compute. reflexivity.
  - repeat constructor. discriminate.
  - reflexivity.
  - vm_compute. split; congruence.
  - simpl. lia.
  - vm_compute. reflexivity.
  - constructor; [right; vm_compute; discriminate|constructor].
  - reflexivity.
  - reflexivity.
  - eexists _, _; reflexivity.
  - vm_compute. eexists. reflexivity.
  - vm_compute. reflexivity.
  - vm_compute. reflexivity.
  - intros h Hh. by apply not_elem_of_empty in Hh.
  - exists e, dl. split; [exact He|]. split; [exact Hd|]. split; [exact Hn|].
    destruct (start_body arch_amd64 AttachDemo.o (Dyn dl) ∅ fresh) as [ps w]. rewrite lookup_empty in H.
    destruct H as (p & -> & _). simpl. rewrite lookup_insert_eq. by eexists.
Defined.
