(* ===== verification/Resolver.v ===== *)
(** Resolving cgroups to containers: [internal/container/containerid.go].

    The resolver is shared by the goroutines that export records.  A table of
    containers is read without a lock; a cgroup that is not in it makes one of the
    callers walk the cgroup directory, at most once per interval, while other callers
    go on reading or wait for the lock.  The calls of [Resolve] are threads whose steps
    (one load, store, lock or clock reading each) interleave.

    The cache of package [otter] is the class [Expiring] with its laws; what the walk
    of the directory meets is given with the step that walks. *)

From S2P Require Import Prelude GoStd.

(** ** The cache *)

(** A cache of keys that expire some time after they were put in; every operation is
    given the time. *)
Class Expiring := {
  kept : Type;
  kept_none : kept;
  GetIfPresent : Z -> Z -> kept -> bool * kept;
  Set_ : Z -> Z -> kept -> kept;
}.

Class ExpiringOk (M : Expiring) := {
  holds : kept -> Z -> Z -> bool;
  holds_none t k : holds kept_none t k = false;
  get_result t k c : (GetIfPresent t k c).1 = holds c t k;
  get_only t t' k k' c : holds (GetIfPresent t k c).2 t' k' = true -> holds c t' k' = true;
  set_only t t' k k' c : holds (Set_ t k c) t' k' = true -> k' = k \/ holds c t' k' = true;
}.

(** ** Names *)

Definition updateInterval : Z := 5 * 10 ^ 9.
Definition updateIntervalOnError : Z := 10 ^ 9.

Definition hex_char (c : Z) : bool := ((48 <=? c) && (c <=? 57)) || ((97 <=? c) && (c <=? 102)).

Fixpoint hex_run (s : list Z) : list Z * list Z :=
  match s with
  | [] => ([], [])
  | c :: s' => if hex_char c then let '(h, t) := hex_run s' in (c :: h, t) else ([], s)
  end.

(** The first submatch of [-([0-9a-f]{32,64})\.scope], leftmost. *)
Fixpoint container_id (s : list Z) : option (list Z) :=
  match s with
  | [] => None
  | c :: s' =>
      let '(h, t) := hex_run s' in
      if (c =? 45) && (32 <=? length h)%nat && (length h <=? 64)%nat && HasPrefix t (str ".scope")
      then Some h else container_id s'
  end.

(** [cgroupContainerUnknownFormat]. *)
Definition unknown (id : Z) : list Z := str "non-container-" ++ FormatUint 10 id.

(** ** The walk *)

(** What the function is called with for a path: whether the context is done by then,
    an error, a directory entry with its name and what [Info] gives. *)
Record visit := { v_done : bool; v_err : bool; v_dir : bool; v_name : list Z; v_info : option Z }.

Notation cgroupContainer := (gmap Z (list Z)).

Definition update_entry (v : visit) (renew : cgroupContainer) : cgroupContainer :=
  if v_err v || negb (v_dir v) then renew
  else match container_id (v_name v) with
  | None => renew
  | Some cid => match v_info v with None => renew | Some ino => <[ino := cid]> renew end
  end.

Fixpoint update_walk (vs : list visit) (renew : cgroupContainer) : option cgroupContainer :=
  match vs with
  | [] => Some renew
  | v :: vs' => if v_done v then None else update_walk vs' (update_entry v renew)
  end.

Definition update (vs : list visit) : option cgroupContainer := update_walk vs ∅.

(** ** Calls of [Resolve] *)

Section Resolve.
Context {M : Expiring}.

Record ContainerResolver := {
  cgroupTable : cgroupContainer;
  nonContainer : kept;
  mu : bool;
  nextUpdateTime : Z;
}.

Definition NewContainerResolver (now : Z) : ContainerResolver :=
  {| cgroupTable := ∅; nonContainer := kept_none; mu := false; nextUpdateTime := now |}.

Definition set_table (t : cgroupContainer) (r : ContainerResolver) : ContainerResolver :=
  {| cgroupTable := t; nonContainer := nonContainer r; mu := mu r; nextUpdateTime := nextUpdateTime r |}.
Definition set_kept (c : kept) (r : ContainerResolver) : ContainerResolver :=
  {| cgroupTable := cgroupTable r; nonContainer := c; mu := mu r; nextUpdateTime := nextUpdateTime r |}.
Definition set_mu (b : bool) (r : ContainerResolver) : ContainerResolver :=
  {| cgroupTable := cgroupTable r; nonContainer := nonContainer r; mu := b; nextUpdateTime := nextUpdateTime r |}.
Definition set_next (n : Z) (r : ContainerResolver) : ContainerResolver :=
  {| cgroupTable := cgroupTable r; nonContainer := nonContainer r; mu := mu r; nextUpdateTime := n |}.

(** Where a call is: in [load], before the lock, under the lock, or answered. *)
Inductive pc :=
  | LoadTable (id : Z)
  | LoadKept (id : Z)
  | ReadClock (id : Z)
  | TestNext (id now : Z)
  | Lock (id : Z)
  | Recheck (id : Z)
  | ReadClock2 (id : Z)
  | TestNext2 (id now : Z)
  | Walk (id : Z)
  | ReadClock3 (id : Z) (renew : option cgroupContainer)
  | StoreTable (id now : Z) (renew : cgroupContainer)
  | StoreNext (id now : Z) (ok : bool)
  | Final (id : Z) (ok : bool)
  | Remember (id : Z)
  | Unlock (answer : list Z)
  | Answered (answer : list Z).

(** What is seen of a walk from outside: the time that allowed it, and the time and
    the outcome that are stored at its end. *)
Inductive mark := Started (now : Z) | Stored (now : Z) (ok : bool).

(** One step of a call at time [t]; [vs] is what a walk meets.  [None]: the lock is
    taken, or the call is over. *)
Definition step (t : Z) (vs : list visit) (p : pc) (r : ContainerResolver) : option (pc * ContainerResolver * list mark) :=
  match p with
  | LoadTable id =>
      match cgroupTable r !! id with
      | Some cid => Some (Answered cid, r, [])
      | None => Some (LoadKept id, r, [])
      end
  | LoadKept id =>
      let '(ok, c) := GetIfPresent t id (nonContainer r) in
      Some (if (ok : bool) then Answered (unknown id) else ReadClock id, set_kept c r, [])
  | ReadClock id => Some (TestNext id t, r, [])
  | TestNext id now => Some (if now <? nextUpdateTime r then Answered (unknown id) else Lock id, r, [])
  | Lock id => if mu r then None else Some (Recheck id, set_mu true r, [])
  | Recheck id =>
      match cgroupTable r !! id with
      | Some cid => Some (Unlock cid, r, [])
      | None => Some (ReadClock2 id, r, [])
      end
  | ReadClock2 id => Some (TestNext2 id t, r, [])
  | TestNext2 id now =>
      if now <? nextUpdateTime r then Some (Unlock (unknown id), r, []) else Some (Walk id, r, [Started now])
  | Walk id => Some (ReadClock3 id (update vs), r, [])
  | ReadClock3 id renew =>
      Some (match renew with Some renew => StoreTable id t renew | None => StoreNext id t false end, r, [])
  | StoreTable id now renew => Some (StoreNext id now true, set_table renew r, [])
  | StoreNext id now ok =>
      Some (Final id ok, set_next (now + if ok then updateInterval else updateIntervalOnError) r, [Stored now ok])
  | Final id ok =>
      match cgroupTable r !! id with
      | Some cid => Some (Unlock cid, r, [])
      | None => Some (if ok then Remember id else Unlock (unknown id), r, [])
      end
  | Remember id => Some (Unlock (unknown id), set_kept (Set_ t id (nonContainer r)) r, [])
  | Unlock answer => Some (Answered answer, set_mu false r, [])
  | Answered _ => None
  end.

(** Calls that run at the same time: a thread that cannot step stays where it is. *)
Definition pool_step (c : nat * Z * list visit) (x : list pc * ContainerResolver) : list pc * ContainerResolver * list mark :=
  let '(i, t, vs) := c in
  match x.1 !! i ≫= fun p => step t vs p x.2 with
  | Some (p', r', ms) => (<[i := p']> x.1, r', ms)
  | None => (x, [])
  end.

Fixpoint run_pool (cs : list (nat * Z * list visit)) (x : list pc * ContainerResolver) : list pc * ContainerResolver * list mark :=
  match cs with
  | [] => (x, [])
  | c :: cs' =>
      let '(x1, ms1) := pool_step c x in
      let '(x2, ms2) := run_pool cs' x1 in
      (x2, ms1 ++ ms2)
  end.

(** A call that runs alone: its clock readings and its walk come from [ts] and [vs]. *)
Fixpoint alone (ts : list Z) (vs : list visit) (p : pc) (r : ContainerResolver) : pc * ContainerResolver :=
  match ts with
  | [] => (p, r)
  | t :: ts' => match step t vs p r with Some (p', r', _) => alone ts' vs p' r' | None => (p, r) end
  end.
End Resolve.

(** A set of keys and the time they expire; reading does not extend it. *)
Definition expiry : Z := 600 * 10 ^ 9.

#[export] Instance ref_expiring : Expiring := {
  kept := gmap Z Z;
  kept_none := ∅;
  GetIfPresent t k c := (from_option (fun x => t <? x) false (c !! k), c);
  Set_ t k c := if from_option (fun x => t <? x) false (c !! k) then c else <[k := t + expiry]> c;
}.

#[export] Instance ref_expiring_ok : ExpiringOk ref_expiring.
Proof.
  refine {| holds := fun (c : kept) t k => from_option (fun x => t <? x) false ((c : gmap Z Z) !! k) |}; simpl; try done.
  intros t t' k k' c. case_match; [by right|]. destruct (decide (k' = k)) as [->|Hk]; [by left|].
  rewrite lookup_insert_ne by done. by right.
Defined.
