(* ===== verification/ResolverTheorems.v ===== *)
(** What holds of resolving cgroups to containers, for one call and for any number of
    calls whose steps interleave: names and walks are read exactly, walks are paced,
    answers are sound, and every call answers. *)

From S2P Require Import Prelude GoStd Resolver.

(** ** Names and walks *)

Lemma hex_run_spec s :
  s = (hex_run s).1 ++ (hex_run s).2 /\ Forall (fun c => hex_char c = true) (hex_run s).1.
Proof.
  induction s as [|c s [H1 H2]]; [done|]. simpl. destruct (hex_char c) eqn:E; [|done].
  destruct (hex_run s) as [h t]. simpl in *. split; [by rewrite <- H1|by constructor].
Qed.

Lemma hex_run_app h t :
  Forall (fun c => hex_char c = true) h -> hex_run (h ++ str ".scope" ++ t) = (h, str ".scope" ++ t).
Proof. induction 1 as [|c h Hc _ IH]; [done|]. change ((c :: h) ++ str ".scope" ++ t) with (c :: (h ++ str ".scope" ++ t)). cbn [hex_run]. by rewrite Hc, IH. Qed.

(** The name of a scope: a container's identifier between a dash and the suffix. *)
Definition scope_name (s h : list Z) : Prop :=
  exists pre suf, s = pre ++ 45 :: h ++ str ".scope" ++ suf /\
    Forall (fun c => hex_char c = true) h /\ (32 <= length h <= 64)%nat.

Lemma container_here s' h :
  (let '(h, t) := hex_run s' in (32 <=? length h)%nat && (length h <=? 64)%nat && HasPrefix t (str ".scope")) = true ->
  (hex_run s').1 = h ->
  exists suf, s' = h ++ str ".scope" ++ suf /\ Forall (fun c => hex_char c = true) h /\ (32 <= length h <= 64)%nat.
Proof.
  destruct (hex_run_spec s') as [H1 H2]. destruct (hex_run s') as [h' t]. cbn [fst snd] in *. intros H <-.
  apply andb_true_iff in H as [[Ha Hb]%andb_true_iff [suf ->]%HasPrefix_true].
  apply Nat.leb_le in Ha, Hb. exists suf. split_and!; [done|done|lia|lia].
Qed.

Lemma container_id_None s h : container_id s = None -> ~ scope_name s h.
Proof.
  induction s as [|c s IH]; [intros _ ([|] & suf & ? & _); done|]. cbn [container_id].
  destruct (hex_run s) as [h' t] eqn:E. destruct (_ && _ && _ && _) eqn:Ht; [done|].
  intros Hn ([|c' pre] & suf & Es & Hh & Hl).
  - pose proof (f_equal tail Es : s = h ++ str ".scope" ++ suf) as Hs. pose proof (f_equal head Es : Some c = Some 45) as [= ->].
    rewrite Hs, (hex_run_app h suf Hh) in E. rewrite <- (f_equal fst E : h = h'), <- (f_equal snd E : str ".scope" ++ suf = t) in Ht.
    rewrite (HasPrefix_app (str ".scope") suf), (proj2 (Nat.leb_le 32 _)), (proj2 (Nat.leb_le _ 64)) in Ht by lia. done.
  - apply (IH Hn). exists pre, suf. split; [|done]. exact (f_equal tail Es).
Qed.

Lemma container_id_Some s h : container_id s = Some h -> scope_name s h.
Proof.
  induction s as [|c s IH]; [done|]. cbn [container_id].
  pose proof (container_here s (hex_run s).1) as Hc. destruct (hex_run s) as [h' t].
  destruct (_ && _ && _ && _) eqn:Ht.
  - intros [= <-]. rewrite <- !andb_assoc in Ht. apply andb_true_iff in Ht as [->%Z.eqb_eq Ht].
    rewrite andb_assoc in Ht. destruct (Hc Ht eq_refl) as (suf & -> & ? & ?). by exists [], suf.
  - intros (pre & suf & -> & ? & ?)%IH. by exists (c :: pre), suf.
Qed.

(** A directory that names a container. *)
Definition names_container (v : visit) (ino : Z) (cid : list Z) : Prop :=
  v_err v = false /\ v_dir v = true /\ v_info v = Some ino /\ container_id (v_name v) = Some cid.

Lemma update_entry_lookup v T ino :
  (exists cid, names_container v ino cid /\ update_entry v T !! ino = Some cid) \/
  (forall cid, ~ names_container v ino cid) /\ update_entry v T !! ino = T !! ino.
Proof.
  unfold update_entry, names_container. destruct (v_err v) eqn:E1; [right; split; [naive_solver|done]|].
  destruct (v_dir v) eqn:E2; [|right; split; [naive_solver|done]]. simpl.
  destruct (container_id (v_name v)) as [cid|]; [|right; split; [naive_solver|done]].
  destruct (v_info v) as [i|]; [|right; split; [naive_solver|done]].
  destruct (decide (i = ino)) as [->|Hi].
  - left. exists cid. by rewrite lookup_insert_eq.
  - right. rewrite lookup_insert_ne by done. split; [naive_solver|done].
Qed.

Lemma update_walk_spec vs T :
  match update_walk vs T with
  | None => exists v, v ∈ vs /\ v_done v = true
  | Some T' => Forall (fun v => v_done v = false) vs /\ forall ino,
      (exists v cid, v ∈ vs /\ names_container v ino cid /\ T' !! ino = Some cid) \/
      (forall v cid, v ∈ vs -> ~ names_container v ino cid) /\ T' !! ino = T !! ino
  end.
Proof.
  revert T. induction vs as [|v vs IH]; intros T; cbn [update_walk].
  { split; [constructor|]. intros ino. right. split; [set_solver|done]. }
  destruct (v_done v) eqn:Ed; [exists v; split; [by left|done]|].
  specialize (IH (update_entry v T)). destruct (update_walk vs _) as [T'|].
  - destruct IH as [Hf IH]. split; [by constructor|]. intros ino. destruct (IH ino) as [(v' & cid & ? & ? & ?)|[Hno Heq]].
    + left. exists v', cid. split_and!; [by right|done..].
    + destruct (update_entry_lookup v T ino) as [(cid & ? & ?)|[? ?]].
      * left. exists v, cid. split_and!; [by left|done|congruence].
      * right. split; [|congruence]. intros v' cid [->|?]%elem_of_cons; eauto.
  - destruct IH as (v' & ? & ?). exists v'. split; [by right|done].
Qed.

(** What a walk yields.  It fails exactly when the context is done at one of the
    entries; an entry that cannot be read does not make it fail but is left out.
    Otherwise the table holds an inode exactly if a directory that could be read has it
    and names a container, and with the name of such a directory. *)
Theorem walk_exact vs :
  match update vs with
  | None => exists v, v ∈ vs /\ v_done v = true
  | Some T => Forall (fun v => v_done v = false) vs /\ forall ino,
      match T !! ino with
      | Some cid => exists v, v ∈ vs /\ names_container v ino cid /\ scope_name (v_name v) cid
      | None => forall v cid, v ∈ vs -> v_err v = false -> v_dir v = true -> v_info v = Some ino -> ~ scope_name (v_name v) cid
      end
  end.
Proof.
  unfold update. pose proof (update_walk_spec vs ∅) as H. destruct (update_walk vs ∅) as [T|]; [|done].
  destruct H as [Hf H]. split; [done|]. intros ino. destruct (H ino) as [(v & cid & Hv & Hc & ->)|[Hno ->]].
  - exists v. split_and!; [done..|]. apply container_id_Some. by destruct Hc as (_ & _ & _ & ?).
  - rewrite lookup_empty. intros v cid Hv He Hd Hi. destruct (container_id (v_name v)) as [c|] eqn:E.
    + destruct (Hno v c Hv). done.
    + by apply container_id_None.
Qed.

Section Calls.
Context {M : Expiring}.
Implicit Types (r : ContainerResolver) (ps : list pc) (x : list pc * ContainerResolver).

(** ** The lock *)

(** The call holds the lock; it is between the decision to walk and the store of the
    time of the next walk. *)
Definition critical (p : pc) : bool :=
  match p with
  | LoadTable _ | LoadKept _ | ReadClock _ | TestNext _ _ | Lock _ | Answered _ => false
  | _ => true
  end.

Definition walking (p : pc) : bool :=
  match p with Walk _ | ReadClock3 _ _ | StoreTable _ _ _ | StoreNext _ _ _ => true | _ => false end.

Definition count (f : pc -> bool) ps : nat := length (List.filter f ps).

Lemma count_insert f ps i p p' :
  ps !! i = Some p -> (count f (<[i := p']> ps) + Nat.b2n (f p) = count f ps + Nat.b2n (f p'))%nat.
Proof.
  unfold count. revert i. induction ps as [|q ps IH]; intros [|i] H; [done..| |].
  - injection H as ->. simpl. destruct (f p), (f p'); simpl; lia.
  - simpl. specialize (IH i H). destruct (f q); simpl; lia.
Qed.

Lemma count_mono f g ps : (forall p, f p = true -> g p = true) -> (count f ps <= count g ps)%nat.
Proof.
  intros H. unfold count. induction ps as [|p ps IH]; [done|]. simpl.
  destruct (f p) eqn:E; [rewrite (H p E); simpl; lia|]. destruct (g p); simpl; lia.
Qed.

Lemma count_lookup f ps i p : ps !! i = Some p -> f p = true -> (0 < count f ps)%nat.
Proof.
  intros H%list_elem_of_lookup_2 Hf. unfold count. assert (In p (List.filter f ps)) as Hin.
  { apply filter_In. by rewrite <- list_elem_of_In. }
  destruct (List.filter f ps); [done|]. simpl. lia.
Qed.

(** One call holds the lock when it is taken, and [w] tells whether it walks. *)
Definition locked (w : bool) x : Prop :=
  count critical x.1 = Nat.b2n (mu x.2) /\ count walking x.1 = Nat.b2n w.

Lemma walking_critical p : walking p = true -> critical p = true.
Proof. by destruct p. Qed.

(** The holder of the lock that does not walk: nobody does. *)
Lemma holder_walking w x i p :
  locked w x -> x.1 !! i = Some p -> critical p = true -> mu x.2 = true /\ w = walking p.
Proof.
  intros [Hc Hw] Hi Hp. pose proof (count_lookup _ _ _ _ Hi Hp) as Hpos. rewrite Hc in Hpos.
  destruct (mu x.2) eqn:Em; [|simpl in Hpos; lia]. split; [done|].
  pose proof (count_mono walking critical (<[i := Answered []]> x.1) walking_critical) as Hm.
  pose proof (count_insert critical _ _ _ (Answered []) Hi) as H1. pose proof (count_insert walking _ _ _ (Answered []) Hi) as H2.
  rewrite Hc, Hp in H1. rewrite Hw in H2. destruct w, (walking p); simpl in *; lia || done.
Qed.

(** What a step does to the lock, the time of the next walk, and the marks. *)
Definition stepped p r p' r' (ms : list mark) : Prop :=
  match critical p, critical p' with
  | false, false | true, true => mu r' = mu r
  | false, true => mu r = false /\ mu r' = true
  | true, false => mu r' = false
  end /\
  (nextUpdateTime r' = nextUpdateTime r /\ ms = [] /\ walking p' = walking p \/
   critical p = true /\ critical p' = true /\ walking p = false /\ walking p' = true /\
     nextUpdateTime r' = nextUpdateTime r /\ (exists now, ms = [Started now] /\ nextUpdateTime r <= now) \/
   critical p = true /\ critical p' = true /\ walking p = true /\ walking p' = false /\
     (exists now ok, ms = [Stored now ok] /\
        nextUpdateTime r' = now + if ok then updateInterval else updateIntervalOnError)).

Lemma step_stepped t vs p r p' r' ms : step t vs p r = Some (p', r', ms) -> stepped p r p' r' ms.
Proof.
  unfold stepped. destruct p; cbn [step]; intros H;
    repeat match type of H with context [match ?y with _ => _ end] => destruct y eqn:? end;
    try discriminate H; injection H as <- <- <-; (split; [try split; assumption || reflexivity|]);
    first [by left|right; left; zbool; split_and!; [reflexivity..|eexists; split; [reflexivity|lia]]
          |right; right; split_and!; [reflexivity..|eexists _, _; split; reflexivity]].
Qed.

(** ** Pace *)

(** Walks do not overlap, and a walk starts only when the interval after the one
    before is over; [w] tells whether one is under way and [n] when the next may
    start. *)
Fixpoint paced (w : bool) (n : Z) (ms : list mark) : Prop :=
  match ms with
  | [] => True
  | Started now :: ms' => w = false /\ n <= now /\ paced true n ms'
  | Stored now ok :: ms' => w = true /\ paced false (now + if ok then updateInterval else updateIntervalOnError) ms'
  end.

Lemma pool_step_paced w x c :
  locked w x -> let '(x', ms) := pool_step c x in
  exists w', locked w' x' /\
    forall ms', paced w' (nextUpdateTime x'.2) ms' -> paced w (nextUpdateTime x.2) (ms ++ ms').
Proof.
  intros Hl. destruct c as [[i t] vs]. unfold pool_step. destruct x as [ps r]. cbn [fst snd].
  destruct (ps !! i) as [p|] eqn:Hi; simpl; [|by exists w].
  destruct (step t vs p r) as [[[p' r'] ms]|] eqn:Es; [|by exists w].
  apply step_stepped in Es as [Hmu Hms].
  assert (critical p = true -> mu r = true /\ w = walking p) as Hh by (by apply (holder_walking w (ps, r) i)).
  destruct Hl as [Hc Hw]. cbn [fst snd] in *.
  pose proof (count_insert critical ps i p p' Hi) as H1. pose proof (count_insert walking ps i p p' Hi) as H2.
  assert (count critical (<[i := p']> ps) = Nat.b2n (mu r')) as Hc'.
  { destruct (critical p) eqn:E1, (critical p') eqn:E2; simpl in H1.
    - rewrite Hmu. lia.
    - destruct (Hh eq_refl) as [Hm _]. rewrite Hm in Hc. rewrite Hmu. simpl in *. lia.
    - destruct Hmu as [Hm ->]. rewrite Hm in Hc. simpl in *. lia.
    - rewrite Hmu. lia. }
  destruct Hms as [(-> & -> & Hww)|[(Hp & _ & E1 & E2 & -> & now & -> & Hn)|(Hp & _ & E1 & E2 & now & ok & -> & ->)]].
  - exists w. rewrite Hww in H2. split; [split; [done|simpl; lia]|done].
  - destruct (Hh Hp) as [_ ->]. rewrite E1, E2 in *. exists true. simpl in *. split; [split; [done|simpl; lia]|done].
  - destruct (Hh Hp) as [_ ->]. rewrite E1, E2 in *. exists false. simpl in *. split; [split; [done|simpl; lia]|done].
Qed.

Lemma run_pool_paced cs w x :
  locked w x -> let '(x', ms) := run_pool cs x in (exists w', locked w' x') /\ paced w (nextUpdateTime x.2) ms.
Proof.
  revert w x. induction cs as [|c cs IH]; intros w x Hl; cbn [run_pool]; [by split; [exists w|]|].
  pose proof (pool_step_paced w x c Hl) as H1. destruct (pool_step c x) as [x1 ms1]. destruct H1 as (w1 & Hl1 & Hp).
  specialize (IH w1 x1 Hl1). destruct (run_pool cs x1) as [x2 ms2]. destruct IH as [? ?]. split; [done|by apply Hp].
Qed.

Lemma locked_start ids now : locked false (LoadTable <$> ids, NewContainerResolver now).
Proof. split; simpl; unfold count; induction ids as [|id ids IH]; done. Qed.

(** C28. Walks are paced.  However the steps of any number of calls interleave and
    whatever the clock shows, walks of the cgroup directory do not overlap, and one
    starts only at a time that is past the end of the one before by the interval: five
    seconds, or one after a failure.  At most one call holds the lock. *)
Theorem walks_paced ids now cs ps r ms :
  run_pool cs (LoadTable <$> ids, NewContainerResolver now) = (ps, r, ms) ->
  paced false now ms /\ (count critical ps <= 1)%nat.
Proof.
  intros E. pose proof (run_pool_paced cs _ _ (locked_start ids now)) as H. rewrite E in H.
  destruct H as [(w & Hc & _) Hp]. split; [done|]. cbn [fst snd] in Hc. rewrite Hc. destruct (mu r); simpl; lia.
Qed.

(** ** Answers *)

Section Sound.
Context {MOk : ExpiringOk M} (all : list (nat * Z * list visit)).

(** A walk of the schedule yields the table. *)
Definition walked (T : gmap Z (list Z)) : Prop := exists c, c ∈ all /\ update c.2 = Some T.

Definition answer_ok (id : Z) (a : list Z) : Prop := (exists T, walked T /\ T !! id = Some a) \/ a = unknown id.

(** What the place of a call for [id] says. *)
Definition call_ok r (id : Z) (p : pc) : Prop :=
  match p with
  | LoadTable i | LoadKept i | ReadClock i | TestNext i _ | Lock i | Recheck i | ReadClock2 i | TestNext2 i _ | Walk i => i = id
  | ReadClock3 i renew => i = id /\ forall T, renew = Some T -> walked T
  | StoreTable i _ renew => i = id /\ walked renew
  | StoreNext i _ ok | Final i ok => i = id /\ (ok = true -> walked (cgroupTable r))
  | Remember i => i = id /\ exists T, walked T /\ T !! id = None
  | Unlock a | Answered a => answer_ok id a
  end.

Definition resolver_ok r : Prop :=
  (cgroupTable r = ∅ \/ walked (cgroupTable r)) /\
  forall t id, holds (nonContainer r) t id = true -> exists T, walked T /\ T !! id = None.

Lemma table_answer r id a : resolver_ok r -> cgroupTable r !! id = Some a -> answer_ok id a.
Proof. intros [[E|H] _] Ha; [by rewrite E, lookup_empty in Ha|left; by eauto]. Qed.

(** The table stays one that was walked. *)
Lemma call_ok_mono r r' id p : (walked (cgroupTable r) -> walked (cgroupTable r')) -> call_ok r id p -> call_ok r' id p.
Proof. intros H. destruct p; simpl; naive_solver. Qed.

Lemma kept_ok r c :
  resolver_ok r ->
  (forall t id, holds c t id = true -> (exists T, walked T /\ T !! id = None) \/ holds (nonContainer r) t id = true) ->
  resolver_ok (set_kept c r).
Proof. intros [Ht Hk] Hc. split; [done|]. intros t id H. destruct (Hc t id H); eauto. Qed.

Lemma step_ok t vs p r p' r' ms id i :
  (i, t, vs) ∈ all -> step t vs p r = Some (p', r', ms) -> resolver_ok r -> call_ok r id p ->
  resolver_ok r' /\ call_ok r' id p' /\ (walked (cgroupTable r) -> walked (cgroupTable r')).
Proof.
  intros Hin H Hr Hp. pose proof (table_answer r id) as Ha. pose proof Hr as [Ht Hk].
  destruct p; cbn [step] in H; cbn [call_ok] in Hp;
    repeat match type of H with context [match ?y with _ => _ end] => destruct y eqn:? end;
    try discriminate H; injection H as <- <- <-; cbn [call_ok cgroupTable nonContainer set_kept set_mu set_table set_next];
    repeat match goal with H : _ /\ _ |- _ => destruct H end; subst;
    try (split_and!; try done; try (by auto); try (by right)).
  - eapply kept_ok; [done|]. intros t' k' Hh. right. eapply get_only. rewrite Heqp. exact Hh.
  - eapply kept_ok; [done|]. intros t' k' Hh. right. eapply get_only. rewrite Heqp. exact Hh.
  - intros T HT. by exists (i, t, vs).
  - split; [by right|exact Hk].
  - exists (cgroupTable r). auto.
  - eapply kept_ok; [done|]. intros t' k' [->|Hh]%set_only; [left|by right]. by eauto.
Qed.

Lemma calls_step_ok ids x c :
  c ∈ all -> resolver_ok x.2 -> Forall2 (call_ok x.2) ids x.1 ->
  resolver_ok (pool_step c x).1.2 /\ Forall2 (call_ok (pool_step c x).1.2) ids (pool_step c x).1.1.
Proof.
  intros Hin Hr Hps. destruct c as [[i t] vs], x as [ps r]. unfold pool_step. cbn [fst snd] in *.
  destruct (ps !! i) as [p|] eqn:Hi; simpl; [|done].
  destruct (step t vs p r) as [[[p' r'] ms]|] eqn:Es; [|done]. cbn [fst snd].
  destruct (Forall2_lookup_r _ _ _ _ _ Hps Hi) as (id & Hid & Hp).
  destruct (step_ok t vs p r p' r' ms id i Hin Es Hr Hp) as (Hr' & Hp' & Hmono). split; [done|].
  rewrite <- (list_insert_id ids i id Hid). apply Forall2_insert; [|done].
  eapply Forall2_impl; [exact Hps|]. intros. by eapply call_ok_mono.
Qed.

Lemma calls_run_ok ids cs x :
  cs ⊆ all -> resolver_ok x.2 -> Forall2 (call_ok x.2) ids x.1 ->
  resolver_ok (run_pool cs x).1.2 /\ Forall2 (call_ok (run_pool cs x).1.2) ids (run_pool cs x).1.1.
Proof.
  revert x. induction cs as [|c cs IH]; intros x Hin Hr Hps; cbn [run_pool]; [done|].
  destruct (calls_step_ok ids x c ltac:(set_solver) Hr Hps) as [Hr1 Hps1].
  destruct (pool_step c x) as [x1 ms1]. specialize (IH x1 ltac:(set_solver) Hr1 Hps1).
  by destruct (run_pool cs x1) as [x2 ms2].
Qed.
End Sound.

(** C29. Answers are sound.  However the steps of calls on a new resolver interleave, a
    call that answered with a container does so because a walk saw that container on
    its cgroup; every other answer is that the cgroup is of no container.  A cgroup is
    remembered as such only when a walk that was completed did not see it. *)
Theorem answers_sound {MOk : ExpiringOk M} ids now cs ps r ms :
  run_pool cs (LoadTable <$> ids, NewContainerResolver now) = (ps, r, ms) ->
  (forall i id a, ids !! i = Some id -> ps !! i = Some (Answered a) ->
    a = unknown id \/ exists c T, c ∈ cs /\ update c.2 = Some T /\ T !! id = Some a) /\
  (forall t id, holds (nonContainer r) t id = true -> exists c T, c ∈ cs /\ update c.2 = Some T /\ T !! id = None).
Proof.
  intros E. destruct (calls_run_ok cs ids cs (LoadTable <$> ids, NewContainerResolver now)) as [Hr Hps].
  - done.
  - split; [by left|]. intros t id. simpl. by rewrite holds_none.
  - apply Forall2_fmap_r, Forall_Forall2_diag, Forall_true. done.
  - rewrite E in *. cbn [fst snd] in *. split.
    + intros i id a Hid Ha. destruct (Forall2_lookup_lr _ _ _ _ _ _ Hps Hid Ha) as [(T & (c & ? & ?) & ?)|?]; [right|by left].
      by exists c, T.
    + intros t id Hh. destruct (proj2 Hr t id Hh) as (T & (c & ? & ?) & ?). by exists c, T.
Qed.

(** ** Progress *)

Definition rank (p : pc) : nat :=
  match p with
  | LoadTable _ => 15 | LoadKept _ => 14 | ReadClock _ => 13 | TestNext _ _ => 12 | Lock _ => 11
  | Recheck _ => 10 | ReadClock2 _ => 9 | TestNext2 _ _ => 8 | Walk _ => 7 | ReadClock3 _ _ => 6
  | StoreTable _ _ _ => 5 | StoreNext _ _ _ => 4 | Final _ _ => 3 | Remember _ => 2 | Unlock _ => 1 | Answered _ => 0
  end.

Definition work ps : nat := sum_list_with rank ps.

Lemma step_rank t vs p r p' r' ms : step t vs p r = Some (p', r', ms) -> (rank p' < rank p)%nat.
Proof.
  destruct p; cbn [step]; intros H;
    repeat match type of H with context [match ?y with _ => _ end] => destruct y eqn:? end;
    try discriminate H; injection H as <- _ _; cbn [rank]; lia.
Qed.

Lemma work_insert ps i p p' : ps !! i = Some p -> (work (<[i := p']> ps) + rank p = work ps + rank p')%nat.
Proof.
  unfold work. revert i. induction ps as [|q ps IH]; intros [|i] H; [done..| |].
  - injection H as ->. change (<[0%nat := p']> (p :: ps)) with (p' :: ps). cbn [sum_list_with]. lia.
  - specialize (IH i H). change (<[S i := p']> (q :: ps)) with (q :: <[i := p']> ps). cbn [sum_list_with]. lia.
Qed.

Lemma pool_step_work c x :
  (pool_step c x).1 = x \/ (work (pool_step c x).1.1 < work x.1)%nat.
Proof.
  destruct c as [[i t] vs], x as [ps r]. unfold pool_step. cbn [fst snd].
  destruct (ps !! i) as [p|] eqn:Hi; simpl; [|by left].
  destruct (step t vs p r) as [[[p' r'] ms]|] eqn:Es; [right|by left]. cbn [fst snd].
  apply step_rank in Es. pose proof (work_insert ps i p p' Hi). lia.
Qed.

Lemma run_pool_cons c cs x : (run_pool (c :: cs) x).1 = (run_pool cs (pool_step c x).1).1.
Proof. cbn [run_pool]. destruct (pool_step c x) as [x1 ms1]. cbn [fst]. by destruct (run_pool cs x1). Qed.

Lemma run_pool_app cs cs' x : (run_pool (cs ++ cs') x).1 = (run_pool cs' (run_pool cs x).1).1.
Proof.
  revert x. induction cs as [|c cs IH]; intros x; [done|]. rewrite <- app_comm_cons, !run_pool_cons. apply IH.
Qed.

Lemma run_pool_work cs x : (work (run_pool cs x).1.1 <= work x.1)%nat.
Proof.
  revert x. induction cs as [|c cs IH]; intros x; [done|]. rewrite run_pool_cons.
  specialize (IH (pool_step c x).1). destruct (pool_step_work c x) as [E|E]; [by rewrite E in *|lia].
Qed.

Lemma pool_step_length c x : length (pool_step c x).1.1 = length x.1.
Proof. destruct c as [[i t] vs], x as [ps r]. unfold pool_step. case_match; [|done]. destruct p as [[? ?] ?]. apply length_insert. Qed.

Lemma run_pool_length cs x : length (run_pool cs x).1.1 = length x.1.
Proof.
  revert x. induction cs as [|c cs IH]; intros x; [done|]. by rewrite run_pool_cons, IH, pool_step_length.
Qed.

(** Thread [i] can step whatever the clock shows. *)
Definition enabled x (i : nat) : Prop := forall t vs, is_Some (x.1 !! i ≫= fun p => step t vs p x.2).

Lemma critical_steps p r t vs : critical p = true -> is_Some (step t vs p r).
Proof. destruct p; cbn [step critical]; intros H; try discriminate H; repeat case_match; by eexists. Qed.

Lemma unlocked_steps p r t vs : mu r = false -> rank p <> 0%nat -> is_Some (step t vs p r).
Proof. intros Hm. destruct p; cbn [step rank]; intros H; rewrite ?Hm; repeat case_match; try done; by eexists. Qed.

Lemma count_pos f ps : (0 < count f ps)%nat -> exists i p, ps !! i = Some p /\ f p = true.
Proof.
  unfold count. intros H. destruct (List.filter f ps) as [|p l] eqn:E; [simpl in H; lia|].
  assert (In p (List.filter f ps)) as [Hin Hf]%filter_In by (rewrite E; by left).
  apply list_elem_of_In, list_elem_of_lookup_1 in Hin as [i Hi]. by exists i, p.
Qed.

Lemma work_pos ps : work ps <> 0%nat -> exists i p, ps !! i = Some p /\ rank p <> 0%nat.
Proof.
  unfold work. induction ps as [|p ps IH]; cbn [sum_list_with]; [done|]. intros H.
  destruct (decide (rank p = 0%nat)) as [E|E]; [|by exists 0%nat, p].
  destruct IH as (i & q & ? & ?); [lia|]. by exists (S i), q.
Qed.

(** No deadlock: a call that holds the lock, or any call when none does, can step. *)
Lemma some_enabled w x : locked w x -> work x.1 <> 0%nat -> exists i, (i < length x.1)%nat /\ enabled x i.
Proof.
  intros [Hc _] Hw. destruct (mu x.2) eqn:Em.
  - destruct (count_pos critical x.1) as (i & p & Hi & Hp); [rewrite Hc; simpl; lia|].
    exists i. split; [by apply lookup_lt_Some in Hi|]. intros t vs. rewrite Hi. by apply critical_steps.
  - destruct (work_pos x.1 Hw) as (i & p & Hi & Hp).
    exists i. split; [by apply lookup_lt_Some in Hi|]. intros t vs. rewrite Hi. by apply unlocked_steps.
Qed.

Lemma enabled_work x i cs :
  enabled x i -> i ∈ ((fun c => c.1.1) <$> cs) -> (work (run_pool cs x).1.1 < work x.1)%nat.
Proof.
  intros He. induction cs as [|c cs IH]; [set_solver|]. intros Hin. rewrite run_pool_cons.
  destruct (pool_step_work c x) as [E|E].
  - rewrite E. apply IH. rewrite fmap_cons in Hin. apply elem_of_cons in Hin as [->|Hin]; [|done].
    exfalso. destruct c as [[i t] vs], x as [ps r]. destruct (He t vs) as [[[p' r'] ms] Hs].
    unfold pool_step in E. cbn [fst snd] in *. rewrite Hs in E.
    destruct (ps !! i) as [p|] eqn:Hi; [|done]. simpl in Hs. apply step_rank in Hs.
    injection E as E _. pose proof (work_insert ps i p p' Hi) as Hw. rewrite E in Hw. lia.
  - pose proof (run_pool_work cs (pool_step c x).1). lia.
Qed.

Lemma run_pool_locked cs w x : locked w x -> exists w', locked w' (run_pool cs x).1.
Proof. intros H. pose proof (run_pool_paced cs w x H) as Hp. destruct (run_pool cs x). by destruct Hp. Qed.

(** Every thread has a turn in the round. *)
Definition fair (n : nat) (round : list (nat * Z * list visit)) : Prop :=
  forall i, (i < n)%nat -> i ∈ ((fun c => c.1.1) <$> round).

Lemma rounds_work rounds w x :
  locked w x -> Forall (fair (length x.1)) rounds ->
  (work (run_pool (mjoin rounds) x).1.1 + length rounds <= work x.1)%nat \/ work (run_pool (mjoin rounds) x).1.1 = 0%nat.
Proof.
  revert w x. induction rounds as [|cs rounds IH]; intros w x Hl Hf; [left; simpl; lia|].
  apply Forall_cons in Hf as [Hf Hfs]. change (mjoin (cs :: rounds)) with (cs ++ mjoin rounds). rewrite run_pool_app.
  destruct (run_pool_locked cs w x Hl) as [w' Hl']. specialize (IH w' _ Hl'). rewrite run_pool_length in IH.
  specialize (IH Hfs). destruct (decide (work x.1 = 0%nat)) as [E|E].
  - right. pose proof (run_pool_work cs x). pose proof (run_pool_work (mjoin rounds) (run_pool cs x).1). lia.
  - destruct (some_enabled w x Hl E) as (i & Hi & He). pose proof (enabled_work x i cs He (Hf i Hi)).
    destruct IH as [IH|IH]; [left|by right]. cbn [length]. lia.
Qed.

Lemma work_answered ps : work ps = 0%nat -> Forall (fun p => exists a, p = Answered a) ps.
Proof.
  unfold work. induction ps as [|p ps IH]; cbn [sum_list_with]; [constructor|]. intros H.
  constructor; [|apply IH; lia]. destruct p; cbn [rank] in H; try lia. by eexists.
Qed.

(** C30. Every call answers.  Calls neither deadlock nor starve each other: once each of
    them has had fifteen turns per call, in rounds of any order and with any clock and
    any walks, all have answered. *)
Theorem resolvers_answer ids now rounds ps r ms :
  Forall (fair (length ids)) rounds -> (15 * length ids <= length rounds)%nat ->
  run_pool (mjoin rounds) (LoadTable <$> ids, NewContainerResolver now) = (ps, r, ms) ->
  Forall (fun p => exists a, p = Answered a) ps.
Proof.
  intros Hf Hn E. apply work_answered. pose proof (locked_start ids now) as Hl.
  assert (work (LoadTable <$> ids) = 15 * length ids)%nat as Hw.
  { unfold work. clear. induction ids as [|id ids IH]; [done|]. rewrite fmap_cons. cbn [sum_list_with rank length]. lia. }
  pose proof (rounds_work rounds false (LoadTable <$> ids, NewContainerResolver now) Hl) as H.
  cbn [fst] in H. rewrite length_fmap in H. destruct (H Hf) as [H'|H']; rewrite E in H'; cbn [fst] in H'; [lia|done].
Qed.

(** ** One call *)

#[local] Opaque unknown update.

Lemma alone_answered ts vs a r : alone ts vs (Answered a) r = (Answered a, r).
Proof. by destruct ts. Qed.

Lemma answer_is a r id :
  default (unknown id) (cgroupTable r !! id) = a -> (Answered a, r) = (Answered (default (unknown id) (cgroupTable r !! id)), r).
Proof. by intros ->. Qed.

(** From a decision to walk to the answer. *)
Lemma alone_walk ts vs id r :
  length ts = 7%nat -> mu r = true -> cgroupTable r !! id = None ->
  exists r', alone ts vs (Walk id) r = (Answered (default (unknown id) (cgroupTable r' !! id)), r') /\
    mu r' = false /\ cgroupTable r' = default (cgroupTable r) (update vs).
Proof.
  intros Hts Hmu Ht. do 7 (destruct ts as [|? ts]; [discriminate Hts|]). cbn [alone step].
  destruct (update vs) as [T|]; cbn [alone step set_table set_next cgroupTable].
  - destruct (T !! id) as [cid|] eqn:E; cbn [alone step]; rewrite ?alone_answered; eexists;
      (split; [apply answer_is|split; reflexivity]); cbn [cgroupTable set_mu set_kept set_next set_table]; by rewrite E.
  - rewrite Ht. cbn [alone step]. rewrite ?alone_answered. eexists. split; [apply answer_is|split; reflexivity].
    cbn [cgroupTable set_mu set_kept set_next set_table]. by rewrite Ht.
Qed.

(** A call that nothing interrupts answers within fifteen steps and releases the
    lock; the answer is what the table holds afterwards.  The table is the old one or
    the one of a walk, and for a cgroup that is neither in it nor remembered, at a time
    when a walk is due, it is the one of the walk, or the old one if the walk failed. *)
Theorem resolve_alone ts vs id r :
  length ts = 15%nat -> mu r = false ->
  exists r', alone ts vs (LoadTable id) r = (Answered (default (unknown id) (cgroupTable r' !! id)), r') /\
    mu r' = false /\ (cgroupTable r' = cgroupTable r \/ update vs = Some (cgroupTable r')) /\
    (cgroupTable r !! id = None -> (forall t, (GetIfPresent t id (nonContainer r)).1 = false) ->
     Forall (fun t => nextUpdateTime r <= t) ts -> cgroupTable r' = default (cgroupTable r) (update vs)).
Proof.
  intros Hts Hmu. do 8 (destruct ts as [|? ts]; [discriminate Hts|]). injection Hts as Hts.
  cbn [alone step]. destruct (cgroupTable r !! id) as [cid|] eqn:Et.
  { exists r. rewrite Et, ?alone_answered. by split_and!; [|done|left|]. }
  cbn [alone step]. destruct (GetIfPresent z0 id (nonContainer r)) as [ok c] eqn:Eg. destruct ok.
  { exists (set_kept c r). rewrite ?alone_answered. cbn [set_kept cgroupTable mu]. rewrite Et.
    split_and!; [done|done|by left|]. intros _ Hg. specialize (Hg z0). by rewrite Eg in Hg. }
  cbn [alone step]. change (nextUpdateTime (set_kept c r)) with (nextUpdateTime r). destruct (Z.ltb_spec z1 (nextUpdateTime r)).
  { exists (set_kept c r). rewrite ?alone_answered. cbn [set_kept cgroupTable mu]. rewrite Et.
    split_and!; [done|done|by left|]. intros _ _ Hall. rewrite !Forall_cons in Hall. lia. }
  cbn [alone step]. change (mu (set_kept c r)) with (mu r). rewrite Hmu. cbn [alone step].
  change (cgroupTable (set_mu true (set_kept c r))) with (cgroupTable r). rewrite Et.
  cbn [alone step]. change (nextUpdateTime (set_mu true (set_kept c r))) with (nextUpdateTime r). destruct (Z.ltb_spec z5 (nextUpdateTime r)).
  { cbn [alone step]. destruct ts as [|? ts]; [discriminate Hts|]. cbn [alone step]. rewrite ?alone_answered.
    eexists. split; [apply answer_is; by apply (f_equal (default (unknown id)) Et)|].
    cbn [set_mu cgroupTable mu]. split_and!; [done|by left|]. intros _ _ Hall. rewrite !Forall_cons in Hall. lia. }
  destruct (alone_walk ts vs id (set_mu true (set_kept c r)) Hts eq_refl Et) as (r' & Ha & Hm & HT).
  exists r'. split_and!; [exact Ha|done| |by intros]. rewrite HT. destruct (update vs); [by right|by left].
Qed.
End Calls.

(** ** Witnesses *)

Lemma triple_eta {A B C : Type} (x : A * B * C) : x = (x.1.1, x.1.2, x.2).
Proof. by destruct x as [[? ?] ?]. Qed.

Module ResolverDemo.
(** Two calls, for the cgroup of a container and for one of none, in turns. *)
Definition cid : list Z := replicate 64 97.
Definition entries : list visit := [
  {| v_done := false; v_err := false; v_dir := true; v_name := str "docker-" ++ cid ++ str ".scope"; v_info := Some 7 |};
  {| v_done := false; v_err := true; v_dir := true; v_name := str "lost"; v_info := None |}].
Definition rounds : list (list (nat * Z * list visit)) :=
  (fun t => [(0%nat, 100 + Z.of_nat t, entries); (1%nat, 100 + Z.of_nat t, entries)]) <$> seq 0 30.
Definition final := run_pool (M := ref_expiring) (mjoin rounds) (LoadTable <$> [7; 9], NewContainerResolver 50).

Lemma final_run : run_pool (M := ref_expiring) (mjoin rounds) (LoadTable <$> [7; 9], NewContainerResolver 50) =
  (final.1.1, final.1.2, final.2).
Proof. exact (triple_eta final). Qed.
End ResolverDemo.

Lemma walks_paced_witness :
  ResolverDemo.final.2 = [Started 106; Stored 109 true] /\ paced false 50 ResolverDemo.final.2.
Proof.
  split; [vm_compute; reflexivity|].
  exact (proj1 (walks_paced [7; 9] 50 (mjoin ResolverDemo.rounds) _ _ _ ResolverDemo.final_run)).
Defined.

Lemma answers_sound_witness :
  ResolverDemo.final.1.1 !! 0%nat = Some (Answered ResolverDemo.cid) /\
  exists T, update ResolverDemo.entries = Some T /\ T !! 7 = Some ResolverDemo.cid.
Proof.
  assert (ResolverDemo.final.1.1 !! 0%nat = Some (Answered ResolverDemo.cid)) as H by (vm_compute; reflexivity).
  split; [exact H|].
  destruct (proj1 (answers_sound [7; 9] 50 (mjoin ResolverDemo.rounds) _ _ _ ResolverDemo.final_run)
    0%nat 7 ResolverDemo.cid eq_refl H) as [E|(c & T & Hc & HT & Hl)]; [vm_compute in E; discriminate E|].
  exists T. split; [|exact Hl]. rewrite <- HT. f_equal. symmetry. clear HT Hl H.
  apply list_elem_of_join in Hc as (round & Hc & Hr). apply list_elem_of_fmap in Hr as (t & -> & _).
  repeat (apply elem_of_cons in Hc as [->|Hc]; [reflexivity|]). by apply elem_of_nil in Hc.
Defined.

Lemma resolvers_answer_witness :
  Forall (fun p => exists a, p = Answered a) ResolverDemo.final.1.1.
Proof.
  eapply (resolvers_answer [7; 9] 50 ResolverDemo.rounds).
  - apply Forall_forall. intros round (t & -> & _)%list_elem_of_fmap i Hi. simpl in *.
    destruct i as [|[|i]]; [left|right; left|lia].
  - vm_compute. lia.
  - exact ResolverDemo.final_run.
Defined.

Lemma resolve_alone_witness :
  exists r', alone (replicate 15 100) ResolverDemo.entries (LoadTable 7) (NewContainerResolver (M := ref_expiring) 50) = (Answered ResolverDemo.cid, r').
Proof.
  destruct (resolve_alone (replicate 15 100) ResolverDemo.entries 7 (NewContainerResolver (M := ref_expiring) 50) eq_refl eq_refl) as (r' & H & _ & _ & HT).
  exists r'. rewrite H. rewrite HT; [vm_compute; reflexivity|reflexivity|reflexivity|].
  apply Forall_replicate. vm_compute. discriminate.
Defined.
