(* ===== verification/Export.v ===== *)
(** Export: [export/exporter.go], [export/sink.go], [export/sink_gateway.go],
    [export/sink_discard.go], the target of [export/sink_jsonl.go] and the HTTP and MCP
    records of [export/records.go].

    Each kind of event has a channel and a loop that, once a second, writes a batch to
    the sink; the loops share the sink.  The gateway sink sends a batch over HTTP and
    tries again when that fails; it has no lock, so the requests of the loops interleave,
    and one that was given up may still arrive.  What the network does, the clock and the
    URL parser are given. *)

From S2P Require Import Prelude GoStd Collector SslStore.

(** ** Sinks *)

(** [WriteBatch] returns no error. *)
Definition discard_sink {E} (endpoint : list Z) (events : list E) : bool := true.

Module Gateway.
Section Gateway.
Context {E : Type} (Marshal : list E -> option (list Z)) (JoinPath : list Z -> list (list Z) -> option (list Z)).

(** Whether [http.NewRequestWithContext] takes the URL. *)
Context (valid_url : list Z -> bool) (baseURL : list Z).

Definition endpointHealth : list Z := str "/healthz".
Definition endpointIngest : list Z := str "/api/v1/ingest".
Definition maxGatewayRetryCount : nat := 3.
Definition StatusOK : Z := 200.
Definition StatusAccepted : Z := 202.

(** A request: its URL and its body. *)
Definition request : Type := list Z * list Z.

(** The status and body of the reply, if [client.Do] returns one and its body can be
    read.  The result is whether the batch was accepted, and the request that was sent. *)
Definition writeBatchOnce (endpoint : list Z) (events : list E) (reply : option (Z * option (list Z)))
    : bool * option request :=
  match Marshal events with
  | None => (false, None)
  | Some payload =>
      match JoinPath baseURL [endpointIngest; endpoint] with
      | None => (false, None)
      | Some link =>
          if negb (valid_url link) then (false, None)
          else
            (match reply with
             | Some (status, Some _) => status =? StatusAccepted
             | _ => false
             end, Some (link, payload))
      end
  end.

(** [get] is the status of the reply to a GET, if one arrives. *)
Definition gatewayHealthCheck (get : list Z -> option Z) : bool :=
  match JoinPath baseURL [endpointHealth] with
  | None => false
  | Some link => if valid_url link then bool_decide (get link = Some StatusOK) else false
  end.
End Gateway.
End Gateway.

(** ** Targets *)

Module Target.
Section Target.

(** [filepath.Clean] on Unix, by components; the stack holds the components kept, last
    first. *)
Fixpoint clean_parts (rooted : bool) (parts stack : list (list Z)) : list (list Z) :=
  match parts with
  | [] => reverse stack
  | p :: parts' =>
      if decide (p = [] \/ p = str ".") then clean_parts rooted parts' stack
      else if decide (p = str "..") then
        match stack with
        | top :: stack' =>
            if decide (top = str "..") then clean_parts rooted parts' (p :: stack) else clean_parts rooted parts' stack'
        | [] => if rooted then clean_parts rooted parts' [] else clean_parts rooted parts' [p]
        end
      else clean_parts rooted parts' (p :: stack)
  end.

Definition IsAbs (path : list Z) : bool := HasPrefix path (str "/").

Definition Clean (path : list Z) : list Z :=
  if IsAbs path then 47 :: join_with 47 (clean_parts true (split_on 47 path) [])
  else match clean_parts false (split_on 47 path) [] with
  | [] => str "."
  | parts => join_with 47 parts
  end.

(** The parts of a URL that are used. *)
Record URL := { Scheme : list Z; Host : list Z; UPath : list Z }.

Context (Parse : list Z -> option URL).

Definition FilePathFromTarget (target : list Z) : option (list Z) :=
  match Parse target with
  | None => None
  | Some u =>
      if negb (bool_decide (Scheme u = str "file")) then None
      else if negb (bool_decide (Host u = [])) && negb (bool_decide (Host u = str "localhost")) then None
      else if bool_decide (UPath u = []) then None
      else
        let path := Clean (UPath u) in
        if negb (IsAbs path) then None else Some path
  end.

Inductive sink := DiscardSink | GatewaySink (baseURL : list Z) | JSONLSink (path : list Z).

(** Whether the gateway is healthy, and whether the file can be opened. *)
Context (healthy openable : list Z -> bool).

Definition NewJSONLSink (target : list Z) : option sink :=
  path ← FilePathFromTarget target;
  if openable path then Some (JSONLSink path) else None.

Definition NewGatewaySink (baseURL : list Z) : option sink :=
  if healthy baseURL then Some (GatewaySink baseURL) else None.

Definition NewSink (target : list Z) : option sink :=
  if decide (target = []) then Some DiscardSink
  else if HasPrefix target (str "http://") || HasPrefix target (str "https://") then NewGatewaySink target
  else if HasPrefix target (str "file://") then NewJSONLSink target
  else None.

(** The environment variables, the host name, a fresh UUID and the time. *)
Definition GetHostName (Getenv : string -> list Z) (Hostname NewV7 : option (list Z)) (now : Z) : list Z :=
  if decide (Getenv "POD_UID" <> []) then Getenv "POD_UID"
  else if decide (Getenv "POD_NAME" <> []) then
    (if decide (Getenv "POD_NAMESPACE" = []) then str "default" else Getenv "POD_NAMESPACE") ++ str "/" ++ Getenv "POD_NAME"
  else match Hostname with
  | Some (c :: host) => str "host:" ++ c :: host
  | _ =>
      match NewV7 with
      | Some id => id
      | None => str "unknown-host-" ++ FormatInt now
      end
  end.
End Target.
End Target.

(** ** The loops *)

Module Ingest.
Section Ingest.
Context {R Rec : Type} (ToRecord : R -> option Rec).
Context (Marshal : list Rec -> option (list Z)) (JoinPath : list Z -> list (list Z) -> option (list Z)).
Context (valid_url : list Z -> bool) (baseURL : list Z).

(** A call of [WriteBatch] and what it returned, if it has. *)
Record call := Call { c_endpoint : list Z; c_events : list Rec; c_result : option bool }.

(** A loop that waits in [WriteBatch]: its call by number, the batch, the attempts it has
    made, and whether the channel was open. *)
Record batch := { b_call : nat; b_events : list Rec; b_attempts : nat; b_open : bool }.

(** A loop: its channel, whether it runs, and the batch it writes. *)
Record loop := { ch : Channel.chan R; running : bool; writing : option batch }.

(** The loops by endpoint, the calls in the order they started, and the requests that
    were sent and those the gateway has got, each with the number of its call. *)
Record exporter := {
  loops : gmap (list Z) loop;
  calls : list call;
  wire : list (nat * Gateway.request);
  received : list (nat * Gateway.request);
}.

(** What happens: a probe offers a record or closes its channel, the ticker of a loop
    fires, an attempt of a loop ends, with what the gateway got and replied; the context
    is done in the pause after it; a loop sees that the context is done; a request that
    was given up arrives after all. *)
Inductive op :=
  | Offer (endpoint : list Z) (raw : R)
  | Close (endpoint : list Z)
  | Tick (endpoint : list Z)
  | Attempt (endpoint : list Z) (got : bool) (reply : option (Z * option (list Z)))
  | Canceled (endpoint : list Z)
  | Done (endpoint : list Z)
  | Arrive (i : nat).

Definition set_loop (endpoint : list Z) (l : loop) (x : exporter) : exporter :=
  {| loops := <[endpoint := l]> (loops x); calls := calls x; wire := wire x; received := received x |}.

(** The tick of a loop: a batch is taken, and written if there is one. *)
Definition IngestEvents (endpoint : list Z) (l : loop) (x : exporter) : exporter :=
  let '(events, open, c) := Channel.consumeFromChannel ToRecord (ch l) in
  if decide (0 < length events)%nat then
    {| loops := <[endpoint := {| ch := c; running := true; writing := Some {|
         b_call := length (calls x); b_events := events; b_attempts := 0; b_open := open |} |}]> (loops x);
       calls := calls x ++ [Call endpoint events None];
       wire := wire x; received := received x |}
  else set_loop endpoint {| ch := c; running := open; writing := None |} x.

(** [WriteBatch] returns, and the loop goes on if the channel was open. *)
Definition return_ (endpoint : list Z) (l : loop) (b : batch) (ok : bool) (x : exporter) : exporter :=
  {| loops := <[endpoint := {| ch := ch l; running := b_open b; writing := None |}]> (loops x);
     calls := alter (fun c => Call (c_endpoint c) (c_events c) (Some ok)) (b_call b) (calls x);
     wire := wire x; received := received x |}.

(** A request is sent; the gateway gets it at once, or it stays on its way. *)
Definition send (n : nat) (got : bool) (sent : option Gateway.request) (x : exporter) : exporter :=
  match sent with
  | None => x
  | Some r =>
      if got then {| loops := loops x; calls := calls x; wire := wire x; received := received x ++ [(n, r)] |}
      else {| loops := loops x; calls := calls x; wire := wire x ++ [(n, r)]; received := received x |}
  end.

(** One round of the loop of [WriteBatch], up to the pause. *)
Definition WriteBatch (endpoint : list Z) (l : loop) (b : batch) (got : bool) (reply : option (Z * option (list Z)))
    (x : exporter) : exporter :=
  let '(ok, sent) := Gateway.writeBatchOnce Marshal JoinPath valid_url baseURL endpoint (b_events b) reply in
  let x := send (b_call b) got sent x in
  let b := {| b_call := b_call b; b_events := b_events b; b_attempts := S (b_attempts b); b_open := b_open b |} in
  if (ok : bool) then return_ endpoint l b true x
  else if decide (b_attempts b = Gateway.maxGatewayRetryCount) then return_ endpoint l b false x
  else set_loop endpoint {| ch := ch l; running := running l; writing := Some b |} x.

(** A loop only does what it is ready for. *)
Definition loop_step (o : op) (endpoint : list Z) (l : loop) (x : exporter) : exporter :=
  match o, writing l with
  | Offer _ raw, w => set_loop endpoint {| ch := Channel.offer raw (ch l); running := running l; writing := w |} x
  | Close _, w => set_loop endpoint {| ch := Channel.close (ch l); running := running l; writing := w |} x
  | Tick _, None => if running l then IngestEvents endpoint l x else x
  | Done _, None => set_loop endpoint {| ch := ch l; running := false; writing := None |} x
  | Attempt _ got reply, Some b => WriteBatch endpoint l b got reply x
  | Canceled _, Some b => if decide (0 < b_attempts b)%nat then return_ endpoint l b false x else x
  | _, _ => x
  end.

Definition step (o : op) (x : exporter) : exporter :=
  match o with
  | Offer e _ | Close e | Tick e | Attempt e _ _ | Canceled e | Done e =>
      match loops x !! e with Some l => loop_step o e l x | None => x end
  | Arrive i =>
      match wire x !! i with
      | Some r => {| loops := loops x; calls := calls x; wire := delete i (wire x); received := received x ++ [r] |}
      | None => x
      end
  end.

Definition run_export (ops : list op) (x : exporter) : exporter := fold_left (fun x o => step o x) ops x.
End Ingest.
End Ingest.

(** ** Records of HTTP and MCP *)

Record RecordRequest := {
  rrq_id : identity; rrq_SessionKey : list Z; rrq_Comm : list Z; rrq_Method : list Z; rrq_URL : list Z;
  rrq_Protocol : list Z; rrq_ContentLength : Z; rrq_Headers : list Z; rrq_Body : list Z; rrq_Truncated : bool;
}.

Record RecordResponse := {
  rrp_id : identity; rrp_SessionKey : list Z; rrp_Comm : list Z; rrp_StatusCode : Z;
  rrp_Protocol : list Z; rrp_ContentLength : Z; rrp_Headers : list Z; rrp_Body : list Z; rrp_Truncated : bool;
}.

Record MCP := { JSONRPC : list Z; CorrID : Z; Result : list Z; Error : list Z; Params : list Z; Method : list Z }.

Record RecordStdIO := {
  rio_id : identity; rio_MessageType : list Z; rio_JSONRPC : list Z; rio_Method : list Z;
  rio_Params : list Z; rio_Result : list Z; rio_Error : list Z; rio_CorrID : list Z;
}.

Section Records.
Context (bootTime : Z) (host : list Z) (Resolve : Z -> list Z).

(** [json.Marshal] of headers, and [json.Unmarshal] into an [MCP]. *)
Context (MarshalHeaders : gmap (list Z) (list Z) -> option (list Z)) (UnmarshalMCP : list Z -> option MCP).

Definition RawRequest_ToRecord (raw : RawRequest) : option RecordRequest :=
  headers ← MarshalHeaders (rr_Headers raw);
  Some {| rrq_id := identify bootTime host Resolve (rr_ElapsedNs raw) (rr_PidTGid raw) (rr_UidGid raw) (rr_CgroupID raw);
    rrq_SessionKey := rr_SessionKey raw; rrq_Comm := rr_Comm raw; rrq_Method := rr_Method raw; rrq_URL := rr_URL raw;
    rrq_Protocol := rr_Protocol raw; rrq_ContentLength := rr_ContentLength raw; rrq_Headers := headers;
    rrq_Body := rr_Body raw; rrq_Truncated := rr_Truncated raw |}.

Definition RawResponse_ToRecord (raw : RawResponse) : option RecordResponse :=
  headers ← MarshalHeaders (rp_Headers raw);
  Some {| rrp_id := identify bootTime host Resolve (rp_ElapsedNs raw) (rp_PidTGid raw) (rp_UidGid raw) (rp_CgroupID raw);
    rrp_SessionKey := rp_SessionKey raw; rrp_Comm := rp_Comm raw; rrp_StatusCode := s32 (rp_StatusCode raw);
    rrp_Protocol := rp_Protocol raw; rrp_ContentLength := rp_ContentLength raw; rrp_Headers := headers;
    rrp_Body := rp_Body raw; rrp_Truncated := rp_Truncated raw |}.

Definition RawStdIO_ToRecord (raw : RawStdIO) : option RecordStdIO :=
  mcp ← UnmarshalMCP (io_Data raw);
  Some {| rio_id := identify bootTime host Resolve (io_ElapsedNs raw) (io_PidTGid raw) (io_UidGid raw) (io_CgroupID raw);
    rio_MessageType := io_MessageType raw; rio_JSONRPC := JSONRPC mcp; rio_Method := Method mcp;
    rio_Params := Params mcp; rio_Result := Result mcp; rio_Error := Error mcp; rio_CorrID := FormatInt (CorrID mcp) |}.
End Records.
