(* ===== verification/ExportTheorems.v ===== *)
(** What holds of export: the loops that share the gateway sink, with the interleavings of
    their attempts and of what the network does with them, and the targets. *)

From S2P Require Import Prelude GoStd Collector CollectorTheorems SslStore Export.

(** ** The loops and the gateway *)

Section Pipeline.
Context {R Rec : Type} (ToRecord : R -> option Rec).
Context (Marshal : list Rec -> option (list Z)) (JoinPath : list Z -> list (list Z) -> option (list Z)).
Context (valid_url : list Z -> bool) (baseURL : list Z).
Local Abbreviation exporter := (Ingest.exporter (R := R) (Rec := Rec)).
Local Abbreviation op := (Ingest.op (R := R)).
Local Abbreviation step := (Ingest.step ToRecord Marshal JoinPath valid_url baseURL).
Local Abbreviation run := (Ingest.run_export ToRecord Marshal JoinPath valid_url baseURL).
Local Abbreviation writeBatchOnce := (Gateway.writeBatchOnce Marshal JoinPath valid_url baseURL).
Implicit Types (x : exporter) (l : Ingest.loop (R := R) (Rec := Rec)).

(** The request for a batch, if one can be made. *)
Definition request_of (endpoint : list Z) (events : list Rec) : option Gateway.request :=
  payload ← Marshal events;
  link ← JoinPath baseURL [Gateway.endpointIngest; endpoint];
  if valid_url link then Some (link, payload) else None.

(** A gateway that replies has got the request. *)
Definition honest (o : op) : Prop :=
  match o with Ingest.Attempt _ got reply => is_Some reply -> got = true | _ => True end.

(** What goes out is the request of the batch, and a batch is accepted by a reply to it. *)
Lemma writeBatchOnce_spec endpoint events reply :
  let '(ok, sent) := writeBatchOnce endpoint events reply in
  sent = request_of endpoint events /\ (ok = true -> is_Some sent /\ is_Some reply).
Proof.
  unfold Gateway.writeBatchOnce, request_of. destruct (Marshal events) as [payload|]; [|done]. simpl.
  destruct (JoinPath _ _) as [link|]; [|done]. simpl. destruct (valid_url link); [|done]. simpl.
  split; [done|]. destruct reply as [[status [msg|]]|]; [eauto|done..].
Qed.

(** *** Records are conserved *)

Definition pending (e : list Z) x : list R := from_option (fun l => Channel.queue (Ingest.ch l)) [] (Ingest.loops x !! e).

(** The records offered to an endpoint that found room. *)
Fixpoint taken (e : list Z) (ops : list op) x : list R :=
  match ops with
  | [] => []
  | o :: ops' =>
      match o with
      | Ingest.Offer e' raw =>
          if decide (e' = e) then
            match Ingest.loops x !! e with
            | Some l => if (length (Channel.queue (Ingest.ch l)) <? Channel.ExportChannelSize)%nat then [raw] else []
            | None => []
            end
          else []
      | _ => []
      end ++ taken e ops' (step o x)
  end.

(** The batches of an endpoint in the order of their calls. *)
Definition batches (e : list Z) (cs : list (Ingest.call (Rec := Rec))) : list Rec :=
  mjoin (omap (fun c => if decide (Ingest.c_endpoint c = e) then Some (Ingest.c_events c) else None) cs).

(** The records of an endpoint that were handed to the sink. *)
Definition handed (e : list Z) x : list Rec := batches e (Ingest.calls x).

Lemma batches_cons e c cs :
  batches e (c :: cs) = (if decide (Ingest.c_endpoint c = e) then Ingest.c_events c else []) ++ batches e cs.
Proof. unfold batches. cbn. by destruct (decide _). Qed.

Lemma batches_return e ok j cs :
  batches e (alter (fun c => Ingest.Call (Ingest.c_endpoint c) (Ingest.c_events c) (Some ok)) j cs) = batches e cs.
Proof.
  revert j. induction cs as [|c cs IH]; intros j; [done|]. destruct j as [|j]; [done|].
  change (alter ?f (S j) (c :: cs)) with (c :: alter f j cs). by rewrite !batches_cons, IH.
Qed.

Lemma send_frame n got sent x :
  Ingest.loops (Ingest.send n got sent x) = Ingest.loops x /\ Ingest.calls (Ingest.send n got sent x) = Ingest.calls x.
Proof. by destruct sent, got. Qed.

(** A loop is replaced, and the records it has pending. *)
Lemma pending_set e e' (l : Ingest.loop (R := R) (Rec := Rec)) x m :
  Ingest.loops x = <[e' := l]> m ->
  pending e x = if decide (e' = e) then Channel.queue (Ingest.ch l)
                else from_option (fun l => Channel.queue (Ingest.ch l)) [] (m !! e).
Proof.
  intros E. unfold pending. rewrite E. destruct (decide (e' = e)) as [->|He];
    [by rewrite lookup_insert_eq|by rewrite lookup_insert_ne].
Qed.

Lemma pending_lookup e l x : Ingest.loops x !! e = Some l -> pending e x = Channel.queue (Ingest.ch l).
Proof. unfold pending. by intros ->. Qed.

(** The step of a loop that leaves the channel alone. *)
Lemma pending_loops e e' l l' x x' :
  Ingest.loops x !! e' = Some l -> Ingest.loops x' = <[e' := l']> (Ingest.loops x) ->
  Ingest.ch l' = Ingest.ch l -> pending e x' = pending e x.
Proof.
  intros El E Hc. rewrite (pending_set e e' l' x' _ E). destruct (decide (e' = e)) as [<-|]; [|done].
  by rewrite (pending_lookup e' l x El), Hc.
Qed.

Lemma WriteBatch_frame e e' l b got reply x :
  Ingest.loops x !! e' = Some l ->
  let x' := Ingest.WriteBatch Marshal JoinPath valid_url baseURL e' l b got reply x in
  handed e x' = handed e x /\ pending e x' = pending e x.
Proof.
  intros El. unfold Ingest.WriteBatch. destruct (writeBatchOnce e' (Ingest.b_events b) reply) as [ok sent].
  destruct (send_frame (Ingest.b_call b) got sent x) as [H1 H2].
  set (x1 := Ingest.send _ _ _ x) in *. rewrite <- H1 in El. unfold handed in *. rewrite <- H2.
  replace (pending e x) with (pending e x1) by (unfold pending; by rewrite H1).
  destruct ok; [|destruct (decide _)]; (split; [try apply batches_return; done|by eapply pending_loops]).
Qed.

Lemma step_conserves e o x :
  handed e (step o x) ++ omap ToRecord (pending e (step o x)) =
  handed e x ++ omap ToRecord (pending e x ++ taken e [o] x).
Proof.
  assert (forall x', handed e x' = handed e x -> pending e x' = pending e x ->
    handed e x' ++ omap ToRecord (pending e x') = handed e x ++ omap ToRecord (pending e x ++ [])) as Hsame.
  { intros x' -> ->. by rewrite app_nil_r. }
  cbn [taken]. rewrite app_nil_r.
  destruct o as [e' raw|e'|e'|e' got reply|e'|e'|i]; cbn [Ingest.step];
    [..|by destruct (Ingest.wire x !! i); apply Hsame];
    (destruct (Ingest.loops x !! e') as [l|] eqn:El;
     [|try (by apply Hsame); destruct (decide (e' = e)) as [<-|]; rewrite ?El; by apply Hsame]); cbn [Ingest.loop_step].
  - erewrite (pending_set e e') by reflexivity. change (handed e (Ingest.set_loop e' _ x)) with (handed e x).
    destruct (decide (e' = e)) as [<-|He]; [|by rewrite app_nil_r].
    rewrite El, (pending_lookup e' l x El). unfold Channel.offer. cbn [Ingest.ch].
    case_match; [done|by rewrite app_nil_r].
  - apply Hsame; [done|]. erewrite (pending_set e e') by reflexivity.
    destruct (decide (e' = e)) as [<-|He]; [|done]. by rewrite (pending_lookup e' l x El).
  - destruct (Ingest.writing l); [by apply Hsame|]. destruct (Ingest.running l); [|by apply Hsame]. unfold Ingest.IngestEvents.
    pose proof (consumeFromChannel_spec ToRecord (Ingest.ch l)) as Hc.
    destruct (Channel.consumeFromChannel ToRecord (Ingest.ch l)) as [[events open] c].
    destruct Hc as (n & Hq & _ & He & _). rewrite app_nil_r. destruct (decide (0 < length events)%nat) as [Hl|Hl].
    + erewrite (pending_set e e') by reflexivity. unfold handed, batches. cbn [Ingest.calls Ingest.ch].
      rewrite omap_app, join_app, <- app_assoc. f_equal. cbn. destruct (decide (e' = e)) as [<-|Hne]; [|done].
      rewrite (pending_lookup e' l x El), Hq, He. cbn. rewrite app_nil_r, <- omap_app. by rewrite take_drop.
    + assert (events = []) as -> by (destruct events; [done|simpl in Hl; lia]).
      erewrite (pending_set e e') by reflexivity. change (handed e (Ingest.set_loop e' _ x)) with (handed e x).
      destruct (decide (e' = e)) as [<-|Hne]; [|done]. rewrite (pending_lookup e' l x El). cbn [Ingest.ch].
      rewrite Hq. f_equal. set (q := Channel.queue (Ingest.ch l)) in *.
      transitivity (omap ToRecord (take n q ++ drop n q)); [by rewrite omap_app, <- He|by rewrite take_drop].
  - destruct (Ingest.writing l) as [b|]; [|by apply Hsame]. by apply Hsame; apply WriteBatch_frame.
  - destruct (Ingest.writing l) as [b|]; [|by apply Hsame]. destruct (decide _); [|by apply Hsame].
    apply Hsame; [apply batches_return|by eapply pending_loops].
  - destruct (Ingest.writing l); [by apply Hsame|]. apply Hsame; [done|by eapply pending_loops].
Qed.

Lemma run_export_cons o ops x : run (o :: ops) x = run ops (step o x).
Proof. done. Qed.

Lemma run_conserves e ops x :
  handed e (run ops x) ++ omap ToRecord (pending e (run ops x)) =
  handed e x ++ omap ToRecord (pending e x ++ taken e ops x).
Proof.
  revert x. induction ops as [|o ops IH]; intros x; [by rewrite app_nil_r|].
  rewrite run_export_cons, IH. pose proof (step_conserves e o x) as H. cbn [taken] in *. rewrite app_nil_r in H.
  rewrite (omap_app ToRecord (pending e (step o x))), app_assoc, H, <- app_assoc, <- omap_app.
  by rewrite <- app_assoc.
Qed.

(** *** What the gateway gets *)

(** How often a call is among the requests. *)
Definition copies (j : nat) (rs : list (nat * Gateway.request)) : nat := length (filter (fun r => r.1 = j) rs).

Lemma copies_app j rs rs' : copies j (rs ++ rs') = (copies j rs + copies j rs')%nat.
Proof. unfold copies. by rewrite filter_app, length_app. Qed.

Lemma copies_one j n r : copies j [(n, r)] = if decide (n = j) then 1%nat else 0%nat.
Proof. unfold copies. rewrite filter_cons. simpl. by destruct (decide (n = j)). Qed.

Lemma copies_delete j rs i r : rs !! i = Some r -> copies j rs = (copies j [r] + copies j (delete i rs))%nat.
Proof.
  intros Hi. rewrite <- copies_app. unfold copies.
  apply Permutation_length. by rewrite (delete_Permutation rs i r Hi) at 1.
Qed.

(** A request of the call it is numbered with. *)
Definition of_call x (r : nat * Gateway.request) : Prop :=
  exists c, Ingest.calls x !! r.1 = Some c /\ request_of (Ingest.c_endpoint c) (Ingest.c_events c) = Some r.2.

(** A loop writes the batch of the last call of its endpoint, which it has sent no more
    often than it made attempts. *)
Definition writes_last x (e : list Z) (b : Ingest.batch (Rec := Rec)) : Prop :=
  Ingest.calls x !! Ingest.b_call b = Some (Ingest.Call e (Ingest.b_events b) None) /\
  (forall j c, Ingest.calls x !! j = Some c -> Ingest.c_endpoint c = e -> (j <= Ingest.b_call b)%nat) /\
  (copies (Ingest.b_call b) (Ingest.received x ++ Ingest.wire x) <= Ingest.b_attempts b <= 3)%nat.

(** The first copy of a batch that was accepted comes before every copy of a later batch
    of its endpoint. *)
Definition ordered x : Prop := forall before j' r' after j c c',
  Ingest.received x = before ++ (j', r') :: after -> Ingest.calls x !! j = Some c -> Ingest.calls x !! j' = Some c' ->
  Ingest.c_endpoint c = Ingest.c_endpoint c' -> (j < j')%nat -> Ingest.c_result c = Some true ->
  j ∈ before.*1.

Record delivery_ok x : Prop := {
  d_writing : forall e l b, Ingest.loops x !! e = Some l -> Ingest.writing l = Some b -> writes_last x e b;
  d_sized : Forall (fun c => 0 < length (Ingest.c_events c) <= Channel.maxBatchSize)%nat (Ingest.calls x);
  d_copies : forall j, (copies j (Ingest.received x ++ Ingest.wire x) <= 3)%nat;
  d_requests : Forall (of_call x) (Ingest.received x ++ Ingest.wire x);
  d_accepted : forall j c, Ingest.calls x !! j = Some c -> Ingest.c_result c = Some true -> j ∈ (Ingest.received x).*1;
  d_order : ordered x;
}.

(** Between steps a loop that writes has an attempt left. *)
Definition settled x : Prop := forall e l b,
  Ingest.loops x !! e = Some l -> Ingest.writing l = Some b -> (Ingest.b_attempts b < 3)%nat.

(** A loop that does not write, or writes what it wrote. *)
Lemma set_loop_ok e l x :
  (forall b, Ingest.writing l = Some b -> writes_last x e b) -> delivery_ok x -> delivery_ok (Ingest.set_loop e l x).
Proof.
  intros Hl [H1 H2 H3 H4 H5 H6]. split; [|done..]. intros e' l' b E Hb. cbn [Ingest.set_loop Ingest.loops] in E.
  destruct (decide (e = e')) as [<-|Hne]; [rewrite lookup_insert_eq in E; injection E as <-; by apply Hl|].
  rewrite lookup_insert_ne in E by done. by apply (H1 e' l' b).
Qed.

Lemma set_loop_settled e l x :
  (forall b, Ingest.writing l = Some b -> (Ingest.b_attempts b < 3)%nat) -> settled x -> settled (Ingest.set_loop e l x).
Proof.
  intros Hl Hs e' l' b E Hb. cbn [Ingest.set_loop Ingest.loops] in E.
  destruct (decide (e = e')) as [<-|Hne]; [rewrite lookup_insert_eq in E; injection E as <-; by apply Hl|].
  rewrite lookup_insert_ne in E by done. by apply (Hs e' l' b).
Qed.

(** The calls that are made stay where they are. *)
Lemma of_call_grows x x' r :
  (forall j c, Ingest.calls x !! j = Some c -> exists ok, Ingest.calls x' !! j =
     Some (Ingest.Call (Ingest.c_endpoint c) (Ingest.c_events c) ok)) ->
  of_call x r -> of_call x' r.
Proof. intros Hc (c & Hj & Hr). destruct (Hc _ _ Hj) as [ok Hj']. eexists. split; [exact Hj'|done]. Qed.

Lemma of_call_old x r : of_call x r -> (r.1 < length (Ingest.calls x))%nat.
Proof. intros (c & Hc & _). by apply lookup_lt_Some in Hc. Qed.

Lemma no_copies x rs j : Forall (of_call x) rs -> (length (Ingest.calls x) <= j)%nat -> copies j rs = 0%nat.
Proof.
  intros Hrs Hj. unfold copies. induction Hrs as [|r rs Hr _ IH]; [done|]. rewrite filter_cons_False; [done|].
  apply of_call_old in Hr. lia.
Qed.

(** A request arrives at the end of those that have. *)
Lemma ordered_snoc x x' r :
  Ingest.calls x' = Ingest.calls x -> Ingest.received x' = Ingest.received x ++ [r] ->
  (forall j c, Ingest.calls x !! j = Some c -> Ingest.c_result c = Some true -> j ∈ (Ingest.received x).*1) ->
  ordered x -> ordered x'.
Proof.
  intros Hc Hr Ha Ho before j' r' after j c c' E Hj Hj' He Hlt Hok. rewrite Hc in Hj, Hj'. rewrite Hr in E.
  destruct after as [|a after _] using rev_ind.
  - apply app_inj_tail in E as [<- _]. by apply (Ha j c).
  - change (before ++ (j', r') :: after ++ [a]) with (before ++ ((j', r') :: after) ++ [a]) in E.
    rewrite app_assoc in E. apply app_inj_tail in E as [E _]. by apply (Ho before j' r' after j c c').
Qed.

Lemma arrive_ok i x : delivery_ok x -> settled x -> delivery_ok (step (Ingest.Arrive i) x) /\ settled (step (Ingest.Arrive i) x).
Proof.
  intros H Hs. cbn [Ingest.step]. destruct (Ingest.wire x !! i) as [r|] eqn:Ei; [|done]. split; [|exact Hs].
  set (x' := {| Ingest.loops := _ |}). assert (forall j, copies j (Ingest.received x' ++ Ingest.wire x') =
    copies j (Ingest.received x ++ Ingest.wire x)) as Hcp.
  { intros j. cbn [x' Ingest.received Ingest.wire]. rewrite !copies_app, (copies_delete j _ _ _ Ei). lia. }
  assert (Ingest.received x' ++ Ingest.wire x' ≡ₚ Ingest.received x ++ Ingest.wire x) as Hp.
  { cbn. rewrite <- app_assoc. f_equiv. symmetry. by apply delete_Permutation. }
  destruct H as [H1 H2 H3 H4 H5 H6]. split; [|done|intros j; by rewrite Hcp| | |by apply (ordered_snoc x x' r)].
  - intros e l b El Hb. destruct (H1 e l b El Hb) as (W1 & W2 & W3). split; [done|]. split; [done|]. by rewrite Hcp.
  - by rewrite Hp.
  - intros j c Hj Hok. cbn. rewrite fmap_app. apply elem_of_app. left. by apply (H5 j c).
Qed.

(** A batch is taken. *)
Lemma start_ok e l x events open c :
  Ingest.loops x !! e = Some l -> Ingest.writing l = None -> (0 < length events <= Channel.maxBatchSize)%nat ->
  delivery_ok x -> settled x ->
  let x' := {| Ingest.loops := <[e := {| Ingest.ch := c; Ingest.running := true; Ingest.writing := Some {|
                 Ingest.b_call := length (Ingest.calls x); Ingest.b_events := events; Ingest.b_attempts := 0;
                 Ingest.b_open := open |} |}]> (Ingest.loops x);
               Ingest.calls := Ingest.calls x ++ [Ingest.Call e events None];
               Ingest.wire := Ingest.wire x; Ingest.received := Ingest.received x |} in
  delivery_ok x' /\ settled x'.
Proof.
  intros El Hw Hlen [H1 H2 H3 H4 H5 H6] Hs. cbv zeta. set (x' := {| Ingest.loops := _ |}).
  assert (forall j d, Ingest.calls x' !! j = Some d -> Ingest.calls x !! j = Some d \/
    j = length (Ingest.calls x) /\ d = Ingest.Call e events None) as Hold.
  { intros j d [Hd|[Hd Hj]]%lookup_app_Some; [by left|]. right. apply list_lookup_singleton_Some in Hj as [? <-]. split; [lia|done]. }
  assert (forall j d, Ingest.calls x !! j = Some d -> Ingest.calls x' !! j = Some d) as Hnew
    by (intros j d Hd; by apply lookup_app_l_Some).
  assert (forall j, j ∈ (Ingest.received x).*1 -> (j < length (Ingest.calls x))%nat) as Hrec.
  { intros j ([j' r] & -> & Hr)%list_elem_of_fmap. apply Forall_app in H4 as [H4 _].
    by apply (of_call_old x (j', r)), (proj1 (Forall_forall _ _) H4). }
  split.
  - split; [| |done| | |].
    + intros e' l' b E Hb. cbn [x' Ingest.loops] in E. destruct (decide (e = e')) as [<-|Hne].
      * rewrite lookup_insert_eq in E. injection E as <-. injection Hb as <-. split_and!; cbn [Ingest.b_call Ingest.b_events Ingest.b_attempts]; [|..|lia].
        -- cbn. by rewrite lookup_app_r, Nat.sub_diag by lia.
        -- intros j d [Hd%lookup_lt_Some|[-> _]]%Hold _; lia.
        -- by rewrite (no_copies x) by done.
      * rewrite lookup_insert_ne in E by done. destruct (H1 e' l' b E Hb) as (W1 & W2 & W3).
        split_and!; [by apply Hnew| |by apply W3..]. intros j d [Hd|[-> ->]]%Hold He; [by apply (W2 j d)|done].
    + cbn. apply Forall_app. split; [done|]. by apply Forall_singleton.
    + eapply Forall_impl; [exact H4|]. intros r (d & Hd & Hr). exists d. split; [by apply Hnew|done].
    + intros j d [Hd|[_ ->]]%Hold Hok; [by apply (H5 j d)|done].
    + intros before j' r' after j d d' E Hd Hd' He Hlt Hok. apply Hold in Hd as [Hd|[_ ->]]; [|done].
      apply Hold in Hd' as [Hd'|[-> _]]; [by apply (H6 before j' r' after j d d')|].
      cbn in E. assert (length (Ingest.calls x) < length (Ingest.calls x))%nat; [|lia]. apply Hrec. rewrite E, fmap_app.
      apply elem_of_app. right. by left.
  - intros e' l' b E Hb. cbn [x' Ingest.loops] in E. destruct (decide (e = e')) as [<-|Hne].
    + rewrite lookup_insert_eq in E. injection E as <-. injection Hb as <-. cbn. lia.
    + rewrite lookup_insert_ne in E by done. by apply (Hs e' l' b).
Qed.

(** A call returns. *)
Lemma lookup_return (cs : list (Ingest.call (Rec := Rec))) ok n j c :
  alter (fun c => Ingest.Call (Ingest.c_endpoint c) (Ingest.c_events c) (Some ok)) n cs !! j = Some c ->
  exists d, cs !! j = Some d /\ Ingest.c_endpoint c = Ingest.c_endpoint d /\ Ingest.c_events c = Ingest.c_events d /\
    (j = n /\ Ingest.c_result c = Some ok \/ j <> n /\ c = d).
Proof.
  destruct (decide (n = j)) as [<-|Hne].
  - rewrite list_lookup_alter_eq. intros (d & Hd & ->)%fmap_Some. exists d. split_and!; [done..|]. by left.
  - rewrite list_lookup_alter_ne by done. intros Hc. exists c. split_and!; [done..|]. right. done.
Qed.

Lemma return_ok e l b ok x :
  writes_last x e b -> (ok = true -> Ingest.b_call b ∈ (Ingest.received x).*1) -> delivery_ok x ->
  delivery_ok (Ingest.return_ e l b ok x).
Proof.
  intros (W1 & W2 & _) Hok [H1 H2 H3 H4 H5 H6]. split; [| |done| | |].
  - intros e' l' b' E Hb. cbn [Ingest.return_ Ingest.loops] in E. destruct (decide (e = e')) as [<-|Hne].
    { rewrite lookup_insert_eq in E. by injection E as <-. }
    rewrite lookup_insert_ne in E by done. destruct (H1 e' l' b' E Hb) as (V1 & V2 & V3). split_and!; [|..|by apply V3].
    + cbn [Ingest.return_ Ingest.calls]. rewrite list_lookup_alter_ne; [done|]. intros En. rewrite En, V1 in W1. congruence.
    + intros j c (d & Hd & He & _)%lookup_return Hc. apply (V2 j d); congruence.
    + apply V3.
  - apply Forall_lookup. intros j c (d & Hd & _ & -> & _)%lookup_return. by apply (proj1 (Forall_lookup _ _) H2 j d).
  - eapply Forall_impl; [exact H4|]. intros r. apply of_call_grows. intros j c Hc.
    cbn [Ingest.return_ Ingest.calls]. destruct (decide (Ingest.b_call b = j)) as [->|Hne].
    + exists (Some ok). by rewrite list_lookup_alter_eq, Hc.
    + exists (Ingest.c_result c). rewrite list_lookup_alter_ne by done. by destruct c.
  - intros j c (d & Hd & _ & _ & [[-> Hr]|[_ ->]])%lookup_return Hc; [|by apply (H5 j d)]. apply Hok. congruence.
  - intros before j' r' after j c c' E (d & Hd & He & _ & Hcase)%lookup_return (d' & Hd' & He' & _)%lookup_return Hee Hlt Hr.
    destruct Hcase as [[-> _]|[_ ->]]; [|apply (H6 before j' r' after j d d'); (exact E || congruence || done)].
    rewrite W1 in Hd. injection Hd as <-. specialize (W2 j' d' Hd'). cbn in He. rewrite <- He in W2.
    rewrite Hee in W2. specialize (W2 (eq_sym He')). lia.
Qed.

Lemma return_settled e l b ok x : settled x -> settled (Ingest.return_ e l b ok x).
Proof.
  intros Hs e' l' b' E Hb. cbn [Ingest.return_ Ingest.loops] in E.
  destruct (decide (e = e')) as [<-|Hne]; [rewrite lookup_insert_eq in E; by injection E as <-|].
  rewrite lookup_insert_ne in E by done. by apply (Hs e' l' b').
Qed.

(** A request is sent, and the attempt is counted. *)
Definition one_more (b : Ingest.batch (Rec := Rec)) : Ingest.batch := {|
  Ingest.b_call := Ingest.b_call b; Ingest.b_events := Ingest.b_events b;
  Ingest.b_attempts := S (Ingest.b_attempts b); Ingest.b_open := Ingest.b_open b |}.

Definition retrying e l b x : exporter :=
  Ingest.set_loop e {| Ingest.ch := Ingest.ch l; Ingest.running := Ingest.running l; Ingest.writing := Some b |} x.

Lemma sent_once n got r x :
  exists here there, Ingest.send n got (Some r) x =
    {| Ingest.loops := Ingest.loops x; Ingest.calls := Ingest.calls x;
       Ingest.wire := Ingest.wire x ++ there; Ingest.received := Ingest.received x ++ here |} /\
    ((here, there) = ([(n, r)], []) \/ (here, there) = ([], [(n, r)])).
Proof.
  destruct got; [exists [(n, r)], []|exists [], [(n, r)]]; cbn; rewrite ?app_nil_r; (split; [done|]); auto.
Qed.

Lemma send_ok e l b got x :
  Ingest.loops x !! e = Some l -> Ingest.writing l = Some b -> delivery_ok x -> settled x ->
  delivery_ok (retrying e l (one_more b) (Ingest.send (Ingest.b_call b) got (request_of e (Ingest.b_events b)) x)).
Proof.
  intros El Hb H Hs. pose proof (Hs e l b El Hb) as Ha. pose proof (d_writing x H e l b El Hb) as (W1 & W2 & W3).
  destruct (request_of e (Ingest.b_events b)) as [r|] eqn:Er.
  2: { apply set_loop_ok; [|done]. intros b' [= <-]. split; [done|]. split; [done|].
       cbn [Ingest.send Ingest.b_attempts one_more Ingest.b_call]. lia. }
  destruct (sent_once (Ingest.b_call b) got r x) as (here & there & -> & Hht). set (x1 := {| Ingest.loops := _ |}).
  assert (forall j, copies j (Ingest.received x1 ++ Ingest.wire x1) =
    (copies j (Ingest.received x ++ Ingest.wire x) + if decide (Ingest.b_call b = j) then 1 else 0)%nat) as Hcp.
  { intros j. cbn [x1 Ingest.received Ingest.wire]. rewrite !copies_app, <- (copies_one j _ r).
    destruct Hht as [[= -> ->]|[= -> ->]]; change (copies j []) with 0%nat; lia. }
  destruct H as [H1 H2 H3 H4 H5 H6]. split; [|done| | | |].
  - intros e' l' b' E Hb'. cbn [retrying Ingest.set_loop Ingest.loops] in E. destruct (decide (e = e')) as [<-|Hne].
    + rewrite lookup_insert_eq in E. injection E as <-. injection Hb' as <-. split; [done|]. split; [done|].
      change (Ingest.b_call (one_more b)) with (Ingest.b_call b). change (copies ?j (Ingest.received (retrying _ _ _ x1) ++ Ingest.wire _))
        with (copies j (Ingest.received x1 ++ Ingest.wire x1)). rewrite Hcp, decide_True by done. cbn [Ingest.b_attempts one_more]. lia.
    + rewrite lookup_insert_ne in E by done. destruct (H1 e' l' b' E Hb') as (V1 & V2 & V3). split; [done|]. split; [done|].
      change (copies ?j (Ingest.received (retrying _ _ _ x1) ++ Ingest.wire _))
        with (copies j (Ingest.received x1 ++ Ingest.wire x1)). rewrite Hcp, decide_False; [lia|]. intros En. rewrite En, V1 in W1. congruence.
  - intros j. change (copies j (Ingest.received x1 ++ Ingest.wire x1) <= 3)%nat. rewrite Hcp. destruct (decide _) as [<-|]; [lia|].
    specialize (H3 j). lia.
  - change (Forall (of_call x) ((Ingest.received x ++ here) ++ Ingest.wire x ++ there)).
    assert (Forall (of_call x) (here ++ there)) as Hnew.
    { assert (of_call x (Ingest.b_call b, r)) by (by eexists).
      destruct Hht as [[= -> ->]|[= -> ->]]; cbn; by apply Forall_singleton. }
    rewrite Forall_app in H4, Hnew. rewrite !Forall_app. tauto.
  - intros j c Hj Hok. cbn. rewrite fmap_app. apply elem_of_app. left. by apply (H5 j c).
  - destruct Hht as [[= -> ->]|[= -> ->]]; [by eapply (ordered_snoc x)|].
    unfold ordered in *. cbn [retrying x1 Ingest.set_loop Ingest.received Ingest.calls]. by rewrite app_nil_r.
Qed.

Lemma attempt_ok e l b got reply x :
  Ingest.loops x !! e = Some l -> Ingest.writing l = Some b -> (is_Some reply -> got = true) ->
  delivery_ok x -> settled x ->
  let x' := Ingest.WriteBatch Marshal JoinPath valid_url baseURL e l b got reply x in
  delivery_ok x' /\ settled x'.
Proof.
  intros El Hb Hgot H Hs. cbv zeta. unfold Ingest.WriteBatch.
  pose proof (writeBatchOnce_spec e (Ingest.b_events b) reply) as Hw.
  destruct (writeBatchOnce e (Ingest.b_events b) reply) as [ok sent]. destruct Hw as [-> Hok].
  pose proof (send_ok e l b got x El Hb H Hs) as Hx. set (x1 := Ingest.send _ _ _ x) in *.
  assert (settled x1) as Hs1. { destruct (send_frame (Ingest.b_call b) got (request_of e (Ingest.b_events b)) x) as [E _].
    unfold settled. fold x1 in E. by rewrite E. }
  assert (writes_last (retrying e l (one_more b) x1) e (one_more b)) as Hlast.
  { apply (d_writing _ Hx e _ _ (lookup_insert_eq _ _ _)). done. }
  assert (forall ok, Ingest.return_ e l (one_more b) ok x1 = Ingest.return_ e l (one_more b) ok (retrying e l (one_more b) x1)) as Hret.
  { intros ok'. unfold Ingest.return_, retrying, Ingest.set_loop. cbn. by rewrite insert_insert_eq. }
  change {| Ingest.b_call := Ingest.b_call b |} with (one_more b). destruct ok.
  - split; [|by apply return_settled]. rewrite Hret. apply return_ok; [done| |done]. intros _.
    destruct (Hok eq_refl) as [[r Hr] Hrep]. cbn [retrying Ingest.set_loop Ingest.received]. subst x1.
    rewrite Hr, (Hgot Hrep). cbn. rewrite fmap_app. apply elem_of_app. right. by left.
  - destruct (decide _) as [|Hn]; [split; [rewrite Hret; by apply return_ok|by apply return_settled]|].
    split; [exact Hx|]. apply set_loop_settled; [|done]. intros b' [= <-].
    unfold Gateway.maxGatewayRetryCount in Hn. cbn in Hn |- *. pose proof (Hs e l b El Hb). lia.
Qed.

Lemma export_step_ok o x : honest o -> delivery_ok x -> settled x -> delivery_ok (step o x) /\ settled (step o x).
Proof.
  intros Ho H Hs. destruct o as [e raw|e|e|e got reply|e|e|i]; [..|by apply arrive_ok]; cbn [Ingest.step];
    (destruct (Ingest.loops x !! e) as [l|] eqn:El; [|done]); cbn [Ingest.loop_step];
    pose proof (fun b => d_writing x H e l b El) as Hw; pose proof (fun b => Hs e l b El) as Ha.
  - by split; [apply set_loop_ok|apply set_loop_settled].
  - by split; [apply set_loop_ok|apply set_loop_settled].
  - destruct (Ingest.writing l) eqn:Ew; [done|]. destruct (Ingest.running l); [|done]. unfold Ingest.IngestEvents.
    pose proof (consumeFromChannel_spec ToRecord (Ingest.ch l)) as Hc.
    destruct (Channel.consumeFromChannel ToRecord (Ingest.ch l)) as [[events open] c]. destruct Hc as (n & _ & _ & _ & Hl & _).
    destruct (decide _); [by apply (start_ok e l)|]. by split; [apply set_loop_ok|apply set_loop_settled].
  - destruct (Ingest.writing l) as [b|] eqn:Ew; [|done]. by apply attempt_ok.
  - destruct (Ingest.writing l) as [b|] eqn:Ew; [|done]. destruct (decide _); [|done].
    split; [apply return_ok; [by apply Hw|done|done]|by apply return_settled].
  - destruct (Ingest.writing l) eqn:Ew; [done|]. by split; [apply set_loop_ok|apply set_loop_settled].
Qed.

(** Loops with open, empty channels. *)
Definition initial (endpoints : list (list Z)) : exporter :=
  {| Ingest.loops := list_to_map ((fun e => (e, {| Ingest.ch := Channel.Chan [] false; Ingest.running := true;
       Ingest.writing := None |})) <$> endpoints);
     Ingest.calls := []; Ingest.wire := []; Ingest.received := [] |}.

Lemma initial_loop e l endpoints :
  Ingest.loops (initial endpoints) !! e = Some l -> Channel.queue (Ingest.ch l) = [] /\ Ingest.writing l = None.
Proof. intros (e' & E & _)%elem_of_list_to_map_2%list_elem_of_fmap. by injection E as _ ->. Qed.

Lemma pending_initial e endpoints : pending e (initial endpoints) = [].
Proof.
  unfold pending. destruct (Ingest.loops (initial endpoints) !! e) as [l|] eqn:E; [|done]. by apply initial_loop in E as [E _].
Qed.

Lemma run_ok endpoints ops : Forall honest ops -> delivery_ok (run ops (initial endpoints)).
Proof.
  assert (delivery_ok (initial endpoints) /\ settled (initial endpoints)) as [H1 H2].
  { split; [split|intros e l b [_ E]%initial_loop Hb; congruence].
    - intros e l b [_ E]%initial_loop Hb. congruence.
    - constructor.
    - intros j. cbn. lia.
    - constructor.
    - done.
    - intros before j' r' after j c c' E. by destruct before. }
  intros Hops. revert H1 H2. generalize (initial endpoints). induction Hops as [|o ops Ho _ IH]; intros x H1 H2; [done|].
  rewrite run_export_cons. by destruct (export_step_ok o x Ho H1 H2); apply IH.
Qed.

(** C14. From the probes to the gateway.  The loops of the endpoints share a sink that has
    no lock.  However offers, ticks, the attempts of the loops and the ends of the loops
    interleave, and whatever of the requests is lost, answered late or answered badly: for
    every endpoint, the records handed to the sink and those still in the channel are, in
    order, the records that found room; a batch has 1 to 1024 records.  Every request the
    gateway gets is the request of one of the calls, and it gets at most three of one call.
    A batch whose call succeeded has reached the gateway, and has done so before anything
    of a later batch of the same endpoint; batches of different endpoints, and late copies,
    come in any order. *)
Theorem gateway_delivers endpoints ops :
  Forall honest ops ->
  let x0 := initial endpoints in
  let x := run ops x0 in
  (forall e, handed e x ++ omap ToRecord (pending e x) = omap ToRecord (taken e ops x0)) /\
  Forall (fun c => 0 < length (Ingest.c_events c) <= Channel.maxBatchSize)%nat (Ingest.calls x) /\
  Forall (of_call x) (Ingest.received x) /\
  (forall j, (copies j (Ingest.received x) <= 3)%nat) /\
  (forall j c, Ingest.calls x !! j = Some c -> Ingest.c_result c = Some true -> j ∈ (Ingest.received x).*1) /\
  ordered x.
Proof.
  intros Hops. cbv zeta. destruct (run_ok endpoints ops Hops) as [_ H2 H3 H4 H5 H6]. apply Forall_app in H4 as [H4 _].
  split_and!; [|done..| |done|done].
  - intros e. by rewrite run_conserves, pending_initial.
  - intros j. specialize (H3 j). rewrite copies_app in H3. lia.
Qed.
End Pipeline.

(** ** Targets *)

(** A component that names something below its directory. *)
Definition plain (p : list Z) : Prop := p <> [] /\ p <> str "." /\ p <> str ".." /\ 47 ∉ p.

Lemma split_on_free c s : Forall (fun p => c ∉ p) (split_on c s).
Proof.
  induction s as [|b s IH]; cbn [split_on]; [by repeat constructor; set_solver|].
  destruct (Z.eqb_spec b c) as [->|Hb]; [constructor; [set_solver|done]|].
  destruct IH as [|p ps Hp Hps]; [repeat constructor; set_solver|]. constructor; [set_solver|done].
Qed.

Lemma clean_rooted parts stack :
  Forall (fun p => 47 ∉ p) parts -> Forall plain stack -> Forall plain (Target.clean_parts true parts stack).
Proof.
  intros Hp. revert stack. induction Hp as [|p parts Hp _ IH]; intros stack Hs; cbn [Target.clean_parts].
  { by apply Forall_reverse. }
  destruct (decide (p = [] \/ p = str ".")) as [|Hn]; [by apply IH|].
  destruct (decide (p = str "..")) as [|Hd].
  - destruct Hs as [|top stack Ht Hs]; [by apply IH|]. destruct Ht as (_ & _ & Ht & _). rewrite decide_False by done. by apply IH.
  - apply IH. constructor; [split_and!; tauto|done].
Qed.

Lemma clean_relative parts stack :
  Forall (fun p => 47 ∉ p) parts -> Forall (fun p => p <> [] /\ 47 ∉ p) stack ->
  Forall (fun p => p <> [] /\ 47 ∉ p) (Target.clean_parts false parts stack).
Proof.
  intros Hp. revert stack. induction Hp as [|p parts Hp _ IH]; intros stack Hs; cbn [Target.clean_parts].
  { by apply Forall_reverse. }
  destruct (decide (p = [] \/ p = str ".")) as [|Hn]; [by apply IH|].
  assert (p <> [] /\ 47 ∉ p) as Hpp by (split; tauto). destruct (decide (p = str "..")) as [|Hd].
  - destruct Hs as [|top stack Ht Hs]; [apply IH, Forall_singleton; done|].
    case_decide; apply IH; [by repeat apply Forall_cons_2|done].
  - apply IH. by constructor.
Qed.

(** A path that is not absolute does not become so. *)
Lemma Clean_relative path : Target.IsAbs path = false -> Target.IsAbs (Target.Clean path) = false.
Proof.
  intros H. unfold Target.Clean. rewrite H.
  pose proof (clean_relative (split_on 47 path) [] (split_on_free 47 path) ltac:(constructor)) as Hr.
  destruct Hr as [|[|c p] parts [Hp1 Hp2] _]; [done|done|]. apply not_elem_of_cons in Hp2 as [Hc _].
  apply not_true_is_false. intros [t Ht]%HasPrefix_true.
  assert (Some c = Some 47) as [= ->] by (destruct parts; exact (f_equal head Ht)). done.
Qed.

Lemma clean_plain parts stack : Forall plain parts -> Target.clean_parts true parts stack = reverse stack ++ parts.
Proof.
  intros H. revert stack. induction H as [|p parts (H1 & H2 & H3 & H4) _ IH]; intros stack; cbn [Target.clean_parts].
  - by rewrite app_nil_r.
  - rewrite decide_False by tauto. rewrite decide_False by done. by rewrite IH, reverse_cons, <- app_assoc.
Qed.

Lemma Clean_join parts : Forall plain parts -> Target.Clean (47 :: join_with 47 parts) = 47 :: join_with 47 parts.
Proof.
  intros H. unfold Target.Clean, Target.IsAbs.
  change (HasPrefix (47 :: join_with 47 parts) (str "/")) with (HasPrefix (str "/" ++ join_with 47 parts) (str "/")).
  rewrite HasPrefix_app. f_equal. f_equal. cbn [split_on]. rewrite Z.eqb_refl. cbn [Target.clean_parts]. rewrite decide_True by (by left).
  destruct parts as [|p parts]; [reflexivity|]. rewrite split_join; [|done|].
  - rewrite clean_plain by done. done.
  - eapply Forall_impl; [exact H|]. by intros ? (_ & _ & _ & ?).
Qed.

(** The file of a target.  A target is taken only as a [file] URL without a foreign
    host, and the path it leads to is absolute, without empty, dot or parent components,
    so that cleaning it again changes nothing. *)
Theorem target_path_clean Parse target path :
  Target.FilePathFromTarget Parse target = Some path ->
  exists u parts, Parse target = Some u /\ Target.Scheme u = str "file" /\
    (Target.Host u = [] \/ Target.Host u = str "localhost") /\
    path = 47 :: join_with 47 parts /\ Forall plain parts /\ Target.Clean path = path.
Proof.
  unfold Target.FilePathFromTarget. destruct (Parse target) as [u|]; [|done].
  destruct (bool_decide_reflect (Target.Scheme u = str "file")) as [Hs|]; [|done]. cbn [negb].
  destruct (negb (bool_decide (Target.Host u = [])) && negb (bool_decide (Target.Host u = str "localhost"))) eqn:Eh; [done|].
  destruct (bool_decide (Target.UPath u = [])); [done|].
  destruct (Target.IsAbs (Target.Clean (Target.UPath u))) eqn:Ea; [|done]. intros [= <-].
  assert (exists parts, Target.Clean (Target.UPath u) = 47 :: join_with 47 parts /\ Forall plain parts) as (parts & Ec & Hp).
  { destruct (Target.IsAbs (Target.UPath u)) eqn:Eu; [|rewrite Clean_relative in Ea; done].
    unfold Target.Clean. rewrite Eu. eexists. split; [done|]. apply clean_rooted; [apply split_on_free|constructor]. }
  exists u, parts. rewrite Ec. split_and!; [done|done| |done|done|by apply Clean_join].
  apply andb_false_iff in Eh as [Eh|Eh]; apply negb_false_iff, bool_decide_eq_true_1 in Eh; auto.
Qed.

(** ** Witnesses *)

Module ExportDemo.
(** Records are numbers, odd ones are dropped.  The first request of one endpoint is given
    up and arrives last, after the batch of the other endpoint and its own second copy. *)
Definition ToRecord (n : Z) : option Z := if Z.odd n then None else Some n.
Definition Marshal (l : list Z) : option (list Z) := Some l.
Definition JoinPath (base : list Z) (parts : list (list Z)) : option (list Z) := Some (base ++ mjoin parts).
Definition execs : list Z := str "exec_event".
Definition files : list Z := str "file_op".
Definition ops : list (Ingest.op (R := Z)) :=
  [Ingest.Offer execs 2; Ingest.Offer execs 3; Ingest.Tick execs; Ingest.Offer files 4; Ingest.Close files; Ingest.Tick files;
   Ingest.Attempt execs false None; Ingest.Attempt files true (Some (202, Some []));
   Ingest.Attempt execs true (Some (202, Some [])); Ingest.Arrive 0].
Definition x1 := Ingest.run_export ToRecord Marshal JoinPath (fun _ => true) (str "http://gw") ops (initial [execs; files]).

Lemma ops_honest : Forall honest ops.
Proof. repeat (apply Forall_cons; split; [cbn; try (intros [? [=]]); auto|]). apply Forall_nil. exact I. Qed.
End ExportDemo.

Lemma gateway_delivers_witness :
  Ingest.calls ExportDemo.x1 =
    [Ingest.Call ExportDemo.execs [2] (Some true); Ingest.Call ExportDemo.files [4] (Some true)] /\
  (Ingest.received ExportDemo.x1).*1 = [1; 0; 0]%nat /\
  Forall (of_call ExportDemo.Marshal ExportDemo.JoinPath (fun _ => true) (str "http://gw") ExportDemo.x1)
    (Ingest.received ExportDemo.x1) /\ ordered ExportDemo.x1.
Proof.
  split; [vm_compute; reflexivity|]. split; [vm_compute; reflexivity|].
  destruct (gateway_delivers ExportDemo.ToRecord ExportDemo.Marshal ExportDemo.JoinPath (fun _ => true) (str "http://gw")
    [ExportDemo.execs; ExportDemo.files] ExportDemo.ops ExportDemo.ops_honest) as (_ & _ & H1 & _ & _ & H2).
  exact (conj H1 H2).
Defined.

Lemma target_path_clean_witness :
  exists parts, str "/var/watchu.jsonl" = 47 :: join_with 47 parts /\ Forall plain parts.
Proof.
  destruct (target_path_clean
    (fun t => Some {| Target.Scheme := str "file"; Target.Host := []; Target.UPath := drop 7 t |})
    (str "file:///var/log/..//./watchu.jsonl") (str "/var/watchu.jsonl")) as (u & parts & _ & _ & _ & H1 & H2 & _).
  - vm_compute. reflexivity.
  - exists parts. exact (conj H1 H2).
Defined.
