(* ===== verification/Pairs.v ===== *)
(** Request and response pairs of the terminal interface: [tui/pairs.go].

    The records on display are paired by session key; pairs that overlap are drawn
    in different columns.  The theorems: a pair is a request and the next response
    of its session, pairs in one column do not overlap and no fewer columns would
    do, and the drawing shows every pair on the lines it spans and nothing else,
    without an index out of range. *)

From stdpp Require Import sorting.
From S2P Require Import Prelude.

(** ** Pairs *)

(** A record on display; only the endpoint and the session key matter here. *)
Record displayRecord := {
  Endpoint : list Z;
  Timestamp : Z;
  SessionKey : list Z;
  Provider : list Z;
  Model : list Z;
  Summary : list Z;
  Detail : list Z;
}.

Record pairInterval := { Start : nat; End_ : nat; Level : nat }.

#[export] Instance pairInterval_eq_dec : EqDecision pairInterval.
Proof. solve_decision. Defined.

Inductive pairLinkKind := pairLinkNone | pairLinkDot | pairLinkPipe.

#[export] Instance pairLinkKind_eq_dec : EqDecision pairLinkKind.
Proof. solve_decision. Defined.

Definition http_request : list Z := str "http_request".
Definition http_response : list Z := str "http_response".

(** The body of the loop over the records. *)
Definition pair_step (idx : nat) (record : displayRecord) (st : gmap (list Z) nat * list pairInterval)
    : gmap (list Z) nat * list pairInterval :=
  let '(requestsBySession, pairs) := st in
  if decide (SessionKey record = []) then st
  else if decide (Endpoint record = http_request) then (<[SessionKey record := idx]> requestsBySession, pairs)
  else if decide (Endpoint record = http_response) then
    match requestsBySession !! SessionKey record with
    | Some start =>
        if (idx <=? start)%nat then st
        else (delete (SessionKey record) requestsBySession,
              pairs ++ [{| Start := start; End_ := idx; Level := 0 |}])
    | None => st
    end
  else st.

Fixpoint pair_loop (idx : nat) (records : list displayRecord) (st : gmap (list Z) nat * list pairInterval)
    : gmap (list Z) nat * list pairInterval :=
  match records with
  | [] => st
  | record :: records' => pair_loop (S idx) records' (pair_step idx record st)
  end.

(** The order of [sort.Slice]. *)
Definition pair_le (p q : pairInterval) : Prop :=
  (Start p < Start q)%nat \/ (Start p = Start q /\ (End_ p <= End_ q)%nat).

#[export] Instance pair_le_dec p q : Decision (pair_le p q).
Proof. unfold pair_le. apply _. Defined.

(** The first level whose pair ended before [start]. *)
Fixpoint free_level (activeEnds : list nat) (start : nat) : nat :=
  match activeEnds with
  | [] => 0
  | e :: activeEnds' => if (e <? start)%nat then 0 else S (free_level activeEnds' start)
  end.

Fixpoint assign_levels (activeEnds : list nat) (maxLevel : nat) (pairs : list pairInterval)
    : list pairInterval * nat :=
  match pairs with
  | [] => ([], maxLevel)
  | p :: pairs' =>
      let level := free_level activeEnds (Start p) in
      let activeEnds := if decide (level = length activeEnds) then activeEnds ++ [End_ p]
                        else <[level := End_ p]> activeEnds in
      let maxLevel := if (maxLevel <? level + 1)%nat then (level + 1)%nat else maxLevel in
      let '(rest, maxLevel) := assign_levels activeEnds maxLevel pairs' in
      ({| Start := Start p; End_ := End_ p; Level := level |} :: rest, maxLevel)
  end.

Definition buildSessionPairs (records : list displayRecord) : list pairInterval * nat :=
  let '(_, pairs) := pair_loop 0 records (∅, []) in
  if decide (pairs = []) then ([], 0%nat)
  else assign_levels [] 0 (merge_sort pair_le pairs).

(** ** Drawing *)

(** The columns of one line, none where they were not made; an index out of range is
    a panic, the [None] of what follows. *)
Notation line := (list pairLinkKind).

Definition set_column (level : nat) (k : pairLinkKind) (l : line) : option line :=
  if decide (level < length l)%nat then Some (<[level := k]> l) else None.

(** The inner loop, over the lines from [idx] on for [n] steps. *)
Fixpoint draw_lines (start idx n : nat) (p : pairInterval) (annotations : list line) : option (list line) :=
  match n with
  | O => Some annotations
  | S n =>
      l ← annotations !! (idx - start)%nat;
      l ← set_column (Level p) pairLinkPipe l;
      l ← (if decide (idx = Start p \/ idx = End_ p) then set_column (Level p) pairLinkDot l else Some l);
      draw_lines start (S idx) n p (<[(idx - start)%nat := l]> annotations)
  end.

Fixpoint draw_pairs (start end_ : nat) (pairs : list pairInterval) (annotations : list line) : option (list line) :=
  match pairs with
  | [] => Some annotations
  | p :: pairs' =>
      if (end_ <=? Start p)%nat then Some annotations
      else if (End_ p <? start)%nat then draw_pairs start end_ pairs' annotations
      else
        let lineStart := Nat.max start (Start p) in
        let lineEnd := Nat.min (end_ - 1) (End_ p) in
        annotations ← draw_lines start lineStart (S lineEnd - lineStart) p annotations;
        draw_pairs start end_ pairs' annotations
  end.

Definition buildVisiblePairAnnotations (start end_ : nat) (pairs : list pairInterval) (maxLevel : nat)
    : option (list line) :=
  if decide (pairs = [] \/ maxLevel = 0%nat \/ (end_ <= start)%nat) then Some (replicate (end_ - start) [])
  else draw_pairs start end_ pairs (replicate (end_ - start) (replicate maxLevel pairLinkNone)).

(** ** Pairing *)

Definition is_request (k : list Z) (r : displayRecord) : Prop := Endpoint r = http_request /\ SessionKey r = k.
Definition is_response (k : list Z) (r : displayRecord) : Prop := Endpoint r = http_response /\ SessionKey r = k.

(** A request, its response, and nothing of the session in between. *)
Definition matched (records : list displayRecord) (s e : nat) : Prop :=
  exists k rq rs, k <> [] /\ (s < e)%nat /\ records !! s = Some rq /\ records !! e = Some rs /\
    is_request k rq /\ is_response k rs /\
    forall i r, (s < i < e)%nat -> records !! i = Some r -> ~ is_request k r /\ ~ is_response k r.

(** A request that waits for its response. *)
Definition waiting (records : list displayRecord) (k : list Z) (s : nat) : Prop :=
  exists rq, k <> [] /\ records !! s = Some rq /\ is_request k rq /\
    forall i r, (s < i)%nat -> records !! i = Some r -> ~ is_request k r /\ ~ is_response k r.

Lemma lookup_snoc_cases {A} (l : list A) (x y : A) i :
  (l ++ [x]) !! i = Some y <-> l !! i = Some y \/ (i = length l /\ y = x).
Proof.
  rewrite lookup_app_Some. split.
  - intros [?|[Hi Hy]]; [by left|right].
    apply list_lookup_singleton_Some in Hy as [? ->]. split; [lia|done].
  - intros [?|[-> ->]]; [by left|right]. rewrite Nat.sub_diag. done.
Qed.

Lemma waiting_snoc records r k s :
  waiting (records ++ [r]) k s <->
  (waiting records k s /\ ~ is_request k r /\ ~ is_response k r) \/
  (s = length records /\ k <> [] /\ is_request k r).
Proof.
  split.
  - intros (rq & Hk & [Hs|[-> ->]]%lookup_snoc_cases & Hrq & Hafter); [left|by right].
    pose proof (lookup_lt_Some _ _ _ Hs) as Hlt. split; [|apply (Hafter (length records)); [lia|]].
    + exists rq. split_and!; try done. intros i r' Hi Hr'. apply (Hafter i r' Hi), lookup_snoc_cases. by left.
    + apply lookup_snoc_cases. by right.
  - intros [[(rq & Hk & Hs & Hrq & Hafter) Hr]|(-> & Hk & Hr)].
    + exists rq. split_and!; try done; [apply lookup_snoc_cases; by left|].
      intros i r' Hi [Hr'|[-> ->]]%lookup_snoc_cases; [by apply (Hafter i)|done].
    + exists r. split_and!; try done; [apply lookup_snoc_cases; by right|].
      intros i r' Hi [Hr'%lookup_lt_Some|[-> ->]]%lookup_snoc_cases; lia.
Qed.

Lemma matched_snoc records r s e :
  matched (records ++ [r]) s e <->
  matched records s e \/ (e = length records /\ exists k, waiting records k s /\ is_response k r).
Proof.
  split.
  - intros (k & rq & rs & Hk & Hse & Hs & [He|[-> ->]]%lookup_snoc_cases & Hrq & Hrs & Hbetween).
    + left. pose proof (lookup_lt_Some _ _ _ He). apply lookup_snoc_cases in Hs as [Hs|[? ?]]; [|lia].
      exists k, rq, rs. split_and!; try done. intros i r' Hi Hr'. apply (Hbetween i r' Hi), lookup_snoc_cases. by left.
    + right. split; [done|]. exists k. apply lookup_snoc_cases in Hs as [Hs|[? ?]]; [|lia].
      split; [|done]. exists rq. split_and!; try done. intros i r' Hi Hr'.
      pose proof (lookup_lt_Some _ _ _ Hr'). apply (Hbetween i r'); [lia|]. apply lookup_snoc_cases. by left.
  - intros [(k & rq & rs & Hk & Hse & Hs & He & Hrq & Hrs & Hbetween)|(-> & k & (rq & Hk & Hs & Hrq & Hafter) & Hr)].
    + exists k, rq, rs. pose proof (lookup_lt_Some _ _ _ He).
      split_and!; try done; [apply lookup_snoc_cases; by left..|].
      intros i r' Hi [Hr'|[-> ->]]%lookup_snoc_cases; [by apply (Hbetween i)|lia].
    + exists k, rq, r. pose proof (lookup_lt_Some _ _ _ Hs).
      split_and!; try done; [apply lookup_snoc_cases; by left|apply lookup_snoc_cases; by right|].
      intros i r' Hi [Hr'|[-> ->]]%lookup_snoc_cases; [apply (Hafter i); [lia|done]|lia].
Qed.

Lemma http_names : http_request <> http_response.
Proof. done. Qed.

(** What the loop holds after a prefix of the records. *)
Definition pair_inv (records : list displayRecord) (st : gmap (list Z) nat * list pairInterval) : Prop :=
  (forall k s, st.1 !! k = Some s <-> waiting records k s) /\
  (forall p, p ∈ st.2 -> matched records (Start p) (End_ p) /\ Level p = 0%nat) /\
  (forall s e, matched records s e -> {| Start := s; End_ := e; Level := 0 |} ∈ st.2) /\
  NoDup st.2.

Lemma pair_inv_nil : pair_inv [] (∅, []).
Proof.
  split_and!; cbn.
  - intros k s. rewrite lookup_empty. split; [done|]. by intros (rq & _ & ? & _).
  - intros p []%not_elem_of_nil.
  - by intros s e (k & rq & rs & _ & _ & ? & _).
  - constructor.
Qed.

Lemma waiting_lt records k s : waiting records k s -> (s < length records)%nat.
Proof. intros (rq & _ & Hs & _). by eapply lookup_lt_Some. Qed.

Lemma matched_lt records s e : matched records s e -> (s < e < length records)%nat.
Proof. intros (k & rq & rs & _ & Hse & _ & He & _). split; [done|]. by eapply lookup_lt_Some. Qed.

(** A record that belongs to no session, or is neither request nor response. *)
Lemma pair_inv_other records r st :
  (forall k, k <> [] -> ~ is_request k r /\ ~ is_response k r) ->
  pair_inv records st -> pair_inv (records ++ [r]) st.
Proof.
  intros Hr (H1 & H2 & H3 & H4). split_and!; try done.
  - intros k s. rewrite H1, waiting_snoc. split.
    + intros Hw. left. split; [done|]. apply Hr. by destruct Hw as (? & ? & _).
    + intros [[? _]|(_ & Hk & Hq)]; [done|]. by destruct (Hr k Hk).
  - intros p Hp. rewrite matched_snoc. destruct (H2 p Hp). auto.
  - intros s e [?|(_ & k & (rq & Hk & _) & Hq)]%matched_snoc; [by apply H3|]. by destruct (Hr k Hk).
Qed.

Lemma pair_inv_request records r m ps :
  SessionKey r <> [] -> Endpoint r = http_request ->
  pair_inv records (m, ps) -> pair_inv (records ++ [r]) (<[SessionKey r := length records]> m, ps).
Proof.
  intros Hk Hr (H1 & H2 & H3 & H4). cbn in *. split_and!; try done; cbn.
  - intros k s. rewrite waiting_snoc, <- H1, lookup_insert_Some. split.
    + intros [[<- <-]|[Hne Hm]]; [right|left]; split_and!; try done; intros [? ?]; congruence.
    + intros [(Hm & Hq & _)|(-> & _ & [_ <-])]; [right|by left]. split; [|done]. intros <-. by apply Hq.
  - intros p Hp. rewrite matched_snoc. destruct (H2 p Hp). auto.
  - intros s e [?|(_ & k & _ & [Hq _])]%matched_snoc; [by apply H3|]. by rewrite Hr in Hq.
Qed.

Lemma pair_inv_response records r m ps s0 :
  Endpoint r = http_response -> m !! SessionKey r = Some s0 ->
  pair_inv records (m, ps) ->
  pair_inv (records ++ [r]) (delete (SessionKey r) m, ps ++ [{| Start := s0; End_ := length records; Level := 0 |}]).
Proof.
  intros Hr Hm (H1 & H2 & H3 & H4). cbn in *. pose proof (proj1 (H1 _ _) Hm) as Hw. split_and!; cbn.
  - intros k s. rewrite waiting_snoc, <- H1, lookup_delete_Some. split.
    + intros [Hne Hs]. left. split_and!; try done; intros [? ?]; congruence.
    + intros [(Hs & _ & Hq)|(_ & _ & [Hq _])]; [|by rewrite Hr in Hq]. split; [|done]. intros <-. by apply Hq.
  - intros p [Hp| ->%list_elem_of_singleton]%elem_of_app; rewrite matched_snoc; [destruct (H2 p Hp); auto|].
    cbn. split; [|done]. right. split; [done|]. by exists (SessionKey r).
  - intros s e [?|(-> & k & Hs & [_ <-])]%matched_snoc; apply elem_of_app; [left; by apply H3|right].
    apply H1 in Hs. rewrite Hm in Hs. simplify_eq. by apply list_elem_of_singleton.
  - apply NoDup_app. split_and!; [done| |apply NoDup_singleton].
    intros p Hp ->%list_elem_of_singleton. destruct (H2 _ Hp) as [?%matched_lt _]. cbn in *. lia.
Qed.

Lemma pair_inv_unasked records r m ps :
  Endpoint r = http_response -> m !! SessionKey r = None ->
  pair_inv records (m, ps) -> pair_inv (records ++ [r]) (m, ps).
Proof.
  intros Hr Hm (H1 & H2 & H3 & H4). cbn in *. split_and!; try done; cbn.
  - intros k s. rewrite waiting_snoc, <- H1. split.
    + intros Hs. left. split_and!; [done|intros [? ?]; congruence|]. intros [_ <-]. congruence.
    + intros [(? & _)|(_ & _ & [Hq _])]; [done|]. by rewrite Hr in Hq.
  - intros p Hp. rewrite matched_snoc. destruct (H2 p Hp). auto.
  - intros s e [?|(_ & k & Hs%H1 & [_ <-])]%matched_snoc; [by apply H3|congruence].
Qed.

Lemma pair_step_inv records r st : pair_inv records st -> pair_inv (records ++ [r]) (pair_step (length records) r st).
Proof.
  destruct st as [m ps]. intros Hinv. unfold pair_step. repeat case_decide.
  - apply pair_inv_other; [|done]. intros k Hk. unfold is_request, is_response. naive_solver.
  - by apply pair_inv_request.
  - destruct (m !! SessionKey r) as [s0|] eqn:Hm; [|by apply pair_inv_unasked].
    pose proof (proj1 (proj1 Hinv _ _) Hm) as Hlt%waiting_lt.
    destruct (Nat.leb_spec (length records) s0); [lia|]. by apply pair_inv_response.
  - apply pair_inv_other; [|done]. intros k Hk. unfold is_request, is_response. naive_solver.
Qed.

Lemma pair_loop_inv records' : forall records st,
  pair_inv records st -> pair_inv (records ++ records') (pair_loop (length records) records' st).
Proof.
  induction records' as [|r records' IH]; intros records st Hinv; cbn; [by rewrite app_nil_r|].
  apply (pair_step_inv _ r) in Hinv. apply IH in Hinv.
  rewrite length_app, Nat.add_1_r, <- app_assoc in Hinv. done.
Qed.

(** ** Levels *)

#[export] Instance pair_le_total : Total pair_le.
Proof. intros p q. unfold pair_le. lia. Qed.

#[export] Instance pair_le_trans : Transitive pair_le.
Proof. intros p q r. unfold pair_le. lia. Qed.

Definition without_level (p : pairInterval) : pairInterval := {| Start := Start p; End_ := End_ p; Level := 0 |}.

Lemma free_level_le ends s : (free_level ends s <= length ends)%nat.
Proof. induction ends as [|e ends IH]; cbn; [lia|]. case_match; lia. Qed.

(** Every level before the free one is taken; the free one, if it exists, ended. *)
Lemma free_level_taken ends s i e : (i < free_level ends s)%nat -> ends !! i = Some e -> (s <= e)%nat.
Proof.
  revert i. induction ends as [|e' ends IH]; intros i; cbn [free_level]; [lia|].
  destruct (Nat.ltb_spec e' s); [intros; lia|]. destruct i; cbn; [intros; simplify_eq; lia|].
  intros. apply (IH i); [lia|done].
Qed.

Lemma free_level_free ends s e : ends !! free_level ends s = Some e -> (e < s)%nat.
Proof. induction ends as [|e' ends IH]; cbn [free_level]; [done|]. destruct (Nat.ltb_spec e' s); cbn; [|done]. by intros [= ->]. Qed.

Definition covers (p : pairInterval) (x : nat) : Prop := (Start p <= x <= End_ p)%nat.

#[export] Instance covers_dec p x : Decision (covers p x).
Proof. unfold covers. apply _. Defined.

(** What holds of the pairs placed so far and the last end of every level: the ends
    are those of placed pairs, pairs of a level follow each other, and when there is
    a level at all some line is crossed by a pair of each. *)
Record placed_ok (placed : list pairInterval) (ends : list nat) : Prop := {
  placed_end : forall q, q ∈ placed -> exists e, ends !! Level q = Some e /\ (End_ q <= e)%nat;
  end_placed : forall l e, ends !! l = Some e -> exists q, q ∈ placed /\ Level q = l /\ End_ q = e;
  placed_apart : forall i j p q, placed !! i = Some p -> placed !! j = Some q -> (i < j)%nat ->
    Level p = Level q -> (End_ p < Start q)%nat;
  placed_crowd : ends <> [] -> exists x, forall l, (l < length ends)%nat ->
    exists q, q ∈ placed /\ Level q = l /\ covers q x }.

Definition place (ends : list nat) (p : pairInterval) : pairInterval :=
  {| Start := Start p; End_ := End_ p; Level := free_level ends (Start p) |}.

Definition place_end (ends : list nat) (p : pairInterval) : list nat :=
  let level := free_level ends (Start p) in
  if decide (level = length ends) then ends ++ [End_ p] else <[level := End_ p]> ends.

Lemma place_end_lookup ends p l e :
  place_end ends p !! l = Some e <->
  (l = free_level ends (Start p) /\ e = End_ p) \/ (l <> free_level ends (Start p) /\ ends !! l = Some e).
Proof.
  unfold place_end. pose proof (free_level_le ends (Start p)) as Hle. case_decide as Hl.
  - rewrite lookup_snoc_cases, Hl. split; [intros [He|?]; [|by left]|naive_solver].
    right. apply lookup_lt_Some in He as ?. split; [lia|done].
  - rewrite list_lookup_insert_Some. split.
    + intros [(<- & <- & ?)|[? ?]]; [by left|by right].
    + intros [[-> ->]|[? ?]]; [left|by right]. split_and!; [done..|lia].
Qed.

Lemma place_end_length ends p :
  length (place_end ends p) = Nat.max (length ends) (S (free_level ends (Start p))).
Proof.
  unfold place_end. pose proof (free_level_le ends (Start p)). case_decide.
  - rewrite length_app. cbn. lia.
  - rewrite length_insert. lia.
Qed.

(** Placing a pair that starts after those placed. *)
Lemma place_ok placed ends p :
  placed_ok placed ends -> (forall q, q ∈ placed -> (Start q <= Start p)%nat) -> (Start p <= End_ p)%nat ->
  placed_ok (placed ++ [place ends p]) (place_end ends p).
Proof.
  intros [Hpe Hep Hap Hcr] Hsorted Hp. split.
  - intros q [Hq| ->%list_elem_of_singleton]%elem_of_app.
    + destruct (Hpe q Hq) as (e & He & Hle). destruct (decide (Level q = free_level ends (Start p))) as [El|].
      * exists (End_ p). rewrite place_end_lookup. split; [auto|]. rewrite El in He. apply free_level_free in He. lia.
      * exists e. rewrite place_end_lookup. auto.
    + exists (End_ p). rewrite place_end_lookup. cbn. auto.
  - intros l e [[-> ->]|[_ Hl]]%place_end_lookup.
    + exists (place ends p). rewrite elem_of_app, list_elem_of_singleton. cbn. auto.
    + destruct (Hep l e Hl) as (q & Hq & ?). exists q. rewrite elem_of_app. auto.
  - intros i j p' q Hi [Hj|[-> ->]]%lookup_snoc_cases Hij Hl.
    + apply lookup_snoc_cases in Hi as [Hi|[-> _]]; [by apply (Hap i j)|]. apply lookup_lt_Some in Hj. lia.
    + apply lookup_snoc_cases in Hi as [Hi|[? ?]]; [|lia].
      apply list_elem_of_lookup_2, Hpe in Hi as (e & He & ?). cbn in *. rewrite Hl in He. apply free_level_free in He. lia.
  - intros _. pose proof (free_level_le ends (Start p)) as Hle. rewrite place_end_length.
    destruct (decide (free_level ends (Start p) = length ends)) as [El|Hne].
    + exists (Start p). intros l Hl. destruct (decide (l = length ends)) as [->|].
      * exists (place ends p). rewrite elem_of_app, list_elem_of_singleton. unfold covers. cbn. auto with lia.
      * destruct (lookup_lt_is_Some_2 ends l) as [e He]; [lia|]. destruct (Hep l e He) as (q & Hq & <- & <-).
        exists q. rewrite elem_of_app. split_and!; [auto|done|]. split; [by apply Hsorted|].
        eapply free_level_taken; [|done]. lia.
    + destruct Hcr as [x Hx]; [by intros ->|]. exists x. intros l Hl. destruct (Hx l) as (q & Hq & ?); [lia|].
      exists q. rewrite elem_of_app. auto.
Qed.

Lemma assign_levels_cons ends p ps :
  assign_levels ends (length ends) (p :: ps) =
  (let '(qs, mx) := assign_levels (place_end ends p) (length (place_end ends p)) ps in (place ends p :: qs, mx)).
Proof.
  rewrite place_end_length. cbn [assign_levels]. fold (place_end ends p).
  replace (if (length ends <? free_level ends (Start p) + 1)%nat then _ else _)
    with (Nat.max (length ends) (S (free_level ends (Start p)))); [done|].
  destruct (Nat.ltb_spec (length ends) (free_level ends (Start p) + 1)); lia.
Qed.

Lemma assign_levels_ok ps : forall placed ends qs mx,
  assign_levels ends (length ends) ps = (qs, mx) ->
  placed_ok placed ends -> StronglySorted pair_le ps -> Forall (fun p => Start p <= End_ p)%nat ps ->
  (forall q p, q ∈ placed -> p ∈ ps -> (Start q <= Start p)%nat) ->
  without_level <$> qs = without_level <$> ps /\ exists ends', length ends' = mx /\ placed_ok (placed ++ qs) ends'.
Proof.
  induction ps as [|p ps IH]; intros placed ends qs mx Hrun Hok Hsort Hle Hbefore.
  { cbn in Hrun. simplify_eq. rewrite app_nil_r. eauto. }
  rewrite assign_levels_cons in Hrun. inversion_clear Hsort as [|? ? Hsort' Hhd]. inversion_clear Hle as [|? ? Hp Hle'].
  destruct (assign_levels _ _ ps) as [qs' mx'] eqn:E. simplify_eq.
  apply (IH (placed ++ [place ends p])) in E as (Heq & ends' & <- & Hends'); [|apply place_ok; set_solver..|done|done|].
  - rewrite <- app_assoc in Hends'. rewrite !fmap_cons, Heq. eauto.
  - intros q r [Hq| ->%list_elem_of_singleton]%elem_of_app Hr; [set_solver|].
    rewrite Forall_forall in Hhd. apply Hhd in Hr. unfold pair_le in Hr. cbn. lia.
Qed.

Lemma placed_ok_nil : placed_ok [] [].
Proof. by split; try set_solver. Qed.

(** The pairs before they are placed, in order. *)
Definition session_pairs (records : list displayRecord) : list pairInterval :=
  merge_sort pair_le (pair_loop 0 records (∅, [])).2.

Lemma session_pairs_spec records :
  StronglySorted pair_le (session_pairs records) /\ NoDup (session_pairs records) /\
  (forall p, p ∈ session_pairs records <-> matched records (Start p) (End_ p) /\ Level p = 0%nat).
Proof.
  destruct (pair_loop_inv records [] _ pair_inv_nil) as (_ & H2 & H3 & H4). cbn in *.
  unfold session_pairs. split_and!.
  - apply StronglySorted_merge_sort; apply _.
  - by rewrite merge_sort_Permutation.
  - intros p. rewrite merge_sort_Permutation. split; [apply H2|].
    intros [Hm Hl]. apply H3 in Hm. by destruct p; cbn in *; subst.
Qed.

Lemma buildSessionPairs_eq records : buildSessionPairs records = assign_levels [] 0 (session_pairs records).
Proof.
  unfold buildSessionPairs, session_pairs. destruct (pair_loop _ _ _) as [m ps]. cbn [snd].
  case_decide; by subst.
Qed.

Lemma buildSessionPairs_placed records pairs mx :
  buildSessionPairs records = (pairs, mx) ->
  without_level <$> pairs = session_pairs records /\ exists ends, length ends = mx /\ placed_ok pairs ends.
Proof.
  rewrite buildSessionPairs_eq. intros E. destruct (session_pairs_spec records) as (Hsort & _ & Hin).
  apply (assign_levels_ok _ [] [] _ _) in E as [Heq ?]; [|apply placed_ok_nil|done| |set_solver].
  - split; [|done]. rewrite Heq. rewrite <- (list_fmap_id (session_pairs records)) at 2.
    apply list_fmap_ext. intros i p Hp%list_elem_of_lookup_2. apply Hin in Hp as [_ Hl]. by destruct p; cbn in *; subst.
  - apply Forall_forall. intros p [Hm%matched_lt _]%Hin. lia.
Qed.

Lemma placed_matched records pairs mx p :
  buildSessionPairs records = (pairs, mx) -> p ∈ pairs -> matched records (Start p) (End_ p).
Proof.
  intros [Heq _]%buildSessionPairs_placed Hp. destruct (session_pairs_spec records) as (_ & _ & Hin).
  apply (list_elem_of_fmap_2 without_level) in Hp. rewrite Heq in Hp. by apply Hin in Hp as [? _].
Qed.

Lemma matched_fun records s e e' : matched records s e -> matched records s e' -> e = e'.
Proof.
  intros (k & rq & rs & _ & ? & Hs & He & [_ <-] & Hrs & Hb) (k' & rq' & rs' & _ & ? & Hs' & He' & [_ <-] & Hrs' & Hb').
  rewrite Hs in Hs'. simplify_eq. destruct (lt_eq_lt_dec e e') as [[?|?]|?]; [|done|].
  - by destruct (Hb' e rs ltac:(lia) He).
  - by destruct (Hb e' rs' ltac:(lia) He').
Qed.

Lemma StronglySorted_lookup {A} (R : relation A) l i j x y :
  StronglySorted R l -> l !! i = Some x -> l !! j = Some y -> (i < j)%nat -> R x y.
Proof.
  intros Hs. revert i j. induction Hs as [|z l Hs IH Hz]; intros i j Hi Hj Hij; [done|].
  destruct i, j; cbn in *; simplify_eq; [lia| |lia|eapply IH; eauto; lia].
  rewrite Forall_forall in Hz. by apply Hz, list_elem_of_lookup_2 with j.
Qed.

(** The pairs come in the order of their requests, which are distinct. *)
Lemma pairs_ordered records pairs mx i j p q :
  buildSessionPairs records = (pairs, mx) ->
  pairs !! i = Some p -> pairs !! j = Some q -> (i < j)%nat -> (Start p < Start q)%nat.
Proof.
  intros Hb Hi Hj Hij. pose proof (placed_matched _ _ _ _ Hb (list_elem_of_lookup_2 _ _ _ Hi)) as Hp.
  pose proof (placed_matched _ _ _ _ Hb (list_elem_of_lookup_2 _ _ _ Hj)) as Hq.
  apply buildSessionPairs_placed in Hb as [Heq _]. destruct (session_pairs_spec records) as (Hsort & Hnd & _).
  rewrite <- Heq in Hsort, Hnd.
  assert (Hi' : (without_level <$> pairs) !! i = Some (without_level p)) by by rewrite list_lookup_fmap, Hi.
  assert (Hj' : (without_level <$> pairs) !! j = Some (without_level q)) by by rewrite list_lookup_fmap, Hj.
  destruct (StronglySorted_lookup _ _ _ _ _ _ Hsort Hi' Hj' Hij) as [?|[Es _]]; [done|]. cbn in Es.
  rewrite Es in Hp. pose proof (matched_fun _ _ _ _ Hp Hq) as Ee.
  assert (without_level p = without_level q) as E by (unfold without_level; congruence).
  rewrite E in Hi'. pose proof (NoDup_lookup _ _ _ _ Hnd Hi' Hj'). lia.
Qed.

Lemma choose_levels (P : nat -> pairInterval -> Prop) n :
  (forall l, (l < n)%nat -> exists q, P l q) ->
  exists qs, length qs = n /\ forall l q, qs !! l = Some q -> P l q.
Proof.
  induction n as [|n IH]; intros H; [by exists []|].
  destruct IH as (qs & Hlen & Hqs); [intros l ?; apply H; lia|]. destruct (H n) as [q Hq]; [lia|].
  exists (qs ++ [q]). rewrite length_app. cbn. split; [lia|].
  intros l q' [?|[-> ->]]%lookup_snoc_cases; [by apply Hqs|by rewrite Hlen].
Qed.

(** Pairs that all cross one line need as many columns as there are pairs. *)
Lemma crowd_needs_columns (f : pairInterval -> nat) (pairs : list pairInterval) n x :
  (forall l, (l < n)%nat -> exists q, q ∈ pairs /\ Level q = l /\ covers q x) ->
  (forall p q, p ∈ pairs -> q ∈ pairs -> p <> q -> (exists x, covers p x /\ covers q x) -> f p <> f q) ->
  n <> 0%nat -> exists p, p ∈ pairs /\ (n <= S (f p))%nat.
Proof.
  intros Hcrowd Hf Hn.
  destruct (decide (Exists (fun p => n <= S (f p))%nat pairs)) as [H|H]; [by apply Exists_exists in H|exfalso].
  assert (forall p, p ∈ pairs -> (S (f p) < n)%nat) as H'.
  { intros p Hp. destruct (decide (n <= S (f p))%nat); [|lia]. destruct H. apply Exists_exists. eauto. }
  apply choose_levels in Hcrowd as (qs & Hlen & Hqs).
  assert (NoDup (f <$> qs)) as Hnd.
  { apply NoDup_alt. intros i j y Hi Hj. rewrite list_lookup_fmap_Some in Hi, Hj.
    destruct Hi as (p & -> & Hi), Hj as (q & E & Hj). apply Hqs in Hi as (Hp & <- & ?), Hj as (Hq & <- & ?).
    destruct (decide (p = q)) as [->|Hne]; [done|]. by destruct (Hf p q Hp Hq Hne); [exists x|]. }
  apply (NoDup_submseteq _ (seq 0 (n - 1))), submseteq_length in Hnd.
  - rewrite length_fmap, length_seq in Hnd. lia.
  - intros y (q & -> & [i Hi]%list_elem_of_lookup_1)%list_elem_of_fmap_1. apply Hqs in Hi as (Hq & _).
    apply H' in Hq. apply elem_of_seq. lia.
Qed.

Lemma same_column_apart placed ends p q x :
  placed_ok placed ends -> p ∈ placed -> q ∈ placed -> Level p = Level q -> covers p x -> covers q x -> p = q.
Proof.
  intros [_ _ Hap _] [i Hi]%list_elem_of_lookup_1 [j Hj]%list_elem_of_lookup_1 Hl Hp Hq. unfold covers in *.
  destruct (lt_eq_lt_dec i j) as [[Hij| ->]|Hij]; [|congruence|].
  - pose proof (Hap _ _ _ _ Hi Hj Hij Hl). lia.
  - pose proof (Hap _ _ _ _ Hj Hi Hij (eq_sym Hl)). lia.
Qed.

(** The interface pairs a request with a response exactly when they are of one
    session, the response comes later and nothing of the session lies in between;
    every such pair appears once, in the order of the requests, whatever the records
    are. *)
Theorem pairs_exact records pairs mx :
  buildSessionPairs records = (pairs, mx) ->
  (forall s e, matched records s e <-> exists p, p ∈ pairs /\ Start p = s /\ End_ p = e) /\
  (forall i j p q, pairs !! i = Some p -> pairs !! j = Some q -> (i < j)%nat -> (Start p < Start q)%nat).
Proof.
  intros Hb. split; [|by intros; eapply pairs_ordered]. intros s e. split.
  - intros Hm. destruct (session_pairs_spec records) as (_ & _ & Hin). apply buildSessionPairs_placed in Hb as [Heq _].
    specialize (Hin {| Start := s; End_ := e; Level := 0 |}). apply proj2 in Hin. specialize (Hin (conj Hm eq_refl)).
    rewrite <- Heq in Hin. apply list_elem_of_fmap_1 in Hin as (p & [= -> ->] & Hp). eauto.
  - intros (p & Hp & <- & <-). by eapply placed_matched.
Qed.

(** Two pairs drawn in one column share no line, every column number is within
    the width the interface reserves, and the width is the least possible: any other
    way of giving columns to the pairs so that pairs that share a line have different
    columns uses as many. *)
Theorem columns_optimal records pairs mx (f : pairInterval -> nat) :
  buildSessionPairs records = (pairs, mx) ->
  (forall p q, p ∈ pairs -> q ∈ pairs -> p <> q -> (exists x, covers p x /\ covers q x) ->
     Level p <> Level q) /\
  (forall p, p ∈ pairs -> (Level p < mx)%nat) /\
  ((forall p q, p ∈ pairs -> q ∈ pairs -> p <> q -> (exists x, covers p x /\ covers q x) -> f p <> f q) ->
     mx <> 0%nat -> exists p, p ∈ pairs /\ (mx <= S (f p))%nat).
Proof.
  intros (_ & ends & <- & Hok)%buildSessionPairs_placed. split_and!.
  - intros p q Hp Hq Hne (x & Hpx & Hqx) Hl. by apply Hne, (same_column_apart _ _ _ _ x Hok).
  - intros p (e & He & _)%(placed_end _ _ Hok). by eapply lookup_lt_Some.
  - intros Hf Hmx. destruct (placed_crowd _ _ Hok) as [x Hx]; [by intros ->|]. by eapply crowd_needs_columns.
Qed.

(** ** What is drawn *)

(** The mark a pair leaves on a line it covers. *)
Definition mark (p : pairInterval) (x : nat) : pairLinkKind :=
  if decide (x = Start p \/ x = End_ p) then pairLinkDot else pairLinkPipe.

(** The marks the pairs leave on a line, over what is there. *)
Fixpoint marks (pairs : list pairInterval) (x : nat) (l : line) : line :=
  match pairs with
  | [] => l
  | p :: pairs' => marks pairs' x (if decide (covers p x) then <[Level p := mark p x]> l else l)
  end.

Lemma draw_lines_spec start mx p n : forall idx (ann : list line),
  Forall (fun l => length l = mx) ann -> (Level p < mx)%nat -> (start <= idx)%nat -> (idx + n <= start + length ann)%nat ->
  exists ann', draw_lines start idx n p ann = Some ann' /\ length ann' = length ann /\
    forall i l, ann !! i = Some l ->
      ann' !! i = Some (if decide (idx <= start + i < idx + n)%nat then <[Level p := mark p (start + i)]> l else l).
Proof.
  induction n as [|n IH]; intros idx ann Hlen Hlv Hidx Hn; cbn [draw_lines].
  { exists ann. split_and!; try done. intros i l Hl. case_decide; [lia|done]. }
  destruct (lookup_lt_is_Some_2 ann (idx - start)) as [l0 Hl0]; [lia|]. rewrite Hl0. cbn [mbind option_bind].
  pose proof (Forall_lookup_1 _ _ _ _ Hlen Hl0) as Hlen0. cbn in Hlen0.
  assert (Hset : set_column (Level p) pairLinkPipe l0 = Some (<[Level p := pairLinkPipe]> l0)).
  { unfold set_column. by rewrite decide_True by lia. }
  assert (Hdot : (if decide (idx = Start p \/ idx = End_ p)
                  then set_column (Level p) pairLinkDot (<[Level p := pairLinkPipe]> l0)
                  else Some (<[Level p := pairLinkPipe]> l0)) = Some (<[Level p := mark p idx]> l0)).
  { unfold set_column, mark. case_decide; [|done].
    rewrite decide_True by (rewrite length_insert; lia). by rewrite list_insert_insert_eq. }
  rewrite Hset. cbn [mbind option_bind]. rewrite Hdot. cbn [mbind option_bind].
  destruct (IH (S idx) (<[(idx - start)%nat := <[Level p := mark p idx]> l0]> ann)) as (ann' & E & Hl' & Hann).
  - apply Forall_insert; [done|]. by rewrite length_insert.
  - done.
  - lia.
  - rewrite length_insert. lia.
  - exists ann'. rewrite length_insert in Hl'. split_and!; [done..|]. intros i l Hl.
    destruct (decide (i = idx - start)%nat) as [->|Hne].
    + simplify_eq. rewrite (Hann _ (<[Level p := mark p idx]> l0)) by (apply list_lookup_insert_eq; lia).
      rewrite decide_False, decide_True by lia. by replace (start + (idx - start))%nat with idx by lia.
    + rewrite (Hann i l) by by rewrite list_lookup_insert_ne. repeat case_decide; try done; lia.
Qed.

Lemma marks_out pairs x l : Forall (fun p => ~ covers p x) pairs -> marks pairs x l = l.
Proof. induction 1; cbn; [done|]. by rewrite decide_False. Qed.

Lemma length_marks pairs x l : length (marks pairs x l) = length l.
Proof. revert l. induction pairs as [|p ps IH]; intros l; cbn; [done|]. rewrite IH. case_decide; [apply length_insert|done]. Qed.

Lemma marks_lookup pairs x l lv k :
  marks pairs x l !! lv = Some k ->
  (exists p, p ∈ pairs /\ covers p x /\ Level p = lv /\ k = mark p x) \/
  ((forall p, p ∈ pairs -> covers p x -> Level p <> lv) /\ l !! lv = Some k).
Proof.
  revert l. induction pairs as [|p ps IH]; intros l; cbn; [intros; right; split; [set_solver|done]|].
  intros [(q & Hq & ?)|[Hno Hl]]%IH; [left; exists q; set_solver|]. case_decide as Hc.
  - apply list_lookup_insert_Some in Hl as [(<- & <- & _)|[Hne Hl]]; [left; exists p; set_solver|].
    right. split; [|done]. intros q [->|?]%elem_of_cons; [done|by apply Hno].
  - right. split; [|done]. intros q [->|?]%elem_of_cons; [done|by apply Hno].
Qed.

Lemma draw_pairs_spec start end_ mx pairs : forall (ann : list line),
  (start < end_)%nat -> length ann = (end_ - start)%nat -> Forall (fun l => length l = mx) ann ->
  Forall (fun p => Level p < mx /\ Start p <= End_ p)%nat pairs ->
  StronglySorted (fun p q => Start p <= Start q)%nat pairs ->
  exists ann', draw_pairs start end_ pairs ann = Some ann' /\ length ann' = length ann /\
    forall i l, ann !! i = Some l -> ann' !! i = Some (marks pairs (start + i) l).
Proof.
  induction pairs as [|p ps IH]; intros ann Hse Hlen Hall Hok Hsort; cbn [draw_pairs].
  { exists ann. done. }
  inversion_clear Hok as [|? ? [Hlv Hp] Hok']. inversion_clear Hsort as [|? ? Hsort' Hhd].
  destruct (Nat.leb_spec end_ (Start p)) as [Hout|Hin].
  { exists ann. split_and!; [done..|]. intros i l Hl. rewrite marks_out; [done|].
    apply lookup_lt_Some in Hl as ?. apply Forall_forall. intros q Hq. rewrite Forall_forall in Hhd. unfold covers.
    apply elem_of_cons in Hq as [->|Hq%Hhd]; lia. }
  destruct (Nat.ltb_spec (End_ p) start) as [Hbefore|Hreach].
  { destruct (IH ann) as (ann' & -> & ? & Hann); [done..|]. exists ann'. split_and!; [done..|].
    intros i l Hl. cbn. rewrite decide_False by (unfold covers; lia). by apply Hann. }
  set (lo := Nat.max start (Start p)). set (hi := Nat.min (end_ - 1) (End_ p)).
  destruct (draw_lines_spec start mx p (S hi - lo) lo ann) as (ann1 & -> & Hl1 & Hann1); [done|done|lia|lia|].
  destruct (IH ann1) as (ann' & E & ? & Hann); [done|lia| |done..|].
  - apply Forall_lookup. intros i l' Hl'. destruct (lookup_lt_is_Some_2 ann i) as [l Hl].
    { apply lookup_lt_Some in Hl'. lia. }
    rewrite (Hann1 i l Hl) in Hl'. pose proof (Forall_lookup_1 _ _ _ _ Hall Hl). simplify_eq.
    case_decide; [by rewrite length_insert|done].
  - cbn [mbind option_bind]. exists ann'. split_and!; [done|lia|]. intros i l Hl. apply lookup_lt_Some in Hl as ?.
    cbn [marks]. apply Hann. rewrite (Hann1 i l Hl). f_equal. apply decide_ext. unfold covers. lia.
Qed.

Lemma pairs_sorted records pairs mx :
  buildSessionPairs records = (pairs, mx) ->
  StronglySorted (fun p q => Start p <= Start q)%nat pairs /\ Forall (fun p => Level p < mx /\ Start p <= End_ p)%nat pairs.
Proof.
  intros Hb. split.
  - assert (forall i j p q, pairs !! i = Some p -> pairs !! j = Some q -> (i < j)%nat -> (Start p <= Start q)%nat) as H.
    { intros i j p q Hi Hj Hij. pose proof (pairs_ordered _ _ _ _ _ _ _ Hb Hi Hj Hij). lia. }
    clear Hb. induction pairs as [|p ps IH]; constructor.
    + apply IH. intros i j q r Hi Hj Hij. apply (H (S i) (S j)); [done..|lia].
    + apply Forall_lookup. intros i q Hi. apply (H 0%nat (S i)); [done..|lia].
  - apply Forall_forall. intros p Hp. pose proof (placed_matched _ _ _ _ Hb Hp) as ?%matched_lt.
    apply buildSessionPairs_placed in Hb as (_ & ends & <- & Hok). destruct (placed_end _ _ Hok p Hp) as (e & He & _).
    apply lookup_lt_Some in He. lia.
Qed.

Lemma pairs_none records pairs mx : buildSessionPairs records = (pairs, mx) -> pairs = [] -> mx = 0%nat.
Proof.
  intros (_ & ends & <- & Hok)%buildSessionPairs_placed ->. destruct ends as [|e ends]; [done|].
  destruct (end_placed _ _ Hok 0%nat e) as (q & Hq & _); [done|set_solver].
Qed.

(** The marks on an empty line name the pair of the column that covers it. *)
Lemma marks_exact placed ends n x lv k :
  placed_ok placed ends -> Forall (fun p => Level p < n /\ Start p <= End_ p)%nat placed ->
  marks placed x (replicate n pairLinkNone) !! lv = Some k ->
  (k = pairLinkDot <-> exists p, p ∈ placed /\ Level p = lv /\ (Start p = x \/ End_ p = x)) /\
  (k = pairLinkPipe <-> exists p, p ∈ placed /\ Level p = lv /\ (Start p < x < End_ p)%nat).
Proof.
  intros Hok Hall Hk. rewrite Forall_forall in Hall.
  assert (Hcov : forall p, p ∈ placed -> Start p = x \/ End_ p = x \/ (Start p < x < End_ p)%nat -> covers p x).
  { intros p Hp Hx. apply Hall in Hp. unfold covers. lia. }
  apply marks_lookup in Hk as [(p & Hp & Hc & <- & ->)|[Hno Hk]].
  - assert (Huniq : forall q, q ∈ placed -> Level q = Level p -> Start q = x \/ End_ q = x \/ (Start q < x < End_ q)%nat -> q = p).
    { intros q Hq Hl Hx. apply (same_column_apart _ _ _ _ x Hok); auto. }
    unfold mark, covers in *. case_decide as Hd; split; split; try done.
    + intros _. exists p. naive_solver.
    + intros (q & Hq & Hl & Hx). rewrite (Huniq q Hq Hl) in Hx by auto. lia.
    + intros (q & Hq & Hl & Hx). rewrite (Huniq q Hq Hl) in Hx by naive_solver. naive_solver.
    + intros _. exists p. split_and!; [done..|lia|lia].
  - apply lookup_replicate in Hk as [-> _]. split; (split; [done|]); intros (q & Hq & Hl & Hx);
      destruct (Hno q Hq); auto; apply Hcov; naive_solver.
Qed.

Lemma annotations_made records start end_ pairs mx :
  buildSessionPairs records = (pairs, mx) ->
  exists ann, buildVisiblePairAnnotations start end_ pairs mx = Some ann /\ length ann = (end_ - start)%nat.
Proof.
  intros Hb. destruct (pairs_sorted _ _ _ Hb) as [Hsort Hok].
  unfold buildVisiblePairAnnotations. case_decide as Hd; [eexists; split; [done|apply length_replicate]|].
  destruct (draw_pairs_spec start end_ mx pairs (replicate (end_ - start) (replicate mx pairLinkNone)))
    as (ann & -> & Hlen & _); [lia|apply length_replicate| |done..|].
  - apply Forall_replicate, length_replicate.
  - rewrite length_replicate in Hlen. eauto.
Qed.

(** For any records and any window of lines, drawing the pairs reads and writes
    within range, and the columns of every visible line say which pairs cross it: a
    dot exactly where a pair of that column begins or ends, a bar exactly strictly
    between, and nothing elsewhere. *)
Theorem pairs_drawn records start end_ pairs mx :
  buildSessionPairs records = (pairs, mx) ->
  exists ann, buildVisiblePairAnnotations start end_ pairs mx = Some ann /\ length ann = (end_ - start)%nat /\
  forall i l, ann !! i = Some l -> length l = mx /\
  forall lv k, l !! lv = Some k ->
    (k = pairLinkDot <-> exists p, p ∈ pairs /\ Level p = lv /\ (Start p = start + i \/ End_ p = start + i)%nat) /\
    (k = pairLinkPipe <-> exists p, p ∈ pairs /\ Level p = lv /\ (Start p < start + i < End_ p)%nat).
Proof.
  intros Hb. destruct (pairs_sorted _ _ _ Hb) as [Hsort Hok]. pose proof (pairs_none _ _ _ Hb) as Hnone.
  apply buildSessionPairs_placed in Hb as (_ & ends & Hmx & Hplaced). unfold buildVisiblePairAnnotations. case_decide as Hd.
  - eexists. split; [done|]. split; [apply length_replicate|]. intros i l [-> Hi]%lookup_replicate.
    split; [cbn; destruct Hd as [?|[?|?]]; [symmetry; auto|done|lia]|]. by intros lv k.
  - destruct (draw_pairs_spec start end_ mx pairs (replicate (end_ - start) (replicate mx pairLinkNone)))
      as (ann & -> & Hlen & Hann); [lia|apply length_replicate| |done..|].
    { apply Forall_replicate, length_replicate. }
    rewrite length_replicate in Hlen. exists ann. split_and!; [done..|]. intros i l Hl.
    rewrite (Hann i (replicate mx pairLinkNone)) in Hl.
    + simplify_eq. rewrite length_marks, length_replicate. split; [done|]. intros lv k Hk. by eapply marks_exact.
    + apply lookup_replicate. split; [done|]. apply lookup_lt_Some in Hl. lia.
Qed.

(** ** On a list of records *)

Definition demo_record (e k : string) : displayRecord := 
  {| Endpoint := str e; Timestamp := 0; SessionKey := str k; Provider := []; Model := []; Summary := []; Detail := [] |}.

(** Two overlapping sessions, then a third; a response nobody asked for. *)
Definition demo_records : list displayRecord :=
  [demo_record "http_request" "a"; demo_record "http_request" "b"; demo_record "exec" "a";
   demo_record "http_response" "a"; demo_record "http_response" "b"; demo_record "http_response" "b";
   demo_record "http_request" "c"; demo_record "http_response" "c"].

Definition demo_pairs : list pairInterval :=
  [{| Start := 0; End_ := 3; Level := 0 |}; {| Start := 1; End_ := 4; Level := 1 |}; {| Start := 6; End_ := 7; Level := 0 |}].

Lemma pairs_exact_witness :
  buildSessionPairs demo_records = (demo_pairs, 2%nat) /\ (exists p, p ∈ demo_pairs /\ Start p = 1%nat /\ End_ p = 4%nat) /\
  matched demo_records 1 4.
Proof.
  split; [reflexivity|]. split; [exists {| Start := 1; End_ := 4; Level := 1 |}; set_solver|].
  apply (pairs_exact demo_records demo_pairs 2 eq_refl). exists {| Start := 1; End_ := 4; Level := 1 |}. set_solver.
Defined.

Lemma columns_optimal_witness :
  buildSessionPairs demo_records = (demo_pairs, 2%nat) /\ forall p, p ∈ demo_pairs -> (Level p < 2)%nat.
Proof. split; [reflexivity|]. exact (proj1 (proj2 (columns_optimal demo_records demo_pairs 2 Level eq_refl))). Defined.

Lemma pairs_drawn_witness :
  buildVisiblePairAnnotations 2 5 demo_pairs 2 =
    Some [[pairLinkPipe; pairLinkPipe]; [pairLinkDot; pairLinkPipe]; [pairLinkNone; pairLinkDot]] /\
  exists ann, buildVisiblePairAnnotations 2 5 demo_pairs 2 = Some ann /\ length ann = 3%nat.
Proof.
  split; [reflexivity|]. destruct (pairs_drawn demo_records 2 5 demo_pairs 2 eq_refl) as (ann & H1 & H2 & _).
  exists ann. exact (conj H1 H2).
Defined.
