(* ===== verification/Dashboard.v ===== *)
(** The dashboard: [export/sink_jsonl.go], [tui/stream.go] and the state of
    [tui/model.go].

    The exporter appends one line of JSON per record to a file; the terminal
    interface looks at the file four times a second, takes the new bytes, and turns
    each complete line into a record on display.  Records are kept per tab in the
    order of their times, the newest [maxEventsPerTab] of them; keys move the
    selection and the window of the list.

    JSON is a parameter: what [json.Marshal] makes of a record, and the function
    [parseJSONLRecord] of [tui/format.go] that reads a line; [Format] has both.  So is the rendering of
    text on the screen ([lipgloss] and the [viewport] of [bubbles]).  An index out of
    range is a panic, the [None] of the methods of the model. *)

From S2P Require Import Prelude GoStd Pairs.

(** ** [export/sink_jsonl.go] *)
Module Jsonl.
Section Jsonl.
Context {event : Type}.

Record JSONLRecord := {
  Endpoint : list Z;
  Timestamp : Z;
  Event : event;
}.

(** Whether there is a file, and an encoder, with the error it keeps once a write
    has failed. *)
Record JSONLSink := { file : bool; enc : option bool }.

(** [json.Marshal], and how many bytes of a write the file system takes. *)
Context (Marshal : JSONLRecord -> option (list Z)) (accepts : list Z -> list Z -> nat).

(** [Encode] of [encoding/json]: the line is written with one write; a failed write
    may leave a part of it. *)
Definition Encode (record : JSONLRecord) (failed : bool) (contents : list Z) : bool * (bool * list Z) :=
  if failed then (false, (true, contents))
  else match Marshal record with
  | None => (false, (false, contents))
  | Some b =>
      let data := b ++ [10] in
      let n := accepts contents data in
      if decide (length data <= n)%nat then (true, (false, contents ++ data))
      else (false, (true, contents ++ take n data))
  end.

(** The loop over the events. *)
Fixpoint encode_events (endpoint : list Z) (now : Z) (events : list event) (failed : bool) (contents : list Z)
    : bool * (bool * list Z) :=
  match events with
  | [] => (true, (failed, contents))
  | e :: events' =>
      let '(ok, (failed, contents)) :=
        Encode {| Endpoint := endpoint; Timestamp := now; Event := e |} failed contents in
      if ok then encode_events endpoint now events' failed contents else (false, (failed, contents))
  end.

(** Whether the batch was written; the sink and the contents of its file. *)
Definition WriteBatch (endpoint : list Z) (now : Z) (events : list event) (s : JSONLSink) (contents : list Z)
    : bool * (JSONLSink * list Z) :=
  match file s, enc s with
  | true, Some failed =>
      let '(ok, (failed, contents)) := encode_events endpoint now events failed contents in
      (ok, ({| file := true; enc := Some failed |}, contents))
  | _, _ => (false, (s, contents))
  end.

Definition Close (s : JSONLSink) : JSONLSink := if file s then {| file := false; enc := None |} else s.

End Jsonl.
End Jsonl.

(** ** [tui/stream.go] *)
Module Tail.
Section Tail.
Context {error : Type} (parseJSONLRecord : list Z -> error + displayRecord).

Inductive Msg := batchMsg (records : list displayRecord) | tailErrMsg (err : error).

(** The variables of the loop of [streamFile]. *)
Record tail := { offset : nat; partial : list Z }.

Definition start_tail : tail := {| offset := 0; partial := [] |}.

(** What [os.Stat] says of the file. *)
Inductive stat := NotExist | StatError (err : error) | Size (n : nat).

(** What is behind [offset] in the contents [os.Open] finds. *)
Definition readChunk (contents : error + list Z) (offset : nat) : error + list Z :=
  match contents with
  | inl err => inl err
  | inr c => inr (drop offset c)
  end.

(** The loop over the complete lines: the errors that are sent, and the records. *)
Fixpoint parse_lines (lines : list (list Z)) : list Msg * list displayRecord :=
  match lines with
  | [] => ([], [])
  | line :: lines' =>
      let line := utf8_TrimSpace line in
      let '(errs, records) := parse_lines lines' in
      match line with
      | [] => (errs, records)
      | _ =>
          match parseJSONLRecord line with
          | inl err => (tailErrMsg err :: errs, records)
          | inr record => (errs, record :: records)
          end
      end
  end.

(** The body of the loop at a tick: the messages it sends. *)
Definition tick (size : stat) (contents : error + list Z) (st : tail) : list Msg * tail :=
  match size with
  | NotExist => ([], st)
  | StatError err => ([tailErrMsg err], st)
  | Size size =>
      let st := if decide (size < offset st)%nat then start_tail else st in
      if decide (size = offset st) then ([], st)
      else match readChunk contents (offset st) with
      | inl err => ([tailErrMsg err], st)
      | inr chunk =>
          let lines := split_on 10 (partial st ++ chunk) in
          let '(errs, records) := parse_lines (removelast lines) in
          (errs ++ (if decide (records = []) then [] else [batchMsg records]),
           {| offset := offset st + length chunk; partial := List.last lines [] |})
      end
  end.

(** The ticks until the context is done: at a tick, or while sending, when [Some n]
    messages of the tick were still sent. *)
Fixpoint streamFile (ticks : list (stat * (error + list Z) * option nat)) (st : tail) : list Msg :=
  match ticks with
  | [] => []
  | (size, contents, cancelled) :: ticks' =>
      let '(msgs, st) := tick size contents st in
      match cancelled with
      | Some n => if decide (n < length msgs)%nat then take n msgs else msgs ++ streamFile ticks' st
      | None => msgs ++ streamFile ticks' st
      end
  end.

End Tail.
Arguments Msg : clear implicits.
Arguments stat : clear implicits.
End Tail.

(** ** [tui/model.go] *)
Module Tabs.

Definition maxEventsPerTab : Z := 4096.
Definition maxEPSWindow : Z := 512.
Definition listScrollOff : Z := 3.
Definition allTab : list Z := str "all".

Definition tabOrder : list (list Z) :=
  allTab :: (str <$> ["exec_event"; "tcp_connect"; "http_request"; "http_response"; "file_op"; "mcp_stdio";
                      "pg_event"; "agent_event"]).

Definition spinnerFrames : Z := 4.

Record sessionPairCache := {
  pairs : list pairInterval;
  maxLevel : nat;
  recordCount : nat;
  valid : bool;
}.

(** The value of a Go map at a key. *)
Definition get {A} (d : A) (m : gmap (list Z) A) (k : list Z) : A := default d (m !! k).

(** The scrolled text of package [viewport]. *)
Class Viewport := {
  viewport : Type;
  resize : Z -> Z -> viewport -> viewport;
  SetContent : list Z -> viewport -> viewport;
  GotoTop : viewport -> viewport;
  GotoBottom : viewport -> viewport;
  ScrollDown : viewport -> viewport;
  ScrollUp : viewport -> viewport;
}.

Section Tabs.
Context {error : Type} `{Viewport}.

(** [path] and [stream] do not change. *)
Record model := {
  width : Z;
  height : Z;
  recordsByTab : gmap (list Z) (list displayRecord);
  selectedByTab : gmap (list Z) Z;
  listStartByTab : gmap (list Z) Z;
  tabIndex : nat;
  totalEvents : Z;
  eventTimes : list Z;
  showDetail : bool;
  detailViewport : viewport;
  allTabPairs : sessionPairCache;
  confirmQuit : bool;
  spinnerIndex : Z;
  err : option error;
}.

Definition set_size w h m : model :=
  let 'Build_model _ _ rs ss ls t n es d v p c i x := m in Build_model w h rs ss ls t n es d v p c i x.
Definition set_lists rs ss ls m : model :=
  let 'Build_model w h _ _ _ t n es d v p c i x := m in Build_model w h rs ss ls t n es d v p c i x.
Definition set_tab t d m : model :=
  let 'Build_model w h rs ss ls _ n es _ v p c i x := m in Build_model w h rs ss ls t n es d v p c i x.
Definition set_events n es m : model :=
  let 'Build_model w h rs ss ls t _ _ d v p c i x := m in Build_model w h rs ss ls t n es d v p c i x.
Definition set_viewport v m : model :=
  let 'Build_model w h rs ss ls t n es d _ p c i x := m in Build_model w h rs ss ls t n es d v p c i x.
Definition set_pairs p m : model :=
  let 'Build_model w h rs ss ls t n es d v _ c i x := m in Build_model w h rs ss ls t n es d v p c i x.
Definition set_quit c m : model :=
  let 'Build_model w h rs ss ls t n es d v p _ i x := m in Build_model w h rs ss ls t n es d v p c i x.
Definition set_spinner i m : model :=
  let 'Build_model w h rs ss ls t n es d v p c _ x := m in Build_model w h rs ss ls t n es d v p c i x.
Definition set_err x m : model :=
  let 'Build_model w h rs ss ls t n es d v p c i _ := m in Build_model w h rs ss ls t n es d v p c i x.

Definition start_model (v : viewport) : model := {|
  width := 0; height := 0; recordsByTab := ∅; selectedByTab := ∅; listStartByTab := ∅; tabIndex := 0;
  totalEvents := 0; eventTimes := []; showDetail := false; detailViewport := v;
  allTabPairs := {| pairs := []; maxLevel := 0; recordCount := 0; valid := false |};
  confirmQuit := false; spinnerIndex := 0; err := None |}.

(** Styles of [lipgloss]: the frame of the box, the lines of text around the list, a
    title line, and text wrapped to a width. *)
Context (horizontalFrame verticalFrame : Z) (chromeHeight : model -> Z)
  (title : displayRecord -> list Z) (wrap : Z -> list Z -> list Z).

Definition currentTab (m : model) : option (list Z) := tabOrder !! tabIndex m.
Definition records_of (m : model) (tab : list Z) : list displayRecord := get [] (recordsByTab m) tab.
Definition currentRecords (m : model) : option (list displayRecord) := records_of m <$> currentTab m.

(** *** Records *)

(** The clamps of [appendRecord] behind the insertion. *)
Definition clamp_selected (selected len : Z) : Z := Z.max 0 (if len <=? selected then len - 1 else selected).
Definition clamp_start (listStart len : Z) : Z :=
  let maxStart := Z.max 0 (len - 1) in Z.max 0 (if maxStart <? listStart then maxStart else listStart).

Definition appendRecord (tab : list Z) (record : displayRecord) (m : model) : model :=
  let records := records_of m tab in
  let selected := get 0 (selectedByTab m) tab in
  let listStart := get 0 (listStartByTab m) tab in
  let insertAt := Search (length records) (fun i =>
    match records !! i with Some r => Timestamp record <? Timestamp r | None => false end) in
  let records := Insert records insertAt record in
  let len := Z.of_nat (length records) in
  let selected := if (1 <? len) && (Z.of_nat insertAt <=? selected) then selected + 1 else selected in
  let listStart := if (1 <? len) && (Z.of_nat insertAt <=? listStart) then listStart + 1 else listStart in
  let dropped := if maxEventsPerTab <? len then len - maxEventsPerTab else 0 in
  let records := drop (Z.to_nat dropped) records in
  let len := Z.of_nat (length records) in
  let m' := set_lists (<[tab := records]> (recordsByTab m))
              (<[tab := clamp_selected (selected - dropped) len]> (selectedByTab m))
              (<[tab := clamp_start (listStart - dropped) len]> (listStartByTab m)) m in
  if decide (tab = allTab) then
    let c := allTabPairs m in
    set_pairs {| pairs := pairs c; maxLevel := maxLevel c; recordCount := recordCount c; valid := false |} m'
  else m'.

Definition refreshAllTabPairCache (m : model) : model :=
  let '(ps, mx) := buildSessionPairs (records_of m allTab) in
  set_pairs {| pairs := ps; maxLevel := mx; recordCount := length (records_of m allTab); valid := true |} m.

Definition allTabSessionPairs (m : model) : list pairInterval * nat :=
  let c := allTabPairs m in
  if valid c && (recordCount c =? length (records_of m allTab))%nat then (pairs c, maxLevel c)
  else buildSessionPairs (records_of m allTab).

(** *** Details of the selected record *)

Definition normalizedDetail (detail : list Z) : list Z :=
  let detail := utf8_TrimSpace detail in if decide (detail = []) then str "{}" else detail.

Definition currentDetailContent (m : model) : option (list Z) :=
  tab ← currentTab m;
  let records := records_of m tab in
  if decide (records = []) then Some []
  else
    let i := get 0 (selectedByTab m) tab in
    if i <? 0 then None
    else record ← records !! Z.to_nat i; Some (title record ++ [10] ++ normalizedDetail (Detail record)).

Definition panelContentWidth (m : model) : Z := Z.max 1 (width m - horizontalFrame).

(** The height of the body; the header shows the frame of the spinner. *)
Definition computeLayout (m : model) : option Z :=
  if (spinnerIndex m <? 0) || (spinnerFrames <=? spinnerIndex m) then None
  else Some (if height m <=? 0 then 1 else Z.max 1 (height m - chromeHeight m)).

Definition syncDetailViewport (resetScroll : bool) (m : model) : option model :=
  bodyHeight ← computeLayout m;
  content ← currentDetailContent m;
  let vp := SetContent (wrap (panelContentWidth m) content)
              (resize (Z.max 1 (width m)) (Z.max 1 bodyHeight) (detailViewport m)) in
  Some (set_viewport (if resetScroll then GotoTop vp else vp) m).

(** *** Selection and window *)

Definition set_selected (tab : list Z) (i : Z) (m : model) : model :=
  set_lists (recordsByTab m) (<[tab := i]> (selectedByTab m)) (listStartByTab m) m.

Definition moveSelection (delta : Z) (m : model) : option model :=
  records ← currentRecords m;
  if decide (records = []) then Some m
  else
    tab ← currentTab m;
    let next := Z.max 0 (get 0 (selectedByTab m) tab + delta) in
    let len := Z.of_nat (length records) in
    let next := if len <=? next then len - 1 else next in
    syncDetailViewport true (set_selected tab next m).

Definition moveSelectionToBottom (m : model) : option model :=
  records ← currentRecords m;
  if decide (records = []) then Some m
  else tab ← currentTab m; syncDetailViewport true (set_selected tab (Z.of_nat (length records) - 1) m).

(** The window of [height] lines that starts at [start], moved so that [selected] is
    in it, [listScrollOff] lines from its ends where that is possible. *)
Definition scroll (total height selected start : Z) : Z :=
  let maxStart := Z.max 0 (total - height) in
  let start := if maxStart <? start then maxStart else start in
  let start := if start <? 0 then 0 else start in
  let scrolloff := Z.min listScrollOff (Z.max 0 (height - 1)) in
  let start := if selected <? start + scrolloff then Z.max 0 (selected - scrolloff) else start in
  let lowerBound := start + height - 1 - scrolloff in
  if lowerBound <? selected then Z.min maxStart (selected - (height - 1 - scrolloff)) else start.

Definition adjustListStart (total height selected : Z) (m : model) : option (Z * model) :=
  tab ← currentTab m;
  let start := if (total <=? 0) || (height <=? 0) then 0
               else scroll total height selected (get 0 (listStartByTab m) tab) in
  Some (start, set_lists (recordsByTab m) (selectedByTab m) (<[tab := start]> (listStartByTab m)) m).

(** *** Update *)

Inductive Msg :=
  | WindowSizeMsg (w h : Z)
  | KeyMsg (key : list Z)
  | spinnerTickMsg
  | streamMsg (msg : Tail.Msg error)
  | streamClosedMsg.

Inductive Cmd := NoCmd | Quit | tickSpinner | waitForStream.

Definition batch_record (m : model) (record : displayRecord) : model :=
  let times := eventTimes m ++ [Timestamp record] in
  let len := Z.of_nat (length times) in
  let times := if maxEPSWindow <? len then drop (Z.to_nat (len - maxEPSWindow)) times else times in
  appendRecord (Endpoint record) record
    (appendRecord allTab record (set_events (totalEvents m + 1) times m)).

(** One of the listed keys. *)
Definition key_in (key : list Z) (names : list string) : bool := bool_decide (key ∈ str <$> names).

Definition press (key : list Z) (m : model) : option (model * Cmd) :=
  if confirmQuit m then
    if key_in key ["ctrl+c"; "y"; "Y"; "enter"] then Some (m, Quit)
    else if key_in key ["q"; "Q"; "n"; "N"; "esc"] then Some (set_quit false m, NoCmd)
    else Some (m, NoCmd)
  else if key_in key ["ctrl+c"] then Some (m, Quit)
  else
    m ← (if key_in key ["q"] then Some (set_quit true m)
    else if key_in key ["tab"; "l"] then
      syncDetailViewport true (set_tab ((tabIndex m + 1) mod length tabOrder)%nat false m)
    else if key_in key ["shift+tab"; "h"] then
      syncDetailViewport true
        (set_tab (Z.to_nat (Z.rem (Z.of_nat (tabIndex m) - 1 + Z.of_nat (length tabOrder)) (Z.of_nat (length tabOrder)))) false m)
    else if key_in key ["j"; "down"] then
      if showDetail m then Some (set_viewport (ScrollDown (detailViewport m)) m) else moveSelection 1 m
    else if key_in key ["k"; "up"] then
      if showDetail m then Some (set_viewport (ScrollUp (detailViewport m)) m) else moveSelection (-1) m
    else if key_in key ["G"; "end"] then
      if showDetail m then Some (set_viewport (GotoBottom (detailViewport m)) m) else moveSelectionToBottom m
    else if key_in key ["g"; "home"] then
      Some (if showDetail m then set_viewport (GotoTop (detailViewport m)) m else m)
    else if key_in key ["v"; "enter"] then
      records ← currentRecords m;
      if decide (records = []) then Some m
      else syncDetailViewport true (set_tab (tabIndex m) (negb (showDetail m)) m)
    else Some m);
    Some (m, NoCmd).

Definition Update (msg : Msg) (m : model) : option (model * Cmd) :=
  match msg with
  | WindowSizeMsg w h => m ← syncDetailViewport false (set_size w h m); Some (m, NoCmd)
  | KeyMsg key => press key m
  | spinnerTickMsg => Some (set_spinner (Z.rem (spinnerIndex m + 1) spinnerFrames) m, tickSpinner)
  | streamMsg (Tail.batchMsg records) =>
      let m := refreshAllTabPairCache (foldl batch_record m records) in
      m ← syncDetailViewport false m; Some (m, waitForStream)
  | streamMsg (Tail.tailErrMsg e) => Some (set_err (Some e) m, waitForStream)
  | streamClosedMsg => Some (m, NoCmd)
  end.

Fixpoint run_model (msgs : list Msg) (m : model) : option model :=
  match msgs with
  | [] => Some m
  | msg :: msgs' => '(m, _) ← Update msg m; run_model msgs' m
  end.

(** *** View *)

(** A line of the list: its record, its columns of pairs, whether it is selected. *)
Definition shown : Type := displayRecord * line * bool.

(** The loop over the lines from [i] on, for [n] steps. *)
Fixpoint list_lines (records : list displayRecord) (annotations : list line) (selected : Z) (start i n : nat)
    : option (list shown) :=
  match n with
  | O => Some []
  | S n =>
      record ← records !! i;
      annotation ← annotations !! (i - start)%nat;
      rest ← list_lines records annotations selected start (S i) n;
      Some ((record, annotation, Z.of_nat i =? selected) :: rest)
  end.

(** The receiver is a copy of the model, but the map of the starts is shared, so the
    start that [adjustListStart] stores is kept. *)
Definition renderList (h : Z) (m : model) : option (list shown * model) :=
  tab ← currentTab m;
  let records := records_of m tab in
  let contentHeight := Z.max 1 (h - verticalFrame) in
  if decide (records = []) then Some ([], m)
  else
    let selected := get 0 (selectedByTab m) tab in
    let total := Z.of_nat (length records) in
    '(start, m) ← adjustListStart total contentHeight selected m;
    let end_ := Z.min total (start + contentHeight) in
    if (start <? 0) || (end_ <? start) then None
    else
      annotations ← (if decide (tab = allTab) then
        let '(ps, mx) := allTabSessionPairs m in buildVisiblePairAnnotations (Z.to_nat start) (Z.to_nat end_) ps mx
      else Some (replicate (Z.to_nat (end_ - start)) []));
      lines ← list_lines records annotations selected (Z.to_nat start) (Z.to_nat start) (Z.to_nat (end_ - start));
      Some (lines, m).

Inductive screen := Loading | DetailScreen (vp : viewport) | ListScreen (lines : list shown) | QuitScreen.

Definition View (m : model) : option (screen * model) :=
  if (width m =? 0) || (height m =? 0) then Some (Loading, m)
  else
    bodyHeight ← computeLayout m;
    '(s, m) ← (if showDetail m then
      Some (DetailScreen (resize (Z.max 1 (width m)) (Z.max 1 bodyHeight) (detailViewport m)), m)
    else '(lines, m) ← renderList bodyHeight m; Some (ListScreen lines, m));
    Some (if confirmQuit m then QuitScreen else s, m).

End Tabs.
End Tabs.
