(* ===== verification/DashboardTheorems.v ===== *)
(** The dashboard: theorems.

    Whatever the ticks of the reader see of the growing file, every complete line
    becomes a record once and in order, and each tab shows the newest of its records
    in the order of their times.  The model has an invariant that every message and
    every view keep, under which no index is out of range; the selected record is
    always on the screen. *)

From stdpp Require Import sorting.
From S2P Require Import Prelude GoStd Pairs Dashboard.

(** ** Lines *)

Definition lines (c : list Z) : list (list Z) := removelast (split_on 10 c).
Definition rest (c : list Z) : list Z := List.last (split_on 10 c) [].

Lemma split_on_nonempty c s : split_on c s <> [].
Proof. destruct s as [|x s]; simpl; [done|]. repeat case_match; done. Qed.

(** Text that arrives in two parts is split as if it had arrived at once. *)
Lemma split_on_parts c a b :
  split_on c (a ++ b) = removelast (split_on c a) ++ split_on c (List.last (split_on c a) [] ++ b).
Proof.
  induction a as [|x a IH]; [done|]. cbn [app split_on]. rewrite IH. clear IH.
  pose proof (split_on_nonempty c a). destruct (split_on c a) as [|p [|q ps]]; [done|..]; destruct (x =? c) eqn:E;
    cbn [removelast List.last app split_on]; rewrite ?E; done.
Qed.

Lemma lines_app a b : lines (a ++ b) = lines a ++ removelast (split_on 10 (rest a ++ b)).
Proof. unfold lines, rest. rewrite split_on_parts. apply removelast_app, split_on_nonempty. Qed.

Lemma rest_app a b : rest (a ++ b) = List.last (split_on 10 (rest a ++ b)) [].
Proof.
  unfold rest at 1. rewrite split_on_parts. fold (rest a).
  destruct (exists_last (split_on_nonempty 10 (rest a ++ b))) as (l & x & ->).
  by rewrite app_assoc, !List.last_last.
Qed.

Lemma lines_line b c : 10 ∉ b -> lines (b ++ 10 :: c) = b :: lines c.
Proof.
  intros Hb. unfold lines. rewrite split_on_app by done. pose proof (split_on_nonempty 10 c).
  by destruct (split_on 10 c).
Qed.

(** ** The reader *)
Section Reader.
Context {error : Type} (parse : list Z -> error + displayRecord).
Import Tail.

Definition parsed (line : list Z) : option displayRecord :=
  let line := utf8_TrimSpace line in
  if decide (line = []) then None else match parse line with inl _ => None | inr r => Some r end.

Definition records_in (m : Msg error) : list displayRecord :=
  match m with batchMsg records => records | tailErrMsg _ => [] end.

Lemma parse_lines_spec ls :
  (parse_lines parse ls).1 ≫= records_in = [] /\ (parse_lines parse ls).2 = omap parsed ls.
Proof.
  induction ls as [|l ls [IH1 IH2]]; [done|]. cbn [parse_lines omap list_omap]. unfold parsed at 1.
  destruct (parse_lines parse ls) as [errs records]. simpl in IH1, IH2. subst records.
  destruct (utf8_TrimSpace l) as [|x t]; [done|]. rewrite decide_False by done. by destruct (parse (x :: t)).
Qed.

(** The contents at the time of [os.Stat] and of [os.Open]. *)
Definition stat_of (c : list Z) (s : stat error) : Prop :=
  match s with NotExist => c = [] | StatError _ => True | Size n => n = length c end.
Definition read_of (c : list Z) (r : error + list Z) : Prop :=
  match r with inl _ => True | inr c' => c' = c end.

(** The file grows from [c], and the ticks see it at two times each. *)
Inductive observed : list Z -> list (stat error * (error + list Z)) -> list Z -> Prop :=
  | observed_end c c' : c `prefix_of` c' -> observed c [] c'
  | observed_tick c c1 c2 c' s r obs :
      c `prefix_of` c1 -> c1 `prefix_of` c2 -> stat_of c1 s -> read_of c2 r ->
      observed c2 obs c' -> observed c ((s, r) :: obs) c'.

Fixpoint run_ticks (obs : list (stat error * (error + list Z))) (st : tail) : list (Msg error) * tail :=
  match obs with
  | [] => ([], st)
  | (s, r) :: obs' =>
      let '(msgs, st) := tick parse s r st in
      let '(msgs', st) := run_ticks obs' st in (msgs ++ msgs', st)
  end.

Definition tail_at (seen : list Z) : tail := {| offset := length seen; partial := rest seen |}.

(** A tick takes what is new in the file, or nothing. *)
Lemma tick_spec seen c1 c2 s r :
  seen `prefix_of` c1 -> c1 `prefix_of` c2 -> stat_of c1 s -> read_of c2 r ->
  exists new, tick parse s r (tail_at seen) = ((tick parse s r (tail_at seen)).1, tail_at (seen ++ new)) /\
    seen ++ new `prefix_of` c2 /\
    (tick parse s r (tail_at seen)).1 ≫= records_in = omap parsed (removelast (split_on 10 (rest seen ++ new))) /\
    (s = Size (length c1) -> r = inr c2 -> c1 = c2 -> seen ++ new = c2).
Proof.
  assert (removelast (split_on 10 (rest seen ++ [])) = []) as Hnone.
  { pose proof (lines_app seen []) as E. rewrite app_nil_r in E. apply (f_equal length) in E.
    rewrite length_app in E. apply length_zero_iff_nil. lia. }
  intros H1 H2 Hs Hr. assert (seen `prefix_of` c2) as H12 by by etrans. destruct s as [|e|n]; cbn [tick].
  - exists []. rewrite Hnone, app_nil_r. done.
  - exists []. rewrite Hnone, app_nil_r. done.
  - cbn in Hs. subst n. pose proof (prefix_length _ _ H1). cbn [tail_at offset partial].
    rewrite !(decide_False (P := (length c1 < length seen)%nat)) by lia. case_decide as Hn; cbn [tail_at offset partial] in *.
    + exists []. rewrite Hnone, app_nil_r. split_and!; [done..|]. intros _ _ ->. symmetry.
      destruct H1 as [t ->]. rewrite length_app in Hn. destruct t; [by rewrite app_nil_r|simpl in Hn; lia].
    + destruct r as [e|c]; cbn [readChunk]; [exists []; rewrite Hnone, app_nil_r; done|]. cbn in Hr. subst c.
      destruct H12 as [new ->]. exists new. rewrite drop_app_length.
      destruct (parse_lines_spec (removelast (split_on 10 (rest seen ++ new)))) as [E1 E2].
      destruct (parse_lines parse _) as [errs records]. simpl in E1, E2. subst records. cbn [fst].
      split_and!; [|done| |done].
      * unfold tail_at. by rewrite length_app, rest_app.
      * rewrite bind_app, E1. case_decide as Hd; [by rewrite Hd|]. simpl. by rewrite app_nil_r.
Qed.

(** All ticks together take a part of the file from its beginning; all of it when
    the last tick finds the file at rest. *)
Lemma run_ticks_spec obs : forall seen c c',
  observed c obs c' -> seen `prefix_of` c -> exists all, run_ticks obs (tail_at seen) = ((run_ticks obs (tail_at seen)).1, tail_at all) /\
    all `prefix_of` c' /\ omap parsed (lines seen) ++ ((run_ticks obs (tail_at seen)).1 ≫= records_in) = omap parsed (lines all) /\
    (last obs = Some (Size (length c'), inr c') -> all = c').
Proof.
  induction obs as [|[s r] obs IH]; intros seen c c' Hobs Hseen.
  - inversion Hobs; subst. exists seen. rewrite app_nil_r. split_and!; [done|by etrans|done|done].
  - inversion Hobs as [|? c1 c2 ? ? ? ? Hc1 Hc2 Hs Hr Ho]; subst.
    destruct (tick_spec seen c1 c2 s r) as (new & E & Hp & Hm & Hall); [by etrans|done..|].
    cbn [run_ticks]. revert E Hm. destruct (tick parse s r (tail_at seen)) as [msgs st']. cbn [fst]. intros [= ->] Hm.
    destruct (IH (seen ++ new) c2 c') as (all & E' & Hp' & Hm' & Hall'); [done..|]. revert E' Hm'.
    destruct (run_ticks obs (tail_at (seen ++ new))) as [msgs' st''] eqn:Er. cbn [fst]. intros [= ->] Hm'.
    exists all. split_and!; [done..| |].
    + rewrite <- Hm', bind_app, Hm, app_assoc, lines_app, omap_app. done.
    + destruct obs as [|o obs]; [|done]. simpl. intros [= -> ->]. cbn in Hs, Hr, Er. subst c2.
      apply prefix_length_eq; [done|]. injection Er as _ Hlen _. rewrite <- Hlen, Hall; [done..|by rewrite Hs|done|].
      apply prefix_length_eq; [done|lia].
Qed.

(** A cancelled stream has sent the beginning of it. *)
Lemma streamFile_prefix ticks : forall st,
  streamFile parse ticks st `prefix_of` (run_ticks (fst <$> ticks) st).1 /\
  (Forall (fun t => t.2 = None) ticks -> streamFile parse ticks st = (run_ticks (fst <$> ticks) st).1).
Proof.
  induction ticks as [|[[s r] cancelled] ticks IH]; intros st; [done|]. cbn [streamFile fmap list_fmap run_ticks fst].
  destruct (tick parse s r st) as [msgs st']. specialize (IH st') as [IH1 IH2].
  destruct (run_ticks (fst <$> ticks) st') as [msgs' st'']. cbn [fst] in *. split.
  - destruct cancelled as [n|]; [case_decide|]; try by apply prefix_app.
    etrans; [apply prefix_take|]. by exists msgs'.
  - intros [Hc Ht]%Forall_cons. simpl in Hc. subst. f_equal. auto.
Qed.

End Reader.

(** ** The file *)
Section File.
Context {event : Type}.
Import Jsonl.
Context (Marshal : @JSONLRecord event -> option (list Z)) (accepts : list Z -> list Z -> nat).

(** [json.Marshal] of a structure is an object on one line. *)
Class OneLine : Prop := {
  marshal_line r b : Marshal r = Some b -> 10 ∉ b;
  marshal_braces r b : Marshal r = Some b -> exists m, b = 123 :: m ++ [125];
}.

Definition record_of (endpoint : list Z) (now : Z) (e : event) : JSONLRecord :=
  {| Endpoint := endpoint; Timestamp := now; Event := e |}.

Definition open_sink : JSONLSink := {| file := true; enc := Some false |}.

(** Batches written one after the other: whether all went well, and the file. *)
Fixpoint write_batches (batches : list (list Z * Z * list event)) (s : JSONLSink) (contents : list Z)
    : bool * (JSONLSink * list Z) :=
  match batches with
  | [] => (true, (s, contents))
  | (endpoint, now, events) :: batches' =>
      let '(ok, (s, contents)) := WriteBatch Marshal accepts endpoint now events s contents in
      let '(ok', (s, contents)) := write_batches batches' s contents in
      (ok && ok', (s, contents))
  end.

Definition batch_records (batches : list (list Z * Z * list event)) : list JSONLRecord :=
  batches ≫= fun '(endpoint, now, events) => record_of endpoint now <$> events.

(** The lines of the records, and a part of a line where a write failed. *)
Definition holds (failed : bool) (rs : list JSONLRecord) (contents : list Z) : Prop :=
  exists bs part, Forall2 (fun r b => Marshal r = Some b) rs bs /\
    contents = (bs ≫= fun b => b ++ [10]) ++ part /\ 10 ∉ part /\ (failed = false -> part = []).

Lemma Encode_spec `{!OneLine} r failed contents rs ok failed' contents' :
  holds failed rs contents -> Encode Marshal accepts r failed contents = (ok, (failed', contents')) ->
  holds failed' (if ok then rs ++ [r] else rs) contents' /\ (failed = true -> ok = false).
Proof.
  intros (bs & part & Hbs & -> & Hpart & Hf). unfold Encode. destruct failed; [intros [= <- <- <-]; split; [by exists bs, part|done]|].
  rewrite Hf, app_nil_r by done. destruct (Marshal r) as [b|] eqn:E.
  - case_decide as Hn; intros [= <- <- <-]; (split; [|done]).
    + exists (bs ++ [b]), []. rewrite bind_app, app_nil_r. simpl. rewrite app_nil_r.
      split_and!; [apply Forall2_app; auto|done|apply not_elem_of_nil|done].
    + exists bs, (take (accepts (bs ≫= fun b => b ++ [10]) (b ++ [10])) (b ++ [10])). split_and!; [done..| |done].
      rewrite length_app in Hn. cbn in Hn. rewrite take_app_le by lia. intros Hin.
      apply (marshal_line r b E), (elem_of_prefix _ _ _ Hin), prefix_take.
  - intros [= <- <- <-]. split; [|done]. exists bs, []. rewrite app_nil_r. split_and!; [done..|apply not_elem_of_nil|done].
Qed.

(** The records of a batch that are in the file. *)
Lemma encode_events_spec `{!OneLine} endpoint now events : forall failed contents rs ok failed' contents',
  holds failed rs contents ->
  encode_events Marshal accepts endpoint now events failed contents = (ok, (failed', contents')) ->
  exists es, sublist es events /\ (ok = true -> es = events) /\
    holds failed' (rs ++ (record_of endpoint now <$> es)) contents'.
Proof.
  induction events as [|e events IH]; intros failed contents rs ok failed' contents' Hh; cbn [encode_events].
  - intros [= <- <- <-]. exists []. rewrite app_nil_r. done.
  - destruct (Encode _ _ _ failed contents) as [ok1 [f1 c1]] eqn:E.
    apply (Encode_spec _ _ _ rs) in E as [E _]; [|done]. destruct ok1.
    + intros (es & Hs & Hok & Hh')%(IH _ _ _ _ _ _ E). exists (e :: es). split_and!.
      * by apply sublist_skip.
      * intros ->. by rewrite Hok.
      * rewrite <- app_assoc in Hh'. done.
    + intros [= <- <- <-]. exists []. rewrite app_nil_r. split_and!; [apply sublist_nil_l|done|done].
Qed.

Lemma write_batches_spec `{!OneLine} batches : forall failed contents rs ok s' contents',
  holds failed rs contents ->
  write_batches batches {| file := true; enc := Some failed |} contents = (ok, (s', contents')) ->
  exists rs', sublist rs' (batch_records batches) /\ (ok = true -> rs' = batch_records batches) /\
    exists failed', holds failed' (rs ++ rs') contents'.
Proof.
  induction batches as [|[[endpoint now] events] batches IH]; intros failed contents rs ok s' contents' Hh; cbn [write_batches].
  - intros [= <- <- <-]. exists []. rewrite app_nil_r. eauto.
  - unfold WriteBatch. cbn [file enc]. destruct (encode_events _ _ _ _ _ _ _) as [ok1 [f1 c1]] eqn:E.
    apply (encode_events_spec _ _ _ _ _ rs) in E as (es & Hs & Hok & Hh1); [|done].
    destruct (write_batches batches _ c1) as [ok2 [s2 c2]] eqn:E2. intros [= <- <- <-].
    destruct (IH _ _ _ _ _ _ Hh1 E2) as (rs' & Hs' & Hok' & f2 & Hh2).
    exists ((record_of endpoint now <$> es) ++ rs'). unfold batch_records. cbn [mbind list_bind]. split_and!.
    + apply sublist_app; [by apply fmap_sublist|done].
    + intros [H1 H2]%andb_true_iff. by rewrite Hok, Hok'.
    + exists f2. by rewrite app_assoc.
Qed.

Lemma holds_lines `{!OneLine} failed rs contents :
  holds failed rs contents -> exists bs, Forall2 (fun r b => Marshal r = Some b) rs bs /\ lines contents = bs.
Proof.
  intros (bs & part & Hbs & -> & Hpart & _). exists bs. split; [done|].
  induction Hbs as [|r b rs bs Hb _ IH]; [|rewrite bind_cons].
  - unfold lines. by rewrite split_on_single.
  - rewrite <- !app_assoc. cbn [app]. rewrite lines_line by by eapply marshal_line. by rewrite IH.
Qed.

End File.

(** ** Records in the order of their times *)

Definition time_le (a b : displayRecord) : Prop := Timestamp a <= Timestamp b.

#[export] Instance time_le_dec a b : Decision (time_le a b).
Proof. unfold time_le. apply _. Defined.

#[export] Instance time_le_trans : Transitive time_le.
Proof. unfold time_le. intros x y z. lia. Qed.

(** Behind the records that are not later. *)
Fixpoint place (x : displayRecord) (l : list displayRecord) : list displayRecord :=
  match l with
  | [] => [x]
  | y :: l' => if Timestamp x <? Timestamp y then x :: l else y :: place x l'
  end.

(** The last [k] elements. *)
Definition newest {A} (k : nat) (l : list A) : list A := drop (length l - k) l.

Definition in_order (ds : list displayRecord) : list displayRecord := foldl (fun l x => place x l) [] ds.

Lemma place_perm x l : place x l ≡ₚ x :: l.
Proof. induction l as [|y l IH]; simpl; [done|]. case_match; [done|]. rewrite IH. apply Permutation_swap. Qed.

Lemma length_place x l : length (place x l) = S (length l).
Proof. by rewrite (place_perm x l). Qed.

Lemma place_after x a b : Forall (fun y => time_le y x) a -> place x (a ++ b) = a ++ place x b.
Proof.
  induction 1 as [|y a Hy _ IH]; [done|]. simpl. unfold time_le in Hy.
  rewrite (proj2 (Z.ltb_ge _ _)) by lia. by rewrite IH.
Qed.

Lemma place_within x a b : ~ Forall (fun y => time_le y x) a -> place x (a ++ b) = place x a ++ b.
Proof.
  induction a as [|y a IH]; intros Hn; [by destruct Hn|]. simpl. case_match eqn:E; [done|].
  simpl. rewrite IH; [done|]. intros Ha. apply Hn. constructor; [unfold time_le; zbool; lia|done].
Qed.

Lemma place_first x b : Forall (fun y => Timestamp x < Timestamp y) b -> place x b = x :: b.
Proof. destruct 1 as [|y b Hy _]; simpl; [done|]. by rewrite (proj2 (Z.ltb_lt _ _)). Qed.

Lemma place_sorted x l : StronglySorted time_le l -> StronglySorted time_le (place x l).
Proof.
  induction 1 as [|y l Hl IH Hy]; simpl; [by repeat constructor|]. case_match eqn:E; zbool.
  - constructor; [by constructor|]. constructor; [unfold time_le; lia|].
    eapply Forall_impl; [exact Hy|]. unfold time_le. intros. lia.
  - constructor; [done|]. rewrite place_perm. constructor; [unfold time_le; lia|done].
Qed.

Lemma filter_none {A} (P : A -> Prop) `{!forall x, Decision (P x)} l : Forall (fun x => ~ P x) l -> filter P l = [].
Proof. induction 1; [done|]. by rewrite filter_cons_False. Qed.

(** Records of one time stay in the order in which they came. *)
Lemma place_stable t x l : StronglySorted time_le l ->
  filter (fun r => Timestamp r = t) (place x l) =
  filter (fun r => Timestamp r = t) l ++ (if decide (Timestamp x = t) then [x] else []).
Proof.
  induction 1 as [|y l Hl IH Hy]; cbn [place].
  - rewrite filter_cons, filter_nil. by case_decide.
  - destruct (Z.ltb_spec (Timestamp x) (Timestamp y)); [|rewrite !filter_cons, IH; by repeat case_decide].
    rewrite (filter_cons _ x). case_decide as Ht; [|by rewrite app_nil_r].
    assert (filter (fun r => Timestamp r = t) (y :: l) = []) as ->; [|done].
    apply filter_none. constructor; [lia|]. eapply Forall_impl; [exact Hy|]. unfold time_le. intros. lia.
Qed.

Lemma newest_le {A} k (l : list A) : (length l <= k)%nat -> newest k l = l.
Proof. intros. unfold newest. by replace (length l - k)%nat with 0%nat by lia. Qed.

Lemma newest_app {A} k (a b : list A) : length b = k -> newest k (a ++ b) = b.
Proof. intros. unfold newest. rewrite length_app. replace (_ + _ - _)%nat with (length a) by lia. apply drop_app_length. Qed.

Lemma newest_app_r {A} k (a b : list A) : (k <= length b)%nat -> newest k (a ++ b) = newest k b.
Proof.
  intros. unfold newest. rewrite length_app, drop_app_ge by lia. f_equal. lia.
Qed.

Lemma newest_suffix {A} k (l : list A) : exists a, l = a ++ newest k l /\ (a = [] \/ length (newest k l) = k).
Proof.
  exists (take (length l - k) l). split; [unfold newest; by rewrite take_drop|].
  destruct (decide (length l <= k)%nat) as [Hk|Hk].
  - left. by replace (length l - k)%nat with 0%nat by lia.
  - right. unfold newest. rewrite length_drop. lia.
Qed.

(** Keeping the newest and then placing a record is enough. *)
Lemma newest_place k x l : StronglySorted time_le l -> newest k (place x (newest k l)) = newest k (place x l).
Proof.
  intros Hl. destruct (newest_suffix k l) as (a & E & Ha). revert E Ha. generalize (newest k l). intros b -> Ha.
  destruct Ha as [->|Hb]; [done|]. destruct (decide (Forall (fun y => time_le y x) a)) as [Hf|Hf].
  - rewrite place_after by done. rewrite newest_app_r; [done|]. rewrite length_place. lia.
  - rewrite place_within, newest_app by done. rewrite place_first.
    + apply (newest_app k [x]). done.
    + apply StronglySorted_app in Hl as (Hab & _ & _). apply not_Forall_Exists in Hf; [|apply _].
      apply Exists_exists in Hf as (y & Hy & Hxy). apply Forall_forall. intros z Hz.
      pose proof (Hab y z Hy Hz). unfold compose, time_le in *. lia.
Qed.

Lemma in_order_sorted ds : StronglySorted time_le (in_order ds).
Proof.
  unfold in_order. induction ds as [|x ds IH] using rev_ind; [constructor|].
  rewrite foldl_snoc. by apply place_sorted.
Qed.

Lemma in_order_perm ds : in_order ds ≡ₚ ds.
Proof.
  unfold in_order. induction ds as [|x ds IH] using rev_ind; [done|].
  rewrite foldl_snoc, place_perm, IH. apply Permutation_cons_append.
Qed.

Lemma in_order_stable t ds : filter (fun r => Timestamp r = t) (in_order ds) = filter (fun r => Timestamp r = t) ds.
Proof.
  induction ds as [|x ds IH] using rev_ind; [done|]. unfold in_order. rewrite foldl_snoc.
  rewrite place_stable by apply in_order_sorted. unfold in_order in IH. rewrite IH, filter_app, filter_cons, filter_nil. by case_decide.
Qed.

(** The binary search of [appendRecord] finds the place. *)
Definition insert_at (x : displayRecord) (rs : list displayRecord) : nat :=
  Search (length rs) (fun i => match rs !! i with Some r => Timestamp x <? Timestamp r | None => false end).

Lemma insert_at_spec x l : StronglySorted time_le l ->
  (insert_at x l <= length l)%nat /\
  (forall i r, (i < insert_at x l)%nat -> l !! i = Some r -> time_le r x) /\
  Insert l (insert_at x l) x = place x l.
Proof.
  intros Hl. unfold insert_at. set (f := fun i => _). destruct (Search_spec (length l) f) as (Hn & Hlo & Hhi).
  { unfold f. intros a b Hab. destruct (lookup_lt_is_Some_2 l a) as [ra Ha]; [lia|].
    destruct (lookup_lt_is_Some_2 l b) as [rb Hb]; [lia|]. rewrite Ha, Hb. intros Hx. zbool.
    destruct (decide (a = b)) as [->|]; [simplify_eq; by apply Z.ltb_lt|]. apply Z.ltb_lt.
    pose proof (StronglySorted_lookup time_le l a b ra rb Hl Ha Hb ltac:(lia)) as Hr. unfold time_le in Hr. lia. }
  set (k := Search (length l) f) in *. clearbody k.
  assert (forall i r, (i < k)%nat -> l !! i = Some r -> time_le r x) as Hbefore.
  { intros i r Hik Hi. specialize (Hlo i Hik). unfold f in Hlo. rewrite Hi in Hlo. zbool. unfold time_le. lia. }
  split_and!; [done..|]. unfold Insert. rewrite <- (take_drop k l) at 3. rewrite place_after, place_first; [done|..].
  - apply Forall_lookup. intros i r Hi. rewrite lookup_drop in Hi. apply lookup_lt_Some in Hi as Hlt.
    specialize (Hhi (k + i)%nat ltac:(lia)). unfold f in Hhi. rewrite Hi in Hhi. zbool. lia.
  - apply Forall_lookup. intros i r [Hi Hik]%lookup_take_Some. by eapply Hbefore.
Qed.

(** ** The model *)
Section Model.
Context {error : Type} `{Tabs.Viewport}.
Import Tabs.
Context (horizontalFrame verticalFrame : Z) (chromeHeight : @model error _ -> Z)
  (title : displayRecord -> list Z) (wrap : Z -> list Z -> list Z).

Implicit Types m : @model error _.

Notation sync := (syncDetailViewport horizontalFrame chromeHeight title wrap).
Notation update := (Update horizontalFrame chromeHeight title wrap).
Notation view := (View verticalFrame chromeHeight).

(** A tab: its records, the selected one, and the first one on the screen. *)
Record tab_ok (rs : list displayRecord) (selected start : Z) : Prop := {
  tab_sorted : StronglySorted time_le rs;
  tab_short : Z.of_nat (length rs) <= maxEventsPerTab;
  tab_selected : 0 <= selected < Z.max 1 (Z.of_nat (length rs));
  tab_start : 0 <= start < Z.max 1 (Z.of_nat (length rs));
}.

Definition cache_ok (rs : list displayRecord) (c : sessionPairCache) : Prop :=
  valid c = true -> (pairs c, maxLevel c) = buildSessionPairs rs.

Record wf (m : @model error _) : Prop := {
  wf_tab : (tabIndex m < length tabOrder)%nat;
  wf_tabs tab : tab_ok (records_of m tab) (get 0 (selectedByTab m) tab) (get 0 (listStartByTab m) tab);
  wf_cache : cache_ok (records_of m allTab) (allTabPairs m);
  wf_times : Z.of_nat (length (eventTimes m)) <= maxEPSWindow;
  wf_spinner : 0 <= spinnerIndex m < spinnerFrames;
}.

Definition keep : nat := Z.to_nat maxEventsPerTab.

Lemma wf_start (v : viewport) : wf (start_model v).
Proof.
  split; [cbn; lia| |done|cbn; unfold maxEPSWindow; lia|cbn; unfold spinnerFrames; lia].
  intros tab. unfold records_of, get. cbn. rewrite !lookup_empty. cbn.
  split; [constructor|cbn; unfold maxEventsPerTab|cbn..]; lia.
Qed.

Lemma get_insert {A} (d : A) g k k' x : get d (<[k := x]> g) k' = if decide (k' = k) then x else get d g k'.
Proof. unfold get. case_decide; subst; [by rewrite lookup_insert_eq|by rewrite lookup_insert_ne]. Qed.

(** *** Appending a record *)

(** What becomes of an index of the list, before it is clamped. *)
Definition moved (x : displayRecord) (rs : list displayRecord) (i : Z) : Z :=
  (if (1 <? Z.of_nat (S (length rs))) && (Z.of_nat (insert_at x rs) <=? i) then i + 1 else i) -
  Z.max 0 (Z.of_nat (S (length rs)) - maxEventsPerTab).

Lemma length_Insert {A} (l : list A) i x : length (Insert l i x) = S (length l).
Proof. unfold Insert. rewrite length_app, length_take. simpl. rewrite length_drop. lia. Qed.

Lemma length_newest {A} k (l : list A) : length (newest k l) = Nat.min k (length l).
Proof. unfold newest. rewrite length_drop. lia. Qed.

Lemma appendRecord_eq tab x m : StronglySorted time_le (records_of m tab) ->
  let rs := records_of m tab in
  let rs' := newest keep (place x rs) in
  let len := Z.of_nat (length rs') in
  exists c, (valid c = true -> tab <> allTab /\ c = allTabPairs m) /\
  appendRecord tab x m =
    set_pairs c (set_lists (<[tab := rs']> (recordsByTab m))
      (<[tab := clamp_selected (moved x rs (get 0 (selectedByTab m) tab)) len]> (selectedByTab m))
      (<[tab := clamp_start (moved x rs (get 0 (listStartByTab m) tab)) len]> (listStartByTab m)) m).
Proof.
  intros Hs rs rs' len. unfold appendRecord. fold rs. fold (insert_at x rs).
  assert (Insert rs (insert_at x rs) x = place x rs) as Hp by by apply insert_at_spec. rewrite Hp.
  rewrite length_place. set (n := Z.of_nat (S (length rs))).
  assert ((if maxEventsPerTab <? n then n - maxEventsPerTab else 0) = Z.max 0 (n - maxEventsPerTab)) as ->
    by (destruct (Z.ltb_spec maxEventsPerTab n); lia).
  assert (drop (Z.to_nat (Z.max 0 (n - maxEventsPerTab))) (place x rs) = rs') as ->.
  { unfold rs', newest, keep. rewrite length_place. f_equal. unfold n, maxEventsPerTab. lia. }
  fold len. unfold moved. fold n. case_decide as Ht.
  - eexists. split; [|by destruct m]. done.
  - exists (allTabPairs m). split; [done|by destruct m].
Qed.

Lemma append_tab_ok x rs selected start : tab_ok rs selected start ->
  let rs' := newest keep (place x rs) in
  let len := Z.of_nat (length rs') in
  tab_ok rs' (clamp_selected (moved x rs selected) len) (clamp_start (moved x rs start) len).
Proof.
  intros [Hs Hl H1 H2] rs' len. assert (1 <= len <= maxEventsPerTab).
  { unfold len, rs'. rewrite length_newest, length_place. unfold keep, maxEventsPerTab. lia. }
  split; [|lia|fold len..].
  - unfold rs', newest. pose proof (place_sorted x rs Hs) as Hp.
    rewrite <- (take_drop (length (place x rs) - keep) (place x rs)) in Hp. by apply StronglySorted_app in Hp as (_ & _ & ?).
  - unfold clamp_selected. destruct (Z.leb_spec len (moved x rs selected)); lia.
  - unfold clamp_start. destruct (Z.ltb_spec (Z.max 0 (len - 1)) (moved x rs start)); lia.
Qed.

Lemma appendRecord_wf tab x m : wf m -> wf (appendRecord tab x m).
Proof.
  intros [H1 H2 H3 H4 H5]. destruct (appendRecord_eq tab x m) as (c & Hc & ->); [apply (H2 tab)|].
  destruct m. split; [exact H1| | |exact H4|exact H5].
  - intros t. unfold records_of. cbn. rewrite !get_insert. case_decide; [subst|apply H2]. by apply append_tab_ok, H2.
  - intros Hv. cbn in Hv. destruct (Hc Hv) as [Ht ->]. unfold records_of. cbn. rewrite get_insert, decide_False by done. auto.
Qed.

Lemma appendRecord_records tab x m t : StronglySorted time_le (records_of m tab) ->
  records_of (appendRecord tab x m) t =
  if decide (t = tab) then newest keep (place x (records_of m tab)) else records_of m t.
Proof.
  intros Hs. destruct (appendRecord_eq tab x m Hs) as (c & _ & ->). destruct m. unfold records_of. cbn. apply get_insert.
Qed.

Lemma batch_record_wf m x : wf m -> wf (batch_record m x).
Proof.
  intros Hm. unfold batch_record. apply appendRecord_wf, appendRecord_wf. destruct Hm as [H1 H2 H3 H4 H5].
  destruct m. split; [exact H1|exact H2|exact H3| |exact H5]. cbn. unfold maxEPSWindow in *.
  case_match eqn:E; zbool; [rewrite length_drop|]; lia.
Qed.

(** *** Messages *)

(** The invariant does not depend on the other fields. *)
Ltac wf_same := let H1 := fresh in let H2 := fresh in let H3 := fresh in let H4 := fresh in let H5 := fresh in
  intros [H1 H2 H3 H4 H5]; match goal with m : model |- _ => destruct m end;
  split; [exact H1|exact H2|exact H3|exact H4|exact H5].

Lemma wf_set_viewport v m : wf m -> wf (set_viewport v m).
Proof. wf_same. Qed.
Lemma wf_set_size w h m : wf m -> wf (set_size w h m).
Proof. wf_same. Qed.
Lemma wf_set_quit b m : wf m -> wf (set_quit b m).
Proof. wf_same. Qed.
Lemma wf_set_err e m : wf m -> wf (set_err e m).
Proof. wf_same. Qed.

Lemma wf_set_tab t d m : (t < length tabOrder)%nat -> wf m -> wf (set_tab t d m).
Proof. intros Ht [H1 H2 H3 H4 H5]. destruct m. split; [exact Ht|exact H2|exact H3|exact H4|exact H5]. Qed.

Lemma wf_set_spinner i m : 0 <= i < spinnerFrames -> wf m -> wf (set_spinner i m).
Proof. intros Hi [H1 H2 H3 H4 H5]. destruct m. split; [exact H1|exact H2|exact H3|exact H4|exact Hi]. Qed.

Lemma wf_set_selected tab i m :
  0 <= i < Z.max 1 (Z.of_nat (length (records_of m tab))) -> wf m -> wf (set_selected tab i m).
Proof.
  intros Hi [H1 H2 H3 H4 H5]. destruct m. split; [exact H1| |exact H3|exact H4|exact H5].
  intros t. unfold set_selected, records_of. cbn. rewrite get_insert. destruct (H2 t).
  case_decide; [subst|]; by split.
Qed.

Lemma wf_refresh m : wf m -> wf (refreshAllTabPairCache m).
Proof.
  intros [H1 H2 H3 H4 H5]. unfold refreshAllTabPairCache. destruct (buildSessionPairs _) as [ps mx] eqn:E.
  destruct m. split; [exact H1|exact H2| |exact H4|exact H5]. intros _. symmetry. exact E.
Qed.

Lemma currentTab_Some m : wf m -> exists tab, currentTab m = Some tab.
Proof. intros [H1 _ _ _ _]. apply lookup_lt_is_Some_2. exact H1. Qed.

Lemma layout_Some m : wf m -> exists h, computeLayout chromeHeight m = Some h.
Proof.
  intros [_ _ _ _ Hs]. unfold computeLayout. rewrite (proj2 (Z.ltb_ge _ _)), (proj2 (Z.leb_gt _ _)) by lia. eauto.
Qed.

Lemma sync_Some b m : wf m -> exists v, sync b m = Some (set_viewport v m).
Proof.
  intros Hm. unfold syncDetailViewport. destruct (layout_Some m Hm) as [h ->]. cbn [mbind option_bind].
  unfold currentDetailContent. destruct (currentTab_Some m Hm) as [tab ->]. cbn [mbind option_bind].
  case_decide as Hr; [eexists; done|]. destruct (tab_selected _ _ _ (wf_tabs m Hm tab)) as [Hs1 Hs2].
  rewrite (proj2 (Z.ltb_ge _ _)) by lia.
  destruct (lookup_lt_is_Some_2 (records_of m tab) (Z.to_nat (get 0 (selectedByTab m) tab))) as [r ->]; [|eexists; done].
  assert (length (records_of m tab) <> 0%nat) by (by intros ?%length_zero_iff_nil). lia.
Qed.

(** Both facts at once: the method returns, and keeps the invariant. *)
Definition safe (o : option model) : Prop := exists m', o = Some m' /\ wf m'.

Lemma safe_Some m : wf m -> safe (Some m).
Proof. by exists m. Qed.

Lemma safe_sync b m : wf m -> safe (sync b m).
Proof. intros Hm. destruct (sync_Some b m Hm) as [v ->]. apply safe_Some. by apply wf_set_viewport. Qed.

Lemma safe_moveSelection delta m : wf m -> safe (moveSelection horizontalFrame chromeHeight title wrap delta m).
Proof.
  intros Hm. unfold moveSelection, currentRecords. destruct (currentTab_Some m Hm) as [tab ->]. cbn.
  case_decide as Hr; [by apply safe_Some|]. apply safe_sync, wf_set_selected; [|done].
  assert (length (records_of m tab) <> 0%nat) by (by intros ?%length_zero_iff_nil). case_match eqn:E; zbool; lia.
Qed.

Lemma safe_moveSelectionToBottom m : wf m -> safe (moveSelectionToBottom horizontalFrame chromeHeight title wrap m).
Proof.
  intros Hm. unfold moveSelectionToBottom, currentRecords. destruct (currentTab_Some m Hm) as [tab ->]. cbn.
  case_decide as Hr; [by apply safe_Some|]. apply safe_sync, wf_set_selected; [|done].
  assert (length (records_of m tab) <> 0%nat) by (by intros ?%length_zero_iff_nil). lia.
Qed.

#[local] Hint Resolve safe_Some safe_sync safe_moveSelection safe_moveSelectionToBottom wf_set_viewport wf_set_size
  wf_set_quit wf_set_err wf_refresh wf_set_tab : core.

Lemma tab_next t : (t < length tabOrder)%nat -> ((t + 1) mod length tabOrder < length tabOrder)%nat.
Proof. intros. apply Nat.mod_upper_bound. done. Qed.

Lemma tab_previous t : (t < length tabOrder)%nat ->
  (Z.to_nat (Z.rem (Z.of_nat t - 1 + Z.of_nat (length tabOrder)) (Z.of_nat (length tabOrder))) < length tabOrder)%nat.
Proof.
  intros Ht. pose proof (Z.rem_bound_pos (Z.of_nat t - 1 + Z.of_nat (length tabOrder)) (Z.of_nat (length tabOrder))) as Hb.
  cbn in *. lia.
Qed.

Lemma press_safe key m : wf m -> exists m' cmd, press horizontalFrame chromeHeight title wrap key m = Some (m', cmd) /\ wf m'.
Proof.
  intros Hm. unfold press. case_match; [repeat case_match; eauto|]. case_match; [eauto|].
  match goal with |- context [?o ≫= _] => assert (safe o) as (m' & -> & Hm') end.
  - pose proof (tab_next _ (wf_tab m Hm)). pose proof (tab_previous _ (wf_tab m Hm)).
    repeat (case_match; [try case_match; auto|]); auto.
    unfold currentRecords. destruct (currentTab_Some m Hm) as [tab ->]. cbn. case_decide; auto.
    apply safe_sync, wf_set_tab; [apply (wf_tab m Hm)|done].
  - eexists _, _. split; [done|done].
Qed.

Lemma Update_safe msg m : wf m -> exists m' cmd, update msg m = Some (m', cmd) /\ wf m'.
Proof.
  intros Hm. destruct msg as [w h|key| |[records|e]|]; cbn [Update].
  - destruct (safe_sync false (set_size w h m)) as (m' & -> & ?); [auto|]. eexists _, _. done.
  - by apply press_safe.
  - eexists _, _. split; [done|]. apply wf_set_spinner; [|done]. apply Z.rem_bound_pos; [|done].
    pose proof (wf_spinner m Hm). lia.
  - destruct (safe_sync false (refreshAllTabPairCache (foldl batch_record m records))) as (m' & -> & ?); [|eexists _, _; done].
    apply wf_refresh. revert m Hm. induction records; intros m Hm; [done|]. cbn. apply IHrecords. by apply batch_record_wf.
  - eexists _, _. split; [done|]. auto.
  - eexists _, _. done.
Qed.

(** *** The screen *)

Lemma scroll_spec total h selected start : 1 <= h -> 0 <= selected < total ->
  let s := scroll total h selected start in
  0 <= s <= Z.max 0 (total - h) /\ s <= selected < s + h /\
  (2 * listScrollOff < h ->
    (s = 0 \/ s + listScrollOff <= selected) /\ (s = Z.max 0 (total - h) \/ selected + listScrollOff < s + h)).
Proof.
  intros Hh Hs. unfold scroll, listScrollOff. cbv zeta.
  repeat match goal with
  | |- context [?a <? ?b] =>
      lazymatch constr:((a, b)) with context [if _ then _ else _] => fail | _ => destruct (Z.ltb_spec a b) end
  end; lia.
Qed.

Lemma list_lines_spec rs ann selected start n : forall i,
  (start <= i)%nat -> (i + n <= length rs)%nat -> (i + n - start <= length ann)%nat ->
  exists ls, list_lines rs ann selected start i n = Some ls /\ length ls = n /\
    (forall j r a b, ls !! j = Some (r, a, b) ->
      rs !! (i + j)%nat = Some r /\ ann !! (i + j - start)%nat = Some a /\ b = (Z.of_nat (i + j) =? selected)).
Proof.
  induction n as [|n IH]; intros i Hi Hn Ha; cbn [list_lines]; [by exists []|].
  destruct (lookup_lt_is_Some_2 rs i) as [r Er]; [lia|]. destruct (lookup_lt_is_Some_2 ann (i - start)) as [a Ea]; [lia|].
  destruct (IH (S i)) as (ls & El & Hlen & Hls); [lia..|]. rewrite Er, Ea, El. cbn. eexists. split; [done|].
  split; [cbn; lia|]. intros [|j] r' a' b Hj; cbn in Hj.
  - simplify_eq. by rewrite Nat.add_0_r.
  - replace (i + S j)%nat with (S i + j)%nat by lia. by apply Hls.
Qed.

(** The cached pairs are the pairs of the records. *)
Lemma allTabSessionPairs_eq m : wf m -> allTabSessionPairs m = buildSessionPairs (records_of m allTab).
Proof.
  intros Hm. unfold allTabSessionPairs. destruct (valid (allTabPairs m)) eqn:E; [|done]. cbn [andb].
  case_match; [by apply (wf_cache m Hm)|done].
Qed.

Lemma annotations_for m tab s e : wf m -> 0 <= s <= e ->
  exists ann, (if decide (tab = allTab) then
      let '(ps, mx) := allTabSessionPairs m in buildVisiblePairAnnotations (Z.to_nat s) (Z.to_nat e) ps mx
    else Some (replicate (Z.to_nat (e - s)) [])) = Some ann /\ length ann = Z.to_nat (e - s).
Proof.
  intros Hm He. case_decide; [|eexists; split; [done|apply length_replicate]]. rewrite allTabSessionPairs_eq by done.
  destruct (buildSessionPairs _) as [ps mx] eqn:E.
  destruct (annotations_made _ (Z.to_nat s) (Z.to_nat e) _ _ E) as (ann & Ha & Hl). exists ann. split; [done|lia].
Qed.

(** What [renderList] shows: the records from some line on, the selected one among
    them. *)
Definition shows (rs : list displayRecord) (selected h : Z) (ls : list shown) : Prop :=
  exists start, 0 <= start <= selected /\ selected < start + h /\
  Z.of_nat (length ls) = Z.min (Z.of_nat (length rs)) (start + h) - start /\
  (2 * listScrollOff < h ->
    (start = 0 \/ start + listScrollOff <= selected) /\
    (start = Z.max 0 (Z.of_nat (length rs) - h) \/ selected + listScrollOff < start + h)) /\
  forall j r a b, ls !! j = Some (r, a, b) ->
    rs !! (Z.to_nat start + j)%nat = Some r /\ (b = true <-> start + Z.of_nat j = selected).

Lemma renderList_spec h m tab : wf m -> currentTab m = Some tab ->
  exists ls m', renderList verticalFrame h m = Some (ls, m') /\ wf m' /\
  (records_of m tab = [] -> ls = []) /\
  (records_of m tab <> [] -> shows (records_of m tab) (get 0 (selectedByTab m) tab) (Z.max 1 (h - verticalFrame)) ls).
Proof.
  intros Hm Ht. unfold renderList. rewrite Ht. cbn [mbind option_bind]. case_decide as Hr; [by exists [], m|].
  set (rs := records_of m tab) in *. set (sel := get 0 (selectedByTab m) tab). set (ch := Z.max 1 (h - verticalFrame)).
  assert (length rs <> 0%nat) as Hlen by (by intros ?%length_zero_iff_nil).
  pose proof (tab_selected _ _ _ (wf_tabs m Hm tab)) as Hsel. fold rs sel in Hsel.
  unfold adjustListStart. rewrite Ht. cbn [mbind option_bind].
  rewrite (proj2 (Z.leb_gt (Z.of_nat (length rs)) _)), (proj2 (Z.leb_gt ch _)) by lia. cbn [orb].
  destruct (scroll_spec (Z.of_nat (length rs)) ch sel (get 0 (listStartByTab m) tab)) as (Hs1 & Hs2 & Hs3); [lia..|].
  set (s := scroll _ _ _ _) in *. set (m' := set_lists _ _ _ _).
  assert (wf m') as Hm'.
  { unfold m'. destruct Hm as [H1 H2 H3 H4 H5]. clearbody s ch sel. subst rs. destruct m. split; [exact H1| |exact H3|exact H4|exact H5].
    intros t. unfold records_of in *. cbn in *. rewrite get_insert. destruct (H2 t). case_decide; subst; split; try done. lia. }
  rewrite (proj2 (Z.ltb_ge s 0)), (proj2 (Z.ltb_ge _ s)) by lia. cbn [orb].
  destruct (annotations_for m' tab s (Z.min (Z.of_nat (length rs)) (s + ch)) Hm' ltac:(lia)) as (ann & -> & Hla).
  cbn [mbind option_bind].
  destruct (list_lines_spec rs ann sel (Z.to_nat s) (Z.to_nat (Z.min (Z.of_nat (length rs)) (s + ch) - s)) (Z.to_nat s))
    as (ls & -> & Hl & Hls); [lia..|]. exists ls, m'. split_and!; [done..|]. intros _. exists s. split_and!; [lia..|done|].
  intros j r a b Hj. destruct (Hls j r a b Hj) as (H1 & _ & ->). split; [done|]. rewrite Z.eqb_eq. lia.
Qed.

Lemma View_safe m : wf m -> exists s m', view m = Some (s, m') /\ wf m'.
Proof.
  intros Hm. unfold View. case_match; [by exists Loading, m|]. destruct (layout_Some m Hm) as [h ->]. cbn [mbind option_bind].
  destruct (showDetail m); [by eexists _, _|]. destruct (currentTab_Some m Hm) as [tab Ht].
  destruct (renderList_spec h m tab Hm Ht) as (ls & m' & -> & Hm' & _). by eexists _, _.
Qed.

(** *** Runs *)

(** The states of the interface: it is updated and viewed in any order. *)
Inductive reachable : model -> Prop :=
  | reachable_start v : reachable (start_model v)
  | reachable_update m msg m' cmd : reachable m -> update msg m = Some (m', cmd) -> reachable m'
  | reachable_view m s m' : reachable m -> view m = Some (s, m') -> reachable m'.

Lemma reachable_wf m : reachable m -> wf m.
Proof.
  induction 1 as [v|m msg m' cmd _ Hm E|m s m' _ Hm E]; [apply wf_start|..].
  - destruct (Update_safe msg m Hm) as (m1 & c & E1 & ?). by rewrite E in E1; simplify_eq.
  - destruct (View_safe m Hm) as (s1 & m1 & E1 & ?). by rewrite E in E1; simplify_eq.
Qed.

(** *** The records of a tab *)

(** A record goes to the tab of all records and to that of its endpoint. *)
Definition tab_records (tab : list Z) (ds : list displayRecord) : list displayRecord :=
  ds ≫= fun x => (if decide (tab = allTab) then [x] else []) ++ (if decide (tab = Endpoint x) then [x] else []).

Definition tabs_of (ds : list displayRecord) m : Prop :=
  forall tab, records_of m tab = newest keep (in_order (tab_records tab ds)).

Lemma newest_sorted k l : StronglySorted time_le l -> StronglySorted time_le (newest k l).
Proof.
  intros Hl. destruct (newest_suffix k l) as (a & E & _). rewrite E in Hl. by apply StronglySorted_app in Hl as (_ & _ & ?).
Qed.

Lemma appendRecord_newest tab x m t l l' :
  records_of m tab = newest keep (in_order l') -> records_of m t = newest keep (in_order l) ->
  records_of (appendRecord tab x m) t = newest keep (in_order (l ++ if decide (t = tab) then [x] else [])).
Proof.
  intros E' E. rewrite appendRecord_records by (rewrite E'; apply newest_sorted, in_order_sorted).
  case_decide; [subst|by rewrite app_nil_r]. rewrite E. unfold in_order at 2. rewrite foldl_snoc.
  apply newest_place, in_order_sorted.
Qed.

Lemma batch_record_tabs ds x m : tabs_of ds m -> tabs_of (ds ++ [x]) (batch_record m x).
Proof.
  intros Hm tab. unfold batch_record. set (m0 := set_events _ _ m).
  assert (forall t, records_of m0 t = newest keep (in_order (tab_records t ds))) as H0 by (intros t; rewrite <- Hm; by destruct m).
  erewrite appendRecord_newest; [|eapply appendRecord_newest; apply H0..]. f_equal. f_equal.
  unfold tab_records. rewrite bind_app. cbn. by rewrite app_nil_r, app_assoc.
Qed.

(** Only batches change the records. *)
Definition msg_records (msg : @Msg error) : list displayRecord :=
  match msg with streamMsg msg => records_in msg | _ => [] end.

Definition same_records (o : option model) m : Prop := forall m', o = Some m' -> recordsByTab m' = recordsByTab m.

Lemma same_sync b m : same_records (sync b m) m.
Proof.
  intros m'. unfold syncDetailViewport. destruct (computeLayout _ _); [|done]. cbn.
  destruct (currentDetailContent _ _); [|done]. cbn. intros [= <-]. by destruct m.
Qed.

Lemma press_records key m m' cmd : press horizontalFrame chromeHeight title wrap key m = Some (m', cmd) -> recordsByTab m' = recordsByTab m.
Proof.
  unfold press, moveSelection, moveSelectionToBottom. intros E.
  repeat first [progress simplify_option_eq | case_match]; try done; try by destruct m.
  all: match goal with E : sync _ _ = Some _ |- _ => apply same_sync in E; rewrite E; by destruct m end.
Qed.

Lemma Update_tabs ds msg m m' cmd : tabs_of ds m -> update msg m = Some (m', cmd) -> tabs_of (ds ++ msg_records msg) m'.
Proof.
  assert (forall m m', tabs_of ds m -> recordsByTab m' = recordsByTab m -> tabs_of (ds ++ []) m') as Hsame.
  { intros m1 m2 Hm E tab. rewrite app_nil_r, <- Hm. unfold records_of. by rewrite E. }
  intros Hm. destruct msg as [w h|key| |[records|e]|]; cbn [Update msg_records records_in].
  - destruct (sync false _) as [m1|] eqn:E; [|done]. intros [= <- <-]. apply same_sync in E.
    apply (Hsame m); [done|]. rewrite E. by destruct m.
  - intros E%press_records. by apply (Hsame m).
  - intros [= <- <-]. apply (Hsame m); [done|]. by destruct m.
  - destruct (sync false _) as [m1|] eqn:E; [|done]. intros [= <- <-]. apply same_sync in E.
    assert (tabs_of (ds ++ records) (foldl batch_record m records)) as Hf.
    { clear -Hm. revert ds m Hm. induction records as [|x records IH]; intros ds m Hm; [by rewrite app_nil_r|].
      cbn. rewrite cons_middle, app_assoc. apply IH. by apply batch_record_tabs. }
    intros tab. rewrite <- Hf. unfold records_of. rewrite E. unfold refreshAllTabPairCache.
    destruct (buildSessionPairs _). by destruct (foldl _ _ _).
  - intros [= <- <-]. apply (Hsame m); [done|]. by destruct m.
  - intros [= <- <-]. by apply (Hsame m).
Qed.

Lemma run_model_tabs msgs : forall ds m m', tabs_of ds m ->
  run_model horizontalFrame chromeHeight title wrap msgs m = Some m' -> tabs_of (ds ++ (msgs ≫= msg_records)) m'.
Proof.
  induction msgs as [|msg msgs IH]; intros ds m m' Hm; cbn [run_model].
  - intros [= <-]. by rewrite app_nil_r.
  - destruct (update msg m) as [[m1 cmd]|] eqn:E; [|done]. intros Hr. cbn in Hr.
    rewrite bind_cons, app_assoc. eapply IH; [|done]. by eapply Update_tabs.
Qed.

Lemma msg_records_stream msgs :
  msgs ≫= msg_records = omap (fun msg => match msg with streamMsg msg => Some msg | _ => None end) msgs ≫= records_in.
Proof. induction msgs as [|[] msgs IH]; [done|..]; cbn; try done. by rewrite <- IH. Qed.

(** What the dashboard makes of an exported record. *)
Definition shown_as {event} (Marshal : @Jsonl.JSONLRecord event -> option (list Z)) (parse : list Z -> error + displayRecord)
    (r : Jsonl.JSONLRecord) : option displayRecord :=
  b ← Marshal r; match parse b with inl _ => None | inr d => Some d end.

Lemma parsed_lines {event} Marshal `{!OneLine (event := event) Marshal} parse rs bs :
  Forall2 (fun r b => Marshal r = Some b) rs bs -> omap (parsed parse) bs = omap (shown_as Marshal parse) rs.
Proof.
  induction 1 as [|r b rs bs Hb _ IH]; [done|]. cbn. rewrite IH.
  assert (parsed parse b = shown_as Marshal parse r) as ->; [|done].
  unfold shown_as. rewrite Hb. cbn. destruct (marshal_braces Marshal r b Hb) as [t ->].
  unfold parsed. by rewrite utf8_TrimSpace_braces.
Qed.

(** From the sink to the screen: batches of records are written to the file,
    some writes may fail; the reader looks at the file while it grows, at any times,
    and once more at the end; its messages are handled among keys and other
    messages.  Then each tab has the newest 4096 of its records, in the order of
    their times and, at one time, of their arrival; no written record is missing
    among them or there twice, and when no write failed all records were written. *)
Theorem records_on_display {event} Marshal accepts parse `{!OneLine (event := event) Marshal}
    batches ok s c obs msgs v m :
  write_batches Marshal accepts batches open_sink [] = (ok, (s, c)) ->
  observed [] obs c -> last obs = Some (Tail.Size (length c), inr c) ->
  omap (fun msg => match msg with streamMsg msg => Some msg | _ => None end) msgs =
    Tail.streamFile parse ((fun o => (o, None)) <$> obs) Tail.start_tail ->
  run_model horizontalFrame chromeHeight title wrap msgs (start_model v) = Some m ->
  exists rs, sublist rs (batch_records batches) /\ (ok = true -> rs = batch_records batches) /\
  forall tab, exists all, all ≡ₚ tab_records tab (omap (shown_as Marshal parse) rs) /\
    StronglySorted time_le all /\
    (forall t, filter (fun r => Timestamp r = t) all =
               filter (fun r => Timestamp r = t) (tab_records tab (omap (shown_as Marshal parse) rs))) /\
    records_of m tab = newest (Z.to_nat maxEventsPerTab) all.
Proof.
  intros Hw Ho Hl Hmsgs Hrun.
  apply (write_batches_spec _ _ _ false [] []) in Hw as (rs & Hs & Hok & f & Hh);
    [|exists [], []; split_and!; [done..|apply not_elem_of_nil|done]].
  apply holds_lines in Hh as (bs & Hbs & Hlines); [|done].
  destruct (run_ticks_spec parse obs [] [] c Ho (prefix_nil _)) as (all & _ & _ & Hd & Hall). rewrite (Hall Hl) in Hd.
  rewrite Hlines, (parsed_lines Marshal parse rs bs Hbs) in Hd. cbn in Hd.
  assert (msgs ≫= msg_records = omap (shown_as Marshal parse) rs) as Hrec.
  { rewrite <- Hd, msg_records_stream, Hmsgs. destruct (streamFile_prefix parse ((fun o => (o, None)) <$> obs) Tail.start_tail) as [_ E].
    rewrite E by by apply Forall_fmap, Forall_true. by rewrite <- list_fmap_compose, list_fmap_id. }
  exists rs. split_and!; [done..|]. intros tab.
  apply (run_model_tabs msgs [] _ _) in Hrun; [|intros t; done]. rewrite Hrec in Hrun.
  exists (in_order (tab_records tab (omap (shown_as Marshal parse) rs))).
  split_and!; [apply in_order_perm|apply in_order_sorted|intros t; apply in_order_stable|apply Hrun].
Qed.

(** C39. The interface never indexes out of range: in every state that messages and
    views lead to, every further message and the view are handled, and in every tab
    the records are sorted, not more than 4096, and the selected record and the
    first one on the screen are records of the tab. *)
Theorem dashboard_safe m msg : reachable m ->
  (exists m' cmd, update msg m = Some (m', cmd)) /\ (exists s m', view m = Some (s, m')) /\
  forall tab, tab_ok (records_of m tab) (get 0 (selectedByTab m) tab) (get 0 (listStartByTab m) tab).
Proof.
  intros Hm%reachable_wf. destruct (Update_safe msg m Hm) as (m1 & c & E1 & _).
  destruct (View_safe m Hm) as (s & m2 & E2 & _). split_and!; [eauto..|apply (wf_tabs m Hm)].
Qed.

(** The list shows a stretch of the records of the tab with the selected record
    in it, the only line that is marked; on a screen of more than six lines three
    lines stay visible above and below it, but at the ends of the list. *)
Theorem selection_visible m tab ls m' : reachable m -> currentTab m = Some tab -> records_of m tab <> [] ->
  view m = Some (ListScreen ls, m') ->
  let selected := get 0 (selectedByTab m) tab in
  exists h, computeLayout chromeHeight m = Some h /\ shows (records_of m tab) selected (Z.max 1 (h - verticalFrame)) ls /\
  exists j r a, records_of m tab !! Z.to_nat selected = Some r /\ ls !! j = Some (r, a, true) /\
    forall j' r' a', ls !! j' = Some (r', a', true) -> j' = j.
Proof.
  intros Hm%reachable_wf Ht Hr. unfold View. case_match; [done|]. destruct (layout_Some m Hm) as [h Eh]. rewrite Eh. cbn [mbind option_bind].
  destruct (showDetail m); [intros E; cbn in E; case_match; done|].
  destruct (renderList_spec h m tab Hm Ht) as (ls' & m1 & -> & _ & _ & Hs). specialize (Hs Hr). cbn.
  destruct (confirmQuit m1); intros [= -> ->]. exists h. split_and!; [done..|].
  destruct Hs as (s & H1 & H2 & H3 & _ & Hls). pose proof (tab_selected _ _ _ (wf_tabs m Hm tab)) as Hsel.
  assert (length (records_of m tab) <> 0%nat) by (by intros ?%length_zero_iff_nil).
  set (sel := get 0 (selectedByTab m) tab) in *. set (j := Z.to_nat (sel - s)).
  destruct (lookup_lt_is_Some_2 ls j) as [[[r a] b] Hj]; [unfold j; lia|]. destruct (Hls j r a b Hj) as [Er Eb].
  exists j, r, a. split_and!.
  - rewrite <- Er. f_equal. unfold j. lia.
  - rewrite (proj2 Eb) in Hj; [exact Hj|unfold j; lia].
  - intros j' r' a' Hj'. destruct (Hls j' r' a' true Hj') as [_ E]. apply proj1 in E. specialize (E eq_refl). unfold j. lia.
Qed.

Lemma Insert_lookup {A} (l : list A) k x i :
  (k <= length l)%nat -> Insert l k x !! (if decide (k <= i)%nat then S i else i) = l !! i.
Proof.
  intros Hk. unfold Insert. case_decide.
  - rewrite lookup_app_r; rewrite length_take; [|lia]. replace (S i - k `min` length l)%nat with (S (i - k)) by lia.
    change ((x :: drop k l) !! S (i - k)) with (drop k l !! (i - k)%nat). rewrite lookup_drop. f_equal. lia.
  - rewrite lookup_app_l by (rewrite length_take; lia). by apply lookup_take_lt; lia.
Qed.

(** When a record arrives, the selection stays on the record it is on, wherever
    the new one is placed; only a selected oldest record of a full tab is dropped. *)
Theorem selection_follows tab x m r : reachable m ->
  records_of m tab !! Z.to_nat (get 0 (selectedByTab m) tab) = Some r ->
  let m' := appendRecord tab x m in
  records_of m' tab !! Z.to_nat (get 0 (selectedByTab m') tab) = Some r \/
  (get 0 (selectedByTab m) tab = 0 /\ Z.of_nat (length (records_of m tab)) = maxEventsPerTab /\ time_le r x).
Proof.
  intros Hm%reachable_wf Hr m'. destruct (wf_tabs m Hm tab) as [Hs Hl Hsel _].
  destruct (appendRecord_eq tab x m Hs) as (c & _ & E). unfold m'. rewrite E. clear E m'.
  set (rs := records_of m tab) in *. set (sel := get 0 (selectedByTab m) tab) in *.
  pose proof (lookup_lt_Some _ _ _ Hr) as Hlt. destruct (insert_at_spec x rs Hs) as (Hk & Hlo & E).
  pose proof (Insert_lookup rs (insert_at x rs) x (Z.to_nat sel) Hk) as Hi. rewrite E, Hr in Hi.
  set (rs' := newest keep (place x rs)). assert (forall i, rs' !! i = place x rs !! (S (length rs) - keep + i)%nat) as Hrs'.
  { intros i. unfold rs', newest. by rewrite lookup_drop, length_place. }
  assert (length rs' = Nat.min keep (S (length rs))) as Hlen' by (unfold rs'; by rewrite length_newest, length_place).
  assert (Z.of_nat keep = maxEventsPerTab) as Hkeep by (unfold keep, maxEventsPerTab; lia).
  unfold maxEventsPerTab in *.
  destruct m as [w h recs sels lss t n es d vp p q i e]. cbn in *. unfold records_of. cbn. rewrite !get_insert, !decide_True by done.
  change (get 0 sels tab) with sel. unfold clamp_selected, moved. unfold maxEventsPerTab.
  destruct (decide (insert_at x rs <= Z.to_nat sel)%nat) as [Hd|Hd].
  - left. rewrite (proj2 (Z.ltb_lt 1 _)), (proj2 (Z.leb_le _ sel)) by lia. cbn [andb].
    rewrite (proj2 (Z.leb_gt _ _)) by lia. rewrite Hrs', <- Hi. f_equal. lia.
  - rewrite (proj2 (Z.leb_gt (Z.of_nat (insert_at x rs)) sel)), andb_false_r by lia. rewrite (proj2 (Z.leb_gt _ _)) by lia.
    destruct (decide (sel = 0 /\ Z.of_nat (length rs) = 4096)) as [[H0 H4096]|Hn].
    + right. split_and!; [done..|]. apply (Hlo (Z.to_nat sel)); [lia|done].
    + left. rewrite Hrs', <- Hi. f_equal. lia.
Qed.

End Model.

(** ** On a file *)

(** A viewport that holds its text and the first line of it shown. *)
#[export] Instance ref_viewport : Tabs.Viewport := {
  Tabs.viewport := list Z * Z;
  Tabs.resize _ _ v := v;
  Tabs.SetContent c v := (c, v.2);
  Tabs.GotoTop v := (v.1, 0);
  Tabs.GotoBottom v := (v.1, Z.of_nat (length (split_on 10 v.1)));
  Tabs.ScrollDown v := (v.1, v.2 + 1);
  Tabs.ScrollUp v := (v.1, Z.max 0 (v.2 - 1));
}.

Definition blank : @Tabs.viewport ref_viewport := ([], 0).

(** An event is a time, written between braces. *)
Definition demo_marshal (r : @Jsonl.JSONLRecord Z) : option (list Z) :=
  Some (123 :: FormatInt (Jsonl.Event r) ++ [125]).

#[export] Instance demo_one_line : OneLine demo_marshal.
Proof.
  split; intros r b [= <-].
  - rewrite not_elem_of_cons, not_elem_of_app, list_elem_of_singleton.
    split_and!; [done| |done]. apply FormatInt_avoids; lia.
  - eauto.
Qed.

Definition demo_parse (line : list Z) : list Z + displayRecord :=
  match Atoi (drop 1 (removelast line)) with
  | Some t => inr {| Endpoint := str "exec_event"; Timestamp := t; SessionKey := []; Provider := []; Model := [];
                     Summary := line; Detail := line |}
  | None => inl line
  end.

(** The file takes the lines as long as it is short. *)
Definition demo_accepts (contents data : list Z) : nat := if decide (length contents < 20)%nat then length data else 1.

Definition demo_batches : list (list Z * Z * list Z) :=
  [(str "exec_event", 0, [70; 30]); (str "exec_event", 0, [50; 40; 30; 20]); (str "exec_event", 0, [10])].

Definition demo_file : list Z := str "{70}" ++ [10] ++ str "{30}" ++ [10] ++ str "{50}" ++ [10] ++ str "{40}" ++ [10] ++ str "{".

(** No file yet; a part of a line; more of it by the time it is read; an error. *)
Definition demo_obs : list (Tail.stat (list Z) * (list Z + list Z)) :=
  [(Tail.NotExist, inl []); (Tail.Size 2, inr (take 7 demo_file)); (Tail.Size 9, inr (take 13 demo_file));
   (Tail.StatError [], inr demo_file); (Tail.Size 21, inr demo_file)].

Definition demo_msgs : list (@Tabs.Msg (list Z)) :=
  Tabs.WindowSizeMsg 80 24 ::
  (Tabs.streamMsg <$> Tail.streamFile demo_parse ((fun o => (o, None)) <$> demo_obs) Tail.start_tail) ++
  [Tabs.KeyMsg (str "j"); Tabs.KeyMsg (str "j")].

Definition demo_run : option (@Tabs.model (list Z) _) :=
  Tabs.run_model 2 (fun _ => 5) (fun _ => []) (fun _ text => text) demo_msgs (Tabs.start_model blank).

Lemma demo_observed : observed [] demo_obs demo_file.
Proof.
  apply (observed_tick _ [] []); [by apply prefix_nil..|done|done|].
  apply (observed_tick _ (take 2 demo_file) (take 7 demo_file)); [by apply (bool_decide_unpack _); vm_compute..|done|done|].
  apply (observed_tick _ (take 9 demo_file) (take 13 demo_file)); [by apply (bool_decide_unpack _); vm_compute..|done|done|].
  apply (observed_tick _ (take 13 demo_file) demo_file); [by apply (bool_decide_unpack _); vm_compute..|done|done|].
  apply (observed_tick _ demo_file demo_file); [done..|]. by constructor.
Qed.

Lemma records_on_display_witness :
  exists m rs, demo_run = Some m /\ sublist rs (batch_records demo_batches) /\
  (exists all, all ≡ₚ tab_records Tabs.allTab (omap (shown_as demo_marshal demo_parse) rs) /\
    StronglySorted time_le all /\ Tabs.records_of m Tabs.allTab = newest keep all) /\
  Timestamp <$> Tabs.records_of m Tabs.allTab = [30; 40; 50; 70].
Proof.
  assert ((m ← demo_run; Some (Timestamp <$> Tabs.records_of m Tabs.allTab)) = Some [30; 40; 50; 70]) as Hm by (vm_compute; reflexivity).
  destruct demo_run as [m|] eqn:E; [|done].
  destruct (records_on_display 2 (fun _ => 5) (fun _ => []) (fun _ text => text) demo_marshal demo_accepts demo_parse
    demo_batches false {| Jsonl.file := true; Jsonl.enc := Some true |} demo_file demo_obs demo_msgs blank m)
    as (rs & Hs & _ & Hall); [vm_compute; reflexivity|apply demo_observed|vm_compute; reflexivity|vm_compute; reflexivity|exact E|].
  destruct (Hall Tabs.allTab) as (all & H1 & H2 & _ & H4). exists m, rs.
  split; [done|]. split; [exact Hs|]. split; [exists all; exact (conj H1 (conj H2 H4))|]. by injection Hm.
Defined.

(** The states of the run are reachable. *)
Lemma run_model_reachable msgs : forall m m',
  reachable 2 2 (fun _ => 5) (fun _ => []) (fun _ text => text) m ->
  Tabs.run_model 2 (fun _ => 5) (fun _ => []) (fun _ text => text) msgs m = Some m' ->
  reachable (error := list Z) 2 2 (fun _ => 5) (fun _ => []) (fun _ text => text) m'.
Proof.
  induction msgs as [|msg msgs IH]; intros m m' Hm; cbn [Tabs.run_model]; [by intros [= <-]|].
  destruct (Tabs.Update _ _ _ _ msg m) as [[m1 cmd]|] eqn:E; [|done]. intros Hr. apply (IH m1); [|exact Hr].
  by eapply reachable_update.
Qed.

Lemma demo_reachable m : demo_run = Some m -> reachable 2 2 (fun _ => 5) (fun _ => []) (fun _ text => text) m.
Proof. apply run_model_reachable, reachable_start. Qed.

Lemma dashboard_safe_witness : exists m, demo_run = Some m /\
  exists m' cmd, Tabs.Update 2 (fun _ => 5) (fun _ => []) (fun _ text => text) (Tabs.KeyMsg (str "v")) m = Some (m', cmd).
Proof.
  assert (bool_decide (is_Some demo_run) = true) as Hm by (vm_compute; reflexivity).
  destruct demo_run as [m|] eqn:E; [|done]. exists m. split; [done|].
  exact (proj1 (dashboard_safe 2 2 (fun _ => 5) (fun _ => []) (fun _ text => text) m (Tabs.KeyMsg (str "v")) (demo_reachable m E))).
Defined.

Lemma selection_follows_witness : exists m r, demo_run = Some m /\
  Tabs.get 0 (Tabs.selectedByTab m) Tabs.allTab = 3 /\
  let m' := Tabs.appendRecord Tabs.allTab (demo_record "exec_event" "x") m in
  Tabs.records_of m' Tabs.allTab !! Z.to_nat (Tabs.get 0 (Tabs.selectedByTab m') Tabs.allTab) = Some r.
Proof.
  assert ((m ← demo_run; Some (Tabs.get 0 (Tabs.selectedByTab m) Tabs.allTab,
             length (Tabs.records_of m Tabs.allTab))) = Some (3, 4%nat)) as Hm by (vm_compute; reflexivity).
  destruct demo_run as [m|] eqn:E; [|done]. injection Hm as H1 H2.
  destruct (lookup_lt_is_Some_2 (Tabs.records_of m Tabs.allTab) 3) as [r Hr]; [rewrite H2; lia|].
  exists m, r. split; [done|]. split; [exact H1|].
  destruct (selection_follows 2 2 (fun _ => 5) (fun _ => []) (fun _ text => text) Tabs.allTab
    (demo_record "exec_event" "x") m r (demo_reachable m E)) as [H|[H _]]; [rewrite H1; exact Hr|exact H|].
  rewrite H1 in H. done.
Defined.

Lemma selection_visible_witness : exists m ls m', demo_run = Some m /\
  Tabs.View 2 (fun _ => 5) m = Some (Tabs.ListScreen ls, m') /\
  exists j r a, ls !! j = Some (r, a, true) /\ Tabs.records_of m Tabs.allTab !! Z.to_nat (Tabs.get 0 (Tabs.selectedByTab m) Tabs.allTab) = Some r.
Proof.
  assert ((m ← demo_run; '(s, _) ← Tabs.View 2 (fun _ => 5) m;
           Some (match s with Tabs.ListScreen ls => length ls | _ => 0%nat end,
             Tabs.tabIndex m, length (Tabs.records_of m Tabs.allTab))) = Some (4%nat, 0%nat, 4%nat)) as Hm by (vm_compute; reflexivity).
  destruct demo_run as [m|] eqn:E; [|done]. cbn [mbind option_bind] in Hm.
  destruct (Tabs.View 2 (fun _ => 5) m) as [[s m']|] eqn:Ev; [|discriminate Hm].
  destruct s as [| |ls|]; [discriminate Hm|discriminate Hm| |discriminate Hm].
  injection Hm as _ Ht Hr. exists m, ls, m'. split; [exact eq_refl|]. split; [exact Ev|].
  destruct (selection_visible 2 2 (fun _ => 5) (fun _ => []) (fun _ text => text) m Tabs.allTab ls m' (demo_reachable m E))
    as (h & _ & _ & j & r & a & H1 & H2 & _).
  - unfold Tabs.currentTab. rewrite Ht. reflexivity.
  - intros H. rewrite H in Hr. discriminate Hr.
  - exact Ev.
  - exists j, r, a. exact (conj H2 H1).
Defined.
