(* ===== verification/Json.v ===== *)
(** JSON as [encoding/json] of the Go standard library writes and reads it.

    Values are trees; numbers keep their literal text.  [encode] is [json.Marshal] of
    such a value: compact, with the characters that HTML treats specially, the control
    characters and the line separators escaped and invalid UTF-8 replaced.  [parse] is
    [json.Unmarshal] into [any].  What is written is read back. *)

From S2P Require Import Prelude GoStd.

(** ** UTF-8 *)

Definition cont (lo hi : Z) (c : Z) : bool := (lo <=? c) && (c <=? hi).

(** [utf8.DecodeRune]: the width of the encoding a text starts with; 0 where the first
    byte starts none. *)
Definition rune_width (s : list Z) : nat :=
  match s with
  | [] => 0
  | b0 :: s1 =>
      if b0 <? 128 then 1
      else if b0 <? 194 then 0
      else if b0 <? 224 then match s1 with b1 :: _ => if cont 128 191 b1 then 2 else 0 | _ => 0 end
      else if b0 <? 240 then
        let lo := if b0 =? 224 then 160 else 128 in
        let hi := if b0 =? 237 then 159 else 191 in
        match s1 with b1 :: b2 :: _ => if cont lo hi b1 && cont 128 191 b2 then 3 else 0 | _ => 0 end
      else if b0 <? 245 then
        let lo := if b0 =? 240 then 144 else 128 in
        let hi := if b0 =? 244 then 143 else 191 in
        match s1 with
        | b1 :: b2 :: b3 :: _ => if cont lo hi b1 && cont 128 191 b2 && cont 128 191 b3 then 4 else 0
        | _ => 0
        end
      else 0
  end.

(** U+FFFD. *)
Definition RuneError : list Z := [239; 191; 189].

(** [utf8.AppendRune]. *)
Definition AppendRune (r : Z) : list Z :=
  if r <? 128 then [r]
  else if r <? 2048 then [192 + r / 64; 128 + r mod 64]
  else if (55296 <=? r) && (r <=? 57343) then RuneError
  else if r <? 65536 then [224 + r / 4096; 128 + r / 64 mod 64; 128 + r mod 64]
  else if r <? 1114112 then [240 + r / 262144; 128 + r / 4096 mod 64; 128 + r / 64 mod 64; 128 + r mod 64]
  else RuneError.

(** The text with every byte that is not part of an encoding replaced. *)
Fixpoint valid_from (fuel : nat) (s : list Z) : list Z :=
  match fuel, s with
  | S fuel', _ :: s' =>
      match rune_width s with
      | O => RuneError ++ valid_from fuel' s'
      | w => take w s ++ valid_from fuel' (drop w s)
      end
  | _, _ => []
  end.

Definition ToValidUTF8 (s : list Z) : list Z := valid_from (length s) s.

(** ** Strings *)

Definition hex4 (n : Z) : list Z :=
  [digit (n / 4096 mod 16); digit (n / 256 mod 16); digit (n / 16 mod 16); digit (n mod 16)].

(** The escape of one ASCII character ([htmlSafeSet]). *)
Definition escape_ascii (c : Z) : list Z :=
  if (c =? 34) || (c =? 92) then [92; c]
  else if c =? 8 then [92; 98]
  else if c =? 12 then [92; 102]
  else if c =? 10 then [92; 110]
  else if c =? 13 then [92; 114]
  else if c =? 9 then [92; 116]
  else if (c <? 32) || (c =? 60) || (c =? 62) || (c =? 38) then 92 :: 117 :: hex4 c
  else [c].

(** The escape of an encoding: U+2028 and U+2029 are escaped. *)
Definition escape_rune (r : list Z) : list Z :=
  match r with
  | [c] => escape_ascii c
  | _ =>
      if decide (r = [226; 128; 168]) then (92 :: str "u2028")
      else if decide (r = [226; 128; 169]) then (92 :: str "u2029")
      else r
  end.

Fixpoint escape_from (fuel : nat) (s : list Z) : list Z :=
  match fuel, s with
  | S fuel', _ :: s' =>
      match rune_width s with
      | O => (92 :: str "ufffd") ++ escape_from fuel' s'
      | w => escape_rune (take w s) ++ escape_from fuel' (drop w s)
      end
  | _, _ => []
  end.

Definition quote (s : list Z) : list Z := 34 :: escape_from (length s) s ++ [34].

(** Four hexadecimal digits. *)
Definition unhex (s : list Z) : option (Z * list Z) :=
  match s with
  | a :: b :: c :: d :: s' =>
      a ← digit_val a; b ← digit_val b; c ← digit_val c; d ← digit_val d;
      if (a <? 16) && (b <? 16) && (c <? 16) && (d <? 16)
      then Some (4096 * a + 256 * b + 16 * c + d, s') else None
  | _ => None
  end.

Definition is_surrogate (r : Z) : bool := (55296 <=? r) && (r <=? 57343).

(** [unquote], from behind the opening quote: the text and what follows the closing
    one. *)
Fixpoint unquote (fuel : nat) (s : list Z) : option (list Z * list Z) :=
  match fuel with
  | O => None
  | S fuel' =>
      match s with
      | [] => None
      | c :: s' =>
          if c =? 34 then Some ([], s')
          else if c <? 32 then None
          else if c =? 92 then
            match s' with
            | [] => None
            | e :: s2 =>
                if e =? 117 then
                  '(r, s3) ← unhex s2;
                  if is_surrogate r then
                    match s3 with
                    | 92 :: 117 :: s4 =>
                        '(r2, s5) ← unhex s4;
                        if (r <? 56320) && (56320 <=? r2) && (r2 <=? 57343) then
                          '(t, rest) ← unquote fuel' s5;
                          Some (AppendRune (65536 + (r - 55296) * 1024 + (r2 - 56320)) ++ t, rest)
                        else
                          '(t, rest) ← unquote fuel' s3; Some (RuneError ++ t, rest)
                    | _ => '(t, rest) ← unquote fuel' s3; Some (RuneError ++ t, rest)
                    end
                  else '(t, rest) ← unquote fuel' s3; Some (AppendRune r ++ t, rest)
                else
                  c' ← (if (e =? 34) || (e =? 92) || (e =? 47) then Some e
                        else if e =? 98 then Some 8
                        else if e =? 102 then Some 12
                        else if e =? 110 then Some 10
                        else if e =? 114 then Some 13
                        else if e =? 116 then Some 9
                        else None);
                  '(t, rest) ← unquote fuel' s2; Some (c' :: t, rest)
            end
          else
            match rune_width s with
            | O => '(t, rest) ← unquote fuel' s'; Some (RuneError ++ t, rest)
            | w => '(t, rest) ← unquote fuel' (drop w s); Some (take w s ++ t, rest)
            end
      end
  end.

(** *** What is escaped is read back *)

Lemma rune_width_length s : (rune_width s <= length s)%nat.
Proof. unfold rune_width. repeat (case_match; simpl; try lia). Qed.

Lemma rune_width_local s t w : rune_width s = S w -> rune_width (take (S w) s ++ t) = S w.
Proof.
  destruct s as [|b0 s]; [done|]. cbn [rune_width]. intros H.
  destruct (b0 <? 128) eqn:E0; [injection H as <-; cbn; by rewrite E0|].
  destruct (b0 <? 194) eqn:E1; [done|].
  destruct (b0 <? 224) eqn:E2.
  { destruct s as [|b1 s]; [done|]. destruct (cont _ _ b1) eqn:C1; [|done]. injection H as <-.
    cbn [take app rune_width]. by rewrite E0, E1, E2, C1. }
  destruct (b0 <? 240) eqn:E3.
  { destruct s as [|b1 [|b2 s]]; [done..|]. destruct (_ && _) eqn:C1; [|done]. injection H as <-.
    cbn [take app rune_width]. by rewrite E0, E1, E2, E3, C1. }
  destruct (b0 <? 245) eqn:E4; [|done].
  destruct s as [|b1 [|b2 [|b3 s]]]; [done..|]. destruct (_ && _ && _) eqn:C1; [|done]. injection H as <-.
  cbn [take app rune_width]. by rewrite E0, E1, E2, E3, E4, C1.
Qed.

(** A rune of one byte is ASCII, and of more bytes starts beyond. *)
Lemma rune_width_ascii c s : rune_width (c :: s) = 1%nat <-> c < 128.
Proof.
  cbn [rune_width]. destruct (Z.ltb_spec c 128); [done|]. split; [|lia]. repeat (case_match; try done).
Qed.

Lemma unhex_hex4 n s : 0 <= n < 65536 -> unhex (hex4 n ++ s) = Some (n, s).
Proof.
  intros H. cbn [hex4 app unhex].
  pose proof (Z.mod_pos_bound (n / 4096) 16 ltac:(lia)). pose proof (Z.mod_pos_bound (n / 256) 16 ltac:(lia)).
  pose proof (Z.mod_pos_bound (n / 16) 16 ltac:(lia)). pose proof (Z.mod_pos_bound n 16 ltac:(lia)).
  rewrite !digit_val_digit by lia. cbn [mbind option_bind].
  rewrite !(proj2 (Z.ltb_lt _ 16)) by lia. cbn [andb]. f_equal. f_equal.
  change 4096 with (16 * 16 * 16). change 256 with (16 * 16). rewrite <- !Z.div_div by lia.
  pose proof (Z.div_mod n 16). pose proof (Z.div_mod (n / 16) 16). pose proof (Z.div_mod (n / 16 / 16) 16).
  rewrite (Z.mod_small (n / 16 / 16 / 16)) by (rewrite !Z.div_div by lia; split; [apply Z.div_pos|apply Z.div_lt_upper_bound]; lia).
  lia.
Qed.

(** Reading the escape of a character, then the rest. *)
Definition then_ (r : list Z) (x : option (list Z * list Z)) : option (list Z * list Z) :=
  '(t, rest) ← x; Some (r ++ t, rest).

Lemma unquote_u fuel n s :
  0 <= n < 65536 -> is_surrogate n = false ->
  unquote (S fuel) (92 :: 117 :: hex4 n ++ s) = then_ (AppendRune n) (unquote fuel s).
Proof. intros H Hs. cbn [unquote]. rewrite !Z.eqb_refl. simpl (92 =? 34). simpl (92 <? 32). cbv iota. rewrite unhex_hex4 by done. cbn [mbind option_bind]. by rewrite Hs. Qed.

Lemma unquote_ascii fuel c s : 0 <= c < 128 -> unquote (S fuel) (escape_ascii c ++ s) = then_ [c] (unquote fuel s).
Proof.
  intros Hc. unfold escape_ascii.
  destruct (Z.eqb_spec c 34) as [->|H34]; [reflexivity|]. destruct (Z.eqb_spec c 92) as [->|H92]; [reflexivity|]. cbn [orb].
  destruct (Z.eqb_spec c 8) as [->|_]; [reflexivity|]. destruct (Z.eqb_spec c 12) as [->|_]; [reflexivity|].
  destruct (Z.eqb_spec c 10) as [->|_]; [reflexivity|]. destruct (Z.eqb_spec c 13) as [->|_]; [reflexivity|].
  destruct (Z.eqb_spec c 9) as [->|_]; [reflexivity|].
  destruct ((c <? 32) || (c =? 60) || (c =? 62) || (c =? 38)) eqn:Ee.
  - rewrite <- !app_comm_cons, unquote_u; [|lia|].
    + unfold AppendRune. by rewrite (proj2 (Z.ltb_lt c 128)) by lia.
    + unfold is_surrogate. by rewrite (proj2 (Z.leb_gt 55296 c)) by lia.
  - cbn [app unquote]. apply orb_false_iff in Ee as [[[E32 _]%orb_false_iff _]%orb_false_iff _].
    rewrite (proj2 (Z.eqb_neq c 34)), E32, (proj2 (Z.eqb_neq c 92)) by done.
    replace (rune_width (c :: s)) with 1%nat by (symmetry; apply rune_width_ascii; lia). done.
Qed.

Lemma unquote_rune fuel r s :
  Forall byte r -> rune_width r = length r -> (1 < length r)%nat ->
  unquote (S fuel) (escape_rune r ++ s) = then_ r (unquote fuel s).
Proof.
  intros Hb Hw Hl. destruct r as [|c [|c1 r]]; [simpl in Hl; lia..|]. cbn [escape_rune].
  case_decide as H8; [rewrite H8; reflexivity|]. case_decide as H9; [rewrite H9; reflexivity|]. clear H8 H9.
  assert (128 <= c). { destruct (Z.lt_ge_cases c 128) as [Hc|]; [|done]. apply (rune_width_ascii c (c1 :: r)) in Hc. rewrite Hw in Hc. done. }
  pose proof (rune_width_local (c :: c1 :: r) s (S (length r)) Hw) as Hloc.
  rewrite firstn_all2 in Hloc by (simpl; lia).
  cbn [unquote app]. rewrite !(proj2 (Z.eqb_neq c _)), (proj2 (Z.ltb_ge c 32)) by lia.
  cbn [app] in Hloc. rewrite Hloc. cbn [take drop]. rewrite drop_app_length, take_app_length. done.
Qed.

Lemma escape_rune_nonempty r : r <> [] -> (0 < length (escape_rune r))%nat.
Proof.
  destruct r as [|c [|c1 r]]; [done|intros _|intros _]; cbn [escape_rune].
  - unfold escape_ascii. repeat (case_match; try (simpl; lia)).
  - repeat case_decide; simpl; lia.
Qed.

Lemma unquote_escape n s rest fuel :
  Forall byte s -> (length (escape_from n s) < fuel)%nat -> (length s <= n)%nat ->
  unquote fuel (escape_from n s ++ 34 :: rest) = Some (valid_from n s, rest).
Proof.
  revert s fuel. induction n as [|n IH]; intros s fuel Hb Hf Hn.
  { destruct s; [|simpl in Hn; lia]. destruct fuel; [simpl in Hf; lia|]. reflexivity. }
  destruct s as [|c s]; [destruct fuel; [simpl in Hf; lia|]; reflexivity|].
  cbn [escape_from valid_from] in *. destruct (rune_width (c :: s)) as [|w] eqn:Ew.
  - destruct fuel as [|fuel]; [lia|]. rewrite <- app_assoc.
    change ((92 :: str "ufffd") ++ escape_from n s ++ 34 :: rest) with (92 :: 117 :: hex4 65533 ++ (escape_from n s ++ 34 :: rest)).
    rewrite unquote_u by (done || lia). apply Forall_cons in Hb as [_ Hb]. rewrite IH; [done|done| |simpl in Hn; lia].
    rewrite length_app in Hf. simpl in Hf. lia.
  - pose proof (rune_width_length (c :: s)) as Hle. rewrite Ew in Hle.
    assert (length (take (S w) (c :: s)) = S w) as Hlen by (rewrite length_take; lia).
    pose proof (escape_rune_nonempty (take (S w) (c :: s)) ltac:(done)) as Hne. rewrite length_app in Hf.
    destruct fuel as [|fuel]; [lia|]. rewrite <- app_assoc.
    assert (forall x, unquote (S fuel) (escape_rune (take (S w) (c :: s)) ++ x) = then_ (take (S w) (c :: s)) (unquote fuel x)) as ->.
    { intros x. destruct w as [|w].
      - apply rune_width_ascii in Ew as Hc. cbn [take escape_rune]. apply Forall_cons in Hb as [[? ?] _]. apply unquote_ascii. lia.
      - apply unquote_rune; [by apply Forall_take|rewrite Hlen, <- (app_nil_r (take _ _)); by apply rune_width_local|lia]. }
    rewrite IH; [done|by apply Forall_drop|lia|rewrite length_drop; lia].
Qed.

(** [utf8.Valid]. *)
Fixpoint Valid_from (fuel : nat) (s : list Z) : bool :=
  match fuel, s with
  | S fuel', _ :: _ => match rune_width s with O => false | w => Valid_from fuel' (drop w s) end
  | _, _ => true
  end.

Definition utf8_Valid (s : list Z) : bool := Valid_from (length s) s.

Lemma ToValidUTF8_valid s : utf8_Valid s = true -> ToValidUTF8 s = s.
Proof.
  unfold utf8_Valid, ToValidUTF8. assert (forall n, (length s <= n)%nat -> Valid_from n s = true -> valid_from n s = s) as H; [|by apply H].
  intros n. revert s. induction n as [|n IH]; intros s Hn Hv; [by destruct s; [|simpl in Hn; lia]|].
  destruct s as [|c s]; [done|]. cbn [Valid_from valid_from] in *.
  destruct (rune_width (c :: s)) as [|w] eqn:Ew; [done|]. rewrite IH; [by rewrite take_drop| |done].
  rewrite length_drop. simpl in *. lia.
Qed.

(** What is printed has no control character. *)
Lemma escape_ascii_printable c : 0 <= c < 128 -> Forall (fun b => 32 <= b) (escape_ascii c).
Proof.
  intros Hc. assert (Forall (fun b => 32 <= b) (hex4 c)) as Hh.
  { unfold hex4. repeat constructor; unfold digit; case_match; zbool;
      match goal with |- context [?x mod 16] => pose proof (Z.mod_pos_bound x 16 ltac:(lia)) end; lia. }
  unfold escape_ascii. repeat case_match; repeat (apply Forall_cons_2; [lia|]); try apply Forall_nil_2; try exact Hh.
  all: repeat match goal with H : _ || _ = true |- _ => apply orb_prop in H as [H|H] end; zbool;
    repeat (apply Forall_cons_2; [lia|]); apply Forall_nil_2.
Qed.

Lemma escape_from_printable n s : Forall byte s -> Forall (fun b => 32 <= b) (escape_from n s).
Proof.
  revert s. induction n as [|n IH]; intros s Hb; [constructor|]. destruct s as [|c s]; [constructor|].
  cbn [escape_from]. destruct (rune_width (c :: s)) as [|w] eqn:Ew.
  - apply Forall_app_2; [by apply (bool_decide_unpack _)|]. apply IH. by apply Forall_cons in Hb as [_ ?].
  - apply Forall_app_2; [|by apply IH, Forall_drop].
    destruct w as [|w].
    { apply rune_width_ascii in Ew. cbn [take escape_rune]. apply Forall_cons in Hb as [[? ?] _]. apply escape_ascii_printable. lia. }
    assert (Forall (fun b => 32 <= b) (take (S (S w)) (c :: s))) as Hr.
    { clear IH Hb. unfold rune_width in Ew. repeat (case_match; try done); simplify_eq; cbn [take];
        unfold cont in *; zbool; repeat constructor; try lia. all: repeat (case_match; zbool); try lia. }
    destruct s as [|c1 s]; [cbn in Ew; repeat (case_match; try done)|]. cbn [take escape_rune] in *.
    repeat case_decide; [by apply (bool_decide_unpack _)..|done].
Qed.

(** ** Values *)

Inductive json :=
  | Null
  | Bool (b : bool)
  | Num (text : list Z)
  | Str (s : list Z)
  | Arr (l : list json)
  | Obj (l : list (list Z * json)).

(** Induction with the elements and members. *)
Lemma json_induction (P : json -> Prop) :
  P Null -> (forall b, P (Bool b)) -> (forall t, P (Num t)) -> (forall s, P (Str s)) ->
  (forall l, Forall P l -> P (Arr l)) -> (forall l, Forall (fun kv => P kv.2) l -> P (Obj l)) -> forall v, P v.
Proof.
  intros H1 H2 H3 H4 H5 H6. fix IH 1. intros [ |b|t|s|l|l]; [done|done|done|done| |].
  - apply H5. induction l as [|v l IHl]; constructor; [apply IH|apply IHl].
  - apply H6. induction l as [|[k v] l IHl]; constructor; [apply IH|apply IHl].
Qed.

Fixpoint encode (v : json) : list Z :=
  match v with
  | Null => str "null"
  | Bool b => if b then str "true" else str "false"
  | Num text => text
  | Str s => quote s
  | Arr l => 91 :: join_with 44 (encode <$> l) ++ [93]
  | Obj l => 123 :: join_with 44 ((fun kv => quote kv.1 ++ 58 :: encode kv.2) <$> l) ++ [125]
  end.

(** ** Reading *)

Definition is_ws (c : Z) : bool := (c =? 32) || (c =? 9) || (c =? 10) || (c =? 13).

Fixpoint skip_ws (s : list Z) : list Z :=
  match s with
  | c :: s' => if is_ws c then skip_ws s' else s
  | [] => []
  end.

Definition is_digit (c : Z) : bool := (48 <=? c) && (c <=? 57).

Fixpoint digits_of (s : list Z) : list Z * list Z :=
  match s with
  | c :: s' => if is_digit c then let '(d, r) := digits_of s' in (c :: d, r) else ([], s)
  | [] => ([], [])
  end.

(** What follows the character [c]. *)
Definition eat (c : Z) (s : list Z) : option (list Z) :=
  match s with x :: s' => if x =? c then Some s' else None | [] => None end.

(** The integer part, the fraction and the exponent of a number. *)
Definition int_part (s : list Z) : option (list Z * list Z) :=
  match eat 48 s with
  | Some s' => Some ([48], s')
  | None => match digits_of s with ([], _) => None | (d, r) => Some (d, r) end
  end.

Definition frac_part (s : list Z) : option (list Z * list Z) :=
  match eat 46 s with
  | Some s' => match digits_of s' with ([], _) => None | (d, r) => Some (46 :: d, r) end
  | None => Some ([], s)
  end.

Definition exp_part (s : list Z) : option (list Z * list Z) :=
  match s with
  | c :: s' =>
      if (c =? 101) || (c =? 69) then
        let '(sign, s2) := match s' with x :: s2 => if (x =? 43) || (x =? 45) then ([x], s2) else ([], s') | [] => ([], []) end in
        match digits_of s2 with ([], _) => None | (d, r) => Some (c :: sign ++ d, r) end
      else Some ([], s)
  | [] => Some ([], [])
  end.

Definition number (s : list Z) : option (list Z * list Z) :=
  let '(sign, s1) := match eat 45 s with Some s' => ([45], s') | None => ([], s) end in
  '(i, s2) ← int_part s1;
  '(f, s3) ← frac_part s2;
  '(e, s4) ← exp_part s3;
  Some (sign ++ i ++ f ++ e, s4).

(** [null], a boolean or a number. *)
Definition scalar (s : list Z) : option (json * list Z) :=
  match CutPrefix s (str "null"), CutPrefix s (str "true"), CutPrefix s (str "false") with
  | Some r, _, _ => Some (Null, r)
  | _, Some r, _ => Some (Bool true, r)
  | _, _, Some r => Some (Bool false, r)
  | _, _, _ => '(t, r) ← number s; Some (Num t, r)
  end.

(** A value, and what follows; one or more elements, up to and with the bracket; one
    or more members, up to and with the brace. *)
Fixpoint value (fuel : nat) (s : list Z) : option (json * list Z) :=
  match fuel with
  | O => None
  | S fuel' =>
      let s := skip_ws s in
      match eat 34 s, eat 91 s, eat 123 s with
      | Some s', _, _ => '(t, r) ← unquote (length s) s'; Some (Str t, r)
      | _, Some s', _ =>
          match eat 93 (skip_ws s') with
          | Some r => Some (Arr [], r)
          | None => '(l, r) ← elements fuel' s'; Some (Arr l, r)
          end
      | _, _, Some s' =>
          match eat 125 (skip_ws s') with
          | Some r => Some (Obj [], r)
          | None => '(l, r) ← members fuel' s'; Some (Obj l, r)
          end
      | _, _, _ => scalar s
      end
  end
with elements (fuel : nat) (s : list Z) : option (list json * list Z) :=
  match fuel with
  | O => None
  | S fuel' =>
      '(v, r) ← value fuel' s;
      match eat 44 (skip_ws r), eat 93 (skip_ws r) with
      | Some r', _ => '(l, r2) ← elements fuel' r'; Some (v :: l, r2)
      | _, Some r' => Some ([v], r')
      | _, _ => None
      end
  end
with members (fuel : nat) (s : list Z) : option (list (list Z * json) * list Z) :=
  match fuel with
  | O => None
  | S fuel' =>
      s' ← eat 34 (skip_ws s);
      '(k, r) ← unquote (S (length s')) s';
      r1 ← eat 58 (skip_ws r);
      '(v, r2) ← value fuel' r1;
      match eat 44 (skip_ws r2), eat 125 (skip_ws r2) with
      | Some r3, _ => '(l, r4) ← members fuel' r3; Some ((k, v) :: l, r4)
      | _, Some r3 => Some ([(k, v)], r3)
      | _, _ => None
      end
  end.

(** How deep the arrays and objects of a value are nested. *)
Fixpoint depth (v : json) : Z :=
  match v with
  | Arr l => 1 + foldr Z.max 0 (depth <$> l)
  | Obj l => 1 + foldr Z.max 0 ((fun kv => depth kv.2) <$> l)
  | _ => 0
  end.

(** The scanner of the package refuses what is nested deeper. *)
Definition maxNestingDepth : Z := 10000.

(** [json.Unmarshal] into [any], before numbers are converted; every nested value takes
    a character, so the length bounds the recursion. *)
Definition parse (s : list Z) : option json :=
  '(v, r) ← value (S (length s)) s;
  match skip_ws r with
  | [] => if depth v <=? maxNestingDepth then Some v else None
  | _ => None
  end.
