(* ===== verification/JsonTheorems.v ===== *)
(** What [encoding/json] writes is read back, and is one line. *)

From S2P Require Import Prelude GoStd Json.

(** ** Numbers *)

(** A literal, and what may follow one. *)
Definition literal (t : list Z) : Prop := number t = Some (t, []).

Definition ends_number (r : list Z) : Prop :=
  match r with c :: _ => is_digit c = false /\ c <> 46 /\ c <> 101 /\ c <> 69 | [] => True end.

Lemma digits_of_app s r :
  (match r with c :: _ => is_digit c = false | [] => True end) ->
  digits_of (s ++ r) = let '(d, t) := digits_of s in (d, t ++ r).
Proof.
  intros Hr. induction s as [|c s IH]; cbn [app digits_of].
  - destruct r as [|c r]; [done|]. cbn [digits_of]. by rewrite Hr.
  - destruct (is_digit c); [|done]. rewrite IH. by destruct (digits_of s).
Qed.

Lemma ends_digit r : ends_number r -> match r with c :: _ => is_digit c = false | [] => True end.
Proof. destruct r; [done|]. by intros [? _]. Qed.

Lemma eat_app c s r : s <> [] -> eat c (s ++ r) = (fun t => t ++ r) <$> eat c s.
Proof. destruct s as [|x s]; [done|]. intros _. cbn. by destruct (x =? c). Qed.

Lemma int_part_app s r d t : ends_number r -> int_part s = Some (d, t) -> int_part (s ++ r) = Some (d, t ++ r).
Proof.
  intros Hr H. unfold int_part in *. destruct s as [|c s]; [done|]. rewrite eat_app by done.
  destruct (eat 48 (c :: s)) as [s'|]; cbn [fmap option_fmap option_map]; [by simplify_eq|].
  rewrite digits_of_app by by apply ends_digit. destruct (digits_of (c :: s)) as [[|x d'] t']; [done|]. by simplify_eq.
Qed.

Lemma frac_part_app s r d t : ends_number r -> frac_part s = Some (d, t) -> frac_part (s ++ r) = Some (d, t ++ r).
Proof.
  intros Hr H. unfold frac_part in *. destruct s as [|c s].
  - simpl in H. simplify_eq. destruct r as [|c r]; [done|]. destruct Hr as (_ & H46 & _). cbn.
    by rewrite (proj2 (Z.eqb_neq _ _)).
  - rewrite eat_app by done. destruct (eat 46 (c :: s)) as [s'|]; cbn [fmap option_fmap option_map]; [|by simplify_eq].
    rewrite digits_of_app by by apply ends_digit. destruct (digits_of s') as [[|x d'] t']; [done|]. by simplify_eq.
Qed.

Lemma exp_part_app s r d t : ends_number r -> exp_part s = Some (d, t) -> exp_part (s ++ r) = Some (d, t ++ r).
Proof.
  intros Hr H. destruct s as [|c s].
  - cbn in H. simplify_eq. destruct r as [|c r]; [done|]. destruct Hr as (_ & _ & H1 & H2). cbn.
    by rewrite !(proj2 (Z.eqb_neq _ _)).
  - cbn [app exp_part] in *. destruct ((c =? 101) || (c =? 69)); [|by simplify_eq].
    destruct s as [|x s]; [done|]. cbn [app].
    destruct ((x =? 43) || (x =? 45)).
    + rewrite digits_of_app by by apply ends_digit. destruct (digits_of s) as [[|y d'] t']; [done|]. by simplify_eq.
    + rewrite app_comm_cons, digits_of_app by by apply ends_digit. destruct (digits_of (x :: s)) as [[|y d'] t']; [done|]. by simplify_eq.
Qed.

Lemma number_app s r d t : ends_number r -> s <> [] -> number s = Some (d, t) -> number (s ++ r) = Some (d, t ++ r).
Proof.
  intros Hr Hs H. unfold number in *. rewrite eat_app by done.
  set (x := match eat 45 s with Some s' => ([45], s') | None => ([], s) end) in *.
  assert ((match (fun t => t ++ r) <$> eat 45 s with Some s' => ([45], s') | None => ([], s ++ r) end) = (x.1, x.2 ++ r)) as ->.
  { unfold x. by destruct (eat 45 s). }
  destruct x as [sign s1]. cbn [fst snd].
  destruct (int_part s1) as [[i s2]|] eqn:Ei; [|done]. rewrite (int_part_app _ _ _ _ Hr Ei). cbn [mbind option_bind] in *.
  destruct (frac_part s2) as [[f s3]|] eqn:Ef; [|done]. rewrite (frac_part_app _ _ _ _ Hr Ef). cbn [mbind option_bind] in *.
  destruct (exp_part s3) as [[e s4]|] eqn:Ee; [|done]. rewrite (exp_part_app _ _ _ _ Hr Ee). cbn [mbind option_bind] in *.
  by simplify_eq.
Qed.

(** The first character of a literal. *)
Lemma literal_head t : literal t -> exists c t', t = c :: t' /\ (c = 45 \/ is_digit c = true).
Proof.
  unfold literal, number. destruct t as [|c t]; [done|]. intros H. exists c, t. split; [done|].
  cbn [eat] in H. destruct (Z.eqb_spec c 45) as [->|Hc]; [by left|]. right.
  unfold int_part in H. cbn [eat] in H. destruct (Z.eqb_spec c 48) as [->|Hc0]; [done|].
  cbn [digits_of] in H. by destruct (is_digit c).
Qed.

Lemma digits_of_digits d : Forall (fun c => is_digit c = true) d -> digits_of d = (d, []).
Proof. induction 1 as [|c d Hc _ IH]; [done|]. cbn. by rewrite Hc, IH. Qed.

Lemma digits_literal (sign : bool) d :
  Forall (fun c => is_digit c = true) d -> d = [48] \/ (exists c d', d = c :: d' /\ c <> 48) ->
  literal ((if sign then [45] else []) ++ d).
Proof.
  intros Hd H. assert (int_part d = Some (d, [])) as Hi.
  { unfold int_part. destruct H as [->|(c & d' & -> & Hc)]; [done|]. cbn [eat]. rewrite (proj2 (Z.eqb_neq _ _)) by done.
    by rewrite digits_of_digits. }
  assert (exists c d', d = c :: d' /\ c <> 45) as (c & d' & Ed & Hc).
  { destruct H as [->|(c & d' & -> & Hc)]; eexists _, _; (split; [done|]); [done|].
    intros ->. apply Forall_cons in Hd as [? _]. done. }
  unfold literal, number. destruct sign; cbn [app eat].
  - rewrite Z.eqb_refl, Hi. cbn. by rewrite app_nil_r.
  - assert (eat 45 d = None) as -> by (rewrite Ed; cbn; by rewrite (proj2 (Z.eqb_neq _ _))).
    rewrite Hi. cbn. by rewrite app_nil_r.
Qed.

Lemma digit_is_digit d : 0 <= d < 10 -> is_digit (digit d) = true /\ (digit d = 48 -> d = 0).
Proof.
  intros H. unfold digit, is_digit. rewrite (proj2 (Z.ltb_lt d 10)) by lia.
  rewrite (proj2 (Z.leb_le 48 _)), (proj2 (Z.leb_le _ 57)) by lia. split; [done|lia].
Qed.

Lemma digits_spec fuel n :
  0 <= n < 2 ^ Z.of_nat fuel -> (0 < fuel)%nat ->
  Forall (fun c => is_digit c = true) (digits 10 fuel n) /\
  (n = 0 /\ digits 10 fuel n = [48] \/ exists c d, digits 10 fuel n = c :: d /\ c <> 48).
Proof.
  revert n. induction fuel as [|f IH]; intros n Hn Hf; [lia|]. cbn [digits].
  destruct (Z.ltb_spec n 10) as [H|H].
  - destruct (digit_is_digit n ltac:(lia)) as [Hd H0]. split; [by repeat constructor|].
    destruct (decide (n = 0)) as [->|Hz]; [by left|right]. exists (digit n), []. split; [done|]. intros E. by apply Hz, H0.
  - rewrite Nat2Z.inj_succ, Z.pow_succ_r in Hn by lia. pose proof (Z.mod_pos_bound n 10 ltac:(lia)).
    assert (1 <= n / 10) as Hq by (apply Z.div_le_lower_bound; lia).
    assert (n / 10 < 2 ^ Z.of_nat f) by (apply Z.div_lt_upper_bound; lia).
    destruct f as [|f]; [simpl in *; lia|].
    destruct (IH (n / 10) ltac:(lia) ltac:(lia)) as [Hd [[? _]|(c & d & Hc & Hc0)]]; [lia|]. split.
    + apply Forall_app_2; [done|]. repeat constructor. by apply digit_is_digit.
    + right. rewrite Hc. by eexists _, _.
Qed.

(** Integers are literals. *)
Lemma FormatInt_literal n : literal (FormatInt n).
Proof.
  assert (forall m sign, 0 <= m -> literal ((if sign : bool then [45] else []) ++ FormatUint 10 m)) as H.
  { intros m sign Hm. unfold FormatUint. destruct (digits_spec (S (Z.to_nat (Z.log2 m))) m) as [Hd Hh]; [|lia|].
    - split; [done|]. rewrite Nat2Z.inj_succ, Z2Nat.id by apply Z.log2_nonneg.
      destruct (decide (m = 0)) as [->|]; [done|]. apply Z.log2_spec. lia.
    - apply digits_literal; [done|]. destruct Hh as [[_ ?]|?]; [by left|by right]. }
  unfold FormatInt. destruct (Z.ltb_spec n 0); [apply (H (- n) true)|apply (H n false)]; lia.
Qed.

(** ** Values *)

(** Strings are bytes and numbers literals. *)
Inductive wf : json -> Prop :=
  | wf_null : wf Null
  | wf_bool b : wf (Bool b)
  | wf_num t : literal t -> wf (Num t)
  | wf_str s : Forall byte s -> wf (Str s)
  | wf_arr l : Forall wf l -> wf (Arr l)
  | wf_obj l : Forall (fun kv => Forall byte kv.1 /\ wf kv.2) l -> wf (Obj l).

(** What is read for a value: its strings with invalid UTF-8 replaced. *)
Fixpoint canon (v : json) : json :=
  match v with
  | Str s => Str (ToValidUTF8 s)
  | Arr l => Arr (canon <$> l)
  | Obj l => Obj ((fun kv => (ToValidUTF8 kv.1, canon kv.2)) <$> l)
  | _ => v
  end.

Fixpoint size_of (v : json) : nat :=
  match v with
  | Arr l => S (sum_list_with (fun v => S (size_of v)) (l))
  | Obj l => S (sum_list_with (fun kv => S (size_of kv.2)) (l))
  | _ => 1
  end.

Lemma eat_ne c x s : x <> c -> eat c (x :: s) = None.
Proof. intros H. cbn. by rewrite (proj2 (Z.eqb_neq _ _)). Qed.

Lemma eat_eq c s : eat c (c :: s) = Some s.
Proof. cbn. by rewrite Z.eqb_refl. Qed.

Lemma skip_ws_head c t : is_ws c = false -> skip_ws (c :: t) = c :: t.
Proof. cbn. by intros ->. Qed.

(** *** Texts *)

(** The texts of a string: what [unquote] reads as the string, up to the quotation
    mark. *)
Definition string_text (s u : list Z) : Prop :=
  Forall byte u /\ forall r fuel, (length u < fuel)%nat -> unquote fuel (u ++ 34 :: r) = Some (s, r).

(** A member of an object, its key and its value. *)
Definition member_text (ku : list Z * list Z) : list Z := (34 :: ku.1 ++ [34]) ++ 58 :: ku.2.

(** The texts of a value, without white space. *)
Inductive text : json -> list Z -> Prop :=
  | text_null : text Null (str "null")
  | text_bool (b : bool) : text (Bool b) (if b then str "true" else str "false")
  | text_num t : literal t -> text (Num t) t
  | text_str s u : string_text s u -> text (Str s) (34 :: u ++ [34])
  | text_arr l us : Forall2 text l us -> text (Arr l) (91 :: join_with 44 us ++ [93])
  | text_obj l us :
      Forall2 (fun kv ku => string_text kv.1 ku.1 /\ text kv.2 ku.2) l us ->
      text (Obj l) (123 :: join_with 44 (member_text <$> us) ++ [125]).

(** The first character of a value tells its kind and is no space. *)
Lemma text_head v u : text v u -> exists c t, u = c :: t /\ is_ws c = false /\ c <> 93 /\ c <> 125.
Proof.
  destruct 1 as [|b|t Ht|s|l|l]; try (eexists _, _; split; [reflexivity|done]).
  - destruct b; (eexists _, _; split; [reflexivity|done]).
  - destruct (literal_head t Ht) as (c & t' & -> & Hc). exists c, t'. split; [done|].
    destruct Hc as [->|Hc]; [done|]. unfold is_digit in Hc. zbool.
    unfold is_ws. rewrite !(proj2 (Z.eqb_neq c _)) by lia. split_and!; [done|lia|lia].
Qed.

Lemma skip_text v u r : text v u -> skip_ws (u ++ r) = u ++ r.
Proof. intros H. destruct (text_head v u H) as (c & t & -> & Hw & _). by apply skip_ws_head. Qed.

(** What may follow a value in the text of another. *)
Definition follows (r : list Z) : Prop := ends_number r.

Lemma quote_app s r : quote s ++ r = 34 :: escape_from (length s) s ++ 34 :: r.
Proof. unfold quote. by rewrite <- app_comm_cons, <- app_assoc. Qed.

Definition reads (v : json) : Prop :=
  forall u fuel r, text v u -> (size_of v <= fuel)%nat -> follows r -> value fuel (u ++ r) = Some (v, r).

Lemma reads_scalar v : (match v with Null | Bool _ | Num _ => True | _ => False end) -> reads v.
Proof.
  intros Hv u fuel r Hu Hs Hr. destruct fuel as [|fuel]; [destruct v; simpl in Hs; lia|].
  cbn [value]. rewrite (skip_text v u r Hu). destruct Hu as [|b|t Ht|s|l|l]; try done.
  - destruct b; reflexivity.
  - pose proof (number_app t r t [] Hr) as Hn. destruct (literal_head t Ht) as (c & t' & Et & Hc).
    specialize (Hn ltac:(by rewrite Et) Ht). cbn [app] in Hn.
    assert (45 <= c <= 57) as Hc'. { destruct Hc as [->|Hc]; [lia|]. unfold is_digit in Hc. zbool. lia. }
    assert (forall p q, 97 <= p -> CutPrefix (t ++ r) (p :: q) = None) as Hcut.
    { intros p q Hp. unfold CutPrefix, HasPrefix. rewrite bool_decide_eq_false_2; [done|].
      rewrite Et. intros [k E]. injection E. lia. }
    unfold scalar. change (str "null") with (110 :: str "ull"). change (str "true") with (116 :: str "rue").
    change (str "false") with (102 :: str "alse"). rewrite (Hcut 110 (str "ull")), (Hcut 116 (str "rue")), (Hcut 102 (str "alse")) by lia.
    rewrite Hn. cbn. rewrite Et. cbn. by rewrite !(proj2 (Z.eqb_neq c _)) by lia.
Qed.

Lemma elements_read l us r fuel :
  Forall2 text l us -> Forall reads l -> l <> [] -> (sum_list_with (fun v => S (size_of v)) l <= fuel)%nat ->
  elements fuel (join_with 44 us ++ 93 :: r) = Some (l, r).
Proof.
  intros Hu. revert fuel. induction Hu as [|v u l us Hv Hu IH]; intros fuel Hl Hn Hf; [done|].
  apply Forall_cons in Hl as [Hrv Hl]. cbn [sum_list_with] in Hf.
  destruct fuel as [|fuel]; [lia|]. cbn [elements].
  destruct Hu as [|v' u' l us Hv' Hu].
  - cbn [join_with]. rewrite Hrv by (done || simpl in *; lia). cbn [mbind option_bind].
    rewrite (skip_ws_head 93) by done. rewrite (eat_ne 44), eat_eq by done. done.
  - change (join_with 44 (u :: u' :: us)) with (u ++ 44 :: join_with 44 (u' :: us)).
    rewrite <- app_assoc, <- app_comm_cons, Hrv by (done || lia). cbn [mbind option_bind].
    rewrite (skip_ws_head 44), eat_eq by done. rewrite IH; [done|done|done|lia].
Qed.

Lemma member_read k ku v u r fuel :
  string_text k ku -> text v u -> reads v -> (size_of v <= fuel)%nat -> follows r ->
  members (S fuel) (member_text (ku, u) ++ r) =
  match eat 44 (skip_ws r), eat 125 (skip_ws r) with
  | Some r3, _ => '(l, r4) ← members fuel r3; Some ((k, v) :: l, r4)
  | _, Some r3 => Some ([(k, v)], r3)
  | _, _ => None
  end.
Proof.
  intros [_ Hk] Hu Hv Hf Hr. cbn [members]. unfold member_text. cbn [fst snd]. rewrite <- !app_comm_cons, <- !app_assoc.
  cbn [app]. rewrite (skip_ws_head 34), eat_eq by done. cbn [mbind option_bind].
  rewrite Hk by (rewrite length_app; simpl; lia). cbn [mbind option_bind].
  rewrite (skip_ws_head 58), eat_eq by done. cbn [mbind option_bind]. by rewrite Hv.
Qed.

Lemma members_read l us r fuel :
  Forall2 (fun kv ku => string_text kv.1 ku.1 /\ text kv.2 ku.2) l us -> Forall (fun kv => reads kv.2) l -> l <> [] ->
  (sum_list_with (fun kv => S (size_of kv.2)) l <= fuel)%nat ->
  members fuel (join_with 44 (member_text <$> us) ++ 125 :: r) = Some (l, r).
Proof.
  intros Hu. revert fuel. induction Hu as [|[k v] [ku u] l us [Hk Hv] Hu IH]; intros fuel Hl Hn Hf; [done|].
  apply Forall_cons in Hl as [Hrv Hl]. cbn [sum_list_with fst snd] in *.
  destruct fuel as [|fuel]; [lia|]. destruct Hu as [|[k' v'] [ku' u'] l us Hv' Hu].
  - change (join_with 44 (member_text <$> [(ku, u)])) with (member_text (ku, u)).
    rewrite (member_read k ku v u) by (done || simpl in *; lia).
    rewrite (skip_ws_head 125) by done. rewrite (eat_ne 44), eat_eq by done. done.
  - change (join_with 44 (member_text <$> (ku, u) :: (ku', u') :: us)) with
      (member_text (ku, u) ++ 44 :: join_with 44 (member_text <$> (ku', u') :: us)).
    rewrite <- app_assoc, <- app_comm_cons, (member_read k ku v u) by (done || lia).
    rewrite (skip_ws_head 44), eat_eq by done. rewrite IH; [done|done|done|lia].
Qed.

Lemma join_head c p ps r : exists x, join_with c (p :: ps) ++ r = p ++ x.
Proof.
  destruct ps as [|q ps]; [by exists r|]. exists ((c :: join_with c (q :: ps)) ++ r).
  change (join_with c (p :: q :: ps)) with (p ++ c :: join_with c (q :: ps)). by rewrite <- app_assoc.
Qed.

Lemma all_read v : reads v.
Proof.
  induction v as [ |b|t|s|l IH|l IH] using json_induction; try (by apply reads_scalar);
    intros u fuel r Hu Hs Hr; (destruct fuel as [|fuel]; [simpl in Hs; lia|]); inversion Hu as [| | |? u' Hs'|? us Hus|? us Hus]; subst; cbn [value].
  - destruct Hs' as [_ Hs']. rewrite <- app_comm_cons, <- app_assoc. cbn [app]. rewrite (skip_ws_head 34), eat_eq by done.
    rewrite Hs'; [done|]. cbn [length]. rewrite length_app. lia.
  - cbn [app]. rewrite (skip_ws_head 91), (eat_ne 34), eat_eq by done. rewrite <- app_assoc.
    destruct Hus as [|v u l us Hv Hus]; [reflexivity|].
    assert (eat 93 (skip_ws (join_with 44 (u :: us) ++ [93] ++ r)) = None) as ->.
    { destruct (text_head v u Hv) as (c & t & Ev & Hw & H93 & _).
      destruct (join_head 44 u us ([93] ++ r)) as [x ->]. rewrite Ev. cbn [app]. rewrite skip_ws_head by done. by apply eat_ne. }
    change ([93] ++ r) with (93 :: r). rewrite (elements_read (v :: l)); [done|by constructor|done|done|simpl in *; lia].
  - cbn [app]. rewrite (skip_ws_head 123), (eat_ne 34), (eat_ne 91), eat_eq by done. rewrite <- app_assoc.
    destruct Hus as [|kv ku l us Hv Hus]; [reflexivity|].
    assert (eat 125 (skip_ws (join_with 44 (member_text <$> ku :: us) ++ [125] ++ r)) = None) as ->.
    { rewrite fmap_cons. destruct (join_head 44 (member_text ku) (member_text <$> us) ([125] ++ r)) as [x ->]. done. }
    change ([125] ++ r) with (125 :: r). rewrite (members_read (kv :: l)); [done|by constructor|done|done|simpl in *; lia].
Qed.

Lemma length_join (us : list (list Z)) :
  us <> [] -> (length (join_with 44 us) + 1 = sum_list_with (fun u => S (length u)) us)%nat.
Proof.
  induction us as [|a [|b l] IH]; intros Hn; [done|simpl; lia|].
  change (join_with 44 (a :: b :: l)) with (a ++ 44 :: join_with 44 (b :: l)).
  rewrite length_app. cbn [length]. specialize (IH ltac:(done)). cbn [sum_list_with] in *. lia.
Qed.

Lemma sum_list_with_le2 {A B} (f : A -> nat) (g : B -> nat) l k :
  Forall2 (fun a b => f a <= g b)%nat l k -> (sum_list_with f l <= sum_list_with g k)%nat.
Proof. induction 1; cbn [sum_list_with]; lia. Qed.

Lemma size_text v : forall u, text v u -> (size_of v <= length u)%nat.
Proof.
  induction v as [ |b|t|s|l IH|l IH] using json_induction; intros u Hu; inversion Hu as [|?|? Ht|? u' Hs'|? us Hus|? us Hus]; subst;
    cbn [size_of].
  - simpl. lia.
  - destruct b; simpl; lia.
  - destruct (literal_head u Ht) as (c & t' & -> & _). simpl. lia.
  - simpl. lia.
  - cbn [length]. rewrite length_app. destruct Hus as [|v u l us Hv Hus]; [simpl; lia|].
    pose proof (length_join (u :: us) ltac:(done)).
    assert (Forall2 (fun v u => S (size_of v) <= S (length u))%nat (v :: l) (u :: us)) as Hs%sum_list_with_le2.
    { apply Forall_cons in IH as [IHv IH]. constructor; [specialize (IHv u Hv); lia|]. clear -IH Hus.
      induction Hus as [|x y l us Hx Hus IHus]; constructor; apply Forall_cons in IH as [IHx IH]; [specialize (IHx y Hx); lia|auto]. }
    change (length [93]) with 1%nat. lia.
  - cbn [length]. rewrite length_app. destruct Hus as [|kv ku l us Hv Hus]; [simpl; lia|].
    pose proof (length_join (member_text ku :: (member_text <$> us)) ltac:(done)) as Hj.
    assert (Forall2 (fun kv u => S (size_of kv.2) <= S (length u))%nat (kv :: l) (member_text <$> (ku :: us))) as Hs%sum_list_with_le2.
    { assert (forall ku, (length ku.2 <= length (member_text ku))%nat) as Hm.
      { intros x. unfold member_text. rewrite length_app. cbn [length]. lia. }
      apply Forall2_fmap_r. apply Forall_cons in IH as [IHv IH]. destruct Hv as [_ Hv].
      constructor; [specialize (IHv _ Hv); specialize (Hm ku); unfold compose; lia|]. clear -IH Hus Hm.
      induction Hus as [|x y l us [_ Hx] Hus IHus]; constructor; apply Forall_cons in IH as [IHx IH];
        [specialize (IHx _ Hx); specialize (Hm y); unfold compose; lia|auto]. }
    change (length [125]) with 1%nat. rewrite fmap_cons in *. lia.
Qed.

(** *** Nesting *)

Lemma max_le n l : 0 <= n -> foldr Z.max 0 l <= n <-> Forall (fun x => x <= n) l.
Proof.
  intros Hn. induction l as [|x l IH]; cbn [foldr]; [by split|]. rewrite Forall_cons, <- IH. lia.
Qed.

Lemma depth_arr n l : 0 <= n -> depth (Arr l) <= 1 + n <-> Forall (fun v => depth v <= n) l.
Proof. intros Hn. cbn [depth]. rewrite <- Z.add_le_mono_l, max_le, Forall_fmap by done. done. Qed.

Lemma depth_obj n l : 0 <= n -> depth (Obj l) <= 1 + n <-> Forall (fun kv => depth kv.2 <= n) l.
Proof. intros Hn. cbn [depth]. rewrite <- Z.add_le_mono_l, max_le, Forall_fmap by done. done. Qed.

Lemma canon_depth v : depth (canon v) = depth v.
Proof.
  induction v as [ |b|t|s|l IH|l IH] using json_induction; cbn [canon depth]; try done; f_equal; f_equal; rewrite <- list_fmap_compose;
    (induction IH as [|x l Hx _ IHl]; [done|]; cbn [fmap list_fmap]; rewrite IHl; unfold compose in *; cbn [snd] in *; by rewrite Hx).
Qed.

(** The texts of a value are parsed as the value. *)
Lemma parse_text v u : text v u -> depth v <= maxNestingDepth -> parse u = Some v.
Proof.
  intros Hu Hd. unfold parse. pose proof (all_read v u (S (length u)) [] Hu) as H. rewrite app_nil_r in H.
  rewrite H; [cbn; by rewrite (proj2 (Z.leb_le _ _) Hd)| |done]. pose proof (size_text v u Hu). lia.
Qed.

Lemma parse_inv s v : parse s = Some v ->
  exists r, value (S (length s)) s = Some (v, r) /\ skip_ws r = [] /\ depth v <= maxNestingDepth.
Proof.
  unfold parse. intros ([x r] & E & H)%bind_Some. destruct (skip_ws r) eqn:Er; [|done].
  destruct (Z.leb_spec (depth x) maxNestingDepth); [|done]. injection H as <-. by exists r.
Qed.

(** *** What [json.Marshal] writes *)

Lemma escape_ascii_byte c : 0 <= c < 128 -> Forall byte (escape_ascii c).
Proof.
  intros Hc. assert (Forall byte (hex4 c)) as Hh.
  { unfold hex4, byte. repeat constructor; unfold digit; case_match; zbool;
      match goal with |- context [?x mod 16] => pose proof (Z.mod_pos_bound x 16 ltac:(lia)) end; lia. }
  unfold escape_ascii. repeat case_match; repeat (apply Forall_cons_2; [unfold byte; lia|]); by try apply Forall_nil_2.
Qed.

Lemma escape_from_byte n s : Forall byte s -> Forall byte (escape_from n s).
Proof.
  revert s. induction n as [|n IH]; intros s Hb; [constructor|]. destruct s as [|c s]; [constructor|].
  cbn [escape_from]. destruct (rune_width (c :: s)) as [|w] eqn:Ew.
  - apply Forall_app_2; [by apply (bool_decide_unpack _)|]. apply IH. by apply Forall_cons in Hb as [_ ?].
  - apply Forall_app_2; [|by apply IH, Forall_drop]. destruct w as [|w].
    { apply rune_width_ascii in Ew. cbn [take escape_rune]. apply Forall_cons in Hb as [[? ?] _]. apply escape_ascii_byte. lia. }
    pose proof (Forall_take byte (S (S w)) (c :: s) Hb) as Hr.
    destruct s as [|c1 s]; [cbn in Ew; repeat (case_match; try done)|]. cbn [take escape_rune] in *.
    repeat case_decide; [by apply (bool_decide_unpack _)..|done].
Qed.

Lemma escape_text s : Forall byte s -> string_text (ToValidUTF8 s) (escape_from (length s) s).
Proof. intros Hs. split; [by apply escape_from_byte|]. intros. by apply unquote_escape. Qed.

Lemma encode_text v : wf v -> text (canon v) (encode v).
Proof.
  induction v as [ |b|t|s|l IH|l IH] using json_induction; intros Hwf; inversion Hwf as [| |? Ht|? Hs|? Hl|? Hl]; subst;
    cbn [canon encode]; try (by constructor).
  - apply text_str. by apply escape_text.
  - apply text_arr, Forall2_fmap_l, Forall2_fmap_r, Forall_Forall2_diag. rewrite Forall_forall in *. intros v Hv. by apply IH, Hl.
  - assert ((fun kv => quote kv.1 ++ 58 :: encode kv.2) <$> l = member_text <$> ((fun kv => (escape_from (length kv.1) kv.1, encode kv.2)) <$> l)) as ->
      by (rewrite <- list_fmap_compose; reflexivity).
    apply text_obj, Forall2_fmap_l, Forall2_fmap_r, Forall_Forall2_diag. rewrite Forall_forall in *. intros kv Hkv.
    destruct (Hl kv Hkv). split; [by apply escape_text|by apply IH].
Qed.

Lemma encode_head v : wf v -> exists c t, encode v = c :: t /\ is_ws c = false /\ c <> 93 /\ c <> 125.
Proof. intros Hv. eapply text_head, encode_text, Hv. Qed.

(** JSON is read back.  For every value whose numbers are literals, and that is not nested
    too deep to be read, what [json.Marshal] writes is parsed as the same value, with what
    was invalid UTF-8 in its strings and keys replaced. *)
Theorem json_roundtrip v : wf v -> depth v <= maxNestingDepth -> parse (encode v) = Some (canon v).
Proof. intros Hwf Hd. apply parse_text; [by apply encode_text|by rewrite canon_depth]. Qed.
