(* ===== verification/JsonText.v ===== *)
(** More of [encoding/json] and [encoding/base64] of the Go standard library: decoding
    base64, [json.RawMessage] and [json.Indent], which work on the text, and the values
    behind [map[string]any].

    Base64 is decoded to what was encoded; compacting removes exactly what indenting
    adds and leaves encoded values alone; a map holds the last value of each key. *)

From S2P Require Import Prelude GoStd Json JsonTheorems.

(** ** [base64.StdEncoding.DecodeString] *)

Definition b64_val (c : Z) : option Z := (fun p => Z.of_nat p.1) <$> list_find (eq c) b64_alphabet.

Fixpoint decode_groups (s : list Z) : option (list Z) :=
  match s with
  | [] => Some []
  | a :: b :: c :: d :: s' =>
      va ← b64_val a;
      vb ← b64_val b;
      if d =? 61 then
        match s' with
        | [] =>
            if c =? 61 then Some [(262144 * va + 4096 * vb) / 65536]
            else
              vc ← b64_val c;
              let v := 262144 * va + 4096 * vb + 64 * vc in
              Some [v / 65536; v / 256 mod 256]
        | _ => None
        end
      else
        vc ← b64_val c;
        vd ← b64_val d;
        let v := 262144 * va + 4096 * vb + 64 * vc + vd in
        rest ← decode_groups s';
        Some (v / 65536 :: v / 256 mod 256 :: v mod 256 :: rest)
  | _ => None
  end.

(** Line breaks are ignored. *)
Definition DecodeString (s : list Z) : option (list Z) :=
  decode_groups (filter (fun c => c <> 10 /\ c <> 13) s).

Lemma b64_val_char i : 0 <= i < 64 -> b64_val (b64_char i) = Some i.
Proof.
  intros Hi. unfold b64_val. pose proof (b64_char_lookup i Hi) as Hl.
  destruct (list_find (eq (b64_char i)) b64_alphabet) as [[j x]|] eqn:E.
  - apply list_find_Some in E as (Hj & <- & _). cbn. f_equal.
    assert (NoDup b64_alphabet) as Hn by (by apply (bool_decide_unpack _)).
    pose proof (NoDup_lookup _ _ _ _ Hn Hl Hj). lia.
  - apply list_find_None in E. rewrite Forall_forall in E. apply list_elem_of_lookup_2 in Hl. by destruct (E _ Hl).
Qed.

Lemma b64_char_plain i : 0 <= i < 64 -> b64_char i <> 10 /\ b64_char i <> 13.
Proof.
  intros Hi. pose proof (b64_char_lookup i Hi) as H. apply list_elem_of_lookup_2 in H.
  assert (Forall (fun c => c <> 10 /\ c <> 13) b64_alphabet) as Ha by (by apply (bool_decide_unpack _)).
  rewrite Forall_forall in Ha. by apply Ha.
Qed.

Lemma EncodeToString_plain l : Forall (fun c => c <> 10 /\ c <> 13) (EncodeToString l).
Proof.
  revert l. fix IH 1. intros [|a [|b [|c l]]]; cbn [EncodeToString]; [constructor|..];
    repeat (apply Forall_cons_2; [first [lia|apply b64_char_plain, sextet_range]|]); [constructor..|]. apply IH.
Qed.

Lemma decode_group v : 0 <= v < 16777216 ->
  262144 * sextet v 0 + 4096 * sextet v 1 + 64 * sextet v 2 + sextet v 3 = v.
Proof. intros. by rewrite <- sextets. Qed.

Lemma word_bytes a b c : 0 <= a < 256 -> 0 <= b < 256 -> 0 <= c < 256 ->
  (a * 65536 + b * 256 + c) / 65536 = a /\ (a * 65536 + b * 256 + c) / 256 mod 256 = b /\ (a * 65536 + b * 256 + c) mod 256 = c.
Proof. intros. Z.to_euclidean_division_equations. lia. Qed.

Lemma decode_encode l : Forall byte l -> decode_groups (EncodeToString l) = Some l.
Proof.
  revert l. fix IH 1. intros [|a [|b [|c l]]] Hl; bytes_inv; [done|..]; cbn [EncodeToString decode_groups];
    rewrite !b64_val_char by apply sextet_range; cbn [mbind option_bind].
  - change (61 =? 61) with true. destruct (sextet_low_1 a) as [E2 E3].
    pose proof (decode_group (a * 65536) ltac:(lia)) as E. rewrite E2, E3 in E. do 2 f_equal.
    replace (262144 * sextet (a * 65536) 0 + 4096 * sextet (a * 65536) 1) with (a * 65536) by lia. by apply Z.div_mul.
  - change (61 =? 61) with true. rewrite (proj2 (Z.eqb_neq _ 61)) by apply b64_char_ne, sextet_range. cbn [mbind option_bind].
    pose proof (sextet_low_2 a b) as E3. pose proof (decode_group (a * 65536 + b * 256) ltac:(lia)) as E.
    rewrite E3, Z.add_0_r in E. rewrite E.
    destruct (word_bytes a b 0) as (E1 & E4 & _); [lia..|].
    rewrite Z.add_0_r in E1, E4. by rewrite E1, E4.
  - rewrite (proj2 (Z.eqb_neq _ _)) by apply b64_char_ne, sextet_range.
    rewrite decode_group by lia. rewrite IH by done. cbn [mbind option_bind].
    by destruct (word_bytes a b c) as (-> & -> & ->).
Qed.

Lemma filter_keeps {A} (P : A -> Prop) `{!forall x, Decision (P x)} l : Forall P l -> filter P l = l.
Proof. induction 1 as [|x l Hx Hl IH]; [done|]. by rewrite filter_cons_True, IH. Qed.

(** Base64 round trip. *)
Lemma DecodeString_encode l : Forall byte l -> DecodeString (EncodeToString l) = Some l.
Proof.
  intros Hl. unfold DecodeString. rewrite filter_keeps; [by apply decode_encode|apply EncodeToString_plain].
Qed.

(** ** [json.RawMessage] *)

(** The text of a value without white space, and with what HTML treats specially
    escaped ([appendCompact]); [quoted] inside a string. *)
Fixpoint compact (quoted : bool) (s : list Z) : option (list Z) :=
  match s with
  | [] => Some []
  | c :: s' =>
      if quoted then
        if c <? 32 then None
        else if c =? 34 then cons 34 <$> compact false s'
        else if c =? 92 then
          match s' with
          | e :: s2 => if e <? 32 then None else (fun t => 92 :: e :: t) <$> compact true s2
          | [] => None
          end
        else if (c =? 60) || (c =? 62) || (c =? 38) then (fun t => 92 :: 117 :: hex4 c ++ t) <$> compact true s'
        else
          match s' with
          | b :: d :: s2 =>
              if (c =? 226) && (b =? 128) && ((d =? 168) || (d =? 169))
              then (fun t => 92 :: 117 :: hex4 (8064 + d) ++ t) <$> compact true s2
              else cons c <$> compact true s'
          | _ => cons c <$> compact true s'
          end
      else if is_ws c then compact false s'
      else if c =? 34 then cons 34 <$> compact true s'
      else cons c <$> compact false s'
  end.

(** A nil message is [null]; another has to be a value. *)
Definition RawMessage (b : list Z) : option (list Z) :=
  match b with
  | [] => Some (str "null")
  | _ => _ ← parse b; compact false b
  end.

(** ** [json.Indent], with two blanks *)

Definition newline (depth : nat) : list Z := 10 :: replicate (2 * depth) 32.

(** [need] behind an opening bracket: the line breaks once it is clear that the
    brackets are not empty. *)
Fixpoint indent (quoted need : bool) (depth : nat) (s : list Z) : list Z :=
  match s with
  | [] => []
  | c :: s' =>
      if quoted then
        if c =? 34 then 34 :: indent false need depth s'
        else if c =? 92 then
          match s' with
          | e :: s2 => 92 :: e :: indent true need depth s2
          | [] => [92]
          end
        else c :: indent true need depth s'
      else if is_ws c then indent false need depth s'
      else
        let opened := need && negb ((c =? 93) || (c =? 125)) in
        let depth := if opened then S depth else depth in
        let need := if opened then false else need in
        (if opened then newline depth else []) ++
        (if c =? 34 then 34 :: indent true need depth s'
         else if (c =? 123) || (c =? 91) then c :: indent false true depth s'
         else if c =? 44 then c :: newline depth ++ indent false need depth s'
         else if c =? 58 then c :: 32 :: indent false need depth s'
         else if (c =? 93) || (c =? 125) then
           if need then c :: indent false false depth s'
           else newline (depth - 1) ++ c :: indent false false (depth - 1) s'
         else c :: indent false need depth s')
  end.

Definition Indent (s : list Z) : option (list Z) := _ ← parse s; Some (indent false false 0 s).

(** *** Compacting and indenting *)

Lemma hex4_line n : 10 ∉ hex4 n.
Proof.
  unfold hex4. assert (forall m, digit (m mod 16) <> 10) as Hd.
  { intros m. unfold digit. pose proof (Z.mod_pos_bound m 16 ltac:(lia)). case_match; lia. }
  rewrite !not_elem_of_cons. split_and!; [by symmetry..|apply not_elem_of_nil].
Qed.

(** No line breaks in strings. *)
Lemma escape_line n s : 10 ∉ escape_from n s.
Proof.
  revert s. induction n as [|n IH]; intros s; [apply not_elem_of_nil|]. destruct s as [|c s]; [apply not_elem_of_nil|].
  cbn [escape_from]. destruct (rune_width (c :: s)) as [|w] eqn:Ew; rewrite not_elem_of_app; (split; [|apply IH]).
  { by apply (bool_decide_unpack _). }
  destruct w as [|w].
  - cbn [take escape_rune]. unfold escape_ascii. pose proof (hex4_line c).
    repeat case_match; zbool; rewrite ?orb_true_iff in *; rewrite !not_elem_of_cons; split_and!; try done; try apply not_elem_of_nil; lia.
  - assert (10 ∉ take (S (S w)) (c :: s)) as Hr.
    { unfold rune_width in Ew. repeat (case_match; try done); simplify_eq; unfold cont in *; zbool; cbn [take];
        rewrite ?take_0, !not_elem_of_cons; split_and!; try apply not_elem_of_nil; repeat case_match; lia. }
    destruct s as [|c1 s]; [cbn in Ew; by repeat case_match|]. cbn [take escape_rune] in *.
    repeat case_decide; [by apply (bool_decide_unpack _)..|done].
Qed.

Lemma quote_line s : 10 ∉ quote s.
Proof.
  unfold quote. rewrite not_elem_of_cons, not_elem_of_app, list_elem_of_singleton. split_and!; [done|apply escape_line|done].
Qed.

Lemma join_line ps : Forall (fun p => 10 ∉ p) ps -> 10 ∉ join_with 44 ps.
Proof.
  induction 1 as [|p ps Hp Hps IH]; [apply not_elem_of_nil|]. destruct ps as [|q ps]; [done|].
  change (join_with 44 (p :: q :: ps)) with (p ++ 44 :: join_with 44 (q :: ps)).
  rewrite not_elem_of_app, not_elem_of_cons. done.
Qed.

Lemma compact_line quoted s t : compact quoted s = Some t -> 10 ∉ t.
Proof.
  remember (length s) as n eqn:Hn. revert quoted s t Hn. induction (lt_wf n) as [n _ IH].
  intros quoted [|c s] t -> H; [injection H as <-; apply not_elem_of_nil|]. cbn [length] in IH.
  assert (forall q s' t', (length s' <= length s)%nat -> compact q s' = Some t' -> 10 ∉ t') as IH'.
  { intros q s' t' Hl. eapply IH; [|reflexivity]. lia. }
  clear IH. cbn [compact] in H. destruct quoted.
  - destruct (c <? 32) eqn:E1; [done|].
    destruct (c =? 34) eqn:E2; [apply fmap_Some in H as (x & H%IH' & ->); [set_solver|done]|].
    destruct (c =? 92) eqn:E3.
    { destruct s as [|e s2]; [done|]. destruct (e <? 32) eqn:E4; [done|]. zbool.
      apply fmap_Some in H as (x & H%IH' & ->); [|cbn; lia]. set_unfold. intuition lia. }
    assert (forall x, x ∈ [c] -> x <> 10) as Hc by (intros x ->%list_elem_of_singleton; zbool; lia).
    repeat case_match; apply fmap_Some in H as (x & H%IH' & ->); try (cbn; lia);
      rewrite ?not_elem_of_cons, ?not_elem_of_app; zbool; split_and?; try done; try apply hex4_line; lia.
  - unfold is_ws in H. repeat case_match; zbool.
    + by apply IH' in H.
    + apply fmap_Some in H as (x & H%IH' & ->); [|lia]. set_solver.
    + apply fmap_Some in H as (x & H%IH' & ->); [|lia]. rewrite not_elem_of_cons. split; [lia|done].
Qed.

Lemma compact_newline depth t : compact false (newline depth ++ t) = compact false t.
Proof.
  unfold newline. change ((10 :: replicate (2 * depth) 32) ++ t) with (10 :: (replicate (2 * depth) 32 ++ t)).
  change (compact false (replicate (2 * depth) 32 ++ t) = compact false t).
  induction (2 * depth)%nat as [|n IH]; [done|exact IH].
Qed.

Lemma indent_head need depth c s : exists t, indent true need depth (c :: s) = c :: t.
Proof.
  cbn [indent]. destruct (c =? 34) eqn:E1; zbool; [subst; by eexists|].
  destruct (c =? 92) eqn:E2; zbool; [subst; destruct s; by eexists|by eexists].
Qed.

(** In a string, a character that is no quote, backslash or control character. *)
Lemma indent_plain need depth c s :
  c <> 34 -> c <> 92 -> indent true need depth (c :: s) = c :: indent true need depth s.
Proof. intros H1 H2. cbn [indent]. by rewrite (proj2 (Z.eqb_neq _ _) H1), (proj2 (Z.eqb_neq _ _) H2). Qed.

(** Indenting adds white space only. *)
Lemma compact_indent s : forall quoted need depth, compact quoted (indent quoted need depth s) = compact quoted s.
Proof.
  remember (length s) as n eqn:Hn. revert s Hn. induction (lt_wf n) as [n _ IH].
  intros [|c s] -> quoted need depth; [done|]. cbn [length] in IH.
  assert (forall s' q need depth, (length s' <= length s)%nat -> compact q (indent q need depth s') = compact q s') as IH'.
  { intros s' q nd d Hl. eapply IH; [|reflexivity]. lia. }
  clear IH. destruct quoted.
  - destruct (decide (c = 34)) as [->|H34].
    { change (cons 34 <$> compact false (indent false need depth s) = cons 34 <$> compact false s). by rewrite IH'. }
    destruct (decide (c = 92)) as [->|H92].
    { destruct s as [|e s2]; [done|].
      change ((if e <? 32 then None else (fun t => 92 :: e :: t) <$> compact true (indent true need depth s2)) =
        (if e <? 32 then None else (fun t => 92 :: e :: t) <$> compact true s2)). rewrite IH'; [done|cbn; lia]. }
    rewrite indent_plain by done. cbn [compact]. rewrite (IH' s) by lia.
    destruct (c <? 32); [done|]. rewrite (proj2 (Z.eqb_neq _ _) H34), (proj2 (Z.eqb_neq _ _) H92).
    destruct ((c =? 60) || (c =? 62) || (c =? 38)); [done|].
    destruct s as [|b s]; [done|]. destruct (decide (b = 128)) as [->|Hb].
    + rewrite indent_plain by done. destruct s as [|d s]; [done|].
      destruct (decide (d = 168 \/ d = 169)) as [Hd|Hd].
      * rewrite indent_plain by lia. rewrite (IH' s) by (cbn; lia). done.
      * destruct (indent_head need depth d s) as [t Ht]. rewrite Ht.
        assert ((d =? 168) || (d =? 169) = false) as -> by (apply orb_false_intro; apply Z.eqb_neq; lia).
        by rewrite andb_false_r.
    + destruct (indent_head need depth b s) as [t Ht]. rewrite Ht. rewrite (proj2 (Z.eqb_neq _ _) Hb), andb_false_r.
      cbn [andb]. by destruct t, s.
  - cbn [indent compact]. destruct (is_ws c) eqn:Ew; [by apply IH'|].
    set (opened := need && _). set (depth' := if opened then S depth else depth). set (need' := if opened then false else need).
    assert (forall t, compact false ((if opened then newline depth' else []) ++ t) = compact false t) as Ho
      by (intros t; destruct opened; [apply compact_newline|done]).
    rewrite Ho. clearbody opened depth' need'.
    assert (forall t, c <> 34 -> compact false (c :: t) = cons c <$> compact false t) as Hc.
    { intros t H34. cbn [compact]. by rewrite Ew, (proj2 (Z.eqb_neq _ _) H34). }
    destruct (c =? 34) eqn:E34; zbool.
    { change (cons 34 <$> compact true (indent true need' depth' s) = cons 34 <$> compact true s). by rewrite IH'. }
    destruct ((c =? 123) || (c =? 91)); [by rewrite Hc, IH'|].
    destruct (c =? 44); [by rewrite Hc, compact_newline, IH'|].
    destruct (c =? 58); [by rewrite Hc; [change (compact false (32 :: ?t)) with (compact false t); rewrite IH'|]|].
    destruct ((c =? 93) || (c =? 125)); [destruct need'|]; rewrite ?compact_newline; by rewrite Hc, IH'.
Qed.

(** A character that stays as it is, inside a string and outside. *)
Definition plain (c : Z) : Prop := 32 <= c /\ c ∉ [34; 38; 60; 62; 92; 226].

#[export] Instance plain_dec c : Decision (plain c).
Proof. unfold plain. apply _. Defined.

Lemma compact_high c s :
  32 <= c -> c ∉ [34; 38; 60; 62; 92] ->
  match s with b :: d :: _ => ~ (c = 226 /\ b = 128 /\ (d = 168 \/ d = 169)) | _ => True end ->
  compact true (c :: s) = cons c <$> compact true s.
Proof.
  intros Hc Hn Hs. cbn [compact]. rewrite !not_elem_of_cons in Hn. destruct Hn as (?&?&?&?&?&_).
  rewrite (proj2 (Z.ltb_ge _ _)), !(proj2 (Z.eqb_neq c _)) by lia. cbn [orb].
  destruct s as [|b [|d s]]; [done..|]. destruct ((c =? 226) && (b =? 128) && ((d =? 168) || (d =? 169))) eqn:E; [|done].
  destruct Hs. rewrite !andb_true_iff, orb_true_iff in E. lia.
Qed.

Lemma compact_plain p s : Forall plain p -> compact true (p ++ s) = app p <$> compact true s.
Proof.
  induction 1 as [|c p [H1 H2] _ IH]; [cbn [app]; by destruct (compact true s)|]. cbn [app]. rewrite compact_high; [|lia|set_solver|].
  - rewrite IH. by destruct (compact true s).
  - destruct (p ++ s) as [|? [|? ?]]; [done..|]. set_solver.
Qed.

Lemma compact_escape e p s :
  32 <= e -> Forall plain p -> compact true (92 :: e :: p ++ s) = app (92 :: e :: p) <$> compact true s.
Proof.
  intros He Hp. change (compact true (92 :: e :: p ++ s)) with
    (if e <? 32 then None else (fun t => 92 :: e :: t) <$> compact true (p ++ s)).
  rewrite (proj2 (Z.ltb_ge _ _)) by lia. rewrite compact_plain by done. by destruct (compact true s).
Qed.

Lemma hex4_plain n : Forall plain (hex4 n).
Proof.
  assert (forall m, plain (digit (m mod 16))) as H.
  { intros m. pose proof (Z.mod_pos_bound m 16 ltac:(lia)). unfold plain, digit. rewrite !not_elem_of_cons.
    case_match; zbool; (split; [lia|]); split_and!; try lia; apply not_elem_of_nil. }
  unfold hex4. repeat (apply Forall_cons_2; [apply H|]). apply Forall_nil_2.
Qed.

Lemma compact_ascii c s : 0 <= c < 128 -> compact true (escape_ascii c ++ s) = app (escape_ascii c) <$> compact true s.
Proof.
  intros Hc. unfold escape_ascii.
  repeat match goal with |- context [if ?b then _ else _] => destruct b eqn:?; [|] end;
    try (apply (compact_escape _ []); [zbool; lia|constructor]).
  - apply (compact_escape 117 (hex4 c)); [lia|apply hex4_plain].
  - apply (compact_plain [c]). repeat constructor; [lia|]. rewrite !not_elem_of_cons.
    rewrite !orb_false_iff in *. split_and!; try lia; apply not_elem_of_nil.
Qed.

(** An encoding of more than one byte. *)
Lemma compact_rune s w t :
  rune_width s = S (S w) -> compact true (escape_rune (take (S (S w)) s) ++ t) = app (escape_rune (take (S (S w)) s)) <$> compact true t.
Proof.
  intros Hw. destruct s as [|b0 [|b1 s]]; [done|cbn in Hw; by repeat case_match|].
  cbn [take]. unfold escape_rune. case_decide as E1; [|case_decide as E2].
  { apply (compact_escape 117 (str "2028")); [lia|]. by apply (bool_decide_unpack _). }
  { apply (compact_escape 117 (str "2029")); [lia|]. by apply (bool_decide_unpack _). }
  assert (forall x, 128 <= x -> x ∉ [34; 38; 60; 62; 92]) as Hx by (intros; set_unfold; lia).
  assert (forall x r, 128 <= x <= 191 -> compact true (x :: r) = cons x <$> compact true r) as Hcont.
  { intros x r H. apply compact_high; [lia|apply Hx; lia|]. destruct r as [|? [|? ?]]; [done..|]. lia. }
  unfold rune_width in Hw. repeat (case_match; try done); simplify_eq; unfold cont in *; zbool;
    cbn [take app] in *; rewrite ?take_0 in *; cbn [app] in *;
    (rewrite compact_high; [rewrite !Hcont by (repeat case_match; lia); by destruct (compact true t)|lia|apply Hx; lia|]).
  all: cbn; try (destruct t as [|? ?]; [done|]); try lia.
  all: intros (-> & -> & [-> | ->]); [by apply E1|by apply E2].
Qed.

Lemma compact_string n s r :
  Forall byte s -> compact true (escape_from n s ++ 34 :: r) = (fun t => escape_from n s ++ 34 :: t) <$> compact false r.
Proof.
  revert s. induction n as [|n IH]; intros s Hb; [done|]. destruct s as [|c s]; [done|].
  cbn [escape_from]. destruct (rune_width (c :: s)) as [|w] eqn:Ew.
  - rewrite <- app_assoc. etransitivity; [apply (compact_escape 117 (str "fffd")); [lia|by apply (bool_decide_unpack _)]|].
    apply Forall_cons in Hb as [_ Hb]. rewrite IH by done. by destruct (compact false r).
  - rewrite <- app_assoc. transitivity (app (escape_rune (take (S w) (c :: s))) <$> compact true (escape_from n (drop (S w) (c :: s)) ++ 34 :: r)).
    + destruct w as [|w]; [|by apply compact_rune]. apply rune_width_ascii in Ew.
      apply Forall_cons in Hb as [[? ?] _]. apply compact_ascii. lia.
    + rewrite IH by (by apply Forall_drop). destruct (compact false r); [|done]. cbn. by rewrite <- app_assoc.
Qed.

(** The characters of a number. *)
Definition numeric (c : Z) : Prop := is_digit c = true \/ c ∈ [43; 45; 46; 69; 101].

Lemma digits_of_numeric s : Forall numeric (digits_of s).1.
Proof.
  induction s as [|c s IH]; [constructor|]. cbn [digits_of]. destruct (is_digit c) eqn:E; [|constructor].
  destruct (digits_of s) as [d r]. constructor; [by left|done].
Qed.

Lemma digits_numeric s d r : digits_of s = (d, r) -> Forall numeric d.
Proof. intros E. pose proof (digits_of_numeric s) as H. by rewrite E in H. Qed.

Lemma int_part_numeric s d r : int_part s = Some (d, r) -> Forall numeric d.
Proof.
  unfold int_part. destruct (eat 48 s); [intros [= <- <-]; apply Forall_singleton; by left|].
  destruct (digits_of s) as [[|c d'] r'] eqn:E; [done|]. intros [= <- <-]. by eapply digits_numeric.
Qed.

Lemma frac_part_numeric s d r : frac_part s = Some (d, r) -> Forall numeric d.
Proof.
  unfold frac_part. destruct (eat 46 s) as [s'|]; [|by intros [= <- <-]].
  destruct (digits_of s') as [[|c d'] r'] eqn:E; [done|]. intros [= <- <-].
  constructor; [right; set_solver|by eapply digits_numeric].
Qed.

Lemma exp_part_numeric s d r : exp_part s = Some (d, r) -> Forall numeric d.
Proof.
  unfold exp_part. destruct s as [|c s']; [by intros [= <- <-]|].
  destruct ((c =? 101) || (c =? 69)) eqn:Ec; [|by intros [= <- <-]].
  set (p := match s' with x :: s2 => if (x =? 43) || (x =? 45) then ([x], s2) else ([], s') | [] => ([], []) end).
  assert (Forall numeric p.1) as Hp.
  { subst p. destruct s' as [|x s2]; [constructor|]. destruct ((x =? 43) || (x =? 45)) eqn:Ex; [|constructor].
    apply Forall_singleton. right. rewrite orb_true_iff in Ex. set_unfold. lia. }
  destruct p as [sign s2]. destruct (digits_of s2) as [[|c0 d'] r'] eqn:E; [done|]. intros H.
  injection H as <- <-. constructor; [right; rewrite orb_true_iff in Ec; set_unfold; lia|].
  apply Forall_app_2; [done|by eapply digits_numeric].
Qed.

Lemma number_numeric s t r : number s = Some (t, r) -> Forall numeric t.
Proof.
  unfold number. set (p := match eat 45 s with Some s' => ([45], s') | None => ([], s) end).
  assert (Forall numeric p.1) as Hp by (subst p; destruct (eat 45 s); [apply Forall_singleton; right; set_solver|constructor]).
  destruct p as [sign s1]. intros H.
  apply bind_Some in H as ([i s2] & Hi & H). apply bind_Some in H as ([f s3] & Hf & H). apply bind_Some in H as ([e s4] & He & H).
  injection H as <- <-. repeat apply Forall_app_2; [done|by eapply int_part_numeric|by eapply frac_part_numeric|by eapply exp_part_numeric].
Qed.

Lemma compact_numeric t r : Forall numeric t -> compact false (t ++ r) = app t <$> compact false r.
Proof.
  induction 1 as [|c t Hc _ IH]; [cbn [app]; by destruct (compact false r)|].
  assert (is_ws c = false /\ c <> 34) as [Hw H34].
  { destruct Hc as [Hc|Hc]; [unfold is_digit in Hc; rewrite andb_true_iff in Hc; unfold is_ws; rewrite !orb_false_iff; lia|].
    set_unfold. unfold is_ws. rewrite !orb_false_iff. lia. }
  cbn [app compact]. rewrite Hw, (proj2 (Z.eqb_neq _ _) H34), IH. by destruct (compact false r).
Qed.

Lemma compact_quote s r : Forall byte s -> compact false (quote s ++ r) = app (quote s) <$> compact false r.
Proof.
  intros Hs. rewrite quote_app. change (cons 34 <$> compact true (escape_from (length s) s ++ 34 :: r) = app (quote s) <$> compact false r).
  rewrite compact_string by done. destruct (compact false r) as [x|]; [|done]. change (Some (34 :: escape_from (length s) s ++ 34 :: x) = Some (quote s ++ x)).
  by rewrite quote_app.
Qed.

(** One structural character. *)
Lemma compact_char c r : is_ws c = false -> c <> 34 -> compact false (c :: r) = cons c <$> compact false r.
Proof. intros H1 H2. cbn [compact]. by rewrite H1, (proj2 (Z.eqb_neq _ _) H2). Qed.

Lemma compact_join {A} (f : A -> list Z) l r :
  Forall (fun x => forall r, compact false (f x ++ r) = app (f x) <$> compact false r) l ->
  compact false (join_with 44 (f <$> l) ++ r) = app (join_with 44 (f <$> l)) <$> compact false r.
Proof.
  induction 1 as [|x l Hx Hl IH]; [cbn [app fmap list_fmap join_with]; by destruct (compact false r)|].
  destruct l as [|y l]; [apply Hx|].
  change (join_with 44 (f <$> x :: y :: l)) with (f x ++ 44 :: join_with 44 (f <$> y :: l)).
  rewrite <- app_assoc, Hx. cbn [app]. rewrite compact_char, IH by done.
  destruct (compact false r); [|done]. cbn. by rewrite <- app_assoc.
Qed.

(** What is encoded is compact. *)
Lemma compact_encode v : wf v -> forall r, compact false (encode v ++ r) = app (encode v) <$> compact false r.
Proof.
  induction v as [ |b|t|s|l IH|l IH] using json_induction; intros Hwf r; cbn [encode].
  - by destruct (compact false r) eqn:E; cbn; rewrite E.
  - destruct b; by destruct (compact false r) eqn:E; cbn; rewrite E.
  - inversion Hwf as [| |? Ht| | |]; subst. apply compact_numeric. by eapply number_numeric.
  - inversion Hwf; subst. by apply compact_quote.
  - inversion Hwf as [| | | |? Hl|]; subst. cbn [app]. rewrite compact_char, <- app_assoc by done. rewrite compact_join.
    + cbn [app]. rewrite compact_char by done. destruct (compact false r); [|done]. cbn. by rewrite <- app_assoc.
    + apply Forall_forall. intros x Hx. rewrite Forall_forall in IH, Hl. by apply IH; [|apply Hl].
  - inversion Hwf as [| | | | |? Hl]; subst. cbn [app]. rewrite compact_char, <- app_assoc by done. rewrite compact_join.
    + cbn [app]. rewrite compact_char by done. destruct (compact false r); [|done]. cbn. by rewrite <- app_assoc.
    + apply Forall_forall. intros [k x] Hx r'. rewrite Forall_forall in IH, Hl. destruct (Hl _ Hx) as [Hk Hv]. cbn [fst snd] in *.
      rewrite <- app_assoc, compact_quote by done. cbn [app]. rewrite compact_char by done.
      rewrite (IH (k, x) Hx Hv). destruct (compact false r') as [y|]; [|done].
      change (Some (quote k ++ 58 :: encode x ++ y) = Some ((quote k ++ 58 :: encode x) ++ y)). by rewrite <- app_assoc.
Qed.

Lemma RawMessage_encode v : wf v -> depth v <= maxNestingDepth -> RawMessage (encode v) = Some (encode v).
Proof.
  intros Hv Hd. destruct (encode_head v Hv) as (c & t & E & _). unfold RawMessage. rewrite E. rewrite <- E.
  rewrite (json_roundtrip v Hv Hd). cbn [mbind option_bind].
  pose proof (compact_encode v Hv []) as H. rewrite app_nil_r in H. rewrite H. cbn. by rewrite app_nil_r.
Qed.

Lemma Indent_encode v : wf v -> depth v <= maxNestingDepth -> exists t, Indent (encode v) = Some t /\ compact false t = Some (encode v).
Proof.
  intros Hv Hd. unfold Indent. rewrite (json_roundtrip v Hv Hd). eexists. split; [done|]. rewrite compact_indent.
  pose proof (compact_encode v Hv []) as H. rewrite app_nil_r in H. rewrite H. cbn. by rewrite app_nil_r.
Qed.
