(* ===== verification/JsonMap.v ===== *)
(** The values behind [any] and [map[string]any] of Go: what [json.Unmarshal] makes of
    a parsed value, how it is marshalled again and how [fmt] prints it.

    Numbers are [float64]: rounding a literal and printing the result are operations
    of the class [Floats], with what is documented of them in [FloatLaws].  The theorems
    of this file: a value that was unmarshalled survives being marshalled and
    unmarshalled again, and a map answers the last member of a key. *)

From stdpp Require Import sorting.
From S2P Require Import Prelude GoStd Json JsonTheorems.

(** ** Numbers *)

(** The literal [json.Marshal] writes for the [float64] nearest to a literal, which is
    none where it overflows, and what [fmt] prints for it. *)
Class Floats := {
  float_text : list Z -> option (list Z);
  float_v : list Z -> list Z;
}.

Class FloatLaws `{Floats} : Prop := {
  float_literal t u : float_text t = Some u -> literal u;
  (** The shortest literal that is read as the number is read as the number. *)
  float_again t u : float_text t = Some u -> float_text u = Some u;
  float_range n : - 2 ^ 64 <= n <= 2 ^ 64 -> is_Some (float_text (FormatInt n));
  float_exact n : - 2 ^ 53 <= n <= 2 ^ 53 -> float_text (FormatInt n) = Some (FormatInt n);
  (** Larger numbers are printed with an exponent. *)
  float_v_int n : - 10 ^ 6 < n < 10 ^ 6 -> float_v (FormatInt n) = FormatInt n;
}.

(** ** Structures *)

(** The names of the fields of a structure are compared without case; U+017F and U+212A count as
    letters. *)
Fixpoint foldName (s : list Z) : list Z :=
  match s with
  | 197 :: 191 :: s' => 115 :: foldName s'
  | 226 :: 132 :: 170 :: s' => 107 :: foldName s'
  | c :: s' => to_lower c :: foldName s'
  | [] => []
  end.

(** ** Maps *)

(** The order of strings. *)
Fixpoint strcmp (a b : list Z) : comparison :=
  match a, b with
  | [], [] => Eq
  | [], _ => Lt
  | _, [] => Gt
  | x :: a', y :: b' => match Z.compare x y with Eq => strcmp a' b' | c => c end
  end.

(** The members of a map, by key. *)
Notation members_of := (list (list Z * json)).

Fixpoint insert_member (k : list Z) (v : json) (m : members_of) : members_of :=
  match m with
  | [] => [(k, v)]
  | (k', v') :: m' =>
      match strcmp k k' with
      | Lt => (k, v) :: m
      | Eq => (k, v) :: m'
      | Gt => (k', v') :: insert_member k v m'
      end
  end.

Fixpoint member (k : list Z) (m : members_of) : option json :=
  match m with
  | [] => None
  | (k', v) :: m' => if decide (k = k') then Some v else member k m'
  end.

Definition to_map (l : members_of) : members_of := foldl (fun m kv => insert_member kv.1 kv.2 m) [] l.

(** The value of the last member with a key. *)
Fixpoint last_member (k : list Z) (l : members_of) : option json :=
  match l with
  | [] => None
  | (k', v) :: l' =>
      match last_member k l' with
      | Some x => Some x
      | None => if decide (k = k') then Some v else None
      end
  end.

Lemma strcmp_eq a b : strcmp a b = Eq <-> a = b.
Proof.
  revert b. induction a as [|x a IH]; intros [|y b]; cbn; try done.
  destruct (Z.compare_spec x y) as [->|Hl|Hl]; [rewrite IH; naive_solver|..]; (split; [done|intros [= -> ->]; lia]).
Qed.

Lemma member_insert k k' v m : member k (insert_member k' v m) = if decide (k = k') then Some v else member k m.
Proof.
  induction m as [|[k2 v2] m IH]; [done|]. cbn [insert_member]. destruct (strcmp k' k2) eqn:E.
  - apply strcmp_eq in E as ->. cbn. by case_decide.
  - cbn. by case_decide.
  - cbn [member]. rewrite IH. assert (k' <> k2) by (intros Hx%strcmp_eq; congruence).
    repeat case_decide; congruence.
Qed.

Lemma member_to_map k l : member k (to_map l) = last_member k l.
Proof.
  unfold to_map. enough (forall m, member k (foldl (fun m kv => insert_member kv.1 kv.2 m) m l) =
    match last_member k l with Some v => Some v | None => member k m end) as ->; [by destruct (last_member k l)|].
  induction l as [|[k' v] l IH]; intros m; [done|]. cbn [foldl last_member fst snd]. rewrite IH, member_insert.
  destruct (last_member k l); [done|]. by case_decide.
Qed.

(** What holds of the members holds of the map. *)
Lemma insert_member_Forall (P : list Z * json -> Prop) k v m : P (k, v) -> Forall P m -> Forall P (insert_member k v m).
Proof.
  intros Hv. induction 1 as [|[k' v'] m Hx Hm IH]; [by constructor|]. cbn [insert_member]. destruct (strcmp k k'); by repeat constructor.
Qed.

Lemma to_map_Forall (P : list Z * json -> Prop) l : Forall P l -> Forall P (to_map l).
Proof.
  unfold to_map. intros Hl. assert (Forall P []) as Hm by constructor. revert Hm. generalize (@nil (list Z * json)).
  induction Hl as [|[k v] l Hx Hl IH]; intros m Hm; [done|]. cbn [foldl]. by apply IH, insert_member_Forall.
Qed.

(** A map is ordered by its keys, which are different. *)
Definition key_lt (a b : list Z) : Prop := strcmp a b = Lt.

Lemma strcmp_opp a b : strcmp b a = CompOpp (strcmp a b).
Proof.
  revert b. induction a as [|x a IH]; intros [|y b]; cbn; try done.
  rewrite (Z.compare_antisym x y). destruct (x ?= y); cbn; auto.
Qed.

#[export] Instance key_lt_trans : Transitive key_lt.
Proof.
  intros a. unfold key_lt. induction a as [|x a IH]; intros [|y b] [|z c]; cbn; try done.
  destruct (Z.compare_spec x y) as [->|Hl|Hl]; destruct (Z.compare_spec y z) as [->|Hl'|Hl']; try done.
  - apply IH.
  - intros _ _. by rewrite (proj2 (Z.compare_lt_iff _ _)) by lia.
  - intros _ _. by rewrite (proj2 (Z.compare_lt_iff _ _)) by lia.
Qed.

Lemma insert_member_keys k v m x : x ∈ (insert_member k v m).*1 -> x = k \/ x ∈ m.*1.
Proof.
  induction m as [|[k' v'] m IH]; [set_solver|]. cbn [insert_member]. destruct (strcmp k k') eqn:E; cbn; set_solver.
Qed.

Lemma insert_member_sorted k v m : StronglySorted key_lt m.*1 -> StronglySorted key_lt (insert_member k v m).*1.
Proof.
  induction m as [|[k' v'] m IH]; intros Hs; [repeat constructor|]. cbn [fmap list_fmap fst] in Hs. inversion Hs as [|? ? Hm Hk]; subst.
  cbn [insert_member]. destruct (strcmp k k') eqn:E.
  - apply strcmp_eq in E as ->. done.
  - cbn. constructor; [done|]. constructor; [done|]. eapply Forall_impl; [exact Hk|]. intros x Hx. by trans k'.
  - cbn. constructor; [by apply IH|]. apply Forall_forall. intros x [->|Hx]%insert_member_keys.
    + unfold key_lt. by rewrite strcmp_opp, E.
    + rewrite Forall_forall in Hk. by apply Hk.
Qed.

Lemma to_map_sorted l : StronglySorted key_lt (to_map l).*1.
Proof.
  unfold to_map. assert (StronglySorted key_lt (@nil (list Z * json)).*1) as Hm by constructor. revert Hm.
  generalize (@nil (list Z * json)). induction l as [|[k v] l IH]; intros m Hm; [done|]. by apply IH, insert_member_sorted.
Qed.

Lemma insert_member_last k v m : Forall (fun x => key_lt x k) m.*1 -> insert_member k v m = m ++ [(k, v)].
Proof.
  induction m as [|[k' v'] m IH]; intros Hm; [done|]. cbn in Hm. apply Forall_cons in Hm as [Hk Hm].
  cbn [insert_member app]. rewrite strcmp_opp. unfold key_lt in Hk. rewrite Hk. cbn. by rewrite IH.
Qed.

Lemma to_map_id m : StronglySorted key_lt m.*1 -> to_map m = m.
Proof.
  intros Hm. unfold to_map.
  enough (forall m1 m2, StronglySorted key_lt (m1 ++ m2).*1 -> foldl (fun m kv => insert_member kv.1 kv.2 m) m1 m2 = m1 ++ m2)
    as E by (by apply (E [])).
  clear m Hm. intros m1 m2. revert m1. induction m2 as [|[k v] m2 IH]; intros m1 Hm; [by rewrite app_nil_r|].
  cbn [foldl fst snd]. rewrite insert_member_last.
  - rewrite IH; rewrite <- app_assoc; done.
  - rewrite fmap_app in Hm. apply Forall_forall. intros x Hx. apply StronglySorted_app in Hm as (Hm & _).
    apply Hm; [done|by left].
Qed.

(** ** The strings, the numbers and the keys of a value *)

Inductive all (PS PN : list Z -> Prop) (PK : list (list Z) -> Prop) : json -> Prop :=
  | all_null : all PS PN PK Null
  | all_bool b : all PS PN PK (Bool b)
  | all_num t : PN t -> all PS PN PK (Num t)
  | all_str s : PS s -> all PS PN PK (Str s)
  | all_arr l : Forall (all PS PN PK) l -> all PS PN PK (Arr l)
  | all_obj l : PK l.*1 -> Forall (fun kv => PS kv.1 /\ all PS PN PK kv.2) l -> all PS PN PK (Obj l).

Lemma all_induction PS PN PK (P : json -> Prop) :
  P Null -> (forall b, P (Bool b)) -> (forall t, PN t -> P (Num t)) -> (forall s, PS s -> P (Str s)) ->
  (forall l, Forall P l -> P (Arr l)) ->
  (forall l, PK l.*1 -> Forall (fun kv => PS kv.1) l -> Forall (fun kv => P kv.2) l -> P (Obj l)) -> forall v, all PS PN PK v -> P v.
Proof.
  intros H1 H2 H3 H4 H5 H6 v Hv. induction v as [ |b|t|s|l IH|l IH] using json_induction;
    inversion Hv as [| |? Ht|? Hs|? Hl|? Hk Hl]; subst; auto.
  - apply H5. rewrite Forall_forall in *. auto.
  - apply H6; [done|..]; rewrite Forall_forall in *; intros kv Hkv; [by apply Hl|]. by apply IH; [|apply Hl].
Qed.

Lemma all_impl (PS PN PS' PN' : list Z -> Prop) (PK PK' : list (list Z) -> Prop) v :
  (forall s, PS s -> PS' s) -> (forall t, PN t -> PN' t) -> (forall ks, PK ks -> PK' ks) -> all PS PN PK v -> all PS' PN' PK' v.
Proof.
  intros HS HN HK. induction 1 as [ |b|t Ht|s Hs|l IH|l Ho Hk IH] using all_induction; try (constructor; by auto).
  constructor; [by auto|]. apply Forall_forall. rewrite Forall_forall in *. auto.
Qed.

Lemma all_wf PK v : all (Forall byte) literal PK v -> wf v.
Proof.
  induction 1 as [ |b|t Ht|s Hs|l IH|l _ Hk IH] using all_induction; try (constructor; by auto).
  constructor. apply Forall_forall. rewrite Forall_forall in *. auto.
Qed.

Definition any_keys : list (list Z) -> Prop := fun _ => True.

(** *** Valid UTF-8 *)

Lemma ToValidUTF8_idem s : ToValidUTF8 (ToValidUTF8 s) = ToValidUTF8 s.
Proof.
  apply ToValidUTF8_valid. unfold utf8_Valid, ToValidUTF8.
  enough (forall n s m, (length (valid_from n s) <= m)%nat -> Valid_from m (valid_from n s) = true) by auto.
  clear s. induction n as [|n IH]; intros s m Hm; [by destruct m|]. destruct s as [|c s]; [by destruct m|].
  cbn [valid_from] in *. destruct (rune_width (c :: s)) as [|w] eqn:Ew.
  - destruct m as [|m]; [cbn in Hm; lia|]. cbn in Hm |- *. apply IH. lia.
  - pose proof (rune_width_length (c :: s)) as Hl. rewrite Ew in Hl. pose proof (rune_width_local (c :: s)
      (valid_from n (drop (S w) (c :: s))) w Ew) as Hw. rewrite length_app, length_take in Hm.
    destruct m as [|m]; [lia|]. cbn [take app] in Hw |- *. cbn [Valid_from]. rewrite Hw.
    cbn [drop length] in *. rewrite drop_app_length' by (rewrite length_take; lia). apply IH. lia.
Qed.

Lemma ToValidUTF8_byte s : Forall byte s -> Forall byte (ToValidUTF8 s).
Proof.
  unfold ToValidUTF8. generalize (length s). intros n. revert s. induction n as [|n IH]; intros s Hs; [constructor|].
  destruct s as [|c s]; [constructor|]. cbn [valid_from]. destruct (rune_width (c :: s)) as [|w].
  - apply Forall_cons in Hs as [_ Hs]. apply Forall_app_2; [unfold RuneError, byte; repeat constructor; lia|by apply IH].
  - apply Forall_app_2; [by apply Forall_take|by apply IH, Forall_drop].
Qed.

Lemma canon_all (PS PS' PN : list Z -> Prop) PK v :
  (forall s, PS s -> PS' (ToValidUTF8 s)) -> all PS PN PK v -> all PS' PN any_keys (canon v).
Proof.
  intros HS. induction 1 as [ |b|t Ht|s Hs|l IH|l _ Hk IH] using all_induction; try (constructor; by auto); cbn [canon]; constructor.
  - by apply Forall_fmap.
  - done.
  - apply Forall_fmap, Forall_forall. rewrite Forall_forall in *. intros kv Hkv. cbn. auto.
Qed.

Lemma canon_valid PN PK v : all (fun s => ToValidUTF8 s = s) PN PK v -> canon v = v.
Proof.
  induction 1 as [ |b|t Ht|s Hs|l IH|l _ Hk IH] using all_induction; cbn [canon]; try done; f_equal; try done.
  - induction IH as [|x l Hx Hl IHl]; [done|]. cbn. by rewrite Hx, IHl.
  - induction IH as [|[k x] l Hx Hl IHl]; [done|]. apply Forall_cons in Hk as [Hkx Hk]. cbn in *. by rewrite Hkx, Hx, IHl.
Qed.

Section Values.
Context `{Floats}.

(** ** Values *)

(** [json.Unmarshal] into [any] of what was parsed, as [json.Marshal] writes it. *)
Fixpoint unmarshal (v : json) : option json :=
  match v with
  | Num t => Num <$> float_text t
  | Arr l => Arr <$> mapM unmarshal l
  | Obj l => (fun m => Obj (to_map m)) <$> mapM (fun kv => pair kv.1 <$> unmarshal kv.2) l
  | _ => Some v
  end.

(** [fmt.Sprint]; a map is printed in the order of its keys. *)
Fixpoint Sprint (v : json) : list Z :=
  match v with
  | Null => str "<nil>"
  | Bool b => if b then str "true" else str "false"
  | Num t => float_v t
  | Str s => s
  | Arr l => 91 :: join_with 32 (Sprint <$> l) ++ [93]
  | Obj l => str "map[" ++ join_with 32 ((fun kv => kv.1 ++ 58 :: Sprint kv.2) <$> l) ++ [93]
  end.

(** [json.Unmarshal] into [any], and into a [map[string]any], which [null] leaves
    nil. *)
Definition Unmarshal (s : list Z) : option json := v ← parse s; unmarshal v.

Definition UnmarshalMap (s : list Z) : option members_of :=
  v ← Unmarshal s;
  match v with
  | Obj m => Some m
  | Null => Some []
  | _ => None
  end.

Lemma unmarshal_total PS PK v : all PS (fun t => is_Some (float_text t)) PK v -> is_Some (unmarshal v).
Proof.
  induction 1 as [ |b|t [u Hu]|s|l IH|l _ _ IH] using all_induction; cbn [unmarshal]; try by eexists.
  - rewrite Hu. by eexists.
  - by apply fmap_is_Some, mapM_is_Some.
  - apply fmap_is_Some, mapM_is_Some. eapply Forall_impl; [exact IH|]. intros kv Hkv. by apply fmap_is_Some.
Qed.

(** What is unmarshalled has the strings of the text, the numbers rounded and the
    keys in order. *)
Lemma unmarshal_all PS PN PN' PK v w :
  (forall t u, PN t -> float_text t = Some u -> PN' u) -> all PS PN PK v -> unmarshal v = Some w ->
  all PS PN' (StronglySorted key_lt) w.
Proof.
  intros HN Hv. revert w. induction Hv as [ |b|t Ht|s Hs|l IH|l _ Hk IH] using all_induction; intros w Hw;
    cbn [unmarshal] in Hw; try (injection Hw as <-; by constructor); apply fmap_Some in Hw as (x & Hx & ->).
  - constructor. by eapply HN.
  - constructor. apply mapM_Some in Hx. induction Hx; [constructor|]. apply Forall_cons in IH as [? ?]. constructor; auto.
  - constructor; [apply to_map_sorted|]. apply to_map_Forall. apply mapM_Some in Hx.
    induction Hx as [|[k y] kv l l' Hy Hl IHl]; [constructor|].
    apply Forall_cons in IH as [IHy IH], Hk as [Hky Hk]. apply fmap_Some in Hy as (z & Hz & ->). constructor; cbn in *; auto.
Qed.

(** It is not nested deeper. *)
Lemma unmarshal_depth v : forall w, unmarshal v = Some w -> depth w <= depth v.
Proof.
  induction v as [ |b|t|s|l IH|l IH] using json_induction; intros w Hw; cbn [unmarshal] in Hw; try (injection Hw as <-; done);
    apply fmap_Some in Hw as (x & Hx & ->); [done|..]; apply mapM_Some in Hx.
  - assert (0 <= foldr Z.max 0 (depth <$> l)) as Hn by (clear; induction l; cbn; lia).
    change (depth (Arr l)) with (1 + foldr Z.max 0 (depth <$> l)). apply depth_arr; [done|].
    pose proof (proj1 (depth_arr _ l Hn) (Z.le_refl _)) as Hl. clear Hn. revert Hl. generalize (foldr Z.max 0 (depth <$> l)). intros n Hl.
    induction Hx as [|w v x l Hw _ IHx]; [constructor|]. apply Forall_cons in IH as [IHv IH], Hl as [Hv Hl].
    constructor; [specialize (IHv _ Hw); lia|auto].
  - assert (0 <= foldr Z.max 0 ((fun kv : list Z * json => depth kv.2) <$> l)) as Hn by (clear; induction l; cbn; lia).
    change (depth (Obj l)) with (1 + foldr Z.max 0 ((fun kv => depth kv.2) <$> l)). apply depth_obj; [done|]. apply to_map_Forall.
    pose proof (proj1 (depth_obj _ l Hn) (Z.le_refl _)) as Hl. clear Hn. revert Hl.
    generalize (foldr Z.max 0 ((fun kv => depth kv.2) <$> l)). intros n Hl.
    induction Hx as [|w v x l Hw _ IHx]; [constructor|]. apply Forall_cons in IH as [IHv IH], Hl as [Hv Hl].
    apply fmap_Some in Hw as (y & Hy & ->). constructor; [specialize (IHv _ Hy); cbn; lia|auto].
Qed.

(** What is rounded and in order stays. *)
Lemma unmarshal_id PS v : all PS (fun t => float_text t = Some t) (StronglySorted key_lt) v -> unmarshal v = Some v.
Proof.
  induction 1 as [ |b|t Ht|s Hs|l IH|l Ho Hk IH] using all_induction; cbn [unmarshal]; try done.
  - by rewrite Ht.
  - replace (mapM unmarshal l) with (Some l); [done|]. symmetry. apply mapM_Some. by induction IH; constructor.
  - replace (mapM _ l) with (Some l); [cbn; by rewrite to_map_id|]. symmetry. apply mapM_Some. clear Ho Hk.
    induction IH as [|[k x] l Hx Hl IHl]; constructor; [|done]. cbn in *. by rewrite Hx.
Qed.

(** The members of an object. *)
Lemma unmarshal_members l v : unmarshal (Obj l) = Some v -> exists m, v = Obj m /\
  forall k, match last_member k l with
            | Some x => exists y, unmarshal x = Some y /\ member k m = Some y
            | None => member k m = None
            end.
Proof.
  cbn [unmarshal]. intros (l' & Hl & ->)%fmap_Some. eexists. split; [done|]. intros k. rewrite member_to_map.
  apply mapM_Some in Hl. induction Hl as [|[k1 x] kv l l' Hx Hl IH]; [done|].
  apply fmap_Some in Hx as (y & Hy & ->). cbn [last_member fst snd] in *.
  destruct (last_member k l) as [z|]; [destruct IH as (y' & Hy' & ->); by exists y'|]. rewrite IH.
  case_decide; [by exists y|done].
Qed.

(** ** Reading again *)

(** What was unmarshalled: valid UTF-8, numbers that are the literals of themselves,
    keys in order, and not nested too deep. *)
Definition settled (v : json) : Prop :=
  all (fun s => Forall byte s /\ ToValidUTF8 s = s) (fun t => literal t /\ float_text t = Some t) (StronglySorted key_lt) v /\
  depth v <= maxNestingDepth.

(** What can be marshalled and is in range. *)
Definition exportable : json -> Prop := all (Forall byte) (fun t => literal t /\ is_Some (float_text t)) any_keys.

Context `{!FloatLaws}.

Lemma exportable_wf v : exportable v -> wf v.
Proof. intros Hv. apply (all_wf any_keys). revert Hv. by apply all_impl; [|intros t [? _]|]. Qed.

Lemma settled_wf v : settled v -> wf v.
Proof. intros [Hv _]. apply (all_wf any_keys). revert Hv. by apply all_impl; [intros s [? _]|intros t [? _]|]. Qed.

(** What is exported is unmarshalled. *)
Lemma Unmarshal_encode v : exportable v -> depth v <= maxNestingDepth ->
  exists w, Unmarshal (encode v) = Some w /\ unmarshal (canon v) = Some w /\ settled w /\ depth w <= depth v.
Proof.
  intros Hv Hd. assert (all (fun s => Forall byte s /\ ToValidUTF8 s = s) (fun t => literal t /\ is_Some (float_text t)) any_keys (canon v)) as Hc.
  { eapply canon_all; [|exact Hv]. intros s Hs. split; [by apply ToValidUTF8_byte|apply ToValidUTF8_idem]. }
  destruct (unmarshal_total (fun _ => True) any_keys (canon v)) as [w Hw]; [revert Hc; by apply all_impl; [|intros t [_ ?]|]|].
  pose proof (unmarshal_depth _ _ Hw) as Hdw. rewrite canon_depth in Hdw.
  exists w. split; [|split; [done|split; [split; [|lia]|done]]].
  - unfold Unmarshal. by rewrite json_roundtrip by (by apply exportable_wf || done).
  - eapply unmarshal_all; [|exact Hc|exact Hw]. intros t u _ Hu. split; [by eapply float_literal|by eapply float_again].
Qed.

(** What was unmarshalled is marshalled and unmarshalled without a change. *)
Lemma Unmarshal_settled v : settled v -> Unmarshal (encode v) = Some v.
Proof.
  intros Hv. unfold Unmarshal. rewrite json_roundtrip by (by apply settled_wf || apply Hv). cbn [mbind option_bind]. destruct Hv as [Hv _].
  rewrite (canon_valid (fun _ => True) any_keys); [|revert Hv; by apply all_impl; [intros s [_ ?]|..]].
  apply (unmarshal_id (fun _ => True)). revert Hv. by apply all_impl; [|intros t [_ ?]|].
Qed.

Lemma UnmarshalMap_settled m : settled (Obj m) -> UnmarshalMap (encode (Obj m)) = Some m.
Proof. intros Hm. unfold UnmarshalMap. by rewrite Unmarshal_settled. Qed.
End Values.
