(* ===== verification/JsonCompact.v ===== *)
(** Any text of a value, compacted: [json.RawMessage] keeps the value.

    A message that was parsed and is marshalled again as [json.RawMessage] loses its
    white space and has some characters escaped; it is still a text of the same value.
    What is parsed is valid UTF-8, with literals for numbers. *)

From S2P Require Import Prelude GoStd Json JsonTheorems JsonText JsonMap.

(** ** Strings *)

(** The continuation bytes a text starts with; they decide the width of what the byte
    before them starts. *)
Fixpoint conts (s : list Z) : list Z :=
  match s with
  | c :: s' => if cont 128 191 c then c :: conts s' else []
  | [] => []
  end.

Lemma cont_wide lo hi c : 128 <= lo -> hi <= 191 -> cont 128 191 c = false -> cont lo hi c = false.
Proof. unfold cont. rewrite !andb_false_iff, !Z.leb_gt. lia. Qed.

Lemma rune_width_conts c s : rune_width (c :: s) = rune_width (c :: conts s).
Proof.
  unfold rune_width. destruct (c <? 128); [done|]. destruct (c <? 194); [done|].
  destruct s as [|b1 s]; [done|]. cbn [conts]. destruct (cont 128 191 b1) eqn:E1.
  - rewrite E1. destruct s as [|b2 s]; [done|]. cbn [conts]. destruct (cont 128 191 b2) eqn:E2.
    + rewrite E2. destruct s as [|b3 s]; [done|]. cbn [conts]. destruct (cont 128 191 b3) eqn:E3; [by rewrite E3|].
      by rewrite andb_false_r.
    + rewrite !andb_false_r. cbn [andb]. by repeat case_match.
  - rewrite !(cont_wide _ _ b1) by (done || case_match; lia). cbn [andb]. by repeat case_match.
Qed.

Lemma rune_width_eq c s s' : conts s = conts s' -> rune_width (c :: s) = rune_width (c :: s').
Proof. intros H. by rewrite rune_width_conts, H, <- rune_width_conts. Qed.

(** Hexadecimal digits. *)
Lemma unhex_inv s n r : unhex s = Some (n, r) ->
  exists h, s = h ++ r /\ length h = 4%nat /\ Forall (fun c => 48 <= c < 128) h /\ 0 <= n < 65536 /\
    forall x, unhex (h ++ x) = Some (n, x).
Proof.
  destruct s as [|a [|b [|c [|d s]]]]; try done. cbn [unhex]. intros H.
  destruct (digit_val a) as [a'|] eqn:Ea; [|done]. destruct (digit_val b) as [b'|] eqn:Eb; [|done].
  destruct (digit_val c) as [c'|] eqn:Ec; [|done]. destruct (digit_val d) as [d'|] eqn:Ed; [|done].
  cbn [mbind option_bind] in H. destruct (_ && _) eqn:E; [|done]. injection H as <- <-.
  assert (forall x y, digit_val x = Some y -> 48 <= x < 128 /\ 0 <= y) as Hd.
  { intros x y. unfold digit_val. repeat case_match; intros; simplify_eq; zbool; lia. }
  exists [a; b; c; d]. split_and!; [done|done| | | |].
  - repeat (apply Forall_cons_2; [by eapply Hd|]). constructor.
  - apply Hd in Ea, Eb, Ec, Ed. lia.
  - zbool. lia.
  - intros x. cbn [app unhex]. rewrite Ea, Eb, Ec, Ed. cbn [mbind option_bind]. by rewrite E.
Qed.

(** Whether a text starts with the second half of a surrogate pair; an escape that is
    none starts nothing. *)
Definition half (s : list Z) : option bool :=
  match s with
  | 92 :: 117 :: s4 => '(r, _) ← unhex s4; Some ((56320 <=? r) && (r <=? 57343))
  | _ => Some false
  end.

(** What follows a character decides how it is read only by the continuation bytes and
    the half of a surrogate pair it starts with. *)
Definition same_start (s s' : list Z) : Prop := conts s = conts s' /\ half s = half s'.

(** The text of a character, whatever of the same start follows. *)
Definition char (p o s : list Z) : Prop :=
  p <> [] /\ forall f x, same_start s x -> unquote (S f) (p ++ x) = then_ o (unquote f x).

(** A character of a string: its text [p] is compacted to [q], and both are read as
    [o]. *)
Definition item (p q o s : list Z) : Prop :=
  char p o s /\ char q o s /\ Forall byte q /\ compact true (p ++ s) = app q <$> compact true s /\
  forall x, same_start s x -> same_start (p ++ s) (q ++ x).

Lemma item_same p o s :
  char p o s -> Forall byte p -> compact true (p ++ s) = app p <$> compact true s ->
  (forall x, same_start s x -> same_start (p ++ s) (p ++ x)) -> item p p o s.
Proof. intros H1 H2 H3 H4. exact (conj H1 (conj H1 (conj H2 (conj H3 H4)))). Qed.

Lemma half_other c x : c <> 92 -> half (c :: x) = Some false.
Proof. intros Hc. unfold half. repeat (case_match; try done). Qed.

Lemma half_escape e x : e <> 117 -> half (92 :: e :: x) = Some false.
Proof. intros Hc. unfold half. repeat (case_match; try done). Qed.

Lemma unhex_plain h n : length h = 4%nat -> (forall x, unhex (h ++ x) = Some (n, x)) -> Forall plain h.
Proof.
  intros Hl Hx. specialize (Hx []). rewrite app_nil_r in Hx.
  destruct h as [|a [|b [|c [|d [|? ?]]]]]; try done. cbn [unhex] in Hx.
  assert (forall x y, digit_val x = Some y -> (y <? 16) = true -> plain x) as Hp.
  { intros x y. unfold digit_val, plain. intros Hd Hy. rewrite !not_elem_of_cons.
    repeat case_match; simplify_eq; zbool; split_and!; try lia; apply not_elem_of_nil. }
  destruct (digit_val a) eqn:Ea; [|done]. destruct (digit_val b) eqn:Eb; [|done].
  destruct (digit_val c) eqn:Ec; [|done]. destruct (digit_val d) eqn:Ed; [|done].
  cbn [mbind option_bind] in Hx. destruct (_ && _) eqn:E; [|done].
  rewrite !andb_true_iff in E. destruct E as [[[? ?] ?] ?].
  repeat (apply Forall_cons_2; [eapply Hp; eassumption|]). constructor.
Qed.

Lemma low_bytes h : Forall (fun c => 48 <= c < 128) h -> Forall byte h.
Proof. intros H. eapply Forall_impl; [exact H|]. unfold byte. cbv beta. lia. Qed.

(** An escape of four digits, followed by what does not complete a surrogate pair. *)
Lemma item_u h n s :
  length h = 4%nat -> Forall (fun c => 48 <= c < 128) h -> (forall x, unhex (h ++ x) = Some (n, x)) ->
  is_surrogate n = false \/ (exists b, half s = Some b /\ (n <? 56320) && b = false) ->
  item (92 :: 117 :: h) (92 :: 117 :: h) (if is_surrogate n then RuneError else AppendRune n) s.
Proof.
  intros Hl Hh Hx Hs. pose proof (unhex_plain h n Hl Hx) as Hp. apply item_same.
  2: repeat (apply Forall_cons_2; [unfold byte; lia|]); by apply low_bytes.
  2: by apply compact_escape.
  2: intros x [Hc Hf]; split; [done|]; cbn [app half]; by rewrite !Hx.
  - split; [done|]. intros f x [_ Hf]. cbn [app]. cbn [unquote]. change (92 =? 34) with false. change (92 <? 32) with false.
    rewrite !Z.eqb_refl, Hx. cbn [mbind option_bind]. destruct (is_surrogate n) eqn:En; [|done].
    destruct Hs as [?|(b & Hb & Hn)]; [done|]. rewrite Hb in Hf.
    assert (forall s4, x = 92 :: 117 :: s4 -> exists r2 s5, unhex s4 = Some (r2, s5) /\ b = (56320 <=? r2) && (r2 <=? 57343)) as H4.
    { intros s4 ->. cbn [half] in Hf. destruct (unhex s4) as [[r2 s5]|]; [|done]. injection Hf as ->. by eexists _, _. }
    repeat (case_match; try done). subst. destruct (H4 _ eq_refl) as (r2 & s5 & -> & ->). cbn [mbind option_bind].
    by rewrite <- andb_assoc, Hn.
Qed.

(** A surrogate pair. *)
Lemma item_pair h n h2 n2 s :
  length h = 4%nat -> Forall (fun c => 48 <= c < 128) h -> (forall x, unhex (h ++ x) = Some (n, x)) ->
  length h2 = 4%nat -> Forall (fun c => 48 <= c < 128) h2 -> (forall x, unhex (h2 ++ x) = Some (n2, x)) ->
  is_surrogate n = true -> (n <? 56320) && (56320 <=? n2) && (n2 <=? 57343) = true ->
  let p := 92 :: 117 :: h ++ 92 :: 117 :: h2 in
  item p p (AppendRune (65536 + (n - 55296) * 1024 + (n2 - 56320))) s.
Proof.
  intros Hl Hh Hx Hl2 Hh2 Hx2 Hn H p. pose proof (unhex_plain h n Hl Hx) as Hp. pose proof (unhex_plain h2 n2 Hl2 Hx2) as Hp2.
  assert (forall x, p ++ x = 92 :: 117 :: h ++ 92 :: 117 :: h2 ++ x) as Ep by (intros; unfold p; cbn; by rewrite <- app_assoc).
  apply item_same.
  2: { unfold p. repeat first [apply Forall_cons_2; [unfold byte; lia|] | apply Forall_app_2]; by apply low_bytes. }
  2: { rewrite Ep, compact_escape by done. rewrite compact_escape by done. destruct (compact true s); [|done].
    cbn. by rewrite <- app_assoc. }
  2: { intros x _. rewrite !Ep. split; [done|]. cbn [half]. by rewrite !Hx. }
  - split; [done|]. intros f x _. rewrite Ep. cbn [unquote]. change (92 =? 34) with false. change (92 <? 32) with false.
    rewrite !Z.eqb_refl, Hx. cbn [mbind option_bind]. by rewrite Hn, Hx2; cbn [mbind option_bind]; rewrite H.
Qed.

(** The escapes of one letter. *)
Definition letter (e : Z) : option Z :=
  if (e =? 34) || (e =? 92) || (e =? 47) then Some e
  else if e =? 98 then Some 8
  else if e =? 102 then Some 12
  else if e =? 110 then Some 10
  else if e =? 114 then Some 13
  else if e =? 116 then Some 9
  else None.

Lemma letter_range e c : letter e = Some c -> 32 <= e < 128 /\ 0 <= c < 128 /\ e <> 117.
Proof. unfold letter. repeat case_match; intros; simplify_eq; rewrite ?orb_true_iff in *; zbool; lia. Qed.

Lemma item_letter e c s : letter e = Some c -> item [92; e] [92; e] [c] s.
Proof.
  intros He. destruct (letter_range e c He) as (H1 & H2 & H3). apply item_same.
  2: repeat constructor; lia.
  2: apply (compact_escape e []); [lia|constructor].
  2: intros x _; split; [done|]; cbn [app]; by rewrite !half_escape.
  - split; [done|]. intros f x _. cbn [app]. cbn [unquote]. change (92 =? 34) with false. change (92 <? 32) with false.
    rewrite Z.eqb_refl, (proj2 (Z.eqb_neq e 117)) by done. fold (letter e). rewrite He. cbn [mbind option_bind]. done.
Qed.

Lemma rune_take s w : rune_width s = S w -> length (take (S w) s) = S w /\ s = take (S w) s ++ drop (S w) s.
Proof.
  intros Hw. split; [|by rewrite take_drop]. rewrite length_take. pose proof (rune_width_length s). lia.
Qed.

Lemma char_rune c r s :
  rune_width (c :: r) = S (length r) -> 32 <= c -> c <> 34 -> c <> 92 -> char (c :: r) (c :: r) s.
Proof.
  intros Hw Hc H34 H92. split; [done|]. intros f x _. pose proof (rune_width_local (c :: r) x (length r) Hw) as Hr.
  rewrite firstn_all2 in Hr by (simpl; lia). cbn [app] in *. cbn [unquote].
  rewrite (proj2 (Z.eqb_neq c 34)), (proj2 (Z.ltb_ge c 32)), (proj2 (Z.eqb_neq c 92)), Hr by done.
  cbn [take drop]. by rewrite take_app_length, drop_app_length.
Qed.

(** A character of one byte. *)
Lemma item_ascii c s : 32 <= c -> c < 128 -> c <> 34 -> c <> 92 -> item [c] (escape_ascii c) [c] s.
Proof.
  intros Hc0 Hc H34 H92.
  assert (forall x, conts (c :: x) = []) as Hconts.
  { intros x. cbn [conts]. unfold cont. rewrite (proj2 (Z.leb_gt 128 c)) by lia. done. }
  assert (escape_ascii c = [c] /\ c <> 60 /\ c <> 62 /\ c <> 38 \/ c ∈ [60; 62; 38]) as [(E & H1 & H2 & H3)|Hin].
  { unfold escape_ascii. rewrite !(proj2 (Z.eqb_neq c _)) by lia. rewrite (proj2 (Z.ltb_ge c 32)) by lia. cbn [orb].
    rewrite !elem_of_cons. destruct (Z.eqb_spec c 60), (Z.eqb_spec c 62), (Z.eqb_spec c 38); auto 10. }
  all: assert (char [c] [c] s) as Hchar by (apply char_rune; [by apply rune_width_ascii|done..]).
  - rewrite E in *. apply item_same; [done|repeat constructor; lia| |].
    + apply (compact_plain [c]). repeat constructor; [lia|]. rewrite !not_elem_of_cons. split_and!; try lia. apply not_elem_of_nil.
    + intros x _. cbn [app]. split; [by rewrite !Hconts|]. by rewrite !half_other.
  - split_and!; [done|split|apply escape_ascii_byte; lia|..].
    + set_unfold. by destruct Hin as [->|[->|[->|[]]]].
    + intros. apply unquote_ascii. lia.
    + set_unfold. by destruct Hin as [->|[->|[->|[]]]].
    + intros x _. set_unfold. by destruct Hin as [->|[->|[->|[]]]].
Qed.

(** A byte that starts no character. *)
Lemma item_bad c s : rune_width (c :: s) = 0%nat -> byte c -> item [c] [c] RuneError s.
Proof.
  intros Hw [_ Hb]. assert (128 <= c) as Hc. { cbn [rune_width] in Hw. destruct (Z.ltb_spec c 128); [done|lia]. }
  apply item_same; [|repeat constructor; lia|..].
  2: { cbn [app]. rewrite compact_high; [by destruct (compact true s)|lia|set_unfold; lia|].
    destruct s as [|b [|d s]]; [done..|]. intros (-> & -> & [-> | ->]); done. }
  2: { intros x [Hx _]. cbn [app]. split; [cbn [conts]; by rewrite Hx|]. by rewrite !half_other by lia. }
  - split; [done|]. intros f x [Hx _]. cbn [app]. cbn [unquote]. rewrite (proj2 (Z.eqb_neq c _)), (proj2 (Z.ltb_ge c 32)), (proj2 (Z.eqb_neq c _)) by lia.
    by rewrite <- (rune_width_eq c s x Hx), Hw.
Qed.

(** A character of more bytes. *)
Lemma item_rune s w :
  rune_width s = S (S w) -> Forall byte s ->
  item (take (S (S w)) s) (escape_rune (take (S (S w)) s)) (take (S (S w)) s) (drop (S (S w)) s).
Proof.
  intros Hw Hb. destruct (rune_take _ _ Hw) as [Hl _]. pose proof (rune_width_local s [] _ Hw) as Hr. rewrite app_nil_r in Hr.
  pose proof (Forall_take byte (S (S w)) s Hb) as Hbr. pose proof (compact_rune s w) as Hcr. specialize (fun t => Hcr t Hw).
  set (r := take (S (S w)) s) in *. set (s' := drop (S (S w)) s). clearbody r s'.
  assert (Hn : exists c c1 r', r = c :: c1 :: r' /\ 192 <= c).
  { destruct r as [|c [|c1 r]]; [done..|]. eexists _, _, _. split; [done|]. cbn [rune_width] in Hr. repeat (case_match; try done); zbool; lia. }
  destruct Hn as (c & c1 & r' & Er & Hc).
  assert (forall x, conts (r ++ x) = [] /\ half (r ++ x) = Some false) as Hstart.
  { intros x. rewrite Er. cbn [app conts]. unfold cont. rewrite (proj2 (Z.leb_gt c 191)), andb_false_r by lia. split; [done|]. by rewrite half_other by lia. }
  assert (escape_rune r = r \/ r = [226; 128; 168] \/ r = [226; 128; 169]) as Hq.
  { unfold escape_rune. rewrite Er. repeat case_decide; auto. }
  split_and!.
  - rewrite Er in *. apply char_rune; [by rewrite Hr, <- Hl|lia..].
  - split; [destruct Hq as [-> |[-> | ->]]; [by rewrite Er|done..]|].
    intros f x _. apply unquote_rune; [done|by rewrite Hl|lia].
  - destruct Hq as [-> |[-> | ->]]; [done|by apply (bool_decide_unpack _)..].
  - destruct Hq as [E|[-> | ->]]; [|reflexivity..]. rewrite <- (Hcr s'), E. done.
  - intros x _. unfold same_start. destruct (Hstart s') as [-> ->].
    destruct Hq as [-> |[-> | ->]]; [by destruct (Hstart x) as [-> ->]|done..].
Qed.

(** The encoding of a character. *)
Definition rune (o : list Z) : Prop := o <> [] /\ rune_width o = length o /\ Forall byte o.

Lemma RuneError_rune : rune RuneError.
Proof. split_and!; [done|done|unfold RuneError, byte; repeat constructor; lia]. Qed.

Lemma AppendRune_rune r : 0 <= r < 1114112 -> rune (AppendRune r).
Proof.
  intros Hr. unfold AppendRune. destruct (Z.ltb_spec r 128) as [H1|H1].
  { split_and!; [done|by apply rune_width_ascii|repeat constructor; lia]. }
  destruct (Z.ltb_spec r 2048) as [H2|H2].
  { split_and!; [done| |repeat constructor; Z.to_euclidean_division_equations; lia]. cbn [rune_width length]. unfold cont.
    repeat (case_match; zbool; try done; try (Z.to_euclidean_division_equations; lia)). }
  destruct (_ && _) eqn:Es; [apply RuneError_rune|]. destruct (Z.ltb_spec r 65536) as [H3|H3].
  { split_and!; [done| |repeat constructor; Z.to_euclidean_division_equations; lia]. cbn [rune_width length]. unfold cont.
    apply andb_false_iff in Es. rewrite !Z.leb_gt in Es.
    repeat (case_match; zbool; try done; try (Z.to_euclidean_division_equations; lia)). }
  rewrite (proj2 (Z.ltb_lt _ _)) by lia.
  split_and!; [done| |repeat constructor; Z.to_euclidean_division_equations; lia]. cbn [rune_width length]. unfold cont.
  repeat (case_match; zbool; try done; try (Z.to_euclidean_division_equations; lia)).
Qed.

(** Text that was read: bytes that are valid UTF-8. *)
Definition valid (s : list Z) : Prop := Forall byte s /\ ToValidUTF8 s = s.

Lemma valid_from_enough n s : (length s <= n)%nat -> valid_from n s = ToValidUTF8 s.
Proof.
  unfold ToValidUTF8. remember (length s) as m eqn:Em. revert n s Em. induction (lt_wf m) as [m _ IH]. intros n s -> Hn.
  destruct s as [|c s]; [by destruct n|]. cbn [length] in *. destruct n as [|n]; [lia|]. cbn [valid_from].
  destruct (rune_width (c :: s)) as [|w]; [by rewrite (IH (length s)) by lia|]. f_equal.
  assert (length (drop (S w) (c :: s)) <= length s)%nat by (rewrite length_drop; simpl; lia).
  trans (valid_from (length (drop (S w) (c :: s))) (drop (S w) (c :: s))); [|symmetry]; apply (IH (length (drop (S w) (c :: s)))); (done || lia).
Qed.

Lemma valid_nil : valid [].
Proof. done. Qed.

Lemma valid_rune o t : rune o -> valid t -> valid (o ++ t).
Proof.
  intros (Hn & Hw & Hb) [Ht Hv]. split; [by apply Forall_app_2|]. destruct (length o) as [|w] eqn:El; [by destruct o|].
  pose proof (rune_width_local o t w Hw) as Hr. rewrite take_ge in Hr by lia.
  rewrite <- (valid_from_enough (S (length (o ++ t)))) by lia. destruct o as [|c o]; [done|]. cbn [valid_from app].
  cbn [app] in Hr. rewrite Hr. cbn [take drop length] in *. injection El as <-.
  rewrite take_app_length, drop_app_length, valid_from_enough, Hv by (rewrite length_app; lia). done.
Qed.

(** The next character of a string, and the rest. *)
Definition next (f : nat) (s t r : list Z) : Prop :=
  exists p q o s' t', s = p ++ s' /\ item p q o s' /\ rune o /\ t = o ++ t' /\ unquote f s' = Some (t', r).

Lemma next_item f p q o s' t r :
  item p q o s' -> rune o -> then_ o (unquote f s') = Some (t, r) -> next f (p ++ s') t r.
Proof.
  intros Hi Ho H. unfold then_ in H. destruct (unquote f s') as [[t' r']|] eqn:Eu; [|done]. injection H as <- <-.
  by exists p, q, o, s', t'.
Qed.

(** What follows the start of an escape. *)
Definition cut_u (s : list Z) : option (list Z) := match s with 92 :: 117 :: s4 => Some s4 | _ => None end.

Lemma match_u {A} s (k : list Z -> A) d :
  match s with 92 :: 117 :: s4 => k s4 | _ => d end = match cut_u s with Some s4 => k s4 | None => d end.
Proof. unfold cut_u. by repeat case_match. Qed.

Lemma cut_u_Some s s4 : cut_u s = Some s4 -> s = 92 :: 117 :: s4.
Proof. unfold cut_u. by repeat case_match; intros [= <-]. Qed.

Lemma next_u f h n s3 t r :
  length h = 4%nat -> Forall (fun c => 48 <= c < 128) h -> (forall x, unhex (h ++ x) = Some (n, x)) -> 0 <= n < 65536 ->
  unquote (S f) (92 :: 117 :: h ++ s3) = Some (t, r) -> next f (92 :: 117 :: h ++ s3) t r.
Proof.
  intros Hl Hh Hx Hn. cbn [unquote]. change (92 =? 34) with false. change (92 <? 32) with false. rewrite !Z.eqb_refl, Hx.
  cbn [mbind option_bind].
  assert (is_surrogate n = false \/ (exists b, half s3 = Some b /\ (n <? 56320) && b = false) ->
    then_ (if is_surrogate n then RuneError else AppendRune n) (unquote f s3) = Some (t, r) -> next f (92 :: 117 :: h ++ s3) t r) as Hone.
  { intros Hs H1. change (92 :: 117 :: h ++ s3) with ((92 :: 117 :: h) ++ s3). eapply next_item; [by apply item_u| |exact H1].
    destruct (is_surrogate n); [apply RuneError_rune|apply AppendRune_rune; lia]. }
  destruct (is_surrogate n) eqn:Es; [|intros H; apply Hone; [by left|done]].
  rewrite match_u. destruct (cut_u s3) as [s4|] eqn:Ec.
  - apply cut_u_Some in Ec as ->. destruct (unhex s4) as [[n2 s5]|] eqn:Eh; [|done]. cbn [mbind option_bind].
    destruct (_ && _ && _) eqn:E.
    + destruct (unhex_inv _ _ _ Eh) as (h2 & -> & Hl2 & Hh2 & Hn2 & Hx2). intros H.
      replace (92 :: 117 :: h ++ 92 :: 117 :: h2 ++ s5) with ((92 :: 117 :: h ++ 92 :: 117 :: h2) ++ s5) by (cbn; by rewrite <- app_assoc).
      eapply next_item; [by apply (item_pair h n h2 n2)| |exact H]. apply AppendRune_rune. unfold is_surrogate in Es. zbool. lia.
    + intros H. apply Hone; [|done]. right. eexists. cbn [half]. rewrite Eh. split; [done|]. by rewrite <- andb_assoc in E.
  - intros H. apply Hone; [|done]. right. exists false. split; [|by rewrite andb_false_r].
    unfold half. rewrite match_u. by rewrite Ec.
Qed.

(** The characters of a string. *)
Lemma unquote_next f s t r :
  Forall byte s -> unquote (S f) s = Some (t, r) -> s = 34 :: r /\ t = [] \/ next f s t r.
Proof.
  intros Hb. destruct s as [|c s]; [done|]. intros H. pose proof H as H'. cbn [unquote] in H. destruct (Z.eqb_spec c 34) as [->|H34].
  { injection H as <- <-. by left. }
  destruct (Z.ltb_spec c 32) as [|H32]; [done|]. right. destruct (Z.eqb_spec c 92) as [->|H92].
  - destruct s as [|e s2]; [done|]. destruct (Z.eqb_spec e 117) as [->|He].
    + destruct (unhex s2) as [[n s3]|] eqn:Eh; [|done]. destruct (unhex_inv _ _ _ Eh) as (h & -> & Hl & Hh & Hn & Hx).
      by apply (next_u f h n).
    + fold (letter e) in H. destruct (letter e) as [c'|] eqn:El; [|done]. cbn [mbind option_bind] in H.
      change (92 :: e :: s2) with ([92; e] ++ s2). eapply next_item; [by apply item_letter| |exact H].
      destruct (letter_range e c' El) as (_ & Hc & _). split_and!; [done|apply rune_width_ascii; lia|repeat constructor; lia].
  - destruct (rune_width (c :: s)) as [|[|w]] eqn:Ew.
    + apply Forall_cons in Hb as [Hc Hb]. change (c :: s) with ([c] ++ s). eapply next_item; [by apply item_bad|apply RuneError_rune|exact H].
    + pose proof (proj1 (rune_width_ascii c s) Ew). change (c :: s) with ([c] ++ s).
      eapply next_item; [by apply item_ascii| |exact H].
      split_and!; [done|apply rune_width_ascii; lia|repeat constructor; lia].
    + destruct (rune_take _ _ Ew) as [Hl Es]. rewrite Es at 1. eapply next_item; [by apply item_rune| |exact H].
      split_and!; [done| |by apply Forall_take]. rewrite Hl, <- (app_nil_r (take _ _)). by apply rune_width_local.
Qed.

(** What is read as a string is compacted to a text of the string. *)
Lemma unquote_compact f s t r :
  Forall byte s -> unquote f s = Some (t, r) ->
  valid t /\ Forall byte r /\
  exists u, compact true s = (fun x => u ++ 34 :: x) <$> compact false r /\ string_text t u /\ forall x, same_start s (u ++ 34 :: x).
Proof.
  revert s t. induction f as [|f IH]; intros s t Hb H; [done|].
  destruct (unquote_next f s t r Hb H) as [[-> ->]|(p & q & o & s' & t' & -> & (Hp & [Hq Hu] & Hbq & Hc & Hs) & Ho & -> & H')].
  - split_and!; [apply valid_nil|by apply Forall_cons in Hb as [_ ?]|]. exists []. split; [reflexivity|]. split; [|done].
    split; [constructor|]. intros x fuel Hf. destruct fuel; [simpl in Hf; lia|done].
  - apply Forall_app in Hb as [_ Hb]. destruct (IH s' t' Hb H') as (Hv & Hr & u & Hcu & [Hbu Hst] & Hss).
    split_and!; [by apply valid_rune|done|]. exists (q ++ u). split; [|split].
    + rewrite Hc, Hcu. destruct (compact false r); [|done]. cbn. by rewrite <- app_assoc.
    + split; [by apply Forall_app_2|]. intros x fuel Hf. rewrite length_app in Hf. destruct fuel as [|fuel]; [lia|].
      destruct q as [|c q]; [done|]. cbn [length] in Hf. rewrite <- app_assoc, Hu, Hst by (done || lia). done.
    + intros x. rewrite <- app_assoc. by apply Hs.
Qed.

(** What follows the quotation mark does not matter. *)
Lemma start_quote p r x : same_start (p ++ 34 :: r) (p ++ 34 :: x).
Proof.
  split; [induction p as [|c p IH]; [done|]; cbn [app conts]; by rewrite IH|].
  destruct p as [|a p]; [done|]. cbn [app]. destruct (decide (a = 92)) as [->|]; [|by rewrite !half_other].
  destruct p as [|b p]; [done|]. cbn [app]. destruct (decide (b = 117)) as [->|]; [|by rewrite !half_escape]. cbn [half].
  destruct p as [|c1 [|c2 [|c3 [|c4 p]]]]; cbn [app unhex]; change (digit_val 34) with (@None Z).
  - by destruct r as [|? [|? [|? ?]]], x as [|? [|? [|? ?]]].
  - destruct r as [|? [|? ?]], x as [|? [|? ?]]; cbn [unhex]; by destruct (digit_val c1).
  - destruct r as [|? ?], x as [|? ?]; cbn [unhex]; destruct (digit_val c1), (digit_val c2); done.
  - destruct (digit_val c1), (digit_val c2), (digit_val c3); done.
  - destruct (digit_val c1), (digit_val c2), (digit_val c3), (digit_val c4); try done. cbn [mbind option_bind].
    by destruct (_ && _ && _ && _).
Qed.

(** The text of a string that was read. *)
Lemma unquote_raw f s t r :
  Forall byte s -> unquote f s = Some (t, r) -> exists p, s = p ++ 34 :: r /\ string_text t p.
Proof.
  revert s t. induction f as [|f IH]; intros s t Hb H; [done|].
  destruct (unquote_next f s t r Hb H) as [[-> ->]|(p & q & o & s' & t' & -> & ([Hp Hu] & _) & _ & -> & H')].
  - exists []. split; [done|]. split; [constructor|]. intros x fuel Hf. destruct fuel; [simpl in Hf; lia|done].
  - apply Forall_app in Hb as [Hbp Hb]. destruct (IH s' t' Hb H') as (p' & -> & Hbp' & Hst).
    exists (p ++ p'). split; [by rewrite <- app_assoc|]. split; [by apply Forall_app_2|].
    intros x fuel Hf. rewrite length_app in Hf. destruct fuel as [|fuel]; [lia|]. destruct p as [|c p]; [done|]. cbn [length] in Hf.
    rewrite <- app_assoc, Hu by apply start_quote. rewrite Hst by lia. done.
Qed.

(** ** Numbers *)

Lemma eat_Some c s s' : eat c s = Some s' -> s = c :: s'.
Proof. destruct s as [|x s]; [done|]. cbn. destruct (Z.eqb_spec x c) as [->|]; [by intros [= ->]|done]. Qed.

Definition no_digit (r : list Z) : Prop := match r with c :: _ => is_digit c = false | [] => True end.

Lemma digits_of_inv s d r : digits_of s = (d, r) -> s = d ++ r /\ Forall (fun c => is_digit c = true) d.
Proof.
  revert d. induction s as [|c s IH]; intros d H; cbn in H; [simplify_eq; by repeat constructor|].
  destruct (is_digit c) eqn:Ec; [|simplify_eq; by repeat constructor].
  destruct (digits_of s) as [d' r'] eqn:Ed. simplify_eq. destruct (IH d' eq_refl) as [-> Hd]. split; [done|by constructor].
Qed.

Lemma digits_of_read d x : Forall (fun c => is_digit c = true) d -> no_digit x -> digits_of (d ++ x) = (d, x).
Proof. intros Hd Hx. rewrite digits_of_app by done. by rewrite digits_of_digits. Qed.

Lemma int_part_inv s i r : int_part s = Some (i, r) -> s = i ++ r /\ i <> [] /\ forall x, no_digit x -> int_part (i ++ x) = Some (i, x).
Proof.
  unfold int_part. destruct (eat 48 s) as [s'|] eqn:E48; [intros [= <- <-]; by rewrite (eat_Some _ _ _ E48)|].
  destruct (digits_of s) as [[|c d] r'] eqn:Ed; [done|]. intros [= <- <-]. apply digits_of_inv in Ed as [-> Hd]. split_and!; [done..|].
  intros x Hx. assert (eat 48 ((c :: d) ++ x) = None) as -> by (cbn in *; by destruct (c =? 48)). by rewrite digits_of_read.
Qed.

Lemma frac_part_inv s f r : frac_part s = Some (f, r) ->
  s = f ++ r /\ no_digit f /\ forall x, no_digit x -> (f = [] -> match x with c :: _ => c <> 46 | [] => True end) -> frac_part (f ++ x) = Some (f, x).
Proof.
  unfold frac_part. destruct (eat 46 s) as [s'|] eqn:E46.
  - destruct (digits_of s') as [[|c d] r'] eqn:Ed; [done|]. intros [= <- <-]. rewrite (eat_Some _ _ _ E46).
    apply digits_of_inv in Ed as [-> Hd]. split_and!; [done..|]. intros x Hx _. cbn [app eat]. rewrite Z.eqb_refl, app_comm_cons.
    by rewrite digits_of_read.
  - intros [= <- <-]. split_and!; [done..|]. intros x _ Hx. specialize (Hx eq_refl). cbn [app]. destruct x as [|c x]; [done|].
    by rewrite eat_ne.
Qed.

Lemma exp_part_inv s e r : exp_part s = Some (e, r) ->
  s = e ++ r /\ no_digit e /\ (match e with c :: _ => c <> 46 | [] => True end) /\ exp_part e = Some (e, []).
Proof.
  destruct s as [|c s]; [by intros [= <- <-]|]. cbn [exp_part]. destruct ((c =? 101) || (c =? 69)) eqn:Ec; [|by intros [= <- <-]].
  assert (Hc : is_digit c = false /\ c <> 46) by (unfold is_digit; rewrite orb_true_iff in Ec; rewrite andb_false_iff; lia).
  set (p := match s with x :: s2 => if (x =? 43) || (x =? 45) then ([x], s2) else ([], s) | [] => ([], []) end).
  assert (s = p.1 ++ p.2 /\ forall y t, is_digit y = true -> exp_part (c :: p.1 ++ y :: t) =
    match digits_of (y :: t) with ([], _) => None | (d, r) => Some (c :: p.1 ++ d, r) end) as [Es Hp].
  { subst p. destruct s as [|x s2]; [split; [done|]|destruct ((x =? 43) || (x =? 45)) eqn:Ex; split; try done];
      intros y t Hy; cbn [exp_part fst app]; rewrite Ec, ?Ex; try done;
      (replace ((y =? 43) || (y =? 45)) with false; [done|]; unfold is_digit in Hy; zbool; symmetry; apply orb_false_iff; lia). }
  clearbody p. destruct p as [sign s2]. cbn [fst snd] in *. destruct (digits_of s2) as [[|y d] r'] eqn:Ed; [done|].
  intros H. injection H as <- <-. apply digits_of_inv in Ed as [-> Hd].
  split_and!; [by rewrite Es; cbn; rewrite <- app_assoc|by destruct Hc|by destruct Hc|].
  rewrite Hp by (by apply Forall_cons in Hd as [? _]). by rewrite digits_of_digits.
Qed.

Lemma number_inv s t r : number s = Some (t, r) -> s = t ++ r /\ literal t.
Proof.
  unfold number. intros H. set (p := match eat 45 s with Some s' => ([45], s') | None => ([], s) end) in *.
  assert (s = p.1 ++ p.2 /\ (p.1 = [45] \/ p.1 = [] /\ eat 45 s = None)) as [Es Hp].
  { subst p. destruct (eat 45 s) as [s'|] eqn:E; [rewrite (eat_Some _ _ _ E); auto|auto]. }
  clearbody p. destruct p as [sign s1]. cbn [fst snd] in *.
  destruct (int_part s1) as [[i s2]|] eqn:Ei; [|done]. apply int_part_inv in Ei as (-> & Hi0 & Hi). cbn [mbind option_bind] in H.
  destruct (frac_part s2) as [[f s3]|] eqn:Ef; [|done]. apply frac_part_inv in Ef as (-> & Hf0 & Hf). cbn [mbind option_bind] in H.
  destruct (exp_part s3) as [[e s4]|] eqn:Ee; [|done]. apply exp_part_inv in Ee as (-> & He0 & He1 & He). cbn [mbind option_bind] in H.
  injection H as <- <-. split; [by rewrite Es, <- !app_assoc|]. unfold literal, number.
  assert (match eat 45 (sign ++ i ++ f ++ e) with Some s' => ([45], s') | None => ([], sign ++ i ++ f ++ e) end = (sign, i ++ f ++ e)) as ->.
  { destruct Hp as [->|[-> Hn]]; [done|]. cbn [app]. rewrite Es in Hn. cbn [app] in Hn.
    destruct i as [|c i]; [done|]. cbn in *. by destruct (c =? 45). }
  rewrite Hi by (destruct f; [done|]; done). cbn [mbind option_bind]. rewrite Hf by (done || by intros ->).
  cbn [mbind option_bind]. by rewrite He.
Qed.

(** ** Values *)

Definition blanks (s : list Z) : Prop := Forall (fun c => is_ws c = true) s.

Lemma skip_ws_blank s : exists b, blanks b /\ s = b ++ skip_ws s.
Proof.
  induction s as [|c s (b & Hb & E)]; [by exists []; split; [constructor|]|]. cbn [skip_ws].
  destruct (is_ws c) eqn:Ec; [|by exists []; split; [constructor|]]. exists (c :: b). split; [by constructor|]. cbn. by rewrite <- E.
Qed.

Lemma skip_ws_app b x : blanks b -> skip_ws (b ++ x) = skip_ws x.
Proof. induction 1 as [|c b Hc _ IH]; [done|]. cbn. by rewrite Hc, IH. Qed.

Lemma skip_ws_idem s : skip_ws (skip_ws s) = skip_ws s.
Proof. induction s as [|c s IH]; [done|]. cbn. destruct (is_ws c) eqn:E; [done|]. cbn. by rewrite E. Qed.

Lemma compact_blank b s : blanks b -> compact false (b ++ s) = compact false s.
Proof. induction 1 as [|c b Hc _ IH]; [done|]. cbn. by rewrite Hc, IH. Qed.

Lemma value_skip F s : value F (skip_ws s) = value F s.
Proof. destruct F as [|F]; [done|]. cbn [value]. by rewrite skip_ws_idem. Qed.

Lemma value_blank F b s : blanks b -> value F (b ++ s) = value F s.
Proof. intros Hb. by rewrite <- value_skip, skip_ws_app, value_skip. Qed.

(** A separator, behind blanks. *)
Lemma separator c r r' : eat c (skip_ws r) = Some r' -> is_ws c = false -> is_digit c = false -> c ∉ [34; 46; 69; 101] ->
  exists b, r = b ++ c :: r' /\ blanks b /\ compact false r = cons c <$> compact false r' /\
    (forall x, follows (b ++ c :: x)) /\ forall x, skip_ws (b ++ c :: x) = c :: x.
Proof.
  intros H Hw Hd Hc. destruct (skip_ws_blank r) as (b & Hb & E). apply eat_Some in H. rewrite H in E. exists b.
  rewrite !not_elem_of_cons in Hc. split_and!; [done..| | |].
  - rewrite E, compact_blank, compact_char by (done || lia). done.
  - intros x. destruct Hb as [|y b Hy Hb]; cbn; [split_and!; [done|lia..]|].
    unfold is_ws in Hy. unfold is_digit. rewrite !orb_true_iff in Hy. rewrite andb_false_iff. lia.
  - intros x. rewrite skip_ws_app by done. by apply skip_ws_head.
Qed.

(** What was read: valid UTF-8, and literals. *)
Definition good : json -> Prop := all valid literal any_keys.

(** A text of a value, possibly behind blanks. *)
Definition raw (v : json) (w : list Z) : Prop :=
  w <> [] /\ forall r F, follows r -> (length w <= F)%nat -> value F (w ++ r) = Some (v, r).

(** A value was read from a text: the part that was read is a text of the value, and is
    compacted to one. *)
Definition kept (s : list Z) (v : json) (r : list Z) : Prop :=
  exists w u, s = w ++ r /\ raw v w /\ text v u /\ compact false s = app u <$> compact false r /\ good v.

Definition kept_elements (s : list Z) (l : list json) (r : list Z) : Prop :=
  exists w us, s = w ++ r /\ w <> [] /\ l <> [] /\ (forall r F, (length w <= F)%nat -> elements F (w ++ r) = Some (l, r)) /\
    Forall2 text l us /\ compact false s = (fun x => join_with 44 us ++ 93 :: x) <$> compact false r /\ Forall good l.

Definition kept_members (s : list Z) (l : members_of) (r : list Z) : Prop :=
  exists w us, s = w ++ r /\ w <> [] /\ l <> [] /\ (forall r F, (length w <= F)%nat -> members F (w ++ r) = Some (l, r)) /\
    Forall2 (fun kv ku => string_text kv.1 ku.1 /\ text kv.2 ku.2) l us /\
    compact false s = (fun x => join_with 44 (member_text <$> us) ++ 125 :: x) <$> compact false r /\
    Forall (fun kv => valid kv.1 /\ good kv.2) l.

Lemma kept_skip s v r : kept (skip_ws s) v r -> kept s v r.
Proof.
  intros (w & u & E & [Hw Hr] & Hu & Hc & Hg). destruct (skip_ws_blank s) as (b & Hb & Es). rewrite E in Es.
  exists (b ++ w), u. split_and!; [by rewrite <- app_assoc| |done| |done].
  - split; [by destruct b|]. intros x F Hx HF. rewrite length_app in HF. rewrite <- app_assoc, value_blank by done. apply Hr; [done|lia].
  - rewrite <- Hc, E, Es. by apply compact_blank.
Qed.

Lemma value_head c x F : is_ws c = false ->
  value (S F) (c :: x) =
  if c =? 34 then '(t, r) ← unquote (S (length x)) x; Some (Str t, r)
  else if c =? 91 then match eat 93 (skip_ws x) with Some r => Some (Arr [], r) | None => '(l, r) ← elements F x; Some (Arr l, r) end
  else if c =? 123 then match eat 125 (skip_ws x) with Some r => Some (Obj [], r) | None => '(l, r) ← members F x; Some (Obj l, r) end
  else scalar (c :: x).
Proof. intros Hc. cbn [value]. rewrite skip_ws_head by done. cbn [eat length]. by destruct (c =? 34), (c =? 91), (c =? 123). Qed.

Lemma kept_string f s t r : Forall byte s -> unquote f s = Some (t, r) -> kept (34 :: s) (Str t) r.
Proof.
  intros Hb H. destruct (unquote_raw f s t r Hb H) as (p & -> & Hbp & Hp).
  destruct (unquote_compact _ _ _ _ Hb H) as (Hv & _ & u & Hc & Hu & _).
  exists (34 :: p ++ [34]), (34 :: u ++ [34]). split_and!.
  - cbn. by rewrite <- app_assoc.
  - split; [done|]. intros x F _ HF. destruct F as [|F]; [simpl in HF; lia|]. cbn [app]. rewrite value_head by done.
    change (34 =? 34) with true. cbv iota. rewrite <- app_assoc. cbn [app]. rewrite Hp; [done|]. rewrite length_app. simpl. lia.
  - by constructor.
  - change (compact false (34 :: p ++ 34 :: r)) with (cons 34 <$> compact true (p ++ 34 :: r)). rewrite Hc.
    destruct (compact false r); [|done]. cbn. by rewrite <- app_assoc.
  - by constructor.
Qed.

Lemma raw_text v w : text v w -> raw v w.
Proof.
  intros Hw. destruct (text_head v w Hw) as (c & t & E & _). split; [by rewrite E|]. intros r F Hr HF.
  apply all_read; [done| |done]. pose proof (size_text v w Hw). lia.
Qed.

(** A text that is compact already. *)
Lemma kept_text v w r : text v w -> compact false (w ++ r) = app w <$> compact false r -> good v -> kept (w ++ r) v r.
Proof. intros Hw Hc Hg. exists w, w. by split_and!; [|apply raw_text|..]. Qed.

Lemma compact_chars w r : Forall (fun c => is_ws c = false /\ c <> 34) w -> compact false (w ++ r) = app w <$> compact false r.
Proof.
  induction 1 as [|c w [Hc Hq] _ IH]; [cbn [app]; by destruct (compact false r)|]. cbn [app]. rewrite compact_char, IH by done. by destruct (compact false r).
Qed.

Lemma kept_scalar s v r : scalar s = Some (v, r) -> kept s v r.
Proof.
  unfold scalar. intros H.
  destruct (CutPrefix s (str "null")) as [x|] eqn:E1.
  { injection H as <- <-. apply CutPrefix_Some in E1 as ->. apply kept_text; [apply text_null|apply compact_chars; by apply (bool_decide_unpack _)|constructor]. }
  destruct (CutPrefix s (str "true")) as [x|] eqn:E2.
  { injection H as <- <-. apply CutPrefix_Some in E2 as ->. apply kept_text; [apply (text_bool true)|apply compact_chars; by apply (bool_decide_unpack _)|constructor]. }
  destruct (CutPrefix s (str "false")) as [x|] eqn:E3.
  { injection H as <- <-. apply CutPrefix_Some in E3 as ->. apply kept_text; [apply (text_bool false)|apply compact_chars; by apply (bool_decide_unpack _)|constructor]. }
  destruct (number s) as [[t x]|] eqn:En; [|done]. injection H as <- <-. pose proof (number_numeric _ _ _ En) as Hn.
  apply number_inv in En as [-> Ht]. apply kept_text; [by constructor|by apply compact_numeric|by constructor].
Qed.

Lemma value_no_bracket F s p : value F s = Some p -> eat 93 (skip_ws s) = None.
Proof.
  rewrite <- value_skip. destruct (eat 93 (skip_ws s)) as [x|] eqn:E; [|done]. apply eat_Some in E as ->.
  destruct F as [|F]; [done|]. by rewrite value_head.
Qed.

Lemma elements_head F s p : elements F s = Some p -> eat 93 (skip_ws s) = None.
Proof. destruct F as [|F]; [done|]. cbn [elements]. destruct (value F s) eqn:E; [|done]. intros _. by eapply value_no_bracket. Qed.

Lemma members_head F s p : members F s = Some p -> eat 125 (skip_ws s) = None.
Proof.
  destruct F as [|F]; [done|]. cbn [members]. destruct (eat 34 (skip_ws s)) as [x|] eqn:E; [|done]. intros _.
  apply eat_Some in E as ->. done.
Qed.

(** Brackets around nothing, and around elements or members. *)
Lemma kept_empty (o c : Z) v s r :
  o = 91 /\ c = 93 /\ v = Arr [] \/ o = 123 /\ c = 125 /\ v = Obj [] -> eat c (skip_ws s) = Some r -> kept (o :: s) v r.
Proof.
  intros Hoc H. destruct (separator c s r H) as (b & -> & Hb & Hc & _ & Hs).
  1-3: destruct Hoc as [(-> & -> & ->)|(-> & -> & ->)]; (done || by apply (bool_decide_unpack _)).
  exists (o :: b ++ [c]), [o; c]. split_and!.
  - cbn. by rewrite <- app_assoc.
  - split; [done|]. intros x F _ HF. destruct F as [|F]; [simpl in HF; lia|]. cbn [app]. rewrite <- app_assoc. cbn [app].
    rewrite value_head by (by destruct Hoc as [(-> & _)|(-> & _)]). rewrite Hs.
    by destruct Hoc as [(-> & -> & ->)|(-> & -> & ->)].
  - destruct Hoc as [(-> & -> & ->)|(-> & -> & ->)]; [apply (text_arr [] []); constructor|apply (text_obj [] []); constructor].
  - rewrite compact_char by (by destruct Hoc as [(-> & _)|(-> & _)]). rewrite Hc. by destruct (compact false r).
  - destruct Hoc as [(_ & _ & ->)|(_ & _ & ->)]; by constructor.
Qed.

Lemma kept_arr s l r : kept_elements s l r -> kept (91 :: s) (Arr l) r.
Proof.
  intros (w & us & -> & Hw & Hl & He & Hu & Hc & Hg). exists (91 :: w), (91 :: join_with 44 us ++ [93]). split_and!; [done| | | |].
  - split; [done|]. intros x F _ HF. destruct F as [|F]; [simpl in HF; lia|]. cbn [app]. rewrite value_head by done.
    change (91 =? 34) with false. change (91 =? 91) with true. cbv iota. simpl in HF.
    rewrite (elements_head F _ (l, x)) by (apply He; lia). by rewrite He by lia.
  - by constructor.
  - rewrite compact_char, Hc by done. destruct (compact false r); [|done]. cbn. by rewrite <- app_assoc.
  - by constructor.
Qed.

Lemma kept_obj s l r : kept_members s l r -> kept (123 :: s) (Obj l) r.
Proof.
  intros (w & us & -> & Hw & Hl & He & Hu & Hc & Hg). exists (123 :: w), (123 :: join_with 44 (member_text <$> us) ++ [125]).
  split_and!; [done| | | |].
  - split; [done|]. intros x F _ HF. destruct F as [|F]; [simpl in HF; lia|]. cbn [app]. rewrite value_head by done.
    change (123 =? 34) with false. change (123 =? 91) with false. change (123 =? 123) with true. cbv iota. simpl in HF.
    rewrite (members_head F _ (l, x)) by (apply He; lia). by rewrite He by lia.
  - by constructor.
  - rewrite compact_char, Hc by done. destruct (compact false r); [|done]. cbn. by rewrite <- app_assoc.
  - by constructor.
Qed.

Lemma kept_last s v r r' : kept s v r -> eat 93 (skip_ws r) = Some r' -> kept_elements s [v] r'.
Proof.
  intros (w & u & -> & [Hw Hr] & Hu & Hc & Hg) H. destruct (separator 93 r r' H) as (b & -> & Hb & Hcb & Hf & Hs); [done..|by apply (bool_decide_unpack _)|].
  exists (w ++ b ++ [93]), [u]. split_and!; [by rewrite <- !app_assoc|by destruct w|done| |by repeat constructor| |by repeat constructor].
  - intros x F HF. rewrite !length_app in HF. cbn [length] in HF. destruct F as [|F]; [lia|]. rewrite <- !app_assoc. cbn [app].
    cbn [elements]. rewrite Hr by (done || lia). cbn [mbind option_bind]. by rewrite Hs, eat_ne, eat_eq.
  - rewrite Hc, Hcb. destruct (compact false r'); [|done]. done.
Qed.

Lemma kept_more s v r r' l r2 : kept s v r -> eat 44 (skip_ws r) = Some r' -> kept_elements r' l r2 -> kept_elements s (v :: l) r2.
Proof.
  intros (w & u & -> & [Hw Hr] & Hu & Hc & Hg) H (w2 & us & -> & Hw2 & Hl & He & Hus & Hc2 & Hgl).
  destruct (separator 44 r (w2 ++ r2) H) as (b & -> & Hb & Hcb & Hf & Hs); [done..|by apply (bool_decide_unpack _)|].
  exists (w ++ b ++ 44 :: w2), (u :: us). split_and!; [by rewrite <- !app_assoc|by destruct w|done| |by constructor| |by constructor].
  - intros x F HF. rewrite !length_app in HF. cbn [length] in HF. destruct F as [|F]; [lia|]. rewrite <- !app_assoc. cbn [app].
    cbn [elements]. rewrite Hr by (done || lia). cbn [mbind option_bind]. rewrite Hs, eat_eq. by rewrite He by lia.
  - rewrite Hc, Hcb, Hc2. destruct (compact false r2); [|done]. destruct us as [|u' us]; [by inversion Hus; subst|].
    change (join_with 44 (u :: u' :: us)) with (u ++ 44 :: join_with 44 (u' :: us)). cbn. by rewrite <- app_assoc.
Qed.

(** A member was read, up to what follows its value. *)
Definition kept_member (s k : list Z) (v : json) (r : list Z) : Prop :=
  exists w ku, s = w ++ r /\ w <> [] /\ string_text k ku.1 /\ text v ku.2 /\
    compact false s = app (member_text ku) <$> compact false r /\ valid k /\ good v /\
    forall x F, follows x -> (length w <= F)%nat -> members (S F) (w ++ x) =
      match eat 44 (skip_ws x), eat 125 (skip_ws x) with
      | Some r3, _ => '(l, r4) ← members F r3; Some ((k, v) :: l, r4)
      | _, Some r3 => Some ([(k, v)], r3)
      | _, _ => None
      end.

(** A key, and the value behind the colon. *)
Lemma kept_key s s' f k r r1 v r2 :
  Forall byte s -> eat 34 (skip_ws s) = Some s' -> unquote f s' = Some (k, r) -> eat 58 (skip_ws r) = Some r1 -> kept r1 v r2 ->
  kept_member s k v r2.
Proof.
  intros Hb H34 Hq H58 (wv & u & -> & [Hwv Hr] & Hu & Hc & Hg).
  destruct (skip_ws_blank s) as (b0 & Hb0 & Es). apply eat_Some in H34. rewrite H34 in Es. subst s.
  apply Forall_app in Hb as [_ Hb]. apply Forall_cons in Hb as [_ Hb].
  destruct (unquote_raw _ _ _ _ Hb Hq) as (p & -> & _ & Hp). destruct (unquote_compact _ _ _ _ Hb Hq) as (Hv & _ & ku & Hck & Hku & _).
  destruct (separator 58 r (wv ++ r2) H58) as (b & -> & Hbb & Hcb & _ & Hs); [done..|by apply (bool_decide_unpack _)|].
  exists (b0 ++ 34 :: p ++ 34 :: b ++ 58 :: wv), (ku, u). split_and!; [|by destruct b0|done|done| |done|done|].
  - rewrite <- !app_assoc. cbn [app]. rewrite <- !app_assoc. cbn [app]. by rewrite <- app_assoc.
  - rewrite compact_blank by done. change (compact false (34 :: ?x)) with (cons 34 <$> compact true x). rewrite Hck, Hcb, Hc.
    destruct (compact false r2); [|done]. unfold member_text. cbn. by rewrite <- !app_assoc.
  - intros x F Hx HF. rewrite !length_app in HF. cbn [length] in HF. rewrite !length_app in HF. cbn [length] in HF.
    rewrite !length_app in HF. cbn [length] in HF. cbn [members]. rewrite <- !app_assoc, skip_ws_app by done. cbn [app].
    rewrite skip_ws_head, eat_eq by done. cbn [mbind option_bind]. rewrite <- !app_assoc. cbn [app].
    rewrite Hp by (rewrite length_app; lia). cbn [mbind option_bind]. rewrite <- app_assoc. cbn [app]. rewrite Hs, eat_eq.
    cbn [mbind option_bind]. rewrite Hr by (done || lia). done.
Qed.

Lemma kept_member_last s k v r r' : kept_member s k v r -> eat 125 (skip_ws r) = Some r' -> kept_members s [(k, v)] r'.
Proof.
  intros (w & ku & -> & Hw & Hk & Hu & Hc & Hv & Hg & Hr) H.
  destruct (separator 125 r r' H) as (b & -> & Hb & Hcb & Hf & Hs); [done..|by apply (bool_decide_unpack _)|].
  exists (w ++ b ++ [125]), [ku]. split_and!; [by rewrite <- !app_assoc|by destruct w|done| |by constructor; [|constructor]| |by apply Forall_singleton].
  - intros x F HF. rewrite !length_app in HF. cbn [length] in HF. destruct F as [|F]; [lia|]. rewrite <- !app_assoc. cbn [app].
    rewrite Hr by (done || lia). by rewrite Hs, eat_ne, eat_eq.
  - rewrite Hc, Hcb. by destruct (compact false r').
Qed.

Lemma kept_member_more s k v r r' l r2 :
  kept_member s k v r -> eat 44 (skip_ws r) = Some r' -> kept_members r' l r2 -> kept_members s ((k, v) :: l) r2.
Proof.
  intros (w & ku & -> & Hw & Hk & Hu & Hc & Hv & Hg & Hr) H (w2 & us & -> & Hw2 & Hl & He & Hus & Hc2 & Hgl).
  destruct (separator 44 r (w2 ++ r2) H) as (b & -> & Hb & Hcb & Hf & Hs); [done..|by apply (bool_decide_unpack _)|].
  exists (w ++ b ++ 44 :: w2), (ku :: us). split_and!; [by rewrite <- !app_assoc|by destruct w|done| |by constructor| |by constructor].
  - intros x F HF. rewrite !length_app in HF. cbn [length] in HF. destruct F as [|F]; [lia|]. rewrite <- !app_assoc. cbn [app].
    rewrite Hr by (done || lia). rewrite Hs, eat_eq. by rewrite He by lia.
  - rewrite Hc, Hcb, Hc2. destruct (compact false r2); [|done]. destruct us as [|u' us]; [by inversion Hus; subst|].
    rewrite !fmap_cons. change (join_with 44 (member_text ku :: member_text u' :: ?x)) with (member_text ku ++ 44 :: join_with 44 (member_text u' :: x)).
    cbn [fmap option_fmap option_map]. f_equal. by rewrite <- app_assoc, <- app_comm_cons.
Qed.

Lemma kept_byte s v r : Forall byte s -> kept s v r -> Forall byte r.
Proof. intros Hs (w & u & -> & _). by apply Forall_app in Hs as [_ ?]. Qed.

Lemma eat_byte c s r : Forall byte s -> eat c (skip_ws s) = Some r -> Forall byte r.
Proof.
  intros Hs H. destruct (skip_ws_blank s) as (b & _ & E). rewrite (eat_Some _ _ _ H) in E. subst s.
  apply Forall_app in Hs as [_ Hs]. by apply Forall_cons in Hs as [_ ?].
Qed.

(** Whatever is read is kept. *)
Lemma all_kept F :
  (forall s v r, Forall byte s -> value F s = Some (v, r) -> kept s v r) /\
  (forall s l r, Forall byte s -> elements F s = Some (l, r) -> kept_elements s l r) /\
  (forall s l r, Forall byte s -> members F s = Some (l, r) -> kept_members s l r).
Proof.
  induction F as [|F (IHv & IHe & IHm)]; [done|]. split_and!; intros s v r Hb H.
  - apply kept_skip. rewrite <- value_skip in H.
    destruct (skip_ws_blank s) as (b & _ & E). assert (Forall byte (skip_ws s)) as Hs by (rewrite E in Hb; by apply Forall_app in Hb as [_ ?]).
    assert (match skip_ws s with c :: _ => is_ws c = false | [] => True end) as Hw.
    { clear. induction s as [|c s IH]; [done|]. cbn. by destruct (is_ws c) eqn:E. }
    destruct (skip_ws s) as [|c x]; [by apply kept_scalar|]. rewrite value_head in H by done. apply Forall_cons in Hs as [_ Hs].
    destruct (Z.eqb_spec c 34) as [->|_].
    { destruct (unquote _ x) as [[t r']|] eqn:Eq; [|done]. injection H as <- <-. by eapply kept_string. }
    destruct (Z.eqb_spec c 91) as [->|_].
    { destruct (eat 93 (skip_ws x)) as [r'|] eqn:Ee; [injection H as <- <-; eapply kept_empty; [by left|done]|].
      destruct (elements F x) as [[l r']|] eqn:Eq; [|done]. injection H as <- <-. by apply kept_arr, IHe. }
    destruct (Z.eqb_spec c 123) as [->|_]; [|by apply kept_scalar].
    destruct (eat 125 (skip_ws x)) as [r'|] eqn:Ee; [injection H as <- <-; eapply kept_empty; [by right|done]|].
    destruct (members F x) as [[l r']|] eqn:Eq; [|done]. injection H as <- <-. by apply kept_obj, IHm.
  - cbn [elements] in H. destruct (value F s) as [[v1 r1]|] eqn:Ev; [|done]. cbn [mbind option_bind] in H. apply IHv in Ev; [|done].
    pose proof (kept_byte _ _ _ Hb Ev) as Hb1.
    destruct (eat 44 (skip_ws r1)) as [r2|] eqn:E44.
    + destruct (elements F r2) as [[l r3]|] eqn:Ee; [|done]. injection H as <- <-. eapply kept_more; [done..|].
      apply IHe; [by eapply eat_byte|done].
    + destruct (eat 93 (skip_ws r1)) as [r2|] eqn:E93; [|done]. injection H as <- <-. by eapply kept_last.
  - cbn [members] in H. destruct (eat 34 (skip_ws s)) as [s'|] eqn:E34; [|done]. cbn [mbind option_bind] in H.
    destruct (unquote (S (length s')) s') as [[k r0]|] eqn:Eq; [|done]. cbn [mbind option_bind] in H.
    destruct (eat 58 (skip_ws r0)) as [r1|] eqn:E58; [|done]. cbn [mbind option_bind] in H.
    destruct (value F r1) as [[v1 r2]|] eqn:Ev; [|done]. cbn [mbind option_bind] in H.
    pose proof (eat_byte _ _ _ Hb E34) as Hb1. destruct (unquote_compact _ _ _ _ Hb1 Eq) as (_ & Hb0 & _).
    pose proof (eat_byte _ _ _ Hb0 E58) as Hb2. apply IHv in Ev; [|done]. pose proof (kept_byte _ _ _ Hb2 Ev) as Hb3.
    pose proof (kept_key _ _ _ _ _ _ _ _ Hb E34 Eq E58 Ev) as Hk.
    destruct (eat 44 (skip_ws r2)) as [r3|] eqn:E44.
    + destruct (members F r3) as [[l r4]|] eqn:Ee; [|done]. injection H as <- <-. eapply kept_member_more; [done..|].
      apply IHm; [by eapply eat_byte|done].
    + destruct (eat 125 (skip_ws r2)) as [r3|] eqn:E93; [|done]. injection H as <- <-. by eapply kept_member_last.
Qed.

Lemma parse_raw v w : raw v w -> depth v <= maxNestingDepth -> parse w = Some v.
Proof.
  intros [_ Hr] Hd. unfold parse. rewrite <- (app_nil_r w) at 2. rewrite Hr by (done || lia).
  cbn. by rewrite (proj2 (Z.leb_le _ _) Hd).
Qed.

Lemma parse_good b v : Forall byte b -> parse b = Some v -> good v.
Proof.
  intros Hb (r & E & _)%parse_inv.
  apply all_kept in E as (w & u & _ & _ & _ & _ & Hg); done.
Qed.

(** A message that is marshalled again is a text of the value that it was. *)
Lemma RawMessage_parse b v : Forall byte b -> parse b = Some v -> exists u, RawMessage b = Some u /\ text v u.
Proof.
  intros Hb H. unfold RawMessage. destruct b as [|c b]; [done|]. rewrite H. cbn [mbind option_bind].
  apply parse_inv in H as (r & E & Er & _). apply all_kept in E as (w & u & _ & _ & Hu & Hc & _); [|done].
  exists u. split; [|done]. rewrite Hc. destruct (skip_ws_blank r) as (bl & Hbl & ->). rewrite Er, compact_blank by done.
  change (Some (u ++ []) = Some u). by rewrite app_nil_r.
Qed.

Lemma good_wf v : good v -> wf v.
Proof. intros Hv. apply (all_wf any_keys). revert Hv. by apply all_impl; [intros s [? _]|..]. Qed.

Lemma good_canon v : good v -> canon v = v.
Proof. intros Hv. apply (canon_valid literal any_keys). revert Hv. by apply all_impl; [intros s [_ ?]|..]. Qed.

Lemma join_byte us : Forall (Forall byte) us -> Forall byte (join_with 44 us).
Proof.
  induction 1 as [|u us Hu Hus IH]; [constructor|]. destruct us as [|u' us]; [done|].
  change (join_with 44 (u :: u' :: us)) with (u ++ 44 :: join_with 44 (u' :: us)). apply Forall_app_2; [done|].
  apply Forall_cons_2; [unfold byte; lia|done].
Qed.

Lemma text_byte v : forall u, text v u -> Forall byte u.
Proof.
  assert (forall o c us, byte o -> byte c -> Forall (Forall byte) us -> Forall byte (o :: join_with 44 us ++ [c])) as Hin.
  { intros o c us Ho Hc Hus. apply Forall_cons_2; [done|]. apply Forall_app_2; [by apply join_byte|by apply Forall_singleton]. }
  induction v as [ |b|t|s|l IH|l IH] using json_induction; intros u Hu; inversion Hu as [|?|? Ht|? u' Hs'|? us Hus|? us Hus]; subst.
  - by apply (bool_decide_unpack _).
  - destruct b; by apply (bool_decide_unpack _).
  - eapply Forall_impl; [by eapply number_numeric|]. intros c [Hc|Hc]; unfold byte; [unfold is_digit in Hc; zbool; lia|set_unfold; lia].
  - destruct Hs' as [Hb _]. apply Forall_cons_2; [unfold byte; lia|]. apply Forall_app_2; [done|]. apply Forall_singleton. unfold byte; lia.
  - apply Hin; [unfold byte; lia..|]. clear -IH Hus. induction Hus; [constructor|]. apply Forall_cons in IH as [? ?]. constructor; auto.
  - apply Hin; [unfold byte; lia..|]. clear -IH Hus. induction Hus as [|kv ku l us [[Hk _] Hv] Hus IHus]; [constructor|].
    apply Forall_cons in IH as [? ?]. rewrite fmap_cons. constructor; [|auto]. unfold member_text.
    repeat first [apply Forall_app_2|apply Forall_cons_2; [unfold byte; lia|]|apply Forall_nil_2]; auto.
Qed.

Lemma encode_byte v : wf v -> Forall byte (encode v).
Proof. intros Hv. by eapply text_byte, encode_text. Qed.
