(* ===== verification/PolicyFile.v ===== *)
(** Reading a policy: [LoadPolicy] of [fileop/policy.go].

    The embedded policy or a file is read as JSON into the structures of the policy.
    The theorems: the text of [fileop/default-policy.json] is the default policy that
    [Policy] matches with; a policy that is written as JSON is loaded as it was, apart
    from the leading slash of home prefixes; and the reasons for which a file is
    refused are those of the specification. *)

From S2P Require Import Prelude GoStd Policy Json JsonTheorems JsonMap.

(** ** [json.Unmarshal] into the structures *)

(** A slice of strings: its array, as far as it was ever written, and its length.  An
    array that is read is stored over the elements there are. *)
Record strings := { backing : list (list Z); len : nat }.

Definition elements_of (s : strings) : list (list Z) := take (len s) (backing s).

Definition no_strings : strings := {| backing := []; len := 0 |}.

(** Elements that are stored from an array: a string replaces the element, [null]
    leaves it; anything else is an error. *)
Fixpoint store_elements (l : list json) (old : list (list Z)) : option (list (list Z)) :=
  match l with
  | [] => Some old
  | v :: l' =>
      x ← (match v with Str s => Some s | Null => Some (default [] (head old)) | _ => None end);
      cons x <$> store_elements l' (tail old)
  end.

Definition unmarshal_strings (v : json) (s : strings) : option strings :=
  match v with
  | Null => Some no_strings
  | Arr [] => Some no_strings
  | Arr l => (fun b => {| backing := b; len := length l |}) <$> store_elements l (backing s)
  | _ => None
  end.

Record match_slices := { sl_Prefixes : strings; sl_HomePrefixes : strings; sl_Suffixes : strings }.

Definition match_member (m : match_slices) (kv : list Z * json) : option match_slices :=
  let name := foldName kv.1 in
  if decide (name = str "prefixes") then
    s ← unmarshal_strings kv.2 (sl_Prefixes m);
    Some {| sl_Prefixes := s; sl_HomePrefixes := sl_HomePrefixes m; sl_Suffixes := sl_Suffixes m |}
  else if decide (name = str "home_prefixes") then
    s ← unmarshal_strings kv.2 (sl_HomePrefixes m);
    Some {| sl_Prefixes := sl_Prefixes m; sl_HomePrefixes := s; sl_Suffixes := sl_Suffixes m |}
  else if decide (name = str "suffixes") then
    s ← unmarshal_strings kv.2 (sl_Suffixes m);
    Some {| sl_Prefixes := sl_Prefixes m; sl_HomePrefixes := sl_HomePrefixes m; sl_Suffixes := s |}
  else Some m.

(** The members of an object, one after the other; [null] changes nothing. *)
Definition unmarshal_struct {A} (store : A -> list Z * json -> option A) (v : json) (a : A) : option A :=
  match v with
  | Obj l => foldl (fun a kv => a ← a; store a kv) (Some a) l
  | Null => Some a
  | _ => None
  end.

Definition policy_member (p : match_slices * match_slices) (kv : list Z * json) : option (match_slices * match_slices) :=
  let name := foldName kv.1 in
  if decide (name = str "read") then m ← unmarshal_struct match_member kv.2 p.1; Some (m, p.2)
  else if decide (name = str "write") then m ← unmarshal_struct match_member kv.2 p.2; Some (p.1, m)
  else Some p.

Definition no_slices : match_slices :=
  {| sl_Prefixes := no_strings; sl_HomePrefixes := no_strings; sl_Suffixes := no_strings |}.

Definition of_slices (m : match_slices) : MatchPolicy := {|
  Prefixes := elements_of (sl_Prefixes m);
  HomePrefixes := elements_of (sl_HomePrefixes m);
  Suffixes := elements_of (sl_Suffixes m) |}.

Definition UnmarshalPolicy (data : list Z) : option Policy :=
  v ← parse data;
  p ← unmarshal_struct policy_member v (no_slices, no_slices);
  Some {| Read := of_slices p.1; Write := of_slices p.2 |}.

(** ** [LoadPolicy] *)

(** [filepath.Ext]: from the last dot of the last element of the path. *)
Fixpoint ext_reversed (s : list Z) (acc : list Z) : list Z :=
  match s with
  | [] => []
  | c :: s' => if c =? 47 then [] else if c =? 46 then 46 :: acc else ext_reversed s' (c :: acc)
  end.

Definition Ext (path : list Z) : list Z := ext_reversed (reverse path) [].

Inductive loadError := ReadError | UnsupportedFormat (ext : list Z) | DecodeError.

(** Only ASCII letters are lowered here; no other letter becomes one of [.json]. *)
Definition loadPolicyBytes (data source : list Z) : loadError + Policy :=
  let ext := ToLower (Ext source) in
  if decide (source <> [] /\ ext <> str ".json") then inl (UnsupportedFormat ext)
  else match UnmarshalPolicy data with
  | None => inl DecodeError
  | Some policy => inr (normalize policy)
  end.

(** The lines of [fileop/default-policy.json], with an apostrophe for the quotation
    mark. *)
Definition default_policy_lines : list string := [
   "{";
   "  'read': {";
   "    'prefixes': [";
   "      '/boot',";
   "      '/etc/passwd',";
   "      '/etc/group',";
   "      '/etc/shadow',";
   "      '/etc/ssh/',";
   "      '/etc/profile',";
   "      '/etc/sudoers',";
   "      '/etc/pam.conf',";
   "      '/etc/bashrc',";
   "      '/etc/csh.cshrc',";
   "      '/etc/csh.login'";
   "    ],";
   "    'home_prefixes': [";
   "      '.ssh/',";
   "      '.config/'";
   "    ],";
   "    'suffixes': [";
   "      '.env',";
   "      '.env.local',";
   "      '.env.production',";
   "      '.env.development',";
   "      '.env.test',";
   "      '.bashrc',";
   "      '.zshrc',";
   "      '.zprofile',";
   "      '.bash_profile',";
   "      '.bash_login',";
   "      '.bash_logout',";
   "      '.cshrc',";
   "      '.cshdirs',";
   "      '.profile',";
   "      '.login',";
   "      '.logout',";
   "      '.history',";
   "      '.bash_history',";
   "      '.zsh_history',";
   "      '.pem',";
   "      '.key',";
   "      '.npmrc',";
   "      '.pypirc',";
   "      '.netrc'";
   "    ]";
   "  },";
   "  'write': {";
   "    'prefixes': [";
   "      '/etc',";
   "      '/boot',";
   "      '/lib',";
   "      '/lib64',";
   "      '/bin',";
   "      '/usr/lib',";
   "      '/usr/local/lib',";
   "      '/usr/local/sbin',";
   "      '/usr/local/bin',";
   "      '/usr/bin',";
   "      '/usr/sbin',";
   "      '/var/log',";
   "      '/dev/log'";
   "    ],";
   "    'home_prefixes': [";
   "      '.ssh/',";
   "      '.config/'";
   "    ],";
   "    'suffixes': [";
   "      '.env',";
   "      '.env.local',";
   "      '.env.production',";
   "      '.env.development',";
   "      '.env.test',";
   "      '.bashrc',";
   "      '.zshrc',";
   "      '.zprofile',";
   "      '.bash_profile',";
   "      '.bash_login',";
   "      '.bash_logout',";
   "      '.cshrc',";
   "      '.cshdirs',";
   "      '.profile',";
   "      '.login',";
   "      '.logout',";
   "      '.history',";
   "      '.bash_history',";
   "      '.zsh_history',";
   "      '.pem',";
   "      '.key',";
   "      '.npmrc',";
   "      '.pypirc',";
   "      '.netrc'";
   "    ]";
   "  }";
   "}"]%string.

Definition quotation (c : Z) : Z := if c =? 39 then 34 else c.

Definition defaultPolicyBytes : list Z := default_policy_lines ≫= fun l => (quotation <$> str l) ++ [10].

(** [os.ReadFile] is given. *)
Definition LoadPolicy (ReadFile : list Z -> option (list Z)) (path : list Z) : loadError + Policy :=
  if decide (path = []) then loadPolicyBytes defaultPolicyBytes (str "default-policy.json")
  else match ReadFile path with
  | None => inl ReadError
  | Some data => loadPolicyBytes data path
  end.

(** ** What is refused *)

Definition string_or_null (v : json) : Prop := v = Null \/ exists s, v = Str s.

Definition strings_ok (v : json) : Prop := v = Null \/ exists l, v = Arr l /\ Forall string_or_null l.

(** An object, or [null], whose members of the given names are as they should be. *)
Definition struct_ok (fields : list (list Z * (json -> Prop))) (v : json) : Prop :=
  v = Null \/ exists l, v = Obj l /\ Forall (fun kv => Forall (fun f => foldName kv.1 = f.1 -> f.2 kv.2) fields) l.

Definition match_ok : json -> Prop :=
  struct_ok [(str "prefixes", strings_ok); (str "home_prefixes", strings_ok); (str "suffixes", strings_ok)].

Definition policy_ok : json -> Prop := struct_ok [(str "read", match_ok); (str "write", match_ok)].

Lemma store_elements_ok l old : is_Some (store_elements l old) <-> Forall string_or_null l.
Proof.
  revert old. induction l as [|v l IH]; intros old; [split; [constructor|by eexists]|]. cbn [store_elements].
  rewrite Forall_cons, <- (IH (tail old)). unfold string_or_null.
  destruct v as [ |b|t|s|l'|l']; cbn [mbind option_bind]; rewrite ?fmap_is_Some; try naive_solver.
Qed.

Lemma unmarshal_strings_ok v s : is_Some (unmarshal_strings v s) <-> strings_ok v.
Proof.
  unfold strings_ok. destruct v as [ |b|t|x|l|l]; cbn [unmarshal_strings].
  1: split; [by left|by eexists].
  4: { destruct l as [|v l]; [split; [right; exists []; by repeat constructor|by eexists]|].
       rewrite fmap_is_Some, store_elements_ok. naive_solver. }
  all: split; [by intros []|]; by intros [?|(? & ? & ?)].
Qed.

Lemma unmarshal_struct_ok {A} (store : A -> list Z * json -> option A) (ok : list Z * json -> Prop) v a :
  (forall a kv, is_Some (store a kv) <-> ok kv) ->
  is_Some (unmarshal_struct store v a) <-> v = Null \/ exists l, v = Obj l /\ Forall ok l.
Proof.
  intros Hs. destruct v as [ |b|t|s|l|l]; cbn [unmarshal_struct].
  1: split; [by left|by eexists].
  5: { revert a. induction l as [|kv l IH]; intros a; [split; [right; exists []; by repeat constructor|by eexists]|].
       cbn [foldl mbind option_bind]. specialize (Hs a kv). destruct (store a kv) as [a'|].
       - rewrite IH. split; (intros [?|(l' & [= <-] & Hl)]; [done|]; right; eexists; split; [done|]).
         + constructor; [by apply Hs; eexists|done].
         + by apply Forall_cons in Hl as [_ ?].
       - assert (foldl (fun a kv => a ← a; store a kv) None l = None) as -> by (clear; induction l; by cbn).
         split; [by intros []|]. intros [?|(l' & [= <-] & Hl)]; [done|]. apply Forall_cons in Hl as [Hkv%Hs _].
         by destruct Hkv. }
  all: split; [by intros []|]; by intros [?|(? & ? & ?)].
Qed.

Lemma bind_ok {A B} (x : option A) (f : A -> B) : is_Some (a ← x; Some (f a)) <-> is_Some x.
Proof. destruct x; [split; by eexists|split; by intros []]. Qed.

(** One case of the names of a member. *)
Ltac struct_case L :=
  rewrite ?bind_ok, ?L;
  match goal with
  | H : foldName _ = _ |- _ => rewrite H; split; [intros ?; by split_and!|naive_solver]
  | _ => split; [intros _; by split_and!|by eexists]
  end.

Lemma match_member_ok m kv :
  is_Some (match_member m kv) <->
  Forall (fun f => foldName kv.1 = f.1 -> f.2 kv.2)
    [(str "prefixes", strings_ok); (str "home_prefixes", strings_ok); (str "suffixes", strings_ok)].
Proof.
  unfold match_member. rewrite !Forall_cons, Forall_nil. cbn [fst snd].
  repeat case_decide; struct_case unmarshal_strings_ok.
Qed.

Lemma policy_member_ok p kv :
  is_Some (policy_member p kv) <-> Forall (fun f => foldName kv.1 = f.1 -> f.2 kv.2) [(str "read", match_ok); (str "write", match_ok)].
Proof.
  assert (forall m, is_Some (unmarshal_struct match_member kv.2 m) <-> match_ok kv.2) as Hm
    by (intros m; apply unmarshal_struct_ok, match_member_ok).
  unfold policy_member. rewrite !Forall_cons, Forall_nil. cbn [fst snd]. repeat case_decide; struct_case Hm.
Qed.

Lemma UnmarshalPolicy_ok data : is_Some (UnmarshalPolicy data) <-> exists v, parse data = Some v /\ policy_ok v.
Proof.
  unfold UnmarshalPolicy. destruct (parse data) as [v|]; cbn [mbind option_bind]; [|split; [by intros []|by intros (? & ? & _)]].
  pose proof (unmarshal_struct_ok policy_member _ v (no_slices, no_slices) policy_member_ok) as Hv. fold (policy_ok v) in Hv.
  destruct (unmarshal_struct policy_member v _); split.
  - intros _. exists v. split; [done|]. apply Hv. by eexists.
  - by eexists.
  - by intros [].
  - intros (v' & [= <-] & Hok%Hv). by destruct Hok.
Qed.

(** C23. When a policy is refused.  Without a path nothing can fail; with one, the file
    cannot be read, or its name does not end in [.json], or its contents are no JSON,
    are nested deeper than the 10000 levels that are read, or are not of the shape of a
    policy: objects for the rules, arrays of strings for their
    lists, [null] anywhere, and any members of other names. *)
Theorem policy_errors ReadFile path e :
  LoadPolicy ReadFile path = inl e <->
  path <> [] /\
  match e with
  | ReadError => ReadFile path = None
  | UnsupportedFormat ext => is_Some (ReadFile path) /\ ext = ToLower (Ext path) /\ ext <> str ".json"
  | DecodeError =>
      exists data, ReadFile path = Some data /\ ToLower (Ext path) = str ".json" /\
        ~ exists v, parse data = Some v /\ policy_ok v
  end.
Proof.
  unfold LoadPolicy. destruct (decide (path = [])) as [->|Hp].
  { assert (exists p, loadPolicyBytes defaultPolicyBytes (str "default-policy.json") = inr p) as [p ->] by (eexists; vm_compute; reflexivity).
    split; [done|by intros []]. }
  destruct (ReadFile path) as [data|]; [|split; [intros [= <-]; done|]; by destruct e as [| |]; intros (_ & H); naive_solver].
  unfold loadPolicyBytes. destruct (decide _) as [[_ He]|He].
  - split; [intros [= <-]; split_and!; [done|by eexists|done|done]|].
    intros [_ Hs]. destruct e as [|ext|]; [done| |].
    + by destruct Hs as (_ & -> & _).
    + by destruct Hs as (data' & _ & ? & _).
  - assert (ToLower (Ext path) = str ".json") as Hj by (destruct (decide (ToLower (Ext path) = str ".json")); tauto).
    pose proof (UnmarshalPolicy_ok data) as Hok. destruct (UnmarshalPolicy data) as [p|].
    + split; [done|]. intros [_ Hs]. destruct e as [|ext|]; [done| |].
      * by destruct Hs as (_ & -> & ?).
      * destruct Hs as (data' & [= <-] & _ & Hn). destruct Hn. apply Hok. by eexists.
    + split; [intros [= <-]|].
      * split; [done|]. exists data. split_and!; [done..|]. intros Hv%Hok. by destruct Hv.
      * intros [_ Hs]. destruct e as [|ext|]; [done| |done]. by destruct Hs as (_ & -> & ?).
Qed.

(** ** What is loaded *)

Definition strings_json (l : list (list Z)) : json := Arr (Str <$> l).

Definition match_json (m : MatchPolicy) : json :=
  Obj [(str "prefixes", strings_json (Prefixes m)); (str "home_prefixes", strings_json (HomePrefixes m));
       (str "suffixes", strings_json (Suffixes m))].

Definition policy_json (p : Policy) : json := Obj [(str "read", match_json (Read p)); (str "write", match_json (Write p))].

Lemma store_strings l old : exists rest, store_elements (Str <$> l) old = Some (l ++ rest).
Proof.
  revert old. induction l as [|s l IH]; intros old; [by exists old|]. destruct (IH (tail old)) as [rest E].
  exists rest. cbn. by rewrite E.
Qed.

Lemma strings_stored l s : exists s', unmarshal_strings (strings_json l) s = Some s' /\ elements_of s' = l.
Proof.
  destruct l as [|x l]; [by exists no_strings|]. unfold strings_json, unmarshal_strings.
  destruct (store_strings (x :: l) (backing s)) as [rest E]. change (Str <$> x :: l) with (Str x :: (Str <$> l)) in *.
  rewrite E. eexists. split; [reflexivity|]. unfold elements_of. cbn [len backing].
  change (length (Str x :: (Str <$> l))) with (S (length (Str <$> l))). rewrite length_fmap.
  change (S (length l)) with (length (x :: l)). by rewrite take_app_length.
Qed.

Lemma match_stored m s : exists s', unmarshal_struct match_member (match_json m) s = Some s' /\ of_slices s' = m.
Proof.
  destruct m as [p h x], s as [s1 s2 s3].
  destruct (strings_stored p s1) as (p' & Hp & Ep), (strings_stored h s2) as (h' & Hh & Eh), (strings_stored x s3) as (x' & Hx & Ex).
  exists {| sl_Prefixes := p'; sl_HomePrefixes := h'; sl_Suffixes := x' |}. split; [|unfold of_slices; cbn; congruence].
  change (unmarshal_struct match_member (match_json _) _) with
    (a ← (a ← (a ← unmarshal_strings (strings_json p) s1; Some {| sl_Prefixes := a; sl_HomePrefixes := s2; sl_Suffixes := s3 |});
      match_member a (str "home_prefixes", strings_json h)); match_member a (str "suffixes", strings_json x)).
  rewrite Hp. cbn [mbind option_bind].
  change (match_member _ (str "home_prefixes", strings_json h)) with
    (a ← unmarshal_strings (strings_json h) s2; Some {| sl_Prefixes := p'; sl_HomePrefixes := a; sl_Suffixes := s3 |}).
  rewrite Hh. cbn [mbind option_bind].
  change (match_member _ (str "suffixes", strings_json x)) with
    (a ← unmarshal_strings (strings_json x) s3; Some {| sl_Prefixes := p'; sl_HomePrefixes := h'; sl_Suffixes := a |}).
  by rewrite Hx.
Qed.

Lemma policy_stored data p : parse data = Some (policy_json p) -> UnmarshalPolicy data = Some p.
Proof.
  intros E. unfold UnmarshalPolicy. rewrite E. cbn [mbind option_bind].
  destruct (match_stored (Read p) no_slices) as (r & Hr & Er), (match_stored (Write p) no_slices) as (w & Hw & Ew).
  change (unmarshal_struct policy_member (policy_json p) _) with
    (a ← (m ← unmarshal_struct match_member (match_json (Read p)) no_slices; Some (m, no_slices));
     policy_member a (str "write", match_json (Write p))).
  rewrite Hr. cbn [mbind option_bind].
  change (policy_member (r, no_slices) (str "write", match_json (Write p))) with
    (m ← unmarshal_struct match_member (match_json (Write p)) no_slices; Some (r, m)).
  rewrite Hw. cbn [mbind option_bind fst snd]. rewrite Er, Ew. by destruct p.
Qed.

(** The strings of a policy are valid UTF-8. *)
Definition match_valid (m : MatchPolicy) : Prop :=
  Forall (fun s => Forall byte s /\ ToValidUTF8 s = s) (Prefixes m ++ HomePrefixes m ++ Suffixes m).

Lemma strings_parsed l : Forall (fun s => Forall byte s /\ ToValidUTF8 s = s) l ->
  wf (strings_json l) /\ canon (strings_json l) = strings_json l.
Proof.
  intros Hl. split; [constructor; apply Forall_fmap; eapply Forall_impl; [exact Hl|]; intros s [? _]; by constructor|].
  unfold strings_json. cbn [canon]. f_equal. induction Hl as [|s l [_ Hs] Hl IH]; [done|]. cbn. by rewrite Hs, IH.
Qed.

Lemma match_parsed m : match_valid m -> wf (match_json m) /\ canon (match_json m) = match_json m.
Proof.
  unfold match_valid. rewrite !Forall_app. intros (H1 & H2 & H3).
  destruct (strings_parsed _ H1) as [W1 C1], (strings_parsed _ H2) as [W2 C2], (strings_parsed _ H3) as [W3 C3].
  assert (Forall (fun k => Forall byte k) (str <$> ["prefixes"; "home_prefixes"; "suffixes"]%string)) as Hk
    by (apply (bool_decide_unpack _); by vm_compute).
  cbn [fmap list_fmap] in Hk. rewrite !Forall_cons in Hk. destruct Hk as (K1 & K2 & K3 & _). split.
  - constructor. repeat apply Forall_cons_2; [done..|constructor].
  - unfold match_json. cbn [canon fmap list_fmap fst snd]. by rewrite C1, C2, C3.
Qed.

Lemma policy_depth p : depth (policy_json p) <= maxNestingDepth.
Proof.
  assert (forall l, depth (strings_json l) <= 1) as Hs.
  { intros l. apply (depth_arr 0); [done|]. apply Forall_fmap, Forall_forall. done. }
  assert (forall m, depth (match_json m) <= 2) as Hm by (intros m; apply (depth_obj 1); [done|]; repeat (apply Forall_cons_2; [apply Hs|]); by apply Forall_nil_2).
  transitivity 3; [|done]. apply (depth_obj 2); [done|]. repeat (apply Forall_cons_2; [apply Hm|]). by apply Forall_nil_2.
Qed.

Lemma policy_parsed p : match_valid (Read p) -> match_valid (Write p) -> parse (encode (policy_json p)) = Some (policy_json p).
Proof.
  intros [W1 C1]%match_parsed [W2 C2]%match_parsed. rewrite json_roundtrip.
  - unfold policy_json. cbn [canon fmap list_fmap fst snd]. by rewrite C1, C2.
  - constructor. repeat apply Forall_cons_2; [split; [by apply (bool_decide_unpack _); vm_compute|done]..|constructor].
  - apply policy_depth.
Qed.

(** C22. Policies are loaded as they are written.  Without a path the policy is the one
    of the embedded text, which [Policy] has as a constant; a file whose JSON is that of
    a policy gives the policy with the leading slash of home prefixes removed, in
    particular one that was written by [json.Marshal]. *)
Theorem policies_loaded ReadFile :
  LoadPolicy ReadFile [] = inr default_policy /\
  (forall path data p, path <> [] -> ToLower (Ext path) = str ".json" -> ReadFile path = Some data ->
    parse data = Some (policy_json p) -> LoadPolicy ReadFile path = inr (normalize p)) /\
  (forall p, match_valid (Read p) -> match_valid (Write p) -> parse (encode (policy_json p)) = Some (policy_json p)).
Proof.
  split; [vm_compute; reflexivity|]. split; [|apply policy_parsed].
  intros path data p Hp Hext Hread Hdata. unfold LoadPolicy. rewrite decide_False, Hread by done.
  unfold loadPolicyBytes. rewrite decide_False by (by intros [_ ?]). by rewrite (policy_stored data p).
Qed.

(** ** A policy file *)

Definition demo_policy : Policy := {|
  Read := {| Prefixes := [str "/etc/"]; HomePrefixes := [str "/.ssh/"]; Suffixes := [str ".pem"] |};
  Write := {| Prefixes := [str "/var/log/"]; HomePrefixes := [str ".config/"]; Suffixes := [] |} |}.

Lemma policies_loaded_witness :
  exists q, LoadPolicy (fun _ => Some (encode (policy_json demo_policy))) (str "/etc/watchu/Policy.JSON") = inr q /\
  matchesReadPath q (str "/home/u/.ssh/id") = true.
Proof.
  exists (normalize demo_policy). split; [|vm_compute; reflexivity].
  destruct (policies_loaded (fun _ => Some (encode (policy_json demo_policy)))) as (_ & Hload & Hparse).
  apply (Hload (str "/etc/watchu/Policy.JSON") (encode (policy_json demo_policy))); [done|vm_compute; reflexivity|done|].
  apply Hparse; by apply (bool_decide_unpack _); vm_compute.
Defined.
