(* ===== verification/Agent.v ===== *)
(** Events of coding agents: [otelrecv/receiver.go] and the [RecordAgentEvent] of
    [export/records.go].

    Agents send log records over gRPC; a record whose event name is that of a known tool
    and of a collected type becomes an event, its fields taken from the attributes, and
    is offered to the channel of the exporter.  Floating point numbers are those of
    [SpecFloat]; the texts of them and the JSON of the attributes, which is
    [protojson]'s, are parameters. *)

From Stdlib Require Import Floats.SpecFloat.
From S2P Require Import Prelude GoStd Collector.

Module Receiver.

(** ** Values of attributes *)

(** The message [AnyValue] of the protocol; a value of which no case is set is
    [NoValue]. *)
Inductive AnyValue :=
  | NoValue
  | StringValue (s : list Z)
  | BoolValue (b : bool)
  | IntValue (n : Z)
  | DoubleValue (d : spec_float)
  | ArrayValue (l : list AnyValue)
  | KvlistValue (l : list (list Z * option AnyValue))
  | BytesValue (b : list Z).

Record KeyValue := { Key : list Z; Value : option AnyValue }.

Record LogRecord := { TimeUnixNano : Z; Attributes : list KeyValue }.

(** ** Numbers *)

(** [strconv.FormatFloat(_, 'g', -1, 64)], [strconv.ParseFloat(_, 64)], and the integer
    that the machine gives for a number out of range. *)
Class Doubles := {
  FormatFloat : spec_float -> list Z;
  ParseFloat : list Z -> option spec_float;
  int_overflow : spec_float -> Z;
}.

Definition zero_float : spec_float := S754_zero false.

Definition is_zero_float (d : spec_float) : bool := match d with S754_zero _ => true | _ => false end.

(** [float64(n)]. *)
Definition float_of_int (n : Z) : spec_float := binary_normalize 53 1024 n 0 false.

(** The integer part of a number that has one. *)
Definition truncate (d : spec_float) : option Z :=
  match d with
  | S754_zero _ => Some 0
  | S754_finite s m e =>
      let n := if 0 <=? e then Zpos m * 2 ^ e else Zpos m / 2 ^ (- e) in
      Some (if s then - n else n)
  | _ => None
  end.

Section Agent.
Context `{Doubles}.

(** [int64(d)]. *)
Definition int_of_float (d : spec_float) : Z :=
  match truncate d with
  | Some n => if (- 2 ^ 63 <=? n) && (n <? 2 ^ 63) then n else int_overflow d
  | None => int_overflow d
  end.

(** [strconv.ParseBool]. *)
Definition ParseBool (s : list Z) : option bool :=
  if decide (s ∈ str <$> ["1"; "t"; "T"; "true"; "TRUE"; "True"]%string) then Some true
  else if decide (s ∈ str <$> ["0"; "f"; "F"; "false"; "FALSE"; "False"]%string) then Some false
  else None.

(** ** Attributes *)

Definition extractAttributes (attrs : list KeyValue) : gmap (list Z) AnyValue :=
  foldl (fun result kv => match Value kv with None => result | Some value => <[Key kv := value]> result end) ∅ attrs.

Definition getStringAttr (attrs : gmap (list Z) AnyValue) (key : string) : list Z :=
  match attrs !! str key with
  | None => []
  | Some (StringValue s) => s
  | Some (IntValue n) => FormatInt n
  | Some (DoubleValue d) => FormatFloat d
  | Some (BoolValue b) => if b then str "true" else str "false"
  | Some _ => []
  end.

Definition getBoolAttr (attrs : gmap (list Z) AnyValue) (key : string) : bool :=
  match attrs !! str key with
  | Some (BoolValue b) => b
  | Some (StringValue s) => match ParseBool s with None => false | Some parsed => parsed end
  | _ => false
  end.

(** [strconv.ParseInt(_, 10, 64)] is [strconv.Atoi]. *)
Definition parseIntAttr (attrs : gmap (list Z) AnyValue) (key : string) : Z :=
  match attrs !! str key with
  | None => 0
  | Some value =>
      if decide (key = ""%string) then 0
      else match value with
      | IntValue n => n
      | DoubleValue d => int_of_float d
      | StringValue s => match Atoi s with None => 0 | Some parsed => parsed end
      | _ => 0
      end
  end.

Definition parseFloatAttr (attrs : gmap (list Z) AnyValue) (key : string) : spec_float :=
  match attrs !! str key with
  | None => zero_float
  | Some value =>
      if decide (key = ""%string) then zero_float
      else match value with
      | DoubleValue d => d
      | IntValue n => float_of_int n
      | StringValue s => match ParseFloat s with None => zero_float | Some parsed => parsed end
      | _ => zero_float
      end
  end.

Fixpoint firstAttrKey (attrs : gmap (list Z) AnyValue) (keys : list string) : string :=
  match keys with
  | [] => ""%string
  | key :: keys' => match attrs !! str key with Some _ => key | None => firstAttrKey attrs keys' end
  end.

Fixpoint coalesce (values : list (list Z)) : list Z :=
  match values with
  | [] => []
  | v :: values' => if decide (v <> []) then v else coalesce values'
  end.

(** ** Events *)

Definition ToolCodex : list Z := str "codex".
Definition ToolClaudeCode : list Z := str "claude_code".
Definition ToolGeminiCLI : list Z := str "gemini_cli".

Fixpoint parse_prefix (prefixes : list (list Z)) (eventName : list Z) : list Z * list Z :=
  match prefixes with
  | [] => ([], [])
  | prefix :: prefixes' =>
      if (length prefix + 1 <? length eventName)%nat && bool_decide (take (length prefix + 1) eventName = prefix ++ [46])
      then (prefix, drop (length prefix + 1) eventName)
      else parse_prefix prefixes' eventName
  end.

Definition parseEventName (eventName : list Z) : list Z * list Z :=
  parse_prefix [ToolCodex; ToolClaudeCode; ToolGeminiCLI] eventName.

(** The structure, in the groups it is written in. *)
Record agent_ids := { ConversationID : list Z; SessionID : list Z; Model : list Z; Slug : list Z; AppVersion : list Z }.
Record agent_prompt := { Prompt : list Z; PromptLength : Z }.
Record agent_tool := {
  ToolName : list Z; CallID : list Z; Arguments_ : list Z; Output : list Z; Success : bool; DurationMs : Z; Decision_ : list Z;
}.
Record agent_api := { StatusCode : Z; CostUSD : spec_float; ErrorMsg : list Z }.
Record agent_tokens := { InputTokenCount : Z; OutputTokenCount : Z; CachedTokenCount : Z; ReasoningTokenCount : Z }.

Record RecordAgentEvent := {
  rae_Timestamp : Z; rae_Tool : list Z; rae_EventName : list Z; rae_EventType : list Z; rae_ids : agent_ids;
  rae_Host : list Z; rae_Attributes : list Z; rae_prompt : agent_prompt; rae_tool : agent_tool; rae_api : agent_api;
  rae_tokens : agent_tokens;
}.

Definition no_ids : agent_ids := {| ConversationID := []; SessionID := []; Model := []; Slug := []; AppVersion := [] |}.
Definition no_prompt : agent_prompt := {| Prompt := []; PromptLength := 0 |}.
Definition no_tool : agent_tool :=
  {| ToolName := []; CallID := []; Arguments_ := []; Output := []; Success := false; DurationMs := 0; Decision_ := [] |}.
Definition no_api : agent_api := {| StatusCode := 0; CostUSD := zero_float; ErrorMsg := [] |}.
Definition no_tokens : agent_tokens :=
  {| InputTokenCount := 0; OutputTokenCount := 0; CachedTokenCount := 0; ReasoningTokenCount := 0 |}.

(** The common fields, by tool. *)
Definition common_fields (attrs : gmap (list Z) AnyValue) (tool : list Z) : agent_ids :=
  if decide (tool = ToolCodex) then
    {| ConversationID := getStringAttr attrs "conversation.id"; SessionID := []; Model := getStringAttr attrs "model";
       Slug := getStringAttr attrs "slug"; AppVersion := getStringAttr attrs "app.version" |}
  else if decide (tool = ToolClaudeCode) then
    {| ConversationID := []; SessionID := getStringAttr attrs "session.id"; Model := getStringAttr attrs "model";
       Slug := []; AppVersion := getStringAttr attrs "app.version" |}
  else if decide (tool = ToolGeminiCLI) then
    {| ConversationID := []; SessionID := getStringAttr attrs "sessionId"; Model := getStringAttr attrs "model";
       Slug := []; AppVersion := [] |}
  else no_ids.

Definition with_duration (d : Z) : agent_tool :=
  {| ToolName := []; CallID := []; Arguments_ := []; Output := []; Success := false; DurationMs := d; Decision_ := [] |}.

(** The fields of the type of the event. *)
Definition typed_fields (attrs : gmap (list Z) AnyValue) (eventType : list Z)
    : agent_prompt * agent_tool * agent_api * agent_tokens :=
  if decide (eventType = str "user_prompt") then
    ({| Prompt := getStringAttr attrs "prompt"; PromptLength := parseIntAttr attrs "prompt_length" |}, no_tool, no_api, no_tokens)
  else if decide (eventType = str "tool_result" \/ eventType = str "tool_call") then
    (no_prompt,
     {| ToolName := coalesce [getStringAttr attrs "tool_name"; getStringAttr attrs "function_name"];
        CallID := getStringAttr attrs "call_id";
        Arguments_ := coalesce [getStringAttr attrs "arguments"; getStringAttr attrs "function_args"];
        Output := getStringAttr attrs "output"; Success := getBoolAttr attrs "success";
        DurationMs := parseIntAttr attrs "duration_ms"; Decision_ := getStringAttr attrs "decision" |},
     {| StatusCode := 0; CostUSD := zero_float; ErrorMsg := getStringAttr attrs "error" |}, no_tokens)
  else if decide (eventType = str "api_request") then
    (no_prompt, with_duration (parseIntAttr attrs "duration_ms"),
     {| StatusCode := parseIntAttr attrs "status_code"; CostUSD := parseFloatAttr attrs "cost_usd"; ErrorMsg := [] |}, no_tokens)
  else if decide (eventType = str "api_response") then
    (no_prompt, with_duration (parseIntAttr attrs "duration_ms"),
     {| StatusCode := parseIntAttr attrs "status_code"; CostUSD := parseFloatAttr attrs "cost_usd"; ErrorMsg := [] |},
     {| InputTokenCount := parseIntAttr attrs (firstAttrKey attrs ["input_token_count"; "input_tokens"]%string);
        OutputTokenCount := parseIntAttr attrs (firstAttrKey attrs ["output_token_count"; "output_tokens"]%string);
        CachedTokenCount := parseIntAttr attrs
          (firstAttrKey attrs ["cached_token_count"; "cache_read_tokens"; "cached_content_token_count"]%string);
        ReasoningTokenCount := 0 |})
  else if decide (eventType = str "api_error") then
    (no_prompt, with_duration (parseIntAttr attrs "duration_ms"),
     {| StatusCode := parseIntAttr attrs "status_code"; CostUSD := zero_float; ErrorMsg := getStringAttr attrs "error" |}, no_tokens)
  else (no_prompt, no_tool, no_api, no_tokens).

(** The token counts of a completed response of Codex. *)
Definition sse_tokens (attrs : gmap (list Z) AnyValue) (tool eventName : list Z) (tokens : agent_tokens) : agent_tokens :=
  if decide (tool = ToolCodex /\ eventName = str "codex.sse_event" /\ getStringAttr attrs "event.kind" = str "response.completed") then
    {| InputTokenCount := parseIntAttr attrs "input_token_count"; OutputTokenCount := parseIntAttr attrs "output_token_count";
       CachedTokenCount := parseIntAttr attrs "cached_token_count"; ReasoningTokenCount := parseIntAttr attrs "reasoning_token_count" |}
  else tokens.

(** [protojson.Marshal] of the attributes. *)
Context (MarshalAttributes : list KeyValue -> option (list Z)).

Definition parseLogRecord (record : LogRecord) : option RecordAgentEvent :=
  let attrs := extractAttributes (Attributes record) in
  let eventName := getStringAttr attrs "event.name" in
  if decide (eventName = []) then None
  else
    let '(tool, eventType) := parseEventName eventName in
    if decide (tool = []) then None
    else if decide (eventType <> str "user_prompt" /\ eventType <> str "tool_call" /\ eventType <> str "tool_result") then None
    else
      let '(prompt, use, api, tokens) := typed_fields attrs eventType in
      Some {| rae_Timestamp := s64 (TimeUnixNano record); rae_Tool := tool; rae_EventName := eventName; rae_EventType := eventType;
              rae_ids := common_fields attrs tool; rae_Host := [];
              rae_Attributes := default [] (MarshalAttributes (Attributes record));
              rae_prompt := prompt; rae_tool := use; rae_api := api; rae_tokens := sse_tokens attrs tool eventName tokens |}.

(** ** The receiver *)

(** The log records of a request, by resource and scope. *)
Definition request : Type := list (list (list LogRecord)).

Definition Export (req : request) (c : Channel.chan RecordAgentEvent) : Channel.chan RecordAgentEvent :=
  foldl (fun c resourceLogs =>
    foldl (fun c scopeLogs =>
      foldl (fun c logRecord =>
        match parseLogRecord logRecord with
        | Some event => Channel.offer event c
        | None => c
        end) c scopeLogs) c resourceLogs) c req.

(** The exporter fills in the host. *)
Definition ToRecord (host : list Z) (r : RecordAgentEvent) : option RecordAgentEvent :=
  Some {| rae_Timestamp := rae_Timestamp r; rae_Tool := rae_Tool r; rae_EventName := rae_EventName r; rae_EventType := rae_EventType r;
          rae_ids := rae_ids r; rae_Host := host; rae_Attributes := rae_Attributes r; rae_prompt := rae_prompt r;
          rae_tool := rae_tool r; rae_api := rae_api r; rae_tokens := rae_tokens r |}.
End Agent.
End Receiver.
