(* ===== verification/Format.v ===== *)
(** Records on display: the JSON of the records of [export/records.go] and
    [export/sink_jsonl.go], and the reading of it in [tui/format.go] and
    [tui/endpoints.go].

    A record is exported as one line of JSON, field by field in the order of its
    structure; the interface reads the line, picks the fields of the summary, the
    session key and the time, names the provider and model of a request to a language
    model, and shows the event with its body decoded.  JSON and base64 are those of
    [Json], [JsonText] and [JsonMap]; the texts of times, the parser of URLs and the
    table of printable characters are the class [Texts]. *)

From Stdlib Require Import Floats.SpecFloat.
From S2P Require Import Prelude GoStd Json JsonText JsonMap Collector Policy Export Pairs Dashboard Agent.

(** [MarshalJSON] of a time, which fails for years that have not four digits,
    [UnmarshalJSON] and [time.Parse(time.RFC3339Nano, _)]; the literal of a [float64],
    which infinities and [NaN] do not have; [url.Parse], with [Hostname] and
    [EscapedPath] of the result; [unicode.IsPrint] of an encoding. *)
Class Texts := {
  MarshalTime : Z -> option (list Z);
  MarshalFloat : spec_float -> option (list Z);
  UnmarshalTime : list Z -> option Z;
  ParseTime : list Z -> option Z;
  url_Parse : list Z -> option (list Z * list Z);
  IsPrint : list Z -> bool;
}.

(** ** The JSON of the records *)
Module Records.
Section Records.
Context `{Texts}.

(** A field of a structure: a value, a raw message, a time or a [float64]. *)
Inductive field := Val (v : json) | Raw (b : list Z) | Time (t : Z) | Float (d : spec_float).

Definition field_text (f : field) : option (list Z) :=
  match f with
  | Val v => Some (encode v)
  | Raw b => RawMessage b
  | Time t => quote <$> MarshalTime t
  | Float d => MarshalFloat d
  end.

(** [json.Marshal] of a structure. *)
Definition object (fields : list (list Z * list Z)) : list Z :=
  123 :: join_with 44 ((fun kt => quote kt.1 ++ 58 :: kt.2) <$> fields) ++ [125].

Definition MarshalStruct (fields : list (string * field)) : option (list Z) :=
  object <$> mapM (fun kf : string * field => pair (str kf.1) <$> field_text kf.2) fields.

Definition Int (n : Z) : field := Val (Num (FormatInt n)).
Definition String_ (s : list Z) : field := Val (Str s).

(** A slice of bytes; [empty] for a slice of no bytes that is not nil. *)
Definition Bytes (empty : bool) (b : list Z) : field :=
  Val (match b with [] => if empty then Str [] else Null | _ => Str (EncodeToString b) end).

Definition omitempty {A} (zero : bool) (x : A) : list A := if zero then [] else [x].

Definition RecordExec_fields (r : RecordExec) : list (string * field) :=
  [("timestamp"%string, Time (rex_Timestamp r)); ("pid"%string, Int (rex_Pid r)); ("ppid"%string, Int (rex_PPid r));
   ("exec_id"%string, String_ (rex_ExecId r)); ("p_exec_id"%string, String_ (rex_PExecId r));
   ("cwd"%string, String_ (rex_Cwd r)); ("comm"%string, String_ (rex_Comm r)); ("args"%string, String_ (rex_Args r));
   ("host"%string, String_ (rex_Host r)); ("container_id"%string, String_ (rex_ContainerID r))].

Definition RecordRequest_fields (empty : bool) (r : RecordRequest) : list (string * field) :=
  let id := rrq_id r in
  [("timestamp"%string, Time (rec_Timestamp id)); ("session_key"%string, String_ (rrq_SessionKey r));
   ("pid"%string, Int (rec_Pid id)); ("tid"%string, Int (rec_Tid id)); ("uid"%string, Int (rec_Uid id));
   ("gid"%string, Int (rec_Gid id)); ("comm"%string, String_ (rrq_Comm r)); ("method"%string, String_ (rrq_Method r));
   ("url"%string, String_ (rrq_URL r)); ("protocol"%string, String_ (rrq_Protocol r));
   ("content_length"%string, Int (rrq_ContentLength r)); ("headers"%string, Raw (rrq_Headers r));
   ("body"%string, Bytes empty (rrq_Body r)); ("truncated"%string, Val (Bool (rrq_Truncated r)));
   ("host"%string, String_ (rec_Host id)); ("container_id"%string, String_ (rec_ContainerID id))].

Definition RecordResponse_fields (empty : bool) (r : RecordResponse) : list (string * field) :=
  let id := rrp_id r in
  [("timestamp"%string, Time (rec_Timestamp id)); ("session_key"%string, String_ (rrp_SessionKey r));
   ("pid"%string, Int (rec_Pid id)); ("tid"%string, Int (rec_Tid id)); ("uid"%string, Int (rec_Uid id));
   ("gid"%string, Int (rec_Gid id)); ("comm"%string, String_ (rrp_Comm r));
   ("status_code"%string, Int (rrp_StatusCode r)); ("protocol"%string, String_ (rrp_Protocol r));
   ("content_length"%string, Int (rrp_ContentLength r)); ("headers"%string, Raw (rrp_Headers r));
   ("body"%string, Bytes empty (rrp_Body r)); ("truncated"%string, Val (Bool (rrp_Truncated r)));
   ("host"%string, String_ (rec_Host id)); ("container_id"%string, String_ (rec_ContainerID id))].

Definition identity_fields (id : identity) : list (string * field) :=
  [("timestamp"%string, Time (rec_Timestamp id)); ("pid"%string, Int (rec_Pid id)); ("tid"%string, Int (rec_Tid id));
   ("uid"%string, Int (rec_Uid id)); ("gid"%string, Int (rec_Gid id)); ("host"%string, String_ (rec_Host id));
   ("container_id"%string, String_ (rec_ContainerID id))].

Definition RecordStdIO_fields (r : RecordStdIO) : list (string * field) :=
  identity_fields (rio_id r) ++
  [("message_type"%string, String_ (rio_MessageType r)); ("jsonrpc"%string, String_ (rio_JSONRPC r));
   ("method"%string, String_ (rio_Method r)); ("params"%string, Raw (rio_Params r));
   ("result"%string, Raw (rio_Result r)); ("error"%string, Raw (rio_Error r)); ("corr_id"%string, String_ (rio_CorrID r))].

Definition RecordPostgres_fields (empty : bool) (r : RecordPostgres) : list (string * field) :=
  identity_fields (rpg_id r) ++
  [("comm"%string, String_ (rpg_Comm r)); ("data"%string, Bytes empty (rpg_Data r));
   ("msg_type"%string, String_ (rpg_MsgType r))].

Definition RecordFileOp_fields (r : RecordFileOp) : list (string * field) :=
  identity_fields (rfo_id r) ++
  [("comm"%string, String_ (rfo_Comm r)); ("op"%string, String_ (str (rfo_Op r)))] ++
  omitempty (bool_decide (rfo_Access r = ""%string)) ("access"%string, String_ (str (rfo_Access r))) ++
  [("path"%string, String_ (rfo_Path r))] ++
  omitempty (bool_decide (rfo_NewPath r = [])) ("new_path"%string, String_ (rfo_NewPath r)) ++
  omitempty (rfo_Bytes r =? 0) ("bytes"%string, Int (rfo_Bytes r)) ++
  omitempty (rfo_Flags r =? 0) ("flags"%string, Int (rfo_Flags r)) ++
  omitempty (negb (rfo_Create r)) ("create"%string, Val (Bool (rfo_Create r))) ++
  omitempty (negb (rfo_Truncate r)) ("truncate"%string, Val (Bool (rfo_Truncate r))) ++
  omitempty (negb (rfo_Append r)) ("append"%string, Val (Bool (rfo_Append r))).

Definition RecordTCPConnect_fields (r : RecordTCPConnect) : list (string * field) :=
  identity_fields (rtc_id r) ++
  [("comm"%string, String_ (rtc_Comm r)); ("family"%string, Int (rtc_Family r));
   ("target_addr"%string, String_ (rtc_TargetAddr r)); ("target_port"%string, Int (rtc_TargetPort r))].

(** The fields of a structure of which some are left out when they are empty: whether
    one is, and its name and value. *)
Definition slot : Type := bool * (string * field).
Definition keep (k : string) (f : field) : slot := (false, (k, f)).
Definition omit_string (k : string) (s : list Z) : slot := (bool_decide (s = []), (k, String_ s)).
Definition omit_int (k : string) (n : Z) : slot := (n =? 0, (k, Int n)).

Definition filled (slots : list slot) : list (string * field) := omap (fun s : slot => if s.1 then None else Some s.2) slots.

Definition RecordAgentEvent_slots (r : Receiver.RecordAgentEvent) : list slot :=
  let ids := Receiver.rae_ids r in
  let prompt := Receiver.rae_prompt r in
  let tool := Receiver.rae_tool r in
  let api := Receiver.rae_api r in
  let tokens := Receiver.rae_tokens r in
  [keep "timestamp" (Time (Receiver.rae_Timestamp r)); keep "tool" (String_ (Receiver.rae_Tool r));
   keep "event_name" (String_ (Receiver.rae_EventName r)); keep "event_type" (String_ (Receiver.rae_EventType r));
   omit_string "conversation_id" (Receiver.ConversationID ids); omit_string "session_id" (Receiver.SessionID ids);
   omit_string "model" (Receiver.Model ids); omit_string "slug" (Receiver.Slug ids);
   omit_string "app_version" (Receiver.AppVersion ids); keep "host" (String_ (Receiver.rae_Host r));
   keep "attributes" (Raw (Receiver.rae_Attributes r));
   omit_string "prompt" (Receiver.Prompt prompt); omit_int "prompt_length" (Receiver.PromptLength prompt);
   omit_string "tool_name" (Receiver.ToolName tool); omit_string "call_id" (Receiver.CallID tool);
   omit_string "arguments" (Receiver.Arguments_ tool); omit_string "output" (Receiver.Output tool);
   (negb (Receiver.Success tool), ("success"%string, Val (Bool (Receiver.Success tool))));
   omit_int "duration_ms" (Receiver.DurationMs tool); omit_string "decision" (Receiver.Decision_ tool);
   omit_int "status_code" (Receiver.StatusCode api);
   (Receiver.is_zero_float (Receiver.CostUSD api), ("cost_usd"%string, Float (Receiver.CostUSD api)));
   omit_string "error" (Receiver.ErrorMsg api);
   omit_int "input_token_count" (Receiver.InputTokenCount tokens); omit_int "output_token_count" (Receiver.OutputTokenCount tokens);
   omit_int "cached_token_count" (Receiver.CachedTokenCount tokens);
   omit_int "reasoning_token_count" (Receiver.ReasoningTokenCount tokens)].

Definition RecordAgentEvent_fields (r : Receiver.RecordAgentEvent) : list (string * field) := filled (RecordAgentEvent_slots r).

(** The events of the sink; [empty] says whether a body of no bytes is an empty slice
    instead of nil. *)
Inductive event :=
  | ExecEvent (r : RecordExec)
  | RequestEvent (empty : bool) (r : RecordRequest)
  | ResponseEvent (empty : bool) (r : RecordResponse)
  | StdIOEvent (r : RecordStdIO)
  | PostgresEvent (empty : bool) (r : RecordPostgres)
  | FileOpEvent (r : RecordFileOp)
  | TCPConnectEvent (r : RecordTCPConnect)
  | AgentEvent (r : Receiver.RecordAgentEvent).

Definition event_fields (e : event) : list (string * field) :=
  match e with
  | ExecEvent r => RecordExec_fields r
  | RequestEvent empty r => RecordRequest_fields empty r
  | ResponseEvent empty r => RecordResponse_fields empty r
  | StdIOEvent r => RecordStdIO_fields r
  | PostgresEvent empty r => RecordPostgres_fields empty r
  | FileOpEvent r => RecordFileOp_fields r
  | TCPConnectEvent r => RecordTCPConnect_fields r
  | AgentEvent r => RecordAgentEvent_fields r
  end.

(** The path under which the exporter sends an event. *)
Definition path_of (e : event) : list Z :=
  match e with
  | ExecEvent _ => str "exec_event"
  | RequestEvent _ _ => str "http_request"
  | ResponseEvent _ _ => str "http_response"
  | StdIOEvent _ => str "mcp_stdio"
  | PostgresEvent _ _ => str "pg_event"
  | FileOpEvent _ => str "file_op"
  | TCPConnectEvent _ => str "tcp_connect"
  | AgentEvent _ => str "agent_event"
  end.

(** [json.Marshal] of a [JSONLRecord]. *)
Definition Marshal (r : @Jsonl.JSONLRecord event) : option (list Z) :=
  ts ← MarshalTime (Jsonl.Timestamp r);
  ev ← MarshalStruct (event_fields (Jsonl.Event r));
  Some (object [(str "endpoint", quote (Jsonl.Endpoint r)); (str "timestamp", quote ts); (str "event", ev)]).
End Records.
End Records.

(** ** [tui/format.go] and [tui/endpoints.go] *)
Module Display.
Section Display.
Context `{Texts} `{Floats}.

Definition fieldString (event : members_of) (key : string) : list Z :=
  match member (str key) event with
  | None | Some Null => []
  | Some (Str val) => val
  | Some val => Sprint val
  end.

(** [%v] of a member; one that is absent is nil. *)
Definition field_v (event : members_of) (key : string) : list Z := Sprint (default Null (member (str key) event)).

(** *** Summaries *)

Definition summarizeExec (event : members_of) (_ : list Z) : list Z :=
  let args := utf8_TrimSpace (fieldString event "args") in
  if decide (args <> []) then args else fieldString event "comm".

Definition summarizeHTTPRequest (event : members_of) (_ : list Z) : list Z :=
  utf8_TrimSpace (fieldString event "method" ++ str " " ++ fieldString event "url").

Definition summarizeHTTPResponse (event : members_of) (_ : list Z) : list Z :=
  str "status=" ++ field_v event "status_code" ++ str " protocol=" ++ fieldString event "protocol" ++
  str " comm=" ++ fieldString event "comm".

Definition summarizeMCPStdIO (event : members_of) (_ : list Z) : list Z :=
  utf8_TrimSpace (fieldString event "message_type" ++ str " " ++ fieldString event "method").

Definition summarizePostgres (event : members_of) (_ : list Z) : list Z :=
  utf8_TrimSpace (fieldString event "comm" ++ str " msg=" ++ fieldString event "msg_type").

Definition summarizeFileOp (event : members_of) (_ : list Z) : list Z :=
  let op := fieldString event "op" in
  let path := fieldString event "path" in
  let newPath := fieldString event "new_path" in
  if decide (newPath <> []) then op ++ str " " ++ path ++ str " -> " ++ newPath
  else utf8_TrimSpace (op ++ str " " ++ path).

Definition summarizeTCPConnect (event : members_of) (_ : list Z) : list Z :=
  fieldString event "comm" ++ str " -> " ++ fieldString event "target_addr" ++ str ":" ++ field_v event "target_port".

Definition summarizeAgentEvent (event : members_of) (_ : list Z) : list Z :=
  utf8_TrimSpace (fieldString event "tool" ++ str " " ++ fieldString event "event_name").

Definition summarizeDefault (event : members_of) (raw : list Z) : list Z :=
  let method := fieldString event "method" in
  let op := fieldString event "op" in
  if decide (method <> []) then method
  else if decide (op <> []) then op
  else raw.

(** *** Details *)

(** The loop over the characters. *)
Fixpoint printable_from (fuel : nat) (s : list Z) : bool :=
  match fuel, s with
  | S fuel', c :: _ =>
      let w := rune_width s in
      ((c =? 10) || (c =? 13) || (c =? 9) || IsPrint (take w s)) && printable_from fuel' (drop w s)
  | _, _ => true
  end.

Definition isPrintableUTF8 (data : list Z) : bool :=
  if decide (data = []) then true
  else if negb (utf8_Valid data) then false
  else printable_from (length data) data.

Definition rewriteHTTPBodyForDisplay (raw : list Z) : list Z :=
  match UnmarshalMap raw with
  | None => raw
  | Some event =>
      match member (str "body") event with
      | Some (Str bodyString) =>
          match DecodeString bodyString with
          | None => raw
          | Some decoded =>
              let body := if isPrintableUTF8 decoded then decoded
                          else str "<binary body, " ++ FormatInt (Z.of_nat (length decoded)) ++ str " bytes>" in
              encode (Obj (insert_member (str "body") (Str body) event))
          end
      | _ => raw
      end
  end.

(** The styles of the terminal are left out. *)
Record endpointDefinition := {
  Summarize : members_of -> list Z -> list Z;
  TransformDetail : option (list Z -> list Z);
}.

Definition endpointDefinitions : list (list Z * endpointDefinition) :=
  [(str "exec_event", {| Summarize := summarizeExec; TransformDetail := None |});
   (str "http_request", {| Summarize := summarizeHTTPRequest; TransformDetail := Some rewriteHTTPBodyForDisplay |});
   (str "http_response", {| Summarize := summarizeHTTPResponse; TransformDetail := Some rewriteHTTPBodyForDisplay |});
   (str "mcp_stdio", {| Summarize := summarizeMCPStdIO; TransformDetail := None |});
   (str "pg_event", {| Summarize := summarizePostgres; TransformDetail := None |});
   (str "file_op", {| Summarize := summarizeFileOp; TransformDetail := None |});
   (str "tcp_connect", {| Summarize := summarizeTCPConnect; TransformDetail := None |});
   (str "agent_event", {| Summarize := summarizeAgentEvent; TransformDetail := None |})].

Definition endpointDefinitionFor (endpoint : list Z) : endpointDefinition :=
  match list_find (fun d => d.1 = endpoint) endpointDefinitions with
  | Some (_, d) => d.2
  | None => {| Summarize := summarizeDefault; TransformDetail := None |}
  end.

Definition renderEventDetail (def : endpointDefinition) (raw : list Z) : list Z :=
  let raw := match TransformDetail def with Some f => f raw | None => raw end in
  match Indent raw with
  | Some out => out
  | None => raw
  end.

(** *** Provider and model *)

Definition modelFromHTTPEvent (event : members_of) : list Z :=
  let bodyString := fieldString event "body" in
  if decide (bodyString = []) then []
  else match DecodeString bodyString with
  | None | Some [] => []
  | Some decoded =>
      match UnmarshalMap decoded with
      | None => []
      | Some body => fieldString body "model"
      end
  end.

(** [strings.ToLower], as far as it gives ASCII: U+0130 and U+212A become letters. *)
Fixpoint lower (s : list Z) : list Z :=
  match s with
  | 196 :: 176 :: s' => 105 :: lower s'
  | 226 :: 132 :: 170 :: s' => 107 :: lower s'
  | c :: s' => to_lower c :: lower s'
  | [] => []
  end.

(** A host of a domain. *)
Definition in_domain (host : list Z) (domain : string) : bool :=
  bool_decide (host = str domain) || HasSuffix host (46 :: str domain).

Definition providerFromURL (raw : list Z) : list Z :=
  match url_Parse raw with
  | None => []
  | Some (hostname, _) =>
      let host := lower hostname in
      if bool_decide (host = str "localhost") || bool_decide (host = str "127.0.0.1") || bool_decide (host = str "::1")
      then str "local"
      else if in_domain host "openai.com" then str "openai"
      else if in_domain host "anthropic.com" then str "anthropic"
      else if in_domain host "groq.com" then str "groq"
      else if in_domain host "mistral.ai" then str "mistral"
      else if in_domain host "generativelanguage.googleapis.com" then str "gemini"
      else if in_domain host "ollama.com" then str "ollama"
      else []
  end.

Definition geminiModelFromURL (raw : list Z) : list Z :=
  match url_Parse raw with
  | None => []
  | Some (_, path) =>
      match Index path (str "/models/") with
      | None => []
      | Some start =>
          let model := drop (start + length (str "/models/")) path in
          match Index model [58] with
          | Some idx => take idx model
          | None => model
          end
      end
  end.

Definition httpProviderModel (endpoint : list Z) (event : members_of) : list Z * list Z :=
  if decide (endpoint <> str "http_request" /\ endpoint <> str "http_response") then ([], [])
  else
    let urlString := fieldString event "url" in
    let provider := providerFromURL urlString in
    let model := modelFromHTTPEvent event in
    let model := if decide (model = [] /\ provider = str "gemini") then geminiModelFromURL urlString else model in
    if decide (model = []) then ([], []) else (provider, model).

(** *** Records *)

Definition eventTimestamp (event : members_of) (fallback : Z) : Z :=
  let raw := fieldString event "timestamp" in
  if decide (raw = []) then fallback
  else default fallback (ParseTime raw).

(** [json.Unmarshal] into a [JSONLRecord], which members that are [null] leave as it
    is; a time is read from a string without escapes. *)
Definition record_member (r : @Jsonl.JSONLRecord json) (kv : list Z * json) : option Jsonl.JSONLRecord :=
  let name := foldName kv.1 in
  if decide (name = str "endpoint") then
    match kv.2 with
    | Str s => Some {| Jsonl.Endpoint := s; Jsonl.Timestamp := Jsonl.Timestamp r; Jsonl.Event := Jsonl.Event r |}
    | Null => Some r
    | _ => None
    end
  else if decide (name = str "timestamp") then
    match kv.2 with
    | Str s => t ← UnmarshalTime s;
        Some {| Jsonl.Endpoint := Jsonl.Endpoint r; Jsonl.Timestamp := t; Jsonl.Event := Jsonl.Event r |}
    | Null => Some r
    | _ => None
    end
  else if decide (name = str "event") then
    v ← unmarshal kv.2;
    Some {| Jsonl.Endpoint := Jsonl.Endpoint r; Jsonl.Timestamp := Jsonl.Timestamp r; Jsonl.Event := v |}
  else Some r.

(** The first of January of the year 1, in nanoseconds. *)
Definition zero_time : Z := -62135596800 * 10 ^ 9.

Definition UnmarshalRecord (line : list Z) : option (@Jsonl.JSONLRecord json) :=
  let zero := {| Jsonl.Endpoint := []; Jsonl.Timestamp := zero_time; Jsonl.Event := Null |} in
  v ← parse line;
  match v with
  | Obj l => foldl (fun r kv => r ← r; record_member r kv) (Some zero) l
  | Null => Some zero
  | _ => None
  end.

Inductive error := DecodeRecord | DecodeEvent.

Definition parseJSONLRecord (line : list Z) : error + displayRecord :=
  match UnmarshalRecord line with
  | None => inl DecodeRecord
  | Some record =>
      let raw := encode (Jsonl.Event record) in
      match UnmarshalMap raw with
      | None => inl DecodeEvent
      | Some event =>
          let endpoint := Jsonl.Endpoint record in
          let def := endpointDefinitionFor endpoint in
          let '(provider, model) := httpProviderModel endpoint event in
          inr {| Endpoint := endpoint; Timestamp := eventTimestamp event (Jsonl.Timestamp record);
                 SessionKey := fieldString event "session_key"; Provider := provider; Model := model;
                 Summary := Summarize def event raw; Detail := renderEventDetail def raw |}
      end
  end.
End Display.
End Display.
