(* ===== verification/FormatTheorems.v ===== *)
(** The records on display are the records that were exported.

    A line of the file sink is one line that starts and ends with a brace, so the
    reader of [Dashboard] finds it; read by [parseJSONLRecord] it gives a record with
    the endpoint, the time, the session key and the summary of the event, the body of a
    request or response decoded, and the provider and model of its URL and body.  So
    the events of a run are shown, and a request and its response paired. *)

From Stdlib Require Import Floats.SpecFloat.
From stdpp Require Import sorting.
From S2P Require Import Prelude GoStd Collector SslStore Policy Export Pairs Dashboard DashboardTheorems Json JsonTheorems JsonText JsonMap JsonCompact Agent Format.
Import Records Display.

(** What is documented of times: the text is printable ASCII, and is read again; the
    text of a [float64] is a literal. *)
Class TextLaws `{Texts} : Prop := {
  time_ascii t s : MarshalTime t = Some s -> s <> [] /\ Forall (fun c => 32 <= c < 127) s;
  time_unmarshal t s : MarshalTime t = Some s -> UnmarshalTime s = Some t;
  time_parse t s : MarshalTime t = Some s -> ParseTime s = Some t;
  float_marshal d t : MarshalFloat d = Some t -> literal t;
}.

(** ** One line *)

Section Line.
Context `{TextLaws}.

Definition line_field (kf : string * field) : Prop := forall t, field_text kf.2 = Some t -> 10 ∉ t.

Lemma line_int k n : line_field (k, Int n).
Proof. intros t [= <-]. apply FormatInt_avoids; lia. Qed.

Lemma line_string k s : line_field (k, String_ s).
Proof. intros t [= <-]. apply quote_line. Qed.

Lemma line_bool k b : line_field (k, Val (Bool b)).
Proof. intros t [= <-]. destruct b; by apply (bool_decide_unpack _). Qed.

Lemma line_bytes k empty b : line_field (k, Bytes empty b).
Proof. intros t [= <-]. destruct b; [destruct empty|]; [apply quote_line|by apply (bool_decide_unpack _)|apply quote_line]. Qed.

Lemma line_raw k b : line_field (k, Raw b).
Proof.
  intros t. cbn [snd field_text]. unfold RawMessage. destruct b; [intros [= <-]; by apply (bool_decide_unpack _)|].
  intros (? & _ & Hc)%bind_Some. by eapply compact_line.
Qed.

Lemma line_time k n : line_field (k, Time n).
Proof. intros t (s & _ & ->)%fmap_Some. apply quote_line. Qed.

Lemma line_float k d : line_field (k, Float d).
Proof.
  intros t Ht%float_marshal. apply number_numeric in Ht. intros Hin. rewrite Forall_forall in Ht. destruct (Ht 10 Hin) as [?|Hx]; [done|]. set_solver.
Qed.

Lemma filled_Forall (P : string * field -> Prop) slots : Forall (fun s => P s.2) slots -> Forall P (filled slots).
Proof. induction 1 as [|[z f] slots Hf Hs IH]; [constructor|]. unfold filled. cbn. destruct z; [done|by constructor]. Qed.

Lemma agent_lines r : Forall line_field (RecordAgentEvent_fields r).
Proof.
  apply filled_Forall. unfold RecordAgentEvent_slots. repeat apply Forall_cons_2; try apply Forall_nil_2;
    first [apply line_int|apply line_string|apply line_bool|apply line_raw|apply line_time|apply line_float].
Qed.

Lemma event_lines e : Forall line_field (event_fields e).
Proof.
  destruct e; cbn [event_fields]; [..|apply agent_lines];
    unfold RecordExec_fields, RecordRequest_fields, RecordResponse_fields, RecordStdIO_fields, RecordPostgres_fields,
      RecordFileOp_fields, RecordTCPConnect_fields, identity_fields, omitempty;
    repeat first [apply Forall_app_2|apply Forall_cons_2|apply Forall_nil_2|case_match];
    first [apply line_int|apply line_string|apply line_bool|apply line_bytes|apply line_raw|apply line_time].
Qed.

#[export] Instance Marshal_one_line : OneLine Marshal.
Proof.
  assert (forall fields : list (list Z * list Z), Forall (fun kt => 10 ∉ kt.2) fields -> 10 ∉ object fields) as Ho.
  { intros fields Hf. unfold object. rewrite not_elem_of_cons, not_elem_of_app, list_elem_of_singleton.
    split_and!; [done| |done]. apply join_line, Forall_fmap. eapply Forall_impl; [exact Hf|]. intros [k t] Ht. change (10 ∉ quote k ++ 58 :: t).
    rewrite not_elem_of_app, not_elem_of_cons. split_and!; [apply quote_line|done|done]. }
  split; intros r b (ts & Hts & (ev & Hev & [= <-])%bind_Some)%bind_Some.
  - apply Ho. repeat apply Forall_cons_2; cbn [snd]; [apply quote_line..| |apply Forall_nil_2].
    apply fmap_Some in Hev as (l & Hl & ->). apply Ho. apply mapM_Some in Hl. apply Forall_forall. intros kt Hkt.
    apply list_elem_of_lookup in Hkt as [i Hi]. destruct (Forall2_lookup_r _ _ _ _ _ Hl Hi) as ([k f] & Hf & Ht).
    apply fmap_Some in Ht as (t & Ht & ->). by apply (Forall_lookup_1 _ _ _ _ (event_lines (Jsonl.Event r)) Hf).
  - eexists. reflexivity.
Qed.
End Line.

(** ** What a line says *)
Section Shown.
Context `{TextLaws} `{FloatLaws}.

(** The value of a field: a raw message is any text of a value. *)
Definition field_value (f : field) (v : json) : Prop :=
  match f with
  | Val v' => v = v'
  | Raw b => (b = [] /\ v = Null) \/ Forall byte b /\ parse b = Some v
  | Time t => exists s, MarshalTime t = Some s /\ v = Str s
  | Float d => exists t, MarshalFloat d = Some t /\ v = Num t
  end.

Definition members_are (fields : list (string * field)) (l : members_of) : Prop :=
  Forall2 (fun kf kv => kv.1 = str kf.1 /\ field_value kf.2 kv.2) fields l.

(** Strings are bytes, numbers are in the range of [float64], raw messages are the
    text of such values, nested so deep that the line around them, which adds two levels,
    can be read, and times have a text. *)
Definition field_ok (kf : string * field) : Prop :=
  exists v, field_value kf.2 v /\ exportable v /\ depth v <= maxNestingDepth - 2.

Definition event_ok (e : event) : Prop := Forall field_ok (event_fields e).

Lemma field_text_value f v : field_value f v -> wf v -> exists u, field_text f = Some u /\ text (canon v) u.
Proof.
  intros Hf Hv. destruct f as [v'|b|t|d]; cbn in *.
  - subst. eexists. split; [done|by apply encode_text].
  - destruct Hf as [[-> ->]|[Hb Hp]]; [eexists; split; [done|constructor]|].
    rewrite good_canon by (by eapply parse_good). by apply RawMessage_parse.
  - destruct Hf as (s & -> & ->). eexists. split; [done|by apply (encode_text (Str s))].
  - destruct Hf as (t & Ht & ->). exists t. split; [done|]. constructor. by eapply float_marshal.
Qed.

Lemma object_text (kvs : members_of) (us : list (list Z)) :
  Forall (fun kv => Forall byte kv.1) kvs -> Forall2 (fun kv u => text (canon kv.2) u) kvs us ->
  text (canon (Obj kvs)) (object (zip kvs.*1 us)).
Proof.
  intros Hk Hu. unfold object. cbn [canon].
  assert ((fun kt : list Z * list Z => quote kt.1 ++ 58 :: kt.2) <$> zip kvs.*1 us =
    member_text <$> zip ((fun k => escape_from (length k) k) <$> kvs.*1) us) as ->.
  { clear Hk. induction Hu as [|[k v] u kvs us Hv Hu IH]; [done|]. rewrite !fmap_cons. cbn [zip_with]. rewrite !fmap_cons. by f_equal. }
  apply text_obj, Forall2_fmap_l. induction Hu as [|[k v] u kvs us Hv Hu IH]; [constructor|].
  apply Forall_cons in Hk as [Hkx Hk]. constructor; [|by apply IH]. split; [by apply escape_text|done].
Qed.

Lemma MarshalStruct_value fields l :
  members_are fields l -> Forall (fun kv => Forall byte kv.1 /\ wf kv.2) l ->
  exists u, MarshalStruct fields = Some u /\ text (canon (Obj l)) u.
Proof.
  intros Hm Hl. unfold MarshalStruct.
  assert (exists us, mapM (fun kf : string * field => pair (str kf.1) <$> field_text kf.2) fields = Some (zip l.*1 us) /\
    Forall2 (fun kv u => text (canon kv.2) u) l us) as (us & -> & Hus).
  { induction Hm as [|[k f] [k' v] fields l [Hk Hf] Hm IH]; [exists []; by repeat constructor|].
    apply Forall_cons in Hl as [[_ Hv] Hl]. destruct (IH Hl) as (us & Hus & Ht). cbn [fst snd] in *. subst.
    destruct (field_text_value f v Hf Hv) as (u & Hu & Htu). exists (u :: us). split; [|by constructor].
    cbn [mapM]. unfold mapM in Hus |- *. cbn. by rewrite Hu; cbn; rewrite Hus. }
  eexists. split; [done|]. apply object_text; [|done]. eapply Forall_impl; [exact Hl|]. by intros kv [? _].
Qed.

Lemma fields_members fields : Forall field_ok fields -> Forall (fun kf => Forall byte (str kf.1)) fields ->
  exists l, members_are fields l /\ exportable (Obj l) /\ depth (Obj l) <= maxNestingDepth - 1.
Proof.
  induction 1 as [|[k f] fields (v & Hf & Hv & Hd) _ IH]; intros Hk.
  { exists []. split; [constructor|]. split; [by repeat constructor|done]. }
  apply Forall_cons in Hk as [Hk Hks]. destruct (IH Hks) as (l & Hl & Hx & Hdl). exists ((str k, v) :: l). split; [by constructor|].
  split; [constructor; [done|]; inversion Hx as [| | | | |? _ Hx']; subst; by constructor|].
  change (maxNestingDepth - 1) with (1 + (maxNestingDepth - 2)) in *. rewrite depth_obj in Hdl |- * by done. by constructor.
Qed.

(** *** Names *)

(** The names of the fields are printable. *)
Definition ascii_name (k : string) : Prop := Forall (fun c => 0 <= c < 128) (str k).

Lemma valid_ascii s : Forall (fun c => 0 <= c < 128) s -> ToValidUTF8 s = s.
Proof.
  unfold ToValidUTF8. intros Hs. induction Hs as [|c s Hc Hs IH]; [done|]. cbn [length valid_from].
  rewrite (proj2 (rune_width_ascii c s)) by lia. cbn [take drop app]. by rewrite take_0, drop_0, IH.
Qed.

Lemma ascii_byte s : Forall (fun c => 0 <= c < 128) s -> Forall byte s.
Proof. intros Hs. eapply Forall_impl; [exact Hs|]. unfold byte. intros. lia. Qed.

Lemma event_names e : Forall (fun kf => ascii_name kf.1) (event_fields e).
Proof.
  destruct e; cbn [event_fields];
    [..|apply filled_Forall; unfold RecordAgentEvent_slots; repeat apply Forall_cons_2; [by apply (bool_decide_unpack _)..|apply Forall_nil_2]];
    unfold RecordExec_fields, RecordRequest_fields, RecordResponse_fields, RecordStdIO_fields, RecordPostgres_fields,
      RecordFileOp_fields, RecordTCPConnect_fields, identity_fields, omitempty;
    repeat first [apply Forall_app_2|apply Forall_cons_2|apply Forall_nil_2|case_match]; by apply (bool_decide_unpack _).
Qed.

(** The last field of a name. *)
Fixpoint last_field (k : string) (fields : list (string * field)) : option field :=
  match fields with
  | [] => None
  | (k', f) :: fields' =>
      match last_field k fields' with
      | Some f' => Some f'
      | None => if decide (str k = str k') then Some f else None
      end
  end.

Lemma last_member_field k fields l :
  members_are fields l -> Forall (fun kf => ascii_name kf.1) fields ->
  match last_field k fields with
  | Some f => exists v, field_value f v /\ last_member (str k) ((fun kv => (ToValidUTF8 kv.1, canon kv.2)) <$> l) = Some (canon v)
  | None => last_member (str k) ((fun kv => (ToValidUTF8 kv.1, canon kv.2)) <$> l) = None
  end.
Proof.
  induction 1 as [|[k' f] [k2 v] fields l [Hk Hf] Hm IH]; intros Hn; [done|]. apply Forall_cons in Hn as [Hn Hns].
  specialize (IH Hns). cbn [fst snd] in *. subst. cbn [last_field fmap list_fmap last_member fst snd]. rewrite (valid_ascii (str k')) by done.
  destruct (last_field k fields) as [f'|]; [destruct IH as (v' & ? & IH); rewrite IH; by exists v'|]. rewrite IH.
  case_decide; [by exists v|done].
Qed.

(** *** The line is read *)

(** The members of the map that was read are the fields of the event. *)
Definition fields_are (fields : list (string * field)) (m : members_of) : Prop := forall k,
  match last_field k fields with
  | Some f => exists v w, field_value f v /\ unmarshal (canon v) = Some w /\ member (str k) m = Some w
  | None => member (str k) m = None
  end.

(** What [parseJSONLRecord] makes of a record. *)
Definition display (endpoint : list Z) (now : Z) (m : members_of) : displayRecord :=
  let raw := encode (Obj m) in
  let def := endpointDefinitionFor endpoint in
  {| Endpoint := endpoint; Timestamp := eventTimestamp m now; SessionKey := fieldString m "session_key";
     Provider := (httpProviderModel endpoint m).1; Model := (httpProviderModel endpoint m).2;
     Summary := Summarize def m raw; Detail := renderEventDetail def raw |}.

Lemma UnmarshalRecord_line (endpoint ts : list Z) v u :
  text (canon (Obj [(str "endpoint", Str endpoint); (str "timestamp", Str ts); (str "event", v)])) u ->
  depth v <= maxNestingDepth - 1 ->
  UnmarshalRecord u =
  t ← UnmarshalTime (ToValidUTF8 ts); w ← unmarshal (canon v);
  Some {| Jsonl.Endpoint := ToValidUTF8 endpoint; Jsonl.Timestamp := t; Jsonl.Event := w |}.
Proof.
  intros Hu Hd. unfold UnmarshalRecord. rewrite (parse_text _ _ Hu).
  2:{ rewrite canon_depth. change maxNestingDepth with (1 + (maxNestingDepth - 1)). apply depth_obj; [done|]. by repeat constructor. }
  cbn [mbind option_bind canon].
  cbn [fmap list_fmap fst snd foldl]. rewrite !(valid_ascii (str _)) by (by apply (bool_decide_unpack _)).
  change (canon (Str endpoint)) with (Str (ToValidUTF8 endpoint)). change (canon (Str ts)) with (Str (ToValidUTF8 ts)).
  change (Some ?x ≫= ?f) with (f x). cbv beta.
  assert (forall r s, record_member r (str "endpoint", Str s) =
    Some {| Jsonl.Endpoint := s; Jsonl.Timestamp := Jsonl.Timestamp r; Jsonl.Event := Jsonl.Event r |}) as -> by done.
  change (Some ?x ≫= ?f) with (f x). cbv beta.
  assert (forall r s, record_member r (str "timestamp", Str s) = t ← UnmarshalTime s;
    Some {| Jsonl.Endpoint := Jsonl.Endpoint r; Jsonl.Timestamp := t; Jsonl.Event := Jsonl.Event r |}) as -> by done.
  destruct (UnmarshalTime (ToValidUTF8 ts)) as [t|]; [|done]. change (Some ?x ≫= ?f) with (f x). cbv beta.
  change (Some ?x ≫= ?f) with (f x). cbv beta.
  assert (forall r v, record_member r (str "event", v) = w ← unmarshal v;
    Some {| Jsonl.Endpoint := Jsonl.Endpoint r; Jsonl.Timestamp := Jsonl.Timestamp r; Jsonl.Event := w |}) as -> by done.
  by destruct (unmarshal (canon v)).
Qed.

Lemma line_parsed endpoint now e : event_ok e -> Forall byte endpoint -> is_Some (MarshalTime now) ->
  exists b m, Marshal {| Jsonl.Endpoint := endpoint; Jsonl.Timestamp := now; Jsonl.Event := e |} = Some b /\
    settled (Obj m) /\ fields_are (event_fields e) m /\
    parseJSONLRecord b = inr (display (ToValidUTF8 endpoint) now m).
Proof.
  intros He Hb [ts Hts]. pose proof (event_names e) as Hn.
  destruct (fields_members (event_fields e) He) as (l & Hl & Hx & Hdl); [eapply Forall_impl; [exact Hn|intros ? ?; by apply ascii_byte]|].
  destruct (time_ascii now ts Hts) as [_ Ha].
  assert (Forall (fun c => 0 <= c < 128) ts) as Hts' by (eapply Forall_impl; [exact Ha|]; intros ? [? ?]; split; lia).
  destruct (MarshalStruct_value _ l Hl) as (u & Hu & Htu).
  { inversion Hx as [| | | | |? _ Hx']; subst. eapply Forall_impl; [exact Hx'|]. intros kv [? Hkv]. by split; [|apply exportable_wf]. }
  pose proof (object_text [(str "endpoint", Str endpoint); (str "timestamp", Str ts); (str "event", Obj l)] [quote endpoint; quote ts; u]) as Hline.
  specialize (Hline ltac:(repeat (apply Forall_cons_2; [cbn [fst]; by apply ascii_byte, (bool_decide_unpack _)|]); apply Forall_nil_2)).
  specialize (Hline ltac:(apply Forall2_cons; split; [|apply Forall2_cons; split; [|by constructor]];
    apply (encode_text (Str _)); constructor; [done|by apply ascii_byte])).
  set (line := object _) in Hline.
  destruct (Unmarshal_encode (Obj l) Hx) as (w & _ & Hw & Hs & _); [lia|].
  pose proof Hw as Hw'. change (canon (Obj l)) with (Obj ((fun kv => (ToValidUTF8 kv.1, canon kv.2)) <$> l)) in Hw'.
  apply unmarshal_members in Hw' as (m & -> & Hm). exists line, m. split_and!.
  - unfold Marshal. cbn [Jsonl.Timestamp Jsonl.Event Jsonl.Endpoint]. rewrite Hts. cbn [mbind option_bind].
    rewrite Hu. cbn [mbind option_bind]. reflexivity.
  - done.
  - intros k. specialize (Hm (str k)). pose proof (last_member_field k _ l Hl Hn) as Hf.
    destruct (last_field k (event_fields e)) as [f|]; [destruct Hf as (v & Hv & Hf)|]; rewrite Hf in Hm; [|done].
    destruct Hm as (y & Hy & Hm). by exists v, y.
  - unfold parseJSONLRecord. rewrite (UnmarshalRecord_line _ _ _ _ Hline Hdl), (valid_ascii ts), (time_unmarshal now ts Hts) by done.
    cbn [mbind option_bind]. rewrite Hw. cbn [mbind option_bind Jsonl.Event Jsonl.Endpoint Jsonl.Timestamp]. rewrite (UnmarshalMap_settled m Hs).
    unfold display. by destruct (httpProviderModel (ToValidUTF8 endpoint) m).
Qed.

(** *** The fields on display *)

Lemma string_shown fields m k s :
  fields_are fields m -> last_field k fields = Some (String_ s) -> fieldString m k = ToValidUTF8 s.
Proof. intros Hm Hf. specialize (Hm k). rewrite Hf in Hm. destruct Hm as (v & w & -> & [= <-] & Hw). unfold fieldString. by rewrite Hw. Qed.

Lemma absent_shown fields m k : fields_are fields m -> last_field k fields = None -> fieldString m k = [].
Proof. intros Hm Hf. specialize (Hm k). rewrite Hf in Hm. unfold fieldString. by rewrite Hm. Qed.

Lemma time_shown fields m k t : fields_are fields m -> last_field k fields = Some (Time t) ->
  exists s, MarshalTime t = Some s /\ fieldString m k = s.
Proof.
  intros Hm Hf. specialize (Hm k). rewrite Hf in Hm. destruct Hm as (v & w & (s & Hs & ->) & [= <-] & Hw). exists s. split; [done|].
  unfold fieldString. rewrite Hw. apply valid_ascii. destruct (time_ascii t s Hs) as [_ Ha]. eapply Forall_impl; [exact Ha|].
  intros ? [? ?]. split; lia.
Qed.

Lemma int_shown fields m k n : fields_are fields m -> last_field k fields = Some (Int n) -> - 10 ^ 6 < n < 10 ^ 6 ->
  field_v m k = FormatInt n.
Proof.
  intros Hm Hf Hn. specialize (Hm k). rewrite Hf in Hm. destruct Hm as (v & w & -> & Hu & Hw). unfold field_v. rewrite Hw.
  cbn [canon unmarshal] in Hu. rewrite float_exact in Hu by lia. injection Hu as <-. by apply float_v_int.
Qed.

Lemma EncodeToString_ascii b : Forall (fun c => 0 <= c < 128) (EncodeToString b).
Proof.
  assert (Forall (fun c => 0 <= c < 128) b64_alphabet) as Ha by (by apply (bool_decide_unpack _)).
  assert (forall v i, 0 <= b64_char (sextet v i) < 128) as Hc.
  { intros v i. rewrite Forall_forall in Ha. apply (Ha (b64_char (sextet v i))).
    eapply list_elem_of_lookup_2, b64_char_lookup, sextet_range. }
  revert b. fix IH 1. intros [|x [|y [|z b]]]; cbn [EncodeToString]; [constructor|..];
    repeat (apply Forall_cons_2; [first [apply Hc|lia]|]); [constructor..|]. apply IH.
Qed.

(** What was a slice of bytes. *)
Definition bytes_value (empty : bool) (b : list Z) : json :=
  match b with [] => if empty then Str [] else Null | _ => Str (EncodeToString b) end.

Lemma bytes_shown fields m k empty b :
  fields_are fields m -> last_field k fields = Some (Bytes empty b) ->
  member (str k) m = Some (bytes_value empty b) /\ fieldString m k = EncodeToString b.
Proof.
  intros Hm Hf. specialize (Hm k). rewrite Hf in Hm. destruct Hm as (v & w & -> & Hu & Hw). unfold fieldString. rewrite Hw.
  assert (w = bytes_value empty b) as ->; [|by destruct b; [destruct empty|]].
  destruct b as [|c b]; [destruct empty; by injection Hu|]. cbn [canon unmarshal] in Hu.
  rewrite valid_ascii in Hu by apply EncodeToString_ascii. by injection Hu.
Qed.

(** *** What an event says *)

Definition event_time (e : event) : Z :=
  match e with
  | ExecEvent r => rex_Timestamp r
  | RequestEvent _ r => rec_Timestamp (rrq_id r)
  | ResponseEvent _ r => rec_Timestamp (rrp_id r)
  | StdIOEvent r => rec_Timestamp (rio_id r)
  | PostgresEvent _ r => rec_Timestamp (rpg_id r)
  | FileOpEvent r => rec_Timestamp (rfo_id r)
  | TCPConnectEvent r => rec_Timestamp (rtc_id r)
  | AgentEvent r => Receiver.rae_Timestamp r
  end.

Definition event_session (e : event) : list Z :=
  match e with
  | RequestEvent _ r => rrq_SessionKey r
  | ResponseEvent _ r => rrp_SessionKey r
  | _ => []
  end.

Definition event_summary (e : event) : list Z :=
  match e with
  | ExecEvent r =>
      let args := utf8_TrimSpace (ToValidUTF8 (rex_Args r)) in
      if decide (args <> []) then args else ToValidUTF8 (rex_Comm r)
  | RequestEvent _ r => utf8_TrimSpace (ToValidUTF8 (rrq_Method r) ++ str " " ++ ToValidUTF8 (rrq_URL r))
  | ResponseEvent _ r =>
      str "status=" ++ FormatInt (rrp_StatusCode r) ++ str " protocol=" ++ ToValidUTF8 (rrp_Protocol r) ++
      str " comm=" ++ ToValidUTF8 (rrp_Comm r)
  | StdIOEvent r => utf8_TrimSpace (ToValidUTF8 (rio_MessageType r) ++ str " " ++ ToValidUTF8 (rio_Method r))
  | PostgresEvent _ r => utf8_TrimSpace (ToValidUTF8 (rpg_Comm r) ++ str " msg=" ++ ToValidUTF8 (rpg_MsgType r))
  | FileOpEvent r =>
      let op := ToValidUTF8 (str (rfo_Op r)) in
      let path := ToValidUTF8 (rfo_Path r) in
      let newPath := ToValidUTF8 (rfo_NewPath r) in
      if decide (newPath <> []) then op ++ str " " ++ path ++ str " -> " ++ newPath
      else utf8_TrimSpace (op ++ str " " ++ path)
  | TCPConnectEvent r =>
      ToValidUTF8 (rtc_Comm r) ++ str " -> " ++ ToValidUTF8 (rtc_TargetAddr r) ++ str ":" ++ FormatInt (rtc_TargetPort r)
  | AgentEvent r => utf8_TrimSpace (ToValidUTF8 (Receiver.rae_Tool r) ++ str " " ++ ToValidUTF8 (Receiver.rae_EventName r))
  end.

(** Numbers of the summary are printed in full. *)
Definition event_small (e : event) : Prop :=
  match e with
  | ResponseEvent _ r => - 10 ^ 6 < rrp_StatusCode r < 10 ^ 6
  | TCPConnectEvent r => 0 <= rtc_TargetPort r < 65536
  | _ => True
  end.

Definition shows (e : event) (d : displayRecord) : Prop :=
  Endpoint d = path_of e /\ Timestamp d = event_time e /\ SessionKey d = ToValidUTF8 (event_session e) /\
  Summary d = event_summary e.

Lemma last_field_none k fields : Forall (fun kf => str kf.1 <> str k) fields -> last_field k fields = None.
Proof. induction 1 as [|[k' f] fields Hk Hf IH]; [done|]. cbn [last_field]. by rewrite IH, decide_False. Qed.

(** A field of a structure whose names are different. *)
Lemma filled_field (slots : list slot) k (z : bool) (f : field) :
  NoDup ((fun s : slot => str s.2.1) <$> slots) -> (z, (k, f)) ∈ slots -> last_field k (filled slots) = if z then None else Some f.
Proof.
  induction slots as [|[z' [k' f']] slots IH]; intros Hn Hin; [set_solver|]. cbn [fmap list_fmap fst snd] in Hn. apply NoDup_cons in Hn as [Hk Hn].
  assert (forall x, Forall (fun kf => str kf.1 <> str x) (filled slots) \/ str x ∈ ((fun s : slot => str s.2.1) <$> slots)) as Hx.
  { intros x. destruct (decide (str x ∈ (fun s : slot => str s.2.1) <$> slots)) as [|Hx]; [by right|left]. apply filled_Forall, Forall_forall.
    intros s Hs E. apply Hx, list_elem_of_fmap. by exists s. }
  apply elem_of_cons in Hin as [[= <- <- <-]|Hin].
  - destruct (Hx k) as [Hk'|]; [|done]. unfold filled. cbn [omap list_omap fst snd]. fold (filled slots). apply last_field_none in Hk'.
    destruct z; [done|]. cbn [last_field]. rewrite Hk'. by rewrite decide_True.
  - specialize (IH Hn Hin). unfold filled. cbn [omap list_omap fst snd]. fold (filled slots). destruct z'; [done|]. cbn [last_field]. rewrite IH.
    destruct z; [|done]. rewrite decide_False; [done|]. intros E. apply Hk. rewrite <- E. apply list_elem_of_fmap. by exists (true, (k, f)).
Qed.

Lemma agent_names r : NoDup ((fun s : slot => str s.2.1) <$> RecordAgentEvent_slots r).
Proof. apply (bool_decide_unpack _). vm_compute. done. Qed.

Lemma agent_field r k (z : bool) (f : field) : (z, (k, f)) ∈ RecordAgentEvent_slots r -> last_field k (RecordAgentEvent_fields r) = if z then None else Some f.
Proof. apply filled_field, agent_names. Qed.

Lemma agent_absent r k : str k ∉ ((fun s : slot => str s.2.1) <$> RecordAgentEvent_slots r) -> last_field k (RecordAgentEvent_fields r) = None.
Proof.
  intros Hk. apply last_field_none, filled_Forall, Forall_forall. intros s Hs E. apply Hk, list_elem_of_fmap. by exists s.
Qed.

Lemma event_time_field e : last_field "timestamp" (event_fields e) = Some (Time (event_time e)).
Proof.
  destruct e as [r|empty r|empty r|r|empty r|r|r|r]; try reflexivity; cbn [event_fields].
  - unfold RecordFileOp_fields, omitempty. by repeat case_match.
  - apply (agent_field r "timestamp" false). by left.
Qed.

Lemma shown_time e m now : fields_are (event_fields e) m -> eventTimestamp m now = event_time e.
Proof.
  intros Hm. destruct (time_shown _ _ _ _ Hm (event_time_field e)) as (s & Hs & E). unfold eventTimestamp. rewrite E.
  rewrite decide_False by apply (time_ascii _ _ Hs). by rewrite (time_parse _ _ Hs).
Qed.

Lemma shown_session e m : fields_are (event_fields e) m -> fieldString m "session_key" = ToValidUTF8 (event_session e).
Proof.
  intros Hm. destruct e as [r|empty r|empty r|r|empty r|r|r|r]; [|by eapply string_shown; [exact Hm|reflexivity]..| | | | |];
    apply (absent_shown _ _ _ Hm); try reflexivity; cbn [event_fields].
  - unfold RecordFileOp_fields, omitempty. by repeat case_match.
  - apply agent_absent, (bool_decide_unpack _). vm_compute. done.
Qed.

(** A field by its name in the list of fields. *)
Ltac shown Hm := eapply string_shown; [exact Hm|reflexivity].

Lemma shown_file_op r m : fields_are (event_fields (FileOpEvent r)) m ->
  fieldString m "op" = ToValidUTF8 (str (rfo_Op r)) /\ fieldString m "path" = ToValidUTF8 (rfo_Path r) /\
  fieldString m "new_path" = ToValidUTF8 (rfo_NewPath r).
Proof.
  intros Hm. pose proof Hm as Hm'. cbn [event_fields] in Hm'. unfold RecordFileOp_fields, omitempty in Hm'.
  assert (last_field "op" (event_fields (FileOpEvent r)) = Some (String_ (str (rfo_Op r)))) as E1
    by (cbn [event_fields]; unfold RecordFileOp_fields, omitempty; by repeat case_match).
  assert (last_field "path" (event_fields (FileOpEvent r)) = Some (String_ (rfo_Path r))) as E2
    by (cbn [event_fields]; unfold RecordFileOp_fields, omitempty; by repeat case_match).
  split_and!; [by apply (string_shown _ _ _ _ Hm)..|]. destruct (decide (rfo_NewPath r = [])) as [E|E].
  - rewrite E. apply (absent_shown _ _ _ Hm). cbn [event_fields]. unfold RecordFileOp_fields, omitempty.
    rewrite (bool_decide_eq_true_2 _ E). by repeat case_match.
  - apply (string_shown _ _ _ _ Hm). cbn [event_fields]. unfold RecordFileOp_fields, omitempty.
    rewrite (bool_decide_eq_false_2 _ E). by repeat case_match.
Qed.

Lemma shown_summary e m raw : fields_are (event_fields e) m -> event_small e ->
  Summarize (endpointDefinitionFor (path_of e)) m raw = event_summary e.
Proof.
  intros Hm Hn. destruct e as [r|empty r|empty r|r|empty r|r|r|r]; cbn [path_of event_summary event_small] in *;
    [change (summarizeExec m raw = event_summary (ExecEvent r)); unfold summarizeExec
    |change (summarizeHTTPRequest m raw = event_summary (RequestEvent empty r)); unfold summarizeHTTPRequest
    |change (summarizeHTTPResponse m raw = event_summary (ResponseEvent empty r)); unfold summarizeHTTPResponse
    |change (summarizeMCPStdIO m raw = event_summary (StdIOEvent r)); unfold summarizeMCPStdIO
    |change (summarizePostgres m raw = event_summary (PostgresEvent empty r)); unfold summarizePostgres
    |change (summarizeFileOp m raw = event_summary (FileOpEvent r)); unfold summarizeFileOp
    |change (summarizeTCPConnect m raw = event_summary (TCPConnectEvent r)); unfold summarizeTCPConnect
    |change (summarizeAgentEvent m raw = event_summary (AgentEvent r)); unfold summarizeAgentEvent]; cbn [event_summary].
  - assert (fieldString m "args" = ToValidUTF8 (rex_Args r)) as -> by shown Hm.
    by assert (fieldString m "comm" = ToValidUTF8 (rex_Comm r)) as -> by shown Hm.
  - assert (fieldString m "method" = ToValidUTF8 (rrq_Method r)) as -> by shown Hm.
    by assert (fieldString m "url" = ToValidUTF8 (rrq_URL r)) as -> by shown Hm.
  - assert (fieldString m "protocol" = ToValidUTF8 (rrp_Protocol r)) as -> by shown Hm.
    assert (fieldString m "comm" = ToValidUTF8 (rrp_Comm r)) as -> by shown Hm.
    by rewrite (int_shown _ _ "status_code" _ Hm eq_refl Hn).
  - assert (fieldString m "message_type" = ToValidUTF8 (rio_MessageType r)) as -> by shown Hm.
    by assert (fieldString m "method" = ToValidUTF8 (rio_Method r)) as -> by shown Hm.
  - assert (fieldString m "comm" = ToValidUTF8 (rpg_Comm r)) as -> by shown Hm.
    by assert (fieldString m "msg_type" = ToValidUTF8 (rpg_MsgType r)) as -> by shown Hm.
  - by destruct (shown_file_op r m Hm) as (-> & -> & ->).
  - assert (fieldString m "comm" = ToValidUTF8 (rtc_Comm r)) as -> by shown Hm.
    assert (fieldString m "target_addr" = ToValidUTF8 (rtc_TargetAddr r)) as -> by shown Hm.
    by rewrite (int_shown _ _ "target_port" _ Hm eq_refl ltac:(lia)).
  - assert (fieldString m "tool" = ToValidUTF8 (Receiver.rae_Tool r)) as ->
      by (eapply string_shown; [exact Hm|apply (agent_field r "tool" false); right; by left]).
    by assert (fieldString m "event_name" = ToValidUTF8 (Receiver.rae_EventName r)) as ->
      by (eapply string_shown; [exact Hm|apply (agent_field r "event_name" false); do 2 right; by left]).
Qed.

Lemma path_ascii e : Forall (fun c => 0 <= c < 128) (path_of e).
Proof. destruct e; by apply (bool_decide_unpack _). Qed.

(** An event that is exported is shown as what it is. *)
Lemma event_shown e now : event_ok e -> event_small e -> is_Some (MarshalTime now) ->
  exists b m, Marshal {| Jsonl.Endpoint := path_of e; Jsonl.Timestamp := now; Jsonl.Event := e |} = Some b /\
    settled (Obj m) /\ fields_are (event_fields e) m /\
    parseJSONLRecord b = inr (display (path_of e) now m) /\ shows e (display (path_of e) now m).
Proof.
  intros He Hs Hnow. destruct (line_parsed (path_of e) now e He) as (b & m & Hb & Hm & Hf & Hd);
    [apply ascii_byte, path_ascii|done|]. rewrite (valid_ascii _ (path_ascii e)) in Hd. exists b, m. split_and!; [done..|]. unfold shows. split_and!;
    [done|by apply shown_time|by apply shown_session|by apply shown_summary].
Qed.

(** ** The run *)

(** A record of the sink: the event under its path. *)
Definition record_ok (r : @Jsonl.JSONLRecord event) : Prop :=
  Jsonl.Endpoint r = path_of (Jsonl.Event r) /\ event_ok (Jsonl.Event r) /\ event_small (Jsonl.Event r) /\
  is_Some (MarshalTime (Jsonl.Timestamp r)).

Lemma record_shown r : record_ok r ->
  exists d, shown_as Marshal parseJSONLRecord r = Some d /\ shows (Jsonl.Event r) d.
Proof.
  intros (Hp & He & Hs & Ht). destruct r as [endpoint now e]. cbn in *. subst.
  destruct (event_shown e now He Hs Ht) as (b & m & Hb & _ & _ & Hd & Hsh). eexists. split; [|exact Hsh].
  unfold shown_as. rewrite Hb. cbn. by rewrite Hd.
Qed.

Lemma sublist_Forall {A} (P : A -> Prop) (l k : list A) : sublist l k -> Forall P k -> Forall P l.
Proof. induction 1; rewrite ?Forall_cons; naive_solver. Qed.

Lemma records_shown rs : Forall record_ok rs -> Forall2 (fun r d => shows (Jsonl.Event r) d) rs (omap (shown_as Marshal parseJSONLRecord) rs).
Proof.
  induction 1 as [|r rs Hr Hrs IH]; [constructor|]. destruct (record_shown r Hr) as (d & Hd & Hsh). cbn. rewrite Hd. by constructor.
Qed.

(** C3. From the sink to the screen.  Batches of events are written to the file, each
    under its path; some writes may fail.  The reader looks at the file while it grows,
    at any times, and once more at the end; its messages are handled among keys and
    other messages.  Then every event that was written is a record with the endpoint,
    the time, the session key and the summary of the event, and each tab has the newest
    4096 of its records, in the order of the times of the events and, at one time, of
    their arrival; when no write failed all events were written. *)
Theorem exported_events_shown `{Tabs.Viewport} horizontalFrame chromeHeight title wrap accepts batches ok s c obs msgs v m :
  Forall record_ok (batch_records batches) ->
  write_batches Marshal accepts batches open_sink [] = (ok, (s, c)) ->
  observed [] obs c -> last obs = Some (Tail.Size (length c), inr c) ->
  omap (fun msg => match msg with Tabs.streamMsg msg => Some msg | _ => None end) msgs =
    Tail.streamFile parseJSONLRecord ((fun o => (o, None)) <$> obs) Tail.start_tail ->
  Tabs.run_model horizontalFrame chromeHeight title wrap msgs (Tabs.start_model v) = Some m ->
  exists rs ds, sublist rs (batch_records batches) /\ (ok = true -> rs = batch_records batches) /\
  Forall2 (fun r d => shows (Jsonl.Event r) d) rs ds /\
  forall tab, exists all, all ≡ₚ tab_records tab ds /\ StronglySorted time_le all /\
    (forall t, filter (fun r => Timestamp r = t) all = filter (fun r => Timestamp r = t) (tab_records tab ds)) /\
    Tabs.records_of m tab = newest (Z.to_nat Tabs.maxEventsPerTab) all.
Proof.
  intros Hok Hw Ho Hl Hmsgs Hrun.
  destruct (records_on_display horizontalFrame chromeHeight title wrap Marshal accepts parseJSONLRecord batches ok s c obs msgs v m
    Hw Ho Hl Hmsgs Hrun) as (rs & Hs & Hall & Htabs).
  exists rs, (omap (shown_as Marshal parseJSONLRecord) rs). split_and!; [done..| |done].
  apply records_shown. by eapply sublist_Forall.
Qed.

(** ** Exchanges *)

Definition request_of (k : list Z) (e : event) : Prop := exists empty r, e = RequestEvent empty r /\ rrq_SessionKey r = k.
Definition response_of (k : list Z) (e : event) : Prop := exists empty r, e = ResponseEvent empty r /\ rrp_SessionKey r = k.

(** A request and its response, with nothing of the session in between. *)
Definition exchange (es : list event) (i j : nat) : Prop :=
  exists k rq rs, k <> [] /\ (i < j)%nat /\ es !! i = Some rq /\ es !! j = Some rs /\ request_of k rq /\ response_of k rs /\
    forall n e, (i < n < j)%nat -> es !! n = Some e -> ~ request_of k e /\ ~ response_of k e.

Lemma shows_request k e d : shows e d -> ToValidUTF8 (event_session e) = event_session e ->
  is_request k d <-> request_of k e.
Proof.
  intros (He & _ & Hk & _) Hv. unfold is_request, request_of. rewrite He, Hk, Hv. split.
  - intros [Hp <-]. destruct e as [r|empty r|empty r|r|empty r|r|r|r]; try done. by exists empty, r.
  - by intros (empty & r & -> & <-).
Qed.

Lemma shows_response k e d : shows e d -> ToValidUTF8 (event_session e) = event_session e ->
  is_response k d <-> response_of k e.
Proof.
  intros (He & _ & Hk & _) Hv. unfold is_response, response_of. rewrite He, Hk, Hv. split.
  - intros [Hp <-]. destruct e as [r|empty r|empty r|r|empty r|r|r|r]; try done. by exists empty, r.
  - by intros (empty & r & -> & <-).
Qed.

Lemma matched_exchange es ds i j :
  Forall2 shows es ds -> Forall (fun e => ToValidUTF8 (event_session e) = event_session e) es ->
  matched ds i j <-> exchange es i j.
Proof.
  intros Hsh Hv. rewrite Forall_lookup in Hv. split.
  - intros (k & rq & rs & Hk & Hij & Hi & Hj & Hrq & Hrs & Hb).
    destruct (Forall2_lookup_r _ _ _ _ _ Hsh Hi) as (erq & Hei & Hsi), (Forall2_lookup_r _ _ _ _ _ Hsh Hj) as (ers & Hej & Hsj).
    exists k, erq, ers. split_and!; try done; [by eapply shows_request; eauto|by eapply shows_response; eauto|].
    intros n e Hn He. destruct (Forall2_lookup_l _ _ _ _ _ Hsh He) as (d & Hd & Hsd). destruct (Hb n d Hn Hd) as [H3 H4].
    split; intros Hx; [apply H3; by eapply shows_request; eauto|apply H4; by eapply shows_response; eauto].
  - intros (k & erq & ers & Hk & Hij & Hei & Hej & Hrq & Hrs & Hb).
    destruct (Forall2_lookup_l _ _ _ _ _ Hsh Hei) as (rq & Hi & Hsi), (Forall2_lookup_l _ _ _ _ _ Hsh Hej) as (rs & Hj & Hsj).
    exists k, rq, rs. split_and!; try done; [by eapply shows_request; eauto|by eapply shows_response; eauto|].
    intros n d Hn Hd. destruct (Forall2_lookup_r _ _ _ _ _ Hsh Hd) as (e & He & Hsd). destruct (Hb n e Hn He) as [H3 H4].
    split; intros Hx; [apply H3; by eapply shows_request; eauto|apply H4; by eapply shows_response; eauto].
Qed.

(** C31. Exchanges are paired.  For events that were exported and read in their order,
    the interface draws a pair between two records exactly when they are a request and
    a response of one session with no request or response of the session in between. *)
Theorem exchanges_paired rs pairs mx :
  Forall record_ok rs -> Forall (fun r => ToValidUTF8 (event_session (Jsonl.Event r)) = event_session (Jsonl.Event r)) rs ->
  buildSessionPairs (omap (shown_as Marshal parseJSONLRecord) rs) = (pairs, mx) ->
  forall i j, (exists p, p ∈ pairs /\ Start p = i /\ End_ p = j) <-> exchange (Jsonl.Event <$> rs) i j.
Proof.
  intros Hok Hv Hb i j. rewrite <- (proj1 (pairs_exact _ _ _ Hb) i j). apply matched_exchange.
  - apply Forall2_fmap_l. by apply records_shown.
  - by apply Forall_fmap.
Qed.

(** ** Bodies *)

Definition event_body (e : event) : option (bool * list Z) :=
  match e with
  | RequestEvent empty r => Some (empty, rrq_Body r)
  | ResponseEvent empty r => Some (empty, rrp_Body r)
  | _ => None
  end.

(** The body on display. *)
Definition body_shown (empty : bool) (body : list Z) : json :=
  if decide (body = [] /\ empty = false) then Null
  else if isPrintableUTF8 body then Str body
  else Str (str "<binary body, " ++ FormatInt (Z.of_nat (length body)) ++ str " bytes>").

Lemma body_field e empty body : event_body e = Some (empty, body) -> last_field "body" (event_fields e) = Some (Bytes empty body).
Proof. intros Hb. destruct e as [r|empty' r|empty' r|r|empty' r|r|r|r]; try done; injection Hb as -> <-; reflexivity. Qed.

Lemma body_transformed e empty body : event_body e = Some (empty, body) ->
  TransformDetail (endpointDefinitionFor (path_of e)) = Some rewriteHTTPBodyForDisplay.
Proof. by destruct e. Qed.

Lemma FormatInt_byte n : Forall byte (FormatInt n).
Proof.
  eapply Forall_impl; [by eapply number_numeric, FormatInt_literal|]. unfold numeric, byte, is_digit.
  intros c [Hc|Hc]; [rewrite andb_true_iff in Hc; lia|set_unfold; lia].
Qed.

Lemma body_shown_wf empty body : Forall byte body -> wf (body_shown empty body).
Proof.
  intros Hb. unfold body_shown. case_decide; [constructor|]. destruct (isPrintableUTF8 body); constructor; [done|].
  repeat apply Forall_app_2; [by apply ascii_byte, (bool_decide_unpack _)|apply FormatInt_byte|by apply ascii_byte, (bool_decide_unpack _)].
Qed.

Lemma body_rewritten m empty body :
  settled (Obj m) -> Forall byte body -> member (str "body") m = Some (bytes_value empty body) ->
  exists m', rewriteHTTPBodyForDisplay (encode (Obj m)) = encode (Obj m') /\ wf (Obj m') /\ depth (Obj m') <= maxNestingDepth /\
    forall k, member k m' = if decide (k = str "body") then Some (body_shown empty body) else member k m.
Proof.
  intros Hs Hb Hm. unfold rewriteHTTPBodyForDisplay. rewrite (UnmarshalMap_settled m Hs), Hm. unfold body_shown.
  destruct (decide (body = [] /\ empty = false)) as [[-> ->]|He].
  { exists m. split; [done|]. split; [by apply settled_wf|]. split; [apply Hs|]. intros k. by case_decide as Hk; [rewrite Hk|]. }
  assert (bytes_value empty body = Str (EncodeToString body)) as ->.
  { destruct body; [|done]. destruct empty; [done|]. by destruct He. }
  rewrite (DecodeString_encode body Hb). eexists. split; [reflexivity|].
  split_and!.
  - pose proof (settled_wf _ Hs) as Hw. inversion Hw as [| | | | |? Hl]; subst. constructor. apply insert_member_Forall; [|done].
    split; [by apply ascii_byte, (bool_decide_unpack _)|]. pose proof (body_shown_wf empty body Hb) as Hw'. unfold body_shown in Hw'.
    rewrite decide_False in Hw' by done. by destruct (isPrintableUTF8 body).
  - destruct Hs as [_ Hd]. change maxNestingDepth with (1 + (maxNestingDepth - 1)) in *. rewrite depth_obj in Hd |- * by done.
    apply insert_member_Forall; [|done]. by destruct (isPrintableUTF8 body).
  - intros k. rewrite member_insert. case_decide; [|done]. by destruct (isPrintableUTF8 body).
Qed.

(** C32. The body of a request or response is shown as it was captured.  The detail of
    the record is, apart from white space, the JSON of the event with every member as
    it was exported, and the body decoded where it is printable text, or else with its
    length. *)
Theorem bodies_shown e now empty body :
  event_ok e -> event_small e -> is_Some (MarshalTime now) -> event_body e = Some (empty, body) -> Forall byte body ->
  exists b d m m', Marshal {| Jsonl.Endpoint := path_of e; Jsonl.Timestamp := now; Jsonl.Event := e |} = Some b /\
    parseJSONLRecord b = inr d /\ fields_are (event_fields e) m /\
    compact false (Detail d) = Some (encode (Obj m')) /\
    forall k, member k m' = if decide (k = str "body") then Some (body_shown empty body) else member k m.
Proof.
  intros He Hs Hnow Hb Hbytes. destruct (event_shown e now He Hs Hnow) as (b & m & Hmar & Hset & Hf & Hd & _).
  destruct (bytes_shown _ _ _ _ _ Hf (body_field _ _ _ Hb)) as [Hm _].
  destruct (body_rewritten m empty body Hset Hbytes Hm) as (m' & Hr & Hwf & Hdm & Hm').
  exists b, (display (path_of e) now m), m, m'. split_and!; try done. cbn [display Detail]. unfold renderEventDetail.
  rewrite (body_transformed _ _ _ Hb), Hr. by destruct (Indent_encode _ Hwf Hdm) as (t & -> & Ht).
Qed.

(** ** Provider and model *)

(** The model a body names. *)
Definition body_model (body : list Z) : list Z :=
  match body with
  | [] => []
  | _ => match UnmarshalMap body with Some m => fieldString m "model" | None => [] end
  end.

(** The providers and their domains. *)
Definition providers : list (string * string) :=
  [("openai", "openai.com"); ("anthropic", "anthropic.com"); ("groq", "groq.com"); ("mistral", "mistral.ai");
   ("gemini", "generativelanguage.googleapis.com"); ("ollama", "ollama.com")]%string.

(** The host is the machine itself, or the domain of the provider or below it. *)
Definition provider_of (host : list Z) (p : list Z) : Prop :=
  (p = str "local" /\ host ∈ (str <$> ["localhost"; "127.0.0.1"; "::1"]%string)) \/
  exists name domain, (name, domain) ∈ providers /\ p = str name /\ (host = str domain \/ exists sub, host = sub ++ 46 :: str domain).

Lemma in_domain_suffix host domain : in_domain host domain = true <-> 46 :: str domain `suffix_of` 46 :: host.
Proof.
  unfold in_domain. rewrite orb_true_iff, bool_decide_eq_true, HasSuffix_true. split.
  - intros [->|[t ->]]; [done|]. by exists (46 :: t).
  - intros [[|x t] Ht]; [left; by injection Ht|right]. exists t. by injection Ht.
Qed.


(** No domain is below another. *)
Lemma providers_apart : Forall (fun p => Forall (fun q => 46 :: str p.2 `suffix_of` 46 :: str q.2 -> p = q) providers) providers.
Proof. by apply (bool_decide_unpack _); vm_compute. Qed.

Lemma provider_unique host p q : p ∈ providers -> q ∈ providers -> in_domain host p.2 = true -> in_domain host q.2 = true -> p = q.
Proof.
  intros Hp Hq H3%in_domain_suffix H4%in_domain_suffix. pose proof providers_apart as Ha. rewrite Forall_forall in Ha.
  destruct (suffix_weak_total _ _ _ H3 H4) as [Hs|Hs].
  - pose proof (Ha p Hp) as Hx. rewrite Forall_forall in Hx. by apply Hx.
  - pose proof (Ha q Hq) as Hx. rewrite Forall_forall in Hx. symmetry. by apply Hx.
Qed.

Definition local_hosts : list (list Z) := str <$> ["localhost"; "127.0.0.1"; "::1"]%string.

Lemma local_apart : Forall (fun h => Forall (fun q => in_domain h q.2 = false) providers) local_hosts.
Proof. by apply (bool_decide_unpack _); vm_compute. Qed.

(** The tests of [providerFromURL] in a table. *)
Lemma providerFromURL_table raw hostname path : url_Parse raw = Some (hostname, path) ->
  providerFromURL raw =
    if decide (lower hostname ∈ local_hosts) then str "local"
    else match list_find (fun q => in_domain (lower hostname) q.2 = true) providers with Some (_, q) => str q.1 | None => [] end.
Proof.
  intros Hu. unfold providerFromURL. rewrite Hu. set (host := lower hostname). clearbody host.
  assert (bool_decide (host = str "localhost") || bool_decide (host = str "127.0.0.1") || bool_decide (host = str "::1") =
    bool_decide (host ∈ local_hosts)) as ->.
  { apply eq_true_iff_eq. rewrite !orb_true_iff, !bool_decide_eq_true. unfold local_hosts. cbn [fmap list_fmap].
    rewrite !elem_of_cons, elem_of_nil. tauto. }
  destruct (decide (host ∈ local_hosts)) as [Hl|Hl]; [by rewrite bool_decide_eq_true_2|rewrite bool_decide_eq_false_2 by done].
  unfold providers. cbn [list_find snd].
  repeat match goal with |- context [in_domain host ?d] => destruct (in_domain host d); [done|] end. done.
Qed.

Lemma provider_exact raw hostname path p : url_Parse raw = Some (hostname, path) -> p <> [] ->
  providerFromURL raw = p <-> provider_of (lower hostname) p.
Proof.
  intros Hu Hp. rewrite (providerFromURL_table raw _ _ Hu). set (host := lower hostname). clearbody host. unfold provider_of.
  fold local_hosts. pose proof local_apart as Ha. rewrite Forall_forall in Ha.
  assert (forall name domain, (name, domain) ∈ providers -> (host = str domain \/ exists sub, host = sub ++ 46 :: str domain) ->
    in_domain host domain = true) as Hd.
  { intros name domain _ Hh. unfold in_domain. rewrite orb_true_iff, bool_decide_eq_true, HasSuffix_true. done. }
  destruct (decide (host ∈ local_hosts)) as [Hl|Hl].
  - split; [intros <-; by left|]. intros [[-> _]|(name & domain & Hin & -> & Hh)]; [done|].
    specialize (Ha _ Hl). rewrite Forall_forall in Ha. specialize (Ha _ Hin). cbn in Ha. by rewrite (Hd _ _ Hin Hh) in Ha.
  - destruct (list_find _ providers) as [[i [name domain]]|] eqn:E.
    + apply list_find_Some in E as (Hi & Hin & _). apply list_elem_of_lookup_2 in Hi. cbn [fst snd] in *. split.
      * intros <-. right. exists name, domain. split_and!; [done..|]. unfold in_domain in Hin.
        by rewrite orb_true_iff, bool_decide_eq_true, HasSuffix_true in Hin.
      * intros [[_ ?]|(n2 & d2 & Hin2 & -> & Hh)]; [done|]. pose proof (Hd _ _ Hin2 Hh) as Hd2.
        by injection (provider_unique host (name, domain) (n2, d2) Hi Hin2 Hin Hd2) as -> ->.
    + split; [intros <-; done|]. intros [[_ ?]|(name & domain & Hin & -> & Hh)]; [done|].
      apply list_find_None in E. rewrite Forall_forall in E. by destruct (E _ Hin (Hd _ _ Hin Hh)).
Qed.

Lemma model_of_body e m empty body : fields_are (event_fields e) m -> Forall byte body ->
  last_field "body" (event_fields e) = Some (Bytes empty body) -> modelFromHTTPEvent m = body_model body.
Proof.
  intros Hf Hb Hl. destruct (bytes_shown _ _ _ _ _ Hf Hl) as [_ E]. unfold modelFromHTTPEvent, body_model. rewrite E.
  destruct body as [|c l] eqn:Er; [done|]. rewrite decide_False by (by destruct l as [|? [|? ?]]).
  by rewrite (DecodeString_encode _ Hb).
Qed.

(** The provider and the model of a request.  The model is the one the captured
    body names, or for Gemini the one in the path of the URL; without a model nothing is
    shown.  The provider is shown exactly when the host of the URL is its domain or below
    it, or is the machine itself. *)
Theorem provider_model_shown empty r now :
  event_ok (RequestEvent empty r) -> is_Some (MarshalTime now) -> Forall byte (rrq_Body r) ->
  let e := RequestEvent empty r in let url := ToValidUTF8 (rrq_URL r) in
  exists b d, Marshal {| Jsonl.Endpoint := path_of e; Jsonl.Timestamp := now; Jsonl.Event := e |} = Some b /\
    parseJSONLRecord b = inr d /\
    Model d = (if decide (body_model (rrq_Body r) <> []) then body_model (rrq_Body r)
               else if decide (providerFromURL url = str "gemini") then geminiModelFromURL url else []) /\
    (Model d = [] -> Provider d = []) /\
    forall hostname path p, Model d <> [] -> p <> [] -> url_Parse url = Some (hostname, path) ->
      Provider d = p <-> provider_of (lower hostname) p.
Proof.
  intros He Hnow Hb e url. destruct (event_shown e now He I Hnow) as (b & m & Hmar & _ & Hf & Hd & _).
  exists b, (display (path_of e) now m). assert (fieldString m "url" = url) as Hurl by (eapply string_shown; [exact Hf|reflexivity]).
  pose proof (model_of_body e m _ _ Hf Hb eq_refl) as Hmod.
  cbn [display Model Provider]. unfold httpProviderModel. rewrite decide_False by (intros [Hx _]; by apply Hx).
  rewrite Hurl, Hmod. set (model := body_model (rrq_Body r)). split_and!; [done..| | |].
  - repeat (case_decide; cbn [fst snd]); naive_solver.
  - repeat (case_decide; cbn [fst snd]); naive_solver.
  - intros hostname path p Hm Hp Hu. rewrite <- (provider_exact url hostname path p Hu Hp).
    revert Hm. repeat (case_decide; cbn [fst snd]); naive_solver.
Qed.
End Shown.

(** ** Events that are exported *)
Section Fields.
Context `{TextLaws} `{FloatLaws}.

Lemma ok_string k s : Forall byte s -> field_ok (k, String_ s).
Proof. intros Hs. exists (Str s). split_and!; [done|by constructor|done]. Qed.

Lemma ok_int k n : - 2 ^ 64 <= n <= 2 ^ 64 -> field_ok (k, Int n).
Proof.
  intros Hn. exists (Num (FormatInt n)). split; [done|]. split; [|done]. constructor. split; [apply FormatInt_literal|by apply float_range].
Qed.

Lemma ok_bool k b : field_ok (k, Val (Bool b)).
Proof. exists (Bool b). split_and!; [done|constructor|done]. Qed.

Lemma ok_bytes k empty b : field_ok (k, Bytes empty b).
Proof.
  eexists. split; [reflexivity|]. split; [|by destruct b, empty].
  destruct b; [destruct empty; repeat constructor|]. constructor. apply ascii_byte, EncodeToString_ascii.
Qed.

Lemma ok_time k t : is_Some (MarshalTime t) -> field_ok (k, Time t).
Proof.
  intros [s Hs]. exists (Str s). split; [by exists s|]. split; [|done]. constructor. destruct (time_ascii _ _ Hs) as [_ Ha].
  eapply Forall_impl; [exact Ha|]. intros ? [? ?]. split; lia.
Qed.

(** A raw message whose numbers are in range. *)
Lemma ok_message k b v : Forall byte b -> parse b = Some v -> all (fun _ => True) (fun t => is_Some (float_text t)) any_keys v ->
  depth v <= maxNestingDepth - 2 -> field_ok (k, Raw b).
Proof.
  intros Hb Hp Hn Hd. exists v. split; [by right|]. split; [|done]. pose proof (parse_good b v Hb Hp) as Hg. clear Hb Hp Hd k b. unfold exportable, good in *.
  induction v as [ |b|t|s|l IH|l IH] using json_induction; inversion Hn as [| |? Ht| |? Hl|? _ Hl]; inversion Hg as [| |? Ht'|? Hs'|? Hl'|? _ Hl']; subst;
    constructor; try done.
  - by destruct Hs'.
  - rewrite Forall_forall in *. auto.
  - apply Forall_forall. rewrite Forall_forall in *. intros kv Hkv. destruct (Hl kv Hkv), (Hl' kv Hkv) as [[? _] ?]. auto.
Qed.

Lemma ok_raw k v : exportable v -> depth v <= maxNestingDepth - 2 -> field_ok (k, Raw (encode v)).
Proof.
  intros Hv Hd. exists (canon v). rewrite canon_depth. split; [|split; [|done]].
  - right. pose proof (exportable_wf v Hv). by split; [apply encode_byte|apply json_roundtrip; [|lia]].
  - eapply canon_all; [|exact Hv]. intros s. apply ToValidUTF8_byte.
Qed.

(** *** What the collector makes of an exchange *)

(** [json.Marshal] of a map of strings. *)
Definition headers_json (h : gmap (list Z) (list Z)) : json :=
  Obj (to_map ((fun kv => (kv.1, Str kv.2)) <$> map_to_list h)).

Definition MarshalHeaders (h : gmap (list Z) (list Z)) : option (list Z) := Some (encode (headers_json h)).

Lemma headers_exportable h : map_Forall (fun k v => Forall byte k /\ Forall byte v) h -> exportable (headers_json h).
Proof.
  intros Hh. constructor; [done|]. apply to_map_Forall, Forall_fmap, Forall_forall. intros [k v] Hkv%elem_of_map_to_list.
  destruct (Hh k v Hkv). cbn. split; [done|]. by constructor.
Qed.

Lemma headers_depth h : depth (headers_json h) <= maxNestingDepth - 2.
Proof.
  change (maxNestingDepth - 2) with (1 + (maxNestingDepth - 3)). apply depth_obj; [done|].
  apply to_map_Forall, Forall_fmap, Forall_forall. by intros [k v] _.
Qed.

Lemma extracted_range p : (- 2 ^ 64 <= extractPid p <= 2 ^ 64) /\ (- 2 ^ 64 <= extractTid p <= 2 ^ 64) /\
  (- 2 ^ 64 <= extractUid p <= 2 ^ 64) /\ (- 2 ^ 64 <= extractGid p <= 2 ^ 64).
Proof.
  assert (forall z, - 2 ^ 64 <= s32 z <= 2 ^ 64) as Hr by (intros z; pose proof (s32_range z); lia).
  split_and!; apply Hr.
Qed.

(** A request that the TLS parser hands over is exported, whatever bytes it holds. *)
Lemma request_exported bootTime host Resolve raw r empty :
  RawRequest_ToRecord bootTime host Resolve MarshalHeaders raw = Some r ->
  is_Some (MarshalTime (rec_Timestamp (rrq_id r))) -> Forall byte host -> Forall byte (Resolve (rr_CgroupID raw)) ->
  Forall (Forall byte) [rr_SessionKey raw; rr_Comm raw; rr_Method raw; rr_URL raw; rr_Protocol raw] ->
  map_Forall (fun k v => Forall byte k /\ Forall byte v) (rr_Headers raw) -> - 2 ^ 63 <= rr_ContentLength raw < 2 ^ 63 ->
  event_ok (RequestEvent empty r).
Proof.
  intros Hr Ht Hh Hc Hs Hm Hl. apply bind_Some in Hr as (h & Hh' & Hr). apply (inj Some) in Hh', Hr. subst h r. rewrite !Forall_cons in Hs. destruct Hs as (?&?&?&?&?&_).
  unfold event_ok. cbn [event_fields]. unfold RecordRequest_fields.
  assert (- 2 ^ 64 <= rr_ContentLength raw <= 2 ^ 64) by lia. destruct (extracted_range (rr_PidTGid raw)) as (?&?&_), (extracted_range (rr_UidGid raw)) as (_&_&?&?).
  repeat apply Forall_cons_2; try apply Forall_nil_2;
    first [apply ok_time; assumption|apply ok_string; assumption|apply ok_int; assumption|apply ok_bool|apply ok_bytes
          |apply ok_raw; [apply headers_exportable; assumption|apply headers_depth]].
Qed.

(** And a response. *)
Lemma response_exported bootTime host Resolve raw r empty :
  RawResponse_ToRecord bootTime host Resolve MarshalHeaders raw = Some r ->
  is_Some (MarshalTime (rec_Timestamp (rrp_id r))) -> Forall byte host -> Forall byte (Resolve (rp_CgroupID raw)) ->
  Forall (Forall byte) [rp_SessionKey raw; rp_Comm raw; rp_Protocol raw] ->
  map_Forall (fun k v => Forall byte k /\ Forall byte v) (rp_Headers raw) -> - 2 ^ 63 <= rp_ContentLength raw < 2 ^ 63 ->
  event_ok (ResponseEvent empty r).
Proof.
  intros Hr Ht Hh Hc Hs Hm Hl. apply bind_Some in Hr as (h & Hh' & Hr). apply (inj Some) in Hh', Hr. subst h r. rewrite !Forall_cons in Hs. destruct Hs as (?&?&?&_).
  unfold event_ok. cbn [event_fields]. unfold RecordResponse_fields.
  assert (- 2 ^ 64 <= rp_ContentLength raw <= 2 ^ 64) by lia.
  assert (- 2 ^ 64 <= s32 (rp_StatusCode raw) <= 2 ^ 64) by (pose proof (s32_range (rp_StatusCode raw)); lia).
  destruct (extracted_range (rp_PidTGid raw)) as (?&?&_), (extracted_range (rp_UidGid raw)) as (_&_&?&?).
  repeat apply Forall_cons_2; try apply Forall_nil_2;
    first [apply ok_time; assumption|apply ok_string; assumption|apply ok_int; assumption|apply ok_bool|apply ok_bytes
          |apply ok_raw; [apply headers_exportable; assumption|apply headers_depth]].
Qed.
End Fields.

(** The fields of an event, one by one. *)
Ltac fields_ok :=
  repeat first [apply Forall_cons_2|apply Forall_nil_2];
  first [apply ok_string; by apply ascii_byte, (bool_decide_unpack _)|apply ok_int; vm_compute; split; discriminate
        |apply ok_bool|apply ok_bytes|apply ok_time; eexists; vm_compute; reflexivity|idtac].

(** ** A run *)

(** The seconds of one minute; URLs with a scheme, a host and a path. *)
#[export] Instance ref_texts : Texts := {
  MarshalTime t := if (0 <=? t) && (t <? 60) then Some (str "2026-04-21T12:00:" ++ [48 + t / 10; 48 + t mod 10] ++ str "Z") else None;
  MarshalFloat d := match d with S754_zero _ => Some [48] | _ => None end;
  UnmarshalTime s := match drop 17 s with [a; b; 90] => Some (10 * (a - 48) + (b - 48)) | _ => None end;
  ParseTime s := match drop 17 s with [a; b; 90] => Some (10 * (a - 48) + (b - 48)) | _ => None end;
  url_Parse s := s ← CutPrefix s (str "https://"); i ← Index s (str "/"); Some (take i s, drop i s);
  IsPrint r := match r with [c] => (32 <=? c) && (c <? 127) | _ => true end;
}.

#[export] Instance ref_text_laws : TextLaws.
Proof.
  assert (forall t s, MarshalTime t = Some s -> 0 <= t < 60 /\ s = str "2026-04-21T12:00:" ++ [48 + t / 10; 48 + t mod 10] ++ str "Z") as Hm.
  { intros t s. cbn [MarshalTime ref_texts]. destruct ((0 <=? t) && (t <? 60)) eqn:E; [|done]. intros Hs.
    apply andb_prop in E as [? ?]. split; [lia|]. by injection Hs. }
  assert (forall t, 0 <= t < 60 -> 0 <= t / 10 < 6 /\ 0 <= t mod 10 < 10 /\ 10 * (48 + t / 10 - 48) + (48 + t mod 10 - 48) = t) as Hd
    by (intros t Ht; Z.to_euclidean_division_equations; lia).
  split; [..|intros [] t Ht; cbn in Ht; simplify_eq; reflexivity]; intros t s (Ht & ->)%Hm; destruct (Hd t Ht) as (H1 & H2 & H3).
  - split; [done|]. repeat apply Forall_app_2; [by apply (bool_decide_unpack _)| |by apply (bool_decide_unpack _)].
    repeat apply Forall_cons_2; [lia..|apply Forall_nil_2].
  - change (Some (10 * (48 + t / 10 - 48) + (48 + t mod 10 - 48)) = Some t). by rewrite H3.
  - change (Some (10 * (48 + t / 10 - 48) + (48 + t mod 10 - 48)) = Some t). by rewrite H3.
Qed.

(** Literals that stay as they are. *)
#[export] Instance ref_floats : Floats := {
  float_text t := if decide (number t = Some (t, [])) then Some t else None;
  float_v t := t;
}.

#[export] Instance ref_float_laws : FloatLaws.
Proof.
  assert (forall t, literal t -> float_text t = Some t) as Hl by (intros t Ht; by apply decide_True).
  assert (forall t u, float_text t = Some u -> t = u /\ literal u) as Hu.
  { intros t u. cbn [float_text ref_floats]. case_decide as E; [|done]. intros Ht. assert (t = u) as -> by congruence. done. }
  split.
  - by intros t u [_ ?]%Hu.
  - intros t u [-> ?]%Hu. by apply Hl.
  - intros n _. rewrite Hl by apply FormatInt_literal. by eexists.
  - intros n _. apply Hl, FormatInt_literal.
  - done.
Qed.

Definition demo_id (t : Z) : identity :=
  {| rec_Timestamp := t; rec_Pid := 7; rec_Tid := 8; rec_Uid := 1000; rec_Gid := 1000; rec_Host := str "h"; rec_ContainerID := [] |}.

Definition demo_headers : json := Obj [(str "Accept", Str (str "*/*"))].

Definition demo_body : list Z := encode (Obj [(str "model", Str (str "gpt-5"))]).

Definition demo_request : event := RequestEvent false {|
  rrq_id := demo_id 1; rrq_SessionKey := str "s1"; rrq_Comm := str "curl"; rrq_Method := str "POST";
  rrq_URL := str "https://api.openai.com/v1/responses"; rrq_Protocol := str "HTTP/1.1"; rrq_ContentLength := 17;
  rrq_Headers := encode demo_headers; rrq_Body := demo_body; rrq_Truncated := false |}.

Definition demo_exec : event := ExecEvent {|
  rex_Timestamp := 2; rex_Pid := 9; rex_PPid := 7; rex_ExecId := str "a"; rex_PExecId := str "b"; rex_Cwd := str "/";
  rex_Comm := str "ls"; rex_Args := str "ls -l "; rex_Host := str "h"; rex_ContainerID := [] |}.

Definition demo_response : event := ResponseEvent false {|
  rrp_id := demo_id 3; rrp_SessionKey := str "s1"; rrp_Comm := str "curl"; rrp_StatusCode := 200;
  rrp_Protocol := str "HTTP/1.1"; rrp_ContentLength := 2; rrp_Headers := encode demo_headers; rrp_Body := [200; 1];
  rrp_Truncated := false |}.

Lemma demo_headers_ok : exportable demo_headers.
Proof. constructor; [done|]. repeat constructor; by apply (bool_decide_unpack _). Qed.

Lemma demo_request_ok : event_ok demo_request.
Proof. unfold event_ok. cbn [event_fields demo_request]. unfold RecordRequest_fields. fields_ok. by apply ok_raw; [apply demo_headers_ok|]. Qed.

Lemma demo_exec_ok : event_ok demo_exec.
Proof. unfold event_ok. cbn [event_fields demo_exec]. unfold RecordExec_fields. fields_ok. Qed.

Lemma demo_response_ok : event_ok demo_response.
Proof. unfold event_ok. cbn [event_fields demo_response]. unfold RecordResponse_fields. fields_ok. by apply ok_raw; [apply demo_headers_ok|]. Qed.

Definition demo_batches : list (list Z * Z * list event) :=
  [(str "http_request", 4, [demo_request]); (str "exec_event", 5, [demo_exec]); (str "http_response", 5, [demo_response])].

Lemma demo_records_ok : Forall record_ok (batch_records demo_batches).
Proof.
  repeat apply Forall_cons_2; [..|apply Forall_nil_2]; (split; [done|]);
    (split; [first [apply demo_request_ok|apply demo_exec_ok|apply demo_response_ok]|]); (split; [|by eexists]); done.
Qed.

Definition demo_contents : list Z := (write_batches Marshal (fun _ data => length data) demo_batches open_sink []).2.2.

(** The file is seen with a part of the second line, and at the end. *)
Definition demo_sight : list (Tail.stat error * (error + list Z)) :=
  [(Tail.Size 500, inr (take 500 demo_contents)); (Tail.Size (length demo_contents), inr demo_contents)].

Definition demo_stream : list (@Tabs.Msg error) :=
  Tabs.WindowSizeMsg 80 24 :: (Tabs.streamMsg <$> Tail.streamFile parseJSONLRecord ((fun o => (o, None)) <$> demo_sight) Tail.start_tail).

Definition demo_screen : option (@Tabs.model error ref_viewport) :=
  Tabs.run_model 2 (fun _ => 5) (fun _ => []) (fun _ text => text) demo_stream (Tabs.start_model blank).

Definition demo_summaries : list (list Z) :=
  str <$> ["POST https://api.openai.com/v1/responses"; "ls -l"; "status=200 protocol=HTTP/1.1 comm=curl"]%string.

Lemma demo_sight_observed : observed [] demo_sight demo_contents.
Proof.
  apply (observed_tick _ (take 500 demo_contents) (take 500 demo_contents)); [apply prefix_nil|done|by vm_compute|done|].
  apply (observed_tick _ demo_contents demo_contents); [by exists (drop 500 demo_contents); rewrite take_drop|done..|]. by constructor.
Qed.

Lemma exported_events_shown_witness :
  exists m rs ds, demo_screen = Some m /\ rs = batch_records demo_batches /\
  Forall2 (fun r d => shows (Jsonl.Event r) d) rs ds /\ Summary <$> Tabs.records_of m Tabs.allTab = demo_summaries.
Proof.
  assert ((m ← demo_screen; Some (Summary <$> Tabs.records_of m Tabs.allTab)) = Some demo_summaries) as Hm by (vm_compute; reflexivity).
  destruct demo_screen as [m|] eqn:E; [|done].
  destruct (exported_events_shown 2 (fun _ => 5) (fun _ => []) (fun _ text => text) (fun _ data => length data) demo_batches true
    open_sink demo_contents demo_sight demo_stream blank m demo_records_ok)
    as (rs & ds & _ & Hall & Hsh & _);
    [vm_compute; reflexivity|apply demo_sight_observed|vm_compute; reflexivity|vm_compute; reflexivity|exact E|].
  exists m, rs, ds. split; [done|]. split; [by apply Hall|]. split; [exact Hsh|]. by injection Hm.
Defined.

Lemma exchanges_paired_witness :
  exists pairs mx, buildSessionPairs (omap (shown_as Marshal parseJSONLRecord) (batch_records demo_batches)) = (pairs, mx) /\
  (exists p, p ∈ pairs /\ Start p = 0%nat /\ End_ p = 2%nat) /\ exchange (Jsonl.Event <$> batch_records demo_batches) 0 2.
Proof.
  assert (exists p, p ∈ [{| Start := 0; End_ := 2; Level := 0 |}] /\ Start p = 0%nat /\ End_ p = 2%nat) as Hp
    by (eexists; split; [by left|done]).
  assert (Forall (fun r => ToValidUTF8 (event_session (Jsonl.Event r)) = event_session (Jsonl.Event r)) (batch_records demo_batches)) as Hv
    by (repeat apply Forall_cons_2; [by vm_compute..|apply Forall_nil_2]).
  assert (buildSessionPairs (omap (shown_as Marshal parseJSONLRecord) (batch_records demo_batches)) =
    ([{| Start := 0; End_ := 2; Level := 0 |}], 1%nat)) as Hb by (vm_compute; reflexivity).
  exists [{| Start := 0; End_ := 2; Level := 0 |}], 1%nat. split; [exact Hb|]. split; [exact Hp|].
  exact (proj1 (exchanges_paired (batch_records demo_batches) _ _ demo_records_ok Hv Hb 0 2) Hp).
Defined.

Lemma bodies_shown_witness :
  body_shown false [200; 1] = Str (str "<binary body, 2 bytes>") /\
  exists b d m m', Marshal {| Jsonl.Endpoint := path_of demo_response; Jsonl.Timestamp := 5; Jsonl.Event := demo_response |} = Some b /\
    parseJSONLRecord b = inr d /\ fields_are (event_fields demo_response) m /\
    compact false (Detail d) = Some (encode (Obj m')) /\
    forall k, member k m' = if decide (k = str "body") then Some (body_shown false [200; 1]) else member k m.
Proof.
  split; [vm_compute; reflexivity|]. apply (bodies_shown demo_response 5 false [200; 1] demo_response_ok); [done|by eexists|done|].
  by apply (bool_decide_unpack _).
Defined.

Lemma provider_model_shown_witness :
  exists b d, Marshal {| Jsonl.Endpoint := path_of demo_request; Jsonl.Timestamp := 5; Jsonl.Event := demo_request |} = Some b /\
    parseJSONLRecord b = inr d /\ Model d = str "gpt-5" /\ Provider d = str "openai".
Proof.
  edestruct (provider_model_shown false _ 5 demo_request_ok) as (b & d & Hb & Hd & Hm & _ & Hp);
    [by eexists|by apply (bool_decide_unpack _); vm_compute|].
  exists b, d. split; [exact Hb|]. split; [exact Hd|].
  assert (Model d = str "gpt-5") as Hmodel by (rewrite Hm; vm_compute; reflexivity).
  split; [exact Hmodel|]. apply (Hp (str "api.openai.com") (str "/v1/responses")); [by rewrite Hmodel|done|vm_compute; reflexivity|].
  right. exists "openai"%string, "openai.com"%string. split; [by left|]. split; [done|]. right. by exists (str "api").
Defined.
