(* ===== verification/Message.v ===== *)
(** Messages of the model context protocol: [json.Unmarshal] into the [MCP] of
    [export/records.go], and [ToRecord] of a [RawStdIO] with it.

    The text of a message is JSON; the members that the structure names are its fields,
    the parameters, the result and the error as they stand in the text.  The theorems
    say which messages are recorded and that a recorded message is shown with its
    method, its number and the values of its parameters. *)

From S2P Require Import Prelude GoStd Json JsonTheorems JsonText JsonMap JsonCompact Collector Policy Export Pairs Dashboard DashboardTheorems Format FormatTheorems.
Import Records Display.

(** ** Members with their texts *)

(** The text of a value: what was read, without the blanks in front. *)
Definition text_of (s r : list Z) : list Z := take (length (skip_ws s) - length r) (skip_ws s).

(** The members of an object, each with the text of its value. *)
Fixpoint members_text (fuel : nat) (s : list Z) : option (list (list Z * json * list Z) * list Z) :=
  match fuel with
  | O => None
  | S fuel' =>
      s' ← eat 34 (skip_ws s);
      '(k, r) ← unquote (S (length s')) s';
      r1 ← eat 58 (skip_ws r);
      '(v, r2) ← value fuel' r1;
      let m := (k, v, text_of r1 r2) in
      match eat 44 (skip_ws r2), eat 125 (skip_ws r2) with
      | Some r3, _ => '(l, r4) ← members_text fuel' r3; Some (m :: l, r4)
      | _, Some r3 => Some ([m], r3)
      | _, _ => None
      end
  end.

(** ** [json.Unmarshal] into an [MCP] *)

Definition zero_MCP : MCP := {| JSONRPC := []; CorrID := 0; Result := []; Error := []; Params := []; Method := [] |}.

(** A member: [null] leaves strings and numbers as they are; a raw message is the text
    of any value. *)
Definition mcp_member (m : MCP) (kvt : list Z * json * list Z) : option MCP :=
  let '(k, v, t) := kvt in
  let name := foldName k in
  if decide (name = str "jsonrpc") then
    match v with
    | Str s => Some {| JSONRPC := s; CorrID := CorrID m; Result := Result m; Error := Error m; Params := Params m; Method := Method m |}
    | Null => Some m
    | _ => None
    end
  else if decide (name = str "id") then
    match v with
    | Num lit => n ← Atoi lit;
        Some {| JSONRPC := JSONRPC m; CorrID := n; Result := Result m; Error := Error m; Params := Params m; Method := Method m |}
    | Null => Some m
    | _ => None
    end
  else if decide (name = str "result") then
    Some {| JSONRPC := JSONRPC m; CorrID := CorrID m; Result := t; Error := Error m; Params := Params m; Method := Method m |}
  else if decide (name = str "error") then
    Some {| JSONRPC := JSONRPC m; CorrID := CorrID m; Result := Result m; Error := t; Params := Params m; Method := Method m |}
  else if decide (name = str "params") then
    Some {| JSONRPC := JSONRPC m; CorrID := CorrID m; Result := Result m; Error := Error m; Params := t; Method := Method m |}
  else if decide (name = str "method") then
    match v with
    | Str s => Some {| JSONRPC := JSONRPC m; CorrID := CorrID m; Result := Result m; Error := Error m; Params := Params m; Method := s |}
    | Null => Some m
    | _ => None
    end
  else Some m.

(** The members of the object that a text was parsed as. *)
Definition object_members (data : list Z) : option (list (list Z * json * list Z)) :=
  s ← eat 123 (skip_ws data);
  match eat 125 (skip_ws s) with
  | Some _ => Some []
  | None => fst <$> members_text (length data) s
  end.

Definition UnmarshalMCP (data : list Z) : option MCP :=
  v ← parse data;
  match v with
  | Null => Some zero_MCP
  | Obj _ => l ← object_members data; foldl (fun m kvt => m ← m; mcp_member m kvt) (Some zero_MCP) l
  | _ => None
  end.

(** ** The members of a message *)

(** A member as it was read: its text is a text of its value. *)
Definition member_ok (kvt : list Z * json * list Z) : Prop := Forall byte kvt.2 /\ parse kvt.2 = Some kvt.1.2.

Lemma text_of_kept s v r : Forall byte s -> kept (skip_ws s) v r -> depth v <= maxNestingDepth ->
  Forall byte (text_of s r) /\ parse (text_of s r) = Some v.
Proof.
  intros Hb (w & u & E & Hr & _) Hd. unfold text_of. rewrite E.
  rewrite take_app_length' by (rewrite length_app; lia). split; [|by apply parse_raw].
  destruct (skip_ws_blank s) as (b & _ & Es). rewrite Es, E in Hb. apply Forall_app in Hb as [_ Hb]. by apply Forall_app in Hb as [? _].
Qed.

Lemma value_kept F s v r : Forall byte s -> value F s = Some (v, r) -> kept s v r /\ kept (skip_ws s) v r.
Proof.
  intros Hb H. split; [by apply (all_kept F)|]. rewrite <- value_skip in H. apply (all_kept F); [|done].
  destruct (skip_ws_blank s) as (b & _ & E). rewrite E in Hb. by apply Forall_app in Hb as [_ ?].
Qed.

Lemma members_texts F s kvs r : Forall byte s -> members F s = Some (kvs, r) -> Forall (fun kv => depth kv.2 <= maxNestingDepth) kvs ->
  exists l, members_text F s = Some (l, r) /\ l.*1 = kvs /\ Forall member_ok l.
Proof.
  revert s kvs. induction F as [|F IH]; intros s kvs Hb H Hd; [done|]. cbn [members members_text] in *.
  destruct (eat 34 (skip_ws s)) as [s'|] eqn:E34; [|done]. cbn [mbind option_bind] in *.
  destruct (unquote (S (length s')) s') as [[k r0]|] eqn:Eq; [|done]. cbn [mbind option_bind] in *.
  destruct (eat 58 (skip_ws r0)) as [r1|] eqn:E58; [|done]. cbn [mbind option_bind] in *.
  destruct (value F r1) as [[v1 r2]|] eqn:Ev; [|done]. cbn [mbind option_bind] in *.
  pose proof (eat_byte _ _ _ Hb E34) as Hb1. destruct (unquote_compact _ _ _ _ Hb1 Eq) as (_ & Hb0 & _).
  pose proof (eat_byte _ _ _ Hb0 E58) as Hb2. destruct (value_kept F r1 v1 r2 Hb2 Ev) as [Hk Hks].
  pose proof (text_of_kept r1 v1 r2 Hb2 Hks) as Ht. pose proof (kept_byte _ _ _ Hb2 Hk) as Hb3.
  destruct (eat 44 (skip_ws r2)) as [r3|] eqn:E44.
  - destruct (members F r3) as [[l r4]|] eqn:Em; [|done]. injection H as <- <-. apply Forall_cons in Hd as [Hd1 Hd2].
    destruct (IH r3 l (eat_byte _ _ _ Hb3 E44) Em Hd2) as (l' & -> & <- & Hl). eexists. split; [done|]. split; [done|].
    constructor; [by apply Ht|done].
  - destruct (eat 125 (skip_ws r2)) as [r3|]; [|done]. injection H as <- <-. eexists. split; [done|]. split; [done|].
    rewrite Forall_singleton in Hd. apply Forall_singleton. exact (Ht Hd).
Qed.

(** The members of an object are those it was parsed with, with their texts. *)
Lemma object_texts data kvs : Forall byte data -> parse data = Some (Obj kvs) ->
  exists l, object_members data = Some l /\ l.*1 = kvs /\ Forall member_ok l.
Proof.
  unfold object_members. intros Hb (r & E & _ & Hd)%parse_inv. rewrite <- value_skip in E.
  assert (match skip_ws data with c :: _ => is_ws c = false | [] => True end) as Hw.
  { clear. induction data as [|c s IH]; [done|]. cbn. by destruct (is_ws c) eqn:E. }
  assert (forall x y, scalar x = Some (Obj kvs, y) -> False) as Hsc.
  { intros x y. unfold scalar. repeat (case_match; try done). by intros ([? ?] & _ & [=])%bind_Some. }
  destruct (skip_ws data) as [|c x] eqn:Ed; [by apply Hsc in E|]. rewrite value_head in E by done. cbn [eat].
  destruct (c =? 34); [by destruct (unquote _ x) as [[? ?]|]|].
  destruct (c =? 91); [destruct (eat 93 _); [done|]; by destruct (elements _ x) as [[? ?]|]|].
  destruct (c =? 123); [|by apply Hsc in E]. cbn [mbind option_bind].
  assert (Forall byte x) as Hx.
  { destruct (skip_ws_blank data) as (b & _ & Eb). rewrite Ed in Eb. rewrite Eb in Hb. apply Forall_app in Hb as [_ Hb]. by apply Forall_cons in Hb as [_ ?]. }
  destruct (eat 125 (skip_ws x)) as [y|]; [injection E as <- _; by exists []|].
  destruct (members (length data) x) as [[l y]|] eqn:Em; [|done]. injection E as <- _.
  destruct (members_texts _ _ _ _ Hx Em) as (l' & -> & Hl); [|by exists l'].
  change maxNestingDepth with (1 + (maxNestingDepth - 1)) in Hd. rewrite depth_obj in Hd by done.
  eapply Forall_impl; [exact Hd|]. cbn. intros; lia.
Qed.

(** ** What a message says *)

(** The values of the members of a name, in order. *)
Definition named (name : string) (l : members_of) : list json :=
  omap (fun kv => if decide (foldName kv.1 = str name) then Some kv.2 else None) l.

Definition as_string (v : json) : option (list Z) := match v with Str s => Some s | _ => None end.
Definition as_int (v : json) : option Z := match v with Num t => Atoi t | _ => None end.

(** The last string of a name; the last number; the last value. *)
Definition string_field (name : string) (l : members_of) : list Z := default [] (last (omap as_string (named name l))).
Definition id_field (l : members_of) : Z := default 0 (last (omap as_int (named "id" l))).
Definition value_field (name : string) (l : members_of) : json := default Null (last (named name l)).

(** The version and the method are strings, the number an integer of 64 bits; each may
    be [null]. *)
Definition message_ok (l : members_of) : Prop :=
  Forall (fun v => v = Null \/ is_Some (as_string v)) (named "jsonrpc" l) /\
  Forall (fun v => v = Null \/ is_Some (as_string v)) (named "method" l) /\
  Forall (fun v => v = Null \/ is_Some (as_int v)) (named "id" l).

(** A raw message is the text of the last value of the name; nil where there is none. *)
Definition raw_is (t : list Z) (vs : list json) : Prop :=
  match last vs with
  | Some v => Forall byte t /\ parse t = Some v
  | None => t = []
  end.

Definition says (l : members_of) (m : MCP) : Prop :=
  JSONRPC m = string_field "jsonrpc" l /\ Method m = string_field "method" l /\ CorrID m = id_field l /\
  raw_is (Params m) (named "params" l) /\ raw_is (Result m) (named "result" l) /\ raw_is (Error m) (named "error" l).

Lemma named_snoc name l k v :
  named name (l ++ [(k, v)]) = named name l ++ (if decide (foldName k = str name) then [v] else []).
Proof. unfold named. rewrite omap_app. f_equal. cbn. by case_decide. Qed.

Lemma string_field_snoc name l k v :
  string_field name (l ++ [(k, v)]) =
  if decide (foldName k = str name) then default (string_field name l) (as_string v) else string_field name l.
Proof.
  unfold string_field. rewrite named_snoc. case_decide; [|by rewrite app_nil_r]. rewrite omap_app. cbn.
  destruct (as_string v); cbn; [by rewrite last_snoc|by rewrite app_nil_r].
Qed.

Lemma id_field_snoc l k v :
  id_field (l ++ [(k, v)]) = if decide (foldName k = str "id") then default (id_field l) (as_int v) else id_field l.
Proof.
  unfold id_field. rewrite named_snoc. case_decide; [|by rewrite app_nil_r]. rewrite omap_app. cbn.
  destruct (as_int v); cbn; [by rewrite last_snoc|by rewrite app_nil_r].
Qed.

Lemma raw_is_snoc t name l k v :
  raw_is t (named name (l ++ [(k, v)])) <->
  if decide (foldName k = str name) then Forall byte t /\ parse t = Some v else raw_is t (named name l).
Proof. unfold raw_is. rewrite named_snoc. case_decide; [by rewrite last_snoc|by rewrite app_nil_r]. Qed.

Lemma message_ok_snoc l k v :
  message_ok (l ++ [(k, v)]) <-> message_ok l /\
    (foldName k = str "jsonrpc" -> v = Null \/ is_Some (as_string v)) /\
    (foldName k = str "method" -> v = Null \/ is_Some (as_string v)) /\
    (foldName k = str "id" -> v = Null \/ is_Some (as_int v)).
Proof.
  assert (forall (P : json -> Prop) name, Forall P (named name (l ++ [(k, v)])) <-> Forall P (named name l) /\ (foldName k = str name -> P v)) as Hs.
  { intros P name. rewrite named_snoc, Forall_app. case_decide; [rewrite Forall_singleton|rewrite Forall_nil]; naive_solver. }
  unfold message_ok. rewrite !Hs. naive_solver.
Qed.

Lemma str_inj a b : str a = str b -> a = b.
Proof.
  unfold str. intros H. rewrite <- (String.string_of_list_ascii_of_string a), <- (String.string_of_list_ascii_of_string b). f_equal. revert H.
  generalize (String.list_ascii_of_string a), (String.list_ascii_of_string b). intros x. induction x as [|c x IH]; intros [|d y] E; try done.
  injection E as Ec E. f_equal; [|by apply IH]. apply N2Z.inj in Ec.
  by rewrite <- (Ascii.ascii_N_embedding c), <- (Ascii.ascii_N_embedding d), Ec.
Qed.

Lemma other_name k a b : foldName k = str a -> a <> b -> foldName k <> str b.
Proof. intros -> Hab E. by apply Hab, str_inj. Qed.

(** One member. *)
Lemma mcp_member_says l m k v t :
  says l m -> member_ok (k, v, t) ->
  match mcp_member m (k, v, t) with
  | Some m' => says (l ++ [(k, v)]) m' /\ (message_ok l -> message_ok (l ++ [(k, v)]))
  | None => ~ message_ok (l ++ [(k, v)])
  end.
Proof.
  intros (H1 & H2 & H3 & H4 & H5 & H6) [Hb Hp]. cbn [fst snd] in *. unfold mcp_member.
  assert (forall a, foldName k = str a -> Forall (fun b => a = b \/ foldName k <> str b) ["jsonrpc"; "id"; "result"; "error"; "params"; "method"]%string) as Hn.
  { intros a Ha. apply Forall_true. intros b. destruct (decide (a = b)); [by left|right]. by apply (other_name k a). }
  destruct (decide (foldName k = str "jsonrpc")) as [E|N1];
    [|destruct (decide (foldName k = str "id")) as [E|N2];
      [|destruct (decide (foldName k = str "result")) as [E|N3];
        [|destruct (decide (foldName k = str "error")) as [E|N4];
          [|destruct (decide (foldName k = str "params")) as [E|N5];
            [|destruct (decide (foldName k = str "method")) as [E|N6]]]]]].
  1-6: specialize (Hn _ E); rewrite !Forall_cons in Hn; destruct Hn as ([?|?] & [?|?] & [?|?] & [?|?] & [?|?] & [?|?] & _); try discriminate.
  all: destruct v; try destruct (Atoi _) eqn:Ea; cbn [mbind option_bind]; unfold says;
    rewrite message_ok_snoc, ?string_field_snoc, ?id_field_snoc, ?raw_is_snoc; cbn [JSONRPC CorrID Result Error Params Method as_string as_int];
    rewrite ?Ea;
    repeat match goal with |- context [decide (foldName ?x = str ?b)] => destruct (decide (foldName x = str b)); try contradiction end;
    cbn [default].
  all: first [split_and!; [done..|]; intros Hok; split_and!; [done|intros ?; first [done|by left|by right; eexists]..]
             |intros (_ & Ha & Hb' & Hc); first [destruct (Ha E) as [?|[? ?]]|destruct (Hb' E) as [?|[? ?]]|destruct (Hc E) as [?|[? ?]]]; done|idtac].
Qed.

Lemma message_says l : Forall member_ok l ->
  match foldl (fun m kvt => m ← m; mcp_member m kvt) (Some zero_MCP) l with
  | Some m => says l.*1 m /\ message_ok l.*1
  | None => ~ message_ok l.*1
  end.
Proof.
  induction l as [|[[k v] t] l IH] using rev_ind; intros Hl; [by repeat split; constructor|].
  apply Forall_app in Hl as [Hl Hx]. rewrite Forall_singleton in Hx. specialize (IH Hl).
  rewrite foldl_app, fmap_app. cbn [foldl fmap list_fmap fst]. destruct (foldl _ (Some zero_MCP) l) as [m|]; cbn [mbind option_bind].
  - destruct IH as [Hs Hok]. pose proof (mcp_member_says _ m k v t Hs Hx) as H. destruct (mcp_member m (k, v, t)); [|done].
    destruct H. auto.
  - rewrite message_ok_snoc. naive_solver.
Qed.

Lemma UnmarshalMCP_spec data : Forall byte data ->
  match parse data with
  | Some (Obj l) =>
      match UnmarshalMCP data with
      | Some m => says l m /\ message_ok l
      | None => ~ message_ok l
      end
  | Some Null => UnmarshalMCP data = Some zero_MCP
  | _ => UnmarshalMCP data = None
  end.
Proof.
  intros Hb. unfold UnmarshalMCP. destruct (parse data) as [[ |b|t|s|l|l]|] eqn:Ep; cbn [mbind option_bind]; try done.
  destruct (object_texts data l Hb Ep) as (l' & -> & <- & Hl). by apply message_says.
Qed.

(** ** Records *)
Section Messages.
Context (bootTime : Z) (host : list Z) (Resolve : Z -> list Z).

Definition ToRecord (raw : RawStdIO) : option RecordStdIO := RawStdIO_ToRecord bootTime host Resolve UnmarshalMCP raw.

(** C24. Which messages are recorded.  A message that was captured is recorded if it is
    an object whose version and method are strings and whose number is an integer of
    64 bits, each absent or [null] otherwise, or is [null] itself; the record has the
    identity of the process, the type of the message, the last version and method, the
    last number in decimal, and as parameters, result and error texts of the last
    values with these names.  Everything else is dropped: text that is no JSON or nested
    deeper than 10000 levels, other values and batches, and requests with a string as
    their number. *)
Theorem messages_recorded raw : Forall byte (io_Data raw) ->
  match parse (io_Data raw) with
  | Some (Obj l) =>
      (message_ok l <-> is_Some (ToRecord raw)) /\
      forall r, ToRecord raw = Some r ->
        rio_id r = identify bootTime host Resolve (io_ElapsedNs raw) (io_PidTGid raw) (io_UidGid raw) (io_CgroupID raw) /\
        rio_MessageType r = io_MessageType raw /\ rio_JSONRPC r = string_field "jsonrpc" l /\
        rio_Method r = string_field "method" l /\ rio_CorrID r = FormatInt (id_field l) /\
        raw_is (rio_Params r) (named "params" l) /\ raw_is (rio_Result r) (named "result" l) /\
        raw_is (rio_Error r) (named "error" l)
  | Some Null => is_Some (ToRecord raw)
  | _ => ToRecord raw = None
  end.
Proof.
  intros Hb. pose proof (UnmarshalMCP_spec (io_Data raw) Hb) as H. unfold ToRecord, RawStdIO_ToRecord.
  destruct (parse (io_Data raw)) as [[ |b|t|s|l|l]|]; try (rewrite H; done).
  destruct (UnmarshalMCP (io_Data raw)) as [m|]; cbn [mbind option_bind].
  - destruct H as [(H1 & H2 & H3 & H4 & H5 & H6) Hok]. split; [split; [by eexists|done]|]. intros r Hr. apply (inj Some) in Hr. subst r.
    cbn. rewrite <- H3. done.
  - split; [split; [done|by intros [? ?]]|done].
Qed.

(** ** On display *)
Context `{TextLaws} `{FloatLaws}.

(** The numbers of the values are in the range of [float64], and the value is nested so
    deep that the line of its record, which is one level deeper, can be read. *)
Definition in_range (v : json) : Prop :=
  all (fun _ => True) (fun t => is_Some (float_text t)) any_keys v /\ depth v <= maxNestingDepth - 1.

Lemma named_elem name l v : v ∈ named name l -> exists k, (k, v) ∈ l.
Proof. unfold named. intros ([k x] & Hx & E)%list_elem_of_omap. case_decide; simplify_eq. by exists k. Qed.

Lemma named_depth name l v : depth (Obj l) <= maxNestingDepth - 1 -> v ∈ named name l -> depth v <= maxNestingDepth - 2.
Proof.
  intros Hd (k & Hk)%named_elem. change (maxNestingDepth - 1) with (1 + (maxNestingDepth - 2)) in Hd. rewrite depth_obj in Hd by done.
  rewrite Forall_forall in Hd. by apply (Hd (k, v)).
Qed.

Lemma named_all PS PN PK name l v : all PS PN PK (Obj l) -> v ∈ named name l -> all PS PN PK v.
Proof.
  intros Hl (k & Hk)%named_elem. inversion Hl as [| | | | |? _ Hl']; subst. rewrite Forall_forall in Hl'. by destruct (Hl' _ Hk).
Qed.

Lemma string_field_valid name l : good (Obj l) -> valid (string_field name l).
Proof.
  intros Hl. unfold string_field. destruct (last (omap as_string (named name l))) as [s|] eqn:E; [|done]. cbn.
  apply last_Some_elem_of in E. apply list_elem_of_omap in E as (v & Hv & Es). pose proof (named_all _ _ _ _ _ _ Hl Hv) as Hg.
  destruct v; cbn in Es; simplify_eq. by inversion Hg.
Qed.

Lemma raw_field_ok k t name l : in_range (Obj l) -> raw_is t (named name l) -> field_ok (k, Raw t).
Proof.
  intros [Hr Hd] Ht. unfold raw_is in Ht. destruct (last (named name l)) as [v|] eqn:E.
  - apply last_Some_elem_of in E. destruct Ht as [Hb Hp]. eapply ok_message; [done..|by eapply named_all|by eapply named_depth].
  - subst t. exists Null. split; [by left|]. split; [constructor|done].
Qed.

Lemma raw_field_shown k t name l fields m : good (Obj l) -> raw_is t (named name l) -> last_field k fields = Some (Raw t) ->
  fields_are fields m -> exists w, unmarshal (value_field name l) = Some w /\ member (str k) m = Some w.
Proof.
  intros Hg Ht Hf Hm. specialize (Hm k). rewrite Hf in Hm. destruct Hm as (v & w & Hv & Hu & Hw). exists w. split; [|done].
  unfold raw_is, value_field in *. cbn [field_value] in Hv. destruct (last (named name l)) as [x|] eqn:E; cbn.
  - destruct Ht as [_ Hp]. destruct Hv as [[-> _]|[_ Hv]]; [done|]. rewrite Hp in Hv. injection Hv as <-.
    rewrite good_canon in Hu; [done|]. by eapply named_all, last_Some_elem_of.
  - subst t. destruct Hv as [[_ ->]|[_ Hv]]; done.
Qed.

Lemma message_exported raw r l : good (Obj l) -> in_range (Obj l) -> Forall byte (io_Data raw) -> parse (io_Data raw) = Some (Obj l) ->
  ToRecord raw = Some r -> is_Some (MarshalTime (rec_Timestamp (rio_id r))) -> Forall byte host -> Forall byte (Resolve (io_CgroupID raw)) ->
  Forall byte (io_MessageType raw) -> event_ok (StdIOEvent r).
Proof.
  intros Hg Hin Hb Hp Hr Ht Hh Hc Hmt. pose proof (UnmarshalMCP_spec (io_Data raw) Hb) as H'. rewrite Hp in H'.
  unfold ToRecord, RawStdIO_ToRecord in Hr. destruct (UnmarshalMCP (io_Data raw)) as [m|]; [|done]. apply (inj Some) in Hr. subst r.
  destruct H' as [(H1' & H2' & H3' & H4' & H5' & H6') _]. unfold event_ok. cbn [event_fields]. unfold RecordStdIO_fields, identity_fields.
  destruct (string_field_valid "jsonrpc" l Hg) as [Hj _], (string_field_valid "method" l Hg) as [Hm _]. rewrite <- H1' in Hj. rewrite <- H2' in Hm.
  destruct (extracted_range (io_PidTGid raw)) as (?&?&_), (extracted_range (io_UidGid raw)) as (_&_&?&?). cbn [app].
  pose proof (FormatInt_byte (CorrID m)).
  repeat apply Forall_cons_2; try apply Forall_nil_2;
    first [apply ok_time; assumption|apply ok_string; assumption|apply ok_int; assumption|eapply raw_field_ok; eassumption].
Qed.

(** C19. Messages on display.  A message whose version, method and number have their
    types, whose numbers are in the range of [float64], that is nested less than 10000
    levels deep and was taken at a time that has a text is recorded, exported as a line and shown: the summary is its type
    and its method, its number is shown in decimal, and the parameters, the result and
    the error that are shown are those of the message, as [json.Unmarshal] reads them;
    [null] stands for what the message does not have. *)
Theorem messages_shown raw l now :
  Forall byte (io_Data raw) -> parse (io_Data raw) = Some (Obj l) -> message_ok l -> in_range (Obj l) ->
  is_Some (MarshalTime (parseElapsedToTimestamp bootTime (io_ElapsedNs raw))) -> is_Some (MarshalTime now) ->
  Forall byte host -> Forall byte (Resolve (io_CgroupID raw)) -> Forall byte (io_MessageType raw) ->
  exists r b m, ToRecord raw = Some r /\
    Marshal {| Jsonl.Endpoint := str "mcp_stdio"; Jsonl.Timestamp := now; Jsonl.Event := StdIOEvent r |} = Some b /\
    parseJSONLRecord b = inr (display (str "mcp_stdio") now m) /\
    Summary (display (str "mcp_stdio") now m) =
      utf8_TrimSpace (ToValidUTF8 (io_MessageType raw) ++ str " " ++ string_field "method" l) /\
    fieldString m "corr_id" = FormatInt (id_field l) /\
    Forall (fun name => exists w, unmarshal (value_field name l) = Some w /\ member (str name) m = Some w)
      ["params"; "result"; "error"]%string.
Proof.
  intros Hb Hp Hok Hin Ht Hnow Hh Hc Hmt. pose proof (parse_good _ _ Hb Hp) as Hg.
  pose proof (UnmarshalMCP_spec (io_Data raw) Hb) as Hs. rewrite Hp in Hs.
  assert (exists r, ToRecord raw = Some r) as [r Hr].
  { unfold ToRecord, RawStdIO_ToRecord. destruct (UnmarshalMCP (io_Data raw)); [by eexists|done]. }
  pose proof Hr as Hr'. unfold ToRecord, RawStdIO_ToRecord in Hr'. destruct (UnmarshalMCP (io_Data raw)) as [mcp|]; [|done]. apply (inj Some) in Hr'.
  destruct Hs as [(H1' & H2' & H3' & H4' & H5' & H6') _].
  assert (event_ok (StdIOEvent r)) as He by (eapply message_exported; try done; by rewrite <- Hr').
  destruct (event_shown (StdIOEvent r) now He) as (b & m & Hm & _ & Hf & Hd & _ & _ & _ & Hsum); [done..|].
  exists r, b, m. split_and!; [done..| | |].
  - etransitivity; [exact Hsum|]. cbn [event_summary]. rewrite <- Hr'. cbn [rio_MessageType rio_Method]. rewrite H2'.
    by destruct (string_field_valid "method" l Hg) as [_ ->].
  - rewrite (string_shown _ _ "corr_id" (FormatInt (CorrID mcp)) Hf) by (by rewrite <- Hr'). rewrite <- H3'.
    apply valid_ascii. eapply Forall_impl; [eapply number_numeric, FormatInt_literal|].
    intros c [Hc'|Hc']; [unfold is_digit in Hc'; zbool; lia|set_unfold; lia].
  - repeat apply Forall_cons_2; [..|apply Forall_nil_2];
      (eapply (raw_field_shown _ _ _ _ (event_fields (StdIOEvent r))); [exact Hg|first [exact H4'|exact H5'|exact H6']|rewrite <- Hr'; reflexivity|exact Hf]).
Qed.
End Messages.

(** ** A request *)

(** With blanks, a nested object, an escape and a member the structure does not
    name. *)
Definition demo_message : RawStdIO := {|
  io_ElapsedNs := 1; io_PidTGid := 7; io_UidGid := 1000; io_CgroupID := 0; io_MessageType := str "request";
  io_Data := (fun c => if c =? 39 then 34 else c) <$>
    str "{ 'jsonrpc' : '2.0', 'id': 3, 'method':'tools/call', 'params': { 'name' : 'a<b', 'n': [1, 2] }, '_meta': null }" |}.

Definition demo_members : members_of :=
  [(str "jsonrpc", Str (str "2.0")); (str "id", Num (str "3")); (str "method", Str (str "tools/call"));
   (str "params", Obj [(str "name", Str (str "a<b")); (str "n", Arr [Num (str "1"); Num (str "2")])]); (str "_meta", Null)].

Lemma demo_bytes : Forall byte (io_Data demo_message).
Proof. by apply (bool_decide_unpack _). Qed.

Lemma demo_parsed : parse (io_Data demo_message) = Some (Obj demo_members).
Proof. vm_compute. reflexivity. Qed.

Lemma demo_message_ok : message_ok demo_members.
Proof.
  unfold message_ok. change (named "jsonrpc" demo_members) with [Str (str "2.0")]. change (named "method" demo_members) with [Str (str "tools/call")].
  change (named "id" demo_members) with [Num (str "3")]. rewrite !Forall_singleton.
  split; [right; by eexists|]. split; [right; by eexists|]. right. by exists 3.
Qed.

Lemma demo_in_range : in_range (Obj demo_members).
Proof. split; [repeat first [constructor|by eexists]|by apply Z.leb_le]. Qed.

(** The request is recorded; with a string as its number it is not. *)
Lemma messages_recorded_witness :
  is_Some (ToRecord 0 (str "h") (fun _ => []) demo_message).
Proof.
  pose proof (messages_recorded 0 (str "h") (fun _ => []) demo_message demo_bytes) as H. rewrite demo_parsed in H.
  exact (proj1 (proj1 H) demo_message_ok).
Defined.

Lemma messages_shown_witness :
  exists r b m, ToRecord 0 (str "h") (fun _ => []) demo_message = Some r /\
    Marshal {| Jsonl.Endpoint := str "mcp_stdio"; Jsonl.Timestamp := 2; Jsonl.Event := StdIOEvent r |} = Some b /\
    parseJSONLRecord b = inr (display (str "mcp_stdio") 2 m) /\
    Summary (display (str "mcp_stdio") 2 m) = str "request tools/call".
Proof.
  destruct (messages_shown 0 (str "h") (fun _ => []) demo_message demo_members 2 demo_bytes demo_parsed demo_message_ok demo_in_range)
    as (r & b & m & Hr & Hb & Hm & Hs & _); [by eexists|by eexists|by apply (bool_decide_unpack _)|constructor|by apply (bool_decide_unpack _)|].
  exists r, b, m. split; [exact Hr|]. split; [exact Hb|]. split; [exact Hm|]. rewrite Hs. vm_compute. reflexivity.
Defined.
