(* ===== verification/AgentTheorems.v ===== *)
(** The events of agents: which log records become events and with what fields, and
    that the events of a request are exported and shown. *)

From Stdlib Require Import Floats.SpecFloat.
From S2P Require Import Prelude GoStd Collector CollectorTheorems Policy Export Pairs Dashboard DashboardTheorems Json JsonTheorems JsonText JsonMap JsonCompact Agent Format FormatTheorems.
Import Receiver.

(** ** Attributes *)

(** The last value that was given for a key. *)
Definition attribute (attrs : list KeyValue) (k : list Z) : option AnyValue :=
  last (omap (fun kv => if decide (Key kv = k) then Value kv else None) attrs).

Lemma extractAttributes_lookup attrs k : extractAttributes attrs !! k = attribute attrs k.
Proof.
  unfold extractAttributes, attribute. induction attrs as [|[k' v] attrs IH] using rev_ind; [done|].
  rewrite foldl_app, omap_app. cbn [foldl Value Key omap list_omap]. destruct v as [v|].
  - destruct (decide (k' = k)) as [->|Hk]; cbn; [by rewrite lookup_insert_eq, last_snoc|].
    by rewrite lookup_insert_ne, IH, app_nil_r.
  - by destruct (decide (k' = k)); cbn; rewrite IH, app_nil_r.
Qed.

(** ** Names *)

Definition tools : list (list Z) := [ToolCodex; ToolClaudeCode; ToolGeminiCLI].
Definition collected : list (list Z) := str <$> ["user_prompt"; "tool_call"; "tool_result"]%string.

Lemma parse_prefix_spec prefixes name tool type :
  parse_prefix prefixes name = (tool, type) -> tool = [] /\ type = [] \/ tool ∈ prefixes /\ type <> [] /\ name = tool ++ 46 :: type.
Proof.
  induction prefixes as [|p ps IH]; cbn [parse_prefix]; [intros [= <- <-]; by left|].
  destruct (_ && _) eqn:E; [|intros [?|(?&?)]%IH; [by left|right; set_solver]].
  apply andb_prop in E as [El%Nat.ltb_lt Et%bool_decide_eq_true]. intros [= <- <-]. right. split_and!; [by left| |].
  - intros Hd%(f_equal length). rewrite length_drop in Hd. cbn in Hd. lia.
  - rewrite <- (take_drop (length p + 1) name) at 1. by rewrite Et, <- app_assoc.
Qed.

(** The names of the tools end at their first dot. *)
Lemma parseEventName_spec name tool type :
  type <> [] -> parseEventName name = (tool, type) <-> tool ∈ tools /\ name = tool ++ 46 :: type.
Proof.
  intros Ht. split; [intros [[_ ?]|(?&_&?)]%parse_prefix_spec; done|]. intros [Hin ->]. destruct type as [|c type]; [done|].
  unfold tools in Hin. rewrite !elem_of_cons, elem_of_nil in Hin. destruct Hin as [->|[->|[->|[]]]]; [reflexivity..|]. by destruct type.
Qed.

(** ** Events *)
Section Events.
Context `{Doubles} (MarshalAttributes : list KeyValue -> option (list Z)).

(** The name of an event that is collected. *)
Definition collected_name (name tool type : list Z) : Prop := tool ∈ tools /\ type ∈ collected /\ name = tool ++ 46 :: type.

Lemma collected_nonempty type : type ∈ collected -> type <> [].
Proof. unfold collected. cbn. rewrite !elem_of_cons, elem_of_nil. by intros [->|[->|[->|[]]]]. Qed.

Lemma collected_type type : type ∈ collected <-> ~ (type <> str "user_prompt" /\ type <> str "tool_call" /\ type <> str "tool_result").
Proof.
  unfold collected. cbn [fmap list_fmap]. rewrite !elem_of_cons, elem_of_nil. split; [naive_solver|].
  intros Hn. destruct (decide (type = str "user_prompt")), (decide (type = str "tool_call")), (decide (type = str "tool_result")); tauto.
Qed.

(** A log record becomes an event if and only if its name is that of a collected event,
    which is made of the attributes. *)
Lemma parseLogRecord_spec record :
  let attrs := extractAttributes (Attributes record) in
  match parseLogRecord MarshalAttributes record with
  | Some e => exists tool type, collected_name (getStringAttr attrs "event.name") tool type /\
      e = {| rae_Timestamp := s64 (TimeUnixNano record); rae_Tool := tool; rae_EventName := tool ++ 46 :: type; rae_EventType := type;
             rae_ids := common_fields attrs tool; rae_Host := [];
             rae_Attributes := default [] (MarshalAttributes (Attributes record));
             rae_prompt := (typed_fields attrs type).1.1.1; rae_tool := (typed_fields attrs type).1.1.2;
             rae_api := (typed_fields attrs type).1.2; rae_tokens := no_tokens |}
  | None => forall tool type, ~ collected_name (getStringAttr attrs "event.name") tool type
  end.
Proof.
  intros attrs. unfold parseLogRecord. fold attrs. set (name := getStringAttr attrs "event.name").
  assert (forall tool type, collected_name name tool type -> name <> [] /\ parseEventName name = (tool, type) /\ tool <> []) as Hc.
  { intros tool type (Ht & Hty & E). pose proof (collected_nonempty type Hty) as Hne. split_and!.
    - rewrite E. by destruct tool.
    - by apply parseEventName_spec.
    - unfold tools in Ht. rewrite !elem_of_cons, elem_of_nil in Ht. by destruct Ht as [->|[->|[->|[]]]]. }
  destruct (decide (name = [])) as [Hn|Hn]; [intros tool type Hx; by destruct (Hc _ _ Hx)|].
  destruct (parseEventName name) as [tool type] eqn:Ep.
  destruct (decide (tool = [])) as [->|Ht]; [intros tool' type' Hx; destruct (Hc _ _ Hx) as (_ & [= -> ->] & ?); done|].
  destruct (decide _) as [Hty|Hty].
  { intros tool' type' Hx. destruct (Hc _ _ Hx) as (_ & [= -> ->] & _). destruct Hx as (_ & Hx%collected_type & _). done. }
  apply collected_type in Hty. pose proof (collected_nonempty type Hty) as Hne. apply (parseEventName_spec _ _ _ Hne) in Ep as [Hin E].
  assert (sse_tokens attrs tool name (typed_fields attrs type).2 = no_tokens) as Hs.
  { unfold sse_tokens. rewrite decide_False.
    - unfold typed_fields. unfold collected in Hty. cbn [fmap list_fmap] in Hty. rewrite !elem_of_cons, elem_of_nil in Hty.
      by destruct Hty as [->|[->|[->|[]]]].
    - intros (-> & Hname & _). rewrite E in Hname. change (str "codex.sse_event") with (ToolCodex ++ 46 :: str "sse_event") in Hname.
      apply app_inv_head in Hname. injection Hname as ->.
      assert (str "sse_event" ∉ collected) as Hn' by (by apply (bool_decide_unpack _)). done. }
  destruct (typed_fields attrs type) as [[[prompt use] api] tokens] eqn:Et. cbn [fst snd] in *. exists tool, type.
  split; [by split_and!|]. by rewrite Hs, E, Et.
Qed.

(** A record of one of the collected events becomes an event. *)
Lemma collected_parsed record tool type :
  let attrs := extractAttributes (Attributes record) in
  collected_name (getStringAttr attrs "event.name") tool type ->
  parseLogRecord MarshalAttributes record = Some {|
    rae_Timestamp := s64 (TimeUnixNano record); rae_Tool := tool; rae_EventName := tool ++ 46 :: type; rae_EventType := type;
    rae_ids := common_fields attrs tool; rae_Host := [];
    rae_Attributes := default [] (MarshalAttributes (Attributes record));
    rae_prompt := (typed_fields attrs type).1.1.1; rae_tool := (typed_fields attrs type).1.1.2;
    rae_api := (typed_fields attrs type).1.2; rae_tokens := no_tokens |}.
Proof.
  intros attrs Hx. pose proof (parseLogRecord_spec record) as Hr. fold attrs in Hr.
  destruct (parseLogRecord MarshalAttributes record) as [e|]; [|by destruct (Hr tool type)].
  destruct Hr as (tool' & type' & (Ht' & Hy' & E') & ->). destruct Hx as (Ht & Hy & E).
  assert ((tool', type') = (tool, type)) as [= -> ->]; [|done].
  rewrite <- (proj2 (parseEventName_spec _ tool' type' (collected_nonempty _ Hy')) (conj Ht' E')).
  by rewrite <- (proj2 (parseEventName_spec _ tool type (collected_nonempty _ Hy)) (conj Ht E)).
Qed.

Lemma coalesce_two a b : coalesce [a; b] = if decide (a = []) then b else a.
Proof.
  cbn. destruct (decide (a = [])) as [->|Ha]; [rewrite decide_False by tauto|by rewrite decide_True].
  destruct (decide (b <> [])) as [|Hb]; [done|]. symmetry. by apply dec_stable.
Qed.

(** C21. What the events of agents say.  Every attribute of a log record is the last value
    given for its key.  A record whose event name is a known tool, a dot and one of
    [user_prompt], [tool_call] and [tool_result] becomes an event with that tool and type,
    the time of the record and the ids of the tool; a prompt has its text and length and
    nothing of a tool, a use of a tool its name, arguments, output, outcome, duration and
    decision and nothing of a prompt.  A record whose name does not start with a known tool
    and a dot is dropped. *)
Theorem agent_events_parsed record :
  let attrs := extractAttributes (Attributes record) in
  let get := getStringAttr attrs in
  (forall k, attrs !! k = attribute (Attributes record) k) /\
  (forall tool type, collected_name (get "event.name") tool type ->
    exists e, parseLogRecord MarshalAttributes record = Some e /\
    rae_Tool e = tool /\ rae_EventType e = type /\ rae_EventName e = get "event.name" /\
    rae_Timestamp e = s64 (TimeUnixNano record) /\ Model (rae_ids e) = get "model" /\
    ConversationID (rae_ids e) = (if decide (tool = ToolCodex) then get "conversation.id" else []) /\
    SessionID (rae_ids e) = (if decide (tool = ToolClaudeCode) then get "session.id"
                             else if decide (tool = ToolGeminiCLI) then get "sessionId" else []) /\
    if decide (type = str "user_prompt") then
      Prompt (rae_prompt e) = get "prompt" /\ PromptLength (rae_prompt e) = parseIntAttr attrs "prompt_length" /\ rae_tool e = no_tool
    else
      rae_prompt e = no_prompt /\
      ToolName (rae_tool e) = (if decide (get "tool_name" = []) then get "function_name" else get "tool_name") /\
      Arguments_ (rae_tool e) = (if decide (get "arguments" = []) then get "function_args" else get "arguments") /\
      Output (rae_tool e) = get "output" /\ Success (rae_tool e) = getBoolAttr attrs "success" /\
      DurationMs (rae_tool e) = parseIntAttr attrs "duration_ms" /\ Decision_ (rae_tool e) = get "decision") /\
  ((forall tool rest, tool ∈ tools -> get "event.name" <> tool ++ 46 :: rest) ->
   parseLogRecord MarshalAttributes record = None).
Proof.
  intros attrs get. split; [apply extractAttributes_lookup|]. split.
  - intros tool type Hn. pose proof (collected_parsed record tool type Hn) as Hp. fold attrs in Hp. destruct Hn as (Htool & Htype & Hname).
    eexists. split; [exact Hp|]. cbn [rae_ids rae_prompt rae_tool rae_Tool rae_EventType rae_EventName rae_Timestamp].
    unfold tools in Htool. rewrite !elem_of_cons, elem_of_nil in Htool.
    split; [done|]. split; [done|]. split; [by rewrite <- Hname|]. split; [done|].
    split_and!; [by destruct Htool as [->|[->|[->|[]]]]..|].
    unfold collected in Htype. cbn [fmap list_fmap] in Htype. rewrite !elem_of_cons, elem_of_nil in Htype.
    destruct Htype as [->|[->|[->|[]]]]; unfold typed_fields; rewrite <- ?coalesce_two; done.
  - intros Hnone. pose proof (parseLogRecord_spec record) as Hr. fold attrs in Hr.
    destruct (parseLogRecord MarshalAttributes record) as [e|]; [|done].
    destruct Hr as (tool & type & (Ht & _ & E) & _). by destruct (Hnone tool type).
Qed.

(** What the code does not collect: requests to a model, their responses and decisions are
    dropped, and the status, the cost and the counts of tokens of an event are always zero. *)
Theorem api_events_dropped record e :
  parseLogRecord MarshalAttributes record = Some e ->
  collected_name (getStringAttr (extractAttributes (Attributes record)) "event.name") (rae_Tool e) (rae_EventType e) /\
  StatusCode (rae_api e) = 0 /\ CostUSD (rae_api e) = zero_float /\ rae_tokens e = no_tokens.
Proof.
  intros Hp. pose proof (parseLogRecord_spec record) as Hr. cbv zeta in Hr. rewrite Hp in Hr.
  destruct Hr as (tool & type & Hn & ->). cbn [rae_api rae_tokens rae_Tool rae_EventType]. split; [done|].
  destruct Hn as (_ & Htype & _). unfold collected in Htype. cbn [fmap list_fmap] in Htype. rewrite !elem_of_cons, elem_of_nil in Htype.
  by destruct Htype as [->|[->|[->|[]]]].
Qed.
End Events.

(** ** From the receiver to the screen *)

(** How deep the JSON of a value and of a list of attributes is nested, by the
    documented mapping of messages to objects: a value is an object, the lists of an
    array and of a list of keys are objects with an array, and an attribute is an
    object. *)
Fixpoint any_depth (v : AnyValue) : Z :=
  match v with
  | ArrayValue l => 3 + foldr Z.max 0 (any_depth <$> l)
  | KvlistValue l => 4 + foldr Z.max 0 ((fun kv => match kv.2 with Some v => any_depth v | None => 0 end) <$> l)
  | _ => 1
  end.

Definition attributes_depth (l : list KeyValue) : Z :=
  3 + foldr Z.max 0 ((fun kv => match Value kv with Some v => any_depth v | None => 0 end) <$> l).

Lemma attributes_depth_pos l : 3 <= attributes_depth l.
Proof.
  unfold attributes_depth. generalize ((fun kv => match Value kv with Some v => any_depth v | None => 0 end) <$> l). intros ns.
  assert (0 <= foldr Z.max 0 ns) by (induction ns; cbn; lia). lia.
Qed.

(** What is documented of the texts of numbers and of [protojson]: the text of the
    attributes is JSON nested as deep as they are, whose numbers are those of the
    attributes. *)
Class DoubleLaws `{Doubles} : Prop := {
  format_byte d : Forall byte (FormatFloat d);
  overflow_range d : - 2 ^ 63 <= int_overflow d < 2 ^ 63;
}.

Class ProtoLaws `{Floats} (MarshalAttributes : list KeyValue -> option (list Z)) : Prop := {
  proto_json l b : MarshalAttributes l = Some b ->
    Forall byte b /\ (attributes_depth l <= maxNestingDepth ->
      exists v, parse b = Some v /\ depth v <= attributes_depth l /\ all (fun _ => True) (fun t => is_Some (float_text t)) any_keys v);
}.

Section Shown.
Context `{DoubleLaws} `{TextLaws} `{FloatLaws} (MarshalAttributes : list KeyValue -> option (list Z)) `{!ProtoLaws MarshalAttributes}.

(** Strings are bytes and integers have 64 bits. *)
Definition value_ok (v : AnyValue) : Prop :=
  match v with
  | StringValue s => Forall byte s
  | IntValue n => - 2 ^ 63 <= n < 2 ^ 63
  | _ => True
  end.

(** The line of an event is two levels deeper than its attributes, and is read when it
    has at most 10000. *)
Definition attributes_ok (l : list KeyValue) : Prop :=
  Forall (fun kv => match Value kv with Some v => value_ok v | None => True end) l /\ attributes_depth l <= maxNestingDepth - 2.

Lemma attributes_values l k v : attributes_ok l -> extractAttributes l !! k = Some v -> value_ok v.
Proof.
  intros Hl. rewrite extractAttributes_lookup. unfold attribute. intros (kv & Hkv & E)%last_Some_elem_of%list_elem_of_omap.
  destruct Hl as [Hl _]. rewrite Forall_forall in Hl. specialize (Hl kv Hkv). case_decide; [|done]. by rewrite E in Hl.
Qed.

Lemma get_byte l k : attributes_ok l -> Forall byte (getStringAttr (extractAttributes l) k).
Proof.
  intros Hl. unfold getStringAttr. destruct (extractAttributes l !! str k) as [v|] eqn:E; [|constructor].
  pose proof (attributes_values _ _ _ Hl E) as Hv. destruct v as [|s|b|n|d|a|a|b]; try constructor; [done| |apply FormatInt_byte|apply format_byte].
  destruct b; by apply (bool_decide_unpack _).
Qed.

Lemma Atoi_range s n : Atoi s = Some n -> - 2 ^ 63 <= n < 2 ^ 63.
Proof.
  assert (forall t m, ParseUint 10 t = Some m -> 0 <= m < 2 ^ 64) as Hp by (intros t m; apply ParseUint_range; lia).
  unfold Atoi. intros Hn. repeat case_match; apply bind_Some in Hn as (m & Hm%Hp & E); case_match; simplify_eq; zbool; lia.
Qed.

Lemma get_int l k : attributes_ok l -> - 2 ^ 64 <= parseIntAttr (extractAttributes l) k <= 2 ^ 64.
Proof.
  intros Hl. enough (- 2 ^ 63 <= parseIntAttr (extractAttributes l) k < 2 ^ 63) by lia. unfold parseIntAttr.
  destruct (extractAttributes l !! str k) as [v|] eqn:E; [|lia]. pose proof (attributes_values _ _ _ Hl E) as Hv.
  case_decide; [lia|]. destruct v as [|s|b|n|d|a|a|b]; try lia; [|done|].
  - destruct (Atoi s) eqn:Ea; [by eapply Atoi_range|lia].
  - unfold int_of_float. pose proof (overflow_range d). destruct (truncate d) as [n|]; [|done].
    destruct (_ && _) eqn:En; [zbool; lia|done].
Qed.

Lemma coalesce_byte l : Forall (Forall byte) l -> Forall byte (coalesce l).
Proof. induction 1; [constructor|]. cbn. by case_decide. Qed.

(** The fields that are not left out. *)
Lemma Forall_slots (P : string * Records.field -> Prop) slots :
  Forall (fun s : Records.slot => s.1 = false -> P s.2) slots -> Forall P (Records.filled slots).
Proof. induction 1 as [|[z f] slots Hf Hs IH]; [constructor|]. unfold Records.filled. cbn. destruct z; [done|constructor; [by apply Hf|done]]. Qed.

Lemma agent_event_ok record e r host :
  attributes_ok (Attributes record) -> parseLogRecord MarshalAttributes record = Some e -> ToRecord host e = Some r ->
  Forall byte host -> is_Some (MarshalTime (s64 (TimeUnixNano record))) -> event_ok (Records.AgentEvent r).
Proof.
  intros Hl Hp Hr Hh Ht. pose proof (parseLogRecord_spec MarshalAttributes record) as Hs. rewrite Hp in Hs.
  destruct Hs as (tool & type & (Hto & Hty & _) & ->). injection Hr as <-.
  assert (Forall byte tool) as Hb1.
  { unfold tools in Hto. rewrite !elem_of_cons, elem_of_nil in Hto. destruct Hto as [->|[->|[->|[]]]]; by apply (bool_decide_unpack _). }
  assert (Forall byte type) as Hb2.
  { unfold collected in Hty. cbn [fmap list_fmap] in Hty. rewrite !elem_of_cons, elem_of_nil in Hty.
    destruct Hty as [->|[->|[->|[]]]]; by apply (bool_decide_unpack _). }
  assert (Forall byte (tool ++ 46 :: type)) as Hb3 by (apply Forall_app_2; [done|]; apply Forall_cons_2; [unfold byte; lia|done]).
  pose proof (fun k => get_byte _ k Hl) as Hg. pose proof (fun k => get_int _ k Hl) as Hi.
  unfold event_ok. cbn [Records.event_fields]. unfold Records.RecordAgentEvent_fields, Records.RecordAgentEvent_slots.
  cbn [rae_Timestamp rae_Tool rae_EventName rae_EventType rae_ids rae_Host rae_Attributes rae_prompt rae_tool rae_api rae_tokens].
  unfold tools in Hto. rewrite !elem_of_cons, elem_of_nil in Hto.
  unfold collected in Hty. cbn [fmap list_fmap] in Hty. rewrite !elem_of_cons, elem_of_nil in Hty.
  assert (forall x, x ∈ [ConversationID; SessionID; Model; Slug; AppVersion] -> Forall byte (x (common_fields (extractAttributes (Attributes record)) tool))) as Hids.
  { intros x Hx. rewrite !elem_of_cons, elem_of_nil in Hx.
    destruct Hto as [->|[->|[->|[]]]], Hx as [->|[->|[->|[->|[->|[]]]]]]; first [apply Hg|constructor]. }
  assert (field_ok ("attributes"%string, Records.Raw (default [] (MarshalAttributes (Attributes record))))) as Ha.
  { destruct (MarshalAttributes (Attributes record)) as [b|] eqn:Eb; [|exists Null; split; [by left|by split; [constructor|]]].
    destruct (proto_json _ _ Eb) as [Hb Hv]. destruct Hl as [_ Hd]. destruct Hv as (v & Hv & Hdv & Hr); [lia|]. eapply ok_message; [done..|lia]. }
  unfold Records.keep, Records.omit_string, Records.omit_int. apply Forall_slots.
  repeat apply Forall_cons_2; try apply Forall_nil_2; cbn [fst snd]; intros Hz;
    try (by apply ok_time); try (by apply ok_string); try (apply ok_string, Hids; set_solver); try exact Ha; try apply ok_bool.
  all: try (apply ok_string; destruct Hty as [->|[->|[->|[]]]];
    solve [apply Hg|constructor|apply coalesce_byte; repeat apply Forall_cons_2; [apply Hg..|apply Forall_nil_2]]).
  all: try (apply ok_int; destruct Hty as [->|[->|[->|[]]]]; solve [apply Hi|vm_compute; split; discriminate]).
  by destruct Hty as [->|[->|[->|[]]]].
Qed.

(** The events of a request, in order. *)
Definition events_of (req : request) : list RecordAgentEvent := omap (parseLogRecord MarshalAttributes) (mjoin (mjoin req)).

Lemma Export_offers req c : Export MarshalAttributes req c = foldl (fun c e => Channel.offer e c) c (events_of req).
Proof.
  unfold Export, events_of.
  assert (forall l c, foldl (fun c logRecord => match parseLogRecord MarshalAttributes logRecord with Some event => Channel.offer event c | None => c end) c l =
    foldl (fun c e => Channel.offer e c) c (omap (parseLogRecord MarshalAttributes) l)) as Hl.
  { induction l as [|x l IH]; intros d; [done|]. cbn. destruct (parseLogRecord MarshalAttributes x); cbn; apply IH. }
  assert (forall l c, foldl (fun c scopeLogs => foldl (fun c logRecord => match parseLogRecord MarshalAttributes logRecord with
    Some event => Channel.offer event c | None => c end) c scopeLogs) c l =
    foldl (fun c e => Channel.offer e c) c (omap (parseLogRecord MarshalAttributes) (mjoin l))) as Hr.
  { induction l as [|x l IH]; intros d; [done|]. cbn [foldl]. change (mjoin (x :: l)) with (x ++ mjoin l).
    by rewrite IH, Hl, omap_app, foldl_app. }
  revert c. induction req as [|x req IH]; intros c; [done|]. cbn [foldl]. change (mjoin (x :: req)) with (x ++ mjoin req).
  by rewrite IH, Hr, join_app, omap_app, foldl_app.
Qed.

Lemma offers_queue es q b : (length q + length es <= Channel.ExportChannelSize)%nat ->
  foldl (fun c e => Channel.offer e c) (Channel.Chan q b : Channel.chan RecordAgentEvent) es = Channel.Chan (q ++ es) b.
Proof.
  revert q. induction es as [|e es IH]; intros q Hl; [by rewrite app_nil_r|]. cbn [foldl length] in *. unfold Channel.offer at 2. cbn [Channel.queue Channel.closed].
  rewrite (proj2 (Nat.ltb_lt _ _)) by lia. rewrite IH by (rewrite length_app; simpl; lia). by rewrite <- app_assoc.
Qed.

(** *** Optional fields *)

Lemma optional_shown fields m k x : fields_are fields m ->
  last_field k fields = (if decide (x = []) then None else Some (Records.String_ x)) -> Display.fieldString m k = ToValidUTF8 x.
Proof.
  intros Hm Hf. destruct (decide (x = [])) as [->|_]; [by apply (absent_shown _ _ _ Hm)|by apply (string_shown _ _ _ _ Hm)].
Qed.

(** The texts of an event. *)
Definition texts : list (string * (RecordAgentEvent -> list Z)) :=
  [("model"%string, fun r => Model (rae_ids r)); ("prompt"%string, fun r => Prompt (rae_prompt r));
   ("tool_name"%string, fun r => ToolName (rae_tool r)); ("call_id"%string, fun r => CallID (rae_tool r));
   ("arguments"%string, fun r => Arguments_ (rae_tool r)); ("output"%string, fun r => Output (rae_tool r));
   ("decision"%string, fun r => Decision_ (rae_tool r)); ("error"%string, fun r => ErrorMsg (rae_api r))].

Lemma texts_shown r m : fields_are (Records.event_fields (Records.AgentEvent r)) m ->
  Forall (fun kx => Display.fieldString m kx.1 = ToValidUTF8 (kx.2 r)) texts.
Proof.
  intros Hm. unfold texts. repeat apply Forall_cons_2; try apply Forall_nil_2; cbn [fst snd]; apply (optional_shown _ _ _ _ Hm);
    cbn [Records.event_fields]; (etransitivity; [eapply agent_field; unfold Records.RecordAgentEvent_slots; repeat first [by left|right]|]);
    by case_bool_decide; case_decide.
Qed.

Lemma collected_summary tool type : tool ∈ tools -> type ∈ collected ->
  utf8_TrimSpace (ToValidUTF8 tool ++ str " " ++ ToValidUTF8 (tool ++ 46 :: type)) = tool ++ 32 :: tool ++ 46 :: type.
Proof.
  unfold tools, collected. cbn [fmap list_fmap]. rewrite !elem_of_cons, !elem_of_nil.
  intros [->|[->|[->|[]]]] [->|[->|[->|[]]]]; vm_compute; reflexivity.
Qed.

Lemma consume_all {R Rec} (f : R -> Rec) (q : list R) : (length q < Channel.maxBatchSize)%nat ->
  Channel.consumeFromChannel (fun x => Some (f x)) (Channel.Chan q false) = (f <$> q, true, Channel.Chan [] false).
Proof.
  intros Hq. pose proof (consumeFromChannel_spec (fun x => Some (f x)) (Channel.Chan q false)) as H'.
  destruct (Channel.consumeFromChannel _ _) as [[events open] [q' cl]]. cbn [Channel.queue Channel.closed] in H'.
  destruct H' as (n & -> & -> & -> & _ & Hn & Ho).
  assert (forall l : list R, omap (fun x => Some (f x)) l = f <$> l) as Hom by (intros l; induction l as [|x l IH]; [done|]; cbn; by rewrite IH).
  assert (n = length q \/ (length q <= n)%nat) as Hn'.
  { destruct (decide (n < length q)%nat) as [Hlt|]; [left|right; lia]. apply Hn. rewrite Hom, length_fmap, length_take. lia. }
  rewrite take_ge, drop_ge, Hom by lia. destruct open; [done|]. by destruct Ho.
Qed.

(** C20. From an agent to the screen.  The log records of a request, fewer than a batch
    of which are collected, are taken by the receiver when its channel is empty; the
    next tick of the exporter takes all of their events, in order, and empties the
    channel.  Each is exported as a line, with whatever [protojson] wrote of its
    attributes, which are nested at most 9998 levels deep, and shown at its time with its tool and name as the summary and with
    its texts; what is empty was left out of the line and is shown as empty. *)
Theorem agent_events_shown req host now :
  Forall (fun record => attributes_ok (Attributes record) /\ is_Some (MarshalTime (s64 (TimeUnixNano record)))) (mjoin (mjoin req)) ->
  Forall byte host -> is_Some (MarshalTime now) -> (length (events_of req) < Channel.maxBatchSize)%nat ->
  exists rs, Channel.consumeFromChannel (ToRecord host) (Export MarshalAttributes req (Channel.Chan [] false)) = (rs, true, Channel.Chan [] false) /\
  Forall2 (fun e r => exists b m,
      Records.Marshal {| Jsonl.Endpoint := str "agent_event"; Jsonl.Timestamp := now; Jsonl.Event := Records.AgentEvent r |} = Some b /\
      Display.parseJSONLRecord b = inr (display (str "agent_event") now m) /\
      Timestamp (display (str "agent_event") now m) = rae_Timestamp e /\
      Summary (display (str "agent_event") now m) = rae_Tool e ++ 32 :: rae_EventName e /\
      Forall (fun kx => Display.fieldString m kx.1 = ToValidUTF8 (kx.2 e)) texts)
    (events_of req) rs.
Proof.
  intros Hok Hh Hnow Hl. assert (Channel.maxBatchSize <= Channel.ExportChannelSize)%nat as Hsz by (unfold Channel.maxBatchSize, Channel.ExportChannelSize; lia).
  rewrite Export_offers, offers_queue by (simpl; lia). cbn [app]. eexists. split; [by apply consume_all|].
  apply Forall2_fmap_r. unfold events_of in *. clear Hl.
  induction Hok as [|record l [Ha Ht] Hok IH]; [constructor|]. cbn [omap list_omap].
  destruct (parseLogRecord MarshalAttributes record) as [e|] eqn:Ep; [|done]. constructor; [|done]. unfold compose.
  set (r := {| rae_Host := host |}).
  pose proof (agent_event_ok record e r host Ha Ep eq_refl Hh Ht) as He.
  destruct (event_shown (Records.AgentEvent r) now He) as (b & m & Hb & _ & Hf & Hd & _ & Hti & _ & Hsum); [done..|].
  exists b, m. split_and!; [done|done|exact Hti| |].
  - etransitivity; [exact Hsum|]. pose proof (parseLogRecord_spec MarshalAttributes record) as Hs. rewrite Ep in Hs.
    destruct Hs as (tool & type & (Hto & Hty & _) & ->). by apply collected_summary.
  - pose proof (texts_shown r m Hf) as Htx. unfold texts in *. rewrite !Forall_cons, Forall_nil in Htx |- *. exact Htx.
Qed.
End Shown.

(** ** A prompt *)

#[export] Instance ref_doubles : Doubles := { FormatFloat _ := str "0"; ParseFloat _ := None; int_overflow _ := 0 }.

#[export] Instance ref_double_laws : DoubleLaws.
Proof. split; intros d; [by apply (bool_decide_unpack _)|cbn; lia]. Qed.

(** The keys of the attributes. *)
Definition ref_attributes (l : list KeyValue) : option (list Z) :=
  if decide (Forall (Forall byte) (Key <$> l)) then Some (encode (Arr (Str <$> (Key <$> l)))) else None.

#[export] Instance ref_proto_laws : ProtoLaws ref_attributes.
Proof.
  split. intros l b. unfold ref_attributes. case_decide as Hl; [|done]. intros Hb. apply (inj Some) in Hb. subst b.
  assert (all (Forall byte) (fun _ => False) any_keys (Arr (Str <$> (Key <$> l)))) as Ha.
  { constructor. apply Forall_fmap. eapply Forall_impl; [exact Hl|]. intros k Hk. by constructor. }
  assert (wf (Arr (Str <$> (Key <$> l)))) as Hw by (apply (all_wf any_keys); revert Ha; by apply all_impl).
  assert (forall n, 0 <= n -> depth (Arr (Str <$> (Key <$> l))) <= 1 + n) as Hd.
  { intros n Hn. apply depth_arr; [done|]. apply Forall_fmap, Forall_forall. intros k _. exact Hn. }
  specialize (Hd 0 ltac:(done)). split; [by apply encode_byte|]. intros _. eexists. split; [apply json_roundtrip; [done|unfold maxNestingDepth; lia]|].
  split; [rewrite canon_depth; pose proof (attributes_depth_pos l); lia|].
  apply (canon_all (Forall byte) (fun _ => True) _ any_keys); [done|]. revert Ha. by apply all_impl.
Qed.

Definition demo_attributes : list KeyValue :=
  [{| Key := str "event.name"; Value := Some (StringValue (str "claude_code.user_prompt")) |};
   {| Key := str "session.id"; Value := Some (StringValue (str "s1")) |};
   {| Key := str "prompt_length"; Value := Some (IntValue 5) |};
   {| Key := str "prompt"; Value := None |};
   {| Key := str "prompt"; Value := Some (StringValue (str "hello")) |}].

(** A prompt, and a request to the model, which is not collected. *)
Definition demo_logs : request :=
  [[[{| TimeUnixNano := 3; Attributes := demo_attributes |};
     {| TimeUnixNano := 4; Attributes := [{| Key := str "event.name"; Value := Some (StringValue (str "claude_code.api_request")) |}] |}]]].

Lemma agent_events_shown_witness :
  exists r, Channel.consumeFromChannel (ToRecord (str "h")) (Export ref_attributes demo_logs (Channel.Chan [] false)) =
    ([r], true, Channel.Chan [] false) /\ Prompt (rae_prompt r) = str "hello" /\
  exists b m, Records.Marshal {| Jsonl.Endpoint := str "agent_event"; Jsonl.Timestamp := 5; Jsonl.Event := Records.AgentEvent r |} = Some b /\
    Display.parseJSONLRecord b = inr (display (str "agent_event") 5 m) /\
    Summary (display (str "agent_event") 5 m) = str "claude_code claude_code.user_prompt".
Proof.
  destruct (agent_events_shown ref_attributes demo_logs (str "h") 5) as (rs & Hc & Hs).
  - apply Forall_cons_2; [split; [|by eexists]|apply Forall_cons_2; [split; [|by eexists]|apply Forall_nil_2]];
      (split; [|by apply Z.leb_le]); repeat apply Forall_cons_2; try apply Forall_nil_2; cbn [Value value_ok]; first [by apply (bool_decide_unpack _)|lia].
  - by apply (bool_decide_unpack _).
  - by eexists.
  - vm_compute. lia.
  - assert (exists r, rs = [r] /\ Prompt (rae_prompt r) = str "hello") as (r & -> & Hr).
    { assert (rs = (Channel.consumeFromChannel (ToRecord (str "h")) (Export ref_attributes demo_logs (Channel.Chan [] false))).1.1) as -> by (by rewrite Hc).
      eexists. split; vm_compute; reflexivity. }
    exists r. split; [exact Hc|]. split; [exact Hr|].
    assert (exists e, events_of ref_attributes demo_logs = [e] /\ rae_Tool e ++ 32 :: rae_EventName e = str "claude_code claude_code.user_prompt") as (e & He & Hsum)
      by (eexists; split; vm_compute; reflexivity).
    rewrite He in Hs. apply Forall2_cons in Hs as [(b & m & Hb & Hm & _ & Hsu & _) _]. exists b, m. split; [exact Hb|]. split; [exact Hm|].
    rewrite Hsu. exact Hsum.
Defined.
