(* ===== verification/Lifecycle.v ===== *)
(** The life of the collector: the constructors and [Close] of the probes in
    [stdio/probe.go], [postgres/probe.go], [tcpconn/probe.go], [execve/probe.go] and
    [fileop/probe.go], and [run] and [resolveRuntimePaths] of [cmd/main.go].

    What the eBPF library hands out are the handles of [Attach].  A constructor loads
    its objects, attaches its programs and opens its ring buffers; [run] makes one
    probe after the other, each with a deferred [Close], waits for the end and lets the
    deferred calls run, last first, also when a constructor fails or panics.  The
    goroutine of the TLS probe attaches to libraries all the while. *)

From S2P Require Import Prelude GoStd Collector Policy Attach Export Json JsonMap PolicyFile.

(** ** Probes *)
Module Probes.

(** Which object sets load, which programs of a set attach, and which ring buffers of a
    set can be opened. *)
Record system := {
  loads : string -> bool;
  attaches : string -> string -> bool;
  opens_ring : string -> string -> bool;
  GOARCH : string;
}.

(** How a constructor ends. *)
Inductive made (A : Type) := Made (p : A) | Failed | Panicked.
Arguments Made {A} p.
Arguments Failed {A}.
Arguments Panicked {A}.

(** A probe with one ring buffer, which is nil until it is open. *)
Record ring_probe := { objs : nat; rb : option nat; links : list nat }.

Definition release_reader (rb : option nat) : prog world unit :=
  match rb with Some h => release h | None => mret tt end.

(** The loop that tries every program: the links, and how many failed. *)
Fixpoint attach_each (ok : string -> bool) (names : list string) : prog world (list nat * nat) :=
  match names with
  | [] => mret ([], 0%nat)
  | name :: names' =>
      if ok name then
        l ← acquire;
        r ← attach_each ok names';
        mret (l :: r.1, r.2)
      else
        r ← attach_each ok names';
        mret (r.1, S r.2)
  end.

(** The loop that stops at the first failure and closes what it has. *)
Fixpoint attach_until (ok : string -> bool) (names : list string) (attached : list nat) : prog world (option (list nat)) :=
  match names with
  | [] => mret (Some attached)
  | name :: names' =>
      if ok name then
        l ← acquire;
        attach_until ok names' (attached ++ [l])
      else
        release_all attached;;
        mret None
  end.

Section Constructors.
Context (s : system).

(** *** [stdio/probe.go] *)

Definition stdio_Close (p : ring_probe) : prog world unit :=
  release (objs p);; release_reader (rb p);; release_all (links p).

Definition attachStdioProbes : prog world (option (list nat)) :=
  r ← attach_each (attaches s "stdio") ["sys_enter_read"; "sys_exit_read"; "sys_enter_write"]%string;
  if decide (0 < r.2)%nat then release_all r.1;; mret None else mret (Some r.1).

Definition NewStdioProbe : prog world (made ring_probe) :=
  if loads s "stdio" then
    o ← acquire;
    l ← attachStdioProbes;
    match l with
    | None => mret Failed
    | Some ls =>
        if opens_ring s "stdio" "events" then
          h ← acquire;
          mret (Made {| objs := o; rb := Some h; links := ls |})
        else
          stdio_Close {| objs := o; rb := None; links := ls |};;
          mret Failed
    end
  else mret Failed.

(** *** [postgres/probe.go] *)

Definition postgres_Close (p : ring_probe) : prog world unit :=
  release (objs p);; release_reader (rb p);; release_all (links p).

Definition NewPostgresProbe : prog world (made ring_probe) :=
  if loads s "pg" then
    o ← acquire;
    r ← attach_each (attaches s "pg") ["sys_enter_sendto"; "sys_enter_close"]%string;
    if decide (0 < r.2)%nat then mret Panicked
    else if opens_ring s "pg" "events" then
      h ← acquire;
      mret (Made {| objs := o; rb := Some h; links := r.1 |})
    else
      postgres_Close {| objs := o; rb := None; links := r.1 |};;
      mret Panicked
  else mret Panicked.

(** *** [tcpconn/probe.go] *)

Definition tcpconn_Close (p : ring_probe) : prog world unit :=
  release_all (links p);; release_reader (rb p);; release (objs p).

Definition NewTCPConnProbe : prog world (made ring_probe) :=
  if loads s "tcpconn" then
    o ← acquire;
    l ← attach_until (attaches s "tcpconn") ["tcp_close"; "tcp_v4_connect"; "tcp_v6_connect"; "tcp_set_state"]%string [];
    match l with
    | None => release o;; mret Failed
    | Some ls =>
        if opens_ring s "tcpconn" "events" then
          h ← acquire;
          mret (Made {| objs := o; rb := Some h; links := ls |})
        else
          tcpconn_Close {| objs := o; rb := None; links := ls |};;
          mret Failed
    end
  else mret Failed.

(** *** [execve/probe.go] *)

Record exec_probe := { x_objs : nat; rbProc : option nat; rbDynLib : option nat; x_links : list nat }.

Definition exec_Close (p : exec_probe) : prog world unit :=
  release (x_objs p);; release_reader (rbProc p);; release_reader (rbDynLib p);; release_all (x_links p).

Definition attachExecProbes : prog world (option (list nat)) :=
  r ← attach_each (attaches s "exec")
        ["sched_process_exec"; "sys_enter_openat"; "sys_enter_openat2"; "sys_exit_openat"; "sys_exit_openat2"; "sys_enter_close";
         "sys_enter_mmap"]%string;
  if decide (0 < r.2)%nat then release_all r.1;; mret None else mret (Some r.1).

Definition NewProcExecProbe : prog world (made exec_probe) :=
  if loads s "exec" then
    o ← acquire;
    l ← attachExecProbes;
    match l with
    | None => mret Failed
    | Some ls =>
        if opens_ring s "exec" "proc_events" then
          h ← acquire;
          if opens_ring s "exec" "dynlib_events" then
            h' ← acquire;
            mret (Made {| x_objs := o; rbProc := Some h; rbDynLib := Some h'; x_links := ls |})
          else
            exec_Close {| x_objs := o; rbProc := Some h; rbDynLib := None; x_links := ls |};;
            mret Failed
        else
          exec_Close {| x_objs := o; rbProc := None; rbDynLib := None; x_links := ls |};;
          mret Failed
    end
  else mret Failed.

(** *** [fileop/probe.go] *)

(** The loop of [attachFileOpProbes]. *)
Fixpoint attach_fileop (names : list string) (attached : list nat) : prog world (option (list nat)) :=
  match names with
  | [] => mret (Some attached)
  | name :: names' =>
      if unsupportedFileOpTracepoint (GOARCH s) name then attach_fileop names' attached
      else if attaches s "fileop" name then
        l ← acquire;
        attach_fileop names' (attached ++ [l])
      else
        release_all attached;;
        mret None
  end.

Definition attachFileOpProbes : prog world (option (list nat)) := attach_fileop tracepoints [].

Definition fileop_Close (p : ring_probe) : prog world unit :=
  release (objs p);; release_reader (rb p);; release_all (links p).

Definition NewFileOpProbe : prog world (made ring_probe) :=
  if loads s "fileop" then
    o ← acquire;
    l ← attachFileOpProbes;
    match l with
    | None => release o;; mret Failed
    | Some ls =>
        if opens_ring s "fileop" "events" then
          h ← acquire;
          mret (Made {| objs := o; rb := Some h; links := ls |})
        else
          fileop_Close {| objs := o; rb := None; links := ls |};;
          mret Failed
    end
  else mret Failed.
End Constructors.
End Probes.

(** ** [run] of [cmd/main.go] *)
Module Command.
Import Probes.

Record CmdConfig := { exportTarget : list Z; sslPath : list Z; otelAddr : list Z; fileOpPolicyPath : list Z }.

(** The open handles, the map of the TLS probe, which grows while it runs, and whether
    its [Start] runs. *)
Record runtime := { handles_of : world; attached : gmap LibKey probe; started : bool }.

Definition on_world {A} (p : prog world A) : prog runtime A :=
  fun s => let '(x, w) := p (handles_of s) in (x, {| handles_of := w; attached := attached s; started := started s |}).

Definition on_tls (p : gmap LibKey probe -> prog world (gmap LibKey probe)) : prog runtime unit :=
  fun s => let '(ps, w) := p (attached s) (handles_of s) in (tt, {| handles_of := w; attached := ps; started := started s |}).

(** [go sslProbe.Start(ctx)]. *)
Definition go_Start : prog runtime unit :=
  fun s => (tt, {| handles_of := handles_of s; attached := attached s; started := true |}).

(** [Close] of the TLS probe: the closed probes stay in the map. *)
Definition tls_Close : prog runtime unit := fun s => on_world (close_all (map_to_list (attached s))) s.

(** How [run] ends: with the error of a step, with the panic of one, or when the
    context is done. *)
Inductive ending :=
  | InitExporter | InitEBPF | InitExec | PanicTLS | InitStdio | PanicPostgres | InitTCPConn | LoadPolicyFailed
  | InitFileOp | CreateReceiver | Cancelled.

(** [export.NewExporter] and [Close]: the sink of a file holds it open. *)
Definition NewExporter (sink : Target.sink) : prog world (option nat) :=
  match sink with
  | Target.JSONLSink _ => h ← acquire; mret (Some h)
  | _ => mret None
  end.

Section Run.

(** The machine: its architecture and the eBPF library, the file system when the TLS
    probe is made, the parser of URLs, which gateways are healthy and which files can
    be opened, the contents of files, which addresses can be listened on and whether
    the memory limit can be removed; and what the TLS probe is told at each of the
    points between the steps of [run]. *)
Context (a : arch) (sys : system) (o : os) (Parse : list Z -> option Target.URL) (healthy openable : list Z -> bool)
  (ReadFile : list Z -> option (list Z)) (listens : list Z -> bool) (unlocks : bool) (told : nat -> list (os * event)).

(** What [Start] of the TLS probe does meanwhile.  Nothing waits for it: it may still be
    told of libraries while the deferred calls run, also after the probe was closed. *)
Definition meanwhile (i : nat) : prog runtime unit :=
  fun s => if started s then on_tls (start_loop a (told i)) s else (tt, s).

(** [defer close()], for what follows. *)
Definition defer {A} (i : nat) (close : prog runtime unit) (body : prog runtime A) : prog runtime A :=
  r ← body; meanwhile i;; close;; mret r.

Definition receive (cfg : CmdConfig) : prog runtime ending :=
  if decide (0 < length (otelAddr cfg))%nat then
    if listens (otelAddr cfg) then
      h ← on_world acquire;
      defer 6 (on_world (release h)) (meanwhile 5;; mret Cancelled)
    else mret CreateReceiver
  else meanwhile 5;; mret Cancelled.

Definition run_fileop (cfg : CmdConfig) : prog runtime ending :=
  match LoadPolicy ReadFile (fileOpPolicyPath cfg) with
  | inl _ => mret LoadPolicyFailed
  | inr _ =>
      p ← on_world (NewFileOpProbe sys);
      match p with
      | Made fileOpProbe => defer 7 (on_world (fileop_Close fileOpProbe)) (meanwhile 4;; receive cfg)
      | _ => mret InitFileOp
      end
  end.

Definition run_tcpconn (cfg : CmdConfig) : prog runtime ending :=
  p ← on_world (NewTCPConnProbe sys);
  match p with
  | Made tcpConnProbe => defer 8 (on_world (tcpconn_Close tcpConnProbe)) (meanwhile 3;; run_fileop cfg)
  | _ => mret InitTCPConn
  end.

Definition run_postgres (cfg : CmdConfig) : prog runtime ending :=
  p ← on_world (NewPostgresProbe sys);
  match p with
  | Made pgProbe => defer 9 (on_world (postgres_Close pgProbe)) (meanwhile 2;; run_tcpconn cfg)
  | _ => mret PanicPostgres
  end.

Definition run_stdio (cfg : CmdConfig) : prog runtime ending :=
  p ← on_world (NewStdioProbe sys);
  match p with
  | Made stdioProbe => defer 10 (on_world (stdio_Close stdioProbe)) (meanwhile 1;; run_postgres cfg)
  | _ => mret InitStdio
  end.

Definition run_tls (cfg : CmdConfig) : prog runtime ending :=
  match NewTLSProbe a o (sslPath cfg) with
  | None => mret PanicTLS
  | Some new => on_tls (fun _ => new);; defer 11 tls_Close (go_Start;; meanwhile 0;; run_stdio cfg)
  end.

Definition run_exec (cfg : CmdConfig) : prog runtime ending :=
  if unlocks then
    p ← on_world (NewProcExecProbe sys);
    match p with
    | Made execProbe => defer 12 (on_world (exec_Close execProbe)) (run_tls cfg)
    | _ => mret InitExec
    end
  else mret InitEBPF.

Definition run_exporter (cfg : CmdConfig) : prog runtime ending :=
  match Target.NewSink Parse healthy openable (exportTarget cfg) with
  | None => mret InitExporter
  | Some sink =>
      exporter ← on_world (NewExporter sink);
      defer 13 (on_world (release_reader exporter)) (run_exec cfg)
  end.

(** [run]: the end, and the handles that are open when it returns. *)
Definition run (cfg : CmdConfig) : prog world ending :=
  fun w => let '(r, s) := run_exporter cfg {| handles_of := w; attached := ∅; started := false |} in (r, handles_of s).
End Run.

(** ** [resolveRuntimePaths] *)

Section Paths.
Context (Parse : list Z -> option Target.URL) (MkdirTemp : option (list Z)).

(** [filepath.Join] of two paths, and [filepath.Dir]. *)
Definition Join (dir name : list Z) : list Z :=
  match dir, name with
  | [], [] => []
  | [], _ => Target.Clean name
  | _, [] => Target.Clean dir
  | _, _ => Target.Clean (dir ++ 47 :: name)
  end.

Fixpoint drop_base (reversed : list Z) : list Z :=
  match reversed with
  | c :: r => if c =? 47 then reversed else drop_base r
  | [] => []
  end.

Definition Dir (path : list Z) : list Z := Target.Clean (reverse (drop_base (reverse path))).

(** The target, the file for the interface, the log file and the directory to be
    removed. *)
Definition resolveRuntimePaths (target logPath : list Z) (enableTUI : bool) : option (list Z * list Z * list Z * list Z) :=
  if negb enableTUI then Some (target, [], logPath, [])
  else if decide (target = []) then
    path ← MkdirTemp;
    let filePath := Join path (str "events.jsonl") in
    let logPath := if decide (logPath = []) then Join path (str "watchu.log") else logPath in
    Some (str "file://" ++ filePath, filePath, logPath, path)
  else
    filePath ← Target.FilePathFromTarget Parse target;
    let logPath := if decide (logPath = []) then Join (Dir filePath) (str "watchu.log") else logPath in
    Some (target, filePath, logPath, []).
End Paths.
End Command.
