(* ===== verification/LifecycleTheorems.v ===== *)
(** Nothing stays open: the handles of the probes and of [run].

    A constructor that succeeds has opened exactly the handles its [Close] releases; one
    that fails has closed what it opened, apart from those that [leaks] counts.  [run]
    closes everything it opened whatever step fails or panics, apart from these, what
    failed attempts of the TLS probe left behind, and what it attached to after it was
    closed. *)

From S2P Require Import Prelude GoStd Collector Policy Attach AttachTheorems Export Json JsonMap PolicyFile Lifecycle.
Import Probes Command.

(** ** Handles *)

(** The handles [H] and no others are open. *)
Definition holds (H : list nat) (w : world) : Prop := bounded w /\ NoDup H /\ live w = list_to_set H.

Lemma holds_opens hs H w w' : holds H w -> opens hs w w' -> holds (hs ++ H) w'.
Proof. intros (Hb & N & E) Ho. destruct (opens_extend _ _ _ _ Hb N E Ho). split_and!; [by eapply opens_bounded|done..]. Qed.

Lemma holds_acquire H w : holds H w -> holds ((acquire w).1 :: H) (acquire w).2.
Proof. intros Hh. apply (holds_opens [_] H w); [done|]. apply opens_acquire. by destruct Hh. Qed.

Lemma holds_perm H H' w : H ≡ₚ H' -> holds H w -> holds H' w.
Proof. intros Hp (Hb & N & E). split_and!; [done|by rewrite <- Hp|]. rewrite E. by apply list_to_set_perm_L. Qed.

Lemma holds_release h H w : holds (h :: H) w -> holds H (exec (release h) w).
Proof.
  intros (Hb & [Hn N]%NoDup_cons & E). split_and!; cbn; [|done|].
  - intros x Hx. apply Hb. cbn in Hx. set_solver.
  - rewrite E, list_to_set_cons. apply set_eq. intros x. set_unfold. destruct (decide (x = h)); naive_solver.
Qed.

Lemma holds_release_all hs H w : holds (hs ++ H) w -> holds H (exec (release_all hs) w).
Proof. revert w. induction hs as [|h hs IH]; intros w Hh; [done|]. by apply IH, holds_release. Qed.

(** From the handles [H], the program ends with handles that [Q] relates to its
    result. *)
Definition triple {A} (H : list nat) (p : prog world A) (Q : A -> list nat -> Prop) : Prop :=
  forall w, holds H w -> exists H', Q (p w).1 H' /\ holds H' (p w).2.

Section Triples.
Context {A B : Type}.

Lemma triple_ret H (x : A) (Q : A -> list nat -> Prop) : Q x H -> triple H (mret x) Q.
Proof. intros HQ w Hw. by exists H. Qed.

Lemma triple_bind H (p : prog world A) (k : A -> prog world B) R Q :
  triple H p R -> (forall x H', R x H' -> triple H' (k x) Q) -> triple H (x ← p; k x) Q.
Proof.
  intros Hp Hk w Hw. destruct (Hp w Hw) as (H1 & HR & H1w). prog_unfold. destruct (p w) as [x w1]. by apply (Hk x H1).
Qed.

Lemma triple_perm H H' (p : prog world A) Q : H ≡ₚ H' -> triple H p Q -> triple H' p Q.
Proof. intros Hp Ht w Hw. apply Ht. by eapply holds_perm. Qed.

Lemma triple_ext H (p p' : prog world A) Q : (forall w, p w = p' w) -> triple H p Q -> triple H p' Q.
Proof. intros E Ht w Hw. rewrite <- E. by apply Ht. Qed.
End Triples.

Lemma triple_acquire H : triple H acquire (fun h H' => H' = h :: H).
Proof. intros w Hw. eexists. split; [done|by apply holds_acquire]. Qed.

Lemma triple_release h H : triple (h :: H) (release h) (fun _ H' => H' = H).
Proof. intros w Hw. eexists. split; [done|]. by apply holds_release. Qed.

Lemma triple_release_all hs H : triple (hs ++ H) (release_all hs) (fun _ H' => H' = H).
Proof. intros w Hw. eexists. split; [done|]. by apply holds_release_all. Qed.

Definition reader (rb : option nat) : list nat := option_list rb.

Lemma triple_reader rb H : triple (reader rb ++ H) (release_reader rb) (fun _ H' => H' = H).
Proof. destruct rb; [apply triple_release|by apply triple_ret]. Qed.

(** One step of a program, and the rest. *)
Ltac step := eapply triple_bind; [|intros ? ?].
Ltac acquired := eapply triple_bind; [apply triple_acquire|intros ? ? ->].

(** ** Attaching *)

Definition count (ok : string -> bool) (names : list string) : nat := length (List.filter ok names).

Lemma attach_each_triple ok names H :
  triple H (attach_each ok names) (fun r H' => H' ≡ₚ r.1 ++ H /\ length r.1 = count ok names /\ (r.2 = 0%nat <-> forallb ok names = true)).
Proof.
  revert H. induction names as [|name names IH]; intros H; [by apply triple_ret|]. cbn [attach_each forallb]. unfold count. cbn [List.filter].
  destruct (ok name); cbn [andb].
  - acquired. eapply triple_bind; [apply IH|]. intros r H' (Hp & Hl & Hz). apply triple_ret. cbn [fst snd]. split_and!; [|cbn; by rewrite Hl|done].
    rewrite Hp. by rewrite <- Permutation_middle.
  - eapply triple_bind; [apply IH|]. intros r H' (Hp & Hl & Hz). apply triple_ret. cbn [fst snd]. by split_and!.
Qed.

(** All links, or none of them. *)
Lemma attach_all_triple ok names H :
  triple H (r ← attach_each ok names; if decide (0 < r.2)%nat then release_all r.1;; mret None else mret (Some r.1))
    (fun r H' => match r with
                 | Some ls => forallb ok names = true /\ H' ≡ₚ ls ++ H
                 | None => forallb ok names = false /\ H' ≡ₚ H
                 end).
Proof.
  eapply triple_bind; [apply attach_each_triple|]. intros r H' (Hp & _ & Hz). destruct (decide (0 < r.2)%nat) as [Hf|Hf].
  - eapply triple_bind; [eapply triple_perm, triple_release_all; by symmetry|]. intros [] ? ->. apply triple_ret.
    split; [|done]. apply not_true_is_false. rewrite <- Hz. lia.
  - apply triple_ret. split; [apply Hz; lia|done].
Qed.

Lemma attach_until_triple ok names attached H :
  triple (attached ++ H) (attach_until ok names attached)
    (fun r H' => match r with
                 | Some ls => forallb ok names = true /\ H' ≡ₚ ls ++ H
                 | None => forallb ok names = false /\ H' ≡ₚ H
                 end).
Proof.
  revert attached. induction names as [|name names IH]; intros attached; [by apply triple_ret|]. cbn [attach_until forallb]. destruct (ok name).
  - acquired. eapply triple_perm, IH. rewrite <- app_assoc. cbn [app]. by rewrite <- Permutation_middle.
  - eapply triple_bind; [apply triple_release_all|]. intros [] ? ->. by apply triple_ret.
Qed.

(** Programs that the architecture lacks are left out. *)
Lemma attach_fileop_until s names attached w :
  attach_until (attaches s "fileop") (List.filter (fun name => negb (unsupportedFileOpTracepoint (GOARCH s) name)) names) attached w =
  attach_fileop s names attached w.
Proof.
  revert attached w. induction names as [|name names IH]; intros attached w; [done|]. cbn [attach_fileop List.filter].
  destruct (unsupportedFileOpTracepoint _ name); cbn [negb]; [apply IH|]. cbn [attach_until]. destruct (attaches s "fileop" name); [|done].
  prog_unfold. destruct (acquire w). apply IH.
Qed.

(** ** Constructors *)

Definition ring_handles (p : ring_probe) : list nat := objs p :: reader (rb p) ++ links p.
Definition exec_handles (p : exec_probe) : list nat := x_objs p :: reader (rbProc p) ++ reader (rbDynLib p) ++ x_links p.

(** [Close] of the probes releases the handles, in either order. *)
Lemma close_triple p H :
  triple (ring_handles p ++ H) (release (objs p);; release_reader (rb p);; release_all (links p)) (fun _ H' => H' = H).
Proof.
  unfold ring_handles. cbn [app]. rewrite <- app_assoc.
  eapply triple_bind; [apply triple_release|]. intros [] ? ->. eapply triple_bind; [apply triple_reader|]. intros [] ? ->. apply triple_release_all.
Qed.

Lemma tcpconn_Close_triple p H : triple (ring_handles p ++ H) (tcpconn_Close p) (fun _ H' => H' = H).
Proof.
  apply (triple_perm (links p ++ reader (rb p) ++ objs p :: H)).
  { unfold ring_handles. cbn [app]. rewrite <- Permutation_middle, <- Permutation_middle, app_assoc, (Permutation_app_comm (links p)), <- app_assoc. done. }
  eapply triple_bind; [apply triple_release_all|]. intros [] ? ->. eapply triple_bind; [apply triple_reader|]. intros [] ? ->. apply triple_release.
Qed.

Lemma exec_Close_triple p H : triple (exec_handles p ++ H) (exec_Close p) (fun _ H' => H' = H).
Proof.
  unfold exec_handles. cbn [app]. rewrite <- !app_assoc. unfold exec_Close.
  eapply triple_bind; [apply triple_release|]. intros [] ? ->. eapply triple_bind; [apply triple_reader|]. intros [] ? ->.
  eapply triple_bind; [apply triple_reader|]. intros [] ? ->. apply triple_release_all.
Qed.

(** A constructor: it succeeds when it can; then the handles of the probe are open,
    otherwise as many as leak. *)
Definition constructs {A} (new : prog world (made A)) (ok : bool) (hs : A -> list nat) (leak : nat) : Prop := forall H,
  triple H new (fun r H' => match r with
    | Made p => ok = true /\ H' ≡ₚ hs p ++ H
    | _ => ok = false /\ exists L, H' ≡ₚ L ++ H /\ length L = leak
    end).

Section Leaks.
Context (s : system).

Definition stdio_names : list string := ["sys_enter_read"; "sys_exit_read"; "sys_enter_write"]%string.
Definition pg_names : list string := ["sys_enter_sendto"; "sys_enter_close"]%string.
Definition tcpconn_names : list string := ["tcp_close"; "tcp_v4_connect"; "tcp_v6_connect"; "tcp_set_state"]%string.
Definition fileop_names : list string := List.filter (fun name => negb (unsupportedFileOpTracepoint (GOARCH s) name)) tracepoints.
Definition exec_names : list string :=
  ["sched_process_exec"; "sys_enter_openat"; "sys_enter_openat2"; "sys_exit_openat"; "sys_exit_openat2"; "sys_enter_close";
   "sys_enter_mmap"]%string.

(** All that a constructor needs. *)
Definition ready (set : string) (names rings : list string) : bool :=
  loads s set && forallb (attaches s set) names && forallb (opens_ring s set) rings.

(** A set of objects that was loaded but not all of whose programs attach. *)
Definition unattached (set : string) (names : list string) : bool := loads s set && negb (forallb (attaches s set) names).

Definition stdio_leak : nat := if unattached "stdio" stdio_names then 1 else 0.
Definition exec_leak : nat := if unattached "exec" exec_names then 1 else 0.
Definition pg_leak : nat := if unattached "pg" pg_names then S (count (attaches s "pg") pg_names) else 0.

Lemma leak_nothing (H : list nat) n : n = 0%nat -> exists L : list nat, H ≡ₚ L ++ H /\ length L = n.
Proof. intros ->. by exists []. Qed.

(** The end of the constructors: the ring buffer is opened, or everything closed. *)
Lemma ring_triple o ls ok good (close : ring_probe -> prog world unit) (failed : made ring_probe) H H' leak :
  (forall p H, triple (ring_handles p ++ H) (close p) (fun _ H' => H' = H)) -> failed = Failed \/ failed = Panicked -> leak = 0%nat ->
  good = ok && true -> H' ≡ₚ ls ++ o :: H ->
  triple H' (if ok : bool then h ← acquire; mret (Made {| objs := o; rb := Some h; links := ls |})
             else close {| objs := o; rb := None; links := ls |};; mret failed)
    (fun r H' => match r with
       | Made p => good = true /\ H' ≡ₚ ring_handles p ++ H
       | _ => good = false /\ exists L, H' ≡ₚ L ++ H /\ length L = leak
       end).
Proof.
  intros Hclose Hf -> -> Hp. destruct ok.
  - acquired. apply triple_ret. split; [done|]. unfold ring_handles. cbn. rewrite Hp, <- Permutation_middle. constructor.
  - eapply triple_bind; [eapply triple_perm, Hclose|].
    + unfold ring_handles. cbn. by rewrite Hp, Permutation_middle.
    + intros [] ? ->. apply triple_ret. destruct Hf as [-> | ->]; (split; [done|by apply leak_nothing]).
Qed.

Lemma NewStdioProbe_constructs : constructs (NewStdioProbe s) (ready "stdio" stdio_names ["events"]) ring_handles stdio_leak.
Proof.
  intros H. unfold NewStdioProbe, stdio_leak, unattached, ready. destruct (loads s "stdio"); [|apply triple_ret; by split; [|apply leak_nothing]].
  acquired. eapply triple_bind; [apply attach_all_triple|]. intros [ls|] H' [Hall Hp]; fold stdio_names in Hall; rewrite Hall; cbn [andb negb].
  - by apply ring_triple; [apply close_triple|left|..].
  - apply triple_ret. split; [done|]. eexists [_]. by split.
Qed.

Lemma NewPostgresProbe_constructs : constructs (NewPostgresProbe s) (ready "pg" pg_names ["events"]) ring_handles pg_leak.
Proof.
  intros H. unfold NewPostgresProbe, pg_leak, unattached, ready. destruct (loads s "pg"); [|apply triple_ret; by split; [|apply leak_nothing]].
  acquired. eapply triple_bind; [apply attach_each_triple|]. intros r H' (Hp & Hl & Hz). fold pg_names in Hl, Hz.
  destruct (decide (0 < r.2)%nat) as [Hf|Hf].
  - assert (forallb (attaches s "pg") pg_names = false) as -> by (apply not_true_is_false; rewrite <- Hz; lia).
    apply triple_ret. split; [done|]. exists (r.1 ++ [x]). rewrite length_app, Hl, <- app_assoc. split; [done|cbn; lia].
  - assert (forallb (attaches s "pg") pg_names = true) as -> by (apply Hz; lia).
    by apply ring_triple; [apply close_triple|right|..].
Qed.

Lemma NewTCPConnProbe_constructs : constructs (NewTCPConnProbe s) (ready "tcpconn" tcpconn_names ["events"]) ring_handles 0.
Proof.
  intros H. unfold NewTCPConnProbe, ready. destruct (loads s "tcpconn"); [|apply triple_ret; by split; [|apply leak_nothing]].
  acquired. eapply triple_bind; [apply (attach_until_triple _ _ [])|]. intros [ls|] H' [Hall Hp]; fold tcpconn_names in Hall; rewrite Hall; cbn [andb].
  - by apply ring_triple; [apply tcpconn_Close_triple|left|..].
  - eapply triple_bind; [eapply triple_perm, triple_release; by symmetry|]. intros [] ? ->. apply triple_ret. by split; [|apply leak_nothing].
Qed.

Lemma NewFileOpProbe_constructs : constructs (NewFileOpProbe s) (ready "fileop" fileop_names ["events"]) ring_handles 0.
Proof.
  intros H. unfold NewFileOpProbe, attachFileOpProbes, ready. destruct (loads s "fileop"); [|apply triple_ret; by split; [|apply leak_nothing]].
  acquired. eapply triple_bind; [eapply triple_ext, (attach_until_triple _ _ []); intros w; apply attach_fileop_until|].
  intros [ls|] H' [Hall Hp]; fold fileop_names in Hall; rewrite Hall; cbn [andb].
  - by apply ring_triple; [apply close_triple|left|..].
  - eapply triple_bind; [eapply triple_perm, triple_release; by symmetry|]. intros [] ? ->. apply triple_ret. by split; [|apply leak_nothing].
Qed.

Lemma NewProcExecProbe_constructs :
  constructs (NewProcExecProbe s) (ready "exec" exec_names ["proc_events"; "dynlib_events"]) exec_handles exec_leak.
Proof.
  intros H. unfold NewProcExecProbe, exec_leak, unattached, ready. destruct (loads s "exec"); [|apply triple_ret; by split; [|apply leak_nothing]].
  acquired. eapply triple_bind; [apply attach_all_triple|]. intros [ls|] H' [Hall Hp]; fold exec_names in Hall; rewrite Hall; cbn [andb negb forallb].
  2:{ apply triple_ret. split; [done|]. eexists [_]. by split. }
  destruct (opens_ring s "exec" "proc_events").
  - acquired. destruct (opens_ring s "exec" "dynlib_events").
    + acquired. apply triple_ret. split; [done|]. unfold exec_handles. cbn. rewrite Hp, <- !Permutation_middle.
      change ([x1; x0; x] ++ ls ++ H ≡ₚ [x; x0; x1] ++ ls ++ H). apply Permutation_app_tail, (reverse_Permutation [x; x0; x1]).
    + eapply triple_bind; [eapply triple_perm, (exec_Close_triple {| x_objs := x; rbProc := Some x0; rbDynLib := None; x_links := ls |} H)|].
      * unfold exec_handles. cbn. rewrite Hp, <- Permutation_middle. constructor.
      * intros [] ? ->. apply triple_ret. by split; [|apply leak_nothing].
  - eapply triple_bind; [eapply triple_perm, (exec_Close_triple {| x_objs := x; rbProc := None; rbDynLib := None; x_links := ls |} H)|].
    + unfold exec_handles. cbn. by rewrite Hp, Permutation_middle.
    + intros [] ? ->. apply triple_ret. by split; [|apply leak_nothing].
Qed.
End Leaks.

(** ** [run] *)
Section Run.
Context (a : arch) (sys : system) (o : os) (Parse : list Z -> option Target.URL) (healthy openable : list Z -> bool)
  (ReadFile : list Z -> option (list Z)) (listens : list Z -> bool) (unlocks : bool) (told : nat -> list (os * event)).

(** The end is that of the first step that cannot be made. *)
Fixpoint first_failure (steps : list (bool * ending)) : ending :=
  match steps with
  | [] => Cancelled
  | (ok, e) :: steps' => if ok then first_failure steps' else e
  end.

(** How many of the steps after the TLS probe was started were tried, and what a
    constructor that failed left open. *)
Definition stages (r : ending) : nat :=
  match r with
  | InitExporter | InitEBPF | InitExec | PanicTLS => 0
  | InitStdio => 1 | PanicPostgres => 2 | InitTCPConn => 3 | LoadPolicyFailed | InitFileOp => 4 | CreateReceiver => 5
  | Cancelled => 6
  end.

Definition leaks (r : ending) : nat :=
  match r with
  | InitExec => exec_leak sys
  | InitStdio => stdio_leak sys
  | PanicPostgres => pg_leak sys
  | _ => 0
  end.

(** The points that the part of [run] from the [k]-th step on passes: one after each
    step, and one before each deferred call. *)
Definition tour (cfg : CmdConfig) (k : nat) (r : ending) : list nat :=
  seq k (stages r - k) ++
  (if bool_decide (stages r = 6%nat /\ otelAddr cfg <> []) then [6%nat] else []) ++
  seq (12 - Nat.min 5 (stages r)) (Nat.min 5 (stages r) - k).

(** The ledger of the TLS probe after these points. *)
Definition visit (l : ledger) (i : nat) : ledger := ledger_run a (told i) l.
Definition after (ns : list nat) (l : ledger) : ledger := fold_left visit ns l.

Lemma after_app ns ns' l : after (ns ++ ns') l = after ns' (after ns l).
Proof. apply fold_left_app. Qed.

(** A part of [run] after the TLS probe was started, before it is closed: it ends as the
    steps tell, closes all it opens, and leaves open what the probe lost and what
    leaks. *)
Definition settled (pts : ending -> list nat) (steps : list (bool * ending)) (H : list nat) (l : ledger) (x : ending * runtime) : Prop :=
  let '(r, s) := x in
  r = first_failure steps /\ started s = true /\
  exists L, held (L ++ H) (attached s) (handles_of s) (keys (after (pts r) l)) /\ (lost (after (pts r) l) + leaks r = lost l + length L)%nat.

Definition clean (pts : ending -> list nat) (steps : list (bool * ending)) (p : prog runtime ending) : Prop := forall H l s,
  held H (attached s) (handles_of s) (keys l) -> started s = true -> settled pts steps H l (p s).

(** A closing program, which releases the handles [hs]. *)
Definition closes (close : prog world unit) (hs : list nat) : Prop := forall H, triple (hs ++ H) close (fun _ H' => H' = H).

Lemma held_perm H H' ps w ks : H ≡ₚ H' -> held H ps w ks -> held H' ps w ks.
Proof.
  intros Hp (Hd & Hb & Hf & N & E). split_and!; [done..|by rewrite <- Hp|]. rewrite E. apply list_to_set_perm_L. by rewrite Hp.
Qed.

(** The handles of the TLS probe are a frame for programs that do not touch it. *)
Lemma held_holds H ps w ks : held H ps w ks -> holds (H ++ owned (map_to_list ps)) w.
Proof. intros (_ & Hb & _ & N & E). eapply holds_perm; [apply Permutation_app_comm|]. by split_and!. Qed.

Lemma held_frame H H' ps w w' ks : held H ps w ks -> holds (H' ++ owned (map_to_list ps)) w' -> held H' ps w' ks.
Proof.
  intros (Hd & _ & Hf & _) Hh. apply (holds_perm _ (owned (map_to_list ps) ++ H')) in Hh; [|apply Permutation_app_comm].
  destruct Hh as (Hb & N & E). by split_and!.
Qed.

Lemma close_held close hs H ps w ks : closes close hs -> held (hs ++ H) ps w ks -> held H ps (close w).2 ks.
Proof.
  intros Hc Hh. pose proof (held_holds _ _ _ _ Hh) as Hw. rewrite <- app_assoc in Hw.
  destruct (Hc _ w Hw) as (H' & -> & Hw'). by eapply held_frame.
Qed.

Lemma meanwhile_held i H l s : held H (attached s) (handles_of s) (keys l) -> started s = true ->
  let s' := (meanwhile a told i s).2 in
  started s' = true /\ exists L, held (L ++ H) (attached s') (handles_of s') (keys (visit l i)) /\ lost (visit l i) = (lost l + length L)%nat.
Proof.
  intros Hh Hs. unfold meanwhile, on_tls, visit. rewrite Hs. pose proof (start_loop_held a (told i) H _ _ l Hh) as H1.
  by destruct (start_loop a (told i) (attached s) (handles_of s)) as [ps w].
Qed.

(** The ends of the steps. *)
Lemma first_failure_in steps : first_failure steps ∈ Cancelled :: steps.*2.
Proof. induction steps as [|[[] e] steps IH]; cbn; set_solver. Qed.

Lemma settled_points pts pts' steps H l x :
  Forall (fun e => pts e = pts' e) (Cancelled :: steps.*2) -> settled pts steps H l x -> settled pts' steps H l x.
Proof.
  intros Hp. destruct x as [r s]. intros (-> & Hs & Hx). rewrite Forall_forall in Hp. rewrite (Hp _ (first_failure_in steps)) in Hx. done.
Qed.

(** What the TLS probe is told, and the rest. *)
Lemma clean_told i pts steps p : clean pts steps p -> clean (fun r => i :: pts r) steps (meanwhile a told i;; p).
Proof.
  intros Hp H l s Hh Hs. pose proof (meanwhile_held i H l s Hh Hs) as H1. prog_unfold.
  destruct (meanwhile a told i s) as [[] s1]. cbn [snd] in H1. destruct H1 as (Hs1 & L1 & H1 & E1).
  specialize (Hp (L1 ++ H) _ s1 H1 Hs1). destruct (p s1) as [r s2]. destruct Hp as (Hr & Hs2 & L2 & H2 & E2).
  split_and!; [done..|]. exists (L2 ++ L1). rewrite <- app_assoc, length_app. cbn [after fold_left] in *. split; [done|]. unfold after in E2. lia.
Qed.

(** An end, after which something may have leaked. *)
Lemma settled_here pts ok e steps H l L s :
  first_failure ((ok, e) :: steps) = e -> pts e = [] -> leaks e = length L -> held (L ++ H) (attached s) (handles_of s) (keys l) ->
  started s = true -> settled pts ((ok, e) :: steps) H l (e, s).
Proof. intros Hf Hst El Hh Hs. split_and!; [done..|]. exists L. rewrite Hst. split; [done|]. cbn. lia. Qed.

Lemma clean_fail pts e steps : pts e = [] -> leaks e = 0%nat -> clean pts ((false, e) :: steps) (mret e).
Proof. intros Hst El H l s Hh Hs. by apply (settled_here _ _ _ _ _ _ []). Qed.

Lemma clean_cancelled : clean (fun _ => []) [] (mret Cancelled).
Proof. intros H l s Hh Hs. split_and!; [done..|]. exists []. split; [done|cbn; lia]. Qed.

Lemma settled_defer i pts steps close hs p H l s :
  closes close hs -> clean pts steps p -> held (hs ++ H) (attached s) (handles_of s) (keys l) -> started s = true ->
  settled (fun r => pts r ++ [i]) steps H l (defer a told i (on_world close) p s).
Proof.
  intros Hc Hp Hh Hs. specialize (Hp _ l s Hh Hs). unfold defer. prog_unfold. destruct (p s) as [r s1]. destruct Hp as (Hr & Hs1 & L & H1 & E).
  pose proof (meanwhile_held i _ _ s1 H1 Hs1) as Hm. destruct (meanwhile a told i s1) as [[] s2]. cbn [snd] in Hm. destruct Hm as (Hs2 & L2 & H2 & E2).
  unfold on_world. apply (held_perm _ (hs ++ (L2 ++ L) ++ H)) in H2. 2: by rewrite (app_assoc L2), Permutation_app_swap_app.
  pose proof (close_held _ _ _ _ _ _ Hc H2) as H3. destruct (close (handles_of s2)) as [[] w]. split_and!; [done..|].
  exists (L2 ++ L). rewrite after_app, length_app. cbn [after fold_left]. split; [done|]. unfold after in *. lia.
Qed.

Lemma on_world_bind {A B} (p : prog world A) (k : A -> prog runtime B) s :
  (x ← on_world p; k x) s = let '(x, w) := p (handles_of s) in k x {| handles_of := w; attached := attached s; started := started s |}.
Proof. unfold on_world. prog_unfold. by destruct (p (handles_of s)). Qed.

(** The steps of [run], and when each can be made. *)
Definition receive_steps (cfg : CmdConfig) : list (bool * ending) :=
  [(bool_decide (otelAddr cfg = []) || listens (otelAddr cfg), CreateReceiver)].

Definition probe_steps (cfg : CmdConfig) : list (bool * ending) :=
  [(ready sys "stdio" stdio_names ["events"%string], InitStdio);
   (ready sys "pg" pg_names ["events"%string], PanicPostgres);
   (ready sys "tcpconn" tcpconn_names ["events"%string], InitTCPConn);
   (match LoadPolicy ReadFile (fileOpPolicyPath cfg) with inr _ => true | inl _ => false end, LoadPolicyFailed);
   (ready sys "fileop" (fileop_names sys) ["events"%string], InitFileOp)] ++ receive_steps cfg.

(** The points of a part, from those of the next. *)
Lemma tour_up cfg k e : (k < stages e)%nat -> (k < 5)%nat -> tour cfg k e = (k :: tour cfg (S k) e) ++ [(11 - k)%nat].
Proof.
  intros Hk Hk5. unfold tour. replace (stages e - k)%nat with (S (stages e - S k)) by lia. cbn [seq app]. f_equal. rewrite <- !app_assoc. do 2 f_equal.
  replace (Nat.min 5 (stages e) - k)%nat with (S (Nat.min 5 (stages e) - S k)) by lia. rewrite seq_S. do 2 f_equal. lia.
Qed.

Lemma receive_clean cfg : clean (tour cfg 5) (receive_steps cfg) (receive a listens told cfg).
Proof.
  assert (clean (fun _ => [5%nat]) [] (meanwhile a told 5;; mret Cancelled)) as Hc by apply (clean_told 5 (fun _ => [])), clean_cancelled.
  unfold receive, receive_steps. destruct (otelAddr cfg) as [|c addr] eqn:Ea.
  - rewrite bool_decide_true by done. intros H l s Hh Hs.
    change (settled (tour cfg 5) [] H l ((meanwhile a told 5;; mret Cancelled) s)). eapply (settled_points (fun _ => [5%nat])); [|by apply (Hc H l s)].
    apply Forall_cons_2; [|apply Forall_nil_2]. unfold tour. by rewrite Ea, bool_decide_false by naive_solver.
  - rewrite decide_True by (cbn; lia). rewrite bool_decide_false by done. cbn [orb].
    destruct (listens (c :: addr)); [|apply clean_fail; [|done]; unfold tour; by rewrite bool_decide_false by (cbn; lia)].
    intros H l s Hh Hs. rewrite on_world_bind.
    pose proof (holds_acquire _ _ (held_holds _ _ _ _ Hh)) as Ha. destruct (acquire (handles_of s)) as [h w]. cbn [fst snd] in Ha.
    set (s1 := {| handles_of := w |}). change (settled (tour cfg 5) [] H l (defer a told 6 (on_world (release h)) (meanwhile a told 5;; mret Cancelled) s1)).
    eapply settled_points; [|eapply (settled_defer 6 (fun _ => [5%nat]) _ _ [h]); [intros H'; apply triple_release|done| |done]].
    + apply Forall_cons_2; [|apply Forall_nil_2]. unfold tour. by rewrite Ea, bool_decide_true by done.
    + cbn. by eapply (held_frame _ (h :: H)).
Qed.

Lemma tour_end cfg k e : stages e = k -> (k <= 5)%nat -> tour cfg k e = [].
Proof. intros <- Hk. unfold tour. rewrite bool_decide_false by lia. rewrite Nat.min_r, !Nat.sub_diag by done. done. Qed.

(** A probe is made, and closed in the end. *)
Lemma clean_stage {A} cfg k (new : prog world (made A)) (close : A -> prog world unit) (hs : A -> list nat) ok leak err steps p :
  constructs new ok hs leak -> (forall x, closes (close x) (hs x)) -> stages err = k -> leaks err = leak -> (k < 5)%nat ->
  Forall (fun e => (k < stages e)%nat) (Cancelled :: steps.*2) -> clean (tour cfg (S k)) steps p ->
  clean (tour cfg k) ((ok, err) :: steps)
    (x ← on_world new; match x with Made x => defer a told (11 - k) (on_world (close x)) (meanwhile a told k;; p) | _ => mret err end).
Proof.
  intros Hnew Hclose Hst Hleak Hk Hpts Hp H l s Hh Hs. destruct (Hnew _ _ (held_holds _ _ _ _ Hh)) as (H1 & HQ & H1w).
  rewrite on_world_bind. destruct (new (handles_of s)) as [x w]. cbn [fst snd] in *. apply clean_told with (i := k) in Hp.
  destruct x as [x| |]; [destruct HQ as [-> HQ]|destruct HQ as [-> (L & HQ & <-)]..]; rewrite app_assoc in HQ.
  - set (s1 := {| handles_of := w |}).
    change (settled (tour cfg k) steps H l (defer a told (11 - k) (on_world (close x)) (meanwhile a told k;; p) s1)).
    eapply settled_points; [|eapply settled_defer; [done..| |done]].
    + eapply Forall_impl; [exact Hpts|]. cbn beta. intros e He. symmetry. by apply tour_up.
    + cbn. eapply held_frame; [done|]. by eapply holds_perm.
  - eapply settled_here; [done|apply tour_end; [done|lia]|done| |done]. cbn. eapply held_frame; [done|]. by eapply holds_perm.
  - eapply settled_here; [done|apply tour_end; [done|lia]|done| |done]. cbn. eapply held_frame; [done|]. by eapply holds_perm.
Qed.

Ltac stage made close :=
  eapply clean_stage; [apply made|exact close|reflexivity|reflexivity|lia|repeat (apply Forall_cons_2; [cbn; lia|]); apply Forall_nil_2|].

Lemma run_stdio_clean cfg : clean (tour cfg 1) (probe_steps cfg) (run_stdio a sys ReadFile listens told cfg).
Proof.
  unfold run_stdio, probe_steps. cbn [app].
  stage NewStdioProbe_constructs close_triple. unfold run_postgres.
  stage NewPostgresProbe_constructs close_triple. unfold run_tcpconn.
  stage NewTCPConnProbe_constructs tcpconn_Close_triple. unfold run_fileop.
  destruct (LoadPolicy ReadFile (fileOpPolicyPath cfg)); [apply clean_fail; [apply tour_end; cbn; lia|done]|].
  change (clean (tour cfg 4) ((ready sys "fileop" (fileop_names sys) ["events"%string], InitFileOp) :: receive_steps cfg)
            (x ← on_world (NewFileOpProbe sys);
             match x with Made p => defer a told 7 (on_world (fileop_Close p)) (meanwhile a told 4;; receive a listens told cfg) | _ => mret InitFileOp end)).
  stage NewFileOpProbe_constructs close_triple. apply receive_clean.
Qed.

(** ** From the start *)

(** After the TLS probe was closed, nothing closes what it still opens: the handles of a
    library it attaches to are left open as those of an attempt that failed. *)
Definition late_lib (o : os) (l : ledger) (lib : Detect.ProcTLSLib) : ledger :=
  match Detect.FindLibKey o (Detect.Path lib) with
  | None => l
  | Some key =>
      if decide (key ∈ keys l) then l
      else if attachable a o lib then {| keys := {[key]} ∪ keys l; lost := (lost l + (2 + link_count lib))%nat |}
      else {| keys := keys l; lost := (lost l + leak a o lib)%nat |}
  end.

Definition late_run (l : ledger) (i : nat) : ledger :=
  fold_left (fun l oe => fold_left (late_lib oe.1) (default [] (detect oe.1 oe.2)) l) (told i) l.

Definition late (ns : list nat) (l : ledger) : ledger := fold_left late_run ns l.

(** From [l] to [l'], the handles lost are open beside [H]. *)
Definition drifts (H : list nat) (l l' : ledger) (x : gmap LibKey probe * world) : Prop :=
  dom x.1 = keys l' /\ exists hs, holds (hs ++ H) x.2 /\ lost l' = (lost l + length hs)%nat.

Lemma drifts_refl H l ps w : dom ps = keys l -> holds H w -> drifts H l l (ps, w).
Proof. intros Hd Hh. split; [done|]. exists []. split; [done|cbn; lia]. Qed.

Lemma drifts_trans H l1 l2 l3 x y :
  drifts H l1 l2 x -> (forall H', dom x.1 = keys l2 -> holds H' x.2 -> drifts H' l2 l3 y) -> drifts H l1 l3 y.
Proof.
  intros (Hd & hs & Hh & E) Hy. destruct (Hy _ Hd Hh) as (Hd' & hs' & Hh' & E'). split; [done|].
  exists (hs' ++ hs). rewrite <- app_assoc, length_app. split; [done|lia].
Qed.

Lemma attach_lib_late o' lib H ps w l : dom ps = keys l -> holds H w -> drifts H l (late_lib o' l lib) (attach_lib a o' lib ps w).
Proof.
  intros Hd Hh. unfold attach_lib, late_lib. destruct (Detect.FindLibKey o' (Detect.Path lib)) as [key|]; [|by apply drifts_refl].
  rewrite <- Hd. destruct (decide (is_Some (ps !! key))) as [Hk|Hk].
  { rewrite decide_True by (by apply elem_of_dom). by apply drifts_refl. }
  rewrite decide_False by (by rewrite elem_of_dom). prog_unfold.
  pose proof (new_probe_spec a o' lib w (proj1 Hh)) as Hp. destruct (new_probe a o' lib w) as [[p|] w'].
  - destruct Hp as (-> & Ho & Hlen). split; [cbn; by rewrite dom_insert_L|]. exists (handles p). split; [by eapply holds_opens|]. cbn. by rewrite Hlen.
  - destruct Hp as (-> & hs & Hlen & Ho). split; [done|]. exists hs. split; [by eapply holds_opens|]. cbn. by rewrite Hlen.
Qed.

Lemma attach_libs_late o' libs H ps w l :
  dom ps = keys l -> holds H w -> drifts H l (fold_left (late_lib o') libs l) (attach_libs a o' libs ps w).
Proof.
  revert H ps w l. induction libs as [|lib libs IH]; intros H ps w l Hd Hh; [by apply drifts_refl|].
  cbn [attach_libs fold_left]. prog_unfold. pose proof (attach_lib_late o' lib H ps w l Hd Hh) as H1.
  destruct (attach_lib a o' lib ps w) as [ps1 w1]. eapply drifts_trans; [exact H1|]. intros H'. apply IH.
Qed.

Lemma start_loop_late evs H ps w l : dom ps = keys l -> holds H w ->
  drifts H l (fold_left (fun l oe => fold_left (late_lib oe.1) (default [] (detect oe.1 oe.2)) l) evs l) (start_loop a evs ps w).
Proof.
  revert H ps w l. induction evs as [|[o' ev] evs IH]; intros H ps w l Hd Hh; [by apply drifts_refl|].
  cbn [start_loop fold_left fst snd]. prog_unfold.
  assert (drifts H l (fold_left (late_lib o') (default [] (detect o' ev)) l) (start_body a o' ev ps w)) as H1.
  { unfold start_body. fold (detect o' ev). destruct (detect o' ev); [by apply attach_libs_late|by apply drifts_refl]. }
  destruct (start_body a o' ev ps w) as [ps1 w1]. eapply drifts_trans; [exact H1|]. intros H'. apply IH.
Qed.

(** The ledger when the end is reached, with the points [ns] after the closing of the
    TLS probe. *)
Definition at_end (cfg : CmdConfig) (ns : list nat) (r : ending) : ledger :=
  match stages r with
  | O => no_ledger
  | S _ => late ns (after (tour cfg 0 r) (ledger_libs a o (initial_libs a o (sslPath cfg)) no_ledger))
  end.

(** What is open after [run], beyond what was open before it: two points come after the
    closing of the TLS probe. *)
Definition left_open (cfg : CmdConfig) (r : ending) : nat := (leaks r + lost (at_end cfg [12%nat; 13%nat] r))%nat.

Definition ended (cfg : CmdConfig) (ns : list nat) (steps : list (bool * ending)) (H : list nat) (x : ending * runtime) : Prop :=
  x.1 = first_failure steps /\ started x.2 = negb (stages x.1 =? 0)%nat /\ dom (attached x.2) = keys (at_end cfg ns x.1) /\
  exists L, holds (L ++ H) (handles_of x.2) /\ length L = (leaks x.1 + lost (at_end cfg ns x.1))%nat.

Definition ends (cfg : CmdConfig) (ns : list nat) (steps : list (bool * ending)) (p : prog runtime ending) : Prop := forall H s,
  holds H (handles_of s) -> attached s = ∅ -> started s = false -> ended cfg ns steps H (p s).

(** An end before the TLS probe was started. *)
Lemma ended_early cfg ns ok e steps H L s : first_failure ((ok, e) :: steps) = e -> stages e = 0%nat -> leaks e = length L ->
  holds (L ++ H) (handles_of s) -> attached s = ∅ -> started s = false -> ended cfg ns ((ok, e) :: steps) H (e, s).
Proof.
  intros Hf Hst El Hh Ha Hs. unfold ended, at_end. cbn [fst snd]. rewrite Hst, Ha, Hs. split_and!; [done|done|by rewrite dom_empty_L|].
  exists L. split; [done|]. cbn. lia.
Qed.

Lemma ends_fail cfg ns e steps : stages e = 0%nat -> leaks e = 0%nat -> ends cfg ns ((false, e) :: steps) (mret e).
Proof. intros Hst El H s Hh Ha Hs. by apply (ended_early _ _ _ _ _ _ []). Qed.

Lemma ended_ok cfg ns e steps H x : ended cfg ns steps H x -> ended cfg ns ((true, e) :: steps) H x.
Proof. done. Qed.

(** A point after the closing. *)
Lemma ended_told cfg ns i steps H r s : ended cfg ns steps H (r, s) -> ended cfg (ns ++ [i]) steps H (r, (meanwhile a told i s).2).
Proof.
  intros (Hr & Hs & Hd & L & Hh & El). unfold ended, meanwhile, at_end in *. cbn [fst snd] in *. rewrite Hs.
  destruct (stages r) as [|k]; cbn [Nat.eqb negb] in *; cbv iota. { split_and!; [done..|by exists L]. }
  pose proof (start_loop_late (told i) _ _ _ _ Hd Hh) as Hl. unfold on_tls. destruct (start_loop a (told i) (attached s) (handles_of s)) as [ps w].
  destruct Hl as (Hd' & hs & Hh' & E'). cbn [fst snd handles_of attached started] in *. unfold late in *. rewrite fold_left_app.
  split_and!; [done..|]. exists (hs ++ L). rewrite <- app_assoc, length_app. split; [done|]. cbn [fold_left]. unfold late_run at 1. lia.
Qed.

Lemma ended_defer cfg ns i steps close hs p H s :
  closes close hs -> ends cfg ns steps p -> holds (hs ++ H) (handles_of s) -> attached s = ∅ -> started s = false ->
  ended cfg (ns ++ [i]) steps H (defer a told i (on_world close) p s).
Proof.
  intros Hc Hp Hh Ha Hs. specialize (Hp _ s Hh Ha Hs). unfold defer. prog_unfold. destruct (p s) as [r s1].
  apply (ended_told _ _ i) in Hp. destruct (meanwhile a told i s1) as [[] s2]. destruct Hp as (Hr & Hs2 & Hd & L & H1 & E).
  cbn [fst snd] in *. unfold on_world. apply (holds_perm _ (hs ++ L ++ H)) in H1. 2: by rewrite Permutation_app_swap_app.
  destruct (Hc _ _ H1) as (? & -> & H2). destruct (close (handles_of s2)) as [[] w]. split_and!; [done..|]. by exists L.
Qed.

Lemma Close_closes p : closes (Close p) (handles p).
Proof.
  intros H. unfold handles, Close. cbn [app].
  eapply triple_bind; [apply triple_release|]. intros [] ? ->. eapply triple_bind; [apply triple_release|]. intros [] ? ->. apply triple_release_all.
Qed.

Lemma close_all_closes ps : closes (close_all ps) (owned ps).
Proof.
  induction ps as [|[k p] ps IH]; intros H; [by apply triple_ret|].
  change (triple ((handles p ++ owned ps) ++ H) (Close p;; close_all ps) (fun _ H' => H' = H)). rewrite <- app_assoc.
  eapply triple_bind; [apply Close_closes|]. intros [] ? ->. apply IH.
Qed.

Definition tls_steps (cfg : CmdConfig) : list (bool * ending) :=
  (bool_decide (is_Some (NewTLSProbe a o (sslPath cfg))), PanicTLS) :: probe_steps cfg.

(** The whole of what the TLS probe does before it is closed. *)
Lemma tour_tls cfg r : (0 < stages r)%nat -> tour cfg 0 r = (0%nat :: tour cfg 1 r) ++ [11%nat].
Proof. intros Hr. by rewrite tour_up by lia. Qed.

Lemma run_tls_ends cfg : ends cfg [] (tls_steps cfg) (run_tls a sys o ReadFile listens told cfg).
Proof.
  unfold run_tls, tls_steps. destruct (NewTLSProbe a o (sslPath cfg)) as [new|] eqn:E; [|by apply ends_fail].
  intros H s (Hb & N & El) _ _. apply NewTLSProbe_libs in E as ->. rewrite bool_decide_true by eauto. apply ended_ok.
  pose proof (attach_libs_held a o (initial_libs a o (sslPath cfg)) H ∅ (handles_of s) no_ledger (held_fresh _ _ Hb N El)) as H0.
  unfold on_tls at 1, defer. prog_unfold. destruct (attach_libs a o _ ∅ (handles_of s)) as [ps w]. destruct H0 as (L0 & H0 & E0).
  set (s0 := {| handles_of := w; attached := ps; started := true |}). set (l0 := ledger_libs a o _ no_ledger) in *.
  pose proof (clean_told 0 _ _ _ (run_stdio_clean cfg) _ l0 s0 H0 eq_refl) as H1. prog_unfold. unfold go_Start. cbn [handles_of attached]. fold s0.
  destruct (meanwhile a told 0 s0) as [[] s1]. destruct (run_stdio a sys ReadFile listens told cfg s1) as [r s2]. destruct H1 as (Hr & Hs2 & L & H1 & E1).
  pose proof (meanwhile_held 11 _ _ s2 H1 Hs2) as Hm. destruct (meanwhile a told 11 s2) as [[] s3]. cbn [snd] in Hm. destruct Hm as (Hs3 & L3 & H3 & E3).
  assert (0 < stages r)%nat as Hst.
  { assert (Forall (fun e => (0 < stages e)%nat) (Cancelled :: (probe_steps cfg).*2)) as Hf
      by (repeat (apply Forall_cons_2; [cbn; lia|]); apply Forall_nil_2).
    rewrite Forall_forall in Hf. rewrite Hr. apply Hf, first_failure_in. }
  pose proof (held_holds _ _ _ _ H3) as H4. unfold tls_Close, on_world.
  destruct (close_all_closes (map_to_list (attached s3)) (L3 ++ L ++ L0 ++ H) (handles_of s3)) as (? & -> & H5).
  { eapply holds_perm; [apply Permutation_app_comm|done]. }
  destruct (close_all _ (handles_of s3)) as [[] w2]. unfold ended, at_end. cbn [fst snd handles_of attached started] in *.
  fold l0. rewrite (tour_tls cfg r Hst), after_app. destruct (stages r) as [|k]; [lia|]. cbn [late fold_left after] in *.
  destruct H3 as [Hd _]. split_and!; [done..|]. exists (L3 ++ L ++ L0). rewrite <- !app_assoc, !length_app. split; [done|]. unfold after in *. cbn in E0. lia.
Qed.

(** The steps of [run]. *)
Definition exec_steps (cfg : CmdConfig) : list (bool * ending) :=
  (unlocks, InitEBPF) :: (ready sys "exec" exec_names ["proc_events"%string; "dynlib_events"%string], InitExec) :: tls_steps cfg.

Definition run_steps (cfg : CmdConfig) : list (bool * ending) :=
  (bool_decide (is_Some (Target.NewSink Parse healthy openable (exportTarget cfg))), InitExporter) :: exec_steps cfg.

Lemma NewExporter_triple sink H : triple H (NewExporter sink) (fun rb H' => H' = reader rb ++ H).
Proof. destruct sink; cbn [NewExporter]; try (by apply triple_ret). acquired. by apply triple_ret. Qed.

Lemma run_exec_ends cfg : ends cfg [12%nat] (exec_steps cfg) (run_exec a sys o ReadFile listens unlocks told cfg).
Proof.
  unfold run_exec, exec_steps. destruct unlocks; [|by apply ends_fail].
  intros H1 s Hh Ha Hs. rewrite on_world_bind. destruct (NewProcExecProbe_constructs sys _ _ Hh) as (H2 & HQ & H2w).
  destruct (NewProcExecProbe sys (handles_of s)) as [x w]. cbn [fst snd] in *. apply ended_ok.
  destruct x as [x| |]; [destruct HQ as [-> HQ]|destruct HQ as [-> (L & HQ & El)]..].
  - apply ended_ok. eapply (ended_defer _ [] _ _ _ (exec_handles x)); [intros ?; apply exec_Close_triple|apply run_tls_ends| |done..].
    cbn. by eapply holds_perm.
  - eapply ended_early; [done|done|symmetry; exact El| |done..]. by eapply holds_perm.
  - eapply ended_early; [done|done|symmetry; exact El| |done..]. by eapply holds_perm.
Qed.

Lemma run_ends cfg : ends cfg [12%nat; 13%nat] (run_steps cfg) (run_exporter a sys o Parse healthy openable ReadFile listens unlocks told cfg).
Proof.
  unfold run_exporter, run_steps. destruct (Target.NewSink Parse healthy openable (exportTarget cfg)) as [sink|]; [|by apply ends_fail].
  rewrite bool_decide_true by eauto. intros H s Hh Ha Hs. rewrite on_world_bind. destruct (NewExporter_triple sink H _ Hh) as (? & -> & H1).
  destruct (NewExporter sink (handles_of s)) as [rb w]. cbn [fst snd] in H1.
  apply ended_ok. eapply (ended_defer _ [12%nat] _ _ _ (reader rb)); [intros ?; apply triple_reader|apply run_exec_ends|done..].
Qed.

(** C12. The life of the collector.  [run] makes the exporter and the six probes, starts
    the receiver and waits; what it opened is closed again when it ends, whichever step
    fails or panics, and whatever the TLS probe was told between the steps and between
    the deferred calls.  It ends as the first step that cannot be made says, with the
    cancelled context when all can; and it leaves open exactly as many handles as the
    attempts of the TLS probe lost and the libraries have that it attached to after it
    was closed, plus the loaded objects of the stdio or exec probe, or the objects and
    links of the postgres probe, when it is there that it failed. *)
Theorem run_accounted cfg w r w' :
  bounded w -> run a sys o Parse healthy openable ReadFile listens unlocks told cfg w = (r, w') ->
  r = first_failure (run_steps cfg) /\
  exists L, NoDup L /\ Forall (fun h => h ∉ live w) L /\ length L = left_open cfg r /\ live w' = live w ∪ list_to_set L.
Proof.
  unfold run. intros Hb E. set (s := {| handles_of := w; attached := ∅; started := false |}) in *.
  pose proof (run_ends cfg (base.elements (live w)) s) as He.
  destruct (run_exporter a sys o Parse healthy openable ReadFile listens unlocks told cfg s) as [r' s']. apply pair_eq in E as [-> <-].
  destruct He as (Hr & _ & _ & L & (_ & N & El) & Hl); [|done..|]. { split_and!; [done|apply NoDup_elements|]. by rewrite list_to_set_elements_L. }
  split; [done|]. exists L. apply NoDup_app in N as (N & Hd & _). split_and!; [done| |done|].
  - apply Forall_forall. intros h Hh Hin. apply (Hd h Hh). by apply elem_of_elements.
  - cbn [snd] in El. rewrite El, list_to_set_app_L, list_to_set_elements_L. set_solver.
Qed.
End Run.

(** ** Paths *)

Section Clean.
Import Target.

(** The components that [filepath.Clean] keeps of a rooted path. *)
Definition kept (p : list Z) : Prop := p <> [] /\ p <> str "." /\ p <> str ".." /\ 47 ∉ p.

Lemma clean_parts_kept parts stack :
  Forall (fun p => 47 ∉ p) parts -> Forall kept stack -> Forall kept (clean_parts true parts stack).
Proof.
  intros Hp. revert stack. induction Hp as [|p parts Hp _ IH]; intros stack Hs; cbn [clean_parts]; [by apply Forall_reverse|].
  destruct (decide (p = [] \/ p = str ".")); [by apply IH|]. destruct (decide (p = str "..")).
  - destruct stack as [|top stack]; [by apply IH|]. apply Forall_cons in Hs as [Ht Hs].
    rewrite decide_False by apply Ht. by apply IH.
  - apply IH. constructor; [|done]. unfold kept. tauto.
Qed.

Lemma clean_parts_id ps stack : Forall kept ps -> clean_parts true ps stack = reverse stack ++ ps.
Proof.
  intros Hp. revert stack. induction Hp as [|p ps (H1 & H2 & H3 & H4) _ IH]; intros stack; cbn [clean_parts]; [by rewrite app_nil_r|].
  rewrite !decide_False by tauto. rewrite IH, reverse_cons, <- app_assoc. done.
Qed.

Lemma split_on_noslash s : Forall (fun p => 47 ∉ p) (split_on 47 s).
Proof.
  induction s as [|x s IH]; cbn [split_on]; [apply Forall_singleton; set_solver|].
  destruct (Z.eqb_spec x 47); [constructor; [apply not_elem_of_nil|done]|].
  destruct (split_on 47 s) as [|p ps]; [apply Forall_singleton; set_solver|]. apply Forall_cons in IH as [Hp Hps].
  constructor; [set_solver|done].
Qed.

(** A path that starts at the root, and its components. *)
Definition rooted (ps : list (list Z)) : list Z := 47 :: join_with 47 ps.

Lemma IsAbs_rooted p : IsAbs (47 :: p) = true.
Proof. apply (HasPrefix_app (str "/")). Qed.

Lemma Clean_kept path : IsAbs path = true -> exists ps, Forall kept ps /\ Clean path = rooted ps.
Proof.
  intros Ha. unfold Clean. rewrite Ha. eexists. split; [|done]. apply clean_parts_kept; [apply split_on_noslash|constructor].
Qed.

Lemma Clean_rooted ps : Forall kept ps -> Clean (rooted ps) = rooted ps.
Proof.
  intros Hps. unfold Clean, rooted. rewrite IsAbs_rooted. do 2 f_equal. cbn [split_on]. rewrite Z.eqb_refl. cbn [clean_parts].
  rewrite decide_True by tauto. destruct ps as [|p ps]; [done|].
  rewrite split_join; [by apply clean_parts_id|done|]. eapply Forall_impl; [exact Hps|]. by intros q (_ & _ & _ & ?).
Qed.

(** Only bytes of the path are kept. *)
Lemma join_with_Forall (P : Z -> Prop) ps : P 47 -> Forall (Forall P) ps -> Forall P (join_with 47 ps).
Proof.
  intros H47. induction 1 as [|p [|q ps] Hp Hps IH]; [constructor|done|].
  change (Forall P (p ++ 47 :: join_with 47 (q :: ps))). apply Forall_app. split; [done|]. by constructor.
Qed.

Lemma split_on_Forall (P : Z -> Prop) s : Forall P s -> Forall (Forall P) (split_on 47 s).
Proof.
  induction 1 as [|x s Hx Hs IH]; cbn [split_on]; [by repeat constructor|]. destruct (x =? 47); [by constructor|].
  destruct (split_on 47 s) as [|p ps]; [by repeat constructor|]. apply Forall_cons in IH as [Hp Hps]. constructor; [by constructor|done].
Qed.

Lemma clean_parts_Forall (P : list Z -> Prop) rooted parts stack : Forall P parts -> Forall P stack -> Forall P (clean_parts rooted parts stack).
Proof.
  intros Hp. revert stack. induction Hp as [|p parts Hp _ IH]; intros stack Hs; cbn [clean_parts]; [by apply Forall_reverse|].
  destruct (decide (p = [] \/ p = str ".")); [by apply IH|]. destruct (decide (p = str "..")); [|apply IH; by constructor].
  destruct stack as [|top stack]; [destruct rooted; apply IH; by repeat constructor|]. pose proof Hs as [Ht Hs']%Forall_cons.
  destruct (decide (top = str "..")); apply IH; [by constructor|done].
Qed.

Lemma Clean_Forall (P : Z -> Prop) path : P 47 -> IsAbs path = true -> Forall P path -> Forall P (Clean path).
Proof.
  intros H47 Ha Hp. unfold Clean. rewrite Ha. constructor; [done|]. apply join_with_Forall; [done|].
  apply clean_parts_Forall; [by apply split_on_Forall|constructor].
Qed.
End Clean.

(** The characters that mean nothing to the parser of URLs in a path. *)
Definition plain_char (c : Z) : bool := bool_decide (c ∈ str "ABCDEFGHIJKLMNOPQRSTUVWXYZabcdefghijklmnopqrstuvwxyz0123456789-._~/").

(** What is relied on of [url.Parse]. *)
Class PlainURLs (Parse : list Z -> option Target.URL) : Prop :=
  parse_plain path : Forall plain_char path -> Target.IsAbs path = true ->
    Parse (str "file://" ++ path) = Some {| Target.Scheme := str "file"; Target.Host := []; Target.UPath := path |}.

Section Tui.
Context {Parse : list Z -> option Target.URL} `{HP : !PlainURLs Parse} (healthy openable : list Z -> bool).

Lemma tmp_file_plain dir : Target.IsAbs dir = true -> Forall plain_char dir ->
  let file := Join dir (str "events.jsonl") in
  Forall plain_char file /\ Target.IsAbs file = true /\ Target.Clean file = file.
Proof.
  intros Ha Hp. unfold Join. apply HasPrefix_true in Ha as [t ->]. change (str "/" ++ t) with (47 :: t) in *. cbv zeta iota.
  change (str "events.jsonl") with (101 :: str "vents.jsonl"). cbv iota.
  assert (Target.IsAbs ((47 :: t) ++ 47 :: 101 :: str "vents.jsonl") = true) as Ha by apply IsAbs_rooted.
  split; [|destruct (Clean_kept _ Ha) as (ps & Hps & ->); split; [apply IsAbs_rooted|by apply Clean_rooted]].
  apply Clean_Forall; [done|done|]. apply Forall_app. split; [done|]. apply (bool_decide_eq_true_1 (Forall plain_char _)). vm_compute. reflexivity.
Qed.

(** The interface shows what the collector writes.  With the interface, the target
    that [run] is given makes a sink of the very file that the interface follows, be it
    the file of the user's target or the one in a temporary directory whose name has no
    character that is special in URLs; and a log path given is kept. *)
Theorem tui_follows_sink MkdirTemp target logPath t file log dir :
  resolveRuntimePaths Parse MkdirTemp target logPath true = Some (t, file, log, dir) ->
  (target = [] -> Target.IsAbs dir = true /\ Forall plain_char dir) -> (target <> [] -> HasPrefix target (str "file://") = true) ->
  openable file = true ->
  Target.NewSink Parse healthy openable t = Some (Target.JSONLSink file) /\ (logPath <> [] -> log = logPath).
Proof.
  intros E Htmp Hgiven Ho.
  assert (HasPrefix t (str "file://") = true /\ Target.FilePathFromTarget Parse t = Some file /\ (logPath <> [] -> log = logPath)) as (Hpre & Hf & Hl).
  { unfold resolveRuntimePaths in E. cbn [negb] in E. destruct (decide (target = [])) as [->|Hn].
    - destruct MkdirTemp as [path|]; [|done]. cbv zeta in E. apply (inj Some) in E.
      assert (dir = path) as -> by congruence. destruct (Htmp eq_refl) as [Ha Hp]. destruct (tmp_file_plain path Ha Hp) as (H1 & H2 & H3).
      assert (file = Join path (str "events.jsonl")) as -> by congruence. assert (t = str "file://" ++ Join path (str "events.jsonl")) as -> by congruence.
      assert (log = if decide (logPath = []) then Join path (str "watchu.log") else logPath) as -> by congruence.
      split_and!; [apply HasPrefix_app| |intros Hlog; by rewrite decide_False].
      unfold Target.FilePathFromTarget. rewrite parse_plain by done. cbn [Target.Scheme Target.Host Target.UPath].
      rewrite !bool_decide_true by done. cbn [negb andb]. rewrite bool_decide_false; [by rewrite H3, H2|]. intros E0. by rewrite E0 in H2.
    - destruct (Target.FilePathFromTarget Parse target) as [f|] eqn:Ef; [|done]. cbv zeta in E. apply (inj Some) in E.
      assert (t = target /\ file = f) as [-> ->] by (split; congruence). split_and!; [by apply Hgiven|done|].
      intros Hlog. rewrite decide_False in E by done. congruence. }
  split; [|done]. unfold Target.NewSink, Target.NewJSONLSink. apply HasPrefix_true in Hpre as [u ->].
  rewrite decide_False by done. change (str "file://" ++ u) with (102 :: str "ile://" ++ u).
  change (HasPrefix _ (str "http://") || HasPrefix _ (str "https://")) with false. cbv iota.
  change (102 :: str "ile://" ++ u) with (str "file://" ++ u). rewrite HasPrefix_app. prog_unfold. rewrite Hf. cbn. by rewrite Ho.
Qed.
End Tui.

(** ** Witnesses *)

(** A machine on which one program of the postgres probe does not attach, and the TLS
    probe is told of a bundle before the stdio probe is made, and of a library after it
    was closed. *)
Module RunDemo.
Definition sys : system := {|
  loads set := true;
  attaches set name := negb (bool_decide (set = "pg"%string /\ name = "sys_enter_close"%string));
  opens_ring set name := true;
  GOARCH := "amd64"%string |}.

Definition cfg : CmdConfig := {| exportTarget := []; sslPath := []; otelAddr := []; fileOpPolicyPath := [] |}.
Definition told (i : nat) : list (os * event) :=
  if decide (i = 0%nat) then [(AttachDemo.o, Proc_ 50)] else if decide (i = 12%nat) then [(AttachDemo.o, AttachDemo.mapped_lib)] else [].
Definition Parse (target : list Z) : option Target.URL :=
  path ← CutPrefix target (str "file://");
  Some {| Target.Scheme := str "file"; Target.Host := []; Target.UPath := path |}.

Definition result : ending * world :=
  run arch_amd64 sys AttachDemo.o Parse (fun _ => false) (fun _ => true) (fun _ => None) (fun _ => true) true told cfg fresh.
End RunDemo.

(** It panics there and leaves open two handles of the postgres probe, the one that the
    TLS probe lost, and the ten of the library. *)
Lemma run_accounted_witness : RunDemo.result.1 = PanicPostgres /\ size (live RunDemo.result.2) = 13%nat.
Proof.
  destruct (run_accounted arch_amd64 RunDemo.sys AttachDemo.o RunDemo.Parse (fun _ => false) (fun _ => true) (fun _ => None) (fun _ => true) true
    RunDemo.told RunDemo.cfg fresh RunDemo.result.1 RunDemo.result.2) as (Hr & L & N & _ & Hl & E).
  - intros h H. by apply not_elem_of_empty in H.
  - apply surjective_pairing.
  - rewrite E. change (live fresh) with (∅ : gset nat). rewrite union_empty_l_L, size_list_to_set by done. rewrite Hl, Hr.
    split; vm_compute; reflexivity.
Defined.

Instance demo_plain : PlainURLs RunDemo.Parse.
Proof. intros path _ _. unfold RunDemo.Parse. by rewrite (proj2 (CutPrefix_Some _ _ _) eq_refl). Qed.

Lemma tui_follows_sink_witness :
  Target.NewSink RunDemo.Parse (fun _ => false) (fun _ => true) (str "file:///tmp/watchu-tui-1/events.jsonl") =
    Some (Target.JSONLSink (str "/tmp/watchu-tui-1/events.jsonl")).
Proof.
  refine (proj1 (tui_follows_sink (HP := demo_plain) (fun _ => false) (fun _ => true) (Some (str "/tmp/watchu-tui-1")) [] [] _ _
    (str "/tmp/watchu-tui-1/watchu.log") (str "/tmp/watchu-tui-1") _ _ _ _)).
  - vm_compute. reflexivity.
  - intros _. split; [vm_compute; reflexivity|]. apply (bool_decide_eq_true_1 (Forall plain_char _)). vm_compute. reflexivity.
  - done.
  - reflexivity.
Defined.
