(* ===== verification/Shutdown.v ===== *)
(** The goroutines of the collector and the end of [run].

    The collector is a set of goroutines that read ring buffers and send on channels;
    [run], when the context is done, closes the readers and some of the channels, and the
    goroutines close the others as they return.  A goroutine that sends on a closed
    channel panics, which ends the process.  Each goroutine is here a list of the
    instructions that others can notice, in the order of the code, and a schedule is any
    sequence of their steps; [shutdown_panics] says which channels can be the reason of
    a panic and which cannot. *)

From stdpp Require Import functions.
From S2P Require Import Prelude.

(** The channels and the ring buffers of the collector; [server] stands for the requests
    that the gRPC server hands out. *)
Inductive chan :=
  | ProcChan | ExecChan | DynLibChan | execChannel | reqChan | respChan | postgresChan | stdioChannel | pgChannel
  | tcpconnChannel | fileopChannel | eventChan.
Inductive ring := rbProc | rbDynLib | rbTLS | rbStdio | rbPg | rbTcpconn | rbFileop | server.

Instance chan_eq_dec : EqDecision chan.
Proof. solve_decision. Defined.
Instance ring_eq_dec : EqDecision ring.
Proof. solve_decision. Defined.

(** ** Instructions *)

(** The labels are positions in the code of the goroutine, which has returned when it is
    past the end.
    - [ReadInto r l]: [ReadInto], and the decoding: it stays when there is an error, and
      goes on at [l] when the reader is closed;
    - [Send c l]: [select] with a send on [c], a default, and, if [l] is given, a case
      for the end of the context that goes on there;
    - [Poll cs l]: [select] with receives, each with the label for a closed channel, and
      a case for the end of the context;
    - [Tick l]: [select] with a ticker and the end of the context;
    - [Branch l]: a condition on the data;
    - [Wait gs]: [Wait] of a wait group with these goroutines. *)
Inductive instr :=
  | ReadInto (r : ring) (closed : nat)
  | Send (c : chan) (done : option nat)
  | Poll (cs : list (chan * nat)) (done : nat)
  | Tick (done : nat)
  | Branch (other : nat)
  | Goto (l : nat)
  | Done
  | CloseReader (r : ring)
  | CloseChan (c : chan)
  | Wait (gs : list nat).

Record state := {
  pcs : list nat;
  done : bool;
  stopped : ring -> bool;
  closed : chan -> bool;
  buffered : chan -> nat;
  panicked : option chan;
}.

Definition with_pcs (v : list nat) (s : state) : state :=
  {| pcs := v; done := done s; stopped := stopped s; closed := closed s; buffered := buffered s; panicked := panicked s |}.
Definition with_done (s : state) : state :=
  {| pcs := pcs s; done := true; stopped := stopped s; closed := closed s; buffered := buffered s; panicked := panicked s |}.
Definition with_stopped (r : ring) (s : state) : state :=
  {| pcs := pcs s; done := done s; stopped := <[r := true]> (stopped s); closed := closed s; buffered := buffered s;
     panicked := panicked s |}.
Definition with_closed (c : chan) (s : state) : state :=
  {| pcs := pcs s; done := done s; stopped := stopped s; closed := <[c := true]> (closed s); buffered := buffered s;
     panicked := panicked s |}.
Definition with_buffered (c : chan) (n : nat) (s : state) : state :=
  {| pcs := pcs s; done := done s; stopped := stopped s; closed := closed s; buffered := <[c := n]> (buffered s);
     panicked := panicked s |}.
Definition with_panic (c : chan) (s : state) : state :=
  {| pcs := pcs s; done := done s; stopped := stopped s; closed := closed s; buffered := buffered s; panicked := Some c |}.

Section Machine.
Context (program : list (list instr)) (size : nat).

Definition returned (s : state) (g : nat) : bool :=
  match program !! g, pcs s !! g with
  | Some code, Some pc => bool_decide (length code <= pc)%nat
  | _, _ => true
  end.

(** What an instruction at [pc] does when it takes its [k]-th alternative: the next
    label and state, or the channel for which it panics; [None] when the alternative is
    not ready. *)
Inductive outcome := Next (pc : nat) (s : state) | Panic (c : chan).

Definition do (i : instr) (k pc : nat) (s : state) : option outcome :=
  match i with
  | ReadInto r l =>
      if stopped s r then Some (Next l s)
      else Some (Next (if decide (k = 0%nat) then S pc else pc) s)
  | Send c l =>
      match k with
      | 0%nat =>
          if closed s c then Some (Panic c)
          else if decide (buffered s c < size)%nat then Some (Next (S pc) (with_buffered c (S (buffered s c)) s)) else None
      | 1%nat =>
          match l with Some l => if done s then Some (Next l s) else None | None => None end
      | _ =>
          if closed s c || bool_decide (buffered s c < size)%nat || (done s && bool_decide (is_Some l)) then None
          else Some (Next (S pc) s)
      end
  | Poll cs l =>
      match cs !! k with
      | Some (c, l') =>
          match buffered s c with
          | S n => Some (Next (S pc) (with_buffered c n s))
          | 0%nat => if closed s c then Some (Next l' s) else None
          end
      | None => if done s then Some (Next l s) else None
      end
  | Tick l =>
      if decide (k = 0%nat) then Some (Next (S pc) s)
      else if done s then Some (Next l s) else None
  | Branch l => Some (Next (if decide (k = 0%nat) then S pc else l) s)
  | Goto l => Some (Next l s)
  | Done => if done s then Some (Next (S pc) s) else None
  | CloseReader r => Some (Next (S pc) (with_stopped r s))
  | CloseChan c => if closed s c then Some (Panic c) else Some (Next (S pc) (with_closed c s))
  | Wait gs => if forallb (returned s) gs then Some (Next (S pc) s) else None
  end.

(** A step: of a goroutine, of the exporter, which receives from the channels it is
    given, or the end of the context. *)
Inductive action := Go (g k : nat) | Receive (c : chan) | Cancel.

Definition exported (c : chan) : bool := bool_decide (c ∉ [ProcChan; ExecChan; DynLibChan]).

Definition step (a : action) (s : state) : option state :=
  match panicked s with
  | Some _ => None
  | None =>
      match a with
      | Cancel => Some (with_done s)
      | Receive c =>
          match exported c, buffered s c with
          | true, S n => Some (with_buffered c n s)
          | _, _ => None
          end
      | Go g k =>
          code ← program !! g;
          pc ← pcs s !! g;
          i ← code !! pc;
          o ← do i k pc s;
          Some match o with
               | Next pc' s' => with_pcs (<[g := pc']> (pcs s')) s'
               | Panic c => with_panic c s
               end
      end
  end.

Definition start : state :=
  {| pcs := (fun _ => 0%nat) <$> program; done := false; stopped := fun _ => false; closed := fun _ => false;
     buffered := fun _ => 0%nat; panicked := None |}.

Fixpoint follow (sched : list action) (s : state) : option state :=
  match sched with
  | [] => Some s
  | a :: sched' => s' ← step a s; follow sched' s'
  end.

Inductive reachable : state -> Prop :=
  | reachable_start : reachable start
  | reachable_step a s s' : reachable s -> step a s = Some s' -> reachable s'.
End Machine.

(** ** The goroutines *)

(** [Start] of the stdio, postgres, tcpconn and fileop probes, with [close(channel)]
    deferred: a record is read, may be left out, and is sent. *)
Definition reader_Start (r : ring) (c : chan) : list instr :=
  [ReadInto r 4; Branch 0; Send c None; Goto 0; CloseChan c].
Definition stdio_Start : list instr := reader_Start rbStdio stdioChannel.
Definition postgres_Start : list instr := [ReadInto rbPg 3; Send pgChannel None; Goto 0; CloseChan pgChannel].
Definition tcpconn_Start : list instr := reader_Start rbTcpconn tcpconnChannel.
Definition fileop_Start : list instr := reader_Start rbFileop fileopChannel.

(** [Start] of the exec probe, which is two goroutines, and [IngestExecEvents]. *)
Definition exec_Start_proc : list instr := [ReadInto rbProc 4; Send ProcChan (Some 4%nat); Send ExecChan (Some 4%nat); Goto 0].
Definition exec_Start_dynlib : list instr := [ReadInto rbDynLib 3; Send DynLibChan (Some 3%nat); Goto 0].
Definition IngestExecEvents : list instr :=
  [Poll [(ExecChan, 4%nat)] 4; Branch 0; Send execChannel (Some 4%nat); Goto 0; CloseChan execChannel].

(** [Start] of the TLS probe, which waits for those of its goroutines that read a ring
    buffer, and these; and [Parse] of the store, with the loops of [parseRequest] and
    [parseResponse] over the records. *)
Definition tls_Start (handlers : list nat) : list instr :=
  [Poll [(ProcChan, 0%nat); (DynLibChan, 0%nat)] 2; Goto 0; Wait handlers; CloseChan reqChan; CloseChan respChan; CloseChan postgresChan].
Definition tls_handle : list instr := [ReadInto rbTLS 2; Goto 0].
Definition tls_Parse : list instr :=
  [Tick 10; Branch 7; Branch 5; Send postgresChan None; Goto 1; Send reqChan None; Goto 1; Branch 0; Send respChan None; Goto 7].

(** [Export] of the receiver, for each request; [GracefulStop] keeps requests from
    coming and waits for those that are there. *)
Definition otel_Export : list instr := [ReadInto server 4; Branch 0; Send eventChan None; Goto 1].
Definition otel_Close (handlers : list nat) : list instr := [CloseReader server; Wait handlers; CloseChan eventChan].

(** [run] once everything is started: the deferred calls, last first. *)
Definition run_end : list instr :=
  Done :: otel_Close [11%nat] ++
  [CloseReader rbFileop; CloseReader rbTcpconn; CloseReader rbPg; CloseReader rbStdio; CloseReader rbTLS; CloseReader rbProc;
   CloseReader rbDynLib; CloseChan ProcChan; CloseChan ExecChan; CloseChan DynLibChan].

Definition collector : list (list instr) :=
  [run_end; exec_Start_proc; exec_Start_dynlib; IngestExecEvents; tls_Start [5%nat]; tls_handle; tls_Parse; stdio_Start;
   postgres_Start; tcpconn_Start; fileop_Start; otel_Export].

(** ** Steps *)

(** The instruction sends on the channel or closes it; it may go on at these labels. *)
Definition uses (c : chan) (i : instr) : bool :=
  match i with Send c' _ | CloseChan c' => bool_decide (c = c') | _ => false end.

Definition targets (i : instr) : list nat :=
  match i with
  | ReadInto _ l | Tick l | Branch l | Goto l | Send _ (Some l) => [l]
  | Poll cs l => l :: cs.*2
  | _ => []
  end.

Definition goes (i : instr) (pc pc' : nat) : Prop := pc' = pc \/ pc' = S pc \/ pc' ∈ targets i.

Section Steps.
Context (program : list (list instr)) (size : nat).

Lemma do_next i k pc s pc' s1 : do program size i k pc s = Some (Next pc' s1) ->
  pcs s1 = pcs s /\ panicked s1 = panicked s /\ goes i pc pc' /\
  (forall c, closed s1 c = true -> closed s c = true \/ i = CloseChan c /\ pc' = S pc) /\
  (forall gs, i = Wait gs -> forallb (returned program s) gs = true).
Proof.
  unfold goes. destruct i; cbn [do]; intros E; repeat case_match; simplify_eq; cbn [targets pcs panicked closed with_buffered with_stopped];
    split_and!; try done; try (by auto with datatypes); try set_solver; try naive_solver.
  - right. right. right. apply list_elem_of_fmap. exists (c, pc'). split; [done|]. by eapply list_elem_of_lookup_2.
  - intros c0 Hc. cbn [closed with_closed] in Hc. destruct (decide (c = c0)) as [->|Hne]; [by right|]. left. by rewrite fn_lookup_insert_ne in Hc.
Qed.

Lemma do_panic i k pc s c : do program size i k pc s = Some (Panic c) -> closed s c = true /\ uses c i = true.
Proof. destruct i; cbn [do uses]; intros E; repeat case_match; simplify_eq; (split; [done|by apply bool_decide_eq_true]). Qed.

(** A step moves one goroutine, and closes at most the channel it is about to close; or
    it is a panic, on a closed channel; or it moves none. *)
Inductive steps_to (s s' : state) : Prop :=
  | idle : pcs s' = pcs s -> closed s' = closed s -> panicked s' = None -> steps_to s s'
  | moved g code pc i pc' :
      program !! g = Some code -> pcs s !! g = Some pc -> code !! pc = Some i ->
      pcs s' = <[g := pc']> (pcs s) -> panicked s' = None -> goes i pc pc' ->
      (forall c, closed s' c = true -> closed s c = true \/ i = CloseChan c /\ pc' = S pc) ->
      (forall gs, i = Wait gs -> forallb (returned program s) gs = true) -> steps_to s s'
  | fatal g code pc i c :
      program !! g = Some code -> pcs s !! g = Some pc -> code !! pc = Some i ->
      closed s c = true -> uses c i = true -> s' = with_panic c s -> steps_to s s'.

Lemma step_inv a s s' : step program size a s = Some s' -> steps_to s s'.
Proof.
  unfold step. destruct (panicked s) eqn:Hp; [done|]. destruct a as [g k|c|].
  - destruct (program !! g) as [code|] eqn:Hg; [|done]. destruct (pcs s !! g) as [pc|] eqn:Hpc; [|done].
    cbn. destruct (code !! pc) as [i|] eqn:Hi; [|done]. cbn. destruct (do program size i k pc s) as [[pc' s1|c]|] eqn:E; [..|done]; cbn; intros [= <-].
    + apply do_next in E as (E1 & E2 & E3 & E4 & E5). eapply moved; try done; cbn [pcs panicked closed with_pcs]; [by rewrite E1|by rewrite E2].
    + apply do_panic in E as [E1 E2]. by eapply fatal.
  - destruct (exported c); [|done]. destruct (buffered s c); [done|]. intros [= <-]. by apply idle.
  - intros [= <-]. by apply idle.
Qed.

(** Schedules reach. *)
Lemma follow_reachable sched s s' : reachable program size s -> follow program size sched s = Some s' -> reachable program size s'.
Proof.
  revert s. induction sched as [|a sched IH]; intros s Hs; cbn [follow]; [by intros [= <-]|].
  destruct (step program size a s) as [s1|] eqn:E; [|done]. apply IH. by eapply reachable_step.
Qed.

(** ** Disciplines *)

(** A condition on every instruction, by goroutine and position. *)
Definition every (f : nat -> nat -> instr -> bool) : bool :=
  forallb id (mjoin (imap (fun g code => imap (f g) code) program)).

Lemma every_lookup f g code j i : every f = true -> program !! g = Some code -> code !! j = Some i -> f g j i = true.
Proof.
  unfold every. rewrite forallb_forall. intros H Hg Hj. apply H, list_elem_of_In, list_elem_of_join.
  exists (imap (f g) code). split; apply list_elem_of_lookup; [exists j|exists g]; rewrite list_lookup_imap; [by rewrite Hj|by rewrite Hg].
Qed.

Definition closes (c : chan) (i : instr) : bool := match i with CloseChan c' => bool_decide (c = c') | _ => false end.

(** Only the goroutine [g] sends on the channel; it closes it at [k] and then neither
    uses it nor goes back. *)
Definition owned (c : chan) (g k g' j : nat) (i : instr) : bool :=
  implb (uses c i) ((g' =? g)%nat && (j <=? k)%nat) && implb (closes c i) (j =? k)%nat &&
  implb ((g' =? g)%nat && (k <? j)%nat) (forallb (fun l => k <? l)%nat (targets i)).

(** The channel is closed by the goroutine [g], which never jumps, at [k], after it has
    waited at [w] for the goroutine [h], which alone sends on it. *)
Definition waited (c : chan) (g w k h g' j : nat) (i : instr) : bool :=
  implb (uses c i) (if closes c i then (g' =? g)%nat && (j =? k)%nat else (g' =? h)%nat) &&
  implb (g' =? g)%nat (bool_decide (targets i = [])) &&
  implb ((g' =? g)%nat && (j =? w)%nat) (match i with Wait gs => bool_decide (h ∈ gs) | _ => false end).

Lemma closes_uses c i : closes c i = true -> uses c i = true.
Proof. by destruct i. Qed.

Lemma owned_invariant c g k s : every (owned c g k) = true -> reachable program size s ->
  panicked s <> Some c /\ (closed s c = true -> exists pc, pcs s !! g = Some pc /\ (k < pc)%nat).
Proof.
  intros Hev. induction 1 as [|a s s' _ [IHp IHc] Hs]; [done|]. apply step_inv in Hs.
  destruct Hs as [E1 E2 E3|g' code pc i pc' Hg Hpc Hi E1 E2 Hgo Hcl _|g' code pc i c' Hg Hpc Hi Hc Hu ->].
  - rewrite E1, E2, E3. done.
  - rewrite E1, E2. split; [done|]. intros Hc. pose proof (every_lookup _ _ _ _ _ Hev Hg Hi) as Hf. unfold owned in Hf.
    destruct (Hcl c Hc) as [Hc'|[-> ->]].
    + destruct (IHc Hc') as (pc0 & Hg0 & Hk). destruct (decide (g' = g)) as [->|Hne]; [|exists pc0; by rewrite list_lookup_insert_ne].
      assert (pc0 = pc) as -> by congruence. exists pc'. split; [apply list_lookup_insert_eq; by eapply lookup_lt_Some|].
      apply andb_true_iff in Hf as [_ Hf]. rewrite Nat.eqb_refl, (proj2 (Nat.ltb_lt k pc)) in Hf by done. cbn [andb implb] in Hf.
      destruct Hgo as [->|[->|Ht]]; [lia..|]. rewrite forallb_forall in Hf. apply Nat.ltb_lt, Hf. by apply list_elem_of_In.
    + assert (closes c (CloseChan c) = true) as Hcc by by apply bool_decide_eq_true. pose proof (closes_uses _ _ Hcc) as Huu.
      rewrite Hcc, Huu in Hf. cbn [implb] in Hf. apply andb_true_iff in Hf as [[[Hgg _]%andb_true_iff Hk]%andb_true_iff _].
      apply Nat.eqb_eq in Hgg as ->. apply Nat.eqb_eq in Hk as ->. exists (S k). split; [|lia].
      apply list_lookup_insert_eq. by eapply lookup_lt_Some.
  - cbn [panicked with_panic pcs closed]. split; [|done]. intros [= ->]. destruct (IHc Hc) as (pc0 & Hg0 & Hk).
    pose proof (every_lookup _ _ _ _ _ Hev Hg Hi) as Hf. unfold owned in Hf. rewrite Hu in Hf. cbn [implb] in Hf.
    apply andb_true_iff in Hf as [[[Hgg Hle]%andb_true_iff _]%andb_true_iff _]. apply Nat.eqb_eq in Hgg as ->. apply Nat.leb_le in Hle.
    assert (pc0 = pc) as -> by congruence. lia.
Qed.

(** A goroutine that returned stays so, and takes no step. *)
Lemma returned_stuck s g code pc i :
  program !! g = Some code -> pcs s !! g = Some pc -> code !! pc = Some i -> returned program s g = false.
Proof. intros Hg Hpc Hi. unfold returned. rewrite Hg, Hpc. apply bool_decide_eq_false. apply lookup_lt_Some in Hi. lia. Qed.

Lemma returned_other s s' g h pc' : g <> h -> pcs s' = <[g := pc']> (pcs s) -> returned program s' h = returned program s h.
Proof. intros Hne E. unfold returned. by rewrite E, list_lookup_insert_ne. Qed.

Lemma waited_invariant c g w k h s :
  (w < k)%nat -> g <> h -> is_Some (program !! g) -> every (waited c g w k h) = true -> reachable program size s ->
  panicked s <> Some c /\
  exists pc, pcs s !! g = Some pc /\ (closed s c = true -> (k < pc)%nat) /\ ((w < pc)%nat -> returned program s h = true).
Proof.
  intros Hwk Hgh [codeg Hcodeg] Hev. induction 1 as [|a s s' _ (IHp & pc0 & Hpc0 & IHc & IHw) Hs].
  { split; [done|]. exists 0%nat. cbn [pcs start]. rewrite list_lookup_fmap, Hcodeg. split_and!; [done|done|lia]. }
  apply step_inv in Hs. destruct Hs as [E1 E2 E3|g' code pc i pc' Hg Hpc Hi E1 E2 Hgo Hcl Hwt|g' code pc i c' Hg Hpc Hi Hc Hu ->].
  - rewrite E1, E2, E3. split; [done|]. exists pc0. split_and!; [done..|]. intros Hlt. unfold returned. rewrite E1. by apply IHw.
  - rewrite E1, E2. split; [done|]. pose proof (every_lookup _ _ _ _ _ Hev Hg Hi) as Hf. unfold waited in Hf.
    apply andb_true_iff in Hf as [[Hf1 Hf2]%andb_true_iff Hf3]. destruct (decide (g' = g)) as [->|Hne].
    + assert (pc0 = pc) as -> by congruence. exists pc'. rewrite Nat.eqb_refl in Hf2, Hf3. cbn [implb andb] in Hf2, Hf3.
      apply bool_decide_eq_true in Hf2. assert (pc' = pc \/ pc' = S pc) as Hpc'.
      { destruct Hgo as [?|[?|Ht]]; [by left|by right|]. rewrite Hf2 in Ht. by apply not_elem_of_nil in Ht. }
      split_and!; [apply list_lookup_insert_eq; by eapply lookup_lt_Some| |].
      * intros Hc. destruct (Hcl c Hc) as [Hc'|[-> ->]]; [specialize (IHc Hc'); lia|].
        cbn [uses closes] in Hf1. rewrite bool_decide_true in Hf1 by done. rewrite Nat.eqb_refl in Hf1. apply Nat.eqb_eq in Hf1. lia.
      * intros Hlt. rewrite (returned_other s s' g h pc') by done. destruct (decide (w < pc)%nat) as [Hw|Hw]; [by apply IHw|].
        assert (pc = w) as -> by lia. rewrite Nat.eqb_refl in Hf3. cbn [implb] in Hf3. destruct i; try done.
        apply bool_decide_eq_true in Hf3. specialize (Hwt _ eq_refl). rewrite forallb_forall in Hwt. apply Hwt. by apply list_elem_of_In.
    + exists pc0. split_and!; [by rewrite list_lookup_insert_ne| |].
      * intros Hc. destruct (Hcl c Hc) as [Hc'|[-> ->]]; [by apply IHc|].
        cbn [uses closes] in Hf1. rewrite bool_decide_true in Hf1 by done. by rewrite (proj2 (Nat.eqb_neq g' g)) in Hf1.
      * intros Hlt. specialize (IHw Hlt). destruct (decide (g' = h)) as [->|Hne']; [|by rewrite (returned_other s s' g' h pc')].
        by rewrite (returned_stuck s h code pc i) in IHw.
  - cbn [panicked with_panic pcs closed]. split; [|by exists pc0]. intros [= ->]. specialize (IHc Hc).
    pose proof (every_lookup _ _ _ _ _ Hev Hg Hi) as Hf. unfold waited in Hf. rewrite Hu in Hf. cbn [implb] in Hf.
    apply andb_true_iff in Hf as [[Hf _]%andb_true_iff _]. destruct (closes c i).
    + apply andb_true_iff in Hf as [Hgg Hk]. apply Nat.eqb_eq in Hgg as ->. apply Nat.eqb_eq in Hk as ->. assert (pc0 = k) by congruence. lia.
    + apply Nat.eqb_eq in Hf as ->. rewrite (returned_stuck s h code pc i) in IHw by done. by specialize (IHw ltac:(lia)).
Qed.
End Steps.

(** ** The collector *)

(** All channels have this capacity. *)
Definition channelSize : nat := Z.to_nat 4096.

Notation reach := (reachable collector channelSize).

(** The channels that are closed while another goroutine may still send. *)
Definition racy (c : chan) : bool :=
  match c with ProcChan | ExecChan | DynLibChan | reqChan | respChan | postgresChan => true | _ => false end.

(** The other channels: who closes them, and where. *)
Definition owner (c : chan) : nat * nat :=
  match c with
  | execChannel => (3, 4) | stdioChannel => (7, 4) | pgChannel => (8, 3) | tcpconnChannel => (9, 4) | fileopChannel => (10, 4)
  | _ => (0, 0)
  end%nat.

Lemma safe_channels c s : racy c = false -> reach s -> panicked s <> Some c.
Proof.
  intros Hr Hs. destruct (decide (c = eventChan)) as [->|Hne].
  - apply (waited_invariant collector channelSize eventChan 0 2 3 11); [lia|done|by eexists|vm_compute; reflexivity|done].
  - apply (owned_invariant collector channelSize c (owner c).1 (owner c).2); [|done]. destruct c; try done; vm_compute; reflexivity.
Qed.

(** A schedule for each of the others: one goroutine is about to send when the context
    ends; then [run] closes the channel, or [Start] of the TLS probe does. *)
Definition run_closes : list action := Cancel :: Go 0 0 :: Go 0 0 :: Go 11 0 :: replicate 12 (Go 0 0).
Definition tls_closes : list action := run_closes ++ Go 5 0 :: replicate 5 (Go 4 2).

Definition race (c : chan) : list action :=
  match c with
  | ProcChan => Go 1 0 :: run_closes ++ [Go 1 0]
  | ExecChan => Go 1 0 :: Go 1 0 :: run_closes ++ [Go 1 0]
  | DynLibChan => Go 2 0 :: run_closes ++ [Go 2 0]
  | reqChan => Go 6 0 :: Go 6 0 :: Go 6 1 :: tls_closes ++ [Go 6 0]
  | respChan => Go 6 0 :: Go 6 1 :: Go 6 0 :: tls_closes ++ [Go 6 0]
  | postgresChan => Go 6 0 :: Go 6 0 :: Go 6 0 :: tls_closes ++ [Go 6 0]
  | _ => []
  end.

(** C13. Shutting down.  When the context ends, [run] closes the readers and the
    goroutines return one after the other, in any order.  In no schedule does the
    export channel of a probe, of [IngestExecEvents] or of the receiver panic: those who
    send on it have returned, or are the ones who close it.  But the three channels of
    the exec probe, which [Close] closes while its readers may still be between reading
    and sending, and the three that [Start] of the TLS probe closes without waiting for
    [Parse], can: a schedule leads to a send on the closed channel, which ends the
    process. *)
Theorem shutdown_panics c : (exists s, reach s /\ panicked s = Some c) <-> racy c = true.
Proof.
  split.
  - intros (s & Hs & Hp). destruct (racy c) eqn:Hr; [done|]. by apply (safe_channels c s Hr) in Hs.
  - intros Hr. assert (panicked <$> follow collector channelSize (race c) (start collector) = Some (Some c)) as H.
    { destruct c; try done; vm_compute; reflexivity. }
    destruct (follow collector channelSize (race c) (start collector)) as [s|] eqn:E; [|done]. exists s. split; [|by apply (inj Some) in H].
    eapply follow_reachable; [apply reachable_start|done].
Qed.
